(* ===== verification/_CoqProject ===== *)
-Q . S2P
Prelude.v
Wire.v
Rtp.v
Nal.v
AudioCodec.v
Packetizer.v
Transcode.v
FrameBuffer.v
GapBridging.v
BcMedia.v
StreamTranslate.v
XorCrypto.v
BcUdp.v
UdpFlow.v
BcXml.v
BcMsg.v
Text.v
RtspText.v
Sdp.v
RtspServer.v
RtspConn.v
SessionTask.v
WakeLock.v
BcConn.v
StreamSource.v
BcUdpXml.v
WakeServer.v
MqttControl.v
Mqtt.v
CameraRun.v
Commands.v
Login.v
Clock.v
Toml.v
Config.v
Hassio.v
Provider.v
Discovery.v
FindCamera.v
UdpDriver.v
UdpSource.v
MotionListener.v
CameraPort.v
CameraTasks.v
HaDiscovery.v
MqttLoop.v
Listeners.v
Cloud.v
GracePeriod.v
RtspSession.v
OneShot.v
