(* ===== verification/Prelude.v ===== *)
(** * Bairelay: a verification library

    Bairelay bridges Reolink cameras, which speak the Baichuan protocol over
    TCP or UDP, to RTSP clients and MQTT. This library models the parts of it
    that carry its own logic, as pure functions over the data the Rust code
    has, and proves what they promise. File names below are under [src/src/].

    ** The path of a picture

    Camera bytes reach the program over a UDP flow that reorders and
    acknowledges packets ([UdpFlow], over the packets of [BcUdp], run by the
    tasks of [UdpDriver] and read by [UdpSource]) or over TCP.
    They are control messages ([BcMsg]), enciphered ([XorCrypto]); the payload of
    the video messages is a second stream of media frames ([BcMedia]). The
    translator ([StreamTranslate]) turns media frames into access units and
    audio for RTP, splitting Annex-B video ([Nal]) and converting audio
    ([AudioCodec], [Transcode]); a cache keeps the last key frame and what
    follows ([FrameBuffer]) and a policy replays it while a sleeping camera is
    silent ([GapBridging]). For a client the RTSP server ([RtspServer], with the
    texts of [RtspText] and the description of [Sdp]) negotiates a session, and
    the packetizers ([Packetizer], [Rtp]) cut the frames into RTP packets.

    Four tasks carry a packet along that path. The control connection's poller
    ([BcConn]) hands each message to the command that waits on its id and
    number; the source's reader, ticker and pacers ([StreamSource]) run the
    translator and broadcast its frames at their pace; a session's send loops
    ([SessionTask]) start a client on the cached key frame and number its
    packets; and the wake locks ([WakeLock]) keep a battery camera connected
    while somebody watches.

    ** Around it

    A camera is looked for ([FindCamera]) on the network and at its registers
    ([Discovery]), supervised by one task ([CameraRun]) that logs in ([Login]),
    keeps the session alive and rebuilds it when it dies; a camera bound to an
    account is logged in with a bundle of its service ([Cloud]); the session's own
    tasks listen for motion ([MotionListener]) and poll the battery, the
    floodlight and the preview ([CameraTasks]), through the port that adapts the
    commands to the service ([CameraPort]). The wake server ([WakeServer])
    answers the discovery documents ([BcUdpXml]) of sleeping cameras and sends
    for them when a client asks; a connection of a sleeping camera to its push
    service is taken for motion ([Listeners], which has the RTSP server's accept
    loop too). Over a session the program reads and changes the camera's settings
    ([Commands], over the documents of [BcXml]), its clock among them ([Clock]).
    The MQTT side ([MqttControl], [Mqtt]) turns topics into those commands and
    publishes what happens; it announces the cameras to Home Assistant
    ([HaDiscovery]) and tells a new connection all of it again ([MqttLoop]). All
    of it is started from a TOML file ([Toml], [Config]), which the Home Assistant
    add-on writes ([Hassio]), and an orchestrator hands each component its
    cameras and its right to use them ([Provider]). From the command line one
    command runs in a session of its own and ends with an exit code ([OneShot]).

    ** Files

    - [Prelude]: this file. Machine integers ([in_u], [wrap]), results and
      panics ([result], [outcome] and their notations), little- and big-endian
      bytes, UTF-8, tactics and hint databases.
    - [Wire]: the combinators of nom and cookie-factory as the codecs use them:
      type classes with their documented laws and an instance of each, and the
      two composable notions the codecs' proofs rest on: [reads], a parser inverts
      a writer and waits on its prefixes, and [waits], a bound on what a parser
      can still ask for. [pump_frames]: the way bytes are cut into reads does not
      change what a streaming decoder yields.
    - [Rtp] (rtsp/rtp.rs), [Packetizer] (rtsp/codec/h264.rs, h265.rs,
      rtsp/server/packetizer.rs), [Nal] (rtsp/codec/nal.rs), [AudioCodec]
      (rtsp/codec/aac.rs, g711.rs), [Transcode] (rtsp/transcode/), [FrameBuffer]
      (rtsp/buffer.rs), [GapBridging] (gap_bridging.rs), [StreamTranslate]
      (stream_translate.rs).
    - [BcMedia] (baichuan/bcmedia/), [XorCrypto] (baichuan/bc/crypto.rs,
      baichuan/bcudp/xml_crypto.rs), [BcUdp] (baichuan/bcudp/), [UdpFlow]
      (baichuan/bc_protocol/connection/udpsource.rs, the flow state),
      [UdpDriver] and [UdpSource] (the same file, its tasks and its codec), [BcMsg]
      (baichuan/bc/ and the key derivation of credentials.rs).
    - [Text]: Rust's string operations on lists of scalar values, with byte
      offsets and the panics of slicing. [RtspText] (rtsp/protocol/transport.rs,
      rtsp/url.rs, rtsp/protocol/auth.rs), [Sdp] (rtsp/sdp.rs), [RtspServer]
      (rtsp/server/connection.rs, registry.rs, udp_pool.rs, transport.rs,
      rtsp/protocol/message.rs) and, for its theorems, [RtspConn]; [RtspSession]
      (rtsp/protocol/session.rs).
    - The tasks, as step relations or as functions of the events they select:
      [SessionTask] (rtsp/server/session_task.rs), [WakeLock] (wake_lock.rs),
      [BcConn] (baichuan/bc_protocol/connection/bcconn.rs, bcsub.rs),
      [StreamSource] (stream_source.rs), [CameraRun] (camera.rs, watchdog.rs,
      preview_state.rs), [GracePeriod] (grace_period.rs), [MotionListener] (camera_tasks.rs,
      baichuan/bc_protocol/motion.rs), [CameraTasks] (the rest of camera_tasks.rs,
      the probes and spawned tasks of camera.rs, preview_overlay.rs,
      startup_wake.rs), [Listeners] (rtsp/server/listener.rs, push_listener.rs).
    - The way to a camera: [Discovery]
      (baichuan/bc_protocol/connection/discovery.rs), [FindCamera] (its callers in
      baichuan/bc_protocol.rs, resolution.rs), [CameraPort] (bc_camera.rs,
      bc_opts.rs, capabilities.rs, battery.rs, camera_services.rs, ptz.rs).
    - Documents and settings: [BcXml] (baichuan/bc/xml.rs), [BcUdpXml]
      (baichuan/bcudp/xml.rs), [Commands] (the one file per command of
      baichuan/bc_protocol/), [Login] (baichuan/bc_protocol/login*.rs), [Cloud]
      (baichuan/cloud.rs, the service that is a class in [Login]), [Clock]
      (baichuan/bc_protocol/time.rs).
    - The services: [WakeServer] (wake_server/), [MqttControl] (mqtt/topics.rs,
      control.rs), [Mqtt] (mqtt_dispatch.rs, mqtt_status.rs, status_cache.rs, the
      backoff of mqtt_loop.rs), [HaDiscovery] (mqtt/discovery/), [MqttLoop] (the
      handlers of mqtt_loop.rs, run_mqtt_event_loop of main.rs).
    - The command line: [OneShot] (oneshot/ but for cloud_authorise.rs, cli.rs,
      run_support.rs, the conversions of cli_convert.rs).
    - The start of the program: [Toml] (what config.rs uses of toml and serde,
      and durations in floating-point seconds), [Config] (config.rs), [Hassio]
      (hassio/options.rs, merge.rs, cmd.rs), [Provider] (camera_provider.rs,
      orchestrator.rs).

    ** What the theorems show

    - Codecs. What one side writes the other reads, whatever the boundaries of
      the reads: media frames but ADPCM ([bcmedia_stream]), whole
      control sessions with their changes of cipher ([bc_stream]), UDP packets ([bcudp_roundtrip]),
      Annex-B ([split_annex_b_roundtrip]), RTP video ([dispatch_video]), Transport
      headers ([transport_roundtrip]). Where the two sides disagree, how
      ([adpcm_desync], [legacy_login_residue]). Decoders ask for a bounded
      amount ([bc_bounded_wait], [bcudp_bounded_wait]) and return
      ([codex_decode_total]).
    - The media path. A client of the RTP packets reassembles the NALs of the
      camera's packet ([video_end_to_end]); audio is the specified transform of
      the camera's ([aac_frame], [adpcm_to_g711], [adpcm_decode_block],
      [g711_quantisation]); bridging a gap keeps time ([replay_keeps_time]) and
      only hides audio ([translate_bridging]); nothing on the path panics
      ([translate_all_sdp], [dispatch_total]).
    - The UDP flow. Whatever the network and the scheduler do, the application
      gets a beginning of what the camera wrote ([in_order_delivery] of the state,
      [driver_in_order] of the tasks, [udp_messages] of the decoded messages);
      progress below the cap ([in_order_progress]), the next packet is given
      ([next_packet_given]), acknowledgements that are exact when made ([ack_exact])
      and true when they arrive ([acks_truthful]), and the stall at the cap
      ([reorder_stall]).
    - The control session. Only the reply to a signed login switches the
      cipher ([signed_login_switch]).
    - The RTSP server. Cameras are reached only with credentials
      ([auth_required], [digest_accepts], [digest_client_accepted]);
      subscriptions and ports are all given back ([guards_balanced],
      [ports_returned], [bind_first_usable]); requests are cut out of the byte
      stream right ([reads_irrelevant]); the addresses the server gives out lead
      back to the track meant ([control_uri]); a session's identifier is its own and
      comes back as it was given ([new_session_id_inj], [session_id_echo]); and a
      header that panics the parser ([transport_panic]). The automaton beside the
      server is described ([reached_exact]).
    - The tasks between them. A command is handed exactly its messages
      ([subscriber_stream]), because the poller and its bounded channels
      implement a flat table of subscriptions ([conn_refines]); a receiver that
      stops reading stalls it ([slow_receiver_stalls]). The source broadcasts
      what the translator made, in order ([live_video_order]), on the pacers'
      schedule ([video_pacer_schedule], [audio_pacer_spacing]), except when a gap
      follows a backlog ([bridging_goes_back]); waiting for the description ends
      ([await_sdp_returns]). A session sends whole access units from the cached
      key frame on ([session_video], [session_audio], [rtp_info_first]). The wake
      lock counts its guards and loses no wake-up that lasts ([guards_counted],
      [no_lost_wakeup], [idle_since_stale]); the grace period ends a session neither
      early nor late ([grace_bounded]).
    - Reaching a camera. A connection is one both ends agreed on
      ([connection_agreed]), found only in the ways permitted ([found_permitted]),
      and a client that asks the wake server is led to where the camera is
      ([wake_server_registers]); what the errors of a search hide
      ([discovery_error], [reasons_lost]).
    - A session's tasks. The wake lock is held through motion ([motion_held]) and
      not much longer ([hold_ends]); a camera without a battery is given up when it
      said so three times ([battery_latch]); a session has the tasks its
      configuration names, and spawning them panics only on durations of 2^64
      seconds or more ([session_tasks]).
    - The listeners. Connections are capped and permits come back
      ([connections_capped]); a push is motion of a camera whose heartbeats
      come from there, of the right one unless several share address or UID
      ([push_identified]), and its motion does not stay on ([push_settles]).
    - Supervision. A camera has one source of each kind ([one_source_per_kind]),
      the state its clients see is the last one set ([observable_state],
      [live_after_session], [stale_disconnect]), the overlay follows the
      bridging ([overlay_follows_bridging]), dead sources are dropped
      ([pruned_exactly]); keep-alives and delays between attempts are bounded
      ([keepalive_exact], [reconnect_delays]).
    - The wake server. A request to connect to a registered camera wakes it
      ([connect_wakes]), a registration is believed only when signed
      ([register_reply_authentic]), and answers are never answered
      ([no_reflection]); the tables are bounded ([wake_server_bounded]).
    - Commands. Each command sends what it should and returns its subscription
      ([commands_disciplined]), a refusal of the camera is an error
      but for three commands ([refusal_is_error]), a change of settings keeps what it does not set,
      two fields aside ([read_modify_write]), snapshots and abilities are read exactly
      ([snapshot_exact], [abilities_exact]); a zoom can panic ([zoom_panics]).
    - Login. Both ends of a signed login agree on its key ([sigv3_agreement]),
      each way of logging in is taken exactly when it should ([login_sound]) and
      what the camera says of itself does not change the signed login
      ([signed_login_blind], [authlogin_exact]). The bundle for it is the one the
      account service answered with ([bundle_minted]), nothing but the protocol's
      requests leaves for it ([mint_discloses]), a challenge is solved or given up
      ([solve_exact]), a bundle is used until two minutes before it expires
      ([bundle_reused]) and a host is verified once ([verification_chain]).
    - Clocks. The rules of daylight saving name the right day
      ([nth_weekday_exact]), setting then reading the clock is exact
      ([clock_roundtrip]) but for the drift of [clock_drifts].
    - MQTT. A topic means one command ([topics_exact]) and, [Wakeup] aside, it is
      answered once by a camera that is up ([command_answered]), what was published is published again after a
      reconnection ([republish_restores]). What Home Assistant is told of an entity
      is what the bridge does but for odd preset names ([announced_commands],
      [odd_names]) and what the broker retains is
      what is announced ([broker_exact]); a new connection restores everything but
      the availability ([connack_restores]) when the queue has room for it and ends
      the loop when it has not ([connack_stalls]); the shutdown withdraws it
      ([shutdown_clears]).
    - The command line. Code zero means done ([exit_code_truthful]); a session is
      logged out whatever became of its command ([session_logged_out]); a capture
      takes its window ([capture_exact]), a snapshot its first key frame
      ([first_iframe_exact]); the abilities listed are those that gate commands
      ([flatten_gate]); what silent services cost ([services_partial_lost]).
    - Configuration. Validation accepts exactly the well-formed files
      ([validate_config_iff]), durations are admitted exactly within their bounds
      ([admitted_durations]), the add-on's file reads back as its options
      ([render_exact]), an overlay's cameras are merged with the
      options' by name ([merge_exact]); the access lists are enforced
      ([acl_enforced]) and a camera of the file can be reached
      ([camera_reachable], [subscription_outcome]).

    ** Conventions

    A byte is a [Z] in [0, 256), a string the list of its scalar values
    ([Prelude.str]), machine integers are [Z] with their wrap-around written
    out. A panic is [Panic] of [outcome], an error [Err] of [result]. Code
    outside the repository is a type class whose laws are its documented
    behaviour, with an instance: [Nom], [CookieFactory] ([Wire]), [Aes128Cfb],
    [Md5] ([XorCrypto]), [QuickXml] ([BcMsg], over the records of [BcXml]),
    [Crc32] and [UdpXmlCodec] ([BcUdp]), [RtpBuilder] ([Rtp]), [Base64]
    ([RtspText]), [RtspTypes] ([RtspServer]), [X25519], [Pbkdf2] and
    [CloudService] ([Login]), [TimeCrate] ([Clock]), [Serde] ([BcUdpXml]), [Unicode] and
    [DecimalF32] ([MqttControl]), [TomlText] ([Toml]). What the derive
    macros of serde generate is read off their attributes. What the outside
    answers, clocks, random values and sockets, is passed as an argument;
    programs over a connection are written in the monad [M] of [Commands].

    ** Fuel

    Loops over bytes carry fuel bounded by the data: [split_loop] the bytes left
    of the stream, the fragment loops the NAL's length, [drain] and
    [drain_requests] the buffer's length since each turn consumes some of it,
    [drain_loop] the reorder buffer's size, [decode_loop] the two turns it can take, [show_digits]
    the binary length of the number, [acquire_loop] and [bind_loop] the 500 pairs
    of the pool. The theorems about them hold of the fuelled definitions as the
    code calls them, so running out is excluded by what they state.

    ** Not modelled

    Sockets, timers and the scheduler itself: what they deliver is an argument
    or a label of a step. Text of XML, TOML, JSON and DNS answers, cryptography, the
    drawing of captions and JPEG are interfaces. Of the RTSP server the closing of
    a session's transports, the sender reports, which nothing sends, and the
    loading of its certificates; concurrency inside a connection is reduced to the
    order of its events: a handler runs to its end, which is how the connection
    task awaits it, and a send loop appears when it ends. BcCamera::new, which
    puts the connection found under a codec; the client of
    the broker (mqtt/client.rs), whose queue is that of [MqttLoop]; what clap
    parses and what the one-shot commands print; the
    spawning and joining of tasks (supervisor.rs, main.rs); the camera that stands
    in for one in tests (fake_camera/). Log lines and Debug renderings are left
    out.
*)

From Stdlib Require Export ZArith Lia.
From stdpp Require Export sorting.
From stdpp Require Export base numbers list gmap strings option.

#[global] Open Scope Z_scope.

(** ** Machine integers

    A [w]-bit unsigned value is a [Z] in [0, 2^w); the wrap-around of the
    release build is written out with [wrap], and two's complement with
    [swrap]. *)

Definition in_u (w x : Z) : Prop := 0 <= x < 2 ^ w.

Definition in_i (w x : Z) : Prop := - 2 ^ (w - 1) <= x < 2 ^ (w - 1).

Definition wrap (w x : Z) : Z := x mod 2 ^ w.

Definition swrap (w x : Z) : Z := (x + 2 ^ (w - 1)) mod 2 ^ w - 2 ^ (w - 1).

(** Rust's [clamp], [saturating_sub] on unsigned values, and
    [saturating_add] at an upper bound. *)
Definition clamp (lo hi x : Z) : Z := Z.max lo (Z.min hi x).

Definition sat_sub (a b : Z) : Z := Z.max 0 (a - b).

Definition sat_add (hi a b : Z) : Z := Z.min hi (a + b).

(** Durations and instants are in nanoseconds. *)
Definition millis (n : Z) : Z := n * 1000000.

Definition u8_max : Z := 255.
Definition u16_max : Z := 65535.
Definition u32_max : Z := 4294967295.
Definition u64_max : Z := 18446744073709551615.

Abbreviation u8 := (in_u 8).
Abbreviation u16 := (in_u 16).
Abbreviation u32 := (in_u 32).
Abbreviation u64 := (in_u 64).
Abbreviation bytes := (list Z).
Abbreviation bytes_ok := (Forall (in_u 8)).

Definition len {A} (l : list A) : Z := Z.of_nat (length l).

(** ** Results and panics *)

Inductive result (A E : Type) : Type :=
| Ok (a : A)
| Err (e : E).
Arguments Ok {A E} a.
Arguments Err {A E} e.

(** [Panic] is an unwinding Rust panic: an [assert!], an out-of-range index
    or slice, or a str slice off a character boundary. *)
Inductive outcome (A : Type) : Type :=
| Ret (a : A)
| Panic.
Arguments Ret {A} a.
Arguments Panic {A}.

Definition res_bind {A B E} (r : result A E) (f : A -> result B E) : result B E :=
  match r with Ok a => f a | Err e => Err e end.

Definition out_bind {A B} (r : outcome A) (f : A -> outcome B) : outcome B :=
  match r with Ret a => f a | Panic => Panic end.

Declare Scope bairelay_scope.
Delimit Scope bairelay_scope with br.
Notation "'let?' x ':=' r 'in' k" := (res_bind r (fun x => k))
  (at level 10, x pattern, r at level 100, k at level 200) : bairelay_scope.
Notation "'let!' x ':=' r 'in' k" := (out_bind r (fun x => k))
  (at level 10, x pattern, r at level 100, k at level 200) : bairelay_scope.
#[global] Open Scope bairelay_scope.

(** ** Byte strings of fixed width: [to_le_bytes] and friends *)

Fixpoint to_le_bytes (n : nat) (x : Z) : bytes :=
  match n with
  | O => []
  | S n => x mod 256 :: to_le_bytes n (x / 256)
  end.

Fixpoint of_le_bytes (l : bytes) : Z :=
  match l with
  | [] => 0
  | b :: l => b + 256 * of_le_bytes l
  end.

Definition to_be_bytes (n : nat) (x : Z) : bytes := rev (to_le_bytes n x).

Definition of_be_bytes (l : bytes) : Z := of_le_bytes (rev l).

(** ** [slice::chunks] *)

Fixpoint chunks_aux {A} (fuel n : nat) (l : list A) : list (list A) :=
  match fuel with
  | O => []
  | S fuel =>
      match l with
      | [] => []
      | _ :: _ => take n l :: chunks_aux fuel n (drop n l)
      end
  end.

Definition chunks {A} (n : nat) (l : list A) : list (list A) :=
  chunks_aux (length l) n l.

(** ** UTF-8

    A Rust string is the list of its Unicode scalar values. *)

Abbreviation str := (list Z).

Definition in_range (lo hi b : Z) : bool := (lo <=? b) && (b <=? hi).

(** [str::from_utf8]. *)
Fixpoint from_utf8 (l : bytes) : option str :=
  match l with
  | [] => Some []
  | a :: l1 =>
      if a <? 0x80 then cons a <$> from_utf8 l1
      else
        match l1 with
        | [] => None
        | b :: l2 =>
            if in_range 0xC2 0xDF a then
              if in_range 0x80 0xBF b
              then cons (64 * (a - 0xC0) + (b - 0x80)) <$> from_utf8 l2 else None
            else
              match l2 with
              | [] => None
              | c :: l3 =>
                  let lo := if a =? 0xE0 then 0xA0 else 0x80 in
                  let hi := if a =? 0xED then 0x9F else 0xBF in
                  if in_range 0xE0 0xEF a then
                    if in_range lo hi b && in_range 0x80 0xBF c
                    then cons (4096 * (a - 0xE0) + 64 * (b - 0x80) + (c - 0x80)) <$> from_utf8 l3
                    else None
                  else
                    match l3 with
                    | [] => None
                    | d :: l4 =>
                        let lo := if a =? 0xF0 then 0x90 else 0x80 in
                        let hi := if a =? 0xF4 then 0x8F else 0xBF in
                        if in_range 0xF0 0xF4 a && in_range lo hi b && in_range 0x80 0xBF c
                           && in_range 0x80 0xBF d
                        then cons (262144 * (a - 0xF0) + 4096 * (b - 0x80) + 64 * (c - 0x80) + (d - 0x80))
                               <$> from_utf8 l4
                        else None
                    end
              end
        end
  end.

Definition utf8_valid (l : bytes) : bool := match from_utf8 l with Some _ => true | None => false end.

(** ** Exhaustive checks over an interval, by computation *)

Fixpoint check_range (n : nat) (lo : Z) (f : Z -> bool) : bool :=
  match n with
  | O => true
  | S n => f lo && check_range n (lo + 1) f
  end.

(** ** Tactics and hint databases *)

Create HintDb br_ints.
Create HintDb br_lists.
Create Rewrite HintDb br_lists.


(** Split the first [match] or [if] of the goal or of a hypothesis. *)
Ltac case_step :=
  match goal with
  | |- context [match ?x with _ => _ end] => destruct x eqn:?
  | H : context [match ?x with _ => _ end] |- _ => destruct x eqn:?
  end.

(** Boolean comparisons to propositions, everywhere. *)
Ltac b2p :=
  repeat match goal with
  | H : _ && _ = true |- _ => apply andb_true_iff in H as [? ?]
  | H : _ || _ = false |- _ => apply orb_false_iff in H as [? ?]
  | H : negb _ = true |- _ => apply negb_true_iff in H
  | H : negb _ = false |- _ => apply negb_false_iff in H
  | H : Z.eqb _ _ = true |- _ => apply Z.eqb_eq in H
  | H : Z.eqb _ _ = false |- _ => apply Z.eqb_neq in H
  | H : Z.leb _ _ = true |- _ => apply Z.leb_le in H
  | H : Z.leb _ _ = false |- _ => apply Z.leb_gt in H
  | H : Z.ltb _ _ = true |- _ => apply Z.ltb_lt in H
  | H : Z.ltb _ _ = false |- _ => apply Z.ltb_ge in H
  | H : Nat.eqb _ _ = true |- _ => apply Nat.eqb_eq in H
  | H : Nat.eqb _ _ = false |- _ => apply Nat.eqb_neq in H
  | H : Nat.leb _ _ = true |- _ => apply Nat.leb_le in H
  | H : Nat.leb _ _ = false |- _ => apply Nat.leb_gt in H
  | H : Nat.ltb _ _ = true |- _ => apply Nat.ltb_lt in H
  | H : Nat.ltb _ _ = false |- _ => apply Nat.ltb_ge in H
  end.

(** Powers of two that occur as widths, so that [lia] sees constants. *)
Ltac pow2 :=
  unfold in_u, in_i, wrap, swrap in *;
  change (2 ^ (8 - 1)) with 128 in *; change (2 ^ (16 - 1)) with 32768 in *;
  change (2 ^ (32 - 1)) with 2147483648 in *;
  change (2 ^ 8) with 256 in *; change (2 ^ 16) with 65536 in *;
  change (2 ^ 32) with 4294967296 in *;
  change (2 ^ 64) with 18446744073709551616 in *.

Ltac int_lia := pow2; unfold u8_max, u16_max, u32_max, u64_max, len in *; lia.

(** ** Lemmas on integers *)

Lemma wrap_range w x : 0 <= w -> in_u w (wrap w x).
Proof. intros ?. apply Z.mod_pos_bound. lia. Qed.

Lemma wrap_small w x : in_u w x -> wrap w x = x.
Proof. intros ?. by apply Z.mod_small. Qed.

Lemma wrap_add_l w x y : 0 <= w -> wrap w (wrap w x + y) = wrap w (x + y).
Proof. intros ?. unfold wrap. rewrite Zplus_mod_idemp_l. done. Qed.

Lemma swrap16_small x : in_i 16 x -> swrap 16 x = x.
Proof. intros Hx. pow2. rewrite Z.mod_small by lia. lia. Qed.

Lemma swrap16_range x : in_i 16 (swrap 16 x).
Proof. pow2. pose proof (Z.mod_pos_bound (x + 32768) 65536). lia. Qed.

Lemma check_range_spec n lo f x :
  check_range n lo f = true -> lo <= x < lo + Z.of_nat n -> f x = true.
Proof.
  revert lo. induction n as [|n IH]; intros lo Hc Hx; [lia|].
  simpl in Hc. apply andb_true_iff in Hc as [H1 H2].
  destruct (decide (x = lo)) as [->|?]; [done|]. apply (IH (lo + 1)); [done|lia].
Qed.

(** A decidable property of a byte holds when it holds of all 256. *)
Lemma byte_check f x : check_range 256 0 f = true -> u8 x -> f x = true.
Proof. intros H Hx. apply (check_range_spec _ _ _ _ H). int_lia. Qed.

Lemma land_ones_mod x n : 0 <= n -> Z.land x (Z.ones n) = x mod 2 ^ n.
Proof. intros. by rewrite Z.land_ones. Qed.

Lemma land_bound x n m : 0 <= n -> m = Z.ones n -> 0 <= Z.land x m < 2 ^ n.
Proof. intros Hn ->. rewrite Z.land_ones by done. apply Z.mod_pos_bound. lia. Qed.

Lemma lor_bound x y n : 0 <= n -> 0 <= x < 2 ^ n -> 0 <= y < 2 ^ n -> 0 <= Z.lor x y < 2 ^ n.
Proof.
  intros Hn Hx Hy. rewrite <- (Z.mod_small x (2 ^ n)), <- (Z.mod_small y (2 ^ n)) by done.
  rewrite <- !Z.land_ones, <- Z.land_lor_distr_l, Z.land_ones by done.
  apply Z.mod_pos_bound. lia.
Qed.

#[export] Hint Resolve wrap_range wrap_small : br_ints.

(** ** Lemmas on byte strings *)

Lemma to_le_bytes_length n x : length (to_le_bytes n x) = n.
Proof. revert x. induction n; intros x; simpl; [done|by rewrite IHn]. Qed.

Lemma to_le_bytes_ok n x : bytes_ok (to_le_bytes n x).
Proof.
  revert x. induction n; intros x; simpl; constructor; [|done].
  apply Z.mod_pos_bound. lia.
Qed.

Lemma of_to_le_bytes n x : in_u (8 * Z.of_nat n) x -> of_le_bytes (to_le_bytes n x) = x.
Proof.
  revert x. induction n as [|n IH]; intros x Hx; cbn [to_le_bytes of_le_bytes].
  - unfold in_u in Hx. change (8 * Z.of_nat 0) with 0 in Hx. simpl in Hx. lia.
  - rewrite IH; [pose proof (Z.div_mod x 256); lia|].
    unfold in_u in *. replace (8 * Z.of_nat (S n)) with (8 + 8 * Z.of_nat n) in Hx by lia.
    rewrite Z.pow_add_r in Hx by lia. change (2 ^ 8) with 256 in Hx.
    split; [apply Z.div_pos; lia|apply Z.div_lt_upper_bound; lia].
Qed.

Lemma of_le_bytes_range l : bytes_ok l -> in_u (8 * len l) (of_le_bytes l).
Proof.
  induction 1 as [|b l Hb Hl IH]; [unfold in_u, len; simpl; lia|].
  unfold in_u, len in *. cbn [of_le_bytes length].
  replace (8 * Z.of_nat (S (length l))) with (8 + 8 * Z.of_nat (length l)) by lia.
  rewrite Z.pow_add_r by lia. change (2 ^ 8) with 256 in *. nia.
Qed.

Lemma to_of_le_bytes l : bytes_ok l -> to_le_bytes (length l) (of_le_bytes l) = l.
Proof.
  induction 1 as [|b l Hb Hl IH]; [done|]. cbn [length of_le_bytes to_le_bytes].
  unfold in_u in Hb. change (2 ^ 8) with 256 in Hb.
  replace (b + 256 * of_le_bytes l) with (b + of_le_bytes l * 256) by lia.
  rewrite Z_mod_plus_full, Z.div_add, (Z.mod_small b), (Z.div_small b) by lia.
  by rewrite Z.add_0_l, IH.
Qed.

Lemma of_to_be_bytes n x : in_u (8 * Z.of_nat n) x -> of_be_bytes (to_be_bytes n x) = x.
Proof.
  intros. unfold of_be_bytes, to_be_bytes. rewrite rev_involutive. by apply of_to_le_bytes.
Qed.

Lemma to_be_bytes_length n x : length (to_be_bytes n x) = n.
Proof. unfold to_be_bytes. by rewrite length_rev, to_le_bytes_length. Qed.

Lemma to_be_bytes_ok n x : bytes_ok (to_be_bytes n x).
Proof. unfold to_be_bytes. apply Forall_rev, to_le_bytes_ok. Qed.

#[export] Hint Resolve to_le_bytes_ok to_be_bytes_ok : br_lists.
#[export] Hint Rewrite to_le_bytes_length to_be_bytes_length @length_app @length_take
  @length_drop : br_lists.

(** ** Lemmas on lists *)

Lemma len_nonneg {A} (l : list A) : 0 <= len l.
Proof. unfold len. lia. Qed.

Lemma len_app {A} (l k : list A) : len (l ++ k) = len l + len k.
Proof. unfold len. rewrite length_app. lia. Qed.

Lemma chunks_aux_concat {A} fuel n (l : list A) :
  (0 < n)%nat -> (length l <= fuel)%nat -> concat (chunks_aux fuel n l) = l.
Proof.
  intros Hn. revert l. induction fuel as [|fuel IH]; intros l Hl.
  - destruct l; simpl in *; [done|lia].
  - destruct l as [|a l]; [done|]. cbn [chunks_aux concat].
    rewrite IH; [apply take_drop|]. rewrite length_drop. simpl in *. lia.
Qed.

Lemma chunks_concat {A} n (l : list A) : (0 < n)%nat -> concat (chunks n l) = l.
Proof. intros. by apply chunks_aux_concat. Qed.

Lemma chunks_aux_sizes {A} fuel n (l : list A) :
  (0 < n)%nat -> Forall (fun c => 1 <= len c <= Z.of_nat n) (chunks_aux fuel n l).
Proof.
  intros Hn. revert l. induction fuel as [|fuel IH]; intros l; [constructor|].
  destruct l as [|a l]; [constructor|]. cbn [chunks_aux]. constructor; [|apply IH].
  unfold len. rewrite length_take. simpl. lia.
Qed.

Lemma chunks_sizes {A} n (l : list A) :
  (0 < n)%nat -> Forall (fun c => 1 <= len c <= Z.of_nat n) (chunks n l).
Proof. apply chunks_aux_sizes. Qed.

Lemma chunks_aux_fuel {A} f g n (l : list A) :
  (0 < n)%nat -> (length l <= f)%nat -> (length l <= g)%nat ->
  chunks_aux f n l = chunks_aux g n l.
Proof.
  intros Hn. revert g l. induction f as [|f IH]; intros g l Hf Hg.
  { destruct l; [|simpl in *; lia]. by destruct g. }
  destruct g as [|g]; [destruct l; [done|simpl in *; lia]|].
  destruct l as [|a l]; [done|]. cbn [chunks_aux]. f_equal.
  apply IH; rewrite length_drop; simpl in *; lia.
Qed.

Lemma chunks_cons {A} n (l : list A) :
  (0 < n)%nat -> l <> [] -> chunks n l = take n l :: chunks n (drop n l).
Proof.
  intros Hn Hl. unfold chunks. destruct l as [|a l]; [done|]. cbn [length chunks_aux]. f_equal.
  apply chunks_aux_fuel; [done| |done]. rewrite length_drop. simpl. lia.
Qed.

Lemma take_app_exact {A} (l k : list A) n : n = length l -> take n (l ++ k) = l.
Proof. intros ->. by rewrite take_app_length. Qed.

Lemma drop_app_exact {A} (l k : list A) n : n = length l -> drop n (l ++ k) = k.
Proof. intros ->. by rewrite drop_app_length. Qed.
