(* ===== verification/Wire.v ===== *)
(** * Wire formats: the parser and serializer interfaces, and framing

    The source parses with [nom] (streaming combinators) and serializes with
    [cookie_factory]. Both are third-party: [Nom] and [CookieFactory] are the
    operations the source calls, [NomLaws] and [CookieFactoryLaws] their
    documented behaviour, [nom_std] and [cf_std] instances.

    [reads p enc x] says that [p] reads [x] off the front of any buffer that
    starts with [enc] and asks for more on every proper prefix of [enc]; it
    composes along the parser's sequencing. [pump] is a reader that feeds a
    streaming decoder a transport's chunks, and [pump_frames] shows that the
    chunk boundaries do not matter. *)

From S2P Require Import Prelude.

(** [nom::Err]; [Needed] and the error contexts only reach log lines. *)
Inductive nom_err := Incomplete | NomErr | NomFailure.

Abbreviation IResult A := (result (bytes * A) nom_err).
Abbreviation parser A := (bytes -> IResult A).

(** The crate's [Error], as far as the codecs raise it. *)
Inductive Error :=
| NomIncomplete
| NomError
| GenError
| UnknownEncryption (b : Z)
| OtherError (s : string).

(** [impl From<nom::Err>]. *)
Definition nom_error (e : nom_err) : Error :=
  match e with Incomplete => NomIncomplete | NomErr => NomError | NomFailure => NomError end.

Class Nom := {
  nom_take : Z -> parser bytes;
  le_u8 : parser Z;
  le_u16 : parser Z;
  le_u32 : parser Z;
  le_i32 : parser Z;
  verify : forall {A}, parser A -> (A -> bool) -> parser A;
  map_res : forall {A B}, parser A -> (A -> option B) -> parser B;
  cond : forall {A}, bool -> parser A -> parser (option A);
  nom_pair : forall {A B}, parser A -> parser B -> parser (A * B);
  consumed : forall {A}, parser A -> parser (bytes * A)
}.

Definition int_of_bytes (n : nat) (f : bytes -> Z) (buf : bytes) : IResult Z :=
  if (n <=? length buf)%nat then Ok (drop n buf, f (take n buf)) else Err Incomplete.

(** The streaming variants: too short an input is [Incomplete]. *)
Class NomLaws (N : Nom) : Prop := {
  nom_take_eq n buf :
    nom_take n buf = if n <=? len buf then Ok (drop (Z.to_nat n) buf, take (Z.to_nat n) buf)
                     else Err Incomplete;
  le_u8_eq buf : le_u8 buf = int_of_bytes 1 of_le_bytes buf;
  le_u16_eq buf : le_u16 buf = int_of_bytes 2 of_le_bytes buf;
  le_u32_eq buf : le_u32 buf = int_of_bytes 4 of_le_bytes buf;
  le_i32_eq buf : le_i32 buf = int_of_bytes 4 (fun b => swrap 32 (of_le_bytes b)) buf;
  verify_eq A (p : parser A) f buf :
    verify p f buf = match p buf with
                     | Ok (rest, x) => if f x then Ok (rest, x) else Err NomErr
                     | Err e => Err e
                     end;
  map_res_eq A B (p : parser A) (f : A -> option B) buf :
    map_res p f buf = match p buf with
                      | Ok (rest, x) => match f x with Some y => Ok (rest, y) | None => Err NomErr end
                      | Err e => Err e
                      end;
  cond_eq A b (p : parser A) buf :
    cond b p buf = if b then match p buf with
                             | Ok (rest, x) => Ok (rest, Some x)
                             | Err e => Err e
                             end
                   else Ok (buf, None);
  nom_pair_eq A B (p : parser A) (q : parser B) buf :
    nom_pair p q buf = let? (buf, x) := p buf in let? (buf, y) := q buf in Ok (buf, (x, y));
  consumed_eq A (p : parser A) buf :
    consumed p buf = match p buf with
                     | Ok (rest, x) => Ok (rest, (take (length buf - length rest) buf, x))
                     | Err e => Err e
                     end
}.

Definition nom_std : Nom := {|
  nom_take n buf :=
    if n <=? len buf then Ok (drop (Z.to_nat n) buf, take (Z.to_nat n) buf) else Err Incomplete;
  le_u8 := int_of_bytes 1 of_le_bytes;
  le_u16 := int_of_bytes 2 of_le_bytes;
  le_u32 := int_of_bytes 4 of_le_bytes;
  le_i32 := int_of_bytes 4 (fun b => swrap 32 (of_le_bytes b));
  verify A p f buf :=
    match p buf with
    | Ok (rest, x) => if f x then Ok (rest, x) else Err NomErr
    | Err e => Err e
    end;
  map_res A B p f buf :=
    match p buf with
    | Ok (rest, x) => match f x with Some y => Ok (rest, y) | None => Err NomErr end
    | Err e => Err e
    end;
  cond A b p buf :=
    if b then match p buf with
              | Ok (rest, x) => Ok (rest, Some x)
              | Err e => Err e
              end
    else Ok (buf, None);
  nom_pair A B p q buf := let? (buf, x) := p buf in let? (buf, y) := q buf in Ok (buf, (x, y));
  consumed A p buf :=
    match p buf with
    | Ok (rest, x) => Ok (rest, (take (length buf - length rest) buf, x))
    | Err e => Err e
    end
|}.

#[export] Instance nom_std_laws : NomLaws nom_std.
Proof. by constructor. Qed.

(** ** Serializers *)

Abbreviation SerializeFn := (bytes -> result bytes Error).

Class CookieFactory := {
  cf_le_u8 : Z -> SerializeFn;
  cf_le_u16 : Z -> SerializeFn;
  cf_le_u32 : Z -> SerializeFn;
  cf_le_i32 : Z -> SerializeFn;
  cf_slice : bytes -> SerializeFn;
  cf_tuple : list SerializeFn -> SerializeFn;
  cf_gen : SerializeFn -> bytes -> result bytes Error;
  cf_gen_count : SerializeFn -> bytes -> result (bytes * Z) Error
}.

(** [f] appends [e] to the writer, a [Vec<u8>]. *)
Definition writes (f : SerializeFn) (e : bytes) : Prop := forall buf, f buf = Ok (buf ++ e).

Lemma writes_inj f e e' : writes f e -> writes f e' -> e = e'.
Proof. intros H H'. specialize (H []). rewrite H' in H. by injection H. Qed.

Lemma writes_eq f e e' : writes f e -> e = e' -> writes f e'.
Proof. by intros ? <-. Qed.

Lemma writes_ext f g e : (forall buf, f buf = g buf) -> writes g e -> writes f e.
Proof. intros E H buf. by rewrite E. Qed.

Class CookieFactoryLaws (C : CookieFactory) : Prop := {
  cf_le_u8_ok v : writes (cf_le_u8 v) (to_le_bytes 1 v);
  cf_le_u16_ok v : writes (cf_le_u16 v) (to_le_bytes 2 v);
  cf_le_u32_ok v : writes (cf_le_u32 v) (to_le_bytes 4 v);
  cf_le_i32_ok v : writes (cf_le_i32 v) (to_le_bytes 4 v);
  cf_slice_ok b : writes (cf_slice b) b;
  cf_tuple_ok fs es : Forall2 writes fs es -> writes (cf_tuple fs) (concat es);
  cf_gen_ok f e : writes f e -> writes (cf_gen f) e;
  cf_gen_count_ok f e buf : writes f e -> cf_gen_count f buf = Ok (buf ++ e, len e);
  cf_gen_count_err f e buf : f buf = Err e -> cf_gen_count f buf = Err e
}.

Definition append (e : bytes) : SerializeFn := fun buf => Ok (buf ++ e).

Definition cf_std : CookieFactory := {|
  cf_le_u8 v := append (to_le_bytes 1 v);
  cf_le_u16 v := append (to_le_bytes 2 v);
  cf_le_u32 v := append (to_le_bytes 4 v);
  cf_le_i32 v := append (to_le_bytes 4 v);
  cf_slice b := append b;
  cf_tuple fs := fun buf => fold_left (fun r (f : SerializeFn) => res_bind r f) fs (Ok buf);
  cf_gen f := f;
  cf_gen_count f buf := let? out := f buf in Ok (out, len out - len buf)
|}.

Lemma fold_writes fs es buf :
  Forall2 writes fs es ->
  fold_left (fun r (f : SerializeFn) => res_bind r f) fs (Ok buf) = Ok (buf ++ concat es).
Proof.
  intros H. revert buf. induction H as [|f e fs es Hf Hfs IH]; intros buf; cbn [fold_left concat].
  - by rewrite app_nil_r.
  - cbn [res_bind]. rewrite Hf, IH. by rewrite app_assoc.
Qed.

#[export] Instance cf_std_laws : CookieFactoryLaws cf_std.
Proof.
  split; try done.
  - intros fs es H buf. by apply fold_writes.
  - intros f e buf H. simpl. rewrite H. simpl. rewrite len_app. do 2 f_equal. lia.
  - intros f e buf H. simpl. by rewrite H.
Qed.

(** Solves [writes (cf_tuple [...]) ?e] piece by piece. *)
Ltac cf_writes :=
  first
    [ apply cf_tuple_ok; cf_list
    | apply cf_gen_ok; cf_writes
    | apply cf_le_u8_ok | apply cf_le_u16_ok | apply cf_le_u32_ok | apply cf_le_i32_ok
    | apply cf_slice_ok
    | eassumption ]
with cf_list := first [ apply Forall2_nil | apply Forall2_cons; [cf_writes|cf_list] ].

(** ** Reading what was written *)

Definition reads {A} (p : parser A) (enc : bytes) (x : A) : Prop :=
  (forall rest, p (enc ++ rest) = Ok (rest, x)) /\
  (forall k, (k < length enc)%nat -> p (take k enc) = Err Incomplete).

Lemma reads_ret {A} (x : A) : reads (fun buf => Ok (buf, x)) [] x.
Proof. split; [done|]. simpl. lia. Qed.

Lemma reads_bind {A B} (p : parser A) (k : bytes * A -> IResult B) e1 e2 x y :
  reads p e1 x -> reads (fun buf => k (buf, x)) e2 y ->
  reads (fun buf => res_bind (p buf) k) (e1 ++ e2) y.
Proof.
  intros [P1 P2] [K1 K2]. split.
  - intros rest. rewrite <- app_assoc, P1. cbn. apply K1.
  - intros n Hn. rewrite length_app in Hn. destruct (decide (n < length e1)%nat).
    + rewrite take_app_le by lia. by rewrite P2.
    + rewrite take_app_ge by lia. rewrite P1. cbn. apply K2. lia.
Qed.

(** The last field of an encoding. *)
Lemma reads_last {A B} (p : parser A) (k : bytes * A -> IResult B) e x y :
  reads p e x -> reads (fun buf => k (buf, x)) [] y -> reads (fun buf => res_bind (p buf) k) e y.
Proof. intros H1 H2. rewrite <- (app_nil_r e). by eapply reads_bind. Qed.

(** The last step of a parser. *)
Lemma reads_bind_ret {A B} (p : parser A) (f : A -> B) e x :
  reads p e x -> reads (fun buf => let? (buf, v) := p buf in Ok (buf, f v)) e (f x).
Proof.
  intros H. rewrite <- (app_nil_r e).
  apply (reads_bind p (fun '(buf, v) => Ok (buf, f v)) e [] x); [done|]. apply reads_ret.
Qed.

Lemma reads_ext {A} (p q : parser A) e x : (forall b, p b = q b) -> reads p e x -> reads q e x.
Proof. intros E [H1 H2]. split; intros; rewrite <- E; [apply H1|by apply H2]. Qed.

Section nom_lemmas.
Context `{N : Nom} `{!NomLaws N}.

Lemma reads_int p n f e x :
  (forall buf, p buf = int_of_bytes n f buf) -> length e = n -> f e = x -> reads p e x.
Proof.
  intros E Hl <-. split; intros; rewrite E; unfold int_of_bytes.
  - rewrite length_app. destruct (Nat.leb_spec n (length e + length rest)); [|lia].
    by rewrite drop_app_exact, take_app_exact by done.
  - rewrite length_take. destruct (Nat.leb_spec n (k `min` length e)); [lia|done].
Qed.

Lemma reads_u8 v : u8 v -> reads le_u8 (to_le_bytes 1 v) v.
Proof.
  intros. eapply reads_int; [apply le_u8_eq|apply to_le_bytes_length|]. by apply of_to_le_bytes.
Qed.

Lemma reads_u16 v : u16 v -> reads le_u16 (to_le_bytes 2 v) v.
Proof.
  intros. eapply reads_int; [apply le_u16_eq|apply to_le_bytes_length|]. by apply of_to_le_bytes.
Qed.

Lemma reads_u32 v : u32 v -> reads le_u32 (to_le_bytes 4 v) v.
Proof.
  intros. eapply reads_int; [apply le_u32_eq|apply to_le_bytes_length|]. by apply of_to_le_bytes.
Qed.

Lemma to_le_bytes_mod n x : to_le_bytes n x = to_le_bytes n (x mod 2 ^ (8 * Z.of_nat n)).
Proof.
  revert x. induction n as [|n IH]; intros x; [done|]. cbn [to_le_bytes].
  replace (8 * Z.of_nat (S n)) with (8 + 8 * Z.of_nat n) by lia.
  rewrite Z.pow_add_r by lia. change (2 ^ 8) with 256.
  assert (0 < 2 ^ (8 * Z.of_nat n)) by lia.
  f_equal.
  - rewrite Z.rem_mul_r by lia. rewrite <- Zplus_mod_idemp_r, (Z.mul_comm 256), Z_mod_mult.
    by rewrite Z.add_0_r, Z.mod_mod.
  - rewrite IH. f_equal. rewrite Z.rem_mul_r by lia.
    rewrite (Z.mul_comm 256), Z.div_add by lia.
    rewrite (Z.div_small (x mod 256)) by (apply Z.mod_pos_bound; lia). done.
Qed.

Lemma reads_i32 v : in_i 32 v -> reads le_i32 (to_le_bytes 4 v) v.
Proof.
  intros Hv. eapply reads_int; [apply le_i32_eq|apply to_le_bytes_length|].
  rewrite to_le_bytes_mod. rewrite of_to_le_bytes.
  - change (8 * Z.of_nat 4) with 32. pow2. rewrite Zplus_mod_idemp_l.
    rewrite Z.mod_small by lia. lia.
  - apply Z.mod_pos_bound. lia.
Qed.

Lemma reads_take n e : n = len e -> reads (nom_take n) e e.
Proof.
  intros ->. unfold len. split; intros; rewrite nom_take_eq; unfold len; rewrite Nat2Z.id.
  - rewrite length_app. destruct (Z.leb_spec (Z.of_nat (length e)) (Z.of_nat (length e + length rest)));
      [|lia]. by rewrite drop_app_exact, take_app_exact.
  - rewrite length_take.
    destruct (Z.leb_spec (Z.of_nat (length e)) (Z.of_nat (k `min` length e))); [lia|done].
Qed.

Lemma reads_verify {A} (p : parser A) f e x : reads p e x -> f x = true -> reads (verify p f) e x.
Proof.
  intros [H1 H2] Hf. split; intros; rewrite verify_eq; [by rewrite H1, Hf|by rewrite H2].
Qed.

Lemma reads_map_res {A B} (p : parser A) (f : A -> option B) e x y :
  reads p e x -> f x = Some y -> reads (map_res p f) e y.
Proof.
  intros [H1 H2] Hf. split; intros; rewrite map_res_eq; [by rewrite H1, Hf|by rewrite H2].
Qed.

Lemma reads_cond_true {A} (p : parser A) e x : reads p e x -> reads (cond true p) e (Some x).
Proof. intros [H1 H2]. split; intros; rewrite cond_eq; [by rewrite H1|by rewrite H2]. Qed.

Lemma reads_cond_false {A} (p : parser A) : reads (cond false p) [] None.
Proof. split; [|simpl; lia]. intros rest. by rewrite cond_eq. Qed.

Lemma reads_pair {A B} (p : parser A) (q : parser B) e e' x y :
  reads p e x -> reads q e' y -> reads (nom_pair p q) (e ++ e') (x, y).
Proof.
  intros Hp Hq. eapply reads_ext; [intros b; symmetry; apply nom_pair_eq|].
  eapply reads_bind; [exact Hp|]. cbv beta iota.
  apply (reads_bind_ret q (fun y => (x, y)) e' y Hq).
Qed.

(** [consumed] also returns the bytes read. *)
Lemma reads_consumed {A} (p : parser A) e x : reads p e x -> reads (consumed p) e (e, x).
Proof.
  intros [H1 H2]. split; intros; rewrite consumed_eq; [|by rewrite H2].
  rewrite H1. do 3 f_equal. rewrite take_app_exact; [done|]. rewrite length_app. lia.
Qed.
End nom_lemmas.

(** ** Framing over a chunked transport *)

Section framing.
Context {A St : Type}.
(** One decode step of a codec with state: a frame and the rest of the
    buffer, or a request for more bytes. *)
Variable decode : St -> bytes -> St * option (A * bytes).
(** The peer's encoding of the next frame, and the state after it. *)
Variable encode : St -> A -> bytes.
Variable next : St -> A -> St.

(** Decode until the buffer holds no complete frame; every frame takes at
    least one byte, so [length buf] turns are enough. *)
Fixpoint drain (fuel : nat) (s : St) (buf : bytes) : list A * St * bytes :=
  match fuel with
  | O => ([], s, buf)
  | S fuel =>
      match decode s buf with
      | (s, None) => ([], s, buf)
      | (s, Some (x, rest)) => let '(xs, s, rest) := drain fuel s rest in (x :: xs, s, rest)
      end
  end.

(** The transport delivers chunks; each is appended to the buffer, which is
    then drained. *)
Fixpoint pump (s : St) (buf : bytes) (chunks : list bytes) : list A * St * bytes :=
  match chunks with
  | [] => ([], s, buf)
  | c :: cs =>
      let '(xs, s, buf) := drain (length (buf ++ c)) s (buf ++ c) in
      let '(ys, s, buf) := pump s buf cs in (xs ++ ys, s, buf)
  end.

(** The decoder inverts the encoder on a frame, and waits on its proper
    prefixes. *)
Definition frame_ok (s : St) (x : A) : Prop :=
  encode s x <> [] /\ (forall rest, decode s (encode s x ++ rest) = (next s x, Some (x, rest))) /\
  (forall k, (k < length (encode s x))%nat -> decode s (take k (encode s x)) = (s, None)).

Fixpoint stream (s : St) (xs : list A) : bytes :=
  match xs with [] => [] | x :: xs => encode s x ++ stream (next s x) xs end.

Fixpoint frames_ok (s : St) (xs : list A) : Prop :=
  match xs with [] => True | x :: xs => frame_ok s x /\ frames_ok (next s x) xs end.

Definition after (s : St) (xs : list A) : St := fold_left next xs s.

(** An invariant of the codec's state under which an empty buffer waits. *)
Variable good : St -> Prop.
Hypothesis decode_nil : forall s, good s -> decode s [] = (s, None).
Hypothesis next_good : forall s x, good s -> frame_ok s x -> good (next s x).

(** Draining a buffer that is a prefix of a stream yields the complete frames
    and leaves the rest of it for the next chunk. *)
Lemma drain_prefix xs s buf tail fuel :
  good s -> frames_ok s xs -> stream s xs = buf ++ tail -> (length buf <= fuel)%nat ->
  exists ys zs rest, xs = ys ++ zs /\ drain fuel s buf = (ys, after s ys, rest)
    /\ good (after s ys) /\ frames_ok (after s ys) zs /\ stream (after s ys) zs = rest ++ tail
    /\ (tail = [] -> zs = []).
Proof.
  revert s buf fuel. induction xs as [|x xs IH]; intros s buf fuel Hg Hok E Hf.
  { exists [], [], []. simpl in E. symmetry in E. apply app_nil in E as [-> ->].
    split_and!; try done. destruct fuel; [done|]. simpl. by rewrite decode_nil. }
  destruct Hok as [Hx Hok]. pose proof (next_good s x Hg Hx) as Hg'.
  destruct Hx as (Hne & Hd & Hp). cbn [stream] in E.
  destruct (decide (length (encode s x) <= length buf)%nat) as [Hle|Hlt].
  - assert (buf = encode s x ++ drop (length (encode s x)) buf) as Eb.
    { rewrite <- (take_drop (length (encode s x)) buf) at 1. f_equal.
      apply (f_equal (take (length (encode s x)))) in E.
      rewrite take_app_length, take_app_le in E by done. done. }
    set (buf' := drop (length (encode s x)) buf) in *.
    assert (0 < length (encode s x))%nat by (destruct (encode s x); [done|simpl; lia]).
    assert (length buf = (length (encode s x) + length buf')%nat) as El
      by (rewrite Eb at 1; by rewrite length_app).
    destruct fuel as [|fuel]; [lia|].
    rewrite Eb, <- app_assoc in E. apply app_inv_head in E.
    destruct (IH (next s x) buf' fuel Hg' Hok E ltac:(lia))
      as (ys & zs & rest & -> & Ed & H0 & H1 & H2 & H3).
    exists (x :: ys), zs, rest. split_and!; try done.
    cbn [drain]. rewrite Eb, Hd. by rewrite Ed.
  - exists [], (x :: xs), buf.
    assert (buf = take (length buf) (encode s x)) as Eb.
    { apply (f_equal (take (length buf))) in E. rewrite take_app_length in E.
      by rewrite take_app_le in E by lia. }
    split_and!; try done.
    + destruct fuel as [|fuel]; [done|]. cbn [drain].
      pose proof (Hp (length buf) ltac:(lia)) as Hp'. rewrite <- Eb in Hp'. by rewrite Hp'.
    + intros ->. rewrite app_nil_r in E. apply (f_equal length) in E.
      rewrite length_app in E. lia.
Qed.

Lemma pump_prefix chunks xs s buf :
  good s -> frames_ok s xs -> stream s xs = buf ++ concat chunks -> (concat chunks = [] -> xs = []) ->
  pump s buf chunks = (xs, after s xs, []).
Proof.
  revert xs s buf. induction chunks as [|c cs IH]; intros xs s buf Hg Hok E Hnil; cbn [pump].
  { rewrite (Hnil eq_refl) in *. simpl in E. symmetry in E. by apply app_nil in E as [-> _]. }
  cbn [concat] in E. rewrite app_assoc in E.
  destruct (drain_prefix xs s (buf ++ c) (concat cs) (length (buf ++ c)) Hg Hok E ltac:(lia))
    as (ys & zs & rest & -> & -> & H0 & H1 & H2 & H3).
  rewrite (IH zs (after s ys) rest H0 H1 H2 H3). unfold after. by rewrite fold_left_app.
Qed.

(** As much of the stream as arrived yields the frames complete in it. *)
Lemma pump_partial chunks xs s buf tail :
  good s -> frames_ok s xs -> stream s xs = buf ++ concat chunks ++ tail ->
  exists ys zs rest, xs = ys ++ zs /\ pump s buf chunks = (ys, after s ys, rest).
Proof.
  revert xs s buf. induction chunks as [|c cs IH]; intros xs s buf Hg Hok E; cbn [pump].
  { by exists [], xs, buf. }
  cbn [concat] in E. rewrite <- app_assoc, app_assoc in E.
  destruct (drain_prefix xs s (buf ++ c) (concat cs ++ tail) (length (buf ++ c)) Hg Hok E ltac:(lia))
    as (ys & zs & rest & -> & -> & H0 & H1 & H2 & _).
  destruct (IH zs (after s ys) rest H0 H1 H2) as (ys' & zs' & rest' & -> & ->).
  exists (ys ++ ys'), zs', rest'. split; [by rewrite app_assoc|]. unfold after. by rewrite fold_left_app.
Qed.

(** However the stream is cut into chunks, exactly its frames come out, in
    order, and nothing is left over. *)
Lemma pump_frames xs s chunks :
  good s -> frames_ok s xs -> stream s xs = concat chunks -> pump s [] chunks = (xs, after s xs, []).
Proof.
  intros Hg Hok E. apply pump_prefix; [done|done|done|]. intros Ec. rewrite Ec in E.
  destruct xs as [|x xs]; [done|]. destruct Hok as [(Hne & _) _]. cbn [stream] in E.
  by apply app_nil in E as [? _].
Qed.
End framing.

(** One step of a sequenced parser: the next field off the encoding. *)
Ltac reads_field :=
  first
    [ apply reads_verify; [reads_field|]
    | apply reads_u8 | apply reads_u16 | apply reads_u32 | apply reads_i32
    | apply reads_take ].

Ltac reads_end := eapply reads_last; [reads_field|cbv beta iota].

Ltac reads_next := eapply reads_bind; [reads_field|cbv beta iota].

(** The bytes written, spelled out as the parser lemmas have them. *)
Ltac wire_eq :=
  eapply writes_eq; [cf_writes|cbn [concat]; rewrite <- ?app_assoc, ?app_nil_r; reflexivity].

(** ** Bounded waiting

    [waits p n P]: on a buffer of at least [n] bytes [p] does not ask for more;
    when it succeeds it has used at most [n] bytes and its value satisfies
    [P]. *)

Definition waits {A} (p : parser A) (n : Z) (P : A -> Prop) : Prop :=
  forall buf, bytes_ok buf -> n <= len buf ->
    match p buf with
    | Ok (rest, x) => bytes_ok rest /\ len buf - n <= len rest /\ P x
    | Err e => e <> Incomplete
    end.

Lemma waits_bind {A B} (p : parser A) (k : bytes * A -> IResult B) n m P Q :
  0 <= m -> waits p n P -> (forall x, P x -> waits (fun buf => k (buf, x)) m Q) ->
  waits (fun buf => res_bind (p buf) k) (n + m) Q.
Proof.
  intros Hm Hp Hk buf Hb Hl. specialize (Hp buf Hb ltac:(lia)).
  destruct (p buf) as [[rest x]|e]; cbn [res_bind]; [|done]. destruct Hp as (Hrb & Hr & Hx).
  specialize (Hk x Hx rest Hrb ltac:(lia)). cbv beta in Hk.
  destruct (k (rest, x)) as [[rest' y]|e]; [|done]. destruct Hk as (? & ? & ?).
  split; [done|]. split; [lia|done].
Qed.

Lemma waits_ret {A} (x : A) (P : A -> Prop) : P x -> waits (fun buf => Ok (buf, x)) 0 P.
Proof. intros Hx buf Hb _. split; [done|]. split; [lia|done]. Qed.

Lemma waits_fail {A} e n (P : A -> Prop) : e <> Incomplete -> waits (fun _ => Err e) n P.
Proof. by intros He buf _ _. Qed.

(** A last step that reads nothing. *)
Lemma waits_pure {A B} (r : result A nom_err) (k : A -> result B nom_err) (P : B -> Prop) :
  r <> Err Incomplete -> (forall x, r = Ok x -> k x <> Err Incomplete) ->
  (forall x y, r = Ok x -> k x = Ok y -> P y) ->
  waits (fun buf => let? x := r in let? y := k x in Ok (buf, y)) 0 P.
Proof.
  intros Hr Hk Hp buf Hb _. destruct r as [x|e]; cbn [res_bind]; [|congruence].
  specialize (Hk x eq_refl). destruct (k x) as [y|e] eqn:E; cbn [res_bind]; [|congruence].
  split; [done|]. split; [lia|]. by eapply Hp.
Qed.

Lemma waits_weaken {A} (p : parser A) n m P : n <= m -> waits p n P -> waits p m P.
Proof.
  intros Hn Hp buf Hb Hl. specialize (Hp buf Hb ltac:(lia)). destruct (p buf) as [[rest x]|e]; [|done].
  destruct Hp as (? & ? & ?). split; [done|]. split; [lia|done].
Qed.

Lemma waits_map {A B} (p : parser A) (f : A -> B) n P :
  waits p n P -> waits (fun buf => let? (buf, v) := p buf in Ok (buf, f v)) n (fun _ => True).
Proof.
  intros Hp. rewrite <- (Z.add_0_r n). eapply waits_bind; [done|exact Hp|]. intros x _.
  by apply waits_ret.
Qed.

Section waits_nom.
Context `{N : Nom} `{!NomLaws N}.

Lemma waits_int (p : parser Z) n f (P : Z -> Prop) :
  (forall buf, p buf = int_of_bytes n f buf) ->
  (forall b, bytes_ok b -> length b = n -> P (f b)) -> waits p (Z.of_nat n) P.
Proof.
  intros E Hf buf Hb Hl. rewrite E. unfold int_of_bytes, len in *.
  destruct (Nat.leb_spec n (length buf)); [|lia]. rewrite length_drop.
  split; [by apply Forall_drop|]. split; [lia|]. apply Hf; [by apply Forall_take|].
  rewrite length_take. lia.
Qed.

Lemma le_bytes_u n b : bytes_ok b -> length b = n -> in_u (8 * Z.of_nat n) (of_le_bytes b).
Proof. intros Hb <-. by apply of_le_bytes_range. Qed.

Lemma waits_u8 : waits le_u8 1 (in_u 8).
Proof. eapply (waits_int _ 1); [apply le_u8_eq|apply (le_bytes_u 1)]. Qed.

Lemma waits_u16 : waits le_u16 2 (in_u 16).
Proof. eapply (waits_int _ 2); [apply le_u16_eq|apply (le_bytes_u 2)]. Qed.

Lemma waits_u32 : waits le_u32 4 (in_u 32).
Proof. eapply (waits_int _ 4); [apply le_u32_eq|apply (le_bytes_u 4)]. Qed.

Lemma waits_i32 : waits le_i32 4 (fun _ => True).
Proof. eapply (waits_int _ 4); [apply le_i32_eq|done]. Qed.

Lemma waits_take n m : n <= m -> 0 <= m -> waits (nom_take n) m (fun _ => True).
Proof.
  intros Hn Hm buf Hb Hl. rewrite nom_take_eq. destruct (Z.leb_spec n (len buf)); [|lia].
  unfold len in *. rewrite length_drop. split; [by apply Forall_drop|]. split; [lia|done].
Qed.

Lemma waits_verify {A} (p : parser A) f n P :
  waits p n P -> waits (verify p f) n (fun x => P x /\ f x = true).
Proof.
  intros Hp buf Hb Hl. specialize (Hp buf Hb Hl). rewrite verify_eq.
  destruct (p buf) as [[rest x]|e]; [|done]. destruct (f x) eqn:E; [|done]. tauto.
Qed.

Lemma waits_map_res {A B} (p : parser A) (f : A -> option B) n P :
  waits p n P -> waits (map_res p f) n (fun _ => True).
Proof.
  intros Hp buf Hb Hl. specialize (Hp buf Hb Hl). rewrite map_res_eq.
  destruct (p buf) as [[rest x]|e]; [|done]. destruct (f x); [|done]. tauto.
Qed.

Lemma waits_cond {A} b (p : parser A) n P :
  0 <= n -> waits p n P -> waits (cond b p) n (fun o => forall x, o = Some x -> P x).
Proof.
  intros Hn Hp buf Hb Hl. specialize (Hp buf Hb Hl). rewrite cond_eq.
  destruct b; [|by split; [done|split; [lia|]]].
  destruct (p buf) as [[rest x]|e]; [|done]. destruct Hp as (? & ? & ?).
  split; [done|]. split; [done|]. by intros ? [= <-].
Qed.

Lemma waits_pair {A B} (p : parser A) (q : parser B) n m P Q :
  0 <= m -> waits p n P -> waits q m Q -> waits (nom_pair p q) (n + m) (fun _ => True).
Proof.
  intros Hm Hp Hq buf Hb Hl. rewrite nom_pair_eq. revert buf Hb Hl.
  change (waits (fun buf => let? (buf, x) := p buf in let? (buf, y) := q buf in Ok (buf, (x, y)))
    (n + m) (fun _ => True)).
  eapply waits_bind; [done|exact Hp|]. intros x _. cbv beta iota.
  by apply (waits_map q (fun y => (x, y)) m Q).
Qed.
End waits_nom.

Ltac waits_field :=
  first [ apply waits_verify; waits_field | apply waits_u32 | apply waits_u16 | apply waits_i32
        | apply waits_u8 ].
