(* ===== verification/Rtp.v ===== *)
(** * RTP packets and per-track counters ([src/rtsp/rtp.rs])

    The byte-level writer of the [rtp-types] package is an interface,
    [RtpBuilder], whose documented behaviour (the fixed RFC 3550 header, no
    padding, no extension, no CSRC) is the law class [RtpBuilderLaws];
    [rtp_std] is an instance that satisfies it. [rtp_parse] is the receiver's
    reading of a packet, used only in statements. *)

From S2P Require Import Prelude.

(** The fields handed to [RtpPacketBuilder]. *)
Record RtpFields := MkRtpFields {
  payload_type : Z;
  sequence_number : Z;
  timestamp : Z;
  ssrc_field : Z;
  marker_bit : bool;
  payload : bytes
}.

Class RtpBuilder := {
  calculate_size : RtpFields -> option nat;
  write_into : RtpFields -> bytes -> option bytes
}.

(** RFC 3550 section 5.1: version 2, then marker and payload type, sequence
    number, timestamp and SSRC, all big endian. *)
Definition rtp_header (f : RtpFields) : bytes :=
  [128; (if marker_bit f then 128 else 0) + payload_type f]
  ++ to_be_bytes 2 (sequence_number f) ++ to_be_bytes 4 (timestamp f)
  ++ to_be_bytes 4 (ssrc_field f).

Definition rtp_fields_ok (f : RtpFields) : Prop :=
  in_u 7 (payload_type f) /\ u16 (sequence_number f) /\ u32 (timestamp f)
  /\ u32 (ssrc_field f).

Class RtpBuilderLaws (B : RtpBuilder) : Prop := {
  calculate_size_ok f : rtp_fields_ok f -> calculate_size f = Some (12 + length (payload f))%nat;
  write_into_ok f buf :
    rtp_fields_ok f -> length buf = (12 + length (payload f))%nat ->
    write_into f buf = Some (rtp_header f ++ payload f)
}.

(** Build a single RTP packet; a refusal of the builder yields the empty
    packet. *)
Definition build_packet `{RtpBuilder} (payload_type sequence_number timestamp ssrc : Z)
    (marker : bool) (payload : bytes) : bytes :=
  let builder := MkRtpFields payload_type sequence_number timestamp ssrc marker payload in
  match calculate_size builder with
  | None => []
  | Some size =>
      match write_into builder (replicate size 0) with
      | None => []
      | Some buf => buf
      end
  end.

(** Per-session RTP counters. *)
Record RtpCounters := MkRtpCounters { ssrc : Z; seq : Z }.

Definition fixed (ssrc seq : Z) : RtpCounters := MkRtpCounters ssrc seq.

(** Return the current sequence number and advance it, wrapping. *)
Definition next_seq (c : RtpCounters) : Z * RtpCounters :=
  (seq c, MkRtpCounters (ssrc c) (wrap 16 (seq c + 1))).

(** ** The receiver's view and lemmas *)

Definition rtp_parse (p : bytes) : option RtpFields :=
  match p with
  | v :: m :: s1 :: s0 :: t3 :: t2 :: t1 :: t0 :: r3 :: r2 :: r1 :: r0 :: body =>
      if v =? 128 then
        Some (MkRtpFields (m mod 128) (of_be_bytes [s1; s0]) (of_be_bytes [t3; t2; t1; t0])
                (of_be_bytes [r3; r2; r1; r0]) (128 <=? m) body)
      else None
  | _ => None
  end.

Definition counters_ok (c : RtpCounters) : Prop := u32 (ssrc c) /\ u16 (seq c).

(** The counters after [n] packets. *)
Definition advance (c : RtpCounters) (n : nat) : RtpCounters :=
  MkRtpCounters (ssrc c) (wrap 16 (seq c + Z.of_nat n)).

Lemma next_seq_ok c : counters_ok c -> counters_ok (snd (next_seq c)).
Proof. intros [? ?]. split; [done|]. by apply wrap_range. Qed.

Lemma advance_0 c : counters_ok c -> advance c 0 = c.
Proof.
  destruct c. intros [_ Hs]. unfold advance. simpl in *.
  rewrite Z.add_0_r, wrap_small by done. done.
Qed.

Lemma advance_ok c n : counters_ok c -> counters_ok (advance c n).
Proof. intros [? ?]. split; [done|]. by apply wrap_range. Qed.

Lemma advance_advance c n m : advance (advance c n) m = advance c (n + m).
Proof.
  unfold advance. simpl. f_equal. rewrite wrap_add_l by lia. f_equal. lia.
Qed.

Lemma next_seq_advance c : snd (next_seq c) = advance c 1.
Proof. done. Qed.

#[export] Hint Resolve next_seq_ok advance_ok : br_ints.

Section laws.
Context `{B : RtpBuilder} `{!RtpBuilderLaws B}.

Lemma build_packet_eq pt sq ts sc m body :
  rtp_fields_ok (MkRtpFields pt sq ts sc m body) ->
  build_packet pt sq ts sc m body = rtp_header (MkRtpFields pt sq ts sc m body) ++ body.
Proof.
  intros Hok. unfold build_packet. rewrite calculate_size_ok by done.
  rewrite write_into_ok; [done|done|]. by rewrite length_replicate.
Qed.

Lemma rtp_header_length f : length (rtp_header f) = 12%nat.
Proof.
  unfold rtp_header. rewrite !length_app, !to_be_bytes_length. done.
Qed.

Lemma build_packet_length pt sq ts sc m body :
  rtp_fields_ok (MkRtpFields pt sq ts sc m body) ->
  length (build_packet pt sq ts sc m body) = (12 + length body)%nat.
Proof. intros. rewrite build_packet_eq by done. by rewrite length_app, rtp_header_length. Qed.

(** A receiver reads back exactly the fields the packet was built from. *)
Lemma rtp_parse_build pt sq ts sc m body :
  rtp_fields_ok (MkRtpFields pt sq ts sc m body) ->
  rtp_parse (build_packet pt sq ts sc m body) = Some (MkRtpFields pt sq ts sc m body).
Proof.
  intros Hok. rewrite build_packet_eq by done. destruct Hok as (Hp & Hs & Ht & Hc).
  simpl in *. unfold rtp_header. cbn [marker_bit payload_type sequence_number timestamp ssrc_field].
  pose proof (of_to_be_bytes 2 sq Hs) as E2. pose proof (of_to_be_bytes 4 ts Ht) as E4.
  pose proof (of_to_be_bytes 4 sc Hc) as E4'.
  unfold to_be_bytes in *. cbn [to_le_bytes rev app] in *. cbn [rtp_parse].
  change (128 =? 128) with true. cbn iota.
  unfold in_u in Hp. change (2 ^ 7) with 128 in Hp.
  do 2 f_equal; try done.
  - destruct m; [|by rewrite Z.mod_small by lia].
    replace (128 + pt) with (pt + 1 * 128) by lia. rewrite Z_mod_plus_full.
    by rewrite Z.mod_small by lia.
  - destruct m; [apply Z.leb_le; lia|apply Z.leb_gt; lia].
Qed.
End laws.

(** ** An instance: the builder as RFC 3550 lays the packet out *)

Definition rtp_std : RtpBuilder := {|
  calculate_size f := Some (12 + length (payload f))%nat;
  write_into f buf :=
    if (length buf <? 12 + length (payload f))%nat then None
    else Some (rtp_header f ++ payload f ++ drop (12 + length (payload f)) buf)
|}.

#[export] Instance rtp_std_laws : RtpBuilderLaws rtp_std.
Proof.
  split; [done|]. intros f buf _ Hb. simpl. rewrite Hb, Nat.ltb_irrefl.
  rewrite drop_ge by lia. by rewrite app_nil_r.
Qed.
