(* ===== verification/Nal.v ===== *)
(** * NAL units: splitting, filtering and codec detection
    ([src/rtsp/codec/mod.rs], [src/rtsp/codec/nal.rs])

    [split_annex_b] is the source's index loop; [scan] is the reference
    definition on the remaining suffix, and the two are proved equal before
    anything else is said about the split. Indexing is [byte_at]: every index
    in the source is guarded by the loop conditions that are kept here. *)

From S2P Require Import Prelude.

Inductive VideoCodec := H264 | H265.

Inductive AudioCodec := Aac | G711Ulaw.

#[export] Instance VideoCodec_eq : EqDecision VideoCodec.
Proof. solve_decision. Defined.

#[export] Instance AudioCodec_eq : EqDecision AudioCodec.
Proof. solve_decision. Defined.

Definition byte_at (l : bytes) (i : nat) : Z := default 0 (l !! i).

(** [&stream[start..stop]]. *)
Definition slice {A} (l : list A) (start stop : nat) : list A :=
  take (stop - start) (drop start l).

(** ** [split_annex_b] *)

Definition three_byte (stream : bytes) (i : nat) : bool :=
  (byte_at stream i =? 0) && (byte_at stream (i + 1) =? 0) && (byte_at stream (i + 2) =? 1).

Definition four_byte (stream : bytes) (i : nat) : bool :=
  (i + 3 <? length stream)%nat
  && (byte_at stream i =? 0) && (byte_at stream (i + 1) =? 0)
  && (byte_at stream (i + 2) =? 0) && (byte_at stream (i + 3) =? 1).

Definition push_nal (stream : bytes) (nal_start : option nat) (i : nat) (nals : list bytes)
    : list bytes :=
  match nal_start with
  | Some start => if (start <? i)%nat then nals ++ [slice stream start i] else nals
  | None => nals
  end.

(** The [while] loop: [i] grows by at least one per turn, so [length stream]
    turns are enough (see [split_loop_scan]). *)
Fixpoint split_loop (fuel : nat) (stream : bytes) (i : nat) (nal_start : option nat)
    (nals : list bytes) : option nat * list bytes :=
  match fuel with
  | O => (nal_start, nals)
  | S fuel =>
      if (i + 2 <? length stream)%nat then
        if four_byte stream i then
          split_loop fuel stream (i + 4) (Some (i + 4)%nat) (push_nal stream nal_start i nals)
        else if three_byte stream i then
          split_loop fuel stream (i + 3) (Some (i + 3)%nat) (push_nal stream nal_start i nals)
        else split_loop fuel stream (i + 1) nal_start nals
      else (nal_start, nals)
  end.

Definition split_annex_b (stream : bytes) : list bytes :=
  let '(nal_start, nals) := split_loop (length stream) stream 0 None [] in
  match nal_start with
  | Some start =>
      if (start <? length stream)%nat then nals ++ [drop start stream] else nals
  | None => nals
  end.

(** ** NAL unit types *)

Module H264NalType.
Definition from_header_byte (b : Z) : Z := Z.land b 31.
Definition NON_IDR_SLICE : Z := 1.
Definition IDR_SLICE : Z := 5.
Definition SEI : Z := 6.
Definition SPS : Z := 7.
Definition PPS : Z := 8.
Definition AUD : Z := 9.
End H264NalType.

Module H265NalType.
Definition from_header_byte (b : Z) : Z := Z.land (Z.shiftr b 1) 63.
Definition VPS : Z := 32.
Definition SPS : Z := 33.
Definition PPS : Z := 34.
Definition AUD : Z := 35.
Definition BLA_W_LP : Z := 16.
Definition IDR_W_RADL : Z := 19.
Definition IDR_N_LP : Z := 20.
Definition CRA : Z := 21.
End H265NalType.

(** [(lo..=hi).contains(&x)]. *)
Definition within (lo hi x : Z) : bool := (lo <=? x) && (x <=? hi).

Definition is_decodable_nal (nal : bytes) (codec : VideoCodec) : bool :=
  match nal with
  | [] => false
  | b0 :: rest =>
      match codec with
      | H264 => within 1 13 (H264NalType.from_header_byte b0)
      | H265 =>
          match rest with
          | [] => false
          | b1 :: _ =>
              let ty := H265NalType.from_header_byte b0 in
              if negb (within 0 9 ty || within 16 21 ty || within 32 40 ty) then false
              else
                let layer_id := Z.lor (wrap 8 (Z.shiftl (Z.land b0 1) 5)) (Z.shiftr b1 3) in
                layer_id =? 0
          end
      end
  end.

Definition detect_codec (nal : bytes) : option VideoCodec :=
  match nal with
  | [] => None
  | byte0 :: _ =>
      if negb (Z.land byte0 128 =? 0) then None
      else
        let h264_type := H264NalType.from_header_byte byte0 in
        let h265_type := H265NalType.from_header_byte byte0 in
        if ((h264_type =? 7) || (h264_type =? 8)) && (h265_type <? 32) then Some H264
        else if within 32 40 h265_type && (2 <=? len nal)
                && (1 <=? Z.land (byte_at nal 1) 7) then Some H265
        else if (h264_type =? 5) && negb (within 19 21 h265_type) then Some H264
        else if within 19 21 h265_type && (2 <=? len nal) then
          if 1 <=? Z.land (byte_at nal 1) 7 then Some H265 else Some H264
        else Some H264
  end.

(** ** Reference definition of the split

    [scan cur s]: [cur] is the NAL read so far, if one has started, and [s]
    the bytes not looked at yet. *)

Definition emit (cur : option bytes) : list bytes :=
  match cur with Some (b :: n) => [b :: n] | _ => [] end.

Fixpoint scan (fuel : nat) (cur : option bytes) (s : bytes) : list bytes :=
  match fuel with
  | O => emit (option_map (fun n => n ++ s) cur)
  | S fuel =>
      match s with
      | a :: b :: c :: t =>
          if (a =? 0) && (b =? 0) && (c =? 0) && (byte_at t 0 =? 1) then
            emit cur ++ scan fuel (Some []) (drop 1 t)
          else if (a =? 0) && (b =? 0) && (c =? 1) then
            emit cur ++ scan fuel (Some []) t
          else scan fuel (option_map (fun n => n ++ [a]) cur) (b :: c :: t)
      | _ => emit (option_map (fun n => n ++ s) cur)
      end
  end.

(** A NAL body holds no start code. *)
Fixpoint has_start_code (l : bytes) : bool :=
  match l with
  | a :: t =>
      match t with
      | b :: c :: _ => (a =? 0) && (b =? 0) && (c =? 1) || has_start_code t
      | _ => false
      end
  | [] => false
  end.

(** What an encoder writes: a NAL is not empty, holds no start code and does
    not end in a zero byte (RFC 6184 / H.264 annex B). *)
Definition nal_well_formed (nal : bytes) : Prop :=
  nal <> [] /\ has_start_code nal = false /\ list.last nal <> Some 0.

(** An Annex-B stream: each NAL behind a three- or a four-byte start code. *)
Definition annex_b (l : list (bool * bytes)) : bytes :=
  concat (map (fun p : bool * bytes => (if fst p then [0; 0; 0; 1] else [0; 0; 1]) ++ snd p) l).

(** ** The loop computes [scan] *)

Lemma byte_at_drop l i j : byte_at (drop i l) j = byte_at l (i + j).
Proof. unfold byte_at. by rewrite lookup_drop. Qed.

Lemma drop_cons_byte l i : (i < length l)%nat -> drop i l = byte_at l i :: drop (S i) l.
Proof.
  intros Hi. destruct (lookup_lt_is_Some_2 l i Hi) as [x Hx].
  unfold byte_at. rewrite Hx. by apply drop_S.
Qed.

Lemma slice_snoc (l : bytes) start i :
  (start <= i)%nat -> (i < length l)%nat ->
  slice l start (S i) = slice l start i ++ [byte_at l i].
Proof.
  intros Hs Hi. unfold slice. replace (S i - start)%nat with (S (i - start)) by lia.
  destruct (lookup_lt_is_Some_2 l i Hi) as [x Hx].
  rewrite (take_S_r _ _ x).
  - unfold byte_at. by rewrite Hx.
  - rewrite lookup_drop. by replace (start + (i - start))%nat with i by lia.
Qed.

Lemma slice_full {A} (l : list A) start : slice l start (length l) = drop start l.
Proof. unfold slice. rewrite take_ge; [done|]. rewrite length_drop. lia. Qed.

Lemma slice_drop_app {A} (l : list A) start i :
  (start <= i)%nat -> slice l start i ++ drop i l = drop start l.
Proof.
  intros. unfold slice. replace (drop i l) with (drop (i - start) (drop start l)).
  - apply take_drop.
  - rewrite drop_drop. f_equal. lia.
Qed.

Lemma slice_nil_iff {A} (l : list A) start i :
  (start <= i <= length l)%nat -> slice l start i = [] <-> start = i.
Proof.
  intros ?. unfold slice. split; [|intros ->; by rewrite Nat.sub_diag].
  intros E. apply (f_equal length) in E. rewrite length_take, length_drop in E. simpl in E. lia.
Qed.

(** The cursor state of [scan] that corresponds to [nal_start] at index [i]. *)
Definition cur_of (stream : bytes) (nal_start : option nat) (i : nat) : option bytes :=
  option_map (fun start => slice stream start i) nal_start.

Definition start_ok (nal_start : option nat) (i : nat) : Prop :=
  match nal_start with Some start => (start <= i)%nat | None => True end.

Lemma push_nal_emit stream ns i nals :
  start_ok ns i -> (i <= length stream)%nat ->
  push_nal stream ns i nals = nals ++ emit (cur_of stream ns i).
Proof.
  destruct ns as [start|]; simpl; intros Hs Hi; [|by rewrite app_nil_r].
  pose proof (slice_nil_iff stream start i ltac:(lia)) as E.
  destruct (Nat.ltb_spec start i).
  - destruct (slice stream start i); [|done]. destruct E as [E _]. specialize (E eq_refl). lia.
  - destruct E as [_ E]. rewrite E by lia. by rewrite app_nil_r.
Qed.

Definition finish (stream : bytes) (r : option nat * list bytes) : list bytes :=
  match fst r with
  | Some start =>
      if (start <? length stream)%nat then snd r ++ [drop start stream] else snd r
  | None => snd r
  end.

Lemma finish_emit stream ns i nals :
  start_ok ns i -> (i <= length stream)%nat ->
  finish stream (ns, nals)
  = nals ++ emit (option_map (fun n => n ++ drop i stream) (cur_of stream ns i)).
Proof.
  intros Hs Hi. unfold finish. destruct ns as [start|]; simpl in *; [|by rewrite app_nil_r].
  rewrite slice_drop_app by done. destruct (Nat.ltb_spec start (length stream)).
  - rewrite (drop_cons_byte stream start) by done. done.
  - rewrite drop_ge by lia. by rewrite app_nil_r.
Qed.

Lemma four_byte_suffix stream i :
  (i + 2 < length stream)%nat ->
  four_byte stream i
  = (byte_at stream i =? 0) && (byte_at stream (i + 1) =? 0)
    && (byte_at stream (i + 2) =? 0) && (byte_at (drop (i + 3) stream) 0 =? 1).
Proof.
  intros Hi. unfold four_byte. rewrite byte_at_drop, Nat.add_0_r.
  destruct (Nat.ltb_spec (i + 3) (length stream)); [done|].
  replace (byte_at stream (i + 3)) with 0; [change (0 =? 1) with false; by rewrite !andb_false_r|].
  unfold byte_at. by rewrite lookup_ge_None_2 by lia.
Qed.

Lemma drop3 stream i :
  (i + 2 < length stream)%nat ->
  drop i stream = byte_at stream i :: byte_at stream (i + 1) :: byte_at stream (i + 2)
                  :: drop (i + 3) stream.
Proof.
  intros. rewrite drop_cons_byte by lia. f_equal. rewrite drop_cons_byte by lia.
  replace (S i) with (i + 1)%nat by lia. f_equal. rewrite drop_cons_byte by lia.
  replace (S (i + 1)) with (i + 2)%nat by lia. f_equal. f_equal. lia.
Qed.

Lemma four_byte_bound stream i : four_byte stream i = true -> (i + 3 < length stream)%nat.
Proof. unfold four_byte. intros. b2p. done. Qed.

(** The source's loop and the reference definition agree, whatever the
    fuel. *)
Lemma split_loop_scan fuel stream i ns nals :
  start_ok ns i -> (i <= length stream)%nat ->
  finish stream (split_loop fuel stream i ns nals)
  = nals ++ scan fuel (cur_of stream ns i) (drop i stream).
Proof.
  revert i ns nals. induction fuel as [|fuel IH]; intros i ns nals Hs Hi.
  { by apply finish_emit. }
  cbn [split_loop scan]. destruct (Nat.ltb_spec (i + 2) (length stream)) as [Hlt|Hge].
  - rewrite drop3 by done. rewrite four_byte_suffix by done.
    destruct ((byte_at stream i =? 0) && (byte_at stream (i + 1) =? 0)
      && (byte_at stream (i + 2) =? 0) && (byte_at (drop (i + 3) stream) 0 =? 1)) eqn:E4.
    + rewrite <- four_byte_suffix in E4 by done. apply four_byte_bound in E4.
      rewrite IH by (simpl; lia). rewrite push_nal_emit by (done || lia).
      rewrite drop_drop. simpl. replace (i + 3 + 1)%nat with (i + 4)%nat by lia.
      rewrite app_assoc. unfold slice. by rewrite Nat.sub_diag.
    + unfold three_byte.
      destruct ((byte_at stream i =? 0) && (byte_at stream (i + 1) =? 0)
        && (byte_at stream (i + 2) =? 1)) eqn:E3.
      * rewrite IH by (simpl; lia). rewrite push_nal_emit by (done || lia).
        rewrite app_assoc. simpl. unfold slice. by rewrite Nat.sub_diag.
      * rewrite IH; [|destruct ns; simpl in *; lia|lia].
        f_equal. f_equal.
        -- destruct ns as [start|]; [|done]. simpl in *. f_equal.
           replace (i + 1)%nat with (S i) by lia. apply slice_snoc; lia.
        -- pose proof (drop3 stream i Hlt) as E. rewrite drop_cons_byte in E by lia.
           injection E as E. rewrite <- E. f_equal. lia.
  - assert (length (drop i stream) <= 2)%nat as Hl by (rewrite length_drop; lia).
    rewrite (finish_emit _ _ i) by done.
    destruct (drop i stream) as [|? [|? [|? ?]]]; simpl in *; done || lia.
Qed.

Lemma split_annex_b_scan stream :
  split_annex_b stream = scan (length stream) None stream.
Proof.
  pose proof (split_loop_scan (length stream) stream 0 None [] I ltac:(lia)) as E.
  rewrite drop_0 in E. simpl in E. rewrite <- E. unfold split_annex_b, finish.
  by destruct (split_loop _ _ _ _ _) as [[?|] ?].
Qed.

(** Enough fuel is enough: the result no longer depends on it. *)
Lemma scan_fuel f g cur s :
  (length s <= f)%nat -> (length s <= g)%nat -> scan f cur s = scan g cur s.
Proof.
  revert g cur s. induction f as [|f IH]; intros g cur s Hf Hg.
  { destruct s; [|simpl in *; lia]. destruct g; done. }
  destruct g as [|g]; [destruct s; [done|simpl in *; lia]|].
  cbn [scan]. destruct s as [|a [|b [|c t]]]; try done. simpl in Hf, Hg.
  rewrite (IH g (Some []) (drop 1 t)) by (rewrite length_drop; lia).
  rewrite (IH g (Some []) t) by lia.
  rewrite (IH g (option_map _ cur) (b :: c :: t)) by (simpl; lia). done.
Qed.

(** ** Round trip with an encoder's stream *)

(** [scan] with the fuel the split starts with. *)
Abbreviation scan_all cur s := (scan (length s) cur s).

Lemma scan_step cur a b c t :
  (a =? 0) && (b =? 0) && (c =? 0) && (byte_at t 0 =? 1) = false ->
  (a =? 0) && (b =? 0) && (c =? 1) = false ->
  scan_all cur (a :: b :: c :: t)
  = scan_all (option_map (fun n => n ++ [a]) cur) (b :: c :: t).
Proof. intros E4 E3. cbn [scan length]. by rewrite E4, E3. Qed.

Lemma scan_start_eq (four : bool) f cur t :
  scan (S f) cur ((if four then [0; 0; 0; 1] else [0; 0; 1]) ++ t) = emit cur ++ scan f (Some []) t.
Proof. destruct four; [done|]. destruct t; done. Qed.

Lemma scan_start (four : bool) cur t :
  scan_all cur ((if four then [0; 0; 0; 1] else [0; 0; 1]) ++ t) = emit cur ++ scan_all (Some []) t.
Proof.
  rewrite length_app. destruct (length (if four then _ else _)) as [|k] eqn:Ek;
    [by destruct four|].
  cbn [Nat.add]. rewrite scan_start_eq. f_equal. apply scan_fuel; lia.
Qed.

(** A suffix that ends the NAL being read: the end of the stream or a start
    code. *)
Definition boundary (r : bytes) : Prop :=
  r = [] \/ exists (four : bool) t, r = (if four then [0; 0; 0; 1] else [0; 0; 1]) ++ t.

Lemma has_start_code_cons a l : has_start_code (a :: l) = false -> has_start_code l = false.
Proof. destruct l as [|b [|c l]]; simpl; [done|done|]. intros H. by b2p. Qed.

(** Reading a well-formed body up to a boundary accumulates all of it. *)
Lemma scan_body n cur r :
  n <> [] -> has_start_code n = false -> list.last n <> Some 0 -> boundary r ->
  scan_all (Some cur) (n ++ r) = scan_all (Some (cur ++ n)) r.
Proof.
  revert cur. induction n as [|a n IH]; intros cur Hne Hsc Hl Hb; [done|].
  destruct n as [|b n].
  - assert ((a =? 0) = false) as Ha by (apply Z.eqb_neq; intros ->; by apply Hl).
    destruct Hb as [->|(four & t & ->)]; [by cbn; rewrite (app_nil_r (cur ++ [a]))|].
    destruct four; cbn [app]; (rewrite scan_step by (by rewrite Ha)); done.
  - assert (scan_all (Some cur) ((a :: b :: n) ++ r) = scan_all (Some (cur ++ [a])) ((b :: n) ++ r))
      as ->.
    + destruct n as [|c n].
      * assert ((b =? 0) = false) as Hz by (apply Z.eqb_neq; intros ->; by apply Hl).
        destruct Hb as [->|(four & t & ->)]; [cbn; by rewrite <- app_assoc|].
        destruct four; cbn [app]; (rewrite scan_step by (rewrite Hz; by destruct (a =? 0))); done.
      * cbn [app]. apply scan_step; [|by simpl in Hsc; b2p].
        apply has_start_code_cons in Hsc. destruct (b =? 0) eqn:Eb; [|by destruct (a =? 0)].
        destruct (c =? 0) eqn:Ec; [|by rewrite andb_false_r].
        destruct n as [|d n].
        -- exfalso. apply Hl. b2p. by subst.
        -- simpl in Hsc. b2p. rewrite Eb, Ec in *. simpl in *. unfold byte_at. simpl.
           destruct (d =? 1); [done|by rewrite andb_false_r].
    + rewrite IH; [|done|by eapply has_start_code_cons|done|done].
      by rewrite <- app_assoc.
Qed.

Lemma annex_b_boundary l : boundary (annex_b l).
Proof.
  destruct l as [|[four n] l]; [by left|right]. exists four, (n ++ annex_b l).
  unfold annex_b. simpl. by rewrite app_assoc.
Qed.

Lemma emit_nonempty n : n <> [] -> emit (Some n) = [n].
Proof. by destruct n. Qed.

Lemma scan_annex_b cur l :
  Forall (fun p => nal_well_formed (snd p)) l ->
  scan_all cur (annex_b l) = emit cur ++ map snd l.
Proof.
  intros Hl. revert cur. induction Hl as [|[four n] l (Hne & Hsc & Hlast) Hl IH]; intros cur.
  { simpl. destruct cur as [n|]; simpl; by rewrite ?app_nil_r. }
  change (annex_b ((four, n) :: l)) with
    (((if four then [0; 0; 0; 1] else [0; 0; 1]) ++ n) ++ annex_b l).
  rewrite <- app_assoc, scan_start. simpl in *. f_equal.
  rewrite scan_body by (done || apply annex_b_boundary). rewrite IH. simpl.
  by destruct n.
Qed.

(** ** Soundness of the split on any input *)

Lemma has_start_code_app_l l k : has_start_code (l ++ k) = false -> has_start_code l = false.
Proof.
  induction l as [|a l IH]; [done|]. intros H. pose proof (has_start_code_cons _ _ H) as H'.
  specialize (IH H'). destruct l as [|b [|c l]]; try done. simpl in *. b2p.
  by rewrite IH, orb_false_r.
Qed.

Lemma has_start_code_snoc l a b c :
  has_start_code (l ++ [a; b]) = false -> (a =? 0) && (b =? 0) && (c =? 1) = false ->
  has_start_code (l ++ [a; b; c]) = false.
Proof.
  intros H E. induction l as [|x l IH]; [simpl; by rewrite E|].
  pose proof (has_start_code_cons _ _ H) as H'. specialize (IH H').
  destruct l as [|y [|z l]]; simpl in *;
    (apply orb_false_iff; split; [by b2p|exact IH]).
Qed.

Definition nal_clean (n : bytes) : Prop := n <> [] /\ has_start_code n = false.

Lemma emit_clean n : has_start_code n = false -> Forall nal_clean (emit (Some n)).
Proof. destruct n; intros; repeat constructor; done. Qed.

Lemma scan_clean fuel cur s :
  (length s <= fuel)%nat ->
  match cur with Some n => has_start_code (n ++ take 2 s) = false | None => True end ->
  Forall nal_clean (scan fuel cur s).
Proof.
  revert cur s. induction fuel as [|fuel IH]; intros cur s Hf Hc.
  { destruct s; [|simpl in *; lia]. destruct cur; [|constructor]. by apply emit_clean. }
  assert (Forall nal_clean (emit cur)) as Hem.
  { destruct cur; [|constructor]. apply emit_clean. by eapply has_start_code_app_l. }
  cbn [scan]. destruct s as [|a [|b [|c t]]];
    try (destruct cur; [by apply emit_clean|constructor]).
  simpl in Hf, Hc. destruct (_ && (byte_at t 0 =? 1)) eqn:E4.
  { apply Forall_app. split; [done|]. apply IH; [rewrite length_drop; lia|].
    by destruct (drop 1 t) as [|? [|? ?]]. }
  destruct (_ && (c =? 1)) eqn:E3.
  { apply Forall_app. split; [done|]. apply IH; [lia|]. by destruct t as [|? [|? ?]]. }
  apply IH; [simpl; lia|]. destruct cur as [n|]; [|done]. simpl.
  rewrite <- app_assoc. by apply has_start_code_snoc.
Qed.

(** ** Codec detection *)

(** First bytes as an encoder writes them: H.265 with the forbidden bit and
    [nuh_layer_id] clear and [nuh_temporal_id_plus1] at least 1; H.264 with the
    forbidden bit clear, [nal_ref_idc] and type. *)
Definition h265_header (ty b0 b1 : Z) : Prop := b0 = 2 * ty /\ 1 <= b1 <= 7.

Definition h264_header (ref_idc ty b0 : Z) : Prop := 0 <= ref_idc <= 3 /\ b0 = 32 * ref_idc + ty.

(** Only the first two bytes are looked at. *)
Lemma detect_codec_two b0 b1 t : detect_codec (b0 :: b1 :: t) = detect_codec [b0; b1].
Proof.
  unfold detect_codec, byte_at, len. simpl.
  assert ((2 <=? Z.of_nat (S (S (length t)))) = true) as -> by (apply Z.leb_le; lia).
  done.
Qed.

(** Split a bounded integer variable into its values. *)
Ltac enum x lo hi :=
  let rec go l :=
    lazymatch eval compute in (l <=? hi) with
    | true => destruct (decide (x = l)) as [->|?]; [|let l' := eval compute in (l + 1) in go l']
    | false => exfalso; lia
    end in
  go lo.

(** whatever the stream, the split never emits a NAL that
    is empty or still holds a start code. *)
Theorem split_annex_b_sound stream :
  Forall nal_clean (split_annex_b stream).
Proof. rewrite split_annex_b_scan. by apply scan_clean. Qed.

(** splitting the Annex-B stream of any sequence
    of well-formed NALs, each behind a three- or four-byte start code, gives
    back exactly those NALs in order. *)
Theorem split_annex_b_roundtrip (l : list (bool * bytes)) :
  Forall (fun p => nal_well_formed (snd p)) l ->
  split_annex_b (annex_b l) = map snd l.
Proof. intros Hl. rewrite split_annex_b_scan. by rewrite scan_annex_b. Qed.

Lemma split_annex_b_roundtrip_witness :
  split_annex_b (annex_b [(true, [103; 0; 0; 3]); (false, [104; 0; 5])])
  = [[103; 0; 0; 3]; [104; 0; 5]].
Proof.
  apply (split_annex_b_roundtrip [(true, [103; 0; 0; 3]); (false, [104; 0; 5])]).
  repeat constructor; done.
Defined.

(** a stream that opens with an H.265 parameter set, AUD,
    EOS, EOB, filler or SEI (types 32 to 40), an IDR_W_RADL (19) or a CRA
    slice (21), base layer, is detected as H.265. *)
Theorem detect_codec_h265 ty b0 b1 rest :
  h265_header ty b0 b1 -> 32 <= ty <= 40 \/ ty = 19 \/ ty = 21 ->
  detect_codec (b0 :: b1 :: rest) = Some H265.
Proof.
  intros (-> & Hb) Hty. rewrite detect_codec_two.
  enum b1 1 7; destruct Hty as [Hty|[->| ->]]; try done; enum ty 32 40; done.
Qed.

Lemma detect_codec_h265_witness : detect_codec [64; 1; 12] = Some H265.
Proof. apply (detect_codec_h265 32 64 1 [12]); [split; [done|lia]|lia]. Defined.

(** a stream that opens with an H.264 IDR slice, SPS or
    PPS is detected as H.264 exactly unless its [nal_ref_idc] is 2 and its
    second byte has a nonzero low triple; such a stream is taken for H.265. *)
Theorem detect_codec_h264 ref_idc ty b0 b1 rest :
  h264_header ref_idc ty b0 -> ty = 5 \/ ty = 7 \/ ty = 8 ->
  detect_codec (b0 :: b1 :: rest)
  = Some (if (ref_idc =? 2) && (1 <=? Z.land b1 7) then H265 else H264).
Proof.
  intros (Hr & ->) Hty. rewrite detect_codec_two.
  unfold detect_codec, byte_at. change (default 0 ([_; b1] !! 1%nat)) with b1.
  destruct (1 <=? Z.land b1 7);
    enum ref_idc 0 3; destruct Hty as [->|[->| ->]]; reflexivity.
Qed.

Lemma detect_codec_h264_witness : detect_codec [103; 66; 0] = Some H264.
Proof. apply (detect_codec_h264 3 7 103 66 [0]); [split; [lia|done]|lia]. Defined.
