(* ===== verification/AudioCodec.v ===== *)
(** * Audio codecs of the RTSP side ([src/rtsp/codec/aac.rs], [src/rtsp/codec/g711.rs])

    [Module Aac]: the MPEG-4 AudioSpecificConfig in the SDP, the ADTS header
    parse and the RFC 3640 payload. [Module G711]: mu-law companding on i16
    samples, with the wrap of each narrowing cast written out. *)

From S2P Require Import Prelude.

(** [{:02X}] of a byte. *)
Definition hex_digit (d : Z) : Ascii.ascii :=
  Ascii.ascii_of_nat (Z.to_nat (if d <? 10 then 48 + d else 55 + d)).

Definition hex_byte (b : Z) : string :=
  String (hex_digit (b / 16)) (String (hex_digit (b mod 16)) EmptyString).

Module Aac.

Definition sample_rates : list Z :=
  [96000; 88200; 64000; 48000; 44100; 32000; 24000; 22050; 16000; 12000; 11025; 8000; 7350].

Definition sample_rate_index (hz : Z) : option Z :=
  if hz =? 96000 then Some 0 else if hz =? 88200 then Some 1
  else if hz =? 64000 then Some 2 else if hz =? 48000 then Some 3
  else if hz =? 44100 then Some 4 else if hz =? 32000 then Some 5
  else if hz =? 24000 then Some 6 else if hz =? 22050 then Some 7
  else if hz =? 16000 then Some 8 else if hz =? 12000 then Some 9
  else if hz =? 11025 then Some 10 else if hz =? 8000 then Some 11
  else if hz =? 7350 then Some 12 else None.

(** The two bytes of the AudioSpecificConfig. *)
Definition asc_bits (aot sr_idx channels : Z) : Z :=
  Z.lor (Z.lor (Z.shiftl (Z.land aot 31) 11) (Z.shiftl (Z.land sr_idx 15) 7))
        (Z.shiftl (Z.land channels 15) 3).

Definition build_audio_specific_config_hex (aot sample_rate channels : Z) : option string :=
  if negb ((1 <=? aot) && (aot <=? 29)) then None
  else
    match sample_rate_index sample_rate with
    | None => None
    | Some sr_idx =>
        if (channels =? 0) || (7 <? channels) then None
        else
          let bits := asc_bits aot sr_idx channels in
          let byte0 := wrap 8 (Z.shiftr bits 8) in
          let byte1 := wrap 8 bits in
          Some (hex_byte byte0 +:+ hex_byte byte1)
    end.

Record AdtsHeader := MkAdtsHeader {
  aot : Z;
  sample_rate : Z;
  channels : Z;
  frame_length : Z;
  aac_frames : Z
}.

Definition ADTS_HEADER_LEN : Z := 7.

Definition parse_adts (buf : bytes) : option AdtsHeader :=
  match buf with
  | b0 :: b1 :: b2 :: b3 :: b4 :: b5 :: b6 :: _ =>
      if negb (b0 =? 255) || negb (Z.land b1 240 =? 240) then None
      else
        let profile := Z.land (Z.shiftr b2 6) 3 in
        let sr_idx := Z.land (Z.shiftr b2 2) 15 in
        let channels_high := wrap 8 (Z.shiftl (Z.land b2 1) 2) in
        let channels_low := Z.land (Z.shiftr b3 6) 3 in
        let frame_length :=
          Z.lor (Z.lor (Z.shiftl (Z.land b3 3) 11) (Z.shiftl b4 3))
                (Z.land (Z.shiftr b5 5) 7) in
        if frame_length <? ADTS_HEADER_LEN then None
        else
          match sample_rates !! Z.to_nat sr_idx with
          | None => None
          | Some rate =>
              Some (MkAdtsHeader (profile + 1) rate (Z.lor channels_high channels_low)
                      frame_length (Z.land b6 3 + 1))
          end
  | _ => None
  end.

(** [au.len() as u16] truncates, the shift drops the high bits. *)
Definition build_au_hbr_payload (au : bytes) : bytes :=
  let au_header := to_be_bytes 2 (wrap 16 (Z.shiftl (wrap 16 (len au)) 3)) in
  [0; 16] ++ au_header ++ au.

Definition AAC_PAYLOAD_TYPE : Z := 97.

(** ** Receivers' readings, used in statements *)

Definition hex_value (c : Ascii.ascii) : Z :=
  let n := Z.of_nat (Ascii.nat_of_ascii c) in if n <? 58 then n - 48 else n - 55.

(** ISO/IEC 14496-3: 5 bits object type, 4 bits frequency index, 4 bits
    channel configuration. *)
Definition parse_asc_hex (s : string) : option (Z * Z * Z) :=
  match s with
  | String a (String b (String c (String d EmptyString))) =>
      let bits := 4096 * hex_value a + 256 * hex_value b + 16 * hex_value c + hex_value d in
      match sample_rates !! Z.to_nat (Z.land (Z.shiftr bits 7) 15) with
      | Some rate => Some (Z.shiftr bits 11, rate, Z.land (Z.shiftr bits 3) 15)
      | None => None
      end
  | _ => None
  end.

(** RFC 3640 AAC-hbr with one access unit: 16 header bits, of which 13 are
    the size. *)
Definition parse_au_hbr (p : bytes) : option bytes :=
  match p with
  | 0 :: 16 :: h1 :: h0 :: au =>
      if Z.shiftr (of_be_bytes [h1; h0]) 3 =? len au then Some au else None
  | _ => None
  end.

(** The ranges of a parsed header. *)
Definition adts_ok (h : AdtsHeader) : Prop :=
  1 <= aot h <= 4 /\ 0 <= channels h <= 7 /\ ADTS_HEADER_LEN <= frame_length h < 8192
  /\ 1 <= aac_frames h <= 4 /\ exists i, sample_rate_index (sample_rate h) = Some i.

Lemma sample_rate_index_lookup hz i :
  sample_rate_index hz = Some i -> 0 <= i <= 12 /\ sample_rates !! Z.to_nat i = Some hz.
Proof.
  unfold sample_rate_index. intros H.
  repeat (destruct (_ =? _) eqn:? in H; [b2p; simplify_eq; done|]). done.
Qed.

Lemma sample_rates_index r i : sample_rates !! i = Some r -> exists k, sample_rate_index r = Some k.
Proof.
  intros H. apply list_elem_of_lookup_2 in H.
  repeat (apply elem_of_cons in H as [->|H]; [by eexists|]). by apply elem_of_nil in H.
Qed.

(** Every admissible triple, checked exhaustively: 29 object types, 13
    rates, 7 channel counts. *)
Definition asc_triple_ok (a c : Z) (rate : Z) : bool :=
  match build_audio_specific_config_hex a rate c with
  | Some s =>
      match parse_asc_hex s with
      | Some (a', r', c') => (a' =? a) && (r' =? rate) && (c' =? c)
      | None => false
      end
  | None => false
  end.

Lemma asc_all_ok :
  check_range 29 1 (fun a => check_range 7 1 (fun c =>
    forallb (asc_triple_ok a c) sample_rates)) = true.
Proof. vm_compute. done. Qed.

Lemma asc_triple a rate c i :
  1 <= a <= 29 -> 1 <= c <= 7 -> sample_rate_index rate = Some i -> asc_triple_ok a c rate = true.
Proof.
  intros Ha Hc Hr. pose proof (check_range_spec _ _ _ a asc_all_ok ltac:(lia)) as H1.
  pose proof (check_range_spec _ _ _ c H1 ltac:(lia)) as H2.
  rewrite forallb_forall in H2. apply H2, list_elem_of_In.
  apply sample_rate_index_lookup in Hr as [_ Hr]. by eapply list_elem_of_lookup_2.
Qed.

Lemma parse_adts_ok buf h : bytes_ok buf -> parse_adts buf = Some h -> adts_ok h.
Proof.
  intros Hb H. unfold parse_adts in H.
  destruct buf as [|b0 [|b1 [|b2 [|b3 [|b4 [|b5 [|b6 buf]]]]]]]; try done.
  decompose_Forall_hyps.
  destruct (negb _ || _); [done|]. destruct (_ <? _) eqn:Hf; [done|].
  destruct (sample_rates !! _) as [r|] eqn:Hr; [|done]. injection H as <-. b2p.
  unfold adts_ok. cbn [aot channels frame_length aac_frames sample_rate].
  pose proof (land_bound (Z.shiftr b2 6) 2 3 ltac:(lia) eq_refl).
  pose proof (land_bound b6 2 3 ltac:(lia) eq_refl).
  split_and!; try lia.
  - apply Z.lor_nonneg. split; [apply wrap_range; lia|apply Z.land_nonneg; lia].
  - cut (0 <= Z.lor (wrap 8 (Z.shiftl (Z.land b2 1) 2)) (Z.land (Z.shiftr b3 6) 3) < 2 ^ 3); [lia|].
    apply lor_bound; [lia| |pose proof (land_bound (Z.shiftr b3 6) 2 3 ltac:(lia) eq_refl); lia].
    pose proof (land_bound b2 1 1 ltac:(lia) eq_refl). unfold wrap.
    rewrite Z.shiftl_mul_pow2, Z.mod_small by lia. lia.
  - cut (0 <= Z.lor (Z.lor (Z.shiftl (Z.land b3 3) 11) (Z.shiftl b4 3)) (Z.land (Z.shiftr b5 5) 7) < 2 ^ 13);
      [lia|].
    apply lor_bound; [lia|apply lor_bound; [lia| |]|].
    + pose proof (land_bound b3 2 3 ltac:(lia) eq_refl). rewrite Z.shiftl_mul_pow2 by lia. lia.
    + rewrite Z.shiftl_mul_pow2 by lia. int_lia.
    + pose proof (land_bound (Z.shiftr b5 5) 3 7 ltac:(lia) eq_refl). lia.
  - by eapply sample_rates_index.
Qed.

(** whatever ADTS header the camera sends, the parse keeps
    the announced total length at least the header's own, and, unless the
    header has channel configuration 0, the SDP [config=] string built from
    it decodes to the header's object type, sample rate and channel count. *)
Theorem adts_sdp_config buf h :
  bytes_ok buf -> parse_adts buf = Some h ->
  ADTS_HEADER_LEN <= frame_length h < 8192 /\
  (channels h <> 0 -> exists s,
     build_audio_specific_config_hex (aot h) (sample_rate h) (channels h) = Some s
     /\ parse_asc_hex s = Some (aot h, sample_rate h, channels h)).
Proof.
  intros Hb H. apply parse_adts_ok in H as (Ha & Hc & Hf & _ & [i Hi]); [|done].
  split; [done|]. intros Hc0. assert (asc_triple_ok (aot h) (channels h) (sample_rate h) = true)
    as Hok by (eapply asc_triple; [lia|lia|done]).
  unfold asc_triple_ok in Hok. destruct (build_audio_specific_config_hex _ _ _) as [s|]; [|done].
  exists s. split; [done|]. destruct (parse_asc_hex s) as [[[a r] c]|]; [|done].
  b2p. by subst.
Qed.

Lemma adts_sdp_config_witness : exists h,
  parse_adts [255; 241; 96; 64; 20; 63; 252] = Some h /\ ADTS_HEADER_LEN <= frame_length h < 8192.
Proof.
  eexists. split; [reflexivity|].
  apply (adts_sdp_config [255; 241; 96; 64; 20; 63; 252]); [|reflexivity].
  repeat constructor; done.
Defined.

Lemma build_au_hbr_length au : length (build_au_hbr_payload au) = (4 + length au)%nat.
Proof.
  unfold build_au_hbr_payload. rewrite !length_app, to_be_bytes_length. done.
Qed.

(** an RFC 3640 receiver recovers the access unit from the
    payload exactly when the unit fits the 13-bit size field. *)
Theorem au_hbr_roundtrip au :
  len au < 65536 ->
  parse_au_hbr (build_au_hbr_payload au) = if len au <? 8192 then Some au else None.
Proof.
  intros Hl. pose proof (len_nonneg au). unfold build_au_hbr_payload.
  rewrite (wrap_small 16 (len au)) by int_lia.
  set (h := wrap 16 (Z.shiftl (len au) 3)).
  assert (u16 h) as Hh by (apply wrap_range; lia).
  pose proof (of_to_be_bytes 2 h Hh) as E. pose proof (to_be_bytes_length 2 h) as L.
  destruct (to_be_bytes 2 h) as [|h1 [|h0 [|? ?]]]; try done.
  cbn [app parse_au_hbr]. rewrite E. unfold h, wrap.
  rewrite Z.shiftl_mul_pow2, Z.shiftr_div_pow2 by lia.
  change (2 ^ 3) with 8. change (2 ^ 16) with (8192 * 8).
  rewrite Z.mul_mod_distr_r, Z.div_mul by lia.
  destruct (Z.ltb_spec (len au) 8192).
  - rewrite Z.mod_small by lia. by rewrite Z.eqb_refl.
  - destruct (_ =? _) eqn:Eq; [|done]. b2p.
    pose proof (Z.mod_pos_bound (len au) 8192). lia.
Qed.

Lemma au_hbr_roundtrip_witness :
  parse_au_hbr (build_au_hbr_payload [1; 2; 3]) = Some [1; 2; 3].
Proof. apply (au_hbr_roundtrip [1; 2; 3]). reflexivity. Defined.

End Aac.

Module G711.

Definition G711_PAYLOAD_TYPE : Z := 0.
Definition G711_CLOCK_HZ : Z := 8000.
Definition G711_SAMPLES_PER_FRAME : Z := 160.
Definition BIAS : Z := 132.
Definition CLIP : Z := 32635.

(** The [while] loop of [log2_exp]; [exp] starts at 7, so 7 turns. *)
Fixpoint log2_exp_loop (exp : nat) (val : Z) : nat :=
  match exp with
  | O => O
  | S exp' =>
      if Z.land val 16384 =? 0 then log2_exp_loop exp' (wrap 16 (Z.shiftl val 1)) else exp
  end.

Definition log2_exp (biased : Z) : Z := Z.of_nat (log2_exp_loop 7 biased).

(** [!x] on a u8. *)
Definition not8 (x : Z) : Z := 255 - x.

Definition encode_sample (pcm : Z) : Z :=
  let '(sample, sign) :=
    if pcm <? 0 then (swrap 16 (- Z.max pcm (- CLIP)), 128) else (Z.min pcm CLIP, 0) in
  let biased := clamp (-32768) 32767 (sample + BIAS) in
  let exponent := log2_exp (wrap 16 biased) in
  let mantissa := wrap 8 (Z.land (Z.shiftr biased (exponent + 3)) 15) in
  let ulaw := Z.lor (Z.lor sign (wrap 8 (Z.shiftl exponent 4))) mantissa in
  not8 ulaw.

Definition decode_sample (ulaw : Z) : Z :=
  let u := not8 ulaw in
  let sign := Z.land u 128 in
  let exponent := Z.land (Z.shiftr u 4) 7 in
  let mantissa := Z.land u 15 in
  let magnitude := Z.shiftl mantissa (exponent + 3) + BIAS * Z.shiftl 1 exponent - BIAS in
  let s := swrap 16 (clamp (-32768) 32767 magnitude) in
  if negb (sign =? 0) then swrap 16 (- s) else s.

(** [encode_into] and [decode_into] append to the caller's buffer. *)
Definition encode_into (pcm out : list Z) : list Z :=
  fold_left (fun out s => out ++ [encode_sample s]) pcm out.

Definition encode (pcm : list Z) : bytes := encode_into pcm [].

Definition decode_into (ulaw : bytes) (out : list Z) : list Z :=
  fold_left (fun out b => out ++ [decode_sample b]) ulaw out.

Definition decode (ulaw : bytes) : list Z := decode_into ulaw [].

Lemma fold_push {A B} (f : A -> B) l out :
  fold_left (fun out s => out ++ [f s]) l out = out ++ map f l.
Proof.
  revert out. induction l as [|a l IH]; intros out; simpl; [by rewrite app_nil_r|].
  by rewrite IH, <- app_assoc.
Qed.

(** 127 is the negative zero of the code; it is re-encoded as 255. *)
Definition canonical (u : Z) : Z := if u =? 127 then 255 else u.

Definition reencode_ok (u : Z) : bool :=
  (encode_sample (decode_sample u) =? canonical u)
  && (-32124 <=? decode_sample u) && (decode_sample u <=? 32124).

Lemma reencode_all u : u8 u -> reencode_ok u = true.
Proof. apply byte_check. vm_compute. done. Qed.

(** The quantisation error of a sample, against its (clipped) magnitude. *)
Definition clip (x : Z) : Z := clamp (- CLIP) CLIP x.

Lemma land_bit14 v : 0 <= v < 32768 -> (Z.land v 16384 =? 0) = (v <? 16384).
Proof.
  intros Hv. assert (Z.land v 16384 = if Z.testbit v 14 then 16384 else 0) as ->.
  { apply Z.bits_inj'. intros n Hn. rewrite Z.land_spec. change 16384 with (2 ^ 14).
    rewrite Z.pow2_bits_eqb by lia. destruct (Z.eqb_spec 14 n) as [<-|].
    - destruct (Z.testbit v 14); [by rewrite Z.pow2_bits_true|by rewrite Z.bits_0].
    - rewrite andb_false_r. destruct (Z.testbit v 14); [by rewrite Z.pow2_bits_false|].
      by rewrite Z.bits_0. }
  rewrite Z.testbit_odd, Z.shiftr_div_pow2 by lia. change (2 ^ 14) with 16384.
  destruct (Z.ltb_spec v 16384).
  - by rewrite Z.div_small by lia.
  - replace (v / 16384) with 1; [done|]. apply Z.div_unique with (v - 16384); lia.
Qed.

Lemma log2_exp_loop_spec n v :
  0 <= v < 32768 ->
  let e := log2_exp_loop n v in
  (e <= n)%nat /\ v * 2 ^ (Z.of_nat n - Z.of_nat e) < 32768
  /\ (e = 0%nat \/ 16384 <= v * 2 ^ (Z.of_nat n - Z.of_nat e)).
Proof.
  revert v. induction n as [|n IH]; intros v Hv; [simpl; lia|].
  cbn [log2_exp_loop]. rewrite land_bit14 by done. destruct (Z.ltb_spec v 16384).
  - rewrite Z.shiftl_mul_pow2, wrap_small by int_lia. change (2 ^ 1) with 2.
    specialize (IH (v * 2) ltac:(lia)). simpl in IH. destruct IH as (H1 & H2 & H3).
    replace (Z.of_nat (S n) - Z.of_nat (log2_exp_loop n (v * 2)))
      with (1 + (Z.of_nat n - Z.of_nat (log2_exp_loop n (v * 2)))) by lia.
    rewrite Z.pow_add_r by lia. change (2 ^ 1) with 2. lia.
  - rewrite Z.sub_diag. simpl. lia.
Qed.

(** The segment of a biased magnitude. *)
Lemma log2_exp_spec b :
  132 <= b < 32768 ->
  0 <= log2_exp b <= 7 /\ 128 * 2 ^ log2_exp b <= b < 256 * 2 ^ log2_exp b.
Proof.
  intros Hb. unfold log2_exp. pose proof (log2_exp_loop_spec 7 b ltac:(lia)) as H. cbv zeta in H.
  destruct (log2_exp_loop 7 b) as [|[|[|[|[|[|[|[|k]]]]]]]]; simpl in *; lia.
Qed.

(** The byte's fields read back, for every sign, exponent and mantissa. *)
Definition pack (sign exponent mantissa : Z) : Z :=
  not8 (Z.lor (Z.lor sign (wrap 8 (Z.shiftl exponent 4))) mantissa).

Definition magnitude (e m : Z) : Z := m * 2 ^ (e + 3) + BIAS * 2 ^ e - BIAS.

Definition unpack_ok (e m : Z) : bool :=
  (decode_sample (pack 0 e m) =? magnitude e m)
  && (decode_sample (pack 128 e m) =? - magnitude e m)
  && (0 <=? pack 0 e m) && (pack 0 e m <? 256)
  && (0 <=? pack 128 e m) && (pack 128 e m <? 256).

Lemma unpack_all e m : 0 <= e <= 7 -> 0 <= m <= 15 -> unpack_ok e m = true.
Proof.
  intros He Hm.
  assert (check_range 8 0 (fun e => check_range 16 0 (unpack_ok e)) = true) as H by done.
  pose proof (check_range_spec _ _ _ e H ltac:(lia)) as H1.
  exact (check_range_spec _ _ _ m H1 ltac:(lia)).
Qed.

(** The code of a clipped magnitude [s]. *)
Lemma encode_sample_pack x :
  in_i 16 x ->
  let b := Z.abs (clip x) + BIAS in
  encode_sample x
  = pack (if x <? 0 then 128 else 0) (log2_exp b)
      (wrap 8 (Z.land (Z.shiftr b (log2_exp b + 3)) 15)).
Proof.
  intros Hx b. unfold encode_sample, pack, b, clip, clamp, BIAS, CLIP. pow2.
  change (- (32635)) with (-32635) in *.
  destruct (Z.ltb_spec x 0).
  - replace ((- Z.max x (-32635) + 32768) mod 65536 - 32768) with (- Z.max x (-32635)).
    + replace (Z.max (-32768) (Z.min 32767 (- Z.max x (-32635) + 132)))
        with (Z.abs (Z.max (-32635) (Z.min 32635 x)) + 132) by lia.
      rewrite (Z.mod_small (Z.abs _ + 132)) by lia. done.
    + rewrite Z.mod_small by lia. lia.
  - replace (Z.max (-32768) (Z.min 32767 (Z.min x 32635 + 132)))
      with (Z.abs (Z.max (-32635) (Z.min 32635 x)) + 132) by lia.
    rewrite (Z.mod_small (Z.abs _ + 132)) by lia. done.
Qed.

(** The mantissa is the biased magnitude's quotient, less the implicit
    leading one. *)
Lemma mantissa_spec b e :
  0 <= e <= 7 -> 128 * 2 ^ e <= b < 256 * 2 ^ e ->
  let m := wrap 8 (Z.land (Z.shiftr b (e + 3)) 15) in
  0 <= m <= 15 /\ 2 ^ (e + 3) * (16 + m) <= b < 2 ^ (e + 3) * (17 + m).
Proof.
  intros He Hb m. assert (0 < 2 ^ e) by lia.
  assert (2 ^ (e + 3) = 8 * 2 ^ e) as E by (rewrite Z.pow_add_r by lia; lia).
  assert (m = b / 2 ^ (e + 3) - 16) as ->.
  { subst m. rewrite Z.shiftr_div_pow2 by lia. change 15 with (Z.ones 4).
    rewrite Z.land_ones by lia. change (2 ^ 4) with 16.
    assert (16 <= b / 2 ^ (e + 3) < 32).
    { split; [apply Z.div_le_lower_bound; lia|apply Z.div_lt_upper_bound; lia]. }
    rewrite wrap_small by (pose proof (Z.mod_pos_bound (b / 2 ^ (e + 3)) 16); int_lia).
    symmetry. apply Z.mod_unique with 1; lia. }
  pose proof (Z.div_mod b (2 ^ (e + 3)) ltac:(lia)).
  pose proof (Z.mod_pos_bound b (2 ^ (e + 3)) ltac:(lia)).
  assert (16 <= b / 2 ^ (e + 3) < 32).
  { split; [apply Z.div_le_lower_bound; lia|apply Z.div_lt_upper_bound; lia]. }
  nia.
Qed.

(** decoding a mu-law byte and encoding it again gives the
    same byte, the code's two zeros apart, for whole buffers. *)
Theorem g711_reencode (ulaw : bytes) :
  bytes_ok ulaw -> encode (decode ulaw) = map canonical ulaw.
Proof.
  intros Hu. unfold encode, decode, encode_into, decode_into. rewrite !fold_push. simpl.
  rewrite map_map. apply map_ext_Forall.
  eapply Forall_impl; [|exact Hu]. intros u Hb. pose proof (reencode_all u Hb) as H.
  unfold reencode_ok in H. by b2p.
Qed.

Lemma g711_reencode_witness : encode (decode [127; 3; 200]) = [255; 3; 200].
Proof. apply (g711_reencode [127; 3; 200]). repeat constructor; done. Defined.

(** every i16 sample is coded as a byte whose decoding
    differs from the sample, clipped at 32635, by at most 1/32 of its biased
    magnitude. *)
Theorem g711_quantisation x :
  in_i 16 x ->
  u8 (encode_sample x)
  /\ 32 * Z.abs (decode_sample (encode_sample x) - clip x) <= Z.abs (clip x) + BIAS.
Proof.
  intros Hx. rewrite encode_sample_pack by done. set (b := Z.abs (clip x) + BIAS).
  assert (132 <= b < 32768) as Hb by (unfold b, clip, clamp, BIAS, CLIP; lia).
  pose proof (log2_exp_spec b Hb) as [He Hr]. set (e := log2_exp b) in *.
  pose proof (mantissa_spec b e He Hr) as [Hm Hq]. set (m := wrap 8 _) in *.
  pose proof (unpack_all e m He Hm) as Hu. unfold unpack_ok in Hu. b2p.
  assert (0 < 2 ^ e) by lia.
  assert (2 ^ (e + 3) = 8 * 2 ^ e) as E by (rewrite Z.pow_add_r by lia; lia).
  unfold magnitude, BIAS in *. rewrite E in *. pow2.
  assert (x < 0 -> clip x = - (b - 132)) by (unfold b, clip, clamp, CLIP; lia).
  assert (0 <= x -> clip x = b - 132) by (unfold b, clip, clamp, CLIP; lia).
  destruct (Z.ltb_spec x 0); (split; [lia|]); subst b; nia.
Qed.

Lemma g711_quantisation_witness : u8 (encode_sample (-32768)).
Proof. apply (g711_quantisation (-32768)). split; vm_compute; done. Defined.

End G711.
