(* ===== verification/Packetizer.v ===== *)
(** * From media frames to RTP packets
    ([src/rtsp/codec/h264.rs], [src/rtsp/codec/h265.rs], [src/rtsp/provider.rs],
    [src/rtsp/server/packetizer.rs])

    [H264] and [H265] hold the two packetizers, [dispatch] the frame dispatch.
    The counters are threaded; [assert!] is [Panic]. The reference side is a
    receiver: [depacketize] reassembles the RTP payloads as RFC 6184 and RFC
    7798 prescribe. *)

From S2P Require Import Prelude Rtp Nal AudioCodec.

Definition DEFAULT_MTU : nat := 1400.

(** The [while offset < total] loop shared by the two FU packetizers: [head]
    gives the fragment's payload header from [is_first] and [is_last]. Each
    turn advances [offset] by at least one, so [total] turns are enough. *)
Fixpoint fu_loop `{RtpBuilder} (fuel : nat) (pt ts : Z) (head : bool -> bool -> bytes)
    (marker_on_last : bool) (max_fragment_payload : nat) (body : bytes) (offset : nat)
    (packets : list bytes) (counters : RtpCounters) : list bytes * RtpCounters :=
  match fuel with
  | O => (packets, counters)
  | S fuel =>
      if (offset <? length body)%nat then
        let stop := Nat.min (offset + max_fragment_payload) (length body) in
        let is_first := (offset =? 0)%nat in
        let is_last := (stop =? length body)%nat in
        let payload := head is_first is_last ++ slice body offset stop in
        let '(seq, counters) := next_seq counters in
        let marker := is_last && marker_on_last in
        let p := build_packet pt seq ts (ssrc counters) marker payload in
        fu_loop fuel pt ts head marker_on_last max_fragment_payload body stop
          (packets ++ [p]) counters
      else (packets, counters)
  end.

Module H264.

Definition H264_PAYLOAD_TYPE : Z := 96.
Definition H264_CLOCK_HZ : Z := 90000.
Definition FU_A_TYPE : Z := 28.

Definition packetize_single `{RtpBuilder} (nal : bytes) (counters : RtpCounters) (ts : Z)
    (marker : bool) : bytes * RtpCounters :=
  let '(seq, counters) := next_seq counters in
  (build_packet H264_PAYLOAD_TYPE seq ts (ssrc counters) marker nal, counters).

(** FU indicator and FU header of a fragment of a NAL with header byte
    [nal_header]. *)
Definition fu_a_head (nal_header : Z) (is_first is_last : bool) : bytes :=
  let nri := Z.land nal_header 96 in
  let nal_type := Z.land nal_header 31 in
  let fu_indicator := Z.lor nri FU_A_TYPE in
  let fu_header := if is_first then Z.lor nal_type 128 else nal_type in
  let fu_header := if is_last then Z.lor fu_header 64 else fu_header in
  [fu_indicator; fu_header].

Definition packetize_fu_a `{RtpBuilder} (nal : bytes) (counters : RtpCounters) (ts : Z)
    (marker_on_last : bool) (mtu : nat) : outcome (list bytes * RtpCounters) :=
  if (length nal <? 2)%nat then Panic
  else if (mtu <=? 14)%nat then Ret ([], counters)
  else
    let body := drop 1 nal in
    Ret (fu_loop (length body) H264_PAYLOAD_TYPE ts (fu_a_head (byte_at nal 0)) marker_on_last
           (mtu - 12 - 2) body 0 [] counters).

End H264.

Module H265.

Definition H265_PAYLOAD_TYPE : Z := 96.
Definition H265_CLOCK_HZ : Z := 90000.
Definition FU_TYPE : Z := 49.

Definition packetize_single `{RtpBuilder} (nal : bytes) (counters : RtpCounters) (ts : Z)
    (marker : bool) : bytes * RtpCounters :=
  let '(seq, counters) := next_seq counters in
  (build_packet H265_PAYLOAD_TYPE seq ts (ssrc counters) marker nal, counters).

Definition fu_head (b0 b1 : Z) (is_first is_last : bool) : bytes :=
  let orig_type := Z.land (Z.shiftr b0 1) 63 in
  let byte0 := Z.lor (Z.land b0 129) (wrap 8 (Z.shiftl FU_TYPE 1)) in
  let fu_header := if is_first then Z.lor orig_type 128 else orig_type in
  let fu_header := if is_last then Z.lor fu_header 64 else fu_header in
  [byte0; b1; fu_header].

Definition packetize_fu `{RtpBuilder} (nal : bytes) (counters : RtpCounters) (ts : Z)
    (marker_on_last : bool) (mtu : nat) : outcome (list bytes * RtpCounters) :=
  if (length nal <? 2)%nat then Panic
  else if (mtu <=? 15)%nat then Ret ([], counters)
  else
    let body := drop 2 nal in
    Ret (fu_loop (length body) H265_PAYLOAD_TYPE ts (fu_head (byte_at nal 0) (byte_at nal 1))
           marker_on_last (mtu - 12 - 2 - 1) body 0 [] counters).

End H265.

(** ** Frames ([provider.rs]) *)

Inductive AudioPayload :=
| AacPayload (au_data : bytes) (sample_rate channels : Z)
| G711Payload (samples : bytes).

Inductive Frame :=
| VideoFrame (codec : VideoCodec) (nals : list bytes) (pts_90khz : Z) (keyframe access_unit_end : bool)
| AudioFrame (payload : AudioPayload) (pts : Z).

(** [AudioPayload::codec]. *)
Definition payload_codec (p : AudioPayload) : AudioCodec :=
  match p with AacPayload _ _ _ => Nal.Aac | G711Payload _ => G711Ulaw end.

(** ** Dispatch ([packetizer.rs]) *)

Section dispatch.
Context `{B : RtpBuilder}.

Definition dispatch_audio (payload : AudioPayload) (pts : Z) (counters : RtpCounters)
    : list bytes * RtpCounters :=
  match payload with
  | AacPayload au_data _ _ =>
      let body := Aac.build_au_hbr_payload au_data in
      let '(seq, counters) := next_seq counters in
      ([build_packet Aac.AAC_PAYLOAD_TYPE seq pts (ssrc counters) true body], counters)
  | G711Payload samples =>
      let '(seq, counters) := next_seq counters in
      ([build_packet G711.G711_PAYLOAD_TYPE seq pts (ssrc counters) true samples], counters)
  end.

(** One NAL of the [for] loop. *)
Definition dispatch_nal (codec : VideoCodec) (ts : Z) (marker : bool) (nal : bytes)
    (counters : RtpCounters) : outcome (list bytes * RtpCounters) :=
  match codec with
  | H264 =>
      if (length nal + 12 <=? DEFAULT_MTU)%nat then
        let '(p, counters) := H264.packetize_single nal counters ts marker in
        Ret ([p], counters)
      else H264.packetize_fu_a nal counters ts marker DEFAULT_MTU
  | H265 =>
      if (length nal + 12 <=? DEFAULT_MTU)%nat then
        let '(p, counters) := H265.packetize_single nal counters ts marker in
        Ret ([p], counters)
      else H265.packetize_fu nal counters ts marker DEFAULT_MTU
  end.

Fixpoint dispatch_nals (codec : VideoCodec) (ts : Z) (access_unit_end : bool) (last_index i : nat)
    (nals : list bytes) (packets : list bytes) (counters : RtpCounters)
    : outcome (list bytes * RtpCounters) :=
  match nals with
  | [] => Ret (packets, counters)
  | nal :: nals =>
      let marker := access_unit_end && (i =? last_index)%nat in
      let! (ps, counters) := dispatch_nal codec ts marker nal counters in
      dispatch_nals codec ts access_unit_end last_index (S i) nals (packets ++ ps) counters
  end.

Definition dispatch (frame : Frame) (counters : RtpCounters) : outcome (list bytes * RtpCounters) :=
  match frame with
  | VideoFrame codec nals pts_90khz _ access_unit_end =>
      dispatch_nals codec pts_90khz access_unit_end (length nals - 1) 0 nals [] counters
  | AudioFrame payload pts => Ret (dispatch_audio payload pts counters)
  end.

End dispatch.

(** ** Reference: the sequence of packets and the receiver *)

(** Packets with consecutive sequence numbers for a list of (marker, payload)
    pairs. *)
Fixpoint emit_all `{RtpBuilder} (pt ts : Z) (c : RtpCounters) (l : list (bool * bytes))
    : list bytes :=
  match l with
  | [] => []
  | (m, p) :: l =>
      build_packet pt (seq c) ts (ssrc c) m p :: emit_all pt ts (advance c 1) l
  end.

(** Fragments of a NAL: every chunk behind its header. *)
Fixpoint fragments (head : bool -> bool -> bytes) (m is_first : bool) (cs : list bytes)
    : list (bool * bytes) :=
  match cs with
  | [] => []
  | c :: cs =>
      let is_last := match cs with [] => true | _ => false end in
      (is_last && m, head is_first is_last ++ c) :: fragments head m false cs
  end.

(** The receiver: [cur] is the NAL under reassembly. A fragmentation unit
    without its start is dropped. *)
Definition depack_step (codec : VideoCodec) (cur : option bytes) (p : bytes)
    : option bytes * list bytes :=
  match codec, p with
  | H264, ind :: rest =>
      if Z.land ind 31 =? 28 then
        match rest with
        | fuh :: frag =>
            let cur := if Z.testbit fuh 7
                       then Some (Z.lor (Z.land ind 224) (Z.land fuh 31) :: frag)
                       else option_map (fun n => n ++ frag) cur in
            if Z.testbit fuh 6 then (None, option_list cur) else (cur, [])
        | [] => (None, [])
        end
      else (None, [p])
  | H265, b0 :: rest =>
      if Z.land (Z.shiftr b0 1) 63 =? 49 then
        match rest with
        | b1 :: fuh :: frag =>
            let cur := if Z.testbit fuh 7
                       then Some (Z.lor (Z.land b0 129) (Z.shiftl (Z.land fuh 63) 1) :: b1 :: frag)
                       else option_map (fun n => n ++ frag) cur in
            if Z.testbit fuh 6 then (None, option_list cur) else (cur, [])
        | _ => (None, [])
        end
      else (None, [p])
  | _, [] => (None, [])
  end.

Fixpoint depacketize (codec : VideoCodec) (cur : option bytes) (l : list bytes) : list bytes :=
  match l with
  | [] => []
  | p :: l => let '(cur, out) := depack_step codec cur p in out ++ depacketize codec cur l
  end.

(** ** The packetizers emit the fragments *)

Section packets.
Context `{B : RtpBuilder}.

Lemma emit_all_length pt ts c l : length (emit_all pt ts c l) = length l.
Proof. revert c. induction l as [|[m p] l IH]; intros c; simpl; [done|by rewrite IH]. Qed.

Lemma emit_all_app pt ts c l k :
  counters_ok c ->
  emit_all pt ts c (l ++ k) = emit_all pt ts c l ++ emit_all pt ts (advance c (length l)) k.
Proof.
  revert c. induction l as [|[m p] l IH]; intros c Hc; simpl; [by rewrite advance_0|].
  rewrite IH by auto with br_ints. rewrite advance_advance. done.
Qed.

Lemma fragments_length head m b cs : length (fragments head m b cs) = length cs.
Proof. revert b. induction cs as [|c cs IH]; intros b; simpl; [done|by rewrite IH]. Qed.

Lemma chunks_nil_iff {A} n (l : list A) : (0 < n)%nat -> chunks n l = [] <-> l = [].
Proof.
  intros Hn. split; [|by intros ->]. destruct l; [done|]. by rewrite chunks_cons.
Qed.

Lemma drop_nil_len (body : bytes) stop :
  (stop <= length body)%nat -> drop stop body = [] <-> stop = length body.
Proof.
  intros Hs. split; [|intros ->; by apply drop_ge].
  intros E. apply (f_equal length) in E. rewrite length_drop in E. simpl in E. lia.
Qed.

Lemma fu_loop_fragments fuel pt ts head m n body offset packets c :
  (0 < n)%nat -> counters_ok c -> (offset <= length body)%nat ->
  (length body - offset <= fuel)%nat ->
  let fs := fragments head m (offset =? 0)%nat (chunks n (drop offset body)) in
  fu_loop fuel pt ts head m n body offset packets c
  = (packets ++ emit_all pt ts c fs, advance c (length fs)).
Proof.
  intros Hn. revert offset packets c.
  induction fuel as [|fuel IH]; intros offset packets c Hc Ho Hf; cbn [fu_loop].
  { rewrite drop_ge by lia. simpl. rewrite app_nil_r, advance_0; done. }
  destruct (Nat.ltb_spec offset (length body)) as [Hlt|Hge].
  2:{ rewrite drop_ge by lia. simpl. rewrite app_nil_r, advance_0; done. }
  set (stop := Nat.min (offset + n) (length body)).
  assert (offset < stop <= length body)%nat as Hstop by lia.
  cbn [next_seq ssrc]. cbv zeta. change (MkRtpCounters _ _) with (advance c 1).
  assert (drop offset body <> []) as Hne by (rewrite drop_nil_len by lia; lia).
  rewrite IH by (auto with br_ints; lia).
  rewrite (chunks_cons n (drop offset body)) by done. rewrite drop_drop.
  assert (drop (offset + n) body = drop stop body) as ->.
  { unfold stop. destruct (decide (offset + n <= length body)%nat); [by rewrite Nat.min_l by lia|].
    rewrite Nat.min_r by lia. by rewrite !drop_ge by lia. }
  assert (take n (drop offset body) = slice body offset stop) as ->.
  { unfold slice, stop. destruct (decide (offset + n <= length body)%nat).
    - f_equal. lia.
    - rewrite !take_ge; [done|rewrite length_drop; lia..]. }
  cbn [fragments]. cbn zeta. cbn [emit_all length].
  assert ((stop =? 0)%nat = false) as -> by (apply Nat.eqb_neq; lia).
  rewrite advance_advance, <- app_assoc. cbn [Nat.add app].
  assert ((stop =? length body)%nat
    = match chunks n (drop stop body) with [] => true | _ => false end) as ->; [|done].
  destruct (Nat.eqb_spec stop (length body)) as [E|E].
  - by rewrite drop_ge by lia.
  - destruct (chunks n (drop stop body)) eqn:Ec; [|done].
    apply chunks_nil_iff in Ec; [|done]. apply drop_nil_len in Ec; lia.
Qed.

(** The (marker, payload) pairs of one NAL. *)
Definition views (codec : VideoCodec) (m : bool) (nal : bytes) : list (bool * bytes) :=
  if (length nal + 12 <=? DEFAULT_MTU)%nat then [(m, nal)]
  else
    match codec with
    | H264 => fragments (H264.fu_a_head (byte_at nal 0)) m true (chunks 1386 (drop 1 nal))
    | H265 => fragments (H265.fu_head (byte_at nal 0) (byte_at nal 1)) m true
                (chunks 1385 (drop 2 nal))
    end.

Lemma dispatch_nal_views codec ts m nal c :
  counters_ok c ->
  dispatch_nal codec ts m nal c
  = Ret (emit_all 96 ts c (views codec m nal), advance c (length (views codec m nal))).
Proof.
  intros Hc. unfold dispatch_nal, views.
  destruct (Nat.leb_spec (length nal + 12) DEFAULT_MTU) as [Hle|Hgt]; [by destruct codec|].
  unfold DEFAULT_MTU in Hgt.
  destruct codec; unfold H264.packetize_fu_a, H265.packetize_fu;
    (destruct (Nat.ltb_spec (length nal) 2); [lia|]); cbn [Nat.leb DEFAULT_MTU];
    rewrite fu_loop_fragments by (done || unfold DEFAULT_MTU; lia); by rewrite drop_0.
Qed.

Fixpoint all_views (codec : VideoCodec) (aue : bool) (nals : list bytes) : list (bool * bytes) :=
  match nals with
  | [] => []
  | nal :: nals =>
      views codec (aue && match nals with [] => true | _ => false end) nal
      ++ all_views codec aue nals
  end.

Lemma dispatch_nals_views codec ts aue last i nals packets c :
  counters_ok c -> last = (i + length nals - 1)%nat ->
  dispatch_nals codec ts aue last i nals packets c
  = Ret (packets ++ emit_all 96 ts c (all_views codec aue nals),
         advance c (length (all_views codec aue nals))).
Proof.
  revert i packets c. induction nals as [|nal nals IH]; intros i packets c Hc Hl; simpl.
  { by rewrite app_nil_r, advance_0. }
  rewrite dispatch_nal_views by done. cbn [out_bind].
  assert ((i =? last)%nat = match nals with [] => true | _ => false end) as ->.
  { destruct nals; simpl in *; [apply Nat.eqb_eq|apply Nat.eqb_neq]; lia. }
  rewrite IH by (auto with br_ints; simpl in *; lia).
  rewrite emit_all_app by done. by rewrite advance_advance, length_app, app_assoc.
Qed.

Lemma dispatch_video_views codec nals ts key aue c :
  counters_ok c ->
  dispatch (VideoFrame codec nals ts key aue) c
  = Ret (emit_all 96 ts c (all_views codec aue nals),
         advance c (length (all_views codec aue nals))).
Proof. intros Hc. unfold dispatch. by rewrite dispatch_nals_views. Qed.

Lemma dispatch_nal_total codec ts m nal c : exists r, dispatch_nal codec ts m nal c = Ret r.
Proof.
  unfold dispatch_nal. destruct (Nat.leb_spec (length nal + 12) DEFAULT_MTU) as [Hle|Hgt].
  - destruct codec; eexists; done.
  - unfold DEFAULT_MTU in Hgt.
    destruct codec; unfold H264.packetize_fu_a, H265.packetize_fu;
      (destruct (Nat.ltb_spec (length nal) 2); [lia|]); eexists; done.
Qed.

Lemma dispatch_nals_total codec ts aue last i nals packets c :
  exists r, dispatch_nals codec ts aue last i nals packets c = Ret r.
Proof.
  revert i packets c. induction nals as [|nal nals IH]; intros i packets c; [by eexists|].
  cbn [dispatch_nals]. edestruct dispatch_nal_total as [[ps c'] ->]. cbn [out_bind]. apply IH.
Qed.

(** packetizing never panics: no NAL, whatever its length or
    contents, reaches the [assert!] of a fragmenting packetizer. *)
Theorem dispatch_total frame c : exists r, dispatch frame c = Ret r.
Proof.
  destruct frame as [codec nals ts key aue|payload pts]; [|by eexists].
  apply dispatch_nals_total.
Qed.

End packets.

(** ** The receiver reassembles them *)

Lemma decodable_h264 b t : is_decodable_nal (b :: t) H264 = true -> (Z.land b 31 =? 28) = false.
Proof.
  cbn. unfold within, H264NalType.from_header_byte. intros H. b2p. apply Z.eqb_neq. lia.
Qed.

Lemma decodable_h265 b t :
  is_decodable_nal (b :: t) H265 = true -> (Z.land (Z.shiftr b 1) 63 =? 49) = false.
Proof.
  cbn. unfold within, H265NalType.from_header_byte. intros H. destruct t; [done|].
  destruct (negb _) eqn:E; [done|]. apply negb_false_iff in E.
  apply Z.eqb_neq. intros Heq. by rewrite Heq in E.
Qed.

(** FU headers, checked for all 256 header bytes: the receiver sees a
    fragmentation unit, its start and end flags, and rebuilds the header. *)
Definition fu_a_ok (f l : bool) (b : Z) : bool :=
  match H264.fu_a_head b f l with
  | [ind; fuh] =>
      (Z.land ind 31 =? 28) && Bool.eqb (Z.testbit fuh 7) f && Bool.eqb (Z.testbit fuh 6) l
      && (Z.lor (Z.land ind 224) (Z.land fuh 31) =? b mod 128)
  | _ => false
  end.

Definition fu_ok (f l : bool) (b : Z) : bool :=
  match H265.fu_head b 0 f l with
  | [b0; _; fuh] =>
      (Z.land (Z.shiftr b0 1) 63 =? 49) && Bool.eqb (Z.testbit fuh 7) f
      && Bool.eqb (Z.testbit fuh 6) l
      && (Z.lor (Z.land b0 129) (Z.shiftl (Z.land fuh 63) 1) =? b)
  | _ => false
  end.

Lemma fu_a_head_spec b f l :
  u8 b -> exists ind fuh, H264.fu_a_head b f l = [ind; fuh] /\ (Z.land ind 31 =? 28) = true
    /\ Z.testbit fuh 7 = f /\ Z.testbit fuh 6 = l
    /\ Z.lor (Z.land ind 224) (Z.land fuh 31) = b mod 128.
Proof.
  intros Hb. assert (fu_a_ok f l b = true) as H.
  { apply byte_check; [|done]. by destruct f, l; vm_compute. }
  unfold fu_a_ok in H. destruct (H264.fu_a_head b f l) as [|ind [|fuh [|? ?]]]; try done.
  exists ind, fuh. repeat (apply andb_true_iff in H as [H ?]).
  split_and!; [done|done|by apply Bool.eqb_prop|by apply Bool.eqb_prop|by apply Z.eqb_eq].
Qed.

Lemma fu_head_spec b b1 f l :
  u8 b -> exists b0 fuh, H265.fu_head b b1 f l = [b0; b1; fuh]
    /\ (Z.land (Z.shiftr b0 1) 63 =? 49) = true
    /\ Z.testbit fuh 7 = f /\ Z.testbit fuh 6 = l
    /\ Z.lor (Z.land b0 129) (Z.shiftl (Z.land fuh 63) 1) = b.
Proof.
  intros Hb. assert (fu_ok f l b = true) as H.
  { apply byte_check; [|done]. by destruct f, l; vm_compute. }
  unfold fu_ok, H265.fu_head in H |- *. do 2 eexists.
  repeat (apply andb_true_iff in H as [H ?]).
  split_and!; [done|done|by apply Bool.eqb_prop|by apply Bool.eqb_prop|by apply Z.eqb_eq].
Qed.

(** What the stream translator hands on: a decodable NAL, with the forbidden
    bit clear for H.264. *)
Definition nal_ok (codec : VideoCodec) (nal : bytes) : Prop :=
  bytes_ok nal /\ is_decodable_nal nal codec = true /\ (codec = H264 -> byte_at nal 0 < 128).

(** One fragment at the receiver. *)
Definition resume (codec : VideoCodec) (nal : bytes) (cur : option bytes) (is_first : bool)
    (c : bytes) : option bytes :=
  if is_first then Some (take (match codec with H264 => 1 | H265 => 2 end) nal ++ c)
  else option_map (fun n => n ++ c) cur.

Definition fu_prefix (codec : VideoCodec) (nal : bytes) : bool -> bool -> bytes :=
  match codec with
  | H264 => H264.fu_a_head (byte_at nal 0)
  | H265 => H265.fu_head (byte_at nal 0) (byte_at nal 1)
  end.

Lemma depack_fragment codec nal cur f l c :
  nal_ok codec nal -> (2 <= length nal)%nat ->
  depack_step codec cur (fu_prefix codec nal f l ++ c)
  = (if l then (None, option_list (resume codec nal cur f c)) else (resume codec nal cur f c, [])).
Proof.
  intros (Hb & Hd & Hf) Hlen. destruct nal as [|b0 [|b1 t]]; simpl in Hlen; try lia.
  decompose_Forall_hyps.
  destruct codec.
  - destruct (fu_a_head_spec b0 f l ltac:(done)) as (ind & fuh & E & H1' & H2 & H3 & H4).
    change (fu_prefix H264 _) with (H264.fu_a_head b0).
    rewrite E. unfold depack_step. cbn [app]. rewrite H1', H2, H3, H4.
    specialize (Hf eq_refl). cbn in Hf. rewrite Z.mod_small by int_lia. by destruct f, l.
  - destruct (fu_head_spec b0 b1 f l ltac:(done)) as (i0 & fuh & E & H1' & H2 & H3 & H4).
    change (fu_prefix H265 _) with (H265.fu_head b0 b1).
    rewrite E. unfold depack_step. cbn [app]. rewrite H1', H2, H3, H4. by destruct f, l.
Qed.

(** The chunks of a NAL's body, all of them. *)
Lemma depack_fragments codec nal m f cs cur rest :
  nal_ok codec nal -> (2 <= length nal)%nat -> cs <> [] ->
  f = true \/ is_Some cur ->
  depacketize codec cur (map snd (fragments (fu_prefix codec nal) m f cs) ++ rest)
  = default [] (resume codec nal cur f (concat cs)) :: depacketize codec None rest.
Proof.
  intros Hok Hlen. revert f cur. induction cs as [|c cs IH]; intros f cur Hne Hs; [done|].
  cbn [fragments map app depacketize snd]. rewrite depack_fragment by done.
  destruct cs as [|c' cs].
  - simpl. rewrite app_nil_r. unfold resume.
    destruct f; [done|]. destruct Hs as [|[n ->]]; done.
  - assert (is_Some (resume codec nal cur f c)) as Hr.
    { unfold resume. destruct f; [by eexists|]. destruct Hs as [|[n ->]]; [done|by eexists]. }
    rewrite IH by (done || by right). rewrite app_nil_l. f_equal.
    unfold resume at 1. simpl. unfold resume. destruct f; simpl; [by rewrite <- app_assoc|].
    destruct Hs as [|[n ->]]; [done|]. simpl. by rewrite <- app_assoc.
Qed.

Lemma depack_views codec nal m rest :
  nal_ok codec nal ->
  depacketize codec None (map snd (views codec m nal) ++ rest)
  = nal :: depacketize codec None rest.
Proof.
  intros Hok. unfold views.
  destruct (Nat.leb_spec (length nal + 12) DEFAULT_MTU) as [Hle|Hgt].
  - cbn [map app depacketize snd]. destruct Hok as (_ & Hd & _).
    destruct nal as [|b t]; [by destruct codec|]. unfold depack_step. destruct codec.
    + by rewrite (decodable_h264 _ _ Hd).
    + by rewrite (decodable_h265 _ _ Hd).
  - unfold DEFAULT_MTU in Hgt.
    assert (forall k n, (k <= 2)%nat -> (0 < n)%nat -> chunks n (drop k nal) <> []) as Hc.
    { intros k n Hk Hn E. apply chunks_nil_iff in E; [|done].
      apply (f_equal length) in E. rewrite length_drop in E. simpl in E. lia. }
    destruct codec.
    + rewrite (depack_fragments H264 nal m true) by (auto with lia || (by left)).
      unfold resume. rewrite chunks_concat by lia. simpl. by rewrite take_drop.
    + rewrite (depack_fragments H265 nal m true) by (auto with lia || (by left)).
      unfold resume. rewrite chunks_concat by lia. simpl. by rewrite take_drop.
Qed.

Lemma depack_all_views codec aue nals :
  Forall (nal_ok codec) nals ->
  depacketize codec None (map snd (all_views codec aue nals)) = nals.
Proof.
  induction 1 as [|nal nals Hn Hns IH]; [done|]. cbn [all_views]. rewrite map_app.
  rewrite depack_views by done. by rewrite IH.
Qed.

(** ** What goes on the wire *)

(** The fields of the [i]-th packet. *)
Definition packet_fields (pt ts : Z) (c : RtpCounters) (i : nat) (v : bool * bytes) : RtpFields :=
  MkRtpFields pt (wrap 16 (seq c + Z.of_nat i)) ts (ssrc c) (fst v) (snd v).

Section wire.
Context `{B : RtpBuilder} `{!RtpBuilderLaws B}.

Lemma emit_all_parse pt ts c l :
  counters_ok c -> in_u 7 pt -> u32 ts ->
  map rtp_parse (emit_all pt ts c l) = map Some (imap (packet_fields pt ts c) l).
Proof.
  intros Hc Hp Ht. revert c Hc. induction l as [|[m p] l IH]; intros c Hc; [done|].
  cbn [emit_all map]. rewrite imap_cons. cbn [map]. destruct Hc as [Hs Hq]. f_equal.
  - rewrite rtp_parse_build by done. unfold packet_fields. simpl.
    by rewrite Z.add_0_r, wrap_small.
  - rewrite IH by by apply advance_ok. f_equal. apply imap_ext. intros i [m' p'] _.
    unfold packet_fields, compose. simpl. f_equal. rewrite wrap_add_l by lia. f_equal. lia.
Qed.

Lemma emit_all_sizes pt ts c l n :
  counters_ok c -> in_u 7 pt -> u32 ts -> Forall (fun v => (length (snd v) <= n)%nat) l ->
  Forall (fun p => (length p <= 12 + n)%nat) (emit_all pt ts c l).
Proof.
  intros Hc Hp Ht Hl. revert c Hc. induction Hl as [|[m p] l Hn Hl IH]; intros c Hc; [constructor|].
  cbn [emit_all]. destruct Hc as [Hs Hq]. constructor; [|by apply IH, advance_ok].
  rewrite build_packet_length by done. simpl in *. lia.
Qed.
End wire.

Lemma fragments_sizes codec nal m f cs n :
  Forall (fun c => 1 <= len c <= Z.of_nat n) cs ->
  Forall (fun v => (length (snd v) <= n + match codec with H264 => 2 | H265 => 3 end)%nat)
    (fragments (fu_prefix codec nal) m f cs).
Proof.
  intros Hc. revert f. induction Hc as [|c cs Hc Hcs IH]; intros f; [constructor|].
  cbn [fragments]. constructor; [|apply IH]. simpl. rewrite length_app.
  unfold len in Hc. destruct codec; simpl; lia.
Qed.

Lemma views_sizes codec m nal :
  Forall (fun v => (length (snd v) <= 1388)%nat) (views codec m nal).
Proof.
  unfold views. destruct (Nat.leb_spec (length nal + 12) DEFAULT_MTU) as [Hle|Hgt].
  - unfold DEFAULT_MTU in Hle. constructor; [simpl; lia|constructor].
  - destruct codec.
    + apply (fragments_sizes H264 nal m true _ 1386), chunks_sizes. lia.
    + apply (fragments_sizes H265 nal m true _ 1385), chunks_sizes. lia.
Qed.

Lemma all_views_sizes codec aue nals :
  Forall (fun v => (length (snd v) <= 1388)%nat) (all_views codec aue nals).
Proof.
  induction nals as [|nal nals IH]; [constructor|]. cbn [all_views].
  apply Forall_app. split; [apply views_sizes|done].
Qed.

(** The marker is on the last pair only. *)
Definition marked_last (m : bool) (l : list (bool * bytes)) : Prop :=
  forall i v, l !! i = Some v -> fst v = m && (i =? length l - 1)%nat.

Lemma marked_last_cons m v l :
  fst v = m && match l with [] => true | _ => false end -> marked_last m l ->
  marked_last m (v :: l).
Proof.
  intros Hv Hl [|i] w Hi; simpl in *.
  - injection Hi as <-. rewrite Hv. f_equal. by destruct l.
  - rewrite (Hl i w Hi). f_equal. rewrite Nat.sub_0_r.
    apply lookup_lt_Some in Hi. destruct (length l) as [|k]; [lia|].
    simpl. rewrite Nat.sub_0_r. done.
Qed.

Lemma marked_last_app m l k :
  (k = [] -> marked_last m l) -> (k <> [] -> Forall (fun v => fst v = false) l) ->
  marked_last m k -> marked_last m (l ++ k).
Proof.
  intros Hnil Hne Hk. destruct k as [|v k]; [rewrite app_nil_r; by apply Hnil|].
  specialize (Hne ltac:(done)). induction Hne as [|w l Hw Hl IH]; [done|].
  cbn [app]. apply marked_last_cons; [|by apply IH].
  rewrite Hw. destruct l; simpl; by rewrite andb_false_r.
Qed.

Lemma fragments_marked head m f cs : marked_last m (fragments head m f cs).
Proof.
  revert f. induction cs as [|c cs IH]; intros f; [by intros [|?] ? ?|].
  cbn [fragments]. apply marked_last_cons; [|apply IH]. simpl.
  destruct cs; simpl; [by rewrite andb_comm|by rewrite andb_false_r].
Qed.

Lemma fragments_unmarked head f cs : Forall (fun v => fst v = false) (fragments head false f cs).
Proof.
  revert f. induction cs as [|c cs IH]; intros f; constructor; [|apply IH].
  simpl. by rewrite andb_false_r.
Qed.

Lemma views_marked codec m nal : marked_last m (views codec m nal).
Proof.
  unfold views. destruct (_ <=? _)%nat; [|destruct codec; apply fragments_marked].
  apply marked_last_cons; [by rewrite andb_true_r|by intros [|?] ? ?].
Qed.

Lemma views_unmarked codec nal : Forall (fun v => fst v = false) (views codec false nal).
Proof.
  unfold views. destruct (_ <=? _)%nat; [by repeat constructor|].
  destruct codec; apply fragments_unmarked.
Qed.

Lemma views_nonempty codec m nal rest : views codec m nal ++ rest <> [].
Proof.
  unfold views. destruct (Nat.leb_spec (length nal + 12) DEFAULT_MTU) as [Hle|Hgt]; [done|].
  unfold DEFAULT_MTU in Hgt.
  destruct codec; (rewrite chunks_cons; [done|lia|]); intros E;
    apply (f_equal length) in E; rewrite length_drop in E; simpl in E; lia.
Qed.

Lemma all_views_marked codec aue nals : marked_last aue (all_views codec aue nals).
Proof.
  induction nals as [|nal nals IH]; [by intros [|?] ? ?|]. cbn [all_views].
  apply marked_last_app; [| |done].
  - intros E. destruct nals as [|n nals]; [rewrite andb_true_r; apply views_marked|].
    by apply views_nonempty in E.
  - intros Hne. destruct nals as [|n nals]; [done|]. rewrite andb_false_r. apply views_unmarked.
Qed.

Lemma map_payload_imap pt ts c l : map payload (imap (packet_fields pt ts c) l) = map snd l.
Proof.
  apply list_eq. intros i. rewrite !list_lookup_fmap, list_lookup_imap. by destruct (l !! i).
Qed.

(** packetizing an access unit of decodable NALs succeeds;
    every packet fits 1400 bytes and parses as RTP with payload type 96, the
    frame's timestamp and SSRC and consecutive sequence numbers modulo 2^16,
    which the counters continue; the marker is on the last packet only, and
    only when the frame ends the access unit; and an RFC 6184 / RFC 7798
    receiver reassembles exactly the frame's NALs. *)
Theorem dispatch_video `{B : RtpBuilder} `{!RtpBuilderLaws B} codec nals pts key aue c :
  Forall (nal_ok codec) nals -> u32 pts -> counters_ok c ->
  exists packets fields,
    dispatch (VideoFrame codec nals pts key aue) c = Ret (packets, advance c (length packets))
    /\ map rtp_parse packets = map Some fields
    /\ depacketize codec None (map payload fields) = nals
    /\ Forall (fun p => (length p <= DEFAULT_MTU)%nat) packets
    /\ forall i f, fields !! i = Some f ->
         payload_type f = 96 /\ sequence_number f = wrap 16 (seq c + Z.of_nat i)
         /\ timestamp f = pts /\ ssrc_field f = ssrc c
         /\ marker_bit f = aue && (i =? length fields - 1)%nat.
Proof.
  intros Hn Hp Hc. set (vs := all_views codec aue nals).
  exists (emit_all 96 pts c vs), (imap (packet_fields 96 pts c) vs).
  rewrite dispatch_video_views, emit_all_length by done. split_and!.
  - done.
  - by apply emit_all_parse.
  - rewrite map_payload_imap. by apply depack_all_views.
  - apply emit_all_sizes with (n := 1388%nat); [done|done|done|apply all_views_sizes].
  - intros i f Hf. rewrite list_lookup_imap in Hf. destruct (vs !! i) as [v|] eqn:Ev; [|done].
    injection Hf as <-. rewrite length_imap. cbn. split_and!; try done.
    by apply all_views_marked.
Qed.

Lemma dispatch_video_witness :
  exists packets c',
    dispatch (B := rtp_std) (VideoFrame H264 [replicate 2000 65; [1; 2]] 9000 false true) (fixed 7 65535)
    = Ret (packets, c').
Proof.
  destruct (dispatch_video (B := rtp_std) H264 [replicate 2000 65; [1; 2]] 9000 false true
    (fixed 7 65535)) as (ps & fs & E & _).
  - constructor; [|constructor; [|constructor]].
    + split_and!; [by apply Forall_replicate|reflexivity|reflexivity].
    + split_and!; [by repeat constructor|reflexivity|reflexivity].
  - done.
  - done.
  - eexists _, _. exact E.
Defined.

(** an audio frame becomes one packet with the marker
    set, the static payload type 0 for mu-law and 97 for AAC, whose payload is
    the samples or the RFC 3640 payload; the counters move by one. *)
Theorem dispatch_audio_wire `{B : RtpBuilder} `{!RtpBuilderLaws B} p pts c :
  u32 pts -> counters_ok c ->
  exists packet,
    dispatch (AudioFrame p pts) c = Ret ([packet], advance c 1)
    /\ rtp_parse packet = Some (MkRtpFields
         (match payload_codec p with Nal.Aac => 97 | G711Ulaw => 0 end) (seq c) pts (ssrc c) true
         (match p with AacPayload au _ _ => Aac.build_au_hbr_payload au | G711Payload s => s end)).
Proof.
  intros Hp [Hs Hq]. destruct p; (eexists; split; [reflexivity|]); by apply rtp_parse_build.
Qed.

Lemma dispatch_audio_wire_witness :
  exists packet, dispatch (B := rtp_std) (AudioFrame (G711Payload [255; 254]) 160) (fixed 7 9)
    = Ret ([packet], advance (fixed 7 9) 1).
Proof.
  destruct (dispatch_audio_wire (B := rtp_std) (G711Payload [255; 254]) 160 (fixed 7 9))
    as (p & E & _); [done|done|]. exists p. exact E.
Defined.
