(* ===== verification/Transcode.v ===== *)
(** * ADPCM decoding and decimation
    ([src/rtsp/transcode/adpcm.rs], [src/rtsp/transcode/resample.rs])

    The decoder's two [i32] fields are a record; an index outside a table is
    [Panic], so that the absence of panics is a theorem. [decode_ref] is the
    block decoder written as a map over the nibble sequence. *)

From S2P Require Import Prelude.

Definition STEP_TABLE : list Z :=
  [7; 8; 9; 10; 11; 12; 13; 14; 16; 17; 19; 21; 23; 25; 28; 31; 34; 37; 41; 45; 50; 55; 60; 66;
   73; 80; 88; 97; 107; 118; 130; 143; 157; 173; 190; 209; 230; 253; 279; 307; 337; 371; 408; 449;
   494; 544; 598; 658; 724; 796; 876; 963; 1060; 1166; 1282; 1411; 1552; 1707; 1878; 2066; 2272;
   2499; 2749; 3024; 3327; 3660; 4026; 4428; 4871; 5358; 5894; 6484; 7132; 7845; 8630; 9493;
   10442; 11487; 12635; 13899; 15289; 16818; 18500; 20350; 22385; 24623; 27086; 29794; 32767].

Definition INDEX_TABLE : list Z :=
  [-1; -1; -1; -1; 2; 4; 6; 8; -1; -1; -1; -1; 2; 4; 6; 8].

Record AdpcmDecoder := MkAdpcm { predictor : Z; step_index : Z }.

Inductive AdpcmError := TooShort | InvalidStepIndex (b : Z).

Definition new : AdpcmDecoder := MkAdpcm 0 0.

(** A checked table access. *)
Definition index_table (t : list Z) (i : Z) : outcome Z :=
  if i <? 0 then Panic else match t !! Z.to_nat i with Some v => Ret v | None => Panic end.

Definition decode_nibble (d : AdpcmDecoder) (nibble : Z) : outcome (Z * AdpcmDecoder) :=
  let nibble := Z.land nibble 15 in
  let! step := index_table STEP_TABLE (step_index d) in
  let sign := Z.land nibble 8 in
  let magnitude := Z.land nibble 7 in
  let diff := Z.shiftr step 3 in
  let diff := if negb (Z.land magnitude 4 =? 0) then diff + step else diff in
  let diff := if negb (Z.land magnitude 2 =? 0) then diff + Z.shiftr step 1 else diff in
  let diff := if negb (Z.land magnitude 1 =? 0) then diff + Z.shiftr step 2 else diff in
  let p := if negb (sign =? 0) then predictor d - diff else predictor d + diff in
  let p := clamp (-32768) 32767 p in
  let! adj := index_table INDEX_TABLE nibble in
  let si := clamp 0 88 (step_index d + adj) in
  Ret (swrap 16 p, MkAdpcm p si).

(** The [for &byte in data] loop. *)
Fixpoint decode_data (d : AdpcmDecoder) (data : bytes) (out : list Z)
    : outcome (list Z * AdpcmDecoder) :=
  match data with
  | [] => Ret (out, d)
  | byte :: data =>
      let low := Z.land byte 15 in
      let high := Z.land (Z.shiftr byte 4) 15 in
      let! (s0, d) := decode_nibble d low in
      let! (s1, d) := decode_nibble d high in
      decode_data d data (out ++ [s0] ++ [s1])
  end.

(** [out] is cleared after the header checks, so an error leaves it as it
    was; the decoder's fields are overwritten before the second check. *)
Definition decode_block_into (d : AdpcmDecoder) (block : bytes) (out : list Z)
    : outcome (result unit AdpcmError * list Z * AdpcmDecoder) :=
  match block with
  | b0 :: b1 :: b2 :: b3 :: data =>
      if (length block <? 5)%nat then Ret (Err TooShort, out, d)
      else
        let d := MkAdpcm (swrap 16 (of_le_bytes [b0; b1])) b2 in
        if negb ((0 <=? step_index d) && (step_index d <=? 88))
        then Ret (Err (InvalidStepIndex b2), out, d)
        else
          let! (out, d) := decode_data d data [swrap 16 (predictor d)] in
          Ret (Ok tt, out, d)
  | _ => Ret (Err TooShort, out, d)
  end.

Definition decode_block (d : AdpcmDecoder) (block : bytes)
    : outcome (result (list Z) AdpcmError * AdpcmDecoder) :=
  let! (r, out, d) := decode_block_into d block [] in
  Ret (match r with Ok _ => Ok out | Err e => Err e end, d).

(** [chunks_exact(2)] drops an odd trailing sample. *)
Fixpoint decimate_16_to_8 (pcm_16k : list Z) : list Z :=
  match pcm_16k with
  | a :: b :: rest => swrap 16 (Z.shiftr (a + b + 1) 1) :: decimate_16_to_8 rest
  | _ => []
  end.

(** ** The decoder as a map over nibbles *)

Definition adpcm_ok (d : AdpcmDecoder) : Prop := in_i 16 (predictor d) /\ 0 <= step_index d <= 88.

Definition step_of (i : Z) : Z := default 0 (STEP_TABLE !! Z.to_nat i).
Definition adjust_of (n : Z) : Z := default 0 (INDEX_TABLE !! Z.to_nat n).

(** The reconstructed difference: sign, then three magnitude bits weighting
    the step. *)
Definition diff_of (step nibble : Z) : Z :=
  step / 8 + (if Z.testbit nibble 2 then step else 0)
  + (if Z.testbit nibble 1 then step / 2 else 0) + (if Z.testbit nibble 0 then step / 4 else 0).

Definition next_state (d : AdpcmDecoder) (n : Z) : AdpcmDecoder :=
  let diff := diff_of (step_of (step_index d)) n in
  MkAdpcm (clamp (-32768) 32767 (predictor d + (if Z.testbit n 3 then - diff else diff)))
          (clamp 0 88 (step_index d + adjust_of n)).

(** The samples of a nibble sequence: the predictor after each nibble. *)
Fixpoint samples (d : AdpcmDecoder) (ns : list Z) : list Z :=
  match ns with
  | [] => []
  | n :: ns => let d := next_state d n in predictor d :: samples d ns
  end.

(** Low nibble first. *)
Definition nibbles (data : bytes) : list Z := concat (map (fun b => [b mod 16; b / 16]) data).

Lemma next_state_ok d n : adpcm_ok d -> adpcm_ok (next_state d n).
Proof.
  intros [_ _]. unfold adpcm_ok, next_state, clamp. cbn [predictor step_index]. pow2. lia.
Qed.

Lemma index_step i : 0 <= i <= 88 -> index_table STEP_TABLE i = Ret (step_of i) /\ 7 <= step_of i <= 32767.
Proof.
  intros Hi.
  assert (check_range 89 0 (fun i =>
    match index_table STEP_TABLE i with
    | Ret v => (v =? step_of i) && (7 <=? v) && (v <=? 32767)
    | Panic => false end) = true) as H by (vm_compute; done).
  pose proof (check_range_spec _ _ _ i H ltac:(lia)) as Hc. cbv beta in Hc.
  destruct (index_table STEP_TABLE i); [|done]. b2p. subst. done.
Qed.

Lemma index_adjust n : 0 <= n < 16 -> index_table INDEX_TABLE n = Ret (adjust_of n).
Proof.
  intros Hn.
  assert (check_range 16 0 (fun i =>
    match index_table INDEX_TABLE i with Ret v => v =? adjust_of i | Panic => false end) = true)
    as H by (vm_compute; done).
  pose proof (check_range_spec _ _ _ n H ltac:(lia)) as Hc. cbv beta in Hc.
  destruct (index_table INDEX_TABLE n); [|done]. b2p. by subst.
Qed.

(** The nibble's masks are its bits. *)
Lemma nibble_bits n :
  0 <= n < 16 ->
  negb (Z.land n 8 =? 0) = Z.testbit n 3 /\ negb (Z.land (Z.land n 7) 4 =? 0) = Z.testbit n 2
  /\ negb (Z.land (Z.land n 7) 2 =? 0) = Z.testbit n 1
  /\ negb (Z.land (Z.land n 7) 1 =? 0) = Z.testbit n 0 /\ Z.land n 15 = n.
Proof.
  intros Hn.
  assert (check_range 16 0 (fun n =>
    Bool.eqb (negb (Z.land n 8 =? 0)) (Z.testbit n 3)
    && Bool.eqb (negb (Z.land (Z.land n 7) 4 =? 0)) (Z.testbit n 2)
    && Bool.eqb (negb (Z.land (Z.land n 7) 2 =? 0)) (Z.testbit n 1)
    && Bool.eqb (negb (Z.land (Z.land n 7) 1 =? 0)) (Z.testbit n 0)
    && (Z.land n 15 =? n)) = true) as H by (vm_compute; done).
  pose proof (check_range_spec _ _ _ n H ltac:(lia)) as Hc. cbv beta in Hc.
  repeat (apply andb_true_iff in Hc as [Hc ?]).
  split_and!; try (by apply Bool.eqb_prop). by apply Z.eqb_eq.
Qed.

Lemma decode_nibble_next d n :
  adpcm_ok d -> 0 <= n < 16 ->
  decode_nibble d n = Ret (predictor (next_state d n), next_state d n).
Proof.
  intros [Hp Hi] Hn. unfold decode_nibble.
  destruct (nibble_bits n Hn) as (E3 & E2 & E1 & E0 & E15). rewrite E15, E3, E2, E1, E0.
  destruct (index_step _ Hi) as [-> Hs]. cbn [out_bind]. rewrite index_adjust by done. cbn [out_bind].
  rewrite swrap16_small by (unfold clamp; pow2; lia).
  unfold next_state, diff_of. cbn [predictor]. rewrite !Z.shiftr_div_pow2 by lia.
  change (2 ^ 3) with 8. change (2 ^ 2) with 4. change (2 ^ 1) with 2.
  destruct (Z.testbit n 3), (Z.testbit n 2), (Z.testbit n 1), (Z.testbit n 0);
    rewrite ?Z.add_0_r, ?Z.add_assoc, ?Z.add_opp_r; done.
Qed.

Lemma byte_nibbles b :
  u8 b -> Z.land b 15 = b mod 16 /\ Z.land (Z.shiftr b 4) 15 = b / 16
  /\ 0 <= b mod 16 < 16 /\ 0 <= b / 16 < 16.
Proof.
  intros Hb. change 15 with (Z.ones 4). rewrite !Z.land_ones by lia.
  rewrite Z.shiftr_div_pow2 by lia. change (2 ^ 4) with 16.
  pose proof (Z.mod_pos_bound b 16).
  assert (0 <= b / 16 < 16) by (split; [apply Z.div_pos; int_lia|apply Z.div_lt_upper_bound; int_lia]).
  rewrite (Z.mod_small (b / 16)) by lia. lia.
Qed.

Lemma decode_data_samples data d out :
  adpcm_ok d -> bytes_ok data ->
  exists d', decode_data d data out = Ret (out ++ samples d (nibbles data), d') /\ adpcm_ok d'.
Proof.
  intros Hd Hb. revert d out Hd. induction Hb as [|b data Hb Hdata IH]; intros d out Hd.
  { exists d. by rewrite app_nil_r. }
  destruct (byte_nibbles b Hb) as (El & Eh & Hl & Hh). cbn [decode_data].
  rewrite El, Eh. rewrite decode_nibble_next by done. cbn [out_bind].
  pose proof (next_state_ok d (b mod 16) Hd) as Hd1.
  rewrite decode_nibble_next by done. cbn [out_bind].
  destruct (IH _ (out ++ [predictor (next_state d (b mod 16))]
    ++ [predictor (next_state (next_state d (b mod 16)) (b / 16))])
    (next_state_ok _ (b / 16) Hd1)) as (d' & -> & Hd').
  exists d'. split; [|done]. do 2 f_equal. rewrite <- !app_assoc. done.
Qed.

Lemma samples_length d ns : length (samples d ns) = length ns.
Proof. revert d. induction ns as [|n ns IH]; intros d; simpl; [done|by rewrite IH]. Qed.

Lemma samples_range d ns : Forall (in_i 16) (samples d ns).
Proof.
  revert d. induction ns as [|n ns IH]; intros d; [constructor|]. cbn [samples].
  constructor; [|apply IH]. unfold next_state, clamp. cbn [predictor]. pow2. lia.
Qed.

Lemma nibbles_length data : length (nibbles data) = (2 * length data)%nat.
Proof. induction data as [|b data IH]; simpl; [done|]. unfold nibbles in IH. lia. Qed.

(** decoding never indexes a table out of range; a
    block shorter than five bytes and a step index above 88 are the two errors;
    otherwise the output is the header's predictor followed by the IMA
    reconstruction of each nibble, low nibble first: one sample per nibble
    plus one, all 16-bit. *)
Theorem adpcm_decode_block d b0 b1 b2 b3 data :
  bytes_ok (b0 :: b1 :: b2 :: b3 :: data) -> data <> [] ->
  let p := swrap 16 (of_le_bytes [b0; b1]) in
  exists d',
    decode_block d (b0 :: b1 :: b2 :: b3 :: data)
    = (if b2 <=? 88 then Ret (Ok (p :: samples (MkAdpcm p b2) (nibbles data)), d')
       else Ret (Err (InvalidStepIndex b2), MkAdpcm p b2))
    /\ length (samples (MkAdpcm p b2) (nibbles data)) = (2 * length data)%nat
    /\ Forall (in_i 16) (samples (MkAdpcm p b2) (nibbles data)).
Proof.
  intros Hb Hne p. unfold decode_block, decode_block_into. cbv zeta. fold p.
  assert (in_i 16 p) as Hp by apply swrap16_range. clearbody p.
  assert ((length (b0 :: b1 :: b2 :: b3 :: data) <? 5)%nat = false) as ->
    by (apply Nat.ltb_ge; destruct data; [done|simpl; lia]).
  decompose_Forall_hyps.
  cbn [step_index predictor].
  rewrite samples_length, nibbles_length.
  assert ((0 <=? b2) = true) as -> by (apply Z.leb_le; int_lia). cbn [andb].
  destruct (Z.leb_spec b2 88) as [Hs|Hs]; cbn [negb].
  - destruct (decode_data_samples data (MkAdpcm p b2) [swrap 16 p]) as (d' & -> & _).
    + split; [done|]. simpl. int_lia.
    + done.
    + exists d'. split_and!; [|done|apply samples_range]. cbn [out_bind].
      by rewrite swrap16_small by done.
  - exists d. split_and!; [done|done|apply samples_range].
Qed.

Lemma adpcm_decode_block_witness : exists d' out,
  decode_block new [16; 0; 3; 0; 47; 128] = Ret (Ok out, d').
Proof.
  destruct (adpcm_decode_block new 16 0 3 0 [47; 128]) as (d' & E & _);
    [by repeat constructor|done|]. eexists _, _. exact E.
Defined.

(** decimation halves the sample count, dropping an odd
    last sample, and every output lies between the two samples it averages,
    so it cannot overflow. *)
Theorem decimate_bounds pcm i :
  Forall (in_i 16) pcm ->
  length (decimate_16_to_8 pcm) = (length pcm / 2)%nat /\
  (forall y, decimate_16_to_8 pcm !! i = Some y -> exists a b,
    pcm !! (2 * i)%nat = Some a /\ pcm !! (2 * i + 1)%nat = Some b
    /\ y = (a + b + 1) / 2 /\ Z.min a b <= y <= Z.max a b).
Proof.
  revert i. assert (forall n pcm i, (length pcm <= n)%nat -> Forall (in_i 16) pcm ->
    length (decimate_16_to_8 pcm) = (length pcm / 2)%nat /\
    (forall y, decimate_16_to_8 pcm !! i = Some y -> exists a b,
      pcm !! (2 * i)%nat = Some a /\ pcm !! (2 * i + 1)%nat = Some b
      /\ y = (a + b + 1) / 2 /\ Z.min a b <= y <= Z.max a b)) as H; [|intros; by eapply H].
  induction n as [|n IH]; intros l i Hn Hl.
  { destruct l; [done|simpl in *; lia]. }
  destruct l as [|a [|b l]]; [done|done|]. simpl in Hn. decompose_Forall_hyps.
  destruct (IH l (i - 1)%nat ltac:(lia) ltac:(done)) as [IHl IHi]. split.
  - cbn [decimate_16_to_8 length]. rewrite IHl.
    symmetry. apply (Nat.div_add_l 1 2 (length l)). lia.
  - intros y Hy. destruct i as [|i].
    + injection Hy as <-. exists a, b. split_and!; [done|done| | |].
      all: rewrite Z.shiftr_div_pow2 by lia; change (2 ^ 1) with 2;
        rewrite swrap16_small; pow2; pose proof (Z.div_mod (a + b + 1) 2 ltac:(lia));
        pose proof (Z.mod_pos_bound (a + b + 1) 2 ltac:(lia)); try lia.
    + cbn in Hy. replace (S i - 1)%nat with i in IHi by lia.
      destruct (IHi y Hy) as (a' & b' & ? & ? & ?). exists a', b'.
      replace (S i + (S i + 0))%nat with (S (S (i + (i + 0)))) by lia. done.
Qed.

Lemma decimate_bounds_witness : length (decimate_16_to_8 [5; 8; -3]) = 1%nat.
Proof. apply (decimate_bounds [5; 8; -3] 0). repeat constructor; done. Defined.
