(* ===== verification/FrameBuffer.v ===== *)
(** * The last-frame buffer ([src/rtsp/buffer.rs])

    The two [RwLock]s hold the fields of [LastFrameBuffer]; an operation is
    the body that runs under the lock. *)

From S2P Require Import Prelude Nal.

Record VideoBurst := MkVideoBurst {
  codec : VideoCodec;
  parameter_sets : list bytes;
  iframe_nals : list bytes;
  pframe_nals : list (list bytes);
  captured_at : Z;
  captured_pts_90khz : Z
}.

Record LastFrameBuffer := MkLastFrameBuffer {
  video : option VideoBurst;
  jpeg : option bytes
}.

Definition new : LastFrameBuffer := MkLastFrameBuffer None None.

Definition replace_video (b : LastFrameBuffer) (burst : VideoBurst) : LastFrameBuffer :=
  MkLastFrameBuffer (Some burst) (jpeg b).

Definition MAX_PFRAME_BYTES : Z := 8 * 1024 * 1024.

(** [frame.iter().map(|n| n.len()).sum()]. *)
Definition frame_bytes (frame : list bytes) : Z := foldr Z.add 0 (map len frame).

Definition total_bytes (frames : list (list bytes)) : Z := foldr Z.add 0 (map frame_bytes frames).

Definition with_pframes (burst : VideoBurst) (fs : list (list bytes)) : VideoBurst :=
  MkVideoBurst (codec burst) (parameter_sets burst) (iframe_nals burst) fs
    (captured_at burst) (captured_pts_90khz burst).

(** The eviction loop: each turn removes a frame, so the recursion is on the
    frames. *)
Fixpoint evict (total : Z) (frames : list (list bytes)) : list (list bytes) :=
  match frames with
  | [] => []
  | f :: fs =>
      if MAX_PFRAME_BYTES <? total then evict (sat_sub total (frame_bytes f)) fs else frames
  end.

Definition append_pframe (b : LastFrameBuffer) (nals : list bytes) : LastFrameBuffer :=
  match video b with
  | None => b
  | Some burst =>
      let new_bytes := frame_bytes nals in
      let frames := pframe_nals burst ++ [nals] in
      let total := total_bytes frames in
      let frames := if MAX_PFRAME_BYTES <? total + new_bytes then evict total frames else frames in
      MkLastFrameBuffer (Some (with_pframes burst frames)) (jpeg b)
  end.

Definition video_snapshot (b : LastFrameBuffer) : option VideoBurst := video b.

Definition has_video (b : LastFrameBuffer) : bool :=
  match video b with Some _ => true | None => false end.

Definition set_jpeg (b : LastFrameBuffer) (bs : bytes) : LastFrameBuffer :=
  MkLastFrameBuffer (video b) (Some bs).

(** ** Lemmas *)

Lemma frame_bytes_nonneg f : 0 <= frame_bytes f.
Proof.
  unfold frame_bytes. induction f as [|n f IH]; simpl; [lia|]. pose proof (len_nonneg n). lia.
Qed.

Lemma total_bytes_nonneg fs : 0 <= total_bytes fs.
Proof.
  unfold total_bytes. induction fs as [|f fs IH]; simpl; [lia|].
  pose proof (frame_bytes_nonneg f). lia.
Qed.

Lemma total_bytes_cons f fs : total_bytes (f :: fs) = frame_bytes f + total_bytes fs.
Proof. done. Qed.

(** [fs] is what is left of [frames] after dropping just enough of the oldest
    frames. *)
Definition evicted (frames fs : list (list bytes)) : Prop :=
  exists k, fs = drop k frames /\ total_bytes fs <= MAX_PFRAME_BYTES
    /\ forall j, (j < k)%nat -> MAX_PFRAME_BYTES < total_bytes (drop j frames).

Lemma evict_spec frames : evicted frames (evict (total_bytes frames) frames).
Proof.
  induction frames as [|f fs IH].
  { exists 0%nat. split_and!; [done|done|lia]. }
  cbn [evict]. destruct (Z.ltb_spec MAX_PFRAME_BYTES (total_bytes (f :: fs))) as [Hlt|Hge].
  - replace (sat_sub (total_bytes (f :: fs)) (frame_bytes f)) with (total_bytes fs).
    + destruct IH as (k & -> & Hle & Hmin). exists (S k). split_and!; [done|done|].
      intros [|j] Hj; [done|]. apply Hmin. lia.
    + unfold sat_sub. rewrite total_bytes_cons. pose proof (total_bytes_nonneg fs). lia.
  - exists 0%nat. split_and!; [done|done|lia].
Qed.

Lemma append_evicted frames nals :
  evicted (frames ++ [nals])
    (if MAX_PFRAME_BYTES <? total_bytes (frames ++ [nals]) + frame_bytes nals
     then evict (total_bytes (frames ++ [nals])) (frames ++ [nals]) else frames ++ [nals]).
Proof.
  destruct (Z.ltb_spec MAX_PFRAME_BYTES
    (total_bytes (frames ++ [nals]) + frame_bytes nals)) as [Hlt|Hge]; [apply evict_spec|].
  exists 0%nat. pose proof (frame_bytes_nonneg nals). split_and!; [done|lia|lia].
Qed.

(** a P-frame is ignored before the first keyframe;
    afterwards the cached P-frames are the old ones and the new one, less the
    fewest oldest frames whose removal brings them under 8 MiB, and nothing
    else of the buffer changes. *)
Theorem append_pframe_evicts b nals :
  match video b with
  | None => append_pframe b nals = b
  | Some burst => exists fs,
      append_pframe b nals = MkLastFrameBuffer (Some (with_pframes burst fs)) (jpeg b)
      /\ evicted (pframe_nals burst ++ [nals]) fs
  end.
Proof.
  unfold append_pframe. destruct (video b) as [burst|]; [|done].
  eexists. split; [reflexivity|]. apply append_evicted.
Qed.

(** ** Any sequence of writers *)

Inductive op := ReplaceVideo (burst : VideoBurst) | AppendPframe (nals : list bytes) | SetJpeg (bs : bytes).

Definition apply_op (b : LastFrameBuffer) (o : op) : LastFrameBuffer :=
  match o with
  | ReplaceVideo burst => replace_video b burst
  | AppendPframe nals => append_pframe b nals
  | SetJpeg bs => set_jpeg b bs
  end.

Definition bounded (b : LastFrameBuffer) : Prop :=
  match video b with
  | Some burst => total_bytes (pframe_nals burst) <= MAX_PFRAME_BYTES
  | None => True
  end.

Lemma apply_op_bounded b o :
  bounded b ->
  match o with ReplaceVideo burst => total_bytes (pframe_nals burst) <= MAX_PFRAME_BYTES | _ => True end ->
  bounded (apply_op b o).
Proof.
  intros Hb Ho. destruct o as [burst|nals|bs]; [done| |done]. cbn [apply_op].
  unfold append_pframe, bounded in *. destruct (video b) as [burst|] eqn:E; [|by rewrite E].
  destruct (append_evicted (pframe_nals burst) nals) as (k & _ & Hle & _). exact Hle.
Qed.

(** whatever keyframes, P-frames and previews are stored in
    whatever order, the cached P-frames never exceed 8 MiB, provided each
    keyframe burst starts without P-frames. *)
Theorem buffer_bounded ops :
  Forall (fun o => match o with ReplaceVideo burst => pframe_nals burst = [] | _ => True end) ops ->
  bounded (fold_left apply_op ops new).
Proof.
  intros Hops. assert (bounded new) as Hb by done. revert Hb. generalize new.
  induction Hops as [|o ops Ho Hops IH]; intros b Hb; [done|]. cbn [fold_left].
  apply IH, apply_op_bounded; [done|]. destruct o as [burst| |]; [|done|done].
  by rewrite Ho.
Qed.

Lemma buffer_bounded_witness :
  bounded (fold_left apply_op
    [ReplaceVideo (MkVideoBurst H264 [] [[101; 1]] [] 0 0); AppendPframe [[65; 2]]] new).
Proof. apply buffer_bounded. repeat constructor. Defined.
