(* ===== verification/GapBridging.v ===== *)
(** * Bridging gaps in the video stream ([src/gap_bridging.rs])

    Instants and durations are nanoseconds. [on_tick]'s [replay_anchor]
    closure is the value it would yield: it has no effects, and it is
    consulted on the bridging branch only. *)

From S2P Require Import Prelude.

Inductive GapState := Live | Bridging.

#[export] Instance GapState_eq : EqDecision GapState.
Proof. solve_decision. Defined.

Definition VIDEO_CLOCK_HZ : Z := 90000.

Record BridgingPolicy := MkBridgingPolicy {
  gap_threshold : Z;
  state : GapState;
  last_upstream_at : Z;
  last_emitted_pts_90khz : option Z;
  last_emit_wallclock_at : option Z
}.

Definition new (gap_threshold now : Z) : BridgingPolicy :=
  MkBridgingPolicy gap_threshold Live now None None.

Definition is_bridging (p : BridgingPolicy) : bool := bool_decide (state p = Bridging).

Definition on_upstream_packet (p : BridgingPolicy) (now : Z) : BridgingPolicy :=
  MkBridgingPolicy (gap_threshold p) (state p) now (last_emitted_pts_90khz p)
    (last_emit_wallclock_at p).

Definition on_broadcast (p : BridgingPolicy) (pts_90khz now : Z) : BridgingPolicy :=
  MkBridgingPolicy (gap_threshold p) Live (last_upstream_at p) (Some pts_90khz) (Some now).

(** [saturating_duration_since]. *)
Definition since (now before : Z) : Z := sat_sub now before.

(** [u128::saturating_mul]. *)
Definition mul_u128 (a b : Z) : Z := Z.min (2 ^ 128 - 1) (a * b).

Definition advance_replay_pts (p : BridgingPolicy) (anchor now : Z) : Z * BridgingPolicy :=
  let delta_90khz :=
    match last_emit_wallclock_at p with
    | Some last_at => wrap 32 (mul_u128 (since now last_at) VIDEO_CLOCK_HZ / 1000000000)
    | None => 0
    end in
  let synth := wrap 32 (default anchor (last_emitted_pts_90khz p) + delta_90khz) in
  (synth, MkBridgingPolicy (gap_threshold p) (state p) (last_upstream_at p) (Some synth) (Some now)).

Definition on_tick (p : BridgingPolicy) (now : Z) (replay_anchor : option Z)
    : option Z * BridgingPolicy :=
  let p :=
    if gap_threshold p <? since now (last_upstream_at p)
    then MkBridgingPolicy (gap_threshold p) Bridging (last_upstream_at p)
           (last_emitted_pts_90khz p) (last_emit_wallclock_at p)
    else p in
  if negb (is_bridging p) then (None, p)
  else
    match replay_anchor with
    | None => (None, p)
    | Some anchor => let '(pts, p) := advance_replay_pts p anchor now in (Some pts, p)
    end.

(** ** Lemmas *)

Definition u128_max : Z := 2 ^ 128 - 1.

(** Elapsed time whose tick count does not saturate; a Rust [Duration] is
    below 2^94 ns, its product with 90000 below 2^111. *)
Definition elapsed_ok (d : Z) : Prop := 0 <= d < 2 ^ 94.

Lemma mul_u128_exact d : elapsed_ok d -> mul_u128 d VIDEO_CLOCK_HZ = d * VIDEO_CLOCK_HZ.
Proof. unfold elapsed_ok, mul_u128, VIDEO_CLOCK_HZ. intros. apply Z.min_r. lia. Qed.

(** Ticks of the 90 kHz clock in a duration, rounded down. *)
Definition ticks (d : Z) : Z := d * VIDEO_CLOCK_HZ / 1000000000.

Lemma ticks_add a b : 0 <= a -> 0 <= b -> ticks a + ticks b <= ticks (a + b) <= ticks a + ticks b + 1.
Proof.
  intros. unfold ticks, VIDEO_CLOCK_HZ. rewrite Z.mul_add_distr_r.
  pose proof (Z.div_mod (a * 90000) 1000000000 ltac:(lia)).
  pose proof (Z.div_mod (b * 90000) 1000000000 ltac:(lia)).
  pose proof (Z.div_mod (a * 90000 + b * 90000) 1000000000 ltac:(lia)).
  pose proof (Z.mod_pos_bound (a * 90000) 1000000000 ltac:(lia)).
  pose proof (Z.mod_pos_bound (b * 90000) 1000000000 ltac:(lia)).
  pose proof (Z.mod_pos_bound (a * 90000 + b * 90000) 1000000000 ltac:(lia)).
  lia.
Qed.

(** a tick replays exactly when upstream has been silent
    past the threshold or a gap is already open, and a key frame is available.
    A tick that replays nothing leaves the timeline untouched; one that does
    records the timestamp it returns. The first replay of a source anchors on
    the captured timestamp. *)
Theorem on_tick_decides p now anchor :
  let open := (gap_threshold p <? since now (last_upstream_at p)) || is_bridging p in
  let '(r, p') := on_tick p now anchor in
  state p' = (if open then Bridging else Live)
  /\ (is_Some r <-> open = true /\ is_Some anchor)
  /\ match r with
     | None => last_emitted_pts_90khz p' = last_emitted_pts_90khz p
               /\ last_emit_wallclock_at p' = last_emit_wallclock_at p
     | Some pts => last_emitted_pts_90khz p' = Some pts /\ last_emit_wallclock_at p' = Some now
               /\ u32 pts
               /\ (last_emitted_pts_90khz p = None -> last_emit_wallclock_at p = None ->
                   forall a, anchor = Some a -> pts = wrap 32 a)
     end.
Proof.
  unfold on_tick, is_bridging, advance_replay_pts.
  destruct (gap_threshold p <? since now (last_upstream_at p)), p as [th st lu le lw], st, anchor as [a|];
    cbn -[wrap]; split_and!; try done; try (split; [intros [? ?]|intros [? [? ?]]]; done || eauto);
    try (by apply wrap_range); try (by intros [? ?]);
    intros -> -> ? [= <-]; cbn; by rewrite Z.add_0_r.
Qed.

(** ** The replayed timeline *)

(** A run of ticks at the given instants, while the gap stays open. *)
Fixpoint replay (p : BridgingPolicy) (anchor : Z) (times : list Z) : list (option Z) * BridgingPolicy :=
  match times with
  | [] => ([], p)
  | t :: times =>
      let '(r, p) := on_tick p t (Some anchor) in
      let '(rs, p) := replay p anchor times in (r :: rs, p)
  end.

(** Instants in order, not too far apart to be Rust durations. *)
Fixpoint ordered (t0 : Z) (times : list Z) : Prop :=
  match times with
  | [] => True
  | t :: times => elapsed_ok (t - t0) /\ ordered t times
  end.

(** The unwrapped timestamps the replays should have. *)
Fixpoint timeline (t0 pts : Z) (times : list Z) : list Z :=
  match times with
  | [] => []
  | t :: times => let pts := pts + ticks (t - t0) in pts :: timeline t pts times
  end.

Lemma on_tick_bridging p t a t0 p0 :
  state p = Bridging -> last_emitted_pts_90khz p = Some p0 -> last_emit_wallclock_at p = Some t0 ->
  elapsed_ok (t - t0) ->
  on_tick p t (Some a)
  = (Some (wrap 32 (p0 + ticks (t - t0))),
     MkBridgingPolicy (gap_threshold p) Bridging (last_upstream_at p)
       (Some (wrap 32 (p0 + ticks (t - t0)))) (Some t)).
Proof.
  intros Hs Hp Ht He. destruct p as [th st lu le lw]. simpl in Hs, Hp, Ht. subst.
  assert (wrap 32 (p0 + wrap 32 (mul_u128 (since t t0) VIDEO_CLOCK_HZ / 1000000000))
    = wrap 32 (p0 + ticks (t - t0))) as E.
  { unfold since, sat_sub. rewrite Z.max_r by (unfold elapsed_ok in He; lia).
    rewrite mul_u128_exact by done. rewrite Z.add_comm, wrap_add_l by lia. f_equal.
    unfold ticks. lia. }
  unfold on_tick, advance_replay_pts. cbn [gap_threshold last_upstream_at].
  destruct (th <? since t lu); cbn [is_bridging state last_emit_wallclock_at last_emitted_pts_90khz
    gap_threshold last_upstream_at negb bool_decide]; unfold is_bridging; cbn -[wrap];
    by rewrite E.
Qed.

Lemma replay_timeline times p a t0 p0 :
  state p = Bridging -> last_emitted_pts_90khz p = Some (wrap 32 p0) ->
  last_emit_wallclock_at p = Some t0 -> ordered t0 times ->
  fst (replay p a times) = map (fun x => Some (wrap 32 x)) (timeline t0 p0 times).
Proof.
  revert p t0 p0. induction times as [|t times IH]; intros p t0 p0 Hs Hp Ht Ho; [done|].
  destruct Ho as [He Ho]. cbn [replay timeline map].
  rewrite (on_tick_bridging p t a t0 (wrap 32 p0)) by done.
  rewrite wrap_add_l by lia. set (q := MkBridgingPolicy _ _ _ _ _).
  pose proof (IH q t (p0 + ticks (t - t0)) eq_refl eq_refl eq_refl Ho) as E.
  destruct (replay q a times) as [rs p']. simpl in *. by rewrite E.
Qed.

(** The timeline never runs ahead of the wall clock, lags it by at most one
    90 kHz tick per replay, and is monotone. *)
Lemma timeline_drift times t0 p0 i x t :
  ordered t0 times -> timeline t0 p0 times !! i = Some x -> times !! i = Some t ->
  t0 <= t /\ p0 <= x /\ p0 + ticks (t - t0) - Z.of_nat i <= x <= p0 + ticks (t - t0).
Proof.
  revert t0 p0 i. induction times as [|t1 times IH]; intros t0 p0 i Ho Hx Ht; [done|].
  destruct Ho as [[He _] Ho]. assert (0 <= ticks (t1 - t0)) by (apply Z.div_pos; unfold VIDEO_CLOCK_HZ; lia).
  destruct i as [|i]; simpl in Hx, Ht.
  - injection Hx as <-. injection Ht as <-. lia.
  - destruct (IH t1 _ i Ho Hx Ht) as (H1 & H2 & H3).
    pose proof (ticks_add (t1 - t0) (t - t1) ltac:(lia) ltac:(lia)) as H4.
    replace (t1 - t0 + (t - t1)) with (t - t0) in H4 by lia. lia.
Qed.

(** C10: while a gap is bridged, the [i]-th replay is emitted
    and its timestamp is, modulo 2^32, a value that never runs ahead of the
    wall-clock time since the last emission and lags it by at most [i] ticks
    of the 90 kHz clock. *)
Theorem replay_keeps_time p a t0 p0 times i t :
  state p = Bridging -> last_emitted_pts_90khz p = Some (wrap 32 p0) ->
  last_emit_wallclock_at p = Some t0 -> ordered t0 times -> times !! i = Some t ->
  exists x, fst (replay p a times) !! i = Some (Some (wrap 32 x))
    /\ p0 <= x /\ p0 + ticks (t - t0) - Z.of_nat i <= x <= p0 + ticks (t - t0).
Proof.
  intros Hs Hp Ht Ho Hi. rewrite (replay_timeline times p a t0 p0) by done.
  assert (is_Some (timeline t0 p0 times !! i)) as [x Hx].
  { apply lookup_lt_is_Some. replace (length (timeline t0 p0 times)) with (length times).
    - by apply lookup_lt_Some in Hi.
    - clear. revert t0 p0. induction times as [|t times IH]; intros; simpl; [done|].
      f_equal. apply IH. }
  exists x. rewrite list_lookup_fmap, Hx. split; [done|].
  destruct (timeline_drift times t0 p0 i x t Ho Hx Hi) as (_ & ? & ?). done.
Qed.

Lemma replay_keeps_time_witness : exists x,
  fst (replay (MkBridgingPolicy 1 Bridging 0 (Some (wrap 32 4294967290)) (Some 0)) 5
    [200000000; 400000001]) !! 1%nat = Some (Some (wrap 32 x)) /\ 4294967290 <= x.
Proof.
  destruct (replay_keeps_time (MkBridgingPolicy 1 Bridging 0 (Some (wrap 32 4294967290)) (Some 0)) 5
    0 4294967290 [200000000; 400000001] 1 400000001) as (x & Hx & Hp & _);
    [done|done|done|repeat split; vm_compute; done|done|].
  exists x. split; [exact Hx|exact Hp].
Defined.
