(* ===== verification/BcMedia.v ===== *)
(** * The BcMedia stream format ([src/baichuan/bcmedia])

    The data model, the streaming parser ([De]), the serializer ([Ser]) and
    the [Framed] codec. [context] only adds text to an error and is not
    modelled. [take4] reads a [&str]: bytes that are not UTF-8 and strings
    other than ["H264"] and ["H265"] give the same parse error, so the model
    keeps the four bytes. *)

From S2P Require Import Prelude Wire.

(** ** The model ([model.rs]) *)

(** [BcMediaInfoV1] and [BcMediaInfoV2] have the same fields. *)
Record BcMediaInfo := MkBcMediaInfo {
  video_width : Z;
  video_height : Z;
  fps : Z;
  start_year : Z;
  start_month : Z;
  start_day : Z;
  start_hour : Z;
  start_min : Z;
  start_seconds : Z;
  end_year : Z;
  end_month : Z;
  end_day : Z;
  end_hour : Z;
  end_min : Z;
  end_seconds : Z
}.

Inductive VideoType := TypeH264 | TypeH265.

Record BcMediaIframe := MkIframe {
  if_video_type : VideoType;
  if_microseconds : Z;
  if_time : option Z;
  if_data : bytes
}.

Record BcMediaPframe := MkPframe {
  pf_video_type : VideoType;
  pf_microseconds : Z;
  pf_data : bytes
}.

Record BcMediaAac := MkAac { aac_data : bytes }.

Record BcMediaAdpcm := MkBcAdpcm { adpcm_data : bytes }.

Inductive BcMedia :=
| InfoV1 (i : BcMediaInfo)
| InfoV2 (i : BcMediaInfo)
| Iframe (f : BcMediaIframe)
| Pframe (f : BcMediaPframe)
| AacMedia (a : BcMediaAac)
| AdpcmMedia (a : BcMediaAdpcm).

Definition MAGIC_HEADER_BCMEDIA_INFO_V1 : Z := 0x31303031.
Definition MAGIC_HEADER_BCMEDIA_INFO_V2 : Z := 0x32303031.
Definition MAGIC_HEADER_BCMEDIA_IFRAME : Z := 0x63643030.
Definition MAGIC_HEADER_BCMEDIA_IFRAME_LAST : Z := 0x63643039.
Definition MAGIC_HEADER_BCMEDIA_PFRAME : Z := 0x63643130.
Definition MAGIC_HEADER_BCMEDIA_PFRAME_LAST : Z := 0x63643139.
Definition MAGIC_HEADER_BCMEDIA_AAC : Z := 0x62773530.
Definition MAGIC_HEADER_BCMEDIA_ADPCM : Z := 0x62773130.
Definition MAGIC_HEADER_BCMEDIA_ADPCM_DATA : Z := 0x0100.

Definition aac_rate (frequency_index : Z) : option Z :=
  [96000; 88200; 64000; 48000; 44100; 32000; 24000; 22050; 16000; 12000; 11025; 8000; 7350]
    !! Z.to_nat frequency_index.

(** [BcMediaAac::duration]; u32 arithmetic. *)
Definition aac_duration (a : BcMediaAac) : option Z :=
  match aac_data a with
  | b0 :: b1 :: b2 :: _ :: _ :: _ :: b6 :: _ :: _ =>
      if negb (b0 =? 255) then None
      else if negb (Z.land b1 240 =? 240) then None
      else
        let frequency_index := Z.shiftr (Z.land b2 60) 2 in
        match aac_rate frequency_index with
        | None => None
        | Some sample_frequency =>
            let frames := wrap 8 (Z.land b6 3 + 1) in
            let samples := wrap 32 (frames * 1024) in
            Some (wrap 32 (samples * 1000000) / sample_frequency)
        end
  | _ => None
  end.

(** [BcMediaAdpcm::block_size] and [duration], as the release profile
    computes them. *)
Definition block_size (a : BcMediaAdpcm) : Z := wrap 32 (wrap 32 (len (adpcm_data a)) - 4).

Definition adpcm_duration (a : BcMediaAdpcm) : option Z :=
  let samples := wrap 32 (block_size a * 2) in
  Some (wrap 32 (samples * 1000000) / 8000).

Definition PAD_SIZE : Z := 8.

(** [match size % PAD_SIZE { 0 => 0, n => PAD_SIZE - n }]. *)
Definition pad_size (size : Z) : Z :=
  let n := size mod PAD_SIZE in if n =? 0 then 0 else PAD_SIZE - n.

Definition H264_str : bytes := [72; 50; 54; 52].
Definition H265_str : bytes := [72; 50; 54; 53].

(** [(lo..=hi)] on u32. *)
Definition in_range (lo hi x : Z) : bool := (lo <=? x) && (x <=? hi).

(** ** The parser ([de.rs]) *)

Module De.
Section de.
Context `{N : Nom}.

Definition bcmedia_info (buf : bytes) : IResult BcMediaInfo :=
  let? (buf, _) := verify le_u32 (fun x => x =? 32) buf in
  let? (buf, video_width) := le_u32 buf in
  let? (buf, video_height) := le_u32 buf in
  let? (buf, _) := le_u8 buf in
  let? (buf, fps) := le_u8 buf in
  let? (buf, start_year) := le_u8 buf in
  let? (buf, start_month) := le_u8 buf in
  let? (buf, start_day) := le_u8 buf in
  let? (buf, start_hour) := le_u8 buf in
  let? (buf, start_min) := le_u8 buf in
  let? (buf, start_seconds) := le_u8 buf in
  let? (buf, end_year) := le_u8 buf in
  let? (buf, end_month) := le_u8 buf in
  let? (buf, end_day) := le_u8 buf in
  let? (buf, end_hour) := le_u8 buf in
  let? (buf, end_min) := le_u8 buf in
  let? (buf, end_seconds) := le_u8 buf in
  let? (buf, _) := le_u16 buf in
  Ok (buf, MkBcMediaInfo video_width video_height fps start_year start_month start_day start_hour
             start_min start_seconds end_year end_month end_day end_hour end_min end_seconds).

Definition bcmedia_info_v1 : parser BcMediaInfo := bcmedia_info.

Definition bcmedia_info_v2 : parser BcMediaInfo := bcmedia_info.

Definition take4 : parser bytes := nom_take 4.

Definition is_video_str (x : bytes) : bool := bool_decide (x = H264_str) || bool_decide (x = H265_str).

(** The dispatch after [verify]; the last arm is its error value. *)
Definition video_type_of (buf x : bytes) : IResult VideoType :=
  if bool_decide (x = H264_str) then Ok (buf, TypeH264)
  else if bool_decide (x = H265_str) then Ok (buf, TypeH265)
  else Err NomFailure.

Definition opt_time (additional_header_size : Z) (buf : bytes) : IResult (option Z) :=
  if 4 <=? additional_header_size then
    let? (buf, t) := le_u32 buf in Ok (buf, Some t)
  else Ok (buf, None).

Definition opt_remainder (additional_header_size : Z) (buf : bytes) : IResult unit :=
  if 4 <? additional_header_size then
    let? (buf, _) := nom_take (additional_header_size - 4) buf in Ok (buf, tt)
  else Ok (buf, tt).

Definition bcmedia_iframe (buf : bytes) : IResult BcMediaIframe :=
  let? (buf, video_type_str) := verify take4 is_video_str buf in
  let? (buf, payload_size) := le_u32 buf in
  let? (buf, additional_header_size) := le_u32 buf in
  let? (buf, microseconds) := le_u32 buf in
  let? (buf, _) := le_u32 buf in
  let? (buf, time) := opt_time additional_header_size buf in
  let? (buf, _) := opt_remainder additional_header_size buf in
  let? (buf, data) := nom_take payload_size buf in
  let? (buf, _) := nom_take (pad_size payload_size) buf in
  let? (buf, video_type) := video_type_of buf video_type_str in
  Ok (buf, MkIframe video_type microseconds time data).

Definition bcmedia_pframe (buf : bytes) : IResult BcMediaPframe :=
  let? (buf, video_type_str) := verify take4 is_video_str buf in
  let? (buf, payload_size) := le_u32 buf in
  let? (buf, additional_header_size) := le_u32 buf in
  let? (buf, microseconds) := le_u32 buf in
  let? (buf, _) := le_u32 buf in
  let? (buf, _) := nom_take additional_header_size buf in
  let? (buf, data) := nom_take payload_size buf in
  let? (buf, _) := nom_take (pad_size payload_size) buf in
  let? (buf, video_type) := video_type_of buf video_type_str in
  Ok (buf, MkPframe video_type microseconds data).

Definition bcmedia_aac (buf : bytes) : IResult BcMediaAac :=
  let? (buf, payload_size) := le_u16 buf in
  let? (buf, _) := le_u16 buf in
  let? (buf, data) := nom_take payload_size buf in
  let? (buf, _) := nom_take (pad_size payload_size) buf in
  Ok (buf, MkAac data).

Definition SUB_HEADER_SIZE : Z := 4.

Definition bcmedia_adpcm (buf : bytes) : IResult BcMediaAdpcm :=
  let? (buf, payload_size) := verify le_u16 (fun n => SUB_HEADER_SIZE <=? n) buf in
  let? (buf, _) := le_u16 buf in
  let? (buf, _) := verify le_u16 (fun x => x =? MAGIC_HEADER_BCMEDIA_ADPCM_DATA) buf in
  let? (buf, _) := le_u16 buf in
  let? (buf, data) := nom_take (payload_size - SUB_HEADER_SIZE) buf in
  let? (buf, _) := nom_take (pad_size payload_size) buf in
  Ok (buf, MkBcAdpcm data).

Definition is_magic (x : Z) : bool :=
  (x =? MAGIC_HEADER_BCMEDIA_INFO_V1) || (x =? MAGIC_HEADER_BCMEDIA_INFO_V2)
  || in_range MAGIC_HEADER_BCMEDIA_IFRAME MAGIC_HEADER_BCMEDIA_IFRAME_LAST x
  || in_range MAGIC_HEADER_BCMEDIA_PFRAME MAGIC_HEADER_BCMEDIA_PFRAME_LAST x
  || (x =? MAGIC_HEADER_BCMEDIA_AAC) || (x =? MAGIC_HEADER_BCMEDIA_ADPCM).

(** The [match magic]; its last arm is [make_dispatch_error]. *)
Definition bcmedia_body (magic : Z) (buf : bytes) : IResult BcMedia :=
  if magic =? MAGIC_HEADER_BCMEDIA_INFO_V1 then
    let? (buf, payload) := bcmedia_info_v1 buf in Ok (buf, InfoV1 payload)
  else if magic =? MAGIC_HEADER_BCMEDIA_INFO_V2 then
    let? (buf, payload) := bcmedia_info_v2 buf in Ok (buf, InfoV2 payload)
  else if in_range MAGIC_HEADER_BCMEDIA_IFRAME MAGIC_HEADER_BCMEDIA_IFRAME_LAST magic then
    let? (buf, payload) := bcmedia_iframe buf in Ok (buf, Iframe payload)
  else if in_range MAGIC_HEADER_BCMEDIA_PFRAME MAGIC_HEADER_BCMEDIA_PFRAME_LAST magic then
    let? (buf, payload) := bcmedia_pframe buf in Ok (buf, Pframe payload)
  else if magic =? MAGIC_HEADER_BCMEDIA_AAC then
    let? (buf, payload) := bcmedia_aac buf in Ok (buf, AacMedia payload)
  else if magic =? MAGIC_HEADER_BCMEDIA_ADPCM then
    let? (buf, payload) := bcmedia_adpcm buf in Ok (buf, AdpcmMedia payload)
  else Err NomFailure.

Definition bcmedia (buf : bytes) : IResult BcMedia :=
  let? (buf, magic) := verify le_u32 is_magic buf in
  bcmedia_body magic buf.

(** [BcMedia::deserialize]: the buffer advances past the parsed bytes, and
    only on success. *)
Definition deserialize (buf : bytes) : result BcMedia Error * bytes :=
  match consumed bcmedia buf with
  | Ok (_, (parsed_buff, result)) => (Ok result, drop (length parsed_buff) buf)
  | Err e => (Err (nom_error e), buf)
  end.
End de.
End De.

(** ** The serializer ([ser.rs]) *)

Module Ser.
Section ser.
Context `{C : CookieFactory}.

Definition bcmedia_info (magic : Z) (payload : BcMediaInfo) : SerializeFn :=
  cf_tuple [cf_le_u32 magic; cf_le_u32 32; cf_le_u32 (video_width payload);
    cf_le_u32 (video_height payload); cf_le_u8 0; cf_le_u8 (fps payload);
    cf_le_u8 (start_year payload); cf_le_u8 (start_month payload); cf_le_u8 (start_day payload);
    cf_le_u8 (start_hour payload); cf_le_u8 (start_min payload); cf_le_u8 (start_seconds payload);
    cf_le_u8 (end_year payload); cf_le_u8 (end_month payload); cf_le_u8 (end_day payload);
    cf_le_u8 (end_hour payload); cf_le_u8 (end_min payload); cf_le_u8 (end_seconds payload);
    cf_le_u8 0; cf_le_u8 0].

Definition bcmedia_info_v1 : BcMediaInfo -> SerializeFn := bcmedia_info MAGIC_HEADER_BCMEDIA_INFO_V1.

Definition bcmedia_info_v2 : BcMediaInfo -> SerializeFn := bcmedia_info MAGIC_HEADER_BCMEDIA_INFO_V2.

Definition vid_string (t : VideoType) : bytes :=
  match t with TypeH264 => H264_str | TypeH265 => H265_str end.

Definition bcmedia_iframe (payload : BcMediaIframe) : SerializeFn :=
  let '(extra_header, extra_header_size) :=
    match if_time payload with
    | Some payload_time => (to_le_bytes 4 payload_time ++ to_le_bytes 4 0, 8)
    | None => ([], 0)
    end in
  cf_tuple [cf_le_u32 MAGIC_HEADER_BCMEDIA_IFRAME; cf_slice (vid_string (if_video_type payload));
    cf_le_u32 (wrap 32 (len (if_data payload))); cf_le_u32 extra_header_size;
    cf_le_u32 (if_microseconds payload); cf_le_u32 0; cf_slice extra_header].

Definition bcmedia_pframe (payload : BcMediaPframe) : SerializeFn :=
  cf_tuple [cf_le_u32 MAGIC_HEADER_BCMEDIA_PFRAME; cf_slice (vid_string (pf_video_type payload));
    cf_le_u32 (wrap 32 (len (pf_data payload))); cf_le_u32 0;
    cf_le_u32 (pf_microseconds payload); cf_le_u32 0].

Definition bcmedia_aac (payload : BcMediaAac) : SerializeFn :=
  cf_tuple [cf_le_u32 MAGIC_HEADER_BCMEDIA_AAC; cf_le_u16 (wrap 16 (len (aac_data payload)));
    cf_le_u16 (wrap 16 (len (aac_data payload)))].

(** [payload.data.len() - 4] is a usize subtraction, wrapping in the release
    profile. *)
Definition bcmedia_adpcm (payload : BcMediaAdpcm) : SerializeFn :=
  let n := len (adpcm_data payload) in
  cf_tuple [cf_le_u32 MAGIC_HEADER_BCMEDIA_ADPCM; cf_le_u16 (wrap 16 (n + 4));
    cf_le_u16 (wrap 16 (n + 4)); cf_le_u16 MAGIC_HEADER_BCMEDIA_ADPCM_DATA;
    cf_le_u16 (wrap 16 (wrap 64 (n - 4) / 2))].

(** Header, payload, zero padding. *)
Definition with_payload (header : SerializeFn) (data : bytes) : SerializeFn :=
  cf_tuple [header; cf_slice data;
    cf_slice (replicate (Z.to_nat (pad_size (wrap 32 (len data)))) 0)].

Definition serialize (m : BcMedia) : SerializeFn :=
  match m with
  | InfoV1 payload => cf_gen (bcmedia_info_v1 payload)
  | InfoV2 payload => cf_gen (bcmedia_info_v2 payload)
  | Iframe payload => cf_gen (with_payload (bcmedia_iframe payload) (if_data payload))
  | Pframe payload => cf_gen (with_payload (bcmedia_pframe payload) (pf_data payload))
  | AacMedia payload => cf_gen (with_payload (bcmedia_aac payload) (aac_data payload))
  | AdpcmMedia payload => cf_gen (with_payload (bcmedia_adpcm payload) (adpcm_data payload))
  end.
End ser.
End Ser.

(** ** The codec ([codex.rs]) *)

Record BcMediaCodex := MkBcMediaCodex { strict : bool; amount_skipped : Z }.

Definition new (strict : bool) : BcMediaCodex := MkBcMediaCodex strict 0.

Definition codex_encode `{CookieFactory} (item : BcMedia) (dst : bytes) : result bytes Error :=
  let? buf := Ser.serialize item [] in Ok (dst ++ buf).

(** The [loop]; [None] is out of fuel. *)
Fixpoint decode_loop `{Nom} (fuel : nat) (c : BcMediaCodex) (src : bytes)
    : option (result (option BcMedia) Error * BcMediaCodex * bytes) :=
  match fuel with
  | O => None
  | S fuel =>
      match De.deserialize src with
      | (Ok bc, src) => Some (Ok (Some bc), MkBcMediaCodex (strict c) 0, src)
      | (Err NomIncomplete, src) => Some (Ok None, MkBcMediaCodex (strict c) 0, src)
      | (Err e, src) =>
          if strict c then Some (Err e, c, src)
          else if (length src =? 0)%nat then Some (Ok None, c, src)
          else decode_loop fuel (MkBcMediaCodex (strict c) (amount_skipped c + len src)) []
      end
  end.

(** Two turns are enough: the second starts on an empty buffer
    ([codex_decode_total]). *)
Definition codex_decode `{N : Nom} (c : BcMediaCodex) (src : bytes)
    : option (result (option BcMedia) Error * BcMediaCodex * bytes) :=
  decode_loop 2 c src.

Definition codex_decode_eof `{N : Nom} (c : BcMediaCodex) (buf : bytes)
    : option (result (option BcMedia) Error * BcMediaCodex * bytes) := codex_decode c buf.

(** ** What the serializer writes, the parser reads *)

Definition info_ok (i : BcMediaInfo) : Prop :=
  u32 (video_width i) /\ u32 (video_height i) /\ u8 (fps i)
  /\ u8 (start_year i) /\ u8 (start_month i) /\ u8 (start_day i) /\ u8 (start_hour i)
  /\ u8 (start_min i) /\ u8 (start_seconds i) /\ u8 (end_year i) /\ u8 (end_month i)
  /\ u8 (end_day i) /\ u8 (end_hour i) /\ u8 (end_min i) /\ u8 (end_seconds i).

(** Values of the field types whose payload fits the length field. ADPCM is
    left out: see [adpcm_desync]. *)
Definition media_ok (m : BcMedia) : Prop :=
  match m with
  | InfoV1 i | InfoV2 i => info_ok i
  | Iframe f => u32 (if_microseconds f) /\ u32 (default 0 (if_time f)) /\ u32 (len (if_data f))
  | Pframe f => u32 (pf_microseconds f) /\ u32 (len (pf_data f))
  | AacMedia a => u16 (len (aac_data a))
  | AdpcmMedia _ => False
  end.

(** The bytes of a frame. *)
Definition wire `{C : CookieFactory} (m : BcMedia) : bytes :=
  match Ser.serialize m [] with Ok b => b | Err _ => [] end.

Section roundtrip.
Context `{N : Nom} `{!NomLaws N} `{C : CookieFactory} `{!CookieFactoryLaws C}.

Lemma pad_size_range n : 0 <= n -> 0 <= pad_size n <= 7.
Proof.
  intros. unfold pad_size, PAD_SIZE. pose proof (Z.mod_pos_bound n 8). destruct (_ =? _) eqn:E; b2p; lia.
Qed.

Lemma len_padding n : 0 <= n -> pad_size n = len (replicate (Z.to_nat (pad_size n)) 0).
Proof.
  intros. pose proof (pad_size_range n ltac:(done)). unfold len. rewrite length_replicate. lia.
Qed.

Lemma video_str_ok t : De.is_video_str (Ser.vid_string t) = true.
Proof. by destruct t. Qed.

Lemma video_type_reads t : reads (fun buf => De.video_type_of buf (Ser.vid_string t)) [] t.
Proof. destruct t; apply (reads_ret (A := VideoType)). Qed.

(** The info header after the magic. *)
Definition info_enc (i : BcMediaInfo) : bytes :=
  to_le_bytes 4 32 ++ to_le_bytes 4 (video_width i) ++ to_le_bytes 4 (video_height i)
  ++ to_le_bytes 1 0 ++ to_le_bytes 1 (fps i) ++ to_le_bytes 1 (start_year i)
  ++ to_le_bytes 1 (start_month i) ++ to_le_bytes 1 (start_day i) ++ to_le_bytes 1 (start_hour i)
  ++ to_le_bytes 1 (start_min i) ++ to_le_bytes 1 (start_seconds i) ++ to_le_bytes 1 (end_year i)
  ++ to_le_bytes 1 (end_month i) ++ to_le_bytes 1 (end_day i) ++ to_le_bytes 1 (end_hour i)
  ++ to_le_bytes 1 (end_min i) ++ to_le_bytes 1 (end_seconds i)
  ++ to_le_bytes 1 0 ++ to_le_bytes 1 0.

Lemma reads_info i : info_ok i -> reads De.bcmedia_info (info_enc i) i.
Proof.
  intros (?&?&?&?&?&?&?&?&?&?&?&?&?&?&?). unfold De.bcmedia_info, info_enc.
  do 17 (reads_next; [done..|]).
  change (to_le_bytes 1 0 ++ to_le_bytes 1 0) with (to_le_bytes 2 0 ++ []).
  reads_next; [done|]. destruct i. apply reads_ret.
Qed.

Lemma reads_opt_time t :
  u32 (default 0 t) ->
  reads (fun buf => De.opt_time (match t with Some _ => 8 | None => 0 end) buf)
    (match t with Some v => to_le_bytes 4 v | None => [] end) t.
Proof.
  intros Ht. destruct t as [v|]; [|apply reads_ret].
  apply (reads_bind_ret le_u32 Some). by apply reads_u32.
Qed.

Lemma reads_opt_remainder (t : option Z) :
  reads (fun buf => De.opt_remainder (match t with Some _ => 8 | None => 0 end) buf)
    (match t with Some _ => to_le_bytes 4 0 | None => [] end) tt.
Proof.
  destruct t as [v|]; [|apply reads_ret].
  apply (reads_bind_ret (nom_take 4) (fun _ => tt) _ (to_le_bytes 4 0)). by apply reads_take.
Qed.

Lemma reads_iframe f :
  media_ok (Iframe f) ->
  reads De.bcmedia_iframe (Ser.vid_string (if_video_type f) ++ to_le_bytes 4 (len (if_data f))
    ++ to_le_bytes 4 (match if_time f with Some _ => 8 | None => 0 end)
    ++ to_le_bytes 4 (if_microseconds f) ++ to_le_bytes 4 0
    ++ (match if_time f with Some v => to_le_bytes 4 v | None => [] end)
    ++ (match if_time f with Some _ => to_le_bytes 4 0 | None => [] end)
    ++ if_data f ++ replicate (Z.to_nat (pad_size (len (if_data f)))) 0) f.
Proof.
  intros (? & ? & ?). unfold De.bcmedia_iframe.
  eapply reads_bind; [apply reads_verify; [by apply reads_take; destruct (if_video_type f)|
    apply video_str_ok]|cbv beta iota].
  reads_next; [done|]. reads_next; [by destruct (if_time f)|]. do 2 (reads_next; [done|]).
  eapply reads_bind; [by apply reads_opt_time|cbv beta iota].
  eapply reads_bind; [by apply reads_opt_remainder|cbv beta iota].
  reads_next; [done|]. rewrite <- (app_nil_r (replicate _ _)).
  reads_next; [apply len_padding; apply len_nonneg|].
  rewrite <- (app_nil_r []). eapply reads_bind; [apply video_type_reads|cbv beta iota].
  destruct f. apply reads_ret.
Qed.

Lemma reads_pframe f :
  media_ok (Pframe f) ->
  reads De.bcmedia_pframe (Ser.vid_string (pf_video_type f) ++ to_le_bytes 4 (len (pf_data f))
    ++ to_le_bytes 4 0 ++ to_le_bytes 4 (pf_microseconds f) ++ to_le_bytes 4 0
    ++ pf_data f ++ replicate (Z.to_nat (pad_size (len (pf_data f)))) 0) f.
Proof.
  intros (? & ?). unfold De.bcmedia_pframe.
  eapply reads_bind; [apply reads_verify; [by apply reads_take; destruct (pf_video_type f)|
    apply video_str_ok]|cbv beta iota].
  do 4 (reads_next; [done|]).
  rewrite <- (app_nil_l (pf_data f ++ _)). reads_next; [done|].
  reads_next; [done|]. rewrite <- (app_nil_r (replicate _ _)).
  reads_next; [apply len_padding; apply len_nonneg|].
  rewrite <- (app_nil_r []). eapply reads_bind; [apply video_type_reads|cbv beta iota].
  destruct f. apply reads_ret.
Qed.

Lemma reads_aac a :
  media_ok (AacMedia a) ->
  reads De.bcmedia_aac (to_le_bytes 2 (len (aac_data a)) ++ to_le_bytes 2 (len (aac_data a))
    ++ aac_data a ++ replicate (Z.to_nat (pad_size (len (aac_data a)))) 0) a.
Proof.
  intros H. unfold De.bcmedia_aac. do 3 (reads_next; [done|]).
  rewrite <- (app_nil_r (replicate _ _)). reads_next; [apply len_padding; apply len_nonneg|].
  destruct a. apply reads_ret.
Qed.

(** The whole frame: the magic, then the variant's parser. *)
Lemma reads_magic {A} magic (p : parser A) (f : A -> BcMedia) e x :
  u32 magic -> De.is_magic magic = true ->
  (forall buf, De.bcmedia_body magic buf = let? (buf, v) := p buf in Ok (buf, f v)) ->
  reads p e x -> reads De.bcmedia (to_le_bytes 4 magic ++ e) (f x).
Proof.
  intros Hm Hi E Hp. unfold De.bcmedia. reads_next; [done|done|].
  eapply reads_ext; [intros b; symmetry; apply E|]. by apply reads_bind_ret.
Qed.

Lemma writes_info magic i :
  writes (cf_gen (Ser.bcmedia_info magic i)) (to_le_bytes 4 magic ++ info_enc i).
Proof. unfold Ser.bcmedia_info, info_enc. wire_eq. Qed.

Lemma writes_iframe f :
  u32 (len (if_data f)) ->
  writes (Ser.serialize (Iframe f)) (to_le_bytes 4 MAGIC_HEADER_BCMEDIA_IFRAME
    ++ Ser.vid_string (if_video_type f) ++ to_le_bytes 4 (len (if_data f))
    ++ to_le_bytes 4 (match if_time f with Some _ => 8 | None => 0 end)
    ++ to_le_bytes 4 (if_microseconds f) ++ to_le_bytes 4 0
    ++ (match if_time f with Some v => to_le_bytes 4 v | None => [] end)
    ++ (match if_time f with Some _ => to_le_bytes 4 0 | None => [] end)
    ++ if_data f ++ replicate (Z.to_nat (pad_size (len (if_data f)))) 0).
Proof.
  intros H. cbn [Ser.serialize]. unfold Ser.with_payload, Ser.bcmedia_iframe.
  rewrite wrap_small by done. destruct (if_time f); wire_eq.
Qed.

Lemma writes_pframe f :
  u32 (len (pf_data f)) ->
  writes (Ser.serialize (Pframe f)) (to_le_bytes 4 MAGIC_HEADER_BCMEDIA_PFRAME
    ++ Ser.vid_string (pf_video_type f) ++ to_le_bytes 4 (len (pf_data f))
    ++ to_le_bytes 4 0 ++ to_le_bytes 4 (pf_microseconds f) ++ to_le_bytes 4 0
    ++ pf_data f ++ replicate (Z.to_nat (pad_size (len (pf_data f)))) 0).
Proof.
  intros H. cbn [Ser.serialize]. unfold Ser.with_payload, Ser.bcmedia_pframe.
  rewrite wrap_small by done. wire_eq.
Qed.

Lemma writes_aac a :
  u16 (len (aac_data a)) ->
  writes (Ser.serialize (AacMedia a)) (to_le_bytes 4 MAGIC_HEADER_BCMEDIA_AAC
    ++ to_le_bytes 2 (len (aac_data a)) ++ to_le_bytes 2 (len (aac_data a))
    ++ aac_data a ++ replicate (Z.to_nat (pad_size (len (aac_data a)))) 0).
Proof.
  intros H. cbn [Ser.serialize]. unfold Ser.with_payload, Ser.bcmedia_aac.
  rewrite !wrap_small by (done || int_lia). wire_eq.
Qed.

(** Serializing succeeds, and the parser reads the frame back off the bytes. *)
Lemma wire_reads m :
  media_ok m -> writes (Ser.serialize m) (wire m) /\ reads De.bcmedia (wire m) m /\ wire m <> [].
Proof.
  intros Hm. assert (exists magic e, writes (Ser.serialize m) (to_le_bytes 4 magic ++ e)
    /\ reads De.bcmedia (to_le_bytes 4 magic ++ e) m) as (magic & e & Hw & Hr).
  { destruct m as [i|i|f|f|a|a]; [| | | | |done]; do 2 eexists.
    - split; [apply writes_info|].
      by apply (reads_magic _ De.bcmedia_info InfoV1), reads_info.
    - split; [apply writes_info|].
      by apply (reads_magic _ De.bcmedia_info InfoV2), reads_info.
    - split; [apply writes_iframe; by destruct Hm as (? & ? & ?)|].
      by apply (reads_magic _ De.bcmedia_iframe Iframe), reads_iframe.
    - split; [apply writes_pframe; by destruct Hm as (? & ?)|].
      by apply (reads_magic _ De.bcmedia_pframe Pframe), reads_pframe.
    - split; [by apply writes_aac|].
      by apply (reads_magic _ De.bcmedia_aac AacMedia), reads_aac. }
  assert (wire m = to_le_bytes 4 magic ++ e) as -> by (unfold wire; by rewrite Hw).
  split_and!; [done|done|]. intros E. apply app_nil in E as [E _]. by vm_compute in E.
Qed.

Lemma deserialize_wire m rest : media_ok m -> De.deserialize (wire m ++ rest) = (Ok m, rest).
Proof.
  intros Hm. destruct (wire_reads m Hm) as (_ & Hr & _). apply reads_consumed in Hr as [Hr _].
  unfold De.deserialize. rewrite Hr. by rewrite drop_app_length.
Qed.

Lemma deserialize_prefix m k :
  media_ok m -> (k < length (wire m))%nat ->
  De.deserialize (take k (wire m)) = (Err NomIncomplete, take k (wire m)).
Proof.
  intros Hm Hk. destruct (wire_reads m Hm) as (_ & Hr & _). apply reads_consumed in Hr as [_ Hr].
  unfold De.deserialize. by rewrite Hr.
Qed.

Lemma deserialize_nil : De.deserialize [] = (Err NomIncomplete, []).
Proof.
  unfold De.deserialize, De.bcmedia. rewrite consumed_eq, verify_eq, le_u32_eq. done.
Qed.

(** One poll of the codec by its reader. *)
Definition codex_step (c : BcMediaCodex) (src : bytes) : BcMediaCodex * option (BcMedia * bytes) :=
  match codex_decode c src with
  | Some (Ok (Some m), c, src) => (c, Some (m, src))
  | Some (_, c, _) => (c, None)
  | None => (c, None)
  end.

Definition settled (c : BcMediaCodex) : Prop := amount_skipped c = 0.

Lemma codex_frame_ok c m : settled c -> media_ok m -> frame_ok codex_step (fun _ => wire) (fun c _ => c) c m.
Proof.
  intros Hc Hm. destruct c as [st sk]. unfold settled in Hc. simpl in Hc. subst sk. split_and!.
  - by apply wire_reads.
  - intros rest. unfold codex_step, codex_decode. cbn [decode_loop]. by rewrite deserialize_wire.
  - intros k Hk. unfold codex_step, codex_decode. cbn [decode_loop]. by rewrite deserialize_prefix.
Qed.

(** C4: a reader that polls the codec as bytes arrive gets
    exactly the frames that were serialized, in order, whatever the transport's
    chunk boundaries, in strict and in recovering mode, when none of them is an
    ADPCM frame: the serializer pads those otherwise than the parser expects, and
    a stream with one does not round-trip ([adpcm_desync]). *)
Theorem bcmedia_stream ms chunks st :
  Forall media_ok ms -> concat (map wire ms) = concat chunks ->
  pump codex_step (new st) [] chunks = (ms, new st, []).
Proof.
  intros Hms E. assert (forall c, settled c -> Forall media_ok ms ->
    frames_ok codex_step (fun _ => wire) (fun c _ => c) c ms) as Hok.
  { clear E Hms. intros c Hc H. induction H as [|m ms Hm Hms IH]; [done|].
    split; [by apply codex_frame_ok|done]. }
  rewrite (pump_frames codex_step (fun _ => wire) (fun c _ => c) settled) with (xs := ms).
  - do 2 f_equal. unfold after. clear. induction ms as [|m ms IH]; [done|apply IH].
  - intros [st' sk] Hs. unfold settled in Hs. simpl in Hs. subst. unfold codex_step, codex_decode.
    cbn [decode_loop]. by rewrite deserialize_nil.
  - done.
  - done.
  - by apply Hok.
  - rewrite <- E. clear. induction ms as [|m ms IH]; [done|]. simpl. by rewrite IH.
Qed.

(** one call of the codec's decode loop always returns,
    after at most two turns. In recovering mode it never fails: bytes that do
    not parse are discarded, all of them, and the call asks for more. In strict
    mode the error is returned and the buffer is kept. *)
Theorem codex_decode_total c src :
  exists r c' src', codex_decode c src = Some (r, c', src')
    /\ match r with
       | Ok _ => True
       | Err _ => strict c = true /\ c' = c /\ src' = src
       end
    /\ (strict c = false -> forall e, De.deserialize src = (Err e, src) -> e <> NomIncomplete ->
        src <> [] -> r = Ok None /\ src' = []).
Proof.
  unfold codex_decode. cbn [decode_loop]. rewrite deserialize_nil.
  destruct (De.deserialize src) as [[m|e] src'] eqn:Ed.
  { do 3 eexists. split; [done|]. split; [done|]. intros _ e [=]. }
  assert (src' = src) as ->.
  { unfold De.deserialize in Ed. by destruct (consumed De.bcmedia src) as [[? [? ?]]|?]; simplify_eq. }
  destruct e as [| | |be|se]; try (do 3 eexists; split; [done|]; split; [done|]; intros _ e' [= <-] He; done).
  all: destruct (strict c) eqn:Es;
    [do 3 eexists; split; [done|]; split; [done|]; done|].
  all: destruct src as [|b src]; (do 3 eexists; split; [done|]; split; [done|]; done).
Qed.
End roundtrip.

Lemma bcmedia_stream_witness :
  pump (codex_step (N := nom_std)) (new true) []
    [[48; 53; 119; 98; 2]; [0; 2; 0; 7; 8; 0; 0]; [0; 0; 0; 0]]
  = ([AacMedia (MkAac [7; 8])], new true, []).
Proof.
  apply (bcmedia_stream (N := nom_std) (C := cf_std) [AacMedia (MkAac [7; 8])]).
  - repeat constructor; done.
  - reflexivity.
Defined.

Lemma codex_decode_total_witness : exists r c' src',
  codex_decode (N := nom_std) (new false) [1; 2; 3; 4; 5] = Some (r, c', src').
Proof.
  destruct (codex_decode_total (N := nom_std) (new false) [1; 2; 3; 4; 5]) as (r & c & s & E & _).
  exists r, c, s. exact E.
Defined.

(** ** Durations *)

(** the u32 arithmetic of the AAC duration never wraps:
    the result is 1024 samples per frame at the header's rate, in
    microseconds. *)
Theorem aac_duration_exact a d :
  aac_duration a = Some d ->
  exists frames rate, 1 <= frames <= 4 /\ In rate
    [96000; 88200; 64000; 48000; 44100; 32000; 24000; 22050; 16000; 12000; 11025; 8000; 7350]
    /\ d = frames * 1024 * 1000000 / rate.
Proof.
  unfold aac_duration. destruct (aac_data a) as [|b0 [|b1 [|b2 [|b3 [|b4 [|b5 [|b6 [|b7 t]]]]]]]]; try done.
  destruct (negb _); [done|]. destruct (negb _); [done|].
  destruct (aac_rate _) as [rate|] eqn:Er; [|done]. intros [= <-].
  pose proof (land_bound b6 2 3 ltac:(lia) eq_refl) as Hf.
  exists (Z.land b6 3 + 1), rate. split_and!; [lia|lia| |].
  - unfold aac_rate in Er. apply list_elem_of_lookup_2 in Er. by apply list_elem_of_In.
  - change (2 ^ 2) with 4 in Hf.
    rewrite (wrap_small 8) by int_lia. rewrite (wrap_small 32 (_ * 1024)) by int_lia.
    by rewrite wrap_small by int_lia.
Qed.

Lemma aac_duration_exact_witness : exists frames rate,
  1 <= frames <= 4 /\ In rate
    [96000; 88200; 64000; 48000; 44100; 32000; 24000; 22050; 16000; 12000; 11025; 8000; 7350]
  /\ 64000 = frames * 1024 * 1000000 / rate.
Proof. apply (aac_duration_exact (MkAac [255; 241; 96; 64; 20; 63; 252; 0])). reflexivity. Defined.

(** ** ADPCM padding *)

Section adpcm.
Context `{N : Nom} `{!NomLaws N} `{C : CookieFactory} `{!CookieFactoryLaws C}.

Lemma pad_size_shift n : 0 <= n -> pad_size (n + 4) = pad_size n + 4 \/ pad_size (n + 4) = pad_size n - 4.
Proof.
  intros Hn. unfold pad_size, PAD_SIZE. pose proof (Z.mod_pos_bound n 8 ltac:(lia)).
  rewrite <- Zplus_mod_idemp_l.
  assert (n mod 8 = 0 \/ n mod 8 = 1 \/ n mod 8 = 2 \/ n mod 8 = 3 \/ n mod 8 = 4 \/ n mod 8 = 5
    \/ n mod 8 = 6 \/ n mod 8 = 7) as [->|[->|[->|[->|[->|[->|[->| ->]]]]]]] by lia;
    first [left; reflexivity|right; reflexivity].
Qed.

Lemma reads_adpcm a pad :
  4 <= len (adpcm_data a) -> u16 (len (adpcm_data a) + 4) -> len pad = pad_size (len (adpcm_data a) + 4) ->
  reads De.bcmedia_adpcm (to_le_bytes 2 (len (adpcm_data a) + 4)
    ++ to_le_bytes 2 (len (adpcm_data a) + 4) ++ to_le_bytes 2 MAGIC_HEADER_BCMEDIA_ADPCM_DATA
    ++ to_le_bytes 2 (wrap 16 (wrap 64 (len (adpcm_data a) - 4) / 2)) ++ adpcm_data a ++ pad) a.
Proof.
  intros Hl Hu Hp. unfold De.bcmedia_adpcm.
  reads_next; [done|apply Z.leb_le; unfold De.SUB_HEADER_SIZE; lia|].
  reads_next; [done|]. reads_next; [done|done|]. reads_next; [by apply wrap_range|].
  reads_next; [unfold De.SUB_HEADER_SIZE; lia|].
  rewrite <- (app_nil_r pad). reads_next; [done|]. destruct a. apply reads_ret.
Qed.

Lemma writes_adpcm a :
  u16 (len (adpcm_data a) + 4) ->
  writes (Ser.serialize (AdpcmMedia a)) (to_le_bytes 4 MAGIC_HEADER_BCMEDIA_ADPCM
    ++ (to_le_bytes 2 (len (adpcm_data a) + 4)
    ++ to_le_bytes 2 (len (adpcm_data a) + 4) ++ to_le_bytes 2 MAGIC_HEADER_BCMEDIA_ADPCM_DATA
    ++ to_le_bytes 2 (wrap 16 (wrap 64 (len (adpcm_data a) - 4) / 2)) ++ adpcm_data a)
    ++ replicate (Z.to_nat (pad_size (len (adpcm_data a)))) 0).
Proof.
  intros H. pose proof (len_nonneg (adpcm_data a)). cbn [Ser.serialize].
  unfold Ser.with_payload, Ser.bcmedia_adpcm.
  rewrite (wrap_small 16 (_ + 4)), (wrap_small 32) by int_lia. wire_eq.
Qed.

(** the serializer and the parser never agree on an ADPCM
    frame's padding. In a stream of the program's own frames the parser reads
    the frame's data back but continues four bytes too early, inside the
    padding, or four bytes too late, inside the next frame. *)
Theorem adpcm_desync a rest :
  4 <= len (adpcm_data a) -> u16 (len (adpcm_data a) + 4) -> 4 <= len rest ->
  exists rest', De.deserialize (wire (AdpcmMedia a) ++ rest) = (Ok (AdpcmMedia a), rest')
    /\ (rest' = [0; 0; 0; 0] ++ rest \/ rest' = drop 4 rest).
Proof.
  intros Hl Hu Hr. pose proof (writes_adpcm a Hu []) as Hw. unfold wire. rewrite Hw. cbn [app].
  set (body := to_le_bytes 2 _ ++ _). set (n := len (adpcm_data a)) in *.
  pose proof (pad_size_range n ltac:(lia)) as Hn. pose proof (pad_size_range (n + 4) ltac:(lia)) as Hn4.
  assert (exists pad rest', replicate (Z.to_nat (pad_size n)) 0 ++ rest = pad ++ rest'
    /\ len pad = pad_size (n + 4) /\ (rest' = [0; 0; 0; 0] ++ rest \/ rest' = drop 4 rest))
    as (pad & rest' & E & Hp & Hrest).
  { destruct (pad_size_shift n ltac:(lia)) as [Hs|Hs].
    - exists (replicate (Z.to_nat (pad_size n)) 0 ++ take 4 rest), (drop 4 rest).
      rewrite <- app_assoc, take_drop. split_and!; [done| |by right].
      unfold len in *. rewrite length_app, length_replicate, length_take. lia.
    - exists (replicate (Z.to_nat (pad_size (n + 4))) 0), ([0; 0; 0; 0] ++ rest).
      replace (Z.to_nat (pad_size n)) with (Z.to_nat (pad_size (n + 4)) + 4)%nat by lia.
      rewrite replicate_add, <- app_assoc. split_and!; [done| |by left].
      unfold len. rewrite length_replicate. lia. }
  exists rest'. split; [|done].
  assert (reads De.bcmedia (to_le_bytes 4 MAGIC_HEADER_BCMEDIA_ADPCM ++ body ++ pad) (AdpcmMedia a))
    as Hrd.
  { apply (reads_magic _ De.bcmedia_adpcm AdpcmMedia); [done|done|done|].
    subst body. rewrite <- !app_assoc. by apply reads_adpcm. }
  apply reads_consumed in Hrd as [Hrd _]. specialize (Hrd rest').
  rewrite <- !app_assoc in Hrd |- *. rewrite <- E in Hrd.
  unfold De.deserialize. rewrite Hrd. f_equal.
  rewrite E, !app_assoc. rewrite drop_app_exact; [done|]. rewrite !length_app. done.
Qed.
End adpcm.

Lemma adpcm_desync_witness : exists rest',
  De.deserialize (N := nom_std) (wire (C := cf_std) (AdpcmMedia (MkBcAdpcm [1; 2; 3; 4])) ++ [9; 9; 9; 9])
  = (Ok (AdpcmMedia (MkBcAdpcm [1; 2; 3; 4])), rest').
Proof.
  destruct (adpcm_desync (N := nom_std) (C := cf_std) (MkBcAdpcm [1; 2; 3; 4]) [9; 9; 9; 9])
    as (r & E & _); [done|done|done|]. exists r. exact E.
Defined.
