(* ===== verification/StreamTranslate.v ===== *)
(** * Translating camera packets into RTSP frames ([src/stream_translate.rs])

    [translate] is the source's pure function: state in, emits and state out.
    The ADPCM path goes through the checked table accesses of [Transcode], so
    it returns an [outcome]. Durations are microseconds. *)

From S2P Require Import Prelude Rtp Nal AudioCodec Packetizer Transcode FrameBuffer Wire BcMedia.

(** ** SDP parameters ([src/rtsp/sdp.rs]) *)

Record VideoParams := MkVideoParams {
  vp_codec : VideoCodec;
  vp_payload_type : Z;
  vp_sps : bytes;
  vp_pps : bytes;
  vp_vps : option bytes;
  vp_profile_level_id : Z * Z * Z
}.

Record AudioParams := MkAudioParams {
  ap_codec : AudioCodec;
  ap_payload_type : Z;
  ap_sample_rate : Z;
  ap_channels : Z;
  ap_asc_hex : option string
}.

Record StreamTranslatorState := MkState {
  detected_codec : option VideoCodec;
  aac_pts_next : Z;
  g711_pts_next : Z;
  aac_aot : option Z;
  last_video_pts_90khz : option Z;
  sdp_audio_emitted : bool
}.

Definition default_state : StreamTranslatorState := MkState None 0 0 None None false.

Inductive Emit :=
| EmitVideo (frame : Frame) (pace : Z)
| EmitAudio (frame : Frame) (pace : Z)
| EmitSdpVideo (p : VideoParams)
| EmitSdpAudio (p : AudioParams)
| ReplaceVideoBurst (b : VideoBurst)
| EmitAppendPframe (nals : list bytes)
| AudioSeen (c : AudioCodec).

(** Field updates. *)
Definition set_codec (s : StreamTranslatorState) (c : option VideoCodec) : StreamTranslatorState :=
  MkState c (aac_pts_next s) (g711_pts_next s) (aac_aot s) (last_video_pts_90khz s) (sdp_audio_emitted s).
Definition set_aac_pts (s : StreamTranslatorState) (p : Z) : StreamTranslatorState :=
  MkState (detected_codec s) p (g711_pts_next s) (aac_aot s) (last_video_pts_90khz s) (sdp_audio_emitted s).
Definition set_g711_pts (s : StreamTranslatorState) (p : Z) : StreamTranslatorState :=
  MkState (detected_codec s) (aac_pts_next s) p (aac_aot s) (last_video_pts_90khz s) (sdp_audio_emitted s).
Definition set_aot (s : StreamTranslatorState) (a : Z) : StreamTranslatorState :=
  MkState (detected_codec s) (aac_pts_next s) (g711_pts_next s) (Some a) (last_video_pts_90khz s)
    (sdp_audio_emitted s).
Definition set_video_pts (s : StreamTranslatorState) (p : Z) : StreamTranslatorState :=
  MkState (detected_codec s) (aac_pts_next s) (g711_pts_next s) (aac_aot s) (Some p) (sdp_audio_emitted s).
Definition set_sdp_audio (s : StreamTranslatorState) : StreamTranslatorState :=
  MkState (detected_codec s) (aac_pts_next s) (g711_pts_next s) (aac_aot s) (last_video_pts_90khz s) true.

(** ** Helpers *)

Definition micros_to_90khz (micros : Z) : Z := wrap 32 (wrap 64 (micros * 9) / 100).

Definition is_parameter_set_nal (nal : bytes) (codec : VideoCodec) : bool :=
  match nal with
  | [] => false
  | b0 :: _ =>
      match codec with
      | H264 =>
          let ty := H264NalType.from_header_byte b0 in
          (ty =? H264NalType.SPS) || (ty =? H264NalType.PPS)
      | H265 =>
          let ty := H265NalType.from_header_byte b0 in
          (ty =? H265NalType.VPS) || (ty =? H265NalType.SPS) || (ty =? H265NalType.PPS)
      end
  end.

Definition is_slice_nal (nal : bytes) (codec : VideoCodec) : bool :=
  match nal with
  | [] => false
  | b0 :: _ =>
      match codec with
      | H264 => within 1 5 (H264NalType.from_header_byte b0)
      | H265 => let ty := H265NalType.from_header_byte b0 in within 0 9 ty || within 16 21 ty
      end
  end.

(** The accumulators of [extract_iframe_parts]. *)
Record IframeParts := MkParts {
  ip_parameter_sets : list bytes;
  ip_iframe_nals : list bytes;
  ip_sps : option bytes;
  ip_pps : option bytes;
  ip_vps : option bytes
}.

Definition extract_step (codec : VideoCodec) (p : IframeParts) (nal : bytes) : IframeParts :=
  match nal with
  | [] => p
  | b0 :: _ =>
      let '(MkParts ps ifr sps pps vps) := p in
      match codec with
      | H264 =>
          let ty := H264NalType.from_header_byte b0 in
          if ty =? H264NalType.SPS then MkParts (ps ++ [nal]) ifr (Some nal) pps vps
          else if ty =? H264NalType.PPS then MkParts (ps ++ [nal]) ifr sps (Some nal) vps
          else if ty =? H264NalType.IDR_SLICE then MkParts ps (ifr ++ [nal]) sps pps vps
          else p
      | H265 =>
          let ty := H265NalType.from_header_byte b0 in
          if ty =? H265NalType.VPS then MkParts (ps ++ [nal]) ifr sps pps (Some nal)
          else if ty =? H265NalType.SPS then MkParts (ps ++ [nal]) ifr (Some nal) pps vps
          else if ty =? H265NalType.PPS then MkParts (ps ++ [nal]) ifr sps (Some nal) vps
          else if (ty =? H265NalType.IDR_W_RADL) || (ty =? H265NalType.IDR_N_LP)
                  || (ty =? H265NalType.CRA) || (ty =? H265NalType.BLA_W_LP)
          then MkParts ps (ifr ++ [nal]) sps pps vps
          else p
      end
  end.

Definition extract_iframe_parts (codec : VideoCodec) (nals : list bytes) : IframeParts :=
  fold_left (extract_step codec) nals (MkParts [] [] None None None).

Definition aac_samples_per_au (aot : Z) : option Z :=
  if aot =? 2 then Some 1024 else if (aot =? 5) || (aot =? 29) then Some 2048 else None.

Definition PACER_ANOMALY_CAP_TICKS : Z := 90000 * 5.

Definition video_frame_duration (s : StreamTranslatorState) (pts_90khz : Z)
    : Z * StreamTranslatorState :=
  let dur :=
    match last_video_pts_90khz s with
    | Some prev =>
        let delta := wrap 32 (pts_90khz - prev) in
        let ticks := if PACER_ANOMALY_CAP_TICKS <? delta then 0 else delta in
        wrap 64 (ticks * 1000000) / 90000
    | None => 0
    end in
  (dur, set_video_pts s pts_90khz).

Definition paced_audio_duration (samples sample_rate : Z) : Z :=
  if sample_rate =? 0 then 0 else Z.min u64_max (samples * 1000000) / sample_rate.

(** [nals.iter().partition(|n| !is_slice_nal(n, codec))], then append. *)
Definition reorder (codec : VideoCodec) (nals : list bytes) : list bytes :=
  let non_slice := List.filter (fun n => negb (is_slice_nal n codec)) nals in
  let slice := List.filter (fun n => is_slice_nal n codec) nals in
  non_slice ++ slice.

Definition decodable (codec : VideoCodec) (nals : list bytes) : list bytes :=
  List.filter (fun n => is_decodable_nal n codec) nals.

(** The first NAL with a verdict. *)
Fixpoint first_codec (nals : list bytes) : option VideoCodec :=
  match nals with
  | [] => None
  | nal :: nals => match detect_codec nal with Some c => Some c | None => first_codec nals end
  end.

(** ** The translators *)

Definition translate_iframe (iframe : BcMediaIframe) (state : StreamTranslatorState) (now : Z)
    : list Emit * option Z * StreamTranslatorState :=
  let nals := split_annex_b (if_data iframe) in
  match nals with
  | [] => ([], None, state)
  | _ =>
      let state :=
        match detected_codec state with
        | Some _ => state
        | None => set_codec state (first_codec nals)
        end in
      match detected_codec state with
      | None => ([], None, state)
      | Some codec =>
          let nals := decodable codec nals in
          match nals with
          | [] => ([], None, state)
          | _ =>
              let reordered := reorder codec nals in
              let '(MkParts parameter_sets iframe_nals sps_bytes pps_bytes vps_bytes) :=
                extract_iframe_parts codec reordered in
              let emits :=
                match sps_bytes, pps_bytes with
                | Some sps, Some pps =>
                    let profile_level_id :=
                      if 4 <=? len sps then (byte_at sps 1, byte_at sps 2, byte_at sps 3)
                      else (0, 0, 0) in
                    [EmitSdpVideo (MkVideoParams codec 96 sps pps vps_bytes profile_level_id)]
                | _, _ => []
                end in
              let burst_pts := micros_to_90khz (if_microseconds iframe) in
              let emits := emits ++ [ReplaceVideoBurst
                (MkVideoBurst codec parameter_sets iframe_nals [] now burst_pts)] in
              let nals_bytes := List.filter (fun n => negb (is_parameter_set_nal n codec)) reordered in
              match nals_bytes with
              | [] => (emits, None, state)
              | _ =>
                  let pts_90khz := micros_to_90khz (if_microseconds iframe) in
                  let frame := VideoFrame codec nals_bytes pts_90khz true true in
                  let '(pace, state) := video_frame_duration state pts_90khz in
                  (emits ++ [EmitVideo frame pace], Some pts_90khz, state)
              end
          end
      end
  end.

Definition translate_pframe (pframe : BcMediaPframe) (state : StreamTranslatorState)
    : list Emit * option Z * StreamTranslatorState :=
  match detected_codec state with
  | None => ([], None, state)
  | Some codec =>
      let nals := split_annex_b (pf_data pframe) in
      match nals with
      | [] => ([], None, state)
      | _ =>
          let nals := decodable codec nals in
          match nals with
          | [] => ([], None, state)
          | _ =>
              let reordered := reorder codec nals in
              let emits := [EmitAppendPframe reordered] in
              let pts_90khz := micros_to_90khz (pf_microseconds pframe) in
              let frame := VideoFrame codec reordered pts_90khz false true in
              let '(pace, state) := video_frame_duration state pts_90khz in
              (emits ++ [EmitVideo frame pace], Some pts_90khz, state)
          end
      end
  end.

Definition translate_aac (aac : BcMediaAac) (state : StreamTranslatorState) (bridging : bool)
    : list Emit * StreamTranslatorState :=
  match Aac.parse_adts (aac_data aac) with
  | None => ([], state)
  | Some header =>
      if Aac.channels header =? 0 then
        ([], if bool_decide (aac_aot state = Some (Aac.aot header)) then state
             else set_aot state (Aac.aot header))
      else
        let '(emits, state) :=
          if negb (sdp_audio_emitted state) then
            match Aac.build_audio_specific_config_hex (Aac.aot header) (Aac.sample_rate header)
                    (Aac.channels header) with
            | Some asc =>
                ([EmitSdpAudio (MkAudioParams Nal.Aac Aac.AAC_PAYLOAD_TYPE (Aac.sample_rate header)
                    (Aac.channels header) (Some asc))], set_sdp_audio state)
            | None => ([], state)
            end
          else ([], state) in
        if (len (aac_data aac) <? Aac.ADTS_HEADER_LEN)
           || (Aac.frame_length header <? Aac.ADTS_HEADER_LEN) then (emits, state)
        else
          let payload := drop (Z.to_nat Aac.ADTS_HEADER_LEN) (aac_data aac) in
          let au_bytes_len :=
            Z.min (sat_sub (Aac.frame_length header) Aac.ADTS_HEADER_LEN) (len payload) in
          if au_bytes_len =? 0 then (emits, state)
          else
            let au_data := take (Z.to_nat au_bytes_len) payload in
            match aac_samples_per_au (Aac.aot header) with
            | None =>
                (emits, if bool_decide (aac_aot state = Some (Aac.aot header)) then state
                        else set_aot state (Aac.aot header))
            | Some samples_per_au =>
                let state := if bool_decide (aac_aot state = Some (Aac.aot header)) then state
                             else set_aot state (Aac.aot header) in
                let pts_step := Z.min u32_max (samples_per_au * Aac.aac_frames header) in
                let pts := aac_pts_next state in
                let state := set_aac_pts state (wrap 32 (pts + pts_step)) in
                if bridging then (emits, state)
                else
                  let frame := AudioFrame (AacPayload au_data (Aac.sample_rate header)
                                 (Aac.channels header)) pts in
                  let pace := paced_audio_duration pts_step (Aac.sample_rate header) in
                  (emits ++ [EmitAudio frame pace] ++ [AudioSeen Nal.Aac], state)
            end
  end.

Definition translate_adpcm (adpcm : BcMediaAdpcm) (state : StreamTranslatorState) (bridging : bool)
    : outcome (list Emit * StreamTranslatorState) :=
  let! (r, _) := decode_block Transcode.new (adpcm_data adpcm) in
  match r with
  | Err _ => Ret ([], state)
  | Ok pcm_16k =>
      if (length pcm_16k =? 0)%nat then Ret ([], state)
      else
        let pcm_8k := decimate_16_to_8 pcm_16k in
        if (length pcm_8k =? 0)%nat then Ret ([], state)
        else
          let ulaw := G711.encode pcm_8k in
          let '(emits, state) :=
            if negb (sdp_audio_emitted state) then
              ([EmitSdpAudio (MkAudioParams G711Ulaw G711.G711_PAYLOAD_TYPE 8000 1 None)],
               set_sdp_audio state)
            else ([], state) in
          let sample_count := wrap 32 (len ulaw) in
          let pts := g711_pts_next state in
          let state := set_g711_pts state (wrap 32 (pts + sample_count)) in
          if bridging then Ret (emits, state)
          else
            let frame := AudioFrame (G711Payload ulaw) pts in
            let pace := paced_audio_duration sample_count 8000 in
            Ret (emits ++ [EmitAudio frame pace] ++ [AudioSeen G711Ulaw], state)
  end.

Definition translate (packet : BcMedia) (state : StreamTranslatorState) (now : Z) (bridging : bool)
    : outcome (list Emit * option Z * StreamTranslatorState) :=
  match packet with
  | Iframe iframe => Ret (translate_iframe iframe state now)
  | Pframe pframe => Ret (translate_pframe pframe state)
  | AacMedia aac =>
      let '(emits, state) := translate_aac aac state bridging in Ret (emits, None, state)
  | AdpcmMedia adpcm =>
      let! (emits, state) := translate_adpcm adpcm state bridging in Ret (emits, None, state)
  | InfoV1 _ | InfoV2 _ => Ret ([], None, state)
  end.

(** ** Shape of the emits *)

Definition is_video (e : Emit) : bool := match e with EmitVideo _ _ => true | _ => false end.
Definition is_audio (e : Emit) : bool :=
  match e with EmitAudio _ _ | AudioSeen _ => true | _ => false end.
Definition is_sdp_audio (e : Emit) : bool := match e with EmitSdpAudio _ => true | _ => false end.

(** The Annex-B payload of a video packet. *)
Definition video_bytes (m : BcMedia) : bytes :=
  match m with Iframe f => if_data f | Pframe f => pf_data f | _ => [] end.

(** A video frame fit for the wire: something to send, only NALs of the packet
    that a decoder takes, slices last, and no parameter sets next to a key
    frame. *)
Definition wire_frame (m : BcMedia) (f : Frame) (pts : Z) : Prop :=
  match f with
  | VideoFrame codec nals p key aue =>
      p = pts /\ aue = true /\ nals <> []
      /\ Forall (fun n => In n (split_annex_b (video_bytes m))) nals
      /\ Forall (fun n => is_decodable_nal n codec = true) nals
      /\ (exists a b, nals = a ++ b /\ Forall (fun n => is_slice_nal n codec = false) a
                      /\ Forall (fun n => is_slice_nal n codec = true) b)
      /\ (key = true -> Forall (fun n => is_parameter_set_nal n codec = false) nals)
  | AudioFrame _ _ => False
  end.

Lemma filter_true {A} (f : A -> bool) l : Forall (fun x => f x = true) (List.filter f l).
Proof. apply List.Forall_forall. intros x Hx. by apply filter_In in Hx as [_ ?]. Qed.

Lemma filter_negb {A} (f : A -> bool) l : Forall (fun x => f x = false) (List.filter (fun x => negb (f x)) l).
Proof.
  apply List.Forall_forall. intros x Hx. apply filter_In in Hx as [_ Hx]. by apply negb_true_iff in Hx.
Qed.

Lemma filter_keeps {A} (P : A -> Prop) (f : A -> bool) l : Forall P l -> Forall P (List.filter f l).
Proof.
  rewrite !List.Forall_forall. intros H x Hx. apply filter_In in Hx as [? _]. by apply H.
Qed.

Lemma filter_incl {A} (f : A -> bool) l : Forall (fun x => In x l) (List.filter f l).
Proof. apply List.Forall_forall. intros x Hx. by apply filter_In in Hx as [? _]. Qed.

Lemma reorder_forall P codec nals : Forall P nals -> Forall P (reorder codec nals).
Proof. intros H. unfold reorder. apply Forall_app. split; by apply filter_keeps. Qed.

Lemma reorder_nil codec nals : reorder codec nals = [] -> nals = [].
Proof.
  unfold reorder. intros E. apply app_nil in E as [E1 E2]. destruct nals as [|n nals]; [done|].
  simpl in *. by destruct (is_slice_nal n codec).
Qed.

Lemma reorder_split codec nals :
  exists a b, reorder codec nals = a ++ b /\ Forall (fun n => is_slice_nal n codec = false) a
    /\ Forall (fun n => is_slice_nal n codec = true) b.
Proof. do 2 eexists. split_and!; [reflexivity|apply filter_negb|apply filter_true]. Qed.

(** What an audio packet emits: SDP parameters at most once per stream, then
    possibly a frame and the presence upgrade. *)
Definition sdp_part (s s' : StreamTranslatorState) (es : list Emit) : Prop :=
  (es = [] /\ sdp_audio_emitted s' = sdp_audio_emitted s)
  \/ (exists p, es = [EmitSdpAudio p] /\ sdp_audio_emitted s = false /\ sdp_audio_emitted s' = true).

Definition frame_part (es : list Emit) : Prop :=
  es = [] \/ exists pl pts pace, es = [EmitAudio (AudioFrame pl pts) pace; AudioSeen (payload_codec pl)].

Definition audio_shape (s s' : StreamTranslatorState) (es : list Emit) : Prop :=
  exists sdp tail, es = sdp ++ tail /\ sdp_part s s' sdp /\ frame_part tail.

Lemma audio_shape_intro s s' sdp tail :
  sdp_part s s' sdp -> frame_part tail -> audio_shape s s' (sdp ++ tail).
Proof. intros. by exists sdp, tail. Qed.

Lemma audio_shape_sdp s s' sdp : sdp_part s s' sdp -> audio_shape s s' sdp.
Proof. intros. rewrite <- (app_nil_r sdp). by apply audio_shape_intro; [|left]. Qed.

(** The state updates other than the latch keep it. *)
Lemma sdp_part_same s s1 s2 es :
  sdp_part s s1 es -> sdp_audio_emitted s2 = sdp_audio_emitted s1 -> sdp_part s s2 es.
Proof.
  intros [[-> E]|(p & -> & E & E')] H; [left|right; exists p]; split_and!; congruence.
Qed.

Lemma translate_aac_shape a s bridging :
  let '(es, s') := translate_aac a s bridging in audio_shape s s' es.
Proof.
  unfold translate_aac. destruct (Aac.parse_adts _) as [h|]; [|by apply audio_shape_sdp; left].
  destruct (Aac.channels h =? 0).
  { apply audio_shape_sdp. left. by case_bool_decide. }
  destruct (if negb (sdp_audio_emitted s) then _ else _) as [es s1] eqn:E.
  assert (sdp_part s s1 es) as Hs.
  { destruct (sdp_audio_emitted s) eqn:Es; cbn in E; [|destruct (Aac.build_audio_specific_config_hex _ _ _)];
      simplify_eq; [by left|right; by eexists|by left]. }
  destruct (_ || _); [by apply audio_shape_sdp|].
  destruct (_ =? 0); [by apply audio_shape_sdp|].
  destruct (aac_samples_per_au _).
  - destruct bridging.
    + apply audio_shape_sdp. eapply sdp_part_same; [done|]. by case_bool_decide.
    + apply audio_shape_intro; [|right; eexists (AacPayload _ _ _), _, _; reflexivity].
      eapply sdp_part_same; [done|]. by case_bool_decide.
  - apply audio_shape_sdp. eapply sdp_part_same; [done|]. by case_bool_decide.
Qed.

Lemma translate_adpcm_shape a s bridging es s' :
  translate_adpcm a s bridging = Ret (es, s') -> audio_shape s s' es.
Proof.
  unfold translate_adpcm. destruct (decode_block _ _) as [[[pcm|e] d]|]; cbn [out_bind]; [| |done].
  2:{ intros [= <- <-]. by apply audio_shape_sdp; left. }
  destruct (_ =? 0)%nat; [intros [= <- <-]; by apply audio_shape_sdp; left|].
  destruct (_ =? 0)%nat; [intros [= <- <-]; by apply audio_shape_sdp; left|].
  destruct (if negb (sdp_audio_emitted s) then _ else _) as [es1 s1] eqn:E.
  assert (sdp_part s s1 es1) as Hs.
  { destruct (sdp_audio_emitted s) eqn:Es; cbn in E; simplify_eq; [by left|right; by eexists]. }
  destruct bridging; intros [= <- <-].
  - apply audio_shape_sdp. by eapply sdp_part_same.
  - apply audio_shape_intro; [by eapply sdp_part_same|right; eexists (G711Payload _), _, _; reflexivity].
Qed.

Lemma audio_shape_no_video s s' es : audio_shape s s' es -> Forall (fun e => is_video e = false) es.
Proof.
  intros (sdp & tail & -> & [[-> _]|(p & -> & _)] & [->|(pl & pts & pace & ->)]);
    by repeat constructor.
Qed.

(** Kinds of emits, counted. *)
Definition count (f : Emit -> bool) (es : list Emit) : nat := length (List.filter f es).

Lemma count_app f a b : count f (a ++ b) = (count f a + count f b)%nat.
Proof. unfold count. by rewrite List.filter_app, length_app. Qed.

Definition latch (s : StreamTranslatorState) : nat := if sdp_audio_emitted s then 1%nat else 0%nat.

Lemma audio_shape_latch s s' es :
  audio_shape s s' es -> (count is_sdp_audio es + latch s = latch s')%nat.
Proof.
  unfold latch.
  intros (sdp & tail & -> & [[-> E]|(p & -> & E & E')] & [->|(pl & pts & pace & ->)]);
    by rewrite ?E, ?E'.
Qed.

(** Video translation keeps the latch and emits no audio. *)
Lemma translate_iframe_quiet f s now :
  let '(es, _, s') := translate_iframe f s now in
  sdp_audio_emitted s' = sdp_audio_emitted s /\ count is_sdp_audio es = 0%nat.
Proof.
  unfold translate_iframe, video_frame_duration. destruct (split_annex_b _); [done|].
  set (s1 := match detected_codec s with Some _ => s | None => _ end).
  assert (sdp_audio_emitted s1 = sdp_audio_emitted s) as E by (unfold s1; by destruct (detected_codec s)).
  destruct (detected_codec s1); [|done]. destruct (decodable _ _); [done|].
  destruct (extract_iframe_parts _ _) as [ps ifr sps pps vps].
  destruct (List.filter _ _); destruct sps, pps; done.
Qed.

Lemma translate_pframe_quiet f s :
  let '(es, _, s') := translate_pframe f s in
  sdp_audio_emitted s' = sdp_audio_emitted s /\ count is_sdp_audio es = 0%nat.
Proof.
  unfold translate_pframe, video_frame_duration. destruct (detected_codec s); [|done].
  destruct (split_annex_b _); [done|]. by destruct (decodable _ _).
Qed.

Lemma translate_video_frame packet s now bridging emits pts s' :
  translate packet s now bridging = Ret (emits, pts, s') ->
  match pts with
  | None => Forall (fun e => is_video e = false) emits
  | Some p => exists pre f pace, emits = pre ++ [EmitVideo f pace]
      /\ Forall (fun e => is_video e = false) pre /\ wire_frame packet f p
  end.
Proof.
  intros H. destruct packet as [i|i|f|f|a|a]; cbn [translate] in H.
  - by simplify_eq.
  - by simplify_eq.
  - injection H as H. unfold translate_iframe in H.
    destruct (split_annex_b (if_data f)) as [|n ns] eqn:Es; [by simplify_eq|].
    destruct (detected_codec (match detected_codec s with Some _ => s | None => _ end)) as [codec|];
      [|by simplify_eq].
    destruct (decodable codec (n :: ns)) as [|d ds] eqn:Ed; [by simplify_eq|].
    assert (Forall (fun n => is_decodable_nal n codec = true) (reorder codec (d :: ds))) as Hdec.
    { rewrite <- Ed. apply reorder_forall, filter_true. }
    destruct (extract_iframe_parts codec (reorder codec (d :: ds))) as [ps ifr sps pps vps].
    destruct (List.filter _ (reorder codec (d :: ds))) as [|m ms] eqn:Em.
    { simplify_eq. apply Forall_app. split; [destruct sps, pps; by repeat constructor|by repeat constructor]. }
    destruct (video_frame_duration _ _) as [pace st]. simplify_eq.
    do 3 eexists. split; [reflexivity|].
    split; [|cbn [wire_frame]; split_and!; [done|done|done| | | |]].
    + apply Forall_app. split; [destruct sps, pps; by repeat constructor|by repeat constructor].
    + rewrite <- Em. apply filter_keeps, reorder_forall. cbn [video_bytes]. rewrite Es, <- Ed. apply filter_incl.
    + rewrite <- Em. by apply filter_keeps.
    + rewrite <- Em. destruct (reorder_split codec (d :: ds)) as (x & y & -> & Hx & Hy).
      rewrite List.filter_app. do 2 eexists. split_and!; [reflexivity| |]; by apply filter_keeps.
    + intros _. rewrite <- Em. apply filter_negb.
  - injection H as H. unfold translate_pframe in H.
    destruct (detected_codec s) as [codec|]; [|by simplify_eq].
    destruct (split_annex_b (pf_data f)) as [|n ns] eqn:Es; [by simplify_eq|].
    destruct (decodable codec (n :: ns)) as [|d ds] eqn:Ed; [by simplify_eq|].
    destruct (video_frame_duration _ _) as [pace st]. simplify_eq.
    eexists [_], _, _. split; [reflexivity|]. split; [by repeat constructor|].
    cbn [wire_frame]. split_and!; [done|done| | | | |done].
    + intros E. by apply reorder_nil in E.
    + apply reorder_forall. cbn [video_bytes]. rewrite Es, <- Ed. apply filter_incl.
    + rewrite <- Ed. apply reorder_forall, filter_true.
    + apply reorder_split.
  - pose proof (translate_aac_shape a s bridging) as Hs.
    destruct (translate_aac a s bridging) as [es st]. simplify_eq. by eapply audio_shape_no_video.
  - destruct (translate_adpcm a s bridging) as [[es st]|] eqn:Ea; [|done].
    cbn in H. simplify_eq. by eapply audio_shape_no_video, translate_adpcm_shape.
Qed.

(** [translate] returns a timestamp exactly when it
    emits a video frame, as its last emit and the only one; that frame carries
    the timestamp, ends its access unit, and is fit for the wire. *)
Theorem translate_video_wire packet s now bridging emits pts s' :
  translate packet s now bridging = Ret (emits, pts, s') ->
  match pts with
  | None => Forall (fun e => is_video e = false) emits
  | Some p => exists pre f pace, emits = pre ++ [EmitVideo f pace]
      /\ Forall (fun e => is_video e = false) pre /\ wire_frame packet f p
  end.
Proof. apply translate_video_frame. Qed.

Lemma translate_video_wire_witness : exists pre f pace,
  [EmitAppendPframe [[65; 9]]; EmitVideo (VideoFrame H264 [[65; 9]] 90 false true) 0]
  = pre ++ [EmitVideo f pace].
Proof.
  destruct (translate_video_wire (Pframe (MkPframe TypeH264 1000 [0; 0; 1; 65; 9]))
    (set_codec default_state (Some H264)) 0 false
    [EmitAppendPframe [[65; 9]]; EmitVideo (VideoFrame H264 [[65; 9]] 90 false true) 0] (Some 90)
    (set_video_pts (set_codec default_state (Some H264)) 90)) as (pre & f & pace & E & _).
  - reflexivity.
  - exists pre, f, pace. exact E.
Defined.

(** ** No panics *)

Lemma decode_block_total d block : bytes_ok block -> exists r, decode_block d block = Ret r.
Proof.
  intros Hb. unfold decode_block, decode_block_into.
  destruct block as [|b0 [|b1 [|b2 [|b3 data]]]]; try by eexists.
  destruct (_ <? 5)%nat; [by eexists|]. cbv zeta.
  assert (in_i 16 (swrap 16 (of_le_bytes [b0; b1]))) as Hp by apply swrap16_range.
  generalize dependent (swrap 16 (of_le_bytes [b0; b1])). intros p Hp.
  destruct (negb _) eqn:E; [by eexists|].
  apply negb_false_iff in E. cbn [step_index] in E. b2p. decompose_Forall_hyps.
  destruct (decode_data_samples data (MkAdpcm p b2) [swrap 16 p]) as (d' & Hd & _).
  - split; [done|]. cbn [step_index]. lia.
  - done.
  - cbn [predictor]. rewrite Hd. by eexists.
Qed.

Definition packet_bytes (m : BcMedia) : bytes :=
  match m with AdpcmMedia a => adpcm_data a | _ => [] end.

Lemma translate_adpcm_total a s bridging :
  bytes_ok (adpcm_data a) -> exists r, translate_adpcm a s bridging = Ret r.
Proof.
  intros Hb. unfold translate_adpcm.
  destruct (decode_block_total Transcode.new _ Hb) as [[r d] ->]. cbn [out_bind].
  repeat case_step; by eexists.
Qed.

(** ** Sequences of packets *)

Fixpoint translate_all (packets : list (BcMedia * Z * bool)) (s : StreamTranslatorState)
    : outcome (list Emit * StreamTranslatorState) :=
  match packets with
  | [] => Ret ([], s)
  | (p, now, bridging) :: packets =>
      let! (es, _, s) := translate p s now bridging in
      let! (es', s) := translate_all packets s in
      Ret (es ++ es', s)
  end.

(** A packet is translated without a panic, and its SDP audio emits are
    exactly the latch closing. *)
Lemma translate_sdp packet s now bridging :
  bytes_ok (packet_bytes packet) ->
  exists es pts s', translate packet s now bridging = Ret (es, pts, s')
    /\ (count is_sdp_audio es + latch s = latch s')%nat.
Proof.
  intros Hb. unfold latch. destruct packet as [i|i|f|f|a|a]; cbn [translate packet_bytes] in *.
  - by do 3 eexists.
  - by do 3 eexists.
  - pose proof (translate_iframe_quiet f s now) as H.
    destruct (translate_iframe f s now) as [[es pts] st]. do 3 eexists. split; [done|].
    by destruct H as [-> ->].
  - pose proof (translate_pframe_quiet f s) as H.
    destruct (translate_pframe f s) as [[es pts] st]. do 3 eexists. split; [done|].
    by destruct H as [-> ->].
  - pose proof (translate_aac_shape a s bridging) as H.
    destruct (translate_aac a s bridging) as [es st]. do 3 eexists. split; [done|].
    by apply audio_shape_latch.
  - destruct (translate_adpcm_total a s bridging Hb) as [[es st] E]. rewrite E. cbn.
    do 3 eexists. split; [done|]. by eapply audio_shape_latch, translate_adpcm_shape.
Qed.

(** translating any sequence of packets, in any order and
    with any bridging gate, never panics, and announces the audio track in the
    SDP at most once. *)
Theorem translate_all_sdp packets s :
  Forall (fun p => bytes_ok (packet_bytes (fst (fst p)))) packets ->
  exists es s', translate_all packets s = Ret (es, s') /\ (count is_sdp_audio es <= 1)%nat.
Proof.
  intros Hp. assert (exists es s', translate_all packets s = Ret (es, s')
    /\ (count is_sdp_audio es + latch s = latch s')%nat) as (es & s' & E & Hc).
  - revert s. induction Hp as [|[[p now] br] packets Hp Hps IH]; intros s; [by do 2 eexists|].
    cbn [translate_all]. destruct (translate_sdp p s now br Hp) as (es & pts & s1 & -> & H1).
    cbn [out_bind]. destruct (IH s1) as (es' & s2 & -> & H2). cbn [out_bind].
    do 2 eexists. split; [done|]. rewrite count_app. lia.
  - exists es, s'. split; [done|]. unfold latch in Hc. destruct (sdp_audio_emitted s'); lia.
Qed.

Lemma translate_all_sdp_witness : exists es s',
  translate_all [(AdpcmMedia (MkBcAdpcm [0; 0; 0; 0; 17; 34]), 0, false);
                 (AdpcmMedia (MkBcAdpcm [0; 0; 0; 0; 17; 34]), 1, true)] default_state = Ret (es, s').
Proof.
  destruct (translate_all_sdp [(AdpcmMedia (MkBcAdpcm [0; 0; 0; 0; 17; 34]), 0, false);
    (AdpcmMedia (MkBcAdpcm [0; 0; 0; 0; 17; 34]), 1, true)] default_state) as (es & s' & E & _).
  - repeat constructor; done.
  - exists es, s'. exact E.
Defined.

(** ** From the camera's bytes to the receiver *)

Lemma split_bytes_ok stream n : bytes_ok stream -> In n (split_annex_b stream) -> bytes_ok n.
Proof.
  intros Hs Hn. rewrite split_annex_b_scan in Hn.
  assert (forall fuel cur s, bytes_ok s -> (forall c, cur = Some c -> bytes_ok c) ->
    forall n, In n (scan fuel cur s) -> bytes_ok n) as H; [|by eapply H; [exact Hs| |exact Hn]].
  clear. assert (forall cur n, (forall c, cur = Some c -> bytes_ok c) -> In n (emit cur) -> bytes_ok n)
    as Hem.
  { intros [[|b c]|] n Hc Hn; simpl in Hn; try done. destruct Hn as [<-|[]]. by apply Hc. }
  induction fuel as [|fuel IH]; intros cur s Hs Hc n Hn.
  { eapply Hem; [|exact Hn]. intros c Ec. destruct cur; [|done]. simplify_eq/=.
    apply Forall_app. split; [by apply Hc|done]. }
  cbn [scan] in Hn. destruct s as [|a [|b [|c t]]].
  1-3: eapply Hem; [|exact Hn]; intros k Ek; destruct cur; [|done]; simplify_eq/=;
    apply Forall_app; split; [by apply Hc|done].
  decompose_Forall_hyps.
  destruct (_ && (byte_at t 0 =? 1)); [|destruct (_ && (c =? 1))].
  - apply in_app_or in Hn as [Hn|Hn]; [by eapply Hem|].
    eapply IH; [| |exact Hn]; [by apply Forall_drop|intros k [= <-]; constructor].
  - apply in_app_or in Hn as [Hn|Hn]; [by eapply Hem|].
    eapply IH; [| |exact Hn]; [done|intros k [= <-]; constructor].
  - eapply IH; [| |exact Hn]; [|intros k Ek].
    + do 2 (constructor; [done|]). done.
    + destruct cur; [|done]. simplify_eq/=. apply Forall_app. split; [by apply Hc|by constructor].
Qed.

(** C1: every video frame the translator emits can be
    packetized, and a receiver of the resulting RTP packets reassembles exactly
    the frame's NALs, all of which are NALs of the camera's packet; the H.264
    forbidden bit is taken to be clear, as in any conforming stream. *)
Theorem video_end_to_end `{B : RtpBuilder} `{!RtpBuilderLaws B}
    packet s now bridging emits pts s' c :
  translate packet s now bridging = Ret (emits, Some pts, s') -> u32 pts -> counters_ok c ->
  bytes_ok (video_bytes packet) ->
  Forall (fun n => byte_at n 0 < 128) (split_annex_b (video_bytes packet)) ->
  exists codec nals key pre pace packets fields,
    emits = pre ++ [EmitVideo (VideoFrame codec nals pts key true) pace]
    /\ dispatch (VideoFrame codec nals pts key true) c = Ret (packets, advance c (length packets))
    /\ map rtp_parse packets = map Some fields
    /\ depacketize codec None (map payload fields) = nals
    /\ Forall (fun n => In n (split_annex_b (video_bytes packet))) nals.
Proof.
  intros Ht Hp Hc Hb Hf. apply translate_video_frame in Ht as (pre & f & pace & -> & _ & Hw).
  destruct f as [codec nals p key aue|]; [|done].
  destruct Hw as (-> & -> & _ & Hin & Hdec & _).
  exists codec, nals, key, pre, pace, (emit_all 96 pts c (all_views codec true nals)),
    (imap (packet_fields 96 pts c) (all_views codec true nals)).
  split_and!; [done| |by apply emit_all_parse| |done].
  - by rewrite dispatch_video_views, emit_all_length.
  - rewrite map_payload_imap. apply depack_all_views.
    rewrite List.Forall_forall in Hin, Hdec, Hf |- *. intros n Hn. split_and!.
    + eapply split_bytes_ok; [exact Hb|by apply Hin].
    + by apply Hdec.
    + intros _. by apply Hf, Hin.
Qed.

Lemma video_end_to_end_witness : exists codec nals key pre pace,
  [EmitAppendPframe [[65; 9]]; EmitVideo (VideoFrame H264 [[65; 9]] 90 false true) 0]
  = pre ++ [EmitVideo (VideoFrame codec nals 90 key true) pace].
Proof.
  destruct (video_end_to_end (B := rtp_std) (Pframe (MkPframe TypeH264 1000 [0; 0; 1; 65; 9]))
    (set_codec default_state (Some H264)) 0 false
    [EmitAppendPframe [[65; 9]]; EmitVideo (VideoFrame H264 [[65; 9]] 90 false true) 0] 90
    (set_video_pts (set_codec default_state (Some H264)) 90) (fixed 1 2))
    as (codec & nals & key & pre & pace & packets & fields & E & _).
  - reflexivity.
  - done.
  - done.
  - by repeat constructor.
  - by repeat constructor.
  - exists codec, nals, key, pre, pace. exact E.
Defined.

(** ** The audio gate *)

Lemma filter_id {A} (f : A -> bool) l : Forall (fun x => f x = true) l -> List.filter f l = l.
Proof. induction 1 as [|x l Hx Hl IH]; simpl; [done|]. by rewrite Hx, IH. Qed.

Lemma filter_filter {A} (f : A -> bool) l : List.filter f (List.filter f l) = List.filter f l.
Proof. apply filter_id, filter_true. Qed.

Lemma filter_sublist {A} (f : A -> bool) (l : list A) : sublist (List.filter f l) l.
Proof. induction l as [|x l IH]; simpl; [done|]. destruct (f x); by constructor. Qed.

Definition not_audio (e : Emit) : bool := negb (is_audio e).

Lemma not_audio_iframe f s now : List.filter not_audio (fst (fst (translate_iframe f s now)))
  = fst (fst (translate_iframe f s now)).
Proof.
  unfold translate_iframe, video_frame_duration. destruct (split_annex_b _); [done|].
  destruct (detected_codec (match detected_codec s with Some _ => s | None => _ end)); [|done].
  destruct (decodable _ _); [done|].
  destruct (extract_iframe_parts _ _) as [ps ifr sps pps vps].
  destruct (List.filter _ (reorder _ _)); destruct sps, pps; done.
Qed.

Lemma not_audio_pframe f s : List.filter not_audio (fst (fst (translate_pframe f s)))
  = fst (fst (translate_pframe f s)).
Proof.
  unfold translate_pframe, video_frame_duration. destruct (detected_codec s); [|done].
  destruct (split_annex_b _); [done|]. by destruct (decodable _ _).
Qed.

Lemma not_audio_sdp s s' es : sdp_part s s' es -> List.filter not_audio es = es.
Proof. by intros [[-> _]|(p & -> & _)]. Qed.

(** One packet, with the gate open and with it closed. *)
Lemma translate_gate packet s now :
  bytes_ok (packet_bytes packet) ->
  exists es pts s', translate packet s now false = Ret (es, pts, s')
    /\ translate packet s now true = Ret (List.filter not_audio es, pts, s').
Proof.
  intros Hb. destruct packet as [i|i|f|f|a|a]; cbn [translate packet_bytes] in *.
  - by do 3 eexists.
  - by do 3 eexists.
  - pose proof (not_audio_iframe f s now) as H.
    destruct (translate_iframe f s now) as [[es pts] st]. do 3 eexists. split; [done|].
    simpl in H. by rewrite H.
  - pose proof (not_audio_pframe f s) as H.
    destruct (translate_pframe f s) as [[es pts] st]. do 3 eexists. split; [done|].
    simpl in H. by rewrite H.
  - unfold translate_aac. destruct (Aac.parse_adts _) as [h|]; [|by do 3 eexists].
    destruct (Aac.channels h =? 0); [by do 3 eexists|].
    destruct (if negb (sdp_audio_emitted s) then _ else _) as [es s1] eqn:E.
    assert (List.filter not_audio es = es) as Hes.
    { destruct (negb (sdp_audio_emitted s)); [destruct (Aac.build_audio_specific_config_hex _ _ _)|];
        by simplify_eq. }
    clear E. repeat case_match; simplify_eq; do 3 eexists; (split; [reflexivity|]);
      by rewrite ?List.filter_app, Hes, ?app_nil_r.
  - unfold translate_adpcm. destruct (decode_block_total Transcode.new _ Hb) as [[r d] ->].
    cbn [out_bind]. destruct r as [pcm|e]; [|by do 3 eexists].
    destruct (_ =? 0)%nat; [by do 3 eexists|]. destruct (_ =? 0)%nat; [by do 3 eexists|].
    destruct (if negb (sdp_audio_emitted s) then _ else _) as [es s1] eqn:E.
    assert (List.filter not_audio es = es) as Hes.
    { destruct (negb (sdp_audio_emitted s)); by simplify_eq. }
    cbn [out_bind]. do 3 eexists. split; [reflexivity|].
    by rewrite List.filter_app, Hes, app_nil_r.
Qed.

(** The same packets with the gate always open. *)
Definition ungated (packets : list (BcMedia * Z * bool)) : list (BcMedia * Z * bool) :=
  map (fun x => (fst x, false)) packets.

(** the bridging gate only silences audio: whatever the
    gate does while a sequence of packets is translated, the state, and with it
    every later timestamp, is the one of an open gate, and the emits are those
    of an open gate with audio frames and presence upgrades left out. *)
Theorem translate_bridging packets s :
  Forall (fun x => bytes_ok (packet_bytes (fst (fst x)))) packets ->
  exists es es' s', translate_all (ungated packets) s = Ret (es, s')
    /\ translate_all packets s = Ret (es', s')
    /\ sublist es' es /\ List.filter not_audio es' = List.filter not_audio es.
Proof.
  intros Hp. revert s. induction Hp as [|[[p now] gate] packets Hp _ IH]; intros s.
  { exists [], [], s. done. }
  cbn [ungated map translate_all fst]. destruct (translate_gate p s now Hp) as (es1 & pts & s1 & E1 & E2).
  assert (exists es2, translate p s now gate = Ret (es2, pts, s1) /\ sublist es2 es1
            /\ List.filter not_audio es2 = List.filter not_audio es1) as (es2 & E & Hsub & Hf).
  { destruct gate; [exists (List.filter not_audio es1)|by exists es1].
    split; [done|]. split; [apply filter_sublist|]. by rewrite filter_filter. }
  rewrite E1, E. cbn [out_bind]. destruct (IH s1) as (es & es' & s' & Ea & Eb & Hs & Hn).
  fold (ungated packets). rewrite Ea, Eb. cbn [out_bind]. do 3 eexists. split; [done|]. split; [done|].
  split; [by apply sublist_app|]. by rewrite !List.filter_app, Hf, Hn.
Qed.

Lemma translate_bridging_witness : exists es es' s',
  translate_all [(AdpcmMedia (MkBcAdpcm [0; 0; 0; 0; 17; 34]), 0, true)] default_state = Ret (es', s')
  /\ sublist es' es /\ length es = 3%nat.
Proof.
  destruct (translate_bridging [(AdpcmMedia (MkBcAdpcm [0; 0; 0; 0; 17; 34]), 0, true)] default_state)
    as (es & es' & s' & E0 & E & Hs & _); [by repeat constructor|].
  exists es, es', s'. split; [exact E|]. split; [exact Hs|]. injection E0 as <- _. reflexivity.
Defined.

(** ** The audio timelines *)

Definition sdp_if (s : StreamTranslatorState) (p : AudioParams) : list Emit :=
  if sdp_audio_emitted s then [] else [EmitSdpAudio p].

Definition g711_params : AudioParams := MkAudioParams G711Ulaw 0 8000 1 None.

Lemma encode_length l : length (G711.encode l) = length l.
Proof.
  unfold G711.encode, G711.encode_into. rewrite G711.fold_push. cbn [app]. apply length_map.
Qed.

Lemma decimate_length_odd a l : length (decimate_16_to_8 (a :: l)) = ((1 + length l) / 2)%nat.
Proof.
  assert (forall n l, (length l <= n)%nat -> length (decimate_16_to_8 l) = (length l / 2)%nat) as H.
  { clear. induction n as [|n IH]; intros [|a [|b l]] Hl; try done; simpl in Hl; [lia|].
    cbn [decimate_16_to_8 length]. rewrite IH by lia.
    symmetry. apply (Nat.div_add_l 1 2 (length l)). lia. }
  by rewrite (H (length (a :: l))).
Qed.

(** a well-formed ADPCM block of [n] data bytes becomes [n]
    mu-law samples: decoded, halved in rate, companded. The G.711 timestamp
    counter advances by [n] modulo 2^32, whether or not the frame is silenced by
    the bridging gate; the frame carries the counter's previous value and is
    paced at [125 * n] microseconds; the SDP parameters precede it, once. *)
Theorem adpcm_to_g711 b0 b1 b2 b3 data s bridging :
  bytes_ok (b0 :: b1 :: b2 :: b3 :: data) -> data <> [] -> b2 <= 88 -> len data < 2 ^ 32 ->
  let p := swrap 16 (of_le_bytes [b0; b1]) in
  let u := G711.encode (decimate_16_to_8 (p :: samples (MkAdpcm p b2) (nibbles data))) in
  len u = len data /\
  translate_adpcm (MkBcAdpcm (b0 :: b1 :: b2 :: b3 :: data)) s bridging
  = Ret (sdp_if s g711_params
         ++ (if bridging then []
             else [EmitAudio (AudioFrame (G711Payload u) (g711_pts_next s)) (125 * len data);
                   AudioSeen G711Ulaw]),
         MkState (detected_codec s) (aac_pts_next s) (wrap 32 (g711_pts_next s + len data))
           (aac_aot s) (last_video_pts_90khz s) true).
Proof.
  intros Hb Hne Hi Hl p u.
  assert (len u = len data) as Hu.
  { unfold u, len. rewrite encode_length, decimate_length_odd, samples_length, nibbles_length.
    f_equal. rewrite (Nat.mul_comm 2). rewrite Nat.add_comm, Nat.div_add_l by lia. simpl. lia. }
  split; [done|]. unfold translate_adpcm, decode_block, decode_block_into. cbn [adpcm_data]. cbv zeta.
  fold p. assert (in_i 16 p) as Hp by apply swrap16_range.
  assert ((length (b0 :: b1 :: b2 :: b3 :: data) <? 5)%nat = false) as ->
    by (apply Nat.ltb_ge; destruct data; [done|simpl; lia]).
  cbn [step_index predictor].
  destruct (decode_data_samples data (MkAdpcm p b2) [swrap 16 p]) as (d' & Hd & _).
  { split; [done|]. cbn [step_index]. split; [|done]. clear -Hb. decompose_Forall_hyps. int_lia. }
  { clear -Hb. by decompose_Forall_hyps. }
  assert ((0 <=? b2) = true) as -> by (apply Z.leb_le; clear -Hb; decompose_Forall_hyps; int_lia).
  assert ((b2 <=? 88) = true) as -> by by apply Z.leb_le.
  cbn [andb negb]. rewrite Hd. cbn [out_bind app]. rewrite swrap16_small by done. fold u.
  cbn [length Nat.eqb].
  assert (0 < len data) by (unfold len; destruct data; [done|simpl; lia]).
  assert ((length (decimate_16_to_8 (p :: samples (MkAdpcm p b2) (nibbles data))) =? 0)%nat = false) as ->.
  { apply Nat.eqb_neq. unfold u, len in Hu. rewrite encode_length in Hu. unfold len in *. lia. }
  rewrite Hu. rewrite (wrap_small 32 (len data)) by (split; lia).
  assert (paced_audio_duration (len data) 8000 = 125 * len data) as ->.
  { unfold paced_audio_duration. cbn [Z.eqb]. rewrite Z.min_r by int_lia.
    replace (len data * 1000000) with (125 * len data * 8000) by lia. apply Z.div_mul. lia. }
  unfold sdp_if. destruct s as [? ? ? ? ? []], bridging; done.
Qed.

Lemma adpcm_to_g711_witness :
  len (G711.encode (decimate_16_to_8 (swrap 16 (of_le_bytes [4; 0])
    :: samples (MkAdpcm (swrap 16 (of_le_bytes [4; 0])) 7) (nibbles [17; 34])))) = len [17; 34].
Proof.
  apply (adpcm_to_g711 4 0 7 0 [17; 34] default_state false); [|done|done|done].
  repeat constructor; done.
Defined.

(** a complete single ADTS packet of AAC-LC is forwarded without
    its header; the timestamp is the counter's value, and the counter advances
    by 1024 per contained frame modulo 2^32, silenced or not. *)
Theorem aac_frame data h s bridging :
  bytes_ok data -> Aac.parse_adts data = Some h -> Aac.aot h = 2 -> Aac.channels h <> 0 ->
  Aac.frame_length h = len data -> 7 < len data ->
  exists es s', translate_aac (MkAac data) s bridging
  = (es ++ (if bridging then []
       else [EmitAudio (AudioFrame (AacPayload (drop 7 data) (Aac.sample_rate h) (Aac.channels h))
                 (aac_pts_next s))
               (paced_audio_duration (1024 * Aac.aac_frames h) (Aac.sample_rate h));
             AudioSeen Nal.Aac]), s')
  /\ aac_pts_next s' = wrap 32 (aac_pts_next s + 1024 * Aac.aac_frames h)
  /\ sdp_audio_emitted s' = true
  /\ exists asc, Aac.parse_asc_hex asc = Some (2, Aac.sample_rate h, Aac.channels h)
     /\ es = sdp_if s (MkAudioParams Nal.Aac 97 (Aac.sample_rate h) (Aac.channels h) (Some asc)).
Proof.
  intros Hb Hh Ha Hc Hf Hl. pose proof (Aac.parse_adts_ok _ _ Hb Hh) as (_ & Hch & _ & Hfr & [i Hi]).
  assert (Aac.asc_triple_ok (Aac.aot h) (Aac.channels h) (Aac.sample_rate h) = true) as Hok
    by (eapply Aac.asc_triple; [lia|lia|done]).
  unfold Aac.asc_triple_ok in Hok. rewrite Ha in Hok.
  destruct (Aac.build_audio_specific_config_hex 2 _ _) as [asc|] eqn:Easc; [|done].
  destruct (Aac.parse_asc_hex asc) as [[[a' r'] c']|] eqn:Epa; [|done]. b2p. subst.
  unfold translate_aac. cbn [aac_data]. rewrite Hh, Ha, Easc.
  destruct (Z.eqb_spec (Aac.channels h) 0); [done|]. rewrite Hf.
  assert ((len data <? Aac.ADTS_HEADER_LEN) = false) as Hlt
    by (apply Z.ltb_ge; unfold Aac.ADTS_HEADER_LEN; lia).
  rewrite Hlt. cbn [orb]. change (Z.to_nat Aac.ADTS_HEADER_LEN) with 7%nat.
  assert (len (drop 7 data) = len data - 7) as Hd by (unfold len in *; rewrite length_drop; lia).
  assert (Z.min (sat_sub (len data) Aac.ADTS_HEADER_LEN) (len (drop 7 data)) = len (drop 7 data)) as ->
    by (unfold sat_sub, Aac.ADTS_HEADER_LEN; lia).
  assert ((len (drop 7 data) =? 0) = false) as -> by (apply Z.eqb_neq; lia).
  assert (take (Z.to_nat (len (drop 7 data))) (drop 7 data) = drop 7 data) as ->
    by (apply take_ge; unfold len; lia).
  change (aac_samples_per_au 2) with (Some 1024). cbn iota.
  rewrite Z.min_r by int_lia. unfold sdp_if.
  destruct s as [dc ap gp aot lv sd]. cbn [sdp_audio_emitted aac_pts_next aac_aot negb].
  destruct sd; cbn [negb set_sdp_audio aac_aot];
    destruct (bool_decide (aot = Some 2)); destruct bridging;
    (do 2 eexists; split; [rewrite ?app_nil_r; reflexivity|];
     split; [reflexivity|]; split; [reflexivity|]; exists asc; by split).
Qed.

Lemma aac_frame_witness : exists es s',
  translate_aac (MkAac [255; 241; 96; 64; 1; 63; 252; 33; 7]) default_state true = (es, s').
Proof.
  destruct (aac_frame [255; 241; 96; 64; 1; 63; 252; 33; 7] (Aac.MkAdtsHeader 2 16000 1 9 1)
    default_state true) as (es & s' & E & _); [by repeat constructor|done|done|done|done|done|].
  eexists _, _. exact E.
Defined.

(** the 90 kHz timestamp is [micros * 9 / 100] of the camera's
    32-bit microsecond clock, so it never exceeds 386547056: when that clock
    wraps (every 71.6 minutes) the RTP timeline jumps back, to a receiver a step
    of more than half the timestamp space. *)
Theorem pts_jumps_back m :
  u32 m ->
  micros_to_90khz m = m * 9 / 100 /\ micros_to_90khz m <= 386547056
  /\ 2 ^ 31 < wrap 32 (micros_to_90khz (wrap 32 (u32_max + 1)) - micros_to_90khz u32_max).
Proof.
  intros Hm. assert (micros_to_90khz m = m * 9 / 100) as ->.
  { unfold micros_to_90khz. rewrite (wrap_small 64) by int_lia. apply wrap_small.
    split; [apply Z.div_pos; int_lia|apply Z.div_lt_upper_bound; int_lia]. }
  split; [done|]. split; [|by vm_compute].
  apply Z.lt_succ_r. apply Z.div_lt_upper_bound; [lia|]. int_lia.
Qed.

Lemma pts_jumps_back_witness : micros_to_90khz 1000 = 1000 * 9 / 100.
Proof. apply (pts_jumps_back 1000). split; vm_compute; done. Defined.
