(* ===== verification/XorCrypto.v ===== *)
(** * The XOR ciphers of the Baichuan protocol
    ([src/baichuan/bcudp/xml_crypto.rs], [src/baichuan/bc/crypto.rs])

    Both ciphers xor the buffer with a cycled key; AES-128-CFB comes from the
    [aes] and [cfb-mode] packages and is an interface, [Aes128Cfb]. *)

From S2P Require Import Prelude.

(** ** UDP discovery payloads ([xml_crypto.rs]) *)

Module XmlCrypto.

Definition XML_KEY : list Z :=
  [0x1f2d3c4b; 0x5a6c7f8d; 0x38172e4b; 0x8271635a; 0x863f1a2b; 0xa5c6f7d8; 0x8371e1b4; 0x17f2d3a5].

(** [XML_KEY.iter().flat_map(..)], before [cycle]. *)
Definition key_bytes (offset : Z) : bytes :=
  concat (map (fun i => to_le_bytes 4 (wrap 32 (i + offset))) XML_KEY).

Definition decrypt (offset : Z) (buf : bytes) : bytes :=
  let key := key_bytes offset in
  imap (fun i byte => Z.lxor (default 0 (key !! (i mod 32)%nat)) byte) buf.

Definition encrypt (offset : Z) (buf : bytes) : bytes := decrypt offset buf.

End XmlCrypto.

(** ** Message bodies ([bc/crypto.rs]) *)

(** [md5::compute]: the 16 digest bytes. *)
Class Md5 := { md5 : bytes -> bytes }.

Definition md5_toy : Md5 := {| md5 b := replicate 16 (of_le_bytes b mod 256) |}.

Class Aes128Cfb := {
  AesKey : Type;
  aes_new : bytes -> bytes -> AesKey;
  aes_encrypt : AesKey -> bytes -> bytes;
  aes_decrypt : AesKey -> bytes -> bytes
}.

(** CFB with the same key and IV inverts itself; it is a stream mode. *)
Class Aes128CfbLaws (A : Aes128Cfb) : Prop := {
  aes_decrypt_encrypt k b : bytes_ok b -> aes_decrypt k (aes_encrypt k b) = b;
  aes_encrypt_length k b : length (aes_encrypt k b) = length b;
  aes_encrypt_ok k b : bytes_ok b -> bytes_ok (aes_encrypt k b)
}.

(** A keyed xor stands in for AES in the examples. *)
Definition aes_toy : Aes128Cfb := {|
  AesKey := Z;
  aes_new key iv := Z.land (of_le_bytes (take 1 key) + of_le_bytes (take 1 iv)) 255;
  aes_encrypt k := map (Z.lxor (Z.land k 255));
  aes_decrypt k := map (Z.lxor (Z.land k 255))
|}.

Section protocol.
Context `{A : Aes128Cfb}.

Definition XML_KEY : bytes := [0x1F; 0x2D; 0x3C; 0x4B; 0x5A; 0x69; 0x78; 0xFF].

(** ["0123456789abcdef"]. *)
Definition IV : bytes := [48; 49; 50; 51; 52; 53; 54; 55; 56; 57; 97; 98; 99; 100; 101; 102].

(** The encryptor and the decryptor are made from the same key and IV. *)
Inductive EncryptionProtocol :=
| Unencrypted
| BCEncrypt
| Aes (key : AesKey)
| FullAes (key : AesKey).

Definition unencrypted : EncryptionProtocol := Unencrypted.
Definition bcencrypt : EncryptionProtocol := BCEncrypt.
Definition aes (key : bytes) : EncryptionProtocol := Aes (aes_new key IV).
Definition full_aes (key : bytes) : EncryptionProtocol := FullAes (aes_new key IV).
Definition full_aes_with_iv (key iv : bytes) : EncryptionProtocol := FullAes (aes_new key iv).

Definition decrypt (p : EncryptionProtocol) (offset : Z) (buf : bytes) : bytes :=
  match p with
  | Unencrypted => buf
  | BCEncrypt =>
      imap (fun i b =>
        let key := default 0 (XML_KEY !! ((i + Z.to_nat (offset mod 8)) mod 8)%nat) in
        Z.lxor (Z.lxor b key) (wrap 8 offset)) buf
  | Aes k | FullAes k => aes_decrypt k buf
  end.

Definition encrypt (p : EncryptionProtocol) (offset : Z) (buf : bytes) : bytes :=
  match p with
  | Unencrypted => decrypt p offset buf
  | BCEncrypt => decrypt p offset buf
  | Aes k | FullAes k => aes_encrypt k buf
  end.
End protocol.

(** ** Lemmas *)

Lemma u8_spec x : u8 x <-> 0 <= x /\ Z.land x 255 = x.
Proof.
  change 255 with (Z.ones 8). rewrite Z.land_ones by lia. split.
  - intros H. split; [int_lia|]. by apply Z.mod_small.
  - intros [H1 H2]. unfold in_u. rewrite <- H2. apply Z.mod_pos_bound. lia.
Qed.

Lemma land_lxor a b c : Z.land (Z.lxor a b) c = Z.lxor (Z.land a c) (Z.land b c).
Proof.
  apply Z.bits_inj'. intros n _. rewrite Z.lxor_spec, !Z.land_spec, Z.lxor_spec.
  by destruct (Z.testbit a n), (Z.testbit b n), (Z.testbit c n).
Qed.

Lemma lxor_u8 a b : u8 a -> u8 b -> u8 (Z.lxor a b).
Proof.
  rewrite !u8_spec. intros [H1 H2] [H3 H4]. split; [by apply Z.lxor_nonneg; lia|].
  by rewrite land_lxor, H2, H4.
Qed.

Lemma lxor_twice a b : Z.lxor a (Z.lxor a b) = b.
Proof. by rewrite <- Z.lxor_assoc, Z.lxor_nilpotent, Z.lxor_0_l. Qed.

Lemma imap_imap_id {A} (f : nat -> A -> A) l :
  (forall i x, f i (f i x) = x) -> imap f (imap f l) = l.
Proof.
  intros H. apply list_eq. intros i. rewrite !list_lookup_imap.
  destruct (l !! i); simpl; [by rewrite H|done].
Qed.

Lemma imap_forall {A B} (P : A -> Prop) (Q : B -> Prop) (f : nat -> A -> B) l :
  (forall i x, P x -> Q (f i x)) -> Forall P l -> Forall Q (imap f l).
Proof.
  intros H Hl. apply Forall_lookup. intros i y Hy. rewrite list_lookup_imap in Hy.
  destruct (l !! i) as [x|] eqn:E; [|done]. injection Hy as <-. apply H.
  rewrite Forall_lookup in Hl. by eapply Hl.
Qed.

Lemma default_forall {A} (P : A -> Prop) (d : A) l i : P d -> Forall P l -> P (default d (l !! i)).
Proof.
  intros Hd Hl. destruct (l !! i) as [x|] eqn:E; [|done]. rewrite Forall_lookup in Hl. by eapply Hl.
Qed.

Lemma xml_encrypt_length o b : length (XmlCrypto.encrypt o b) = length b.
Proof. apply length_imap. Qed.

Lemma xml_decrypt_encrypt o b : XmlCrypto.decrypt o (XmlCrypto.encrypt o b) = b.
Proof. apply imap_imap_id. intros i x. apply lxor_twice. Qed.

Lemma xml_encrypt_ok o b : bytes_ok b -> bytes_ok (XmlCrypto.encrypt o b).
Proof.
  apply imap_forall. intros i x Hx. apply lxor_u8; [|done]. apply default_forall; [done|].
  unfold XmlCrypto.key_bytes. apply Forall_concat, Forall_map, List.Forall_forall.
  intros k _. apply to_le_bytes_ok.
Qed.

#[export] Instance aes_toy_laws : Aes128CfbLaws aes_toy.
Proof.
  split.
  - intros k b _. simpl. rewrite map_map. rewrite <- (map_id b) at 2. apply map_ext.
    intros x. apply lxor_twice.
  - intros k b. apply length_map.
  - intros k b Hb. simpl. apply Forall_map. eapply Forall_impl; [|exact Hb].
    intros x Hx. apply lxor_u8; [|done].
    pose proof (land_bound k 8 255 ltac:(lia) eq_refl). done.
Qed.

Section protocol_laws.
Context `{A : Aes128Cfb} `{!Aes128CfbLaws A}.

Lemma encrypt_length p o b : length (encrypt p o b) = length b.
Proof. destruct p; simpl; [done|apply length_imap|apply aes_encrypt_length..]. Qed.

Lemma decrypt_encrypt p o b : bytes_ok b -> decrypt p o (encrypt p o b) = b.
Proof.
  intros Hb. destruct p; simpl; [done| |by apply aes_decrypt_encrypt..].
  apply imap_imap_id. intros i x.
  set (k := default 0 _). rewrite (Z.lxor_assoc _ k), (Z.lxor_assoc x).
  rewrite Z.lxor_assoc, Z.lxor_nilpotent. apply Z.lxor_0_r.
Qed.

Lemma encrypt_ok p o b : bytes_ok b -> bytes_ok (encrypt p o b).
Proof.
  intros Hb. destruct p; simpl; [done| |by apply aes_encrypt_ok..].
  revert Hb. apply imap_forall. intros i x Hx.
  apply lxor_u8; [apply lxor_u8; [done|]|apply wrap_range; lia].
  apply default_forall; [done|]. repeat constructor; vm_compute; done.
Qed.
End protocol_laws.
