(* ===== verification/BcUdp.v ===== *)
(** * The BcUdp datagram format ([src/baichuan/bcudp])

    The model, the parser ([De]), the serializer ([Ser]) and the codec. The
    discovery payload's XML is read and written by [quick_xml]: [UdpXmlCodec]
    is its interface, with the two variants the codec looks at. The CRC-32 of
    [crc32fast] is the interface [Crc32], with [crc32_std] an instance. *)

From S2P Require Import Prelude Wire XorCrypto.

Class Crc32 := {
  (** [Hasher::new_with_initial(init)], [update(payload)], [finalize()]. *)
  crc32_hash : Z -> bytes -> Z
}.

Class Crc32Laws (C : Crc32) : Prop := {
  crc32_u32 init b : u32 init -> bytes_ok b -> u32 (crc32_hash init b)
}.

(** What the codec asks of a discovery payload. *)
Inductive UdpXmlKind := R2cDisc | D2cDisc | OtherXml.

Class UdpXmlCodec := {
  UdpXml : Type;
  xml_try_parse : bytes -> option UdpXml;
  xml_serialize : UdpXml -> option bytes;
  xml_kind : UdpXml -> UdpXmlKind
}.

Class UdpXmlLaws (X : UdpXmlCodec) : Prop := {
  xml_serialize_ok x b : xml_serialize x = Some b -> bytes_ok b;
  xml_parse_serialize x b : xml_serialize x = Some b -> xml_try_parse b = Some x
}.

(** The reflected CRC-32, bit by bit. *)
Fixpoint crc_bits (n : nat) (c : Z) : Z :=
  match n with
  | O => c
  | S n => crc_bits n (if Z.odd c then Z.lxor (Z.shiftr c 1) 0xEDB88320 else Z.shiftr c 1)
  end.

Definition crc32_std : Crc32 := {|
  crc32_hash init b :=
    wrap 32 (Z.lxor (fold_left (fun c x => crc_bits 8 (Z.lxor c x)) b (Z.lxor init u32_max)) u32_max)
|}.

#[export] Instance crc32_std_laws : Crc32Laws crc32_std.
Proof. split. intros. by apply wrap_range. Qed.

(** The payload as its own text. *)
Definition xml_toy : UdpXmlCodec := {|
  UdpXml := list Byte.byte;
  xml_try_parse b := mapM (fun z => Byte.of_N (Z.to_N z)) b;
  xml_serialize x := Some (map (fun c => Z.of_N (Byte.to_N c)) x);
  xml_kind x := OtherXml
|}.

#[export] Instance xml_toy_laws : UdpXmlLaws xml_toy.
Proof.
  split; intros x b [= <-].
  - apply Forall_map, List.Forall_forall. intros c _. pose proof (Byte.to_N_bounded c). int_lia.
  - simpl. induction x as [|c x IH]; [done|]. cbn [map mapM].
    rewrite N2Z.id, Byte.of_to_N. simpl. by rewrite IH.
Qed.

Definition MAX_BCUDP_PAYLOAD : Z := 65535.
Definition MAGIC_HEADER_UDP_NEGO : Z := 0x2a87cf3a.
Definition MAGIC_HEADER_UDP_ACK : Z := 0x2a87cf20.
Definition MAGIC_HEADER_UDP_DATA : Z := 0x2a87cf10.

Record UdpAck := MkUdpAck {
  ack_connection_id : Z;
  ack_group_id : Z;
  ack_packet_id : Z;
  ack_maybe_latency : Z;
  ack_payload : bytes
}.

(** [UdpAck::empty]. *)
Definition empty_ack (connection_id : Z) : UdpAck :=
  MkUdpAck connection_id 0xffffffff 0xffffffff 0 [].

Record UdpData := MkUdpData {
  data_connection_id : Z;
  data_packet_id : Z;
  data_payload : bytes
}.

Section model.
Context `{X : UdpXmlCodec} `{K : Crc32}.

Record UdpDiscovery := MkUdpDiscovery { disc_tid : Z; disc_payload : UdpXml }.

Inductive BcUdp :=
| Discovery (d : UdpDiscovery)
| Ack (a : UdpAck)
| Data (d : UdpData).

Definition get_connection_id (p : BcUdp) : Z :=
  match p with
  | Discovery _ => 0
  | Ack data => ack_connection_id data
  | Data data => data_connection_id data
  end.

(** [crc.rs]: initial value and final xor undone. *)
Definition calc_crc (payload : bytes) : Z := Z.lxor (crc32_hash 0xffffffff payload) 0xffffffff.

(** ** The parser ([de.rs]) *)

Section de.
Context `{N : Nom}.

Definition udp_disc (buf : bytes) : IResult UdpDiscovery :=
  let? (buf, payload_size) := verify le_u32 (fun n => n <=? MAX_BCUDP_PAYLOAD) buf in
  let? (buf, _) := verify le_u32 (fun x => x =? 1) buf in
  let? (buf, tid) := le_u32 buf in
  let? (buf, checksum) := le_u32 buf in
  let? (buf, enc_data) := nom_take payload_size buf in
  if negb (checksum =? calc_crc enc_data) then Err NomFailure
  else
    match xml_try_parse (XmlCrypto.decrypt tid enc_data) with
    | None => Err NomErr
    | Some payload => Ok (buf, MkUdpDiscovery tid payload)
    end.

Definition udp_ack (buf : bytes) : IResult UdpAck :=
  let? (buf, connection_id) := le_i32 buf in
  let? (buf, _) := verify le_u32 (fun x => x =? 0) buf in
  let? (buf, group_id) := verify le_u32 (fun x => (x =? 0) || (x =? 0xffffffff)) buf in
  let? (buf, packet_id) := le_u32 buf in
  let? (buf, maybe_latency) := le_u32 buf in
  let? (buf, payload_size) := verify le_u32 (fun n => n <=? MAX_BCUDP_PAYLOAD) buf in
  let? (buf, payload) :=
    if 0 <? payload_size then nom_take payload_size buf else Ok (buf, []) in
  Ok (buf, MkUdpAck connection_id group_id packet_id maybe_latency payload).

Definition udp_data (buf : bytes) : IResult UdpData :=
  let? (buf, connection_id) := le_i32 buf in
  let? (buf, _) := verify le_u32 (fun x => x =? 0) buf in
  let? (buf, packet_id) := le_u32 buf in
  let? (buf, payload_size) := verify le_u32 (fun n => n <=? MAX_BCUDP_PAYLOAD) buf in
  let? (buf, payload) := nom_take payload_size buf in
  Ok (buf, MkUdpData connection_id packet_id payload).

Definition is_udp_magic (x : Z) : bool :=
  (x =? MAGIC_HEADER_UDP_NEGO) || (x =? MAGIC_HEADER_UDP_ACK) || (x =? MAGIC_HEADER_UDP_DATA).

Definition bcudp_body (magic : Z) (buf : bytes) : IResult BcUdp :=
  if magic =? MAGIC_HEADER_UDP_NEGO then
    let? (buf, payload) := udp_disc buf in Ok (buf, Discovery payload)
  else if magic =? MAGIC_HEADER_UDP_ACK then
    let? (buf, payload) := udp_ack buf in Ok (buf, Ack payload)
  else if magic =? MAGIC_HEADER_UDP_DATA then
    let? (buf, payload) := udp_data buf in Ok (buf, Data payload)
  else Err NomFailure.

Definition bcudp (buf : bytes) : IResult BcUdp :=
  let? (buf, magic) := verify le_u32 is_udp_magic buf in
  bcudp_body magic buf.

Definition deserialize (buf : bytes) : result BcUdp Error * bytes :=
  match consumed bcudp buf with
  | Ok (_, (parsed_buff, result)) => (Ok result, drop (length parsed_buff) buf)
  | Err e => (Err (nom_error e), buf)
  end.

(** ** The codec ([codex.rs]); [RelayTerminate] and [CameraTerminate] are
    the errors of the two disconnect messages. *)

Definition codex_decode (src : bytes) : result (option BcUdp) Error * bytes :=
  if (length src =? 0)%nat then (Ok None, src)
  else
    match deserialize src with
    | (Ok (Discovery d as bc), src) =>
        match xml_kind (disc_payload d) with
        | R2cDisc => (Err (OtherError "Relay terminated the connection"), src)
        | D2cDisc => (Err (OtherError "Camera terminated the connection"), src)
        | OtherXml => (Ok (Some bc), src)
        end
    | (Ok bc, src) => (Ok (Some bc), src)
    | (Err NomIncomplete, src) => (Ok None, src)
    | (Err e, src) => (Err e, src)
    end.
End de.

(** ** The serializer ([ser.rs]) *)

Section ser.
Context `{C : CookieFactory}.

(** [u32::try_from(len)]. *)
Definition len_as_u32 (n : Z) : result Z Error := if n <=? u32_max then Ok n else Err GenError.

Definition bcudp_disc (payload : UdpDiscovery) (xml_payload : bytes) (xml_len : Z) : SerializeFn :=
  let checksum := calc_crc xml_payload in
  cf_tuple [cf_le_u32 MAGIC_HEADER_UDP_NEGO; cf_le_u32 xml_len; cf_le_u32 1;
    cf_le_u32 (disc_tid payload); cf_le_u32 checksum; cf_slice xml_payload].

Definition bcudp_ack (payload : UdpAck) (binary_payload : bytes) (bin_len : Z) : SerializeFn :=
  cf_tuple [cf_le_u32 MAGIC_HEADER_UDP_ACK; cf_le_i32 (ack_connection_id payload); cf_le_u32 0;
    cf_le_u32 (ack_group_id payload); cf_le_u32 (ack_packet_id payload);
    cf_le_u32 (ack_maybe_latency payload); cf_le_u32 bin_len; cf_slice binary_payload].

Definition bcudp_data (payload : UdpData) (binary_payload : bytes) (bin_len : Z) : SerializeFn :=
  cf_tuple [cf_le_u32 MAGIC_HEADER_UDP_DATA; cf_le_i32 (data_connection_id payload); cf_le_u32 0;
    cf_le_u32 (data_packet_id payload); cf_le_u32 bin_len; cf_slice binary_payload].

Definition serialize (p : BcUdp) (buf : bytes) : result bytes Error :=
  match p with
  | Discovery payload =>
      match xml_serialize (disc_payload payload) with
      | None => Err GenError
      | Some xml_bytes =>
          let xml_payload := XmlCrypto.encrypt (disc_tid payload) xml_bytes in
          let? xml_len := len_as_u32 (len xml_payload) in
          cf_gen (bcudp_disc payload xml_payload xml_len) buf
      end
  | Ack payload =>
      let binary_payload := ack_payload payload in
      let? bin_len := len_as_u32 (len binary_payload) in
      cf_gen (bcudp_ack payload binary_payload bin_len) buf
  | Data payload =>
      let binary_payload := data_payload payload in
      let? bin_len := len_as_u32 (len binary_payload) in
      cf_gen (bcudp_data payload binary_payload bin_len) buf
  end.

Definition codex_encode (item : BcUdp) (dst : bytes) : result bytes Error :=
  let? buf := serialize item [] in Ok (dst ++ buf).
End ser.
End model.

(** ** Round trip *)

Section roundtrip.
Context `{X : UdpXmlCodec} `{!UdpXmlLaws X} `{K : Crc32} `{!Crc32Laws K}.
Context `{N : Nom} `{!NomLaws N} `{C : CookieFactory} `{!CookieFactoryLaws C}.

(** Field ranges, and a payload within the receiver's cap. *)
Definition udp_ok (p : BcUdp) : Prop :=
  match p with
  | Discovery d => u32 (disc_tid d)
      /\ exists b, xml_serialize (disc_payload d) = Some b /\ len b <= MAX_BCUDP_PAYLOAD
  | Ack a => in_i 32 (ack_connection_id a) /\ (ack_group_id a = 0 \/ ack_group_id a = 0xffffffff)
      /\ u32 (ack_packet_id a) /\ u32 (ack_maybe_latency a)
      /\ len (ack_payload a) <= MAX_BCUDP_PAYLOAD
  | Data d => in_i 32 (data_connection_id d) /\ u32 (data_packet_id d)
      /\ len (data_payload d) <= MAX_BCUDP_PAYLOAD
  end.

Lemma crc_ok b : bytes_ok b -> u32 (calc_crc b).
Proof.
  intros Hb. unfold calc_crc. pose proof (crc32_u32 0xffffffff b ltac:(done) Hb) as H.
  set (h := crc32_hash _ _) in *. clearbody h.
  assert (forall x, u32 x <-> 0 <= x /\ Z.land x (Z.ones 32) = x) as S.
  { intros x. rewrite Z.land_ones by lia. split.
    - intros Hx. split; [int_lia|by apply Z.mod_small].
    - intros [? E]. unfold in_u. rewrite <- E. apply Z.mod_pos_bound. lia. }
  apply S in H as [H1 H2]. apply S. split; [by apply Z.lxor_nonneg; lia|].
  by rewrite land_lxor, H2.
Qed.

Lemma len_cap n : 0 <= n <= MAX_BCUDP_PAYLOAD -> u32 n /\ (n <=? MAX_BCUDP_PAYLOAD) = true /\ len_as_u32 n = Ok n.
Proof.
  unfold MAX_BCUDP_PAYLOAD, len_as_u32. intros Hn.
  split; [int_lia|split; [apply Z.leb_le; lia|]].
  destruct (Z.leb_spec n u32_max) as [|H]; [done|]. int_lia.
Qed.

Lemma reads_udp_magic {A} magic (p : parser A) (f : A -> BcUdp) e x :
  u32 magic -> is_udp_magic magic = true ->
  (forall buf, bcudp_body magic buf = let? (buf, v) := p buf in Ok (buf, f v)) ->
  reads p e x -> reads bcudp (to_le_bytes 4 magic ++ e) (f x).
Proof.
  intros Hm Hi E Hp. unfold bcudp. reads_next; [done|done|].
  eapply reads_ext; [intros b; symmetry; apply E|]. by apply reads_bind_ret.
Qed.

(** Serializing succeeds, and the parser reads the packet back. *)
Lemma serialize_reads p :
  udp_ok p -> exists e, serialize p [] = Ok e /\ reads bcudp e p.
Proof.
  intros Hp. assert (exists e, writes (serialize p) e /\ reads bcudp e p) as (e & Hw & Hr);
    [|exists e; split; [by rewrite Hw|done]].
  destruct p as [[tid x]|[cid g pid lat pl]|[cid pid pl]]; simpl in Hp.
  - destruct Hp as (Ht & b & Hb & Hl). pose proof (xml_serialize_ok _ _ Hb) as Hbok.
    set (enc := XmlCrypto.encrypt tid b).
    assert (len enc = len b) as El by (unfold enc, len; by rewrite xml_encrypt_length).
    destruct (len_cap (len b)) as (Hu & Hc & Ha); [pose proof (len_nonneg b); lia|].
    exists (to_le_bytes 4 MAGIC_HEADER_UDP_NEGO ++ to_le_bytes 4 (len enc) ++ to_le_bytes 4 1
      ++ to_le_bytes 4 tid ++ to_le_bytes 4 (calc_crc enc) ++ enc). split.
    + intros buf. cbn [serialize disc_payload disc_tid]. rewrite Hb. cbv zeta. fold enc.
      rewrite El, Ha. cbn [res_bind]. revert buf.
      change (writes (cf_gen (bcudp_disc (MkUdpDiscovery tid x) enc (len b)))
        (to_le_bytes 4 MAGIC_HEADER_UDP_NEGO ++ to_le_bytes 4 (len b) ++ to_le_bytes 4 1
         ++ to_le_bytes 4 tid ++ to_le_bytes 4 (calc_crc enc) ++ enc)).
      unfold bcudp_disc. cbn [disc_tid]. wire_eq.
    + apply (reads_udp_magic _ udp_disc Discovery); [done|done|done|]. unfold udp_disc.
      rewrite El. reads_next; [done|done|]. reads_next; [done|done|]. reads_next; [done|].
      reads_next; [apply crc_ok, xml_encrypt_ok; done|].
      reads_end; [done|]. rewrite Z.eqb_refl. cbn [negb].
      unfold enc. rewrite xml_decrypt_encrypt, (xml_parse_serialize _ _ Hb). apply reads_ret.
  - destruct Hp as (Hi & Hg & Hpid & Hlat & Hl).
    destruct (len_cap (len pl)) as (Hu & Hc & Ha); [pose proof (len_nonneg pl); lia|].
    exists (to_le_bytes 4 MAGIC_HEADER_UDP_ACK ++ to_le_bytes 4 cid ++ to_le_bytes 4 0
      ++ to_le_bytes 4 g ++ to_le_bytes 4 pid ++ to_le_bytes 4 lat ++ to_le_bytes 4 (len pl) ++ pl).
    split.
    + eapply writes_ext; [intros buf; cbn [serialize ack_payload]; rewrite Ha; reflexivity|].
      change (writes (cf_gen (bcudp_ack (MkUdpAck cid g pid lat pl) pl (len pl)))
        (to_le_bytes 4 MAGIC_HEADER_UDP_ACK ++ to_le_bytes 4 cid ++ to_le_bytes 4 0
         ++ to_le_bytes 4 g ++ to_le_bytes 4 pid ++ to_le_bytes 4 lat ++ to_le_bytes 4 (len pl) ++ pl)).
      unfold bcudp_ack. wire_eq.
    + apply (reads_udp_magic _ udp_ack Ack); [done|done|done|]. unfold udp_ack.
      reads_next; [done|]. reads_next; [done|done|].
      reads_next; [destruct Hg as [->| ->]; done|destruct Hg as [->| ->]; done|].
      reads_next; [done|]. reads_next; [done|]. reads_next; [done|done|].
      eapply reads_last; [|cbv beta iota; apply reads_ret].
      destruct (Z.ltb_spec 0 (len pl)); [by apply reads_take|].
      assert (pl = []) as -> by (destruct pl; [done|unfold len in *; simpl in *; lia]).
      apply reads_ret.
  - destruct Hp as (Hi & Hpid & Hl).
    destruct (len_cap (len pl)) as (Hu & Hc & Ha); [pose proof (len_nonneg pl); lia|].
    exists (to_le_bytes 4 MAGIC_HEADER_UDP_DATA ++ to_le_bytes 4 cid ++ to_le_bytes 4 0
      ++ to_le_bytes 4 pid ++ to_le_bytes 4 (len pl) ++ pl). split.
    + eapply writes_ext; [intros buf; cbn [serialize data_payload]; rewrite Ha; reflexivity|].
      change (writes (cf_gen (bcudp_data (MkUdpData cid pid pl) pl (len pl)))
        (to_le_bytes 4 MAGIC_HEADER_UDP_DATA ++ to_le_bytes 4 cid ++ to_le_bytes 4 0
         ++ to_le_bytes 4 pid ++ to_le_bytes 4 (len pl) ++ pl)).
      unfold bcudp_data. wire_eq.
    + apply (reads_udp_magic _ udp_data Data); [done|done|done|]. unfold udp_data.
      reads_next; [done|]. reads_next; [done|done|]. reads_next; [done|]. reads_next; [done|done|].
      reads_end; [done|]. apply reads_ret.
Qed.
End roundtrip.

Section codec.
Context `{X : UdpXmlCodec} `{!UdpXmlLaws X} `{K : Crc32} `{!Crc32Laws K}.
Context `{N : Nom} `{!NomLaws N} `{C : CookieFactory} `{!CookieFactoryLaws C}.

Lemma deserialize_enc e p rest : reads bcudp e p -> deserialize (e ++ rest) = (Ok p, rest).
Proof.
  intros Hr. apply reads_consumed in Hr as [Hr _]. unfold deserialize. rewrite Hr.
  by rewrite drop_app_length.
Qed.

Lemma udp_deserialize_prefix e p k :
  reads bcudp e p -> (k < length e)%nat -> deserialize (take k e) = (Err NomIncomplete, take k e).
Proof.
  intros Hr Hk. apply reads_consumed in Hr as [_ Hr]. unfold deserialize. by rewrite Hr.
Qed.

(** every packet whose payload is within the 64 KiB cap is
    encoded, and the peer's codec decodes exactly that packet off the front of
    its buffer, leaving the rest, and asks for more on any shorter prefix; a
    disconnect message is consumed and raised as an error instead. *)
Theorem bcudp_roundtrip p :
  udp_ok p -> exists e, codex_encode p [] = Ok e /\
  (forall rest, codex_decode (e ++ rest) =
     (match p with
      | Discovery d =>
          match xml_kind (disc_payload d) with
          | R2cDisc => Err (OtherError "Relay terminated the connection")
          | D2cDisc => Err (OtherError "Camera terminated the connection")
          | OtherXml => Ok (Some p)
          end
      | _ => Ok (Some p)
      end, rest))
  /\ (forall k, (k < length e)%nat -> codex_decode (take k e) = (Ok None, take k e)).
Proof.
  intros Hp. destruct (serialize_reads p Hp) as (e & Hs & Hr). exists e. split_and!.
  - unfold codex_encode. by rewrite Hs.
  - intros rest. unfold codex_decode.
    assert ((length (e ++ rest) =? 0)%nat = false) as ->.
    { apply Nat.eqb_neq. rewrite length_app.
      destruct e; [|simpl; lia]. destruct Hr as [Hr _]. specialize (Hr []). simpl in Hr.
      unfold bcudp in Hr. by rewrite verify_eq, le_u32_eq in Hr. }
    rewrite (deserialize_enc e p rest Hr). destruct p as [d| |]; [|done|done].
    by destruct (xml_kind (disc_payload d)).
  - intros k Hk. unfold codex_decode. destruct (_ =? 0)%nat; [done|].
    by rewrite (udp_deserialize_prefix e p k Hr Hk).
Qed.

Lemma waits_disc : waits udp_disc (16 + MAX_BCUDP_PAYLOAD) (fun _ => True).
Proof.
  unfold udp_disc, MAX_BCUDP_PAYLOAD. change (16 + 65535) with (4 + (4 + (4 + (4 + (65535 + 0))))).
  eapply waits_bind; [lia|waits_field|]. intros sz [_ Hs]. cbv beta iota.
  do 3 (eapply waits_bind; [lia|waits_field|]; intros ? _; cbv beta iota).
  eapply waits_bind; [lia|apply waits_take; [by apply Z.leb_le|lia]|]. intros d _. cbv beta iota.
  destruct (negb _); [by apply waits_fail|]. destruct (xml_try_parse _); [by apply waits_ret|].
  by apply waits_fail.
Qed.

Lemma waits_ack : waits udp_ack (24 + MAX_BCUDP_PAYLOAD) (fun _ => True).
Proof.
  unfold udp_ack, MAX_BCUDP_PAYLOAD.
  change (24 + 65535) with (4 + (4 + (4 + (4 + (4 + (4 + (65535 + 0))))))).
  do 5 (eapply waits_bind; [lia|waits_field|]; intros ? _; cbv beta iota).
  eapply waits_bind; [lia|waits_field|]. intros sz [_ Hs]. cbv beta iota.
  eapply waits_bind; [lia| |intros ? _; cbv beta iota; by apply waits_ret].
  destruct (0 <? sz); [apply waits_take; [by apply Z.leb_le|lia]|].
  apply waits_weaken with 0; [lia|by apply waits_ret].
Qed.

Lemma waits_data : waits udp_data (16 + MAX_BCUDP_PAYLOAD) (fun _ => True).
Proof.
  unfold udp_data, MAX_BCUDP_PAYLOAD. change (16 + 65535) with (4 + (4 + (4 + (4 + (65535 + 0))))).
  do 3 (eapply waits_bind; [lia|waits_field|]; intros ? _; cbv beta iota).
  eapply waits_bind; [lia|waits_field|]. intros sz [_ Hs]. cbv beta iota.
  eapply waits_bind; [lia|apply waits_take; [by apply Z.leb_le|lia]|].
  intros d _. cbv beta iota. by apply waits_ret.
Qed.

Lemma waits_bcudp : waits bcudp (28 + MAX_BCUDP_PAYLOAD) (fun _ => True).
Proof.
  unfold bcudp. replace (28 + MAX_BCUDP_PAYLOAD) with (4 + (24 + MAX_BCUDP_PAYLOAD)) by lia.
  eapply waits_bind; [done|waits_field|]. intros magic _. cbv beta iota. unfold bcudp_body.
  destruct (_ =? _); [|destruct (_ =? _); [|destruct (_ =? _); [|by apply waits_fail]]].
  - eapply waits_weaken; [|eapply waits_map, waits_disc]. lia.
  - eapply waits_weaken; [|eapply waits_map, waits_ack]. lia.
  - eapply waits_weaken; [|eapply waits_map, waits_data]. lia.
Qed.

(** the size cap bounds the receive buffer: once 28 header
    bytes and 65535 payload bytes are there, the decoder never asks for more,
    whatever they contain: it returns a packet or an error. *)
Theorem bcudp_bounded_wait src :
  bytes_ok src -> 28 + MAX_BCUDP_PAYLOAD <= len src -> fst (codex_decode src) <> Ok None.
Proof.
  intros Hb Hl. unfold codex_decode, deserialize.
  destruct (Nat.eqb_spec (length src) 0) as [E|E]; [unfold len, MAX_BCUDP_PAYLOAD in Hl; lia|].
  pose proof (waits_bcudp src Hb Hl) as Hw. rewrite consumed_eq.
  destruct (bcudp src) as [[rest p]|e].
  - destruct p as [d|a|d]; [by destruct (xml_kind (disc_payload d))|done|done].
  - by destruct e.
Qed.
End codec.

Lemma bcudp_roundtrip_witness : exists e,
  codex_encode (X := xml_toy) (K := crc32_std) (C := cf_std) (Data (MkUdpData (-7) 3 [1; 2])) [] = Ok e.
Proof.
  destruct (bcudp_roundtrip (X := xml_toy) (K := crc32_std) (N := nom_std) (C := cf_std)
    (Data (MkUdpData (-7) 3 [1; 2]))) as (e & E & _).
  - split; [done|split; done].
  - exists e. exact E.
Defined.

Lemma bcudp_bounded_wait_witness :
  fst (codex_decode (X := xml_toy) (K := crc32_std) (N := nom_std)
    ([0x10; 0xcf; 0x87; 0x2a; 1; 0; 0; 0; 0; 0; 0; 0; 9; 0; 0; 0; 2; 0; 0; 0] ++ replicate (Z.to_nat 65563) 5))
  <> Ok None.
Proof.
  apply (bcudp_bounded_wait (X := xml_toy) (K := crc32_std) (N := nom_std)).
  - apply Forall_app_2; [repeat constructor; done|by apply Forall_replicate].
  - rewrite len_app. unfold len. rewrite length_replicate. unfold MAX_BCUDP_PAYLOAD.
    cbn [length]. lia.
Defined.
