(* ===== verification/UdpFlow.v ===== *)
(** * Reliable delivery over UDP ([src/baichuan/bc_protocol/connection/udpsource.rs])

    [UdpFlowState] is the pure state of the flow: chunking and resending what
    is sent, reordering and acknowledging what is received. The two [BTreeMap]s
    are [gmap]s; iteration in key order is [sorted_values]. Instants, which the
    source reads from the clock, are arguments, in nanoseconds. The tasks
    that drive the state are [UdpDriver]'s. *)

From S2P Require Import Prelude BcUdp.

Definition MTU : nat := 1350.
Definition UDPDATA_HEADER_SIZE : nat := 20.
Definition REORDER_CAP : nat := 1024.
Definition ACK_BITMAP_CAP : Z := 4096.

(** ** Ack latency *)

Record AckLatency := MkAckLatency {
  current_values : list Z;
  last_receive_time : option Z;
  display_value : Z;
  last_display_time : option Z
}.

Definition get_value (l : AckLatency) : Z := display_value l.

Definition feed_ack (l : AckLatency) (now : Z) : AckLatency :=
  let values :=
    match last_receive_time l with
    | Some t => current_values l ++ [wrap 32 (sat_sub now t / 1000)]
    | None => current_values l
    end in
  match last_display_time l with
  | Some t =>
      if 1000000000 <? sat_sub now t then
        let count := wrap 32 (len values) in
        let value := fold_left (fun acc v => wrap 32 (acc + v / count)) values 0 in
        MkAckLatency [] (Some now) value (Some now)
      else MkAckLatency values (Some now) (display_value l) (last_display_time l)
  | None => MkAckLatency values (Some now) 0 (Some now)
  end.

(** ** The flow state *)

Record UdpFlowState := MkFlow {
  client_id : Z;
  camera_id : Z;
  packets_sent : Z;
  packets_want : Z;
  sent : gmap Z UdpData;
  received : gmap Z bytes;
  ack_latency : AckLatency
}.

Definition new (client_id camera_id : Z) : UdpFlowState :=
  MkFlow client_id camera_id 0 0 ∅ ∅ (MkAckLatency [] None 0 None).

(** One turn of the [for chunk] loop. *)
Definition send_chunk (acc : list UdpData * UdpFlowState) (chunk : bytes)
    : list UdpData * UdpFlowState :=
  let '(out, s) := acc in
  let udp_data := MkUdpData (camera_id s) (packets_sent s) chunk in
  let s' := MkFlow (client_id s) (camera_id s) (wrap 32 (packets_sent s + 1)) (packets_want s)
              (<[data_packet_id udp_data := udp_data]> (sent s)) (received s) (ack_latency s) in
  (out ++ [udp_data], s').

Definition enqueue_send (s : UdpFlowState) (payload : bytes) : list UdpData * UdpFlowState :=
  fold_left send_chunk (chunks (MTU - UDPDATA_HEADER_SIZE) payload) ([], s).

Definition set_received (s : UdpFlowState) (want : Z) (r : gmap Z bytes) : UdpFlowState :=
  MkFlow (client_id s) (camera_id s) (packets_sent s) want (sent s) r (ack_latency s).

Definition handle_data (s : UdpFlowState) (data : UdpData) : bool * UdpFlowState :=
  if negb (data_connection_id data =? client_id s) then (false, s)
  else
    let packet_id := data_packet_id data in
    if packet_id =? u32_max then (false, s)
    else if (packets_want s <=? packet_id) && (size (received s) <? REORDER_CAP)%nat then
      (true, set_received s (packets_want s) (<[packet_id := data_payload data]> (received s)))
    else (false, s).

(** The [for] loop over the ack's truth table. *)
Fixpoint remove_acked (start : Z) (idx : Z) (payload : bytes) (m : gmap Z UdpData) : gmap Z UdpData :=
  match payload with
  | [] => m
  | value :: payload =>
      let packet_id := wrap 32 (wrap 32 (start + 1) + wrap 32 idx) in
      remove_acked start (idx + 1) payload (if 0 <? value then delete packet_id m else m)
  end.

Definition set_sent (s : UdpFlowState) (m : gmap Z UdpData) (l : AckLatency) : UdpFlowState :=
  MkFlow (client_id s) (camera_id s) (packets_sent s) (packets_want s) m (received s) l.

Definition handle_ack (s : UdpFlowState) (ack : UdpAck) (now : Z) : UdpFlowState :=
  let start := ack_packet_id ack in
  let l := feed_ack (ack_latency s) now in
  if start =? 0xffffffff then set_sent s (sent s) l
  else
    let m := filter (fun kv : Z * UdpData => start < fst kv) (sent s) in
    let payload_len := len (ack_payload ack) in
    if u32_max <? Z.min u64_max (Z.min u64_max (start + 1) + payload_len) then set_sent s m l
    else set_sent s (remove_acked start 0 (ack_payload ack) m) l.

(** The [while let] loop removes one entry per turn. *)
Fixpoint drain_loop (fuel : nat) (s : UdpFlowState) (out : list bytes) : list bytes * UdpFlowState :=
  match fuel with
  | O => (out, s)
  | S fuel =>
      match received s !! packets_want s with
      | None => (out, s)
      | Some payload =>
          drain_loop fuel
            (set_received s (wrap 32 (packets_want s + 1)) (delete (packets_want s) (received s)))
            (out ++ [payload])
      end
  end.

Definition drain_contiguous (s : UdpFlowState) : list bytes * UdpFlowState :=
  drain_loop (size (received s)) s [].

(** [received.keys().max()]. *)
Definition max_key {A} (m : gmap Z A) : option Z :=
  match map_to_list m with
  | [] => None
  | (k, _) :: l => Some (foldr (fun kv acc => Z.max (fst kv) acc) k l)
  end.

(** The [while contains_key] loop; each turn finds another key of the map. *)
Fixpoint first_missing_loop {A} (fuel : nat) (m : gmap Z A) (k : Z) : Z :=
  match fuel with
  | O => k
  | S fuel =>
      match m !! k with
      | Some _ => first_missing_loop fuel m (sat_add u32_max k 1)
      | None => k
      end
  end.

Definition first_missing (s : UdpFlowState) : Z :=
  first_missing_loop (S (size (received s))) (received s) (packets_want s).

(** The truth table of [lo .. lo + n]. *)
Fixpoint bitmap {A} (m : gmap Z A) (lo : Z) (n : nat) : bytes :=
  match n with
  | O => []
  | S n => (match m !! lo with Some _ => 1 | None => 0 end) :: bitmap m (lo + 1) n
  end.

(** A [scan_to] below [first_missing] makes the capacity's subtraction
    underflow, modelled as [Panic]. *)
Definition build_send_ack (s : UdpFlowState) : outcome UdpAck :=
  if 0 <? packets_want s then
    let first_missing := first_missing s in
    let! missing_ids :=
      match max_key (received s) with
      | Some last =>
          let end_inclusive := sat_add u32_max last 1 in
          let scan_to := Z.min end_inclusive (sat_add u32_max first_missing ACK_BITMAP_CAP) in
          if scan_to <? first_missing then Panic
          else Ret (bitmap (received s) first_missing (Z.to_nat (scan_to - first_missing)))
      | None => Ret []
      end in
    Ret (MkUdpAck (camera_id s) 0 (first_missing - 1) (get_value (ack_latency s)) missing_ids)
  else Ret (empty_ack (camera_id s)).

#[local] Instance key_le_dec {A} (x y : Z * A) : Decision (fst x <= fst y).
Proof. apply Z_le_dec. Defined.

(** [BTreeMap::values], in key order. *)
Definition sorted_values {A} (m : gmap Z A) : list A :=
  map snd (merge_sort (fun x y : Z * A => fst x <= fst y) (map_to_list m)).

Definition resend_packets (s : UdpFlowState) : list UdpData := sorted_values (sent s).

Definition received_len (s : UdpFlowState) : nat := size (received s).

(** ** Invariant *)

Definition flow_ok (s : UdpFlowState) : Prop :=
  u32 (packets_want s) /\ u32 (packets_sent s) /\ (size (received s) <= REORDER_CAP)%nat
  /\ (forall k x, received s !! k = Some x -> packets_want s <= k < u32_max)
  /\ (forall k d, sent s !! k = Some d -> u32 k /\ data_packet_id d = k).

Lemma new_ok a b : flow_ok (new a b).
Proof.
  split; [done|split; [done|split; [simpl; rewrite map_size_empty; unfold REORDER_CAP; lia|split]]];
    intros k x; cbn [received sent new]; by rewrite lookup_empty.
Qed.

(** What the application and the network do to the flow, and what it hands to
    the application. *)
Inductive event :=
| SendPayload (payload : bytes)
| RecvData (d : UdpData)
| RecvAck (a : UdpAck) (now : Z)
| Drain.

Definition apply_event (s : UdpFlowState) (e : event) : list bytes * UdpFlowState :=
  match e with
  | SendPayload p => ([], snd (enqueue_send s p))
  | RecvData d => ([], snd (handle_data s d))
  | RecvAck a now => ([], handle_ack s a now)
  | Drain => drain_contiguous s
  end.

Fixpoint run (s : UdpFlowState) (es : list event) : list bytes * UdpFlowState :=
  match es with
  | [] => ([], s)
  | e :: es =>
      let '(out, s) := apply_event s e in
      let '(out', s) := run s es in (out ++ out', s)
  end.

(** Packets off the wire have 32-bit ids. *)
Definition event_ok (e : event) : Prop :=
  match e with
  | RecvData d => u32 (data_packet_id d)
  | RecvAck a _ => u32 (ack_packet_id a)
  | _ => True
  end.

(** ** Sending *)

(** The packets of a list of chunks, numbered from [n]. *)
Fixpoint numbered (cam n : Z) (cs : list bytes) : list UdpData :=
  match cs with
  | [] => []
  | c :: cs => MkUdpData cam n c :: numbered cam (wrap 32 (n + 1)) cs
  end.

Definition with_sent (s : UdpFlowState) (n : Z) (m : gmap Z UdpData) : UdpFlowState :=
  MkFlow (client_id s) (camera_id s) n (packets_want s) m (received s) (ack_latency s).

Definition stash (m : gmap Z UdpData) (ds : list UdpData) : gmap Z UdpData :=
  fold_left (fun m d => <[data_packet_id d := d]> m) ds m.

Lemma send_chunks cs s out :
  u32 (packets_sent s) ->
  fold_left send_chunk cs (out, s)
  = (out ++ numbered (camera_id s) (packets_sent s) cs,
     with_sent s (wrap 32 (packets_sent s + len cs))
       (stash (sent s) (numbered (camera_id s) (packets_sent s) cs))).
Proof.
  revert s out. induction cs as [|c cs IH]; intros s out Hs.
  { unfold len. cbn. rewrite Z.add_0_r, wrap_small, app_nil_r by done. by destruct s. }
  cbn [fold_left send_chunk]. rewrite IH by (apply wrap_range; lia). cbn [numbered].
  rewrite <- app_assoc. unfold with_sent. cbn [packets_sent camera_id client_id packets_want sent received
    ack_latency]. do 2 f_equal. rewrite wrap_add_l by lia. f_equal. unfold len. cbn [length]. lia.
Qed.

Lemma enqueue_send_eq s payload :
  u32 (packets_sent s) ->
  enqueue_send s payload
  = (numbered (camera_id s) (packets_sent s) (chunks 1330 payload),
     with_sent s (wrap 32 (packets_sent s + len (chunks 1330 payload)))
       (stash (sent s) (numbered (camera_id s) (packets_sent s) (chunks 1330 payload)))).
Proof. intros Hs. unfold enqueue_send. by rewrite send_chunks. Qed.

Lemma numbered_payload cam n cs : map data_payload (numbered cam n cs) = cs.
Proof. revert n. induction cs as [|c cs IH]; intros n; simpl; [done|by rewrite IH]. Qed.

Lemma numbered_lookup cam n cs i d :
  u32 n -> numbered cam n cs !! i = Some d ->
  data_connection_id d = cam /\ data_packet_id d = wrap 32 (n + Z.of_nat i).
Proof.
  revert n i. induction cs as [|c cs IH]; intros n i Hn Hi; [done|].
  destruct i as [|i]; cbn in Hi.
  - injection Hi as <-. cbn. by rewrite Z.add_0_r, wrap_small.
  - apply IH in Hi as [? ->]; [|apply wrap_range; lia]. split; [done|].
    rewrite wrap_add_l by lia. f_equal. lia.
Qed.

Lemma stash_old m ds k d :
  stash m ds !! k = Some d -> m !! k = Some d \/ (In d ds /\ data_packet_id d = k).
Proof.
  unfold stash. revert m. induction ds as [|e ds IH]; intros m H; [by left|]. cbn [fold_left] in H.
  apply IH in H as [H|[H ?]]; [|right; split; [by right|done]].
  apply lookup_insert_Some in H as [[<- <-]|[_ H]]; [right; split; [by left|done]|by left].
Qed.

Lemma stash_keep m ds k d :
  m !! k = Some d -> k ∉ map data_packet_id ds -> stash m ds !! k = Some d.
Proof.
  unfold stash. revert m. induction ds as [|e ds IH]; intros m Hm Hk; [done|]. cbn [fold_left].
  cbn [map] in Hk. apply not_elem_of_cons in Hk as [? ?].
  apply IH; [|done]. by rewrite lookup_insert_ne.
Qed.

Lemma stash_new m ds d :
  In d ds -> NoDup (map data_packet_id ds) -> stash m ds !! data_packet_id d = Some d.
Proof.
  revert m. induction ds as [|e ds IH]; intros m Hd Hnd; [done|].
  inversion Hnd as [|? ? Hni Hnd']; subst. unfold stash. cbn [fold_left].
  destruct Hd as [->|Hd]; [|by apply IH]. apply stash_keep; [|done]. apply lookup_insert_eq.
Qed.

(** ** Receiving: the invariant *)

Lemma handle_data_ok s d :
  flow_ok s -> u32 (data_packet_id d) -> flow_ok (snd (handle_data s d)).
Proof.
  intros (Hw & Hp & Hsz & Hr & Hs) Hd. unfold handle_data.
  destruct (negb _); [done|]. destruct (Z.eqb_spec (data_packet_id d) u32_max); [done|].
  destruct (_ && _) eqn:E; [|done]. b2p. cbn [snd].
  split; [done|]. split; [done|]. split; [|split; [|done]]; cbn [received packets_want set_received].
  - rewrite map_size_insert. destruct (received s !! _); unfold id; lia.
  - intros k x Hk. apply lookup_insert_Some in Hk as [[<- _]|[_ Hk]]; [|by eapply Hr].
    unfold u32_max in *. int_lia.
Qed.

Lemma remove_acked_subset start payload idx m k d :
  remove_acked start idx payload m !! k = Some d -> m !! k = Some d.
Proof.
  revert idx m. induction payload as [|v payload IH]; intros idx m H; [done|]. cbn [remove_acked] in H.
  apply IH in H. destruct (0 <? v); [|done]. by apply lookup_delete_Some in H as [_ ?].
Qed.

Lemma handle_ack_subset s a now k d : sent (handle_ack s a now) !! k = Some d -> sent s !! k = Some d.
Proof.
  unfold handle_ack. destruct (_ =? _); [done|]. destruct (_ <? _); cbn [sent set_sent].
  - intros H. by apply map_lookup_filter_Some in H as [? _].
  - intros H. apply remove_acked_subset in H. by apply map_lookup_filter_Some in H as [? _].
Qed.

Lemma handle_ack_rest s a now :
  packets_want (handle_ack s a now) = packets_want s /\ received (handle_ack s a now) = received s
  /\ packets_sent (handle_ack s a now) = packets_sent s
  /\ client_id (handle_ack s a now) = client_id s /\ camera_id (handle_ack s a now) = camera_id s.
Proof. unfold handle_ack. destruct (_ =? _); [done|]. by destruct (_ <? _). Qed.

Lemma handle_ack_ok s a now : flow_ok s -> flow_ok (handle_ack s a now).
Proof.
  intros (Hw & Hp & Hsz & Hr & Hs). unfold flow_ok.
  destruct (handle_ack_rest s a now) as (-> & -> & -> & _).
  split; [done|split; [done|split; [done|split; [done|]]]].
  intros k d Hk. apply handle_ack_subset in Hk. by apply Hs.
Qed.

(** One delivery moves the window past the packet it delivers. *)
Lemma deliver_ok s x :
  flow_ok s -> received s !! packets_want s = Some x ->
  wrap 32 (packets_want s + 1) = packets_want s + 1
  /\ flow_ok (set_received s (packets_want s + 1) (delete (packets_want s) (received s))).
Proof.
  intros (Hw & Hp & Hsz & Hr & Hs) Hx. pose proof (Hr _ _ Hx) as Hb.
  assert (u32 (packets_want s + 1)) as Hw' by (unfold u32_max in *; int_lia).
  split; [by apply wrap_small|]. split; [done|split; [done|split; [|split; [|done]]]];
    cbn [received packets_want set_received].
  - rewrite map_size_delete, Hx. lia.
  - intros k y Hk. apply lookup_delete_Some in Hk as [Hne Hk]. pose proof (Hr _ _ Hk). lia.
Qed.

Lemma enqueue_send_ok s p : flow_ok s -> flow_ok (snd (enqueue_send s p)).
Proof.
  intros (Hw & Hp & Hsz & Hr & Hs). rewrite enqueue_send_eq by done. cbn [snd with_sent].
  split; [done|split; [by apply wrap_range|split; [done|split; [done|]]]]. cbn [sent].
  intros k d Hk. apply stash_old in Hk as [Hk|[Hin <-]]; [by apply Hs|]. split; [|done].
  apply list_elem_of_In, list_elem_of_lookup in Hin as [i Hi].
  apply numbered_lookup in Hi as [_ ->]; [|done]. apply wrap_range. lia.
Qed.

(** ** Delivery in order, exactly once *)

Section delivery.
(** What the camera sent under each id. *)
Variable P : Z -> bytes.

Definition genuine (s : UdpFlowState) : Prop := forall k x, received s !! k = Some x -> x = P k.

Lemma drain_loop_spec fuel s out :
  flow_ok s -> genuine s ->
  exists n s', drain_loop fuel s out = (out ++ map P (seqZ (packets_want s) n), s') /\ 0 <= n
    /\ flow_ok s' /\ genuine s' /\ packets_want s' = packets_want s + n
    /\ client_id s' = client_id s
    /\ (forall k, packets_want s' <= k -> received s' !! k = received s !! k)
    /\ ((size (received s) <= fuel)%nat -> received s' !! packets_want s' = None).
Proof.
  revert s out. induction fuel as [|fuel IH]; intros s out Hok Hg; cbn [drain_loop].
  { exists 0, s. rewrite seqZ_nil by done. rewrite app_nil_r, Z.add_0_r.
    do 7 (split; [done|]). intros Hf. assert (received s = ∅) as -> by (apply map_size_empty_inv; lia).
    by rewrite lookup_empty. }
  destruct (received s !! packets_want s) as [x|] eqn:Ex.
  - destruct (deliver_ok s x Hok Ex) as [-> Hok'].
    set (s1 := set_received s (packets_want s + 1) _) in *.
    assert (genuine s1) as Hg1.
    { intros k y Hk. unfold s1 in Hk. cbn in Hk. apply lookup_delete_Some in Hk as [_ Hk]. by apply Hg. }
    destruct (IH s1 (out ++ [x]) Hok' Hg1) as (n & s' & -> & Hn & H1 & H2 & H3 & H4 & Hk & H5).
    exists (n + 1), s'. change (packets_want s1) with (packets_want s + 1) in *.
    rewrite H3. split.
    + rewrite <- app_assoc. do 2 f_equal. rewrite (seqZ_cons (packets_want s) (n + 1)) by lia.
      cbn [map app]. rewrite (Hg _ _ Ex). by replace (Z.pred (n + 1)) with n by lia.
    + split; [lia|]. do 2 (split; [done|]). split; [lia|]. split; [by rewrite H4|].
      rewrite <- H3. split.
      { intros k Hk'. rewrite Hk by done. unfold s1. cbn. by rewrite lookup_delete_ne by lia. }
      intros Hf. apply H5. unfold s1. cbn [received set_received].
      rewrite map_size_delete, Ex. lia.
  - exists 0, s. rewrite seqZ_nil by done. rewrite app_nil_r, Z.add_0_r. by do 7 (split; [done|]).
Qed.

(** Only what the camera sent arrives: any reordering, duplication or loss of
    genuine packets; packets of other connections may hold anything. *)
Definition genuine_event (cid : Z) (e : event) : Prop :=
  match e with
  | RecvData d => data_connection_id d = cid -> data_payload d = P (data_packet_id d)
  | _ => True
  end.

Lemma apply_event_spec s e :
  flow_ok s -> genuine s -> event_ok e -> genuine_event (client_id s) e ->
  exists n s', apply_event s e = (map P (seqZ (packets_want s) n), s') /\ 0 <= n
    /\ flow_ok s' /\ genuine s' /\ packets_want s' = packets_want s + n /\ client_id s' = client_id s.
Proof.
  intros Hok Hg He Hge. destruct e as [p|d|a now|]; cbn [apply_event event_ok genuine_event] in *.
  - exists 0, (snd (enqueue_send s p)). rewrite seqZ_nil, Z.add_0_r by done.
    pose proof (enqueue_send_ok s p Hok) as Hok'. destruct Hok as (_ & Hp & _).
    rewrite enqueue_send_eq in Hok' |- * by done. by split_and!.
  - exists 0, (snd (handle_data s d)). rewrite seqZ_nil, Z.add_0_r by done.
    split; [done|]. split; [done|]. split; [by apply handle_data_ok|].
    unfold handle_data. destruct (Z.eqb_spec (data_connection_id d) (client_id s)); cbn [negb]; [|done].
    destruct (_ =? _); [done|]. destruct (_ && _); [|done]. split; [|done].
    intros k x Hk. cbn [received snd set_received] in Hk.
    apply lookup_insert_Some in Hk as [[<- <-]|[_ Hk]]; [by apply Hge|by apply Hg].
  - exists 0, (handle_ack s a now). rewrite seqZ_nil, Z.add_0_r by done.
    split; [done|]. split; [done|]. split; [by apply handle_ack_ok|]. unfold genuine.
    destruct (handle_ack_rest s a now) as (-> & -> & _ & -> & _). done.
  - destruct (drain_loop_spec (size (received s)) s [] Hok Hg) as (n & s' & E & Hn & ? & ? & ? & ? & _ & _).
    by exists n, s'.
Qed.

Lemma run_spec es s :
  flow_ok s -> genuine s -> Forall event_ok es -> Forall (genuine_event (client_id s)) es ->
  exists n s', run s es = (map P (seqZ (packets_want s) n), s') /\ 0 <= n
    /\ flow_ok s' /\ genuine s' /\ packets_want s' = packets_want s + n /\ client_id s' = client_id s.
Proof.
  intros Hok Hg He Hge. revert s Hok Hg Hge. induction He as [|e es He Hes IH]; intros s Hok Hg Hge.
  { exists 0, s. rewrite seqZ_nil, Z.add_0_r by done. done. }
  inversion Hge as [|? ? Hge1 Hges]; subst.
  destruct (apply_event_spec s e Hok Hg He Hge1) as (n & s1 & E & Hn & H1 & H2 & H3 & H4).
  rewrite <- H4 in Hges. destruct (IH s1 H1 H2 Hges) as (m & s2 & E' & Hm & H5 & H6 & H7 & H8).
  exists (n + m), s2. cbn [run]. rewrite E, E'. split.
  - rewrite H3, <- map_app. f_equal. f_equal. rewrite <- seqZ_app by lia. done.
  - split; [lia|]. do 2 (split; [done|]). split; [lia|congruence].
Qed.
End delivery.

(** whatever the network reorders, duplicates or loses, and
    however sends, acks and drains are interleaved, what the flow hands to the
    application is exactly the camera's packets 0, 1, 2, ... in order, each once,
    up to the next packet it waits for; the reorder buffer never exceeds its
    cap. *)
Theorem in_order_delivery P client camera es :
  Forall event_ok es -> Forall (genuine_event P client) es ->
  let '(out, s) := run (new client camera) es in
  out = map P (seqZ 0 (packets_want s)) /\ (received_len s <= REORDER_CAP)%nat.
Proof.
  intros He Hg. destruct (run_spec P es (new client camera)) as (n & s' & -> & Hn & H1 & _ & H3 & _).
  - apply new_ok.
  - intros k x. cbn. by rewrite lookup_empty.
  - done.
  - done.
  - cbn in H3. rewrite H3. split; [done|]. by destruct H1 as (_ & _ & ? & _).
Qed.

Lemma in_order_delivery_witness :
  let '(out, s) := run (new 5 6) [RecvData (MkUdpData 5 1 [1]); Drain; RecvData (MkUdpData 5 0 [0]);
    RecvData (MkUdpData 5 0 [0]); RecvData (MkUdpData 9 2 [7; 7]); Drain] in
  out = map (fun k => [k]) (seqZ 0 (packets_want s)) /\ (received_len s <= REORDER_CAP)%nat.
Proof.
  apply (in_order_delivery (fun k => [k]) 5 6); repeat constructor; done.
Defined.

(** ** Progress, and its limit *)

(** below the cap, the packet the flow waits for is
    accepted, and the next drain delivers it first and leaves the flow waiting
    for a packet it does not hold. *)
Theorem in_order_progress s d :
  flow_ok s -> (received_len s < REORDER_CAP)%nat -> packets_want s < u32_max ->
  data_connection_id d = client_id s -> data_packet_id d = packets_want s ->
  exists rest s', fst (handle_data s d) = true
    /\ drain_contiguous (snd (handle_data s d)) = (data_payload d :: rest, s')
    /\ packets_want s < packets_want s' /\ received s' !! packets_want s' = None.
Proof.
  intros Hok Hsz Hw Hc Hd. assert (u32 (data_packet_id d)) as Hu by (rewrite Hd; apply Hok).
  pose proof (handle_data_ok s d Hok Hu) as Hok'. unfold handle_data in *.
  rewrite Hc, Z.eqb_refl in *. cbn [negb] in *.
  assert ((data_packet_id d =? u32_max) = false) as E1 by (apply Z.eqb_neq; lia).
  assert ((packets_want s <=? data_packet_id d) && (size (received s) <? REORDER_CAP)%nat = true) as E2.
  { apply andb_true_iff. split; [apply Z.leb_le; lia|by apply Nat.ltb_lt]. }
  rewrite E1, E2 in *. cbn [fst snd] in *. set (s1 := set_received s _ _) in *.
  destruct (drain_loop_spec (fun k => default [] (received s1 !! k)) (size (received s1)) s1 [] Hok')
    as (n & s' & E & Hn & _ & _ & Hw' & _ & Hkeep & Hend).
  { intros k x Hk. by rewrite Hk. }
  specialize (Hend ltac:(done)). unfold drain_contiguous. rewrite E. cbn [app].
  change (packets_want s1) with (packets_want s) in *.
  assert (n <> 0) as Hn0.
  { intros ->. rewrite Z.add_0_r in Hw'. rewrite Hkeep in Hend by lia. rewrite Hw' in Hend.
    unfold s1 in Hend. cbn in Hend. by rewrite Hd, lookup_insert_eq in Hend. }
  rewrite (seqZ_cons (packets_want s) n) by lia. cbn [map].
  eexists _, s'. split; [done|]. split; [|split; [lia|done]]. do 2 f_equal.
  unfold s1. cbn. by rewrite Hd, lookup_insert_eq.
Qed.

Lemma in_order_progress_witness : exists rest s',
  drain_contiguous (snd (handle_data (new 5 6) (MkUdpData 5 0 [1; 2]))) = ([1; 2] :: rest, s').
Proof.
  destruct (in_order_progress (new 5 6) (MkUdpData 5 0 [1; 2])) as (rest & s' & _ & E & _).
  - apply new_ok.
  - unfold received_len, REORDER_CAP. cbn [new received]. rewrite map_size_empty. lia.
  - done.
  - done.
  - done.
  - exists rest, s'. exact E.
Defined.

(** A full reorder buffer without the awaited packet. *)
Definition stuck (s : UdpFlowState) : Prop :=
  (REORDER_CAP <= size (received s))%nat /\ received s !! packets_want s = None.

Lemma stuck_event s e :
  stuck s -> fst (apply_event s e) = [] /\ stuck (snd (apply_event s e)).
Proof.
  intros [Hsz Hw]. destruct e as [p|d|a now|]; cbn [apply_event fst snd].
  - split; [done|]. unfold enqueue_send. generalize (@nil UdpData).
    revert s Hsz Hw. induction (chunks _ p) as [|c cs IH]; intros s Hsz Hw l; [done|].
    cbn [fold_left send_chunk]. by apply IH.
  - split; [done|]. unfold handle_data. destruct (negb _); [done|]. destruct (_ =? _); [done|].
    destruct (_ && _) eqn:E; [|done]. b2p. lia.
  - split; [done|]. unfold stuck. destruct (handle_ack_rest s a now) as (-> & -> & _). done.
  - unfold drain_contiguous. destruct (size (received s)) eqn:Es; cbn [drain_loop];
      [unfold REORDER_CAP in Hsz; lia|].
    rewrite Hw. split; [done|]. split; [|done]. cbn [snd]. by rewrite Es.
Qed.

Lemma stuck_run es s : stuck s -> fst (run s es) = [].
Proof.
  revert s. induction es as [|e es IH]; intros s Hs; [done|]. cbn [run].
  destruct (stuck_event s e Hs) as [H1 H2]. destruct (apply_event s e) as [o s1]. simpl in H1, H2.
  subst. specialize (IH s1 H2). by destruct (run s1 es).
Qed.

Lemma run_app s es es' :
  run s (es ++ es') = let '(o, s1) := run s es in let '(o', s2) := run s1 es' in (o ++ o', s2).
Proof.
  revert s. induction es as [|e es IH]; intros s; cbn [app run].
  { by destruct (run s es'). }
  destruct (apply_event s e) as [o s1]. rewrite IH. destruct (run s1 es) as [o1 s2].
  destruct (run s2 es') as [o2 s3]. by rewrite app_assoc.
Qed.

(** Later packets fill the buffer. *)
Lemma fill_buffer n k s :
  packets_want s = 0 -> 0 < k -> k + Z.of_nat n <= u32_max ->
  (forall j, k <= j \/ j = 0 -> received s !! j = None) -> (size (received s) + n <= REORDER_CAP)%nat ->
  exists s', run s (map (fun i => RecvData (MkUdpData (client_id s) i [])) (seqZ k (Z.of_nat n))) = ([], s')
    /\ packets_want s' = 0 /\ size (received s') = (size (received s) + n)%nat
    /\ received s' !! 0 = None.
Proof.
  revert k s. induction n as [|n IH]; intros k s Hw Hk Hm Hn Hsz.
  { exists s. rewrite Nat.add_0_r. split_and!; [done|done|done|]. apply Hn. by right. }
  rewrite seqZ_cons by lia. cbn [map run apply_event handle_data data_connection_id data_packet_id].
  unfold handle_data. cbn [data_connection_id data_packet_id data_payload].
  rewrite Z.eqb_refl. cbn [negb].
  destruct (Z.eqb_spec k u32_max); [lia|]. rewrite Hw.
  assert ((0 <=? k) && (size (received s) <? REORDER_CAP)%nat = true) as ->.
  { apply andb_true_iff. split; [apply Z.leb_le; lia|apply Nat.ltb_lt; lia]. }
  cbn [snd]. set (s1 := set_received s 0 (<[k:=[]]> (received s))).
  assert (size (received s1) = S (size (received s))) as Es.
  { unfold s1. cbn. rewrite map_size_insert. by rewrite Hn by (left; lia). }
  replace (Z.pred (Z.of_nat (S n))) with (Z.of_nat n) by lia.
  destruct (IH (Z.succ k) s1) as (s' & E & H1 & H2 & H3); [done|lia|lia| |lia|].
  - intros j Hj. unfold s1. cbn. rewrite lookup_insert_ne by lia. apply Hn. lia.
  - change (client_id s1) with (client_id s) in E. rewrite E. exists s'. split; [done|].
    split; [done|]. split; [lia|done].
Qed.

(** the cap also rejects the one packet that would make room.
    Once 1024 later packets arrive before packet 0, nothing is ever delivered
    again, whatever follows, packet 0 and its retransmissions included. *)
Theorem reorder_stall client camera es :
  fst (run (new client camera)
    (map (fun i => RecvData (MkUdpData client i [])) (seqZ 1 (Z.of_nat REORDER_CAP)) ++ es)) = [].
Proof.
  destruct (fill_buffer REORDER_CAP 1 (new client camera)) as (s' & E & Hw & Hs & H0).
  - done.
  - lia.
  - done.
  - intros j _. apply lookup_empty.
  - cbn [new received]. rewrite map_size_empty. lia.
  - change (client_id (new client camera)) with client in E. rewrite run_app, E.
    assert (stuck s') as Hst.
    { split; [|by rewrite Hw]. rewrite Hs. lia. }
    apply (stuck_run es) in Hst. by destruct (run s' es).
Qed.

(** ** Chunking what is sent *)

Lemma chunks_number {A} n (l : list A) :
  (0 < n)%nat -> Z.of_nat (length (chunks n l)) <= len l.
Proof.
  intros Hn. pose proof (chunks_concat n l Hn) as E. pose proof (chunks_sizes n l Hn) as Hs.
  rewrite <- E at 2. revert Hs. generalize (chunks n l). intros cs Hs. clear E.
  induction Hs as [|c cs Hc Hcs IH]; [done|]. cbn [concat length]. rewrite len_app. lia.
Qed.

Lemma numbered_length cam n cs : length (numbered cam n cs) = length cs.
Proof. revert n. induction cs as [|c cs IH]; intros n; simpl; [done|by rewrite IH]. Qed.

Lemma numbered_nodup cam n cs :
  u32 n -> Z.of_nat (length cs) <= 2 ^ 32 -> NoDup (map data_packet_id (numbered cam n cs)).
Proof.
  intros Hn Hl. apply NoDup_alt. intros i j k Hi Hj.
  rewrite list_lookup_fmap in Hi, Hj.
  destruct (numbered cam n cs !! i) as [x|] eqn:Ei; [|done].
  destruct (numbered cam n cs !! j) as [y|] eqn:Ej; [|done].
  assert (data_packet_id x = data_packet_id y) as Hj' by (cbn in Hi, Hj; congruence).
  clear Hi Hj.
  pose proof (lookup_lt_Some _ _ _ Ei) as Li. pose proof (lookup_lt_Some _ _ _ Ej) as Lj.
  rewrite numbered_length in Li, Lj.
  apply numbered_lookup in Ei as [_ Ei]; [|done]. apply numbered_lookup in Ej as [_ Ej]; [|done].
  rewrite Ei, Ej in Hj'. unfold wrap in Hj'.
  pose proof (Z.div_mod (n + Z.of_nat i) (2 ^ 32) ltac:(lia)).
  pose proof (Z.div_mod (n + Z.of_nat j) (2 ^ 32) ltac:(lia)).
  pose proof (Z.mod_pos_bound (n + Z.of_nat i) (2 ^ 32) ltac:(lia)).
  assert ((n + Z.of_nat i) / 2 ^ 32 = (n + Z.of_nat j) / 2 ^ 32) by nia. lia.
Qed.

(** the application's bytes are cut into packets of at
    most 1330 bytes that concatenate to them, addressed to the camera and
    numbered consecutively modulo 2^32 from the flow's counter; every one of
    them is kept for resending. *)
Theorem enqueue_send_chunks s payload :
  flow_ok s -> len payload <= 2 ^ 32 ->
  let '(out, s') := enqueue_send s payload in
  concat (map data_payload out) = payload
  /\ packets_sent s' = wrap 32 (packets_sent s + Z.of_nat (length out))
  /\ (forall i d, out !! i = Some d ->
        data_connection_id d = camera_id s
        /\ data_packet_id d = wrap 32 (packets_sent s + Z.of_nat i)
        /\ 1 <= len (data_payload d) <= 1330
        /\ sent s' !! data_packet_id d = Some d).
Proof.
  intros Hok Hl. destruct Hok as (_ & Hp & _). rewrite enqueue_send_eq by done.
  split; [rewrite numbered_payload; by apply chunks_concat; lia|].
  cbn [packets_sent with_sent sent]. rewrite numbered_length. split; [done|].
  intros i d Hi. pose proof (numbered_lookup _ _ _ _ _ Hp Hi) as [Hc Hid].
  split; [done|split; [done|split]].
  - pose proof (chunks_sizes 1330 payload ltac:(lia)) as Hs. rewrite Forall_lookup in Hs.
    apply (Hs i). rewrite <- (numbered_payload (camera_id s) (packets_sent s) (chunks 1330 payload)) at 1.
    by rewrite list_lookup_fmap, Hi.
  - apply stash_new; [by eapply list_elem_of_In, list_elem_of_lookup_2|].
    apply numbered_nodup; [done|]. pose proof (chunks_number 1330 payload ltac:(lia)). lia.
Qed.

Lemma enqueue_send_chunks_witness :
  let '(out, s') := enqueue_send (new 5 6) (replicate (Z.to_nat 1400) 7) in
  concat (map data_payload out) = replicate (Z.to_nat 1400) 7
  /\ packets_sent s' = wrap 32 (0 + Z.of_nat (length out)).
Proof.
  pose proof (enqueue_send_chunks (new 5 6) (replicate (Z.to_nat 1400) 7) (new_ok 5 6)) as H.
  assert (len (replicate (Z.to_nat 1400) 7) <= 2 ^ 32) as Hl
    by (unfold len; rewrite length_replicate; lia).
  specialize (H Hl). destruct (enqueue_send _ _) as [out s']. destruct H as (H1 & H2 & _).
  split; [exact H1|exact H2].
Defined.

(** ** Acknowledgements *)

Lemma keys_run {A} (m : gmap Z A) k n :
  (forall j, k <= j < k + Z.of_nat n -> is_Some (m !! j)) -> (n <= size m)%nat.
Proof.
  intros H. assert (list_to_set (seqZ k (Z.of_nat n)) ⊆ dom m) as Hsub.
  { intros j Hj. apply elem_of_list_to_set, elem_of_seqZ in Hj. by apply elem_of_dom, H. }
  apply subseteq_size in Hsub. rewrite size_dom, size_list_to_set, length_seqZ in Hsub; [lia|].
  apply NoDup_seqZ.
Qed.

(** The loop stops at the first gap: with more fuel than keys it cannot run
    out. *)
Lemma first_missing_loop_spec {A} fuel (m : gmap Z A) k :
  (forall j, is_Some (m !! j) -> j < u32_max) -> k <= u32_max ->
  let r := first_missing_loop fuel m k in
  k <= r /\ (forall j, k <= j < r -> is_Some (m !! j)) /\ (m !! r = None \/ r = k + Z.of_nat fuel).
Proof.
  intros Hm. revert k. induction fuel as [|fuel IH]; intros k Hk; cbn [first_missing_loop].
  { split_and!; [lia|lia|]. right. lia. }
  destruct (m !! k) as [x|] eqn:Ex; [|split_and!; [lia|lia|by left]].
  pose proof (Hm k ltac:(by eexists)). unfold sat_add. rewrite Z.min_r by lia.
  destruct (IH (k + 1) ltac:(lia)) as (H1 & H2 & H3). split_and!; [lia| |destruct H3; [by left|right; lia]].
  intros j Hj. destruct (decide (j = k)) as [->|]; [by eexists|]. apply H2. lia.
Qed.

Lemma first_missing_spec s :
  flow_ok s ->
  packets_want s <= first_missing s <= u32_max
  /\ (forall j, packets_want s <= j < first_missing s -> is_Some (received s !! j))
  /\ received s !! first_missing s = None.
Proof.
  intros (Hw & _ & _ & Hr & _).
  assert (forall j, is_Some (received s !! j) -> j < u32_max) as Hm
    by (intros j [x Hx]; apply Hr in Hx; lia).
  destruct (first_missing_loop_spec (S (size (received s))) (received s) (packets_want s) Hm)
    as (H1 & H2 & H3); [int_lia|]. fold (first_missing s) in *.
  assert (received s !! first_missing s = None) as Hnone.
  { destruct H3 as [?|E]; [done|]. exfalso.
    pose proof (keys_run (received s) (packets_want s) (S (size (received s)))) as Hk.
    specialize (Hk ltac:(intros j Hj; apply H2; lia)). lia. }
  split; [|done]. split; [done|].
  destruct (Z_le_gt_dec (first_missing s) u32_max); [done|].
  destruct (H2 u32_max ltac:(int_lia)) as [x Hx]. pose proof (Hr _ _ Hx). lia.
Qed.

Lemma max_key_spec {A} (m : gmap Z A) :
  match max_key m with
  | Some e => is_Some (m !! e) /\ forall k, is_Some (m !! k) -> k <= e
  | None => m = ∅
  end.
Proof.
  unfold max_key. destruct (map_to_list m) as [|[k x] l] eqn:E; [by apply map_to_list_empty_iff|].
  assert (forall kv : Z * A, In kv ((k, x) :: l) <-> m !! fst kv = Some (snd kv)) as Hin.
  { intros [k' x']. rewrite <- E, <- list_elem_of_In. apply elem_of_map_to_list. }
  set (e := foldr _ k l).
  assert ((e = k \/ In e (map fst l)) /\ k <= e /\ forall j, In j (map fst l) -> j <= e) as (H1 & H2 & H3).
  { subst e. clear. induction l as [|[j y] l (H1 & H2 & H3)]; simpl; [split_and!; [by left|lia|done]|].
    split_and!; [|lia|].
    - destruct (Z.max_spec j (foldr (fun kv acc => Z.max kv.1 acc) k l)) as [[_ ->]|[_ ->]];
        [destruct H1; [by left|by right; right]|by right; left].
    - intros i [<-|Hi]; [lia|]. specialize (H3 i Hi). lia. }
  split.
  - destruct H1 as [->|H1]; [exists x; apply (Hin (k, x)); by left|].
    apply in_map_iff in H1 as ([j y] & <- & Hj). exists y. apply (Hin (j, y)). by right.
  - intros j [y Hy]. apply (Hin (j, y)) in Hy as [[= <- <-]|Hy]; [done|].
    apply H3, in_map_iff. by exists (j, y).
Qed.

Lemma bitmap_length {A} (m : gmap Z A) lo n : length (bitmap m lo n) = n.
Proof. revert lo. induction n as [|n IH]; intros lo; simpl; [done|by rewrite IH]. Qed.

(** Applying a truth table removes exactly the packets it marks. *)
Lemma remove_acked_bitmap {A} (r : gmap Z A) start n idx (m : gmap Z UdpData) k :
  0 <= start -> 0 <= idx -> start + 1 + idx + Z.of_nat n <= u32_max ->
  remove_acked start idx (bitmap r (start + 1 + idx) n) m !! k
  = if bool_decide (start + 1 + idx <= k < start + 1 + idx + Z.of_nat n /\ is_Some (r !! k))
    then None else m !! k.
Proof.
  intros Hs. revert idx m. induction n as [|n IH]; intros idx m Hi Hm.
  { simpl. rewrite bool_decide_false by lia. done. }
  cbn [bitmap remove_acked]. rewrite (wrap_small 32 (start + 1)), (wrap_small 32 idx) by int_lia.
  rewrite wrap_small by int_lia.
  replace (start + 1 + idx + 1) with (start + 1 + (idx + 1)) by lia. rewrite IH by lia.
  destruct (decide (k = start + 1 + idx)) as [->|Hne].
  - rewrite bool_decide_false by lia. destruct (r !! (start + 1 + idx)) as [x|] eqn:Ex; cbn [Z.ltb Z.compare].
    + rewrite bool_decide_true by (split; [lia|by eexists]). by rewrite lookup_delete_eq.
    + rewrite bool_decide_false by (intros [_ [? ?]]; congruence). done.
  - assert (bool_decide (start + 1 + (idx + 1) <= k < start + 1 + (idx + 1) + Z.of_nat n /\ is_Some (r !! k))
      = bool_decide (start + 1 + idx <= k < start + 1 + idx + Z.of_nat (S n) /\ is_Some (r !! k))) as ->.
    { apply bool_decide_ext. split; intros [? ?]; (split; [lia|done]). }
    destruct (bool_decide _); [done|].
    destruct (r !! (start + 1 + idx)); cbn [Z.ltb Z.compare]; [|done]. by rewrite lookup_delete_ne.
Qed.

(** In a consistent state the ack is built without panicking; it names the last
    packet before the first gap and marks the packets held after it. *)
Lemma build_send_ack_spec r :
  flow_ok r -> 0 < packets_want r ->
  exists n, build_send_ack r
      = Ret (MkUdpAck (camera_id r) 0 (first_missing r - 1) (get_value (ack_latency r))
               (bitmap (received r) (first_missing r) n))
    /\ Z.of_nat n <= ACK_BITMAP_CAP /\ first_missing r + Z.of_nat n <= u32_max
    /\ forall k, is_Some (received r !! k) -> first_missing r <= k < first_missing r + ACK_BITMAP_CAP ->
         k < first_missing r + Z.of_nat n.
Proof.
  intros Hok Hw. destruct (first_missing_spec r Hok) as ((F1 & F2) & F3 & F4).
  assert (forall j, is_Some (received r !! j) -> j < u32_max) as Hm.
  { intros j [x Hx]. destruct Hok as (_ & _ & _ & Hr & _). apply Hr in Hx. lia. }
  unfold build_send_ack. rewrite (proj2 (Z.ltb_lt _ _) Hw).
  pose proof (max_key_spec (received r)) as Hmax. set (f := first_missing r) in *.
  destruct (max_key (received r)) as [e|].
  - destruct Hmax as [He Hmax]. pose proof (Hm e He).
    assert (f <= e + 1) as Hfe.
    { destruct (decide (f = packets_want r)) as [->|].
      - destruct Hok as (_ & _ & _ & Hr & _). destruct He as [x Hx]. apply Hr in Hx. lia.
      - specialize (F3 (f - 1) ltac:(lia)). apply Hmax in F3. lia. }
    unfold sat_add. set (t := Z.min (Z.min u32_max (e + 1)) (Z.min u32_max (f + ACK_BITMAP_CAP))).
    assert (f <= t <= u32_max /\ t <= f + ACK_BITMAP_CAP
            /\ (t = e + 1 \/ t = f + ACK_BITMAP_CAP \/ t = u32_max)) as (Ht1 & Ht2 & Ht3)
      by (subst t; unfold ACK_BITMAP_CAP; lia).
    rewrite (proj2 (Z.ltb_ge _ _)) by lia. cbn [out_bind]. exists (Z.to_nat (t - f)).
    split; [done|]. rewrite Z2Nat.id by lia. split; [lia|]. split; [lia|].
    intros k Hk Hkf. pose proof (Hmax k Hk). pose proof (Hm k Hk). lia.
  - exists O. split; [done|]. split; [done|]. split; [lia|]. intros k [x Hk].
    by rewrite Hmax, lookup_empty in Hk.
Qed.

(** a receiver's ack, applied to any sender, makes it forget only
    packets the receiver holds or has delivered; and it forgets every delivered
    packet and every held one at most 4096 ids past the window's start. The
    ack's truth table is bounded, and building it never panics. *)
Theorem ack_exact r s now :
  flow_ok r ->
  exists ack, build_send_ack r = Ret ack /\ len (ack_payload ack) <= ACK_BITMAP_CAP
  /\ (forall k d, sent s !! k = Some d -> sent (handle_ack s ack now) !! k = None ->
        k < packets_want r \/ is_Some (received r !! k))
  /\ (0 < packets_want r -> forall k,
        k < packets_want r \/ (is_Some (received r !! k) /\ k < packets_want r + ACK_BITMAP_CAP) ->
        sent (handle_ack s ack now) !! k = None).
Proof.
  intros Hok. destruct (Z_lt_dec 0 (packets_want r)) as [Hw|Hw].
  2: { exists (empty_ack (camera_id r)). unfold build_send_ack. rewrite (proj2 (Z.ltb_ge _ _)) by lia.
       split; [done|]. split; [done|]. split; [|done].
       intros k d Hk Hn. change (sent (handle_ack s _ now)) with (sent s) in Hn. congruence. }
  destruct (build_send_ack_spec r Hok Hw) as (n & E & Hn1 & Hn2 & Hn3).
  destruct (first_missing_spec r Hok) as ((F1 & _) & F3 & F4).
  revert E Hn2 Hn3 F1 F3 F4. generalize (first_missing r). intros f E Hn2 Hn3 F1 F3 F4. eexists. split; [exact E|]. cbn [ack_payload].
  assert (len (bitmap (received r) f n) = Z.of_nat n) as Hl by (unfold len; by rewrite bitmap_length).
  rewrite Hl. split; [done|].
  assert (forall k, sent (handle_ack s (MkUdpAck (camera_id r) 0 (f - 1) (get_value (ack_latency r))
            (bitmap (received r) f n)) now) !! k
          = if bool_decide (f <= k < f + Z.of_nat n /\ is_Some (received r !! k)) then None
            else filter (fun kv : Z * UdpData => f - 1 < fst kv) (sent s) !! k) as Hlook.
  { intros k. unfold handle_ack. cbn [ack_packet_id ack_payload].
    rewrite (proj2 (Z.eqb_neq (f - 1) 0xffffffff)) by int_lia.
    rewrite Hl, (proj2 (Z.ltb_ge _ _)) by int_lia. cbn [sent set_sent].
    pose proof (remove_acked_bitmap (received r) (f - 1) n 0
      (filter (fun kv : Z * UdpData => f - 1 < fst kv) (sent s)) k) as H.
    replace (f - 1 + 1 + 0) with f in H by lia. apply H; lia. }
  split.
  - intros k d Hk Hn. rewrite Hlook in Hn. case_bool_decide as Hb; [right; apply Hb|].
    apply map_lookup_filter_None in Hn as [Hn|Hn]; [congruence|]. specialize (Hn d Hk). cbn in Hn.
    destruct (Z_lt_dec k (packets_want r)); [by left|]. right. apply F3. lia.
  - intros _ k Hk. rewrite Hlook. case_bool_decide as Hb; [done|].
    apply map_lookup_filter_None. right. intros d _ Hlt. cbn in Hlt. apply Hb.
    destruct Hk as [Hk|[Hk Hc]]; [lia|]. split; [|done]. split; [lia|]. apply Hn3; [done|lia].
Qed.

Lemma ack_exact_witness :
  let r := set_received (new 5 6) 1 {[2 := [9]]} in
  flow_ok r /\ exists ack, build_send_ack r = Ret ack
    /\ sent (handle_ack (new 5 6) ack 0) !! 2 = None.
Proof.
  intros r. assert (flow_ok r) as Hok.
  { split; [done|split; [done|split; [|split]]].
    - subst r. cbn [received set_received]. rewrite map_size_singleton. unfold REORDER_CAP. lia.
    - intros k x Hk. cbn [r received set_received] in Hk. apply lookup_singleton_Some in Hk as [<- _]. done.
    - intros k x Hk. cbn [r sent set_received new] in Hk. by rewrite lookup_empty in Hk. }
  split; [exact Hok|].
  destruct (ack_exact r (new 5 6) 0 Hok) as (ack & E & _ & _ & H). exists ack. split; [exact E|].
  apply H; [done|]. right. split; [by eexists|done].
Defined.
