(* ===== verification/BcXml.v ===== *)
(** * The XML documents of the control protocol ([src/baichuan/bc/xml.rs])

    One record per struct, its fields prefixed with a short form of the
    struct's name. Strings are their UTF-8 bytes, an [f32] is its bit pattern.
    The login documents and [Extension] are in [BcMsg]; [Elements] is what a
    [body] has besides the two elements the codec itself looks at. *)

From S2P Require Import Prelude.

Record LoginNet := MkLoginNet { login_net_version : bytes; login_net_type : bytes; login_net_udp_port : Z }.

Record Resolution := MkResolution { reso_name : bytes; reso_width : Z; reso_height : Z }.

Record DeviceInfo := MkDeviceInfo { dev_version : option bytes; dev_resolution : option Resolution }.

Record VersionInfo := MkVersionInfo {
  ver_name : bytes; ver_model : option bytes; ver_serialNumber : bytes; ver_buildDay : bytes;
  ver_hardwareVersion : bytes; ver_cfgVersion : bytes; ver_firmwareVersion : bytes; ver_detail : bytes
}.

Record Preview := MkPreview {
  preview_version : bytes; preview_channel_id : Z; preview_handle : Z; preview_stream_type : option bytes
}.

Record SystemGeneral := MkSystemGeneral {
  general_version : bytes; general_time_zone : option Z; general_year : option Z; general_month : option Z;
  general_day : option Z; general_hour : option Z; general_minute : option Z; general_second : option Z;
  general_osd_format : option bytes; general_time_format : option Z; general_language : option bytes;
  general_device_name : option bytes
}.

Record Norm := MkNorm { norm_version : bytes; norm_norm : bytes }.

Record Dst := MkDst {
  dst_version : bytes; dst_enable : option Z; dst_offset : option Z; dst_start_month : option Z;
  dst_start_week_index : option Z; dst_start_weekday : option bytes; dst_start_hour : option Z;
  dst_start_minute : option Z; dst_start_second : option Z; dst_end_month : option Z;
  dst_end_week_index : option Z; dst_end_weekday : option bytes; dst_end_hour : option Z;
  dst_end_minute : option Z; dst_end_second : option Z
}.

Record LedState := MkLedState {
  leds_version : bytes; leds_channel_id : Z; leds_led_version : option Z; leds_state : bytes;
  leds_light_state : bytes
}.

Record FloodlightStatus := MkFloodlightStatus { fl_status_channel_id : Z; fl_status_status : Z }.

Record FloodlightStatusList := MkFloodlightStatusList {
  fl_list_version : bytes; fl_list_floodlight_status_list : list FloodlightStatus
}.

Record FloodlightManual := MkFloodlightManual {
  manual_version : bytes; manual_channel_id : Z; manual_status : Z; manual_duration : Z
}.

Record TimeBlock := MkTimeBlock {
  time_block_enable : Z; time_block_week_day : bytes; time_block_begin_hour : Z; time_block_end_hour : Z
}.

Record TimeBlockList := MkTimeBlockList { time_block_list_time_block : list TimeBlock }.

Record AlarmHandleItem := MkAlarmHandleItem {
  alarm_handle_item_channel : Z; alarm_handle_item_handle_type : bytes
}.

Record AlarmHandle := MkAlarmHandle { alarm_handle_item : list AlarmHandleItem }.

Record RfAlarmCfg := MkRfAlarmCfg {
  rf_version : bytes; rf_rf_id : option Z; rf_enable : Z; rf_sensitivity : option Z; rf_sensiValue : option Z;
  rf_reduceFalseAlarm : option Z; rf_interval : option Z; rf_maxAlarmTime : option Z;
  rf_intervalUseRange : option Z; rf_intervalSecMin : option Z; rf_intervalSecMax : option Z;
  rf_time_block_list : option TimeBlockList; rf_alarm_handle : option AlarmHandle
}.

Record AudioConfig := MkAudioConfig {
  audio_config_priority : option Z; audio_config_audio_type : bytes; audio_config_sample_rate : Z;
  audio_config_sample_precision : Z; audio_config_length_per_encoder : Z; audio_config_sound_track : bytes
}.

Record TalkConfig := MkTalkConfig {
  talk_config_version : bytes; talk_config_channel_id : Z; talk_config_duplex : bytes;
  talk_config_audio_stream_mode : bytes; talk_config_audio_config : AudioConfig
}.

Record DuplexList := MkDuplexList { duplex_list_duplex : bytes }.

Record AudioStreamModeList := MkAudioStreamModeList { audio_stream_mode_list_audio_stream_mode : bytes }.

Record AudioConfigList := MkAudioConfigList { audio_config_list_audio_config : AudioConfig }.

Record TalkAbility := MkTalkAbility {
  talk_ability_version : bytes; talk_ability_duplex_list : list DuplexList;
  talk_ability_audio_stream_mode_list : list AudioStreamModeList;
  talk_ability_audio_config_list : list AudioConfigList
}.

Record AlarmEvent := MkAlarmEvent {
  alarm_version : bytes; alarm_channel_id : Z; alarm_status : bytes; alarm_ai_type : option bytes;
  alarm_recording : Z; alarm_timeStamp : Z
}.

Record AlarmEventList := MkAlarmEventList {
  alarm_list_version : bytes; alarm_list_alarm_events : list AlarmEvent
}.

Record PtzControl := MkPtzControl {
  ptz_control_version : bytes; ptz_control_channel_id : Z; ptz_control_speed : Z; ptz_control_command : bytes
}.

Record Preset := MkPreset { preset_id : Z; preset_name : option bytes; preset_command : bytes }.

Record PresetList := MkPresetList { presets_preset : list Preset }.

Record PtzPreset := MkPtzPreset {
  ptz_preset_version : bytes; ptz_preset_channel_id : Z; ptz_preset_preset_list : PresetList
}.

Record BatteryInfo := MkBatteryInfo {
  battery_channel_id : Z; battery_charge_status : bytes; battery_adapter_status : bytes; battery_voltage : Z;
  battery_current : Z; battery_temperature : Z; battery_battery_percent : Z; battery_low_power : Z;
  battery_battery_version : Z
}.

Record BatteryList := MkBatteryList {
  battery_list_version : bytes; battery_list_battery_info : list BatteryInfo
}.

Record AbilityInfoSubModule := MkAbilityInfoSubModule {
  sub_channel_id : option Z; sub_ability_value : bytes
}.

Record AbilityInfoToken := MkAbilityInfoToken { token_sub_module : list AbilityInfoSubModule }.

Record AbilityInfo := MkAbilityInfo {
  ability_username : bytes; ability_system : option AbilityInfoToken;
  ability_network : option AbilityInfoToken; ability_alarm : option AbilityInfoToken;
  ability_image : option AbilityInfoToken; ability_video : option AbilityInfoToken;
  ability_security : option AbilityInfoToken; ability_replay : option AbilityInfoToken;
  ability_ptz : option AbilityInfoToken; ability_io : option AbilityInfoToken;
  ability_streaming : option AbilityInfoToken
}.

Record PushInfo := MkPushInfo {
  push_info_token : bytes; push_info_phone_type : bytes; push_info_client_id : bytes
}.

Record LinkType := MkLinkType { link_type_link_type : bytes }.

Record Snap := MkSnap {
  snap_version : bytes; snap_channel_id : Z; snap_logic_channel : option Z; snap_time : Z;
  snap_full_frame : option Z; snap_stream_type : option bytes; snap_file_name : option bytes;
  snap_picture_size : option Z
}.

Record StreamResolution := MkStreamResolution { stream_resolution_width : Z; stream_resolution_height : Z }.

Record EncodeTable := MkEncodeTable {
  encode_table_name : bytes; encode_table_resolution : StreamResolution; encode_table_default_framerate : Z;
  encode_table_default_bitrate : Z; encode_table_framerate_table : bytes; encode_table_bitrate_table : bytes
}.

Record StreamInfo := MkStreamInfo {
  stream_info_channel_bits : Z; stream_info_encode_tables : list EncodeTable
}.

Record StreamInfoList := MkStreamInfoList { stream_info_list_stream_infos : list StreamInfo }.

Record Uid := MkUid { uid_version : bytes; uid_uid : bytes }.

Record ScheduleFloodLight := MkScheduleFloodLight {
  schedule_flood_light_start_hour : Z; schedule_flood_light_start_min : option Z;
  schedule_flood_light_end_hour : Z; schedule_flood_light_end_min : option Z
}.

Record LightSensThreshold := MkLightSensThreshold {
  light_sens_threshold_min : option Z; light_sens_threshold_max : option Z; light_sens_threshold_light_cur : Z;
  light_sens_threshold_dark_cur : Z; light_sens_threshold_light_def : option Z;
  light_sens_threshold_dark_def : option Z
}.

Record FloodlightScheduleList := MkFloodlightScheduleList { floodlight_schedule_list_max_num : Z }.

Record AlarmBrightness := MkAlarmBrightness {
  alarm_brightness_min : option Z; alarm_brightness_max : option Z; alarm_brightness_cur : Z;
  alarm_brightness_def : option Z
}.

Record AlarmDelay := MkAlarmDelay {
  alarm_delay_min : option Z; alarm_delay_max : option Z; alarm_delay_cur : Z; alarm_delay_def : option Z
}.

Record NightLongViewMultiBrightness := MkNightLongViewMultiBrightness {
  night_long_view_multi_brightness_enable : Z;
  night_long_view_multi_brightness_alarm_brightness : AlarmBrightness;
  night_long_view_multi_brightness_alarm_delay : AlarmDelay
}.

Record FloodlightTask := MkFloodlightTask {
  task_version : bytes; task_channel : Z; task_alarm_mode : Z; task_enable : Z; task_last_alarm_mode : Z;
  task_preview_auto : Z; task_duration : Z; task_brightness_cur : Z; task_brightness_max : option Z;
  task_brightness_min : option Z; task_schedule : ScheduleFloodLight;
  task_light_sens_threshold : LightSensThreshold; task_floodlight_schedule_list : FloodlightScheduleList;
  task_night_long_view_multi_brightness : NightLongViewMultiBrightness; task_detect_type : bytes
}.

Record HelperPosition := MkHelperPosition {
  helper_position_max_pos : Z; helper_position_min_pos : Z; helper_position_cur_pos : Z
}.

Record PtzZoomFocus := MkPtzZoomFocus {
  zf_version : bytes; zf_channel_id : Z; zf_zoom : HelperPosition; zf_focus : HelperPosition
}.

Record StartZoomFocus := MkStartZoomFocus {
  start_zf_version : bytes; start_zf_channel_id : Z; start_zf_command : bytes; start_zf_move_pos : Z
}.

Record SmartHomeItem := MkSmartHomeItem { smart_home_item_name : bytes; smart_home_item_ver : Z }.

Record SmartHome := MkSmartHome { smart_home_version : Z; smart_home_items : list SmartHomeItem }.

Record SupportItem := MkSupportItem {
  support_item_chn_id : Z; support_item_ptz_type : option Z; support_item_rf_cfg : option Z;
  support_item_no_audio : option Z; support_item_auto_focus : option Z; support_item_video_clip : option Z;
  support_item_battery : option Z; support_item_isp_cfg : option Z; support_item_osd_cfg : option Z;
  support_item_bat_analysis : option Z; support_item_dynamic_reso : option Z;
  support_item_audio_version : option Z; support_item_led_ctrl : option Z; support_item_ptz_control : option Z;
  support_item_new_isp_cfg : option Z; support_item_ptz_preset : option Z; support_item_ptz_patrol : option Z;
  support_item_ptz_tattern : option Z; support_item_auto_pt : option Z; support_item_h264_profile : option Z;
  support_item_motion : option Z; support_item_ai_type : option Z; support_item_ai_animal_type : option Z;
  support_item_timelapse : option Z; support_item_snap : option Z; support_item_enc_ctrl : option Z;
  support_item_zf_backlash : option Z; support_item_iot_link_ability : option Z;
  support_item_ipc_audio_talk : option Z; support_item_bino_cfg : option Z; support_item_thumbnail : option Z
}.

Record Support := MkSupport {
  support_version : bytes; support_io_input_port_num : option Z; support_io_output_port_num : option Z;
  support_disk_num : option Z; support_channel_num : option Z; support_audio_num : option Z;
  support_ptz_mode : option bytes; support_ptz_cfg : option Z; support_B485 : option Z;
  support_auto_update : option Z; support_push_alarm : option Z; support_ftp : option Z;
  support_ftp_test : option Z; support_email : option Z; support_wifi : option Z; support_record : option Z;
  support_wifi_test : option Z; support_rtsp : option Z; support_onvif : option Z;
  support_audio_talk : option Z; support_rf_version : option Z; support_rtmp : option Z;
  support_no_extern_stream : option Z; support_time_format : option Z; support_ddns_version : option Z;
  support_email_version : option Z; support_push_version : option Z; support_push_type : option Z;
  support_audio_alarm : option Z; support_ap_mode : option Z; support_cloud_version : option Z;
  support_replay_version : option Z; support_mob_com_version : option Z; support_export_import : option Z;
  support_language_ver : option Z; support_video_standard : option Z; support_sync_time : option Z;
  support_net_port : option Z; support_nas_version : option Z; support_need_reboot : option Z;
  support_reboot : option Z; support_audio_cfg : option Z; support_network_diagnosis : option Z;
  support_height_diff_adjust : option Z; support_upgrade : option Z; support_gps : option Z;
  support_power_saving_cfg : option Z; support_login_locked : option Z; support_view_plan : option Z;
  support_preview_replay_limit : option Z; support_iot_link : option Z; support_iot_link_action_max : option Z;
  support_record_cfg : option Z; support_large_battery : option Z; support_smart_home : option SmartHome;
  support_items : list SupportItem
}.

Record AudioPlayInfo := MkAudioPlayInfo {
  play_channel_id : Z; play_play_mode : Z; play_play_duration : Z; play_play_times : Z; play_on_off : Z
}.

Record ServerPort := MkServerPort {
  server_port_version : bytes; server_port_port : Z; server_port_enable : option Z
}.

Record HttpPort := MkHttpPort { http_port_version : bytes; http_port_port : Z; http_port_enable : option Z }.

Record HttpsPort := MkHttpsPort {
  https_port_version : bytes; https_port_port : Z; https_port_enable : option Z
}.

Record RtspPort := MkRtspPort { rtsp_port_version : bytes; rtsp_port_port : Z; rtsp_port_enable : option Z }.

Record RtmpPort := MkRtmpPort { rtmp_port_version : bytes; rtmp_port_port : Z; rtmp_port_enable : option Z }.

Record OnvifPort := MkOnvifPort {
  onvif_port_version : bytes; onvif_port_port : Z; onvif_port_enable : option Z
}.

Record Email := MkEmail {
  email_version : bytes; email_smtp_server : bytes; email_user_name : bytes; email_password : bytes;
  email_address1 : bytes; email_address2 : bytes; email_address3 : bytes; email_smtp_port : Z;
  email_send_nickname : bytes; email_attachment : Z; email_attachment_type : option bytes;
  email_text_type : bytes; email_ssl : Z; email_interval : Z; email_sender_max_len : option Z
}.

Record Schedule := MkSchedule { schedule_alarm_type : bytes; schedule_time_block_list : TimeBlockList }.

Record ScheduleList := MkScheduleList { schedule_list_schedule : Schedule }.

Record EmailTask := MkEmailTask {
  email_task_version : bytes; email_task_channel_id : Z; email_task_enable : Z;
  email_task_schedule_list : option ScheduleList
}.

Record User := MkUser {
  user_user_name : bytes; user_password : option bytes; user_user_id : option Z; user_user_level : Z;
  user_login_state : option Z; user_user_set_state : bytes
}.

Record UserList := MkUserList { users_version : bytes; users_user_list : option (list User) }.

(** The elements of a [body] but for the two the codec looks at. *)
Record Elements := MkElements {
  login_net : option LoginNet; device_info : option DeviceInfo; version_info : option VersionInfo;
  preview : option Preview; system_general : option SystemGeneral; norm : option Norm; dst : option Dst;
  led_state : option LedState; talk_config : option TalkConfig; rf_alarm_cfg : option RfAlarmCfg;
  talk_ability : option TalkAbility; alarm_event_list : option AlarmEventList; ptz_control : option PtzControl;
  floodlight_manual : option FloodlightManual; floodlight_status_list : option FloodlightStatusList;
  ptz_preset : option PtzPreset; battery_list : option BatteryList; battery_info : option BatteryInfo;
  ability_info : option AbilityInfo; push_info : option PushInfo; link_type : option LinkType;
  snap : option Snap; stream_info_list : option StreamInfoList; uid : option Uid;
  floodlight_task : option FloodlightTask; ptz_zoom_focus : option PtzZoomFocus;
  start_zoom_focus : option StartZoomFocus; support : option Support; audio_play_info : option AudioPlayInfo;
  server_port : option ServerPort; http_port : option HttpPort; https_port : option HttpsPort;
  rtsp_port : option RtspPort; rtmp_port : option RtmpPort; onvif_port : option OnvifPort;
  email : option Email; email_task : option EmailTask; user_list : option UserList
}.


(** [BcXml::default()], but for those two. *)
Definition no_elements : Elements :=
  MkElements None None None None None None None None None None None None None None None None None None None None
    None None None None None None None None None None None None None None None None None None.

(** A [body] with one element, the others default. *)
Definition only_login_net (x : LoginNet) : Elements :=
  MkElements (Some x) None None None None None None None None None None None None None None None None None None None
    None None None None None None None None None None None None None None None None None None.
Definition only_device_info (x : DeviceInfo) : Elements :=
  MkElements None (Some x) None None None None None None None None None None None None None None None None None None
    None None None None None None None None None None None None None None None None None None.
Definition only_version_info (x : VersionInfo) : Elements :=
  MkElements None None (Some x) None None None None None None None None None None None None None None None None None
    None None None None None None None None None None None None None None None None None None.
Definition only_preview (x : Preview) : Elements :=
  MkElements None None None (Some x) None None None None None None None None None None None None None None None None
    None None None None None None None None None None None None None None None None None None.
Definition only_system_general (x : SystemGeneral) : Elements :=
  MkElements None None None None (Some x) None None None None None None None None None None None None None None None
    None None None None None None None None None None None None None None None None None None.
Definition only_dst (x : Dst) : Elements :=
  MkElements None None None None None None (Some x) None None None None None None None None None None None None None
    None None None None None None None None None None None None None None None None None None.
Definition only_led_state (x : LedState) : Elements :=
  MkElements None None None None None None None (Some x) None None None None None None None None None None None None
    None None None None None None None None None None None None None None None None None None.
Definition only_rf_alarm_cfg (x : RfAlarmCfg) : Elements :=
  MkElements None None None None None None None None None (Some x) None None None None None None None None None None
    None None None None None None None None None None None None None None None None None None.
Definition only_ptz_control (x : PtzControl) : Elements :=
  MkElements None None None None None None None None None None None None (Some x) None None None None None None None
    None None None None None None None None None None None None None None None None None None.
Definition only_floodlight_manual (x : FloodlightManual) : Elements :=
  MkElements None None None None None None None None None None None None None (Some x) None None None None None None
    None None None None None None None None None None None None None None None None None None.
Definition only_ptz_preset (x : PtzPreset) : Elements :=
  MkElements None None None None None None None None None None None None None None None (Some x) None None None None
    None None None None None None None None None None None None None None None None None None.
Definition only_battery_info (x : BatteryInfo) : Elements :=
  MkElements None None None None None None None None None None None None None None None None None (Some x) None None
    None None None None None None None None None None None None None None None None None None.
Definition only_ability_info (x : AbilityInfo) : Elements :=
  MkElements None None None None None None None None None None None None None None None None None None (Some x) None
    None None None None None None None None None None None None None None None None None None.
Definition only_link_type (x : LinkType) : Elements :=
  MkElements None None None None None None None None None None None None None None None None None None None None
    (Some x) None None None None None None None None None None None None None None None None None.
Definition only_snap (x : Snap) : Elements :=
  MkElements None None None None None None None None None None None None None None None None None None None None
    None (Some x) None None None None None None None None None None None None None None None None.
Definition only_floodlight_task (x : FloodlightTask) : Elements :=
  MkElements None None None None None None None None None None None None None None None None None None None None
    None None None None (Some x) None None None None None None None None None None None None None.
Definition only_ptz_zoom_focus (x : PtzZoomFocus) : Elements :=
  MkElements None None None None None None None None None None None None None None None None None None None None
    None None None None None (Some x) None None None None None None None None None None None None.
Definition only_start_zoom_focus (x : StartZoomFocus) : Elements :=
  MkElements None None None None None None None None None None None None None None None None None None None None
    None None None None None None (Some x) None None None None None None None None None None None.
Definition only_support (x : Support) : Elements :=
  MkElements None None None None None None None None None None None None None None None None None None None None
    None None None None None None None (Some x) None None None None None None None None None None.
Definition only_audio_play_info (x : AudioPlayInfo) : Elements :=
  MkElements None None None None None None None None None None None None None None None None None None None None
    None None None None None None None None (Some x) None None None None None None None None None.
Definition only_server_port (x : ServerPort) : Elements :=
  MkElements None None None None None None None None None None None None None None None None None None None None
    None None None None None None None None None (Some x) None None None None None None None None.
Definition only_http_port (x : HttpPort) : Elements :=
  MkElements None None None None None None None None None None None None None None None None None None None None
    None None None None None None None None None None (Some x) None None None None None None None.
Definition only_https_port (x : HttpsPort) : Elements :=
  MkElements None None None None None None None None None None None None None None None None None None None None
    None None None None None None None None None None None (Some x) None None None None None None.
Definition only_rtsp_port (x : RtspPort) : Elements :=
  MkElements None None None None None None None None None None None None None None None None None None None None
    None None None None None None None None None None None None (Some x) None None None None None.
Definition only_rtmp_port (x : RtmpPort) : Elements :=
  MkElements None None None None None None None None None None None None None None None None None None None None
    None None None None None None None None None None None None None (Some x) None None None None.
Definition only_onvif_port (x : OnvifPort) : Elements :=
  MkElements None None None None None None None None None None None None None None None None None None None None
    None None None None None None None None None None None None None None (Some x) None None None.
Definition only_user_list (x : UserList) : Elements :=
  MkElements None None None None None None None None None None None None None None None None None None None None
    None None None None None None None None None None None None None None None None None (Some x).

(** [xml_ver()] *)
Definition xml_ver : bytes := [49; 46; 49].

(** [LoginNet::default()] *)
Definition LoginNet_default : LoginNet := MkLoginNet xml_ver [76; 65; 78] 0.
