(* ===== verification/BcMsg.v ===== *)
(** * The Baichuan message protocol ([src/baichuan/bc/])

    The control protocol of the cameras: a 20 or 24 byte header, an optional
    XML extension and a payload, XML or binary, under the session's cipher.
    [Module De] is [de.rs], [Module Ser] is [ser.rs]; the codec with the cipher
    negotiation and the binary mode is [codex.rs].

    The XML documents are read and written by [quick_xml] through serde: the
    interface [QuickXml] gives the two conversions of each document. [BcXml] has
    the two elements the codec looks at; the others are one field,
    [elements], a record of [BcXml]. Strings are their UTF-8 bytes. *)

From S2P Require Import Prelude Wire XorCrypto BcXml.

Definition MAGIC_HEADER : Z := 0x0abcdef0.
Definition MAGIC_HEADER_REV : Z := 0x0fedcba0.
Definition MSG_ID_LOGIN : Z := 1.
Definition MAX_BC_BODY_LEN : Z := 8 * 1024 * 1024.

(** ** The XML the codec looks at ([xml.rs]) *)

Record Extension := MkExtension {
  version : bytes;
  binary_data : option Z;
  user_name : option bytes;
  token : option bytes;
  ext_channel_id : option Z;
  rf_id : option Z;
  check_pos : option Z;
  check_value : option Z;
  encrypt_len : option Z
}.

Record Ecdhe := MkEcdhe {
  public_key_algo : bytes;
  ecdhe_public_key : bytes;
  public_key_sign : bytes;
  iterations : Z
}.

Record Encryption := MkEncryption {
  enc_version : bytes;
  type_ : bytes;
  nonce : bytes;
  auth_type_list : option (list bytes);
  sig_ver : option bytes;
  ecdhe : option Ecdhe
}.

Record AuthInfo := MkAuthInfo { auth_code : bytes; phone_model : option bytes }.

Record LoginUser := MkLoginUser {
  login_version : bytes;
  auth_type : option bytes;
  login_user_name : bytes;
  login_password : bytes;
  user_ver : Z;
  client_type : option bytes;
  public_key : option bytes;
  token_key : option bytes;
  cipher_content : option bytes;
  cert_chain : option bytes;
  auth_info : option AuthInfo;
  session_aes : option (bytes * bytes)
}.

Record BcXml (E : Type) := MkBcXml {
  encryption : option Encryption;
  login_user : option LoginUser;
  elements : E
}.
Arguments MkBcXml {E} encryption login_user elements.
Arguments encryption {E} b.
Arguments login_user {E} b.
Arguments elements {E} b.

Class QuickXml := {
  de_body : bytes -> option (BcXml Elements);
  ser_body : BcXml Elements -> option bytes;
  de_extension : bytes -> option Extension;
  ser_extension : Extension -> option bytes
}.

(** ** [encode_certchain_newlines] *)

(** [hay.windows(needle.len()).position(..)]. *)
Fixpoint find (hay needle : bytes) : option nat :=
  if bool_decide (take (length needle) hay = needle) then Some 0%nat
  else match hay with
       | [] => None
       | _ :: hay => S <$> find hay needle
       end.

(** ["<certChain>"], ["</certChain>"], ["&#x0A;"] and ["&#x0D;"]. *)
Definition OPEN : bytes := [60; 99; 101; 114; 116; 67; 104; 97; 105; 110; 62].
Definition CLOSE : bytes := [60; 47; 99; 101; 114; 116; 67; 104; 97; 105; 110; 62].
Definition LF_ref : bytes := [38; 35; 120; 48; 65; 59].
Definition CR_ref : bytes := [38; 35; 120; 48; 68; 59].

Definition newline_ref (b : Z) : bytes :=
  if b =? 10 then LF_ref else if b =? 13 then CR_ref else [b].

Definition encode_certchain_newlines (buf : bytes) : bytes :=
  match find buf OPEN with
  | None => buf
  | Some open =>
      let inner := (open + length OPEN)%nat in
      match find (drop inner buf) CLOSE with
      | None => buf
      | Some rel_close =>
          let close := (inner + rel_close)%nat in
          take inner buf ++ concat (map newline_ref (take rel_close (drop inner buf)))
          ++ drop close buf
      end
  end.

Section model.
Context `{X : QuickXml} `{A : Aes128Cfb} `{H5 : Md5}.

(** [BcXml::serialize]; [BcXml::try_parse] and [Extension]'s two methods are
    the interface's. *)
Definition xml_serialize (x : BcXml Elements) : option bytes :=
  b ← ser_body x; Some (encode_certchain_newlines b).

(** ** Messages ([model.rs]) *)

Inductive BcPayloads :=
| BcXmlPayload (x : BcXml Elements)
| Binary (b : bytes).

Record ModernMsg := MkModernMsg { extension : option Extension; payload : option BcPayloads }.

Inductive LegacyMsg :=
| LoginMsg (username password : bytes)
| LoginUpgrade
| UnknownMsg.

Inductive BcBody :=
| Legacy (m : LegacyMsg)
| Modern (m : ModernMsg).

Record BcMeta := MkBcMeta {
  msg_id : Z;
  channel_id : Z;
  stream_type : Z;
  response_code : Z;
  msg_num : Z;
  class : Z
}.

Record Bc := MkBc { meta : BcMeta; body : BcBody }.

Record BcHeader := MkBcHeader {
  body_len : Z;
  h_msg_id : Z;
  h_channel_id : Z;
  h_stream_type : Z;
  h_msg_num : Z;
  h_response_code : Z;
  h_class : Z;
  payload_offset : option Z
}.

Record Credentials := MkCredentials { username : bytes; password : option bytes }.

Record BcContext := MkBcContext {
  credentials : Credentials;
  in_bin_mode : gset Z;
  encryption_protocol : EncryptionProtocol;
  debug : bool
}.

Definition new_context (c : Credentials) : BcContext := MkBcContext c ∅ Unencrypted false.

Definition set_encrypted (c : BcContext) (p : EncryptionProtocol) : BcContext :=
  MkBcContext (credentials c) (in_bin_mode c) p (debug c).

Definition binary_on (c : BcContext) (n : Z) : BcContext :=
  MkBcContext (credentials c) ({[n]} ∪ in_bin_mode c) (encryption_protocol c) (debug c).

Definition binary_off (c : BcContext) (n : Z) : BcContext :=
  MkBcContext (credentials c) (in_bin_mode c ∖ {[n]}) (encryption_protocol c) (debug c).

Definition debug_on (c : BcContext) : BcContext :=
  MkBcContext (credentials c) (in_bin_mode c) (encryption_protocol c) true.

Definition new_bc (m : BcMeta) (e : option Extension) (p : option BcPayloads) : Bc :=
  MkBc m (Modern (MkModernMsg e p)).

Definition is_modern (h : BcHeader) : bool := negb (h_class h =? 0x6514).

Definition to_meta (h : BcHeader) : BcMeta :=
  MkBcMeta (h_msg_id h) (h_channel_id h) (h_stream_type h) (h_response_code h) (h_msg_num h)
    (h_class h).

Definition from_meta (m : BcMeta) (body_len : Z) (payload_offset : option Z) : BcHeader :=
  MkBcHeader body_len (msg_id m) (channel_id m) (stream_type m) (msg_num m) (response_code m)
    (class m) payload_offset.

Definition has_payload_offset (class : Z) : bool := (class =? 0x6414) || (class =? 0x0000).

(** [{:X}] of a digest. *)
Definition hex_upper (d : Z) : Z := if d <? 10 then 48 + d else 55 + d.

Definition md5_upper (b : bytes) : bytes :=
  concat (map (fun x => [hex_upper (x / 16); hex_upper (x mod 16)]) (md5 b)).

(** [Credentials::make_aeskey]. *)
Definition make_aeskey (c : Credentials) (nonce : bytes) : bytes :=
  let password := default [] (password c) in
  let key_phrase := nonce ++ [45] ++ password in
  let key_phrase_hash := md5_upper key_phrase ++ [0] in
  if (16 <=? length key_phrase_hash)%nat then take 16 key_phrase_hash else replicate 16 0.

End model.

(** ** The parser ([de.rs]) *)

Module De.
Section de.
Context `{X : QuickXml} `{A : Aes128Cfb} `{N : Nom}.

Definition hex32 : parser bytes :=
  map_res (nom_take 32) (fun s => if utf8_valid s then Some s else None).

Definition bc_legacy_login_msg (buf : bytes) : IResult LegacyMsg :=
  let? (buf, username) := hex32 buf in
  let? (buf, password) := hex32 buf in
  Ok (buf, LoginMsg username password).

(** The extension, whether the payload is binary, and its encrypted length. *)
Definition read_extension (context : BcContext) (h : BcHeader) (ext_len : Z) (ext_buf : bytes)
    : result (option Extension * bool * option Z) nom_err :=
  let processed_ext_buf :=
    match encryption_protocol context with
    | Unencrypted => ext_buf
    | p => decrypt p (h_channel_id h) ext_buf
    end in
  if 0 <? ext_len then
    match de_extension processed_ext_buf with
    | None => Err NomErr
    | Some parsed =>
        match binary_data parsed with
        | Some 1 => Ok (Some parsed, true, encrypt_len parsed)
        | _ => Ok (Some parsed, false, None)
        end
    end
  else Ok (None, false, None).

(** The cipher of the payload: during login it is capped at [BCEncrypt]. *)
Definition payload_protocol (context : BcContext) (h : BcHeader) : EncryptionProtocol :=
  if (h_msg_id h =? 1) && (Z.land (Z.shiftr (h_response_code h) 8) 0xff =? 0xdd) then
    if Z.land (h_response_code h) 0xff =? 0x00 then Unencrypted else BCEncrypt
  else if h_msg_id h =? 1 then
    match encryption_protocol context with
    | Aes _ | FullAes _ => BCEncrypt
    | n => n
    end
  else encryption_protocol context.

Definition read_payload (context : BcContext) (h : BcHeader) (payload_len : Z) (payload_buf : bytes)
    (in_binary : bool) (encrypted_len : option Z) : result (option BcPayloads) nom_err :=
  if 0 <? payload_len then
    let processed_payload_buf := decrypt (payload_protocol context h) (h_channel_id h) payload_buf in
    if bool_decide (h_msg_num h ∈ in_bin_mode context) || in_binary then
      match encryption_protocol context, encrypted_len with
      | FullAes _, Some n =>
          Ok (Some (Binary (take (Z.to_nat (Z.min n (len processed_payload_buf)))
                              processed_payload_buf)))
      | _, _ => Ok (Some (Binary payload_buf))
      end
    else
      match de_body processed_payload_buf with
      | None => Err NomErr
      | Some xml => Ok (Some (BcXmlPayload xml))
      end
  else Ok None.

Definition bc_modern_msg (context : BcContext) (h : BcHeader) (buf : bytes) : IResult ModernMsg :=
  let ext_len := default 0 (payload_offset h) in
  if body_len h <? ext_len then Err NomFailure
  else
    let? (buf, ext_buf) := nom_take ext_len buf in
    let payload_len := body_len h - ext_len in
    let? (buf, payload_buf) := nom_take payload_len buf in
    let? (extension, in_binary, encrypted_len) := read_extension context h ext_len ext_buf in
    let? payload := read_payload context h payload_len payload_buf in_binary encrypted_len in
    Ok (buf, MkModernMsg extension payload).

Definition bc_body (context : BcContext) (h : BcHeader) (buf : bytes) : IResult BcBody :=
  if is_modern h then
    let? (buf, body) := bc_modern_msg context h buf in Ok (buf, Modern body)
  else
    let? (buf, body) :=
      if h_msg_id h =? MSG_ID_LOGIN then bc_legacy_login_msg buf else Ok (buf, UnknownMsg) in
    Ok (buf, Legacy body).

Definition is_magic (x : Z) : bool := (x =? MAGIC_HEADER) || (x =? MAGIC_HEADER_REV).

Definition bc_header (buf : bytes) : IResult BcHeader :=
  let? (buf, _) := verify le_u32 is_magic buf in
  let? (buf, msg_id) := le_u32 buf in
  let? (buf, body_len) := verify le_u32 (fun n => n <=? MAX_BC_BODY_LEN) buf in
  let? (buf, channel_id) := le_u8 buf in
  let? (buf, stream_type) := le_u8 buf in
  let? (buf, msg_num) := le_u16 buf in
  let? (buf, (response_code, class)) := nom_pair le_u16 le_u16 buf in
  let? (buf, payload_offset) := cond (has_payload_offset class) le_u32 buf in
  Ok (buf, MkBcHeader body_len msg_id channel_id stream_type msg_num response_code class
             payload_offset).

Definition bc_msg (context : BcContext) (buf : bytes) : IResult Bc :=
  let? (buf, header) := bc_header buf in
  let? (buf, body) := bc_body context header buf in
  Ok (buf, MkBc (to_meta header) body).

Definition deserialize (context : BcContext) (buf : bytes) : result Bc Error * bytes :=
  match consumed (bc_msg context) buf with
  | Ok (_, (parsed_buff, result)) => (Ok result, drop (length parsed_buff) buf)
  | Err e => (Err (nom_error e), buf)
  end.
End de.
End De.

(** ** The serializer ([ser.rs]) *)

Module Ser.
Section ser.
Context `{X : QuickXml} `{A : Aes128Cfb} `{C : CookieFactory}.

Definition do_nothing : SerializeFn := fun buf => Ok buf.

Definition opt {T} (o : option T) (ser : T -> SerializeFn) : SerializeFn :=
  match o with Some v => ser v | None => do_nothing end.

Definition bc_ext_bytes (enc_offset : Z) (xml_bytes : bytes) (p : EncryptionProtocol) : SerializeFn :=
  cf_slice (encrypt p enc_offset xml_bytes).

Definition bc_payload_bytes (enc_offset : Z) (payload_bytes : bytes) (is_xml : bool)
    (p : EncryptionProtocol) : SerializeFn :=
  cf_slice (if is_xml then encrypt p enc_offset payload_bytes else payload_bytes).

Definition bc_header (h : BcHeader) : SerializeFn :=
  cf_tuple [cf_le_u32 MAGIC_HEADER; cf_le_u32 (h_msg_id h); cf_le_u32 (body_len h);
    cf_le_u8 (h_channel_id h); cf_le_u8 (h_stream_type h); cf_le_u16 (h_msg_num h);
    cf_le_u16 (h_response_code h); cf_le_u16 (h_class h); opt (payload_offset h) cf_le_u32].

Definition bc_legacy (l : LegacyMsg) : SerializeFn := fun out =>
  match l with
  | LoginMsg username password =>
      if negb (length username =? 32)%nat || negb (length password =? 32)%nat then Err GenError
      else cf_tuple [cf_slice username; cf_slice password; cf_slice (replicate (Z.to_nat 1772) 0)] out
  | LoginUpgrade => cf_slice [] out
  | UnknownMsg => Err GenError
  end.

(** The extension's and the payload's bytes before encryption. *)
Definition extension_bytes (m : ModernMsg) : result (option bytes) Error :=
  match extension m with
  | Some e => match ser_extension e with Some b => Ok (Some b) | None => Err GenError end
  | None => Ok None
  end.

Definition payload_bytes (m : ModernMsg) : result (option bytes) Error :=
  match payload m with
  | Some (BcXmlPayload x) =>
      match xml_serialize x with Some b => Ok (Some b) | None => Err GenError end
  | Some (Binary b) => Ok (Some b)
  | None => Ok None
  end.

Definition payload_is_xml (m : ModernMsg) : bool :=
  match payload m with Some (BcXmlPayload _) => true | _ => false end.

(** The body and the payload offset. *)
Definition serialize_body (bc : Bc) (p : EncryptionProtocol) : result (bytes * option Z) Error :=
  match body bc with
  | Modern modern =>
      let? ext_bytes := extension_bytes modern in
      let? payload_bytes := payload_bytes modern in
      let? (temp_buf, ext_len) :=
        cf_gen_count (opt ext_bytes (fun b => bc_ext_bytes (channel_id (meta bc)) b p)) [] in
      let payload_offset :=
        if has_payload_offset (class (meta bc)) then
          Some (match extension modern with Some _ => wrap 32 ext_len | None => 0 end)
        else None in
      let? (temp_buf, _) :=
        cf_gen_count (opt payload_bytes (fun b =>
          bc_payload_bytes (channel_id (meta bc)) b (payload_is_xml modern) p)) temp_buf in
      Ok (temp_buf, payload_offset)
  | Legacy legacy =>
      let? (buf, _) := cf_gen_count (bc_legacy legacy) [] in
      Ok (buf, None)
  end.

Definition serialize (bc : Bc) (buf : bytes) (p : EncryptionProtocol) : result bytes Error :=
  let? (body_buf, payload_offset) := serialize_body bc p in
  let header := from_meta (meta bc) (wrap 32 (len body_buf)) payload_offset in
  let? (buf, _) := cf_gen_count (cf_tuple [bc_header header; cf_slice body_buf]) buf in
  Ok buf.
End ser.
End Ser.

(** ** The codec ([codex.rs]) *)

Section codec.
Context `{X : QuickXml} `{A : Aes128Cfb} `{H5 : Md5} `{N : Nom} `{C : CookieFactory}.

Record BcCodex := MkBcCodex {
  context : BcContext;
  pending_session_aes : option (Z * bytes * bytes)
}.

Definition new (c : Credentials) : BcCodex := MkBcCodex (new_context c) None.

Definition new_with_debug (c : Credentials) : BcCodex := MkBcCodex (debug_on (new_context c)) None.

(** A [LoginUser] that carries a public key; its session key, if any. *)
Definition signed_login_aes (item : Bc) : option (option (bytes * bytes)) :=
  match body item with
  | Modern (MkModernMsg _ (Some (BcXmlPayload xml))) =>
      lu ← login_user xml; _ ← public_key lu; Some (session_aes lu)
  | _ => None
  end.

Definition arm_session (s : BcCodex) (item : Bc) : BcCodex :=
  match signed_login_aes item with
  | Some session_aes =>
      MkBcCodex (set_encrypted (context s) BCEncrypt)
        ((fun ki => (msg_num (meta item), fst ki, snd ki)) <$> session_aes)
  | None => s
  end.

Definition enc_protocol (c : BcContext) (m : BcMeta) : EncryptionProtocol :=
  match encryption_protocol c with
  | Aes _ | FullAes _ => if msg_id m =? 1 then BCEncrypt else encryption_protocol c
  | n => n
  end.

Definition encode (s : BcCodex) (item : Bc) (dst : bytes) : result bytes Error * BcCodex :=
  let s := arm_session s item in
  (let? buf := Ser.serialize item [] (enc_protocol (context s) (meta item)) in Ok (dst ++ buf), s).

(** The reply to an armed login resolves it. *)
Definition resolve_session (s : BcCodex) (bc : Bc) : BcCodex :=
  match pending_session_aes s with
  | Some (n, key, iv) =>
      if (msg_id (meta bc) =? 1) && (msg_num (meta bc) =? n) then
        MkBcCodex
          (if response_code (meta bc) =? 200
           then set_encrypted (context s) (full_aes_with_iv key iv) else context s) None
      else s
  | None => s
  end.

(** A login reply that names the session's cipher. *)
Definition negotiate (c : BcContext) (bc : Bc) : result BcContext Error :=
  match bc with
  | MkBc m (Modern (MkModernMsg _ (Some (BcXmlPayload xml)))) =>
      if msg_id m =? 1 then
        match encryption xml with
        | Some e =>
            if Z.shiftr (response_code m) 8 =? 0xdd then
              let b := Z.land (response_code m) 0xff in
              if b =? 0x00 then Ok (set_encrypted c Unencrypted)
              else if b =? 0x01 then Ok (set_encrypted c BCEncrypt)
              else if b =? 0x02 then Ok (set_encrypted c (aes (make_aeskey (credentials c) (nonce e))))
              else if b =? 0x12 then Ok (set_encrypted c (full_aes (make_aeskey (credentials c) (nonce e))))
              else Err (UnknownEncryption b)
            else Ok c
        | None => Ok c
        end
      else Ok c
  | _ => Ok c
  end.

(** The binary mode of the message number. *)
Definition track_binary (c : BcContext) (bc : Bc) : BcContext :=
  match body bc with
  | Modern (MkModernMsg (Some e) _) =>
      match binary_data e with
      | Some on_off =>
          if on_off =? 0 then binary_off c (msg_num (meta bc)) else binary_on c (msg_num (meta bc))
      | None => c
      end
  | _ => c
  end.

Definition decode (s : BcCodex) (src : bytes) : result (option Bc) Error * BcCodex * bytes :=
  match De.deserialize (context s) src with
  | (Err NomIncomplete, src) => (Ok None, s, src)
  | (Err e, src) => (Err e, s, src)
  | (Ok bc, src) =>
      let s := resolve_session s bc in
      match negotiate (context s) bc with
      | Err e => (Err e, s, src)
      | Ok c => (Ok (Some bc), MkBcCodex (track_binary c bc) (pending_session_aes s), src)
      end
  end.

Definition decode_eof (s : BcCodex) (src : bytes) : result (option Bc) Error * BcCodex * bytes :=
  decode s src.
End codec.

(** ** What a message looks like on the wire *)

Section wire.
Context `{X : QuickXml} `{A : Aes128Cfb} `{!Aes128CfbLaws A} `{H5 : Md5}.
Context `{N : Nom} `{!NomLaws N} `{C : CookieFactory} `{!CookieFactoryLaws C}.

(** The cipher the peer writes a message with, for a reader in context [c]. *)
Definition peer_protocol (c : BcContext) (m : BcMeta) : EncryptionProtocol :=
  De.payload_protocol c (from_meta m 0 None).

(** It is the codec's own, but for the replies that negotiate the cipher. *)
Lemma peer_enc_protocol c m :
  msg_id m <> 1 \/ Z.land (Z.shiftr (response_code m) 8) 0xff <> 0xdd ->
  peer_protocol c m = enc_protocol c m.
Proof.
  intros H. unfold peer_protocol, De.payload_protocol, enc_protocol, from_meta.
  cbn [h_msg_id h_response_code].
  destruct (Z.eqb_spec (msg_id m) 1) as [E|E]; cbn [andb].
  - destruct H as [?|H]; [done|]. rewrite (proj2 (Z.eqb_neq _ _)) by done.
    by destruct (encryption_protocol c).
  - by destruct (encryption_protocol c).
Qed.

(** The extension announces a binary payload. *)
Definition announces_binary (e : option Extension) : bool :=
  match e with
  | Some x => match binary_data x with Some 1 => true | _ => false end
  | None => false
  end.

Definition binary_mode (c : BcContext) (m : BcMeta) (e : option Extension) : bool :=
  bool_decide (msg_num m ∈ in_bin_mode c) || announces_binary e.

(** A document that survives [quick_xml]: it is written as [d] and read back. *)
Definition document {D} (ser : D -> option bytes) (de : bytes -> option D) (x : D) (d : bytes) : Prop :=
  ser x = Some d /\ de d = Some x /\ d <> [] /\ bytes_ok d.

(** [eb] encodes the extension of a message that [c] can read: one that is
    sent under the session's own cipher, not under the cap of a login. *)
Definition ext_on_wire (c : BcContext) (m : BcMeta) (e : option Extension) (eb : bytes) : Prop :=
  match e with
  | None => eb = []
  | Some x => has_payload_offset (class m) = true
      /\ peer_protocol c m = encryption_protocol c
      /\ exists d, document ser_extension de_extension x d
           /\ eb = encrypt (encryption_protocol c) (channel_id m) d
  end.

(** [pb] encodes the payload: an XML document outside binary mode, under the
    cipher its reader will use; or bytes in binary mode, which are sent in the
    clear. *)
Definition payload_on_wire (c : BcContext) (m : BcMeta) (e : option Extension)
    (p : option BcPayloads) (pb : bytes) : Prop :=
  match p with
  | None => pb = []
  | Some (BcXmlPayload x) => binary_mode c m e = false
      /\ exists d, document xml_serialize de_body x d /\ pb = encrypt (peer_protocol c m) (channel_id m) d
  | Some (Binary b) => binary_mode c m e = true /\ b <> [] /\ pb = b
      /\ match encryption_protocol c with
         | FullAes _ => announces_binary e = true -> (e ≫= encrypt_len) = None
         | _ => True
         end
  end.

Definition meta_ok (m : BcMeta) : Prop :=
  u32 (msg_id m) /\ u8 (channel_id m) /\ u8 (stream_type m) /\ u16 (msg_num m)
  /\ u16 (response_code m) /\ u16 (class m).

(** A modern message that fits a reader in context [c]. *)
Definition msg_ok (c : BcContext) (m : Bc) : Prop :=
  meta_ok (meta m) /\ class (meta m) <> 0x6514 /\
  match body m with
  | Modern (MkModernMsg e p) => exists eb pb, ext_on_wire c (meta m) e eb
      /\ payload_on_wire c (meta m) e p pb /\ len (eb ++ pb) <= MAX_BC_BODY_LEN
  | Legacy _ => False
  end.

Definition header_wire (m : BcMeta) (n : Z) (off : option Z) : bytes :=
  to_le_bytes 4 MAGIC_HEADER ++ to_le_bytes 4 (msg_id m) ++ to_le_bytes 4 n
  ++ to_le_bytes 1 (channel_id m) ++ to_le_bytes 1 (stream_type m) ++ to_le_bytes 2 (msg_num m)
  ++ to_le_bytes 2 (response_code m) ++ to_le_bytes 2 (class m)
  ++ match off with Some o => to_le_bytes 4 o | None => [] end.

Definition offset_of (m : BcMeta) (eb : bytes) : option Z :=
  if has_payload_offset (class m) then Some (len eb) else None.

Lemma encrypt_nonempty p o d : d <> [] -> encrypt p o d <> [].
Proof.
  intros Hd He. apply Hd, length_zero_iff_nil. by rewrite <- (encrypt_length p o d), He.
Qed.

Lemma writes_opt {T} (o : option T) ser e :
  match o with Some v => writes (ser v) e | None => e = [] end -> writes (Ser.opt o ser) e.
Proof. destruct o; simpl; [done|]. intros -> buf. unfold Ser.do_nothing. by rewrite app_nil_r. Qed.

Lemma writes_header m n off :
  writes (Ser.bc_header (from_meta m n off)) (header_wire m n off).
Proof.
  unfold Ser.bc_header, header_wire.
  assert (writes (Ser.opt off cf_le_u32) (match off with Some o => to_le_bytes 4 o | None => [] end)).
  { apply writes_opt. destruct off; [apply cf_le_u32_ok|done]. }
  wire_eq.
Qed.

Lemma reads_header m n off :
  meta_ok m -> 0 <= n <= MAX_BC_BODY_LEN ->
  match off with Some o => u32 o /\ has_payload_offset (class m) = true
            | None => has_payload_offset (class m) = false end ->
  reads De.bc_header (header_wire m n off) (from_meta m n off).
Proof.
  intros (H1 & H2 & H3 & H4 & H5' & H6) Hn Ho. unfold header_wire, De.bc_header.
  reads_next; [done|done|]. reads_next; [done|].
  reads_next; [unfold MAX_BC_BODY_LEN in *; int_lia|apply Z.leb_le; lia|].
  reads_next; [done|]. reads_next; [done|]. reads_next; [done|].
  rewrite (app_assoc (to_le_bytes 2 (response_code m))).
  eapply reads_bind; [apply reads_pair; [by apply reads_u16|by apply reads_u16]|]. cbv beta iota.
  eapply reads_last; [|cbv beta iota; apply reads_ret].
  destruct off as [o|].
  - destruct Ho as [Ho ->]. by apply reads_cond_true, reads_u32.
  - rewrite Ho. apply reads_cond_false.
Qed.

Lemma len_pos (b : bytes) : b <> [] -> 0 < len b.
Proof. unfold len. destruct b; [done|simpl; lia]. Qed.

Lemma read_extension_wire c m n off e eb :
  ext_on_wire c m e eb ->
  De.read_extension c (from_meta m n off) (len eb) eb
  = Ok (e, announces_binary e, if announces_binary e then e ≫= encrypt_len else None).
Proof.
  unfold De.read_extension. destruct e as [x|]; cbn [ext_on_wire announces_binary from_meta h_channel_id];
    [|by intros ->].
  intros (_ & _ & d & (_ & Hd & Hne & Hok) & ->).
  rewrite (proj2 (Z.ltb_lt _ _)) by (by apply len_pos, encrypt_nonempty).
  assert (match encryption_protocol c with
          | Unencrypted => encrypt (encryption_protocol c) (channel_id m) d
          | p => decrypt p (channel_id m) (encrypt (encryption_protocol c) (channel_id m) d)
          end = d) as ->.
  { destruct (encryption_protocol c); [done|by apply decrypt_encrypt..]. }
  rewrite Hd. destruct (binary_data x) as [[|[| |]|]|]; done.
Qed.

Lemma read_payload_wire c m n off e p pb :
  payload_on_wire c m e p pb ->
  De.read_payload c (from_meta m n off) (len pb) pb (announces_binary e)
    (if announces_binary e then e ≫= encrypt_len else None) = Ok p.
Proof.
  unfold De.read_payload. cbn [h_channel_id h_msg_num from_meta].
  change (De.payload_protocol c (from_meta m n off)) with (peer_protocol c m).
  destruct p as [[x|b]|]; cbn [payload_on_wire]; [| |by intros ->].
  - intros (Hb & d & (_ & Hd & Hne & Hok) & ->).
    rewrite (proj2 (Z.ltb_lt _ _)) by (by apply len_pos, encrypt_nonempty).
    unfold binary_mode in Hb. rewrite Hb, decrypt_encrypt by done. by rewrite Hd.
  - intros (Hb & Hne & -> & Hp). rewrite (proj2 (Z.ltb_lt _ _)) by (by apply len_pos).
    unfold binary_mode in Hb. rewrite Hb. destruct (encryption_protocol c); try done.
    destruct (announces_binary e); [|done]. by rewrite Hp.
Qed.

(** The bytes [Bc::serialize] appends. *)
Definition msg_wire (m : BcMeta) (eb pb : bytes) : bytes :=
  header_wire m (len (eb ++ pb)) (offset_of m eb) ++ eb ++ pb.

Lemma serialize_body_wire c m e p eb pb :
  ext_on_wire c m e eb -> payload_on_wire c m e p pb -> len (eb ++ pb) <= MAX_BC_BODY_LEN ->
  Ser.serialize_body (new_bc m e p) (peer_protocol c m) = Ok (eb ++ pb, offset_of m eb).
Proof.
  intros He Hp Hl. unfold Ser.serialize_body, new_bc. cbn [body meta].
  assert (exists bs, Ser.extension_bytes (MkModernMsg e p) = Ok bs
    /\ writes (Ser.opt bs (fun b => Ser.bc_ext_bytes (channel_id m) b (peer_protocol c m))) eb
    /\ match e with Some _ => wrap 32 (len eb) | None => 0 end = len eb) as (bs & -> & Hw & Ho).
  { destruct e as [x|]; simpl in He.
    - destruct He as (_ & E & d & (Hs & _) & ->). exists (Some d).
      unfold Ser.extension_bytes. cbn [extension]. rewrite Hs, E.
      split; [done|]. split; [apply writes_opt, cf_slice_ok|].
      rewrite wrap_small; [done|]. pose proof (len_nonneg (encrypt (encryption_protocol c) (channel_id m) d)).
      pose proof (len_nonneg pb). rewrite len_app in Hl. unfold MAX_BC_BODY_LEN in Hl. int_lia.
    - subst eb. exists None. split; [done|]. split; [by apply writes_opt|done]. }
  cbn [res_bind]. rewrite (cf_gen_count_ok _ _ _ Hw). cbn [res_bind app extension].
  assert (exists bs', Ser.payload_bytes (MkModernMsg e p) = Ok bs'
    /\ writes (Ser.opt bs' (fun b => Ser.bc_payload_bytes (channel_id m) b
         (Ser.payload_is_xml (MkModernMsg e p)) (peer_protocol c m))) pb) as (bs' & -> & Hw').
  { destruct p as [[x|b]|]; simpl in Hp.
    - destruct Hp as (_ & d & (Hs & _) & ->). exists (Some d).
      unfold Ser.payload_bytes. cbn [payload]. rewrite Hs.
      split; [done|]. apply writes_opt, cf_slice_ok.
    - destruct Hp as (_ & _ & -> & _). exists (Some b). split; [done|]. apply writes_opt, cf_slice_ok.
    - subst pb. exists None. split; [done|]. by apply writes_opt. }
  cbn [res_bind]. rewrite (cf_gen_count_ok _ _ _ Hw'). cbn [res_bind].
  unfold offset_of. by rewrite Ho.
Qed.

(** A modern message is written as [msg_wire], and the reader reads it back. *)
Lemma serialize_wire c m e p eb pb buf :
  ext_on_wire c m e eb -> payload_on_wire c m e p pb -> len (eb ++ pb) <= MAX_BC_BODY_LEN ->
  Ser.serialize (new_bc m e p) buf (peer_protocol c m) = Ok (buf ++ msg_wire m eb pb).
Proof.
  intros He Hp Hl. unfold Ser.serialize. rewrite (serialize_body_wire c m e p eb pb He Hp Hl).
  cbn [res_bind]. pose proof (len_nonneg (eb ++ pb)).
  rewrite wrap_small by (unfold MAX_BC_BODY_LEN in Hl; int_lia). cbn [meta new_bc].
  assert (writes (cf_tuple [Ser.bc_header (from_meta m (len (eb ++ pb)) (offset_of m eb)); cf_slice (eb ++ pb)])
    (msg_wire m eb pb)) as Hw.
  { eapply writes_eq; [apply cf_tuple_ok; repeat constructor; [apply writes_header|apply cf_slice_ok]|].
    cbn [concat]. by rewrite app_nil_r. }
  by rewrite (cf_gen_count_ok _ _ _ Hw).
Qed.

Lemma reads_msg c m e p eb pb :
  meta_ok m -> class m <> 0x6514 -> ext_on_wire c m e eb -> payload_on_wire c m e p pb ->
  len (eb ++ pb) <= MAX_BC_BODY_LEN -> reads (De.bc_msg c) (msg_wire m eb pb) (new_bc m e p).
Proof.
  intros Hm Hc He Hp Hl. unfold De.bc_msg, msg_wire.
  pose proof (len_nonneg eb). pose proof (len_nonneg pb). pose proof (len_app eb pb) as El.
  assert (default 0 (offset_of m eb) = len eb) as Eo.
  { unfold offset_of. destruct (has_payload_offset (class m)) eqn:E; [done|].
    destruct e as [x|]; [destruct He as (He & _); congruence|]. by simpl in He; subst eb. }
  eapply reads_bind.
  { apply reads_header; [done|lia|]. unfold offset_of.
    destruct (has_payload_offset (class m)); [|done]. split; [|done].
    unfold MAX_BC_BODY_LEN in Hl. int_lia. }
  cbv beta iota. set (h := from_meta m (len (eb ++ pb)) (offset_of m eb)).
  assert (new_bc m e p = MkBc (to_meta h) (Modern (MkModernMsg e p))) as -> by (by destruct m).
  apply (reads_bind_ret _ (fun b => MkBc (to_meta h) b)).
  unfold De.bc_body. assert (is_modern h = true) as ->.
  { unfold is_modern, h. cbn. by rewrite (proj2 (Z.eqb_neq _ _)). }
  apply (reads_bind_ret _ Modern). unfold De.bc_modern_msg.
  change (payload_offset h) with (offset_of m eb). change (body_len h) with (len (eb ++ pb)).
  rewrite Eo, El, (proj2 (Z.ltb_ge _ _)) by lia. cbv zeta.
  eapply reads_bind; [by apply reads_take|]. cbv beta iota.
  replace (len eb + len pb - len eb) with (len pb) by lia.
  eapply reads_last; [by apply reads_take|]. cbv beta iota.
  unfold h. rewrite (read_extension_wire _ _ _ _ _ _ He). cbn [res_bind].
  rewrite (read_payload_wire _ _ _ _ _ _ _ Hp). cbn [res_bind]. apply reads_ret.
Qed.

(** ** A session between two ends *)

(** The codec's state after a message. *)
Definition learned (s : BcCodex) (m : Bc) : BcCodex :=
  let s := resolve_session s m in
  match negotiate (context s) m with
  | Ok c => MkBcCodex (track_binary c m) (pending_session_aes s)
  | Err _ => s
  end.

(** The message as the peer writes it, under the cipher the reader is in. *)
Definition wire (s : BcCodex) (m : Bc) : bytes :=
  match Ser.serialize m [] (peer_protocol (context s) (meta m)) with Ok e => e | Err _ => [] end.

(** The cipher a login reply names is known. *)
Definition negotiates (s : BcCodex) (m : Bc) : bool :=
  match negotiate (context (resolve_session s m)) m with Ok _ => true | Err _ => false end.

(** Messages that fit the reader as its state evolves. *)
Fixpoint session_ok (s : BcCodex) (ms : list Bc) : Prop :=
  match ms with
  | [] => True
  | m :: ms => msg_ok (context s) m
      /\ negotiates s m = true
      /\ session_ok (learned s m) ms
  end.

(** One poll of the codec by its reader. *)
Definition codex_step (s : BcCodex) (src : bytes) : BcCodex * option (Bc * bytes) :=
  match decode s src with
  | (Ok (Some m), s, src) => (s, Some (m, src))
  | (_, s, _) => (s, None)
  end.

Lemma bc_deserialize_wire c e m rest :
  reads (De.bc_msg c) e m -> De.deserialize c (e ++ rest) = (Ok m, rest).
Proof.
  intros Hr. apply reads_consumed in Hr as [Hr _]. unfold De.deserialize. rewrite Hr.
  by rewrite drop_app_length.
Qed.

Lemma bc_deserialize_prefix c e m k :
  reads (De.bc_msg c) e m -> (k < length e)%nat ->
  De.deserialize c (take k e) = (Err NomIncomplete, take k e).
Proof.
  intros Hr Hk. apply reads_consumed in Hr as [_ Hr]. unfold De.deserialize. by rewrite Hr.
Qed.

Lemma msg_wire_nonempty m eb pb : msg_wire m eb pb <> [].
Proof. by unfold msg_wire, header_wire. Qed.

Lemma msg_frame_ok s m :
  msg_ok (context s) m -> negotiates s m = true ->
  frame_ok codex_step wire learned s m.
Proof.
  intros (Hm & Hc & Hb) Hn. unfold negotiates in Hn. destruct m as [m [l|[e p]]]; cbn [body meta] in *; [done|].
  destruct Hb as (eb & pb & He & Hp & Hl).
  pose proof (reads_msg (context s) m e p eb pb Hm Hc He Hp Hl) as Hr.
  assert (wire s (MkBc m (Modern (MkModernMsg e p))) = msg_wire m eb pb) as Ew.
  { unfold wire. cbn [meta].
    pose proof (serialize_wire (context s) m e p eb pb [] He Hp Hl) as E. unfold new_bc in E. by rewrite E. }
  unfold frame_ok. rewrite Ew. split; [apply msg_wire_nonempty|]. split.
  - intros rest. unfold codex_step, decode. rewrite (bc_deserialize_wire _ _ _ rest Hr).
    change (new_bc m e p) with (MkBc m (Modern (MkModernMsg e p))). unfold learned.
    by destruct (negotiate _ _).
  - intros k Hk. unfold codex_step, decode. by rewrite (bc_deserialize_prefix _ _ _ k Hr Hk).
Qed.

(** C3: a reader that polls the codec as bytes arrive gets exactly the
    modern messages the peer serialized, in order, whatever the chunk
    boundaries, while each message is under the cipher the previous ones
    negotiated and binary or XML as the previous extensions announced; the
    reader ends in the state those messages lead to. *)
Theorem bc_stream ms chunks s :
  session_ok s ms -> stream wire learned s ms = concat chunks ->
  pump codex_step s [] chunks = (ms, after learned s ms, []).
Proof.
  intros Hok E. apply (pump_frames codex_step wire learned (fun _ => True)); [|done|done| |done].
  - intros s' _. unfold codex_step, decode, De.deserialize, De.bc_msg, De.bc_header.
    by rewrite consumed_eq, verify_eq, le_u32_eq.
  - clear E. revert s Hok. induction ms as [|m ms IH]; intros s Hok; [done|].
    destruct Hok as (Hm & Hn & Hok). split; [by apply msg_frame_ok|by apply IH].
Qed.
End wire.


(** A concrete reading of the documents for the examples: an extension is one
    byte, its [binaryData]; a body is one byte, [1] for a login reply with an
    empty nonce and [0] for any other message. *)
Definition xml_toy : QuickXml := {|
  de_body b :=
    match b with
    | [1] => Some (MkBcXml (Some (MkEncryption [] [] [] None None None)) None no_elements)
    | [0] => Some (MkBcXml None None no_elements)
    | _ => None
    end;
  ser_body x :=
    match x with
    | MkBcXml (Some _) _ _ => Some [1]
    | MkBcXml None _ _ => Some [0]
    end;
  de_extension b :=
    match b with
    | [x] => Some (MkExtension [] (Some x) None None None None None None None)
    | _ => None
    end;
  ser_extension e := (fun x => [x]) <$> binary_data e
|}.


Definition toy_reply (code : Z) : Bc :=
  new_bc (MkBcMeta 1 0 0 code 0 0x6614) None
    (Some (BcXmlPayload (MkBcXml (Some (MkEncryption [] [] [] None None None)) None no_elements))).

Definition toy_ext : Extension := MkExtension [] (Some 1) None None None None None None None.

(** A camera names AES in its login reply, opens a stream in binary mode, and
    sends its next packet without an extension. *)
Definition toy_session : list Bc :=
  [toy_reply 0xdd02;
   new_bc (MkBcMeta 3 0 0 200 7 0) (Some toy_ext) (Some (Binary [9; 9]));
   new_bc (MkBcMeta 3 0 0 200 7 0) None (Some (Binary [5]))].

Definition toy_start : BcCodex (A := aes_toy) := new (MkCredentials [97] None).

Definition toy_bytes : bytes :=
  stream (wire (X := xml_toy) (A := aes_toy) (C := cf_std))
    (learned (A := aes_toy) (H5 := md5_toy)) toy_start toy_session.

Lemma toy_ext_document :
  document (ser_extension (QuickXml := xml_toy)) (de_extension (QuickXml := xml_toy)) toy_ext [1].
Proof. split; [done|split; [done|split; [done|]]]. by apply Forall_singleton. Qed.

Lemma toy_body_document :
  document (xml_serialize (X := xml_toy)) (de_body (QuickXml := xml_toy))
    (MkBcXml (Some (MkEncryption [] [] [] None None None)) None no_elements) [1].
Proof. split; [done|split; [done|split; [done|]]]. by apply Forall_singleton. Qed.

Lemma toy_session_ok : session_ok (X := xml_toy) (A := aes_toy) (H5 := md5_toy) toy_start toy_session.
Proof.
  split; [|split; [vm_compute; reflexivity|split; [|split; [vm_compute; reflexivity|split;
    [|split; [vm_compute; reflexivity|done]]]]]]; (split; [done|split; [done|]]).
  - exists [], (encrypt (A := aes_toy) BCEncrypt 0 [1]). split; [done|]. split; [|vm_compute; done].
    split; [reflexivity|]. exists [1]. split; [exact toy_body_document|reflexivity].
  - exists (encrypt (encryption_protocol (context (learned (H5 := md5_toy) toy_start (toy_reply 0xdd02)))) 0 [1]),
      [9; 9].
    split; [|split].
    + split; [reflexivity|]. split; [reflexivity|]. exists [1]. split; [exact toy_ext_document|reflexivity].
    + split; [reflexivity|]. by split.
    + vm_compute. done.
  - exists [], [5]. split; [done|]. split; [|vm_compute; done]. split; [vm_compute; reflexivity|]. by split.
Qed.

Lemma bc_stream_witness :
  pump (codex_step (X := xml_toy) (A := aes_toy) (H5 := md5_toy) (N := nom_std)) toy_start []
    [take 30 toy_bytes; drop 30 toy_bytes]
  = (toy_session, after (learned (H5 := md5_toy)) toy_start toy_session, []).
Proof.
  apply (bc_stream (X := xml_toy) (A := aes_toy) (H5 := md5_toy) (N := nom_std) (C := cf_std)).
  - exact toy_session_ok.
  - cbn [concat]. rewrite app_nil_r. symmetry. apply take_drop.
Defined.

(** ** The session's cipher *)

Section session.
Context `{X : QuickXml} `{A : Aes128Cfb} `{H5 : Md5}.
Context `{N : Nom} `{!NomLaws N} `{C : CookieFactory} `{!CookieFactoryLaws C}.

(** Only a message with id 1 touches the cipher or the armed session key. *)
Lemma learned_other s m :
  msg_id (meta m) <> 1 ->
  encryption_protocol (context (learned s m)) = encryption_protocol (context s)
  /\ pending_session_aes (learned s m) = pending_session_aes s.
Proof.
  intros Hid. apply Z.eqb_neq in Hid. unfold learned.
  assert (resolve_session s m = s) as ->.
  { unfold resolve_session. destruct (pending_session_aes s) as [[[n k] iv]|]; [|done].
    by rewrite Hid. }
  assert (negotiate (context s) m = Ok (context s)) as ->.
  { unfold negotiate. destruct m as [me [l|[e [[x|b]|]]]]; try done. cbn [meta] in Hid. by rewrite Hid. }
  cbn [context pending_session_aes]. split; [|done]. unfold track_binary.
  destruct (body m) as [l|[[e|] p]]; try done. destruct (binary_data e) as [z|]; [|done].
  by destruct (z =? 0).
Qed.

Lemma learned_others ms s :
  Forall (fun m => msg_id (meta m) <> 1) ms ->
  encryption_protocol (context (after learned s ms)) = encryption_protocol (context s)
  /\ pending_session_aes (after learned s ms) = pending_session_aes s.
Proof.
  intros H. revert s. induction H as [|m ms Hm Hms IH]; intros s; [done|].
  unfold after. cbn [fold_left]. destruct (IH (learned s m)) as [E1 E2].
  destruct (learned_other s m Hm) as [E3 E4]. unfold after in E1, E2. by rewrite E1, E2.
Qed.

(** encoding a signed login that carries a session key
    puts the session under the XOR cipher; it stays there through whatever
    other messages arrive, until the reply with the login's number. From then
    on, exactly if that reply is a 200, everything the codec encodes but logins
    is under AES with that key, media included; a later reply with the same
    number changes nothing. *)
Theorem signed_login_switch s login key iv dst before reply later m :
  signed_login_aes login = Some (Some (key, iv)) ->
  Forall (fun m => msg_id (meta m) <> 1) (before ++ later) ->
  msg_id (meta reply) = 1 -> msg_num (meta reply) = msg_num (meta login) ->
  Z.shiftr (response_code (meta reply)) 8 <> 0xdd -> msg_id m <> 1 ->
  let s1 := snd (encode s login dst) in
  let s2 := after learned s1 before in
  let s3 := after learned (learned s2 reply) later in
  enc_protocol (context s2) m = BCEncrypt
  /\ enc_protocol (context s3) m
     = (if response_code (meta reply) =? 200 then full_aes_with_iv key iv else BCEncrypt)
  /\ pending_session_aes s3 = None.
Proof.
  intros Hs Hms Hid Hnum Hcode Hm s1 s2 s3. apply List.Forall_app in Hms as [Hb Hl].
  assert (encryption_protocol (context s1) = BCEncrypt
    /\ pending_session_aes s1 = Some (msg_num (meta login), key, iv)) as [E1 P1].
  { subst s1. unfold encode, arm_session. by rewrite Hs. }
  destruct (learned_others before s1 Hb) as [E2 P2]. fold s2 in E2, P2.
  assert (encryption_protocol (context (learned s2 reply))
      = (if response_code (meta reply) =? 200 then full_aes_with_iv key iv else BCEncrypt)
    /\ pending_session_aes (learned s2 reply) = None) as [E3 P3].
  { unfold learned, resolve_session. rewrite P2, P1, Hid, Hnum, !Z.eqb_refl. cbn [andb context].
    set (c := if response_code (meta reply) =? 200 then _ else _).
    assert (negotiate c reply = Ok c) as ->.
    { unfold negotiate. destruct reply as [me [l|[e [[x|b]|]]]]; try done. cbn [meta] in *.
      rewrite Hid. cbn. destruct (encryption x); [|done]. by rewrite (proj2 (Z.eqb_neq _ _)). }
    cbn [context pending_session_aes]. split; [|done].
    assert (encryption_protocol c
      = if response_code (meta reply) =? 200 then full_aes_with_iv key iv else BCEncrypt) as <-.
    { subst c. rewrite <- E1, <- E2. by destruct (_ =? 200). }
    unfold track_binary. destruct (body reply) as [l|[[e|] p]]; try done.
    destruct (binary_data e) as [z|]; [|done]. by destruct (z =? 0). }
  destruct (learned_others later (learned s2 reply) Hl) as [E4 P4]. fold s3 in E4, P4.
  apply Z.eqb_neq in Hm. split; [|split; [|congruence]].
  - unfold enc_protocol. by rewrite E2, E1.
  - unfold enc_protocol. rewrite E4, E3. destruct (response_code (meta reply) =? 200); [|done].
    unfold full_aes_with_iv. by rewrite Hm.
Qed.

(** ** Bounded buffering *)

Lemma waits_bc_header :
  waits De.bc_header 24 (fun h => body_len h <= MAX_BC_BODY_LEN /\ 0 <= default 0 (payload_offset h)).
Proof.
  unfold De.bc_header. change 24 with (4 + (4 + (4 + (1 + (1 + (2 + (2 + 2 + (4 + 0)))))))).
  do 2 (eapply waits_bind; [lia|waits_field|]; intros ? _; cbv beta iota).
  eapply waits_bind; [lia|waits_field|]. intros n [_ Hn]. cbv beta iota.
  do 3 (eapply waits_bind; [lia|waits_field|]; intros ? _; cbv beta iota).
  eapply waits_bind; [lia|eapply waits_pair; [lia|apply waits_u16|apply waits_u16]|].
  intros [code cls] _. cbv beta iota.
  eapply waits_bind; [lia|eapply waits_cond; [lia|apply waits_u32]|]. intros off Ho. cbv beta iota.
  apply waits_ret. cbn [body_len payload_offset]. split; [by apply Z.leb_le|].
  destruct off as [o|]; [|done]. cbn. by apply Ho.
Qed.

Lemma read_extension_complete c h n b : De.read_extension c h n b <> Err Incomplete.
Proof.
  unfold De.read_extension. destruct (0 <? n); [|done]. destruct (de_extension _) as [e|]; [|done].
  by destruct (binary_data e) as [[|[| |]|]|].
Qed.

Lemma read_payload_complete c h n b bin el : De.read_payload c h n b bin el <> Err Incomplete.
Proof.
  unfold De.read_payload. destruct (0 <? n); [|done]. destruct (_ || _).
  - destruct (encryption_protocol c); try done. by destruct el.
  - by destruct (de_body _).
Qed.

Lemma waits_modern c h :
  body_len h <= MAX_BC_BODY_LEN -> 0 <= default 0 (payload_offset h) ->
  waits (De.bc_modern_msg c h) MAX_BC_BODY_LEN (fun _ => True).
Proof.
  intros Hn Ho. unfold De.bc_modern_msg. cbv zeta. set (o := default 0 (payload_offset h)) in *.
  destruct (Z.ltb_spec (body_len h) o); [by apply waits_fail|].
  apply waits_weaken with (o + ((body_len h - o) + 0)); [lia|].
  eapply waits_bind; [lia|by apply waits_take|]. intros eb _. cbv beta iota.
  eapply waits_bind; [lia|apply waits_take; lia|]. intros pb _. cbv beta iota.
  intros buf Hb Hl.
  destruct (De.read_extension _ _ _ _) as [[[e b] n]|err] eqn:E; cbn [res_bind].
  - destruct (De.read_payload _ _ _ _ _ _) as [p|err] eqn:E'; cbn [res_bind].
    + split; [done|]. split; [lia|done].
    + intros ->. by apply read_payload_complete in E'.
  - intros ->. by apply read_extension_complete in E.
Qed.

Lemma waits_hex32 : waits De.hex32 32 (fun _ => True).
Proof. eapply waits_map_res. by apply waits_take. Qed.

Lemma waits_bc_msg c : waits (De.bc_msg c) (24 + MAX_BC_BODY_LEN) (fun _ => True).
Proof.
  unfold De.bc_msg. eapply waits_bind; [done|apply waits_bc_header|]. intros h [Hn Ho]. cbv beta iota.
  eapply waits_map. unfold De.bc_body. destruct (is_modern h).
  - eapply waits_map. by apply waits_modern.
  - apply (waits_map _ _ _ (fun _ => True)). destruct (_ =? _).
    + apply waits_weaken with (32 + (32 + 0)); [done|]. unfold De.bc_legacy_login_msg.
      do 2 (eapply waits_bind; [lia|apply waits_hex32|]; intros ? _; cbv beta iota). by apply waits_ret.
    + apply waits_weaken with 0; [done|]. by apply waits_ret.
Qed.

(** whatever a hostile peer sends, once a header and 8 MiB
    are buffered the decoder returns a message or an error and never asks for
    more; so the read buffer is bounded. *)
Theorem bc_bounded_wait s src :
  bytes_ok src -> 24 + MAX_BC_BODY_LEN <= len src -> fst (fst (decode s src)) <> Ok None.
Proof.
  intros Hb Hl. pose proof (waits_bc_msg (context s) src Hb Hl) as Hw.
  unfold decode, De.deserialize. rewrite consumed_eq.
  destruct (De.bc_msg (context s) src) as [[rest m]|e].
  - by destruct (negotiate _ _).
  - by destruct e.
Qed.

(** ** The legacy login *)

(** a legacy login, which the serializer pads to 1836
    body bytes, is read back by the parser without its body length: the 1772
    padding bytes stay in the buffer, and the next decode fails on them. *)
Theorem legacy_login_residue s m u p rest :
  meta_ok m -> class m = 0x6514 -> msg_id m = MSG_ID_LOGIN ->
  length u = 32%nat -> length p = 32%nat -> utf8_valid u = true -> utf8_valid p = true ->
  let bc := MkBc m (Legacy (LoginMsg u p)) in
  exists e, Ser.serialize bc [] BCEncrypt = Ok e
    /\ De.deserialize (context s) (e ++ rest) = (Ok bc, replicate (Z.to_nat 1772) 0 ++ rest)
    /\ decode s (replicate (Z.to_nat 1772) 0 ++ rest)
       = (Err NomError, s, replicate (Z.to_nat 1772) 0 ++ rest).
Proof.
  intros Hm Hc Hid Hu Hp Vu Vp bc. set (pad := replicate (Z.to_nat 1772) 0).
  assert (len (u ++ p ++ pad) = 1836) as Hl.
  { rewrite !len_app. unfold len, pad. rewrite Hu, Hp, length_replicate. done. }
  assert (has_payload_offset (class m) = false) as Hoff by (by rewrite Hc).
  assert (writes (Ser.bc_legacy (LoginMsg u p)) (u ++ p ++ pad)) as Hw.
  { intros buf. unfold Ser.bc_legacy. rewrite Hu, Hp. cbn [Nat.eqb negb orb]. revert buf.
    fold pad. wire_eq. }
  exists (header_wire m 1836 None ++ u ++ p ++ pad). split; [|split].
  - unfold Ser.serialize, Ser.serialize_body, bc. cbn [body meta]. rewrite (cf_gen_count_ok _ _ _ Hw).
    cbn [res_bind app]. rewrite Hl, wrap_small by done.
    erewrite (cf_gen_count_ok _ (header_wire m 1836 None ++ u ++ p ++ pad)); [done|].
    eapply writes_eq; [apply cf_tuple_ok; repeat constructor; [apply writes_header|apply cf_slice_ok]|].
    cbn [concat]. by rewrite app_nil_r.
  - assert (reads (De.bc_msg (context s)) (header_wire m 1836 None ++ u ++ p) bc) as Hr.
    { unfold De.bc_msg. eapply reads_bind; [apply reads_header; [done| |done]; unfold MAX_BC_BODY_LEN; lia|].
      cbv beta iota. assert (bc = MkBc (to_meta (from_meta m 1836 None)) (Legacy (LoginMsg u p))) as ->
        by (by destruct m).
      apply (reads_bind_ret _ (fun b => MkBc (to_meta (from_meta m 1836 None)) b)). unfold De.bc_body, is_modern.
      cbn [h_class from_meta]. rewrite Hc. cbn [Z.eqb negb Pos.eqb].
      apply (reads_bind_ret _ Legacy). cbn [h_msg_id from_meta]. rewrite Hid. cbn [MSG_ID_LOGIN Z.eqb Pos.eqb].
      unfold De.bc_legacy_login_msg, De.hex32.
      eapply reads_bind; [eapply reads_map_res; [apply reads_take; unfold len; by rewrite Hu|by rewrite Vu]|].
      cbv beta iota.
      eapply reads_last; [eapply reads_map_res; [apply reads_take; unfold len; by rewrite Hp|by rewrite Vp]|].
      cbv beta iota. apply reads_ret. }
    rewrite !app_assoc, <- (app_assoc _ pad rest), <- (app_assoc (header_wire m 1836 None)).
    by apply bc_deserialize_wire.
  - unfold decode, De.deserialize, De.bc_msg, De.bc_header. rewrite consumed_eq, verify_eq, le_u32_eq.
    replace (pad ++ rest) with ([0; 0; 0; 0] ++ (replicate (Z.to_nat 1768) 0 ++ rest)) by done.
    unfold int_of_bytes. cbn [app length Nat.leb drop take of_le_bytes]. done.
Qed.
End session.

Definition toy_login : Bc :=
  new_bc (MkBcMeta 1 0 0 0 5 0x6414) None
    (Some (BcXmlPayload (MkBcXml None
       (Some (MkLoginUser [] None [97] [] 1 None (Some [48]) None None None None
                (Some (replicate 16 1, replicate 16 2)))) no_elements))).

Lemma signed_login_switch_witness :
  let s1 := snd (encode (X := xml_toy) (A := aes_toy) (C := cf_std) toy_start toy_login []) in
  let reply := MkBc (MkBcMeta 1 0 0 200 5 0) (Modern (MkModernMsg None None)) in
  enc_protocol (context (learned (H5 := md5_toy) s1 reply)) (MkBcMeta 3 0 0 0 6 0)
  = full_aes_with_iv (replicate 16 1) (replicate 16 2).
Proof.
  exact (proj1 (proj2 (signed_login_switch (X := xml_toy) (A := aes_toy) (H5 := md5_toy) (C := cf_std)
    toy_start toy_login (replicate 16 1) (replicate 16 2) [] []
    (MkBc (MkBcMeta 1 0 0 200 5 0) (Modern (MkModernMsg None None))) []
    (MkBcMeta 3 0 0 0 6 0) eq_refl (List.Forall_nil _) eq_refl eq_refl ltac:(done) ltac:(done)))).
Defined.

Lemma bc_bounded_wait_witness :
  fst (fst (decode (X := xml_toy) (A := aes_toy) (H5 := md5_toy) (N := nom_std) toy_start
    (replicate (Z.to_nat (24 + MAX_BC_BODY_LEN)) 0))) <> Ok None.
Proof.
  apply (bc_bounded_wait (X := xml_toy) (A := aes_toy) (H5 := md5_toy) (N := nom_std)).
  - by apply Forall_replicate.
  - unfold len. rewrite length_replicate. lia.
Defined.

Lemma legacy_login_residue_witness : exists e,
  Ser.serialize (X := xml_toy) (A := aes_toy) (C := cf_std)
    (MkBc (MkBcMeta 1 0 0 0xdc00 0 0x6514) (Legacy (LoginMsg (replicate 32 65) (replicate 32 66)))) []
    BCEncrypt = Ok e.
Proof.
  destruct (legacy_login_residue (X := xml_toy) (A := aes_toy) (H5 := md5_toy) (N := nom_std)
    (C := cf_std) toy_start (MkBcMeta 1 0 0 0xdc00 0 0x6514) (replicate 32 65) (replicate 32 66) [])
    as (e & E & _).
  - split; [done|]. split; [done|]. split; [done|]. split; [done|]. by split.
  - done.
  - done.
  - done.
  - done.
  - done.
  - done.
  - exists e. exact E.
Defined.
