(* ===== verification/Text.v ===== *)
(** * Rust strings

    The [str] operations the text protocols use, on lists of Unicode scalar
    values. Offsets into a string are byte offsets: slicing inside a character
    is a panic. *)

From Stdlib Require String.
From S2P Require Import Prelude.

(** ASCII literals. *)
Definition lit (s : string) : str := map (fun c => Z.of_N (Ascii.N_of_ascii c)) (String.list_ascii_of_string s).

(** ** Encoding *)

Definition char_len (c : Z) : Z :=
  if c <? 0x80 then 1 else if c <? 0x800 then 2 else if c <? 0x10000 then 3 else 4.

Definition byte_len (s : str) : Z := foldr (fun c n => char_len c + n) 0 s.

Definition encode_char (c : Z) : bytes :=
  if c <? 0x80 then [c]
  else if c <? 0x800 then [0xC0 + c / 64; 0x80 + c mod 64]
  else if c <? 0x10000 then [0xE0 + c / 4096; 0x80 + c / 64 mod 64; 0x80 + c mod 64]
  else [0xF0 + c / 262144; 0x80 + c / 4096 mod 64; 0x80 + c / 64 mod 64; 0x80 + c mod 64].

Definition as_bytes (s : str) : bytes := concat (map encode_char s).

(** The characters of a [String] given as its bytes. *)
Definition chars (b : bytes) : str := default [] (from_utf8 b).

(** [(&s[..n], &s[n..])]. *)
Fixpoint split_at (n : Z) (s : str) : outcome (str * str) :=
  if n =? 0 then Ret ([], s)
  else match s with
       | [] => Panic
       | c :: s =>
           if n <? char_len c then Panic
           else let! (a, b) := split_at (n - char_len c) s in Ret (c :: a, b)
       end.

(** ** Searching and splitting *)

(** The text before and after the first occurrence of [needle]. *)
Fixpoint find_str (needle s : str) : option (str * str) :=
  if bool_decide (take (length needle) s = needle) then Some ([], drop (length needle) s)
  else match s with
       | [] => None
       | c :: s => '(a, b) ← find_str needle s; Some (c :: a, b)
       end.

Definition split_once (c : Z) (s : str) : option (str * str) := find_str [c] s.

(** The last occurrence. *)
Fixpoint rsplit_once (c : Z) (s : str) : option (str * str) :=
  match s with
  | [] => None
  | x :: s =>
      match rsplit_once c s with
      | Some (a, b) => Some (x :: a, b)
      | None => if x =? c then Some ([], s) else None
      end
  end.

(** [split(c)]: never empty. *)
Fixpoint split (c : Z) (s : str) : list str :=
  match s with
  | [] => [[]]
  | x :: s =>
      if x =? c then [] :: split c s
      else match split c s with
           | [] => [[x]]
           | p :: ps => (x :: p) :: ps
           end
  end.

(** [split("\r\n")]. *)
Fixpoint split_lines (s : str) : list str :=
  match s with
  | [] => [[]]
  | x :: s' =>
      match s' with
      | [] => [[x]]
      | y :: s'' =>
          if (x =? 13) && (y =? 10) then [] :: split_lines s''
          else match split_lines s' with [] => [[x]] | p :: ps => (x :: p) :: ps end
      end
  end.

Definition strip_prefix (p s : str) : option str :=
  if bool_decide (take (length p) s = p) then Some (drop (length p) s) else None.

Definition starts_with (p s : str) : bool :=
  match strip_prefix p s with Some _ => true | None => false end.

Fixpoint drop_while (f : Z -> bool) (s : str) : str :=
  match s with
  | [] => []
  | c :: s' => if f c then drop_while f s' else s
  end.

Definition trim_start (f : Z -> bool) (s : str) : str := drop_while f s.
Definition trim_end (f : Z -> bool) (s : str) : str := rev (drop_while f (rev s)).

(** [char::is_whitespace]: Unicode White_Space. *)
Definition is_whitespace (c : Z) : bool :=
  in_range 9 13 c || (c =? 32) || (c =? 0x85) || (c =? 0xA0) || (c =? 0x1680)
  || in_range 0x2000 0x200A c || (c =? 0x2028) || (c =? 0x2029) || (c =? 0x202F)
  || (c =? 0x205F) || (c =? 0x3000).

Definition trim (s : str) : str := trim_end is_whitespace (trim_start is_whitespace s).

Definition trim_matches (c : Z) (s : str) : str := trim_end (Z.eqb c) (trim_start (Z.eqb c) s).

(** ** ASCII case *)

Definition ascii_lower (c : Z) : Z := if in_range 65 90 c then c + 32 else c.

Definition to_ascii_lowercase (s : str) : str := map ascii_lower s.

Definition eq_ignore_ascii_case (a b : str) : bool :=
  bool_decide (to_ascii_lowercase a = to_ascii_lowercase b).

(** The crate's [strip_prefix_ignore_case], defined in [transport.rs] and again
    in [auth.rs]. *)
Definition strip_prefix_ignore_case (s prefix : str) : outcome (option str) :=
  if byte_len prefix <=? byte_len s then
    let! (a, b) := split_at (byte_len prefix) s in
    if eq_ignore_ascii_case a prefix then Ret (Some b) else Ret None
  else Ret None.

(** ** Numbers *)

(** [parse::<uN>()] with the type's maximum. *)
Fixpoint parse_digits (max acc : Z) (s : str) : option Z :=
  match s with
  | [] => Some acc
  | c :: s =>
      if in_range 48 57 c then
        let acc := 10 * acc + (c - 48) in
        if max <? acc then None else parse_digits max acc s
      else None
  end.

Definition parse_uint (max : Z) (s : str) : option Z :=
  match s with
  | [] => None
  | [43] => None
  | 43 :: s => parse_digits max 0 s
  | _ => parse_digits max 0 s
  end.

(** [{}] of an unsigned integer; [fuel] bounds the number of digits. *)
Fixpoint show_digits (fuel : nat) (n : Z) (acc : str) : str :=
  match fuel with
  | O => acc
  | S fuel => if n <? 10 then 48 + n :: acc else show_digits fuel (n / 10) (48 + n mod 10 :: acc)
  end.

Definition show_uint (n : Z) : str := show_digits (S (Z.to_nat (Z.log2 n))) n [].

(** ** Lemmas *)

Lemma parse_digits_app max acc a b :
  parse_digits max acc (a ++ b) = n ← parse_digits max acc a; parse_digits max n b.
Proof.
  revert acc. induction a as [|c a IH]; intros acc; [done|]. cbn [app parse_digits].
  destruct (in_range _ _ _); [|done]. destruct (_ <? _); [done|]. apply IH.
Qed.

Lemma show_digits_parse fuel n acc :
  0 <= n -> n < 2 ^ Z.of_nat fuel -> (0 < fuel)%nat ->
  exists ds, show_digits fuel n acc = ds ++ acc /\ ds <> []
    /\ Forall (fun c => in_range 48 57 c = true) ds
    /\ forall max, n <= max -> parse_digits max 0 ds = Some n.
Proof.
  revert n acc. induction fuel as [|fuel IH]; intros n acc Hn Hf Hpos; [lia|].
  cbn [show_digits].
  assert (forall d, 0 <= d < 10 -> in_range 48 57 (48 + d) = true) as Hd.
  { intros d Hd. unfold in_range. apply andb_true_iff. split; apply Z.leb_le; lia. }
  destruct (Z.ltb_spec n 10).
  - exists [48 + n]. split; [done|]. split; [done|]. split; [repeat constructor; apply Hd; lia|].
    intros max Hm. cbn [parse_digits]. rewrite Hd by lia. cbv zeta.
    destruct (Z.ltb_spec max (10 * 0 + (48 + n - 48))); [lia|]. f_equal. lia.
  - destruct (IH (n / 10) (48 + n mod 10 :: acc)) as (ds & -> & Hne & Hds & Hp).
    + apply Z.div_pos; lia.
    + rewrite Nat2Z.inj_succ, Z.pow_succ_r in Hf by lia. apply Z.div_lt_upper_bound; lia.
    + destruct fuel; [|lia]. change (2 ^ Z.of_nat 1) with 2 in Hf. lia.
    + exists (ds ++ [48 + n mod 10]). split; [by rewrite <- app_assoc|]. split; [by destruct ds|].
      pose proof (Z.mod_pos_bound n 10 ltac:(lia)).
      split; [apply Forall_app_2; [done|repeat constructor; apply Hd; lia]|].
      intros max Hm. pose proof (Z.div_mod n 10 ltac:(lia)).
      rewrite parse_digits_app, Hp by lia. cbn [mbind option_bind parse_digits]. rewrite Hd by lia.
      cbv zeta. destruct (Z.ltb_spec max (10 * (n / 10) + (48 + n mod 10 - 48))); [lia|]. f_equal. lia.
Qed.

Definition is_digit (c : Z) : Prop := 48 <= c <= 57.

(** The decimal of a number is digits, and parses back. *)
Lemma show_uint_spec n :
  0 <= n -> Forall is_digit (show_uint n) /\ show_uint n <> []
  /\ forall max, n <= max -> parse_uint max (show_uint n) = Some n.
Proof.
  intros Hn. unfold show_uint.
  assert (n < 2 ^ Z.of_nat (S (Z.to_nat (Z.log2 n)))) as Hf.
  { rewrite Nat2Z.inj_succ, Z2Nat.id by apply Z.log2_nonneg.
    destruct (decide (n = 0)) as [->|]; [done|]. apply Z.log2_spec. lia. }
  destruct (show_digits_parse _ n [] Hn Hf ltac:(lia)) as (ds & -> & Hne & Hds & Hp).
  rewrite app_nil_r. split; [|split; [done|]].
  - eapply Forall_impl; [|exact Hds]. intros c Hc. unfold in_range in Hc. b2p. unfold is_digit. lia.
  - intros max Hm. specialize (Hp max Hm). unfold parse_uint.
    destruct ds as [|c ds]; [done|]. inversion Hds as [|? ? Hc _]; subst.
    assert (c <> 43) by (intros ->; done). by repeat case_step.
Qed.

(** ** Bytes and slices *)

Definition is_ascii (c : Z) : Prop := 0 <= c < 128.

(** Printable ASCII other than space. *)
Definition is_graphic (c : Z) : Prop := 33 <= c <= 126.

(** For literals: [done] computes the boolean. *)
Lemma ascii_check s : forallb (in_range 0 127) s = true -> Forall is_ascii s.
Proof.
  intros H. rewrite List.forallb_forall in H. apply List.Forall_forall. intros c Hc.
  specialize (H c Hc). unfold in_range in H. b2p. unfold is_ascii. lia.
Qed.

Lemma graphic_check s : forallb (in_range 33 126) s = true -> Forall is_graphic s.
Proof.
  intros H. rewrite List.forallb_forall in H. apply List.Forall_forall. intros c Hc.
  specialize (H c Hc). unfold in_range in H. b2p. unfold is_graphic. lia.
Qed.

Lemma other_check d s : forallb (fun c => negb (c =? d)) s = true -> Forall (fun c => c <> d) s.
Proof.
  intros H. rewrite List.forallb_forall in H. apply List.Forall_forall. intros c Hc.
  specialize (H c Hc). b2p. done.
Qed.

Ltac lit_check := first [by apply ascii_check | by apply graphic_check | by apply other_check].

Lemma char_len_pos c : 1 <= char_len c.
Proof. unfold char_len. repeat case_step; lia. Qed.

Lemma char_len_ascii c : is_ascii c -> char_len c = 1.
Proof. intros H. unfold char_len. destruct (Z.ltb_spec c 0x80); [done|]. unfold is_ascii in H. lia. Qed.

Lemma byte_len_app a b : byte_len (a ++ b) = byte_len a + byte_len b.
Proof. induction a as [|c a IH]; [done|]. cbn [app byte_len foldr]. fold byte_len in *. unfold byte_len in *. lia. Qed.

Lemma byte_len_nonneg s : 0 <= byte_len s.
Proof. induction s as [|c s IH]; [done|]. cbn. pose proof (char_len_pos c). unfold byte_len in IH. lia. Qed.

Lemma byte_len_ascii s : Forall is_ascii s -> byte_len s = len s.
Proof.
  unfold byte_len, len. induction 1 as [|c s Hc Hs IH]; [done|]. cbn [foldr length].
  rewrite IH, char_len_ascii by done. lia.
Qed.

Lemma split_at_app a b : split_at (byte_len a) (a ++ b) = Ret (a, b).
Proof.
  induction a as [|c a IH]; [by destruct b|]. cbn [app split_at].
  pose proof (char_len_pos c). pose proof (byte_len_nonneg a). unfold byte_len in *. cbn [foldr] in *.
  rewrite (proj2 (Z.eqb_neq _ _)), (proj2 (Z.ltb_ge _ _)) by lia.
  replace (char_len c + foldr (fun c n => char_len c + n) 0 a - char_len c)
    with (foldr (fun c n => char_len c + n) 0 a) by lia.
  by rewrite IH.
Qed.

Lemma split_at_ascii n s :
  Forall is_ascii s -> 0 <= n <= len s -> split_at n s = Ret (take (Z.to_nat n) s, drop (Z.to_nat n) s).
Proof.
  intros Hs Hn. rewrite <- (take_drop (Z.to_nat n) s) at 1.
  replace n with (byte_len (take (Z.to_nat n) s)) at 1; [apply split_at_app|].
  rewrite byte_len_ascii by (by apply Forall_take). unfold len in *. rewrite length_take. lia.
Qed.

Lemma strip_prefix_ignore_case_match p s prefix :
  byte_len p = byte_len prefix -> eq_ignore_ascii_case p prefix = true ->
  strip_prefix_ignore_case (p ++ s) prefix = Ret (Some s).
Proof.
  intros Hl He. unfold strip_prefix_ignore_case. rewrite byte_len_app, <- Hl.
  pose proof (byte_len_nonneg s). rewrite (proj2 (Z.leb_le _ _)) by lia.
  rewrite split_at_app. cbn [out_bind]. by rewrite He.
Qed.

(** Another first letter. *)
Lemma strip_prefix_ignore_case_other c s d prefix :
  Forall is_ascii (c :: s) -> Forall is_ascii (d :: prefix) -> ascii_lower c <> ascii_lower d ->
  strip_prefix_ignore_case (c :: s) (d :: prefix) = Ret None.
Proof.
  intros Hs Hp Hne. unfold strip_prefix_ignore_case.
  rewrite !byte_len_ascii by done. destruct (Z.leb_spec (len (d :: prefix)) (len (c :: s))); [|done].
  assert (0 < len (d :: prefix)) by (unfold len; simpl; lia).
  rewrite split_at_ascii by (done || lia). cbn [out_bind].
  assert (eq_ignore_ascii_case (take (Z.to_nat (len (d :: prefix))) (c :: s)) (d :: prefix) = false) as ->;
    [|done].
  apply bool_decide_eq_false. destruct (Z.to_nat (len (d :: prefix))) eqn:E; [lia|].
  cbn [take]. unfold to_ascii_lowercase. cbn [map]. congruence.
Qed.

(** ASCII text is never cut inside a character. *)
Lemma strip_prefix_ignore_case_ascii s prefix :
  Forall is_ascii s -> exists r, strip_prefix_ignore_case s prefix = Ret r.
Proof.
  intros Hs. unfold strip_prefix_ignore_case.
  destruct (Z.leb_spec (byte_len prefix) (byte_len s)); [|by eexists].
  pose proof (byte_len_ascii s Hs). pose proof (byte_len_nonneg prefix).
  rewrite split_at_ascii by (done || lia).
  cbn [out_bind]. destruct (eq_ignore_ascii_case _ _); by eexists.
Qed.

(** ** Trimming and splitting *)

Lemma drop_while_id f s : match s with [] => True | c :: _ => f c = false end -> drop_while f s = s.
Proof. destruct s as [|c s]; simpl; [done|]. by intros ->. Qed.

Lemma trim_both f s :
  match s with [] => True | c :: _ => f c = false end ->
  match rev s with [] => True | c :: _ => f c = false end ->
  trim_end f (trim_start f s) = s.
Proof.
  intros H1 H2. unfold trim_end, trim_start. rewrite (drop_while_id f s H1).
  rewrite (drop_while_id f (rev s) H2). apply rev_involutive.
Qed.

Lemma graphic_not_whitespace c : is_graphic c -> is_whitespace c = false.
Proof.
  intros H. apply negb_true_iff.
  apply (check_range_spec 94 33 (fun c => negb (is_whitespace c))); [done|]. unfold is_graphic in H. lia.
Qed.

Lemma forall_ends {A} (P : A -> Prop) s :
  Forall P s -> match s with [] => True | c :: _ => P c end /\ match rev s with [] => True | c :: _ => P c end.
Proof.
  intros H. split; [by destruct H|]. apply Forall_rev in H. by destruct (rev s); inversion H.
Qed.

Lemma trim_graphic s : Forall is_graphic s -> trim s = s.
Proof.
  intros H. apply forall_ends in H as [H1 H2]. apply trim_both.
  - destruct s; [done|]. by apply graphic_not_whitespace.
  - destruct (rev s); [done|]. by apply graphic_not_whitespace.
Qed.

Lemma split_sep c a b : Forall (fun x => x <> c) a -> split c (a ++ c :: b) = a :: split c b.
Proof.
  induction 1 as [|x a Hx Ha IH]; cbn [app split]; [by rewrite Z.eqb_refl|].
  rewrite (proj2 (Z.eqb_neq _ _)) by done. by rewrite IH.
Qed.

Lemma split_none c a : Forall (fun x => x <> c) a -> split c a = [a].
Proof.
  induction 1 as [|x a Hx Ha IH]; cbn [split]; [done|]. rewrite (proj2 (Z.eqb_neq _ _)) by done.
  by rewrite IH.
Qed.

Lemma split_once_sep c a b : Forall (fun x => x <> c) a -> split_once c (a ++ c :: b) = Some (a, b).
Proof.
  unfold split_once. induction 1 as [|x a Hx Ha IH]; cbn [app find_str length take drop].
  - by rewrite bool_decide_true.
  - rewrite bool_decide_false by congruence. by rewrite IH.
Qed.

(** ** Predicates on the characters survive trimming and splitting *)

Lemma drop_while_forall (P : Z -> Prop) f s : Forall P s -> Forall P (drop_while f s).
Proof. induction 1 as [|c s Hc Hs IH]; simpl; [done|]. destruct (f c); [done|by constructor]. Qed.

Lemma trim_forall (P : Z -> Prop) s : Forall P s -> Forall P (trim s).
Proof.
  intros H. unfold trim, trim_end, trim_start.
  by apply Forall_rev, drop_while_forall, Forall_rev, drop_while_forall.
Qed.

Lemma split_forall (P : Z -> Prop) c s : Forall P s -> Forall (Forall P) (split c s).
Proof.
  induction 1 as [|x s Hx Hs IH]; cbn [split]; [by repeat constructor|].
  destruct (x =? c); [by constructor|].
  destruct (split c s) as [|p ps]; inversion IH; subst; repeat constructor; done.
Qed.

(** ** Splitting at the last occurrence *)

Lemma rsplit_once_none c s : Forall (fun x => x <> c) s -> rsplit_once c s = None.
Proof.
  induction 1 as [|x s Hx _ IH]; [done|]. cbn [rsplit_once]. rewrite IH.
  by destruct (Z.eqb_spec x c).
Qed.

Lemma rsplit_once_last c a b : Forall (fun x => x <> c) b -> rsplit_once c (a ++ c :: b) = Some (a, b).
Proof.
  intros Hb. induction a as [|x a IH]; cbn [app rsplit_once]; [|by rewrite IH].
  rewrite (rsplit_once_none c b Hb). by rewrite Z.eqb_refl.
Qed.

Lemma rsplit_once_some c s a b : rsplit_once c s = Some (a, b) -> s = a ++ c :: b.
Proof.
  revert a b. induction s as [|x s IH]; intros a b E; [done|]. cbn [rsplit_once] in E.
  destruct (rsplit_once c s) as [[a' b']|].
  - injection E as <- <-. cbn. by rewrite <- IH.
  - destruct (Z.eqb_spec x c) as [->|]; [|done]. by injection E as <- <-.
Qed.

(** ** UTF-8 and back *)

Definition is_scalar (c : Z) : Prop := 0 <= c < 0xD800 \/ 0xE000 <= c <= 0x10FFFF.

Ltac in_bounds := unfold in_range; Z.to_euclidean_division_equations; lia.
Ltac byte_is lo hi b r := let H := fresh in assert (in_range lo hi b = r) as H by in_bounds; rewrite H; clear H.
Ltac byte_in lo hi b := byte_is lo hi b true.
Ltac byte_out lo hi b := byte_is lo hi b false.

Lemma from_utf8_char c l : is_scalar c -> from_utf8 (encode_char c ++ l) = cons c <$> from_utf8 l.
Proof.
  unfold is_scalar. intros H. unfold encode_char.
  destruct (Z.ltb_spec c 0x80); [cbn [app from_utf8]; by rewrite (proj2 (Z.ltb_lt _ _))|].
  destruct (Z.ltb_spec c 0x800); [|destruct (Z.ltb_spec c 0x10000)]; cbn [app from_utf8]; cbv zeta;
    rewrite (proj2 (Z.ltb_ge _ _)) by in_bounds.
  - byte_in 0xC2 0xDF (0xC0 + c / 64). byte_in 0x80 0xBF (0x80 + c mod 64). do 2 f_equal. in_bounds.
  - byte_out 0xC2 0xDF (0xE0 + c / 4096). byte_in 0xE0 0xEF (0xE0 + c / 4096). byte_in 0x80 0xBF (0x80 + c mod 64).
    assert (in_range (if 0xE0 + c / 4096 =? 0xE0 then 0xA0 else 0x80) (if 0xE0 + c / 4096 =? 0xED then 0x9F else 0xBF)
              (0x80 + c / 64 mod 64) = true) as ->.
    { destruct (Z.eqb_spec (0xE0 + c / 4096) 0xE0), (Z.eqb_spec (0xE0 + c / 4096) 0xED); in_bounds. }
    cbn [andb]. do 2 f_equal. in_bounds.
  - byte_out 0xC2 0xDF (0xF0 + c / 262144). byte_out 0xE0 0xEF (0xF0 + c / 262144).
    byte_in 0xF0 0xF4 (0xF0 + c / 262144). byte_in 0x80 0xBF (0x80 + c mod 64). byte_in 0x80 0xBF (0x80 + c / 64 mod 64).
    assert (in_range (if 0xF0 + c / 262144 =? 0xF0 then 0x90 else 0x80) (if 0xF0 + c / 262144 =? 0xF4 then 0x8F else 0xBF)
              (0x80 + c / 4096 mod 64) = true) as ->.
    { destruct (Z.eqb_spec (0xF0 + c / 262144) 0xF0), (Z.eqb_spec (0xF0 + c / 262144) 0xF4); in_bounds. }
    cbn [andb]. do 2 f_equal. in_bounds.
Qed.

Lemma from_utf8_as_bytes s : Forall is_scalar s -> from_utf8 (as_bytes s) = Some s.
Proof.
  induction 1 as [|c s Hc Hs IH]; [done|]. unfold as_bytes in *. cbn [map concat]. by rewrite from_utf8_char, IH.
Qed.

(** ** Trimming twice *)

Lemma drop_while_head f s : match drop_while f s with [] => True | c :: _ => f c = false end.
Proof. induction s as [|c s IH]; simpl; [done|]. by destruct (f c) eqn:E. Qed.

Lemma drop_while_suffix f (s : str) : exists a, s = a ++ drop_while f s.
Proof.
  induction s as [|c s [a IH]]; simpl; [by exists []|]. destruct (f c); [|by exists []].
  exists (c :: a). cbn [app]. by rewrite <- IH.
Qed.

Lemma trim_start_end f s : drop_while f s = s -> drop_while f (trim_end f s) = trim_end f s.
Proof.
  intros Hs. unfold trim_end. destruct (drop_while_suffix f (rev s)) as [a Ha].
  apply (f_equal (@rev Z)) in Ha. rewrite rev_involutive, rev_app_distr in Ha.
  destruct (rev (drop_while f (rev s))) as [|c r]; [done|]. cbn [app] in Ha.
  pose proof (drop_while_head f s) as Hh. rewrite Hs, Ha in Hh. simpl. by rewrite Hh.
Qed.

Lemma drop_while_twice f s : drop_while f (drop_while f s) = drop_while f s.
Proof. pose proof (drop_while_head f s) as H. destruct (drop_while f s); simpl; [done|]. by rewrite H. Qed.

Lemma trim_trim s : trim (trim s) = trim s.
Proof.
  unfold trim, trim_start. rewrite (trim_start_end is_whitespace (drop_while is_whitespace s)) by apply drop_while_twice.
  unfold trim_end. by rewrite rev_involutive, drop_while_twice.
Qed.
