(* ===== verification/RtspText.v ===== *)
(** * The RTSP text headers ([src/rtsp/protocol/transport.rs], [auth.rs],
    [src/rtsp/url.rs])

    [Module Transport] parses and renders the [Transport:] header, [Module Url]
    resolves request paths, [Module Auth] checks [Authorization:] headers. MD5
    and base64 are the interfaces [Md5] and [Base64]. *)

From S2P Require Import Prelude XorCrypto Text.

(** ** The [Transport:] header *)

Module Transport.

Inductive TransportSpec :=
| TcpInterleaved (channel_rtp channel_rtcp : Z)
| UdpUnicast (client_rtp_port client_rtcp_port : Z).

(** The messages of the errors are not modelled. *)
Inductive TransportError := Unsupported | Malformed.

(** [parse_range_u8] and [parse_range_u16]: the type's maximum is the
    argument. *)
Definition parse_range (max : Z) (s : str) : result (Z * Z) TransportError :=
  match split_once 45 s with
  | None => Err Malformed
  | Some (a, b) =>
      match parse_uint max (trim a) with
      | None => Err Malformed
      | Some a =>
          match parse_uint max (trim b) with
          | None => Err Malformed
          | Some b => Ok (a, b)
          end
      end
  end.

(** The [for part in parts] loop. *)
Fixpoint scan_parts (parts : list str) (interleaved client_port : option (Z * Z))
    : outcome (result (option (Z * Z) * option (Z * Z)) TransportError) :=
  match parts with
  | [] => Ret (Ok (interleaved, client_port))
  | part :: parts =>
      if eq_ignore_ascii_case part (lit "unicast") then scan_parts parts interleaved client_port
      else if eq_ignore_ascii_case part (lit "multicast") then Ret (Err Unsupported)
      else
        let! rest := strip_prefix_ignore_case part (lit "interleaved=") in
        match rest with
        | Some rest =>
            match parse_range u8_max rest with
            | Err e => Ret (Err e)
            | Ok ab => scan_parts parts (Some ab) client_port
            end
        | None =>
            let! rest := strip_prefix_ignore_case part (lit "client_port=") in
            match rest with
            | Some rest =>
                match parse_range u16_max rest with
                | Err e => Ret (Err e)
                | Ok ab => scan_parts parts interleaved (Some ab)
                end
            | None => scan_parts parts interleaved client_port
            end
        end
  end.

Definition parse (value : str) : outcome (result TransportSpec TransportError) :=
  match map trim (split 59 (trim value)) with
  | [] => Ret (Err Malformed)
  | profile :: parts =>
      let is_tcp := eq_ignore_ascii_case profile (lit "RTP/AVP/TCP") in
      let is_udp := eq_ignore_ascii_case profile (lit "RTP/AVP")
                    || eq_ignore_ascii_case profile (lit "RTP/AVP/UDP") in
      if negb is_tcp && negb is_udp then Ret (Err Unsupported)
      else
        let! r := scan_parts parts None None in
        match r with
        | Err e => Ret (Err e)
        | Ok (interleaved, client_port) =>
            if is_tcp then
              match interleaved with
              | Some (rtp, rtcp) => Ret (Ok (TcpInterleaved rtp rtcp))
              | None => Ret (Err Malformed)
              end
            else if is_udp then
              match client_port with
              | Some (rtp, rtcp) => Ret (Ok (UdpUnicast rtp rtcp))
              | None => Ret (Err Malformed)
              end
            else Panic
        end
  end.

(** [{:08X}]. *)
Definition hex_digit (d : Z) : Z := if d <? 10 then 48 + d else 55 + d.

Definition hex08 (n : Z) : str :=
  map (fun i => hex_digit (n / 16 ^ i mod 16)) [7; 6; 5; 4; 3; 2; 1; 0].

Definition build_tcp_response (channel_rtp channel_rtcp ssrc : Z) : str :=
  lit "RTP/AVP/TCP;unicast;interleaved=" ++ show_uint channel_rtp ++ lit "-"
  ++ show_uint channel_rtcp ++ lit ";ssrc=" ++ hex08 ssrc.

Definition build_udp_response (client_rtp client_rtcp server_rtp server_rtcp ssrc : Z) : str :=
  lit "RTP/AVP;unicast;client_port=" ++ show_uint client_rtp ++ lit "-" ++ show_uint client_rtcp
  ++ lit ";server_port=" ++ show_uint server_rtp ++ lit "-" ++ show_uint server_rtcp
  ++ lit ";ssrc=" ++ hex08 ssrc.

End Transport.

(** ** Request paths *)

Module Url.

Inductive StreamKind := Main | Sub | Extern.

#[export] Instance stream_kind_eq_dec : EqDecision StreamKind.
Proof. solve_decision. Defined.

Definition display (k : StreamKind) : str :=
  match k with Main => lit "main" | Sub => lit "sub" | Extern => lit "extern" end.

Definition parse_stream_suffix (s : str) : option StreamKind :=
  let s := to_ascii_lowercase s in
  if bool_decide (s = lit "main") || bool_decide (s = lit "mainstream") then Some Main
  else if bool_decide (s = lit "sub") || bool_decide (s = lit "substream") then Some Sub
  else if bool_decide (s = lit "extern") || bool_decide (s = lit "externstream") then Some Extern
  else None.

Record ResolvedPath := MkResolvedPath { camera : str; stream : StreamKind }.

Definition resolve (path : str) : option ResolvedPath :=
  let trimmed := trim_end (Z.eqb 47) (trim_start (Z.eqb 47) path) in
  match trimmed with
  | [] => None
  | _ =>
      match split 47 trimmed with
      | [cam] => Some (MkResolvedPath cam Main)
      | [cam; suffix] =>
          stream ← parse_stream_suffix suffix; Some (MkResolvedPath cam stream)
      | _ => None
      end
  end.

End Url.

(** ** Authentication *)

Class Base64 := { b64_decode : str -> option bytes; b64_encode : bytes -> str }.

Module Auth.

Inductive AuthError := Malformed | UnknownScheme | BadCredentials | StaleNonce.

Record UserCred := MkUserCred { name : str; password : str }.

Record Nonce := MkNonce { value : str; created : Z }.

Definition is_stale (n : Nonce) (now ttl : Z) : bool := ttl <=? sat_sub now (created n).

Section auth.
Context `{M : Md5} `{B : Base64}.

(** The first user for whom both constant-time comparisons hold; the loop
    visits every user. *)
Definition match_user (ok : UserCred -> bool) (users : list UserCred) : option str :=
  fold_left (fun matched u =>
    match matched with None => if ok u then Some (name u) else None | Some _ => matched end) users None.

Definition verify_basic (authz : str) (users : list UserCred) : outcome (result str AuthError) :=
  let! rest := strip_prefix_ignore_case authz (lit "Basic ") in
  match rest with
  | None => Ret (Err UnknownScheme)
  | Some rest =>
      match b64_decode (trim rest) with
      | None => Ret (Err Malformed)
      | Some decoded =>
          match from_utf8 decoded with
          | None => Ret (Err Malformed)
          | Some s =>
              match split_once 58 s with
              | None => Ret (Err Malformed)
              | Some (user, pass) =>
                  match match_user (fun u => bool_decide (as_bytes (name u) = as_bytes user)
                          && bool_decide (as_bytes (password u) = as_bytes pass)) users with
                  | Some n => Ret (Ok n)
                  | None => Ret (Err BadCredentials)
                  end
              end
          end
      end
  end.

Definition build_basic_challenge (realm : str) : str := lit "Basic realm=" ++ [34] ++ realm ++ [34].

(** [{:x}] of a digest. *)
Definition hex_lower (d : Z) : Z := if d <? 10 then 48 + d else 87 + d.

Definition md5_hex (input : bytes) : str :=
  concat (map (fun x => [hex_lower (x / 16); hex_lower (x mod 16)]) (md5 input)).

Definition colon_join (parts : list str) : str :=
  match parts with [] => [] | p :: ps => foldl (fun acc q => acc ++ [58] ++ q) p ps end.

Definition digest_response (username realm password method uri nonce nc cnonce qop : str) : str :=
  let ha1 := md5_hex (as_bytes (colon_join [username; realm; password])) in
  let ha2 := md5_hex (as_bytes (colon_join [method; uri])) in
  md5_hex (as_bytes (colon_join [ha1; nonce; nc; cnonce; qop; ha2])).

Definition build_digest_challenge (realm : str) (nonce : Nonce) (stale : bool) : str :=
  lit "Digest realm=" ++ [34] ++ realm ++ [34] ++ lit ", qop=" ++ [34] ++ lit "auth" ++ [34]
  ++ lit ", nonce=" ++ [34] ++ value nonce ++ [34] ++ lit ", algorithm=MD5"
  ++ (if stale then lit ",stale=true" else []).

(** The [for ch] loop and the last parameter. *)
Fixpoint split_loop (s cur : str) (in_quotes : bool) (out : list str) : list str :=
  match s with
  | [] => match trim cur with [] => out | _ => out ++ [cur] end
  | ch :: s =>
      if ch =? 34 then split_loop s (cur ++ [ch]) (negb in_quotes) out
      else if (ch =? 44) && negb in_quotes then split_loop s [] in_quotes (out ++ [cur])
      else split_loop s (cur ++ [ch]) in_quotes out
  end.

Definition split_digest_params (s : str) : list str := split_loop s [] false [].

Fixpoint insert_params (parts : list str) (m : gmap str str) : result (gmap str str) AuthError :=
  match parts with
  | [] => Ok m
  | part :: parts =>
      match split_once 61 part with
      | None => Err Malformed
      | Some (k, v) =>
          insert_params parts (<[to_ascii_lowercase (trim k) := trim_matches 34 (trim v)]> m)
      end
  end.

Definition parse_digest_params (v : str) : outcome (result (gmap str str) AuthError) :=
  let! rest := strip_prefix_ignore_case v (lit "Digest ") in
  match rest with
  | None => Ret (Err UnknownScheme)
  | Some rest => Ret (insert_params (split_digest_params rest) ∅)
  end.

Definition uri_path (uri : str) : str :=
  match find_str (lit "://") uri with
  | Some (_, after) =>
      match find_str [47] after with
      | Some (_, path) => 47 :: path
      | None => [47]
      end
  | None => uri
  end.

Definition digest_uri_paths_match (a b : str) : bool := bool_decide (uri_path a = uri_path b).

Definition verify_digest (authz method request_uri : str) (users : list UserCred) (realm : str)
    (nonce_ok : str -> bool) : outcome (result str AuthError) :=
  let! params := parse_digest_params authz in
  match params with
  | Err e => Ret (Err e)
  | Ok params =>
      match params !! lit "username", params !! lit "nonce", params !! lit "uri",
            params !! lit "response" with
      | Some username, Some nonce, Some uri, Some response =>
          let qop := default [] (params !! lit "qop") in
          let nc := default [] (params !! lit "nc") in
          let cnonce := default [] (params !! lit "cnonce") in
          if negb (nonce_ok nonce) then Ret (Err StaleNonce)
          else if negb (digest_uri_paths_match uri request_uri) then Ret (Err BadCredentials)
          else
            let response_lower := to_ascii_lowercase response in
            match match_user (fun user =>
                    bool_decide (as_bytes (name user) = as_bytes username)
                    && bool_decide (as_bytes (digest_response (name user) realm (password user)
                         method uri nonce nc cnonce qop) = as_bytes response_lower)) users with
            | Some n => Ret (Ok n)
            | None => Ret (Err BadCredentials)
            end
      | _, _, _, _ => Ret (Err Malformed)
      end
  end.
End auth.
End Auth.

(** ** Transport: round trip, and the slice that panics *)

Section transport.
Import Transport.

Lemma digits_graphic s : Forall is_digit s -> Forall is_graphic s.
Proof. intros H. eapply Forall_impl; [|exact H]. unfold is_digit, is_graphic. lia. Qed.

Lemma graphic_ascii s : Forall is_graphic s -> Forall is_ascii s.
Proof. intros H. eapply Forall_impl; [|exact H]. unfold is_ascii, is_graphic. lia. Qed.

Lemma hex08_graphic n : Forall is_graphic (hex08 n) /\ Forall (fun c => c <> 59) (hex08 n).
Proof.
  assert (forall i, 0 <= n / 16 ^ i mod 16 < 16) as H by (intros i; apply Z.mod_pos_bound; lia).
  unfold hex08. split; apply Forall_map, List.Forall_forall; intros i _; specialize (H i);
    unfold is_graphic, hex_digit; destruct (Z.ltb_spec (n / 16 ^ i mod 16) 10); lia.
Qed.

Lemma range_parse max a b :
  0 <= a <= max -> 0 <= b <= max -> parse_range max (show_uint a ++ lit "-" ++ show_uint b) = Ok (a, b).
Proof.
  intros Ha Hb. destruct (show_uint_spec a) as (Da & _ & Pa); [lia|].
  destruct (show_uint_spec b) as (Db & _ & Pb); [lia|]. unfold parse_range.
  change (lit "-") with [45]. cbn [app]. rewrite split_once_sep.
  - rewrite !trim_graphic by (by apply digits_graphic). rewrite Pa, Pb by lia. done.
  - eapply Forall_impl; [|exact Da]. unfold is_digit. lia.
Qed.

(** A range of two numbers: printable, and free of the separator. *)
Lemma range_chars a b :
  0 <= a -> 0 <= b ->
  Forall is_graphic (show_uint a ++ lit "-" ++ show_uint b)
  /\ Forall (fun c => c <> 59) (show_uint a ++ lit "-" ++ show_uint b).
Proof.
  intros Ha Hb. destruct (show_uint_spec a Ha) as (Da & _). destruct (show_uint_spec b Hb) as (Db & _).
  split; repeat apply Forall_app_2; try (by apply digits_graphic); try lit_check;
    (eapply Forall_impl; [|eassumption]); unfold is_digit; lia.
Qed.

Lemma eq_ignore_other c s d w :
  ascii_lower c <> ascii_lower d -> eq_ignore_ascii_case (c :: s) (d :: w) = false.
Proof. intros H. apply bool_decide_eq_false. unfold to_ascii_lowercase. cbn [map]. congruence. Qed.

Lemma scan_unknown c s parts i p :
  Forall is_ascii (c :: s) -> Forall (fun d => ascii_lower c <> d) [117; 109; 105; 99] ->
  scan_parts ((c :: s) :: parts) i p = scan_parts parts i p.
Proof.
  intros Ha Hc. rewrite !Forall_cons_iff in Hc. destruct Hc as (H1 & H2 & H3 & H4 & _).
  cbn [scan_parts]. unfold lit. cbn [String.list_ascii_of_string map].
  rewrite !eq_ignore_other by done.
  rewrite strip_prefix_ignore_case_other by (done || lit_check). cbn [out_bind].
  by rewrite strip_prefix_ignore_case_other by (done || lit_check).
Qed.

Lemma scan_unicast parts i p : scan_parts (lit "unicast" :: parts) i p = scan_parts parts i p.
Proof. reflexivity. Qed.

Lemma scan_interleaved a b parts i p :
  u8 a -> u8 b ->
  scan_parts ((lit "interleaved=" ++ show_uint a ++ lit "-" ++ show_uint b) :: parts) i p
  = scan_parts parts (Some (a, b)) p.
Proof.
  intros Ha Hb. cbn [scan_parts].
  change (lit "interleaved=" ++ show_uint a ++ lit "-" ++ show_uint b)
    with (105 :: lit "nterleaved=" ++ show_uint a ++ lit "-" ++ show_uint b).
  change (lit "unicast") with (117 :: lit "nicast"). change (lit "multicast") with (109 :: lit "ulticast").
  rewrite !eq_ignore_other by done.
  change (105 :: lit "nterleaved=" ++ show_uint a ++ lit "-" ++ show_uint b)
    with (lit "interleaved=" ++ show_uint a ++ lit "-" ++ show_uint b).
  rewrite strip_prefix_ignore_case_match by done. cbn [out_bind].
  by rewrite range_parse by int_lia.
Qed.

Lemma scan_client_port a b parts i p :
  u16 a -> u16 b ->
  scan_parts ((lit "client_port=" ++ show_uint a ++ lit "-" ++ show_uint b) :: parts) i p
  = scan_parts parts i (Some (a, b)).
Proof.
  intros Ha Hb. destruct (range_chars a b) as [Hg _]; [int_lia|int_lia|]. apply graphic_ascii in Hg.
  cbn [scan_parts]. set (w := lit "client_port=" ++ show_uint a ++ lit "-" ++ show_uint b).
  assert (Forall is_ascii w) as Hw by (apply Forall_app_2; [lit_check|done]).
  assert (w = 99 :: lit "lient_port=" ++ show_uint a ++ lit "-" ++ show_uint b) as Ew by done.
  rewrite Ew in Hw |- *.
  change (lit "unicast") with (117 :: lit "nicast"). change (lit "multicast") with (109 :: lit "ulticast").
  rewrite !eq_ignore_other by done.
  change (lit "interleaved=") with (105 :: lit "nterleaved=").
  rewrite strip_prefix_ignore_case_other by (done || lit_check). cbn [out_bind].
  rewrite <- Ew. unfold w. rewrite strip_prefix_ignore_case_match by done. cbn [out_bind].
  by rewrite range_parse by int_lia.
Qed.

(** Both responses are lists of printable parameters. *)
Lemma parse_params profile parts :
  Forall (Forall is_graphic) (profile :: parts) ->
  Forall (Forall (fun c => c <> 59)) (profile :: parts) -> 
  map trim (split 59 (trim (foldl (fun acc q => acc ++ [59] ++ q) profile parts))) = profile :: parts.
Proof.
  intros Hg Hs. rewrite trim_graphic.
  - revert profile Hg Hs. induction parts as [|q parts IH]; intros profile Hg Hs.
    + inversion Hg; inversion Hs; subst. cbn [foldl]. rewrite split_none by done. cbn [map].
      by rewrite trim_graphic.
    + assert (forall acc, foldl (fun acc q => acc ++ [59] ++ q) (acc ++ [59] ++ q) parts
                = acc ++ [59] ++ foldl (fun acc q => acc ++ [59] ++ q) q parts) as E.
      { clear. revert q. induction parts as [|p parts IH]; intros q acc; [done|]. cbn [foldl].
        rewrite <- IH. by rewrite <- !app_assoc. }
      cbn [foldl]. rewrite E. inversion Hg as [|? ? Hg1 Hg2]; inversion Hs as [|? ? Hs1 Hs2]; subst.
      cbn [app]. rewrite split_sep by done. cbn [map]. rewrite trim_graphic by done. f_equal.
      by apply IH.
  - clear Hs. revert profile Hg. induction parts as [|q parts IH]; intros profile Hg;
      inversion Hg as [|? ? H1 H2]; subst; cbn [foldl]; [done|]. inversion H2 as [|? ? H3 H4]; subst.
    apply IH. constructor; [|done]. apply Forall_app_2; [done|]. apply Forall_app_2; [|done].
    by repeat constructor.
Qed.

Ltac parts_ok :=
  repeat first [ assumption | lit_check | apply Forall_app_2 | apply List.Forall_nil | apply List.Forall_cons ].

(** the [Transport:] header the server answers with, for
    interleaved channels or UDP ports, parses back to the transport it was
    built for: the ranges are read and the other parameters skipped. *)
Theorem transport_roundtrip a b srv_a srv_b ssrc :
  u16 a -> u16 b -> 0 <= srv_a -> 0 <= srv_b ->
  (u8 a -> u8 b -> parse (build_tcp_response a b ssrc) = Ret (Ok (TcpInterleaved a b)))
  /\ parse (build_udp_response a b srv_a srv_b ssrc) = Ret (Ok (UdpUnicast a b)).
Proof.
  intros Ha Hb Hsa Hsb. destruct (hex08_graphic ssrc) as [Xg Xs].
  destruct (range_chars a b) as [Rg Rs]; [int_lia|int_lia|].
  destruct (range_chars srv_a srv_b) as [Sg Ss]; [done|done|].
  pose proof (graphic_ascii _ Xg) as Xa. pose proof (graphic_ascii _ Sg) as Sa. split.
  - intros Ha8 Hb8. unfold parse.
    assert (build_tcp_response a b ssrc = foldl (fun acc q => acc ++ [59] ++ q) (lit "RTP/AVP/TCP")
      [lit "unicast"; lit "interleaved=" ++ show_uint a ++ lit "-" ++ show_uint b; lit "ssrc=" ++ hex08 ssrc])
      as -> by (cbn [foldl]; unfold build_tcp_response; by rewrite <- !app_assoc).
    rewrite parse_params; [|parts_ok..].
    change (eq_ignore_ascii_case (lit "RTP/AVP/TCP") (lit "RTP/AVP/TCP")) with true. cbn [negb andb].
    rewrite scan_unicast, scan_interleaved by done.
    change (lit "ssrc=" ++ hex08 ssrc) with (115 :: lit "src=" ++ hex08 ssrc).
    rewrite scan_unknown; [done| |by repeat constructor].
    apply (Forall_app_2 _ (lit "ssrc=")); parts_ok.
  - unfold parse.
    assert (build_udp_response a b srv_a srv_b ssrc = foldl (fun acc q => acc ++ [59] ++ q) (lit "RTP/AVP")
      [lit "unicast"; lit "client_port=" ++ show_uint a ++ lit "-" ++ show_uint b;
       lit "server_port=" ++ show_uint srv_a ++ lit "-" ++ show_uint srv_b; lit "ssrc=" ++ hex08 ssrc])
      as -> by (cbn [foldl]; unfold build_udp_response; by rewrite <- !app_assoc).
    rewrite parse_params; [|parts_ok..].
    change (eq_ignore_ascii_case (lit "RTP/AVP") (lit "RTP/AVP/TCP")) with false.
    change (eq_ignore_ascii_case (lit "RTP/AVP") (lit "RTP/AVP")) with true. cbn [negb andb orb].
    rewrite scan_unicast, scan_client_port by done.
    change (lit "server_port=" ++ show_uint srv_a ++ lit "-" ++ show_uint srv_b)
      with (115 :: lit "erver_port=" ++ show_uint srv_a ++ lit "-" ++ show_uint srv_b).
    rewrite scan_unknown; [|apply (Forall_app_2 _ (lit "server_port=")); parts_ok|by repeat constructor].
    change (lit "ssrc=" ++ hex08 ssrc) with (115 :: lit "src=" ++ hex08 ssrc).
    rewrite scan_unknown; [done| |by repeat constructor].
    apply (Forall_app_2 _ (lit "ssrc=")); parts_ok.
Qed.

Lemma scan_parts_ascii parts i p :
  Forall (Forall is_ascii) parts -> exists r, scan_parts parts i p = Ret r.
Proof.
  intros H. revert i p. induction H as [|part parts Hp Hps IH]; intros i p; [by eexists|].
  cbn [scan_parts]. destruct (eq_ignore_ascii_case _ _); [apply IH|].
  destruct (eq_ignore_ascii_case _ _); [by eexists|].
  destruct (strip_prefix_ignore_case_ascii part (lit "interleaved=") Hp) as [r ->]. cbn [out_bind].
  destruct r as [rest|]; [destruct (parse_range _ rest); [apply IH|by eexists]|].
  destruct (strip_prefix_ignore_case_ascii part (lit "client_port=") Hp) as [r ->]. cbn [out_bind].
  destruct r as [rest|]; [destruct (parse_range _ rest); [apply IH|by eexists]|]. apply IH.
Qed.

(** an ASCII header is parsed or refused; but a parameter
    whose twelfth byte lies inside a character makes the parser slice a string
    off a character boundary and panic. *)
Theorem transport_panic v :
  Forall is_ascii v ->
  (exists r, parse v = Ret r) /\ parse (lit "RTP/AVP;interleaved" ++ [0xE9]) = Panic.
Proof.
  intros Hv. split; [|reflexivity]. unfold parse.
  assert (Forall (Forall is_ascii) (map trim (split 59 (trim v)))) as Hp.
  { apply Forall_map. eapply Forall_impl; [intros s; apply trim_forall|]. by apply split_forall, trim_forall. }
  destruct (map trim (split 59 (trim v))) as [|profile parts]; [by eexists|].
  inversion Hp as [|? ? _ Hps]; subst.
  destruct (eq_ignore_ascii_case profile (lit "RTP/AVP/TCP")); cbn [negb andb];
    [|destruct (_ || _); cbn [negb]; [|by eexists]];
    destruct (scan_parts_ascii parts None None Hps) as [r ->]; cbn [out_bind];
    (destruct r as [[i p]|]; [|by eexists]); [destruct i as [[? ?]|]|destruct p as [[? ?]|]]; by eexists.
Qed.

Lemma transport_roundtrip_witness :
  parse (build_tcp_response 0 1 0xDEADBEEF) = Ret (Ok (TcpInterleaved 0 1)).
Proof. apply (transport_roundtrip 0 1 40000 40001 0xDEADBEEF); done. Defined.

Lemma transport_panic_witness :
  exists r, parse (lit "RTP/AVP/UDP;unicast;client_port=5000-5001") = Ret r.
Proof. apply transport_panic. by apply ascii_check. Defined.
End transport.

(** ** Digest authentication *)

Section digest.
Import Auth.
Context `{M : Md5}.

Lemma match_user_find ok users : match_user ok users = name <$> List.find ok users.
Proof.
  unfold match_user. induction users as [|u users IH]; [done|]. cbn [fold_left List.find].
  destruct (ok u); [|done]. clear IH. cbn [fmap option_fmap option_map].
  induction users as [|u' users IH]; [done|apply IH].
Qed.

(** What a header's parameters must prove for a user. *)
Definition proves (method realm : str) (params : gmap str str) (u : UserCred) : bool :=
  match params !! lit "username", params !! lit "nonce", params !! lit "uri",
        params !! lit "response" with
  | Some username, Some nonce, Some uri, Some response =>
      bool_decide (as_bytes (name u) = as_bytes username)
      && bool_decide (as_bytes (digest_response (name u) realm (password u) method uri nonce
           (default [] (params !! lit "nc")) (default [] (params !! lit "cnonce"))
           (default [] (params !! lit "qop"))) = as_bytes (to_ascii_lowercase response))
  | _, _, _, _ => false
  end.

(** C8: a digest header is accepted exactly when it parses, its
    nonce is the live one, the path of its [uri] is the path of the request, and
    for the accepted user, the first that qualifies, its response is the MD5
    digest over the user's own name and password, the realm, the request's
    method and the header's fields. *)
Theorem digest_accepts authz method request_uri users realm nonce_ok n :
  verify_digest authz method request_uri users realm nonce_ok = Ret (Ok n)
  <-> exists params nonce uri u, parse_digest_params authz = Ret (Ok params)
    /\ params !! lit "nonce" = Some nonce /\ params !! lit "uri" = Some uri
    /\ nonce_ok nonce = true /\ uri_path uri = uri_path request_uri
    /\ List.find (proves method realm params) users = Some u /\ name u = n.
Proof.
  unfold verify_digest. destruct (parse_digest_params authz) as [[params|e]|]; cbn [out_bind].
  2, 3: by split; [|intros (? & ? & ? & ? & E & _)].
  assert (forall x, Ret (Ok params) = Ret (Ok x) :> outcome (result (gmap str str) AuthError) -> x = params)
    as Hinj by congruence.
  unfold proves.
  destruct (params !! lit "username") as [username|] eqn:Eu.
  2: { split; [done|]. intros (p & no & uri & u & E & _ & _ & _ & _ & Hf & _). apply Hinj in E as ->.
       apply List.find_some in Hf as [_ Hf]. by rewrite Eu in Hf. }
  destruct (params !! lit "nonce") as [nonce|] eqn:En.
  2: { split; [done|]. intros (p & no & uri & u & E & H & _). apply Hinj in E as ->. congruence. }
  destruct (params !! lit "uri") as [uri|] eqn:Er.
  2: { split; [done|]. intros (p & no & uri & u & E & _ & H & _). apply Hinj in E as ->. congruence. }
  destruct (params !! lit "response") as [response|] eqn:Es.
  2: { split; [done|]. intros (p & no & uri' & u & E & _ & _ & _ & _ & Hf & _). apply Hinj in E as ->.
       apply List.find_some in Hf as [_ Hf]. by rewrite Eu, En, Er, Es in Hf. }
  rewrite match_user_find. set (ok := fun user : UserCred => _ && _). split.
  - destruct (nonce_ok nonce) eqn:Ek; cbn [negb]; [|done].
    unfold digest_uri_paths_match. case_bool_decide as Ep; cbn [negb]; [|done].
    destruct (List.find ok users) as [u|] eqn:Ef; cbn [fmap option_fmap option_map]; [|done].
    intros [= <-]. exists params, nonce, uri, u. rewrite Eu, En, Er, Es. by split_and!.
  - intros (p & nonce' & uri' & u & E & H1 & H2 & Ek & Ep & Hf & <-). apply Hinj in E as ->.
    rewrite Eu, En, Er, Es in Hf. rewrite En in H1. rewrite Er in H2. injection H1 as ->. injection H2 as ->.
    rewrite Ek. unfold digest_uri_paths_match. rewrite bool_decide_true by done. cbn [negb].
    fold ok in Hf. by rewrite Hf.
Qed.
End digest.

(** ** A client's digest header *)

Section client.
Import Auth.
Context `{M : Md5}.

(** A parameter: its key, whether the value is quoted, the value. *)
Record param := MkParam { key : str; quoted : bool; val : str }.

Definition encode_param (p : param) : str :=
  key p ++ [61] ++ (if quoted p then [34] ++ val p ++ [34] else val p).

Definition join_params (p : param) (ps : list param) : str :=
  encode_param p ++ concat (map (fun p => [44; 32] ++ encode_param p) ps).

Definition param_ok (p : param) : Prop :=
  Forall is_graphic (key p) /\ Forall (fun c => c <> 61) (key p) /\ Forall (fun c => c <> 34) (key p)
  /\ Forall (fun c => c <> 44) (key p) /\ to_ascii_lowercase (key p) = key p
  /\ Forall (fun c => c <> 34) (val p)
  /\ (quoted p = false -> Forall is_graphic (val p) /\ Forall (fun c => c <> 44) (val p)).

Lemma split_loop_plain s rest cur q out :
  Forall (fun c => c <> 34) s -> q = true \/ Forall (fun c => c <> 44) s ->
  split_loop (s ++ rest) cur q out = split_loop rest (cur ++ s) q out.
Proof.
  intros H. revert cur. induction H as [|c s Hc Hs IH]; intros cur Hq; [by rewrite app_nil_r|].
  cbn [app split_loop]. rewrite (proj2 (Z.eqb_neq _ _)) by done.
  assert ((c =? 44) && negb q = false) as ->.
  { destruct Hq as [->|Hq]; [by rewrite andb_false_r|]. inversion Hq; subst.
    by rewrite (proj2 (Z.eqb_neq _ _)). }
  rewrite IH; [by rewrite <- app_assoc|]. destruct Hq as [Hq|Hq]; [by left|right]. by inversion Hq.
Qed.

Lemma split_loop_param p rest cur out :
  param_ok p -> split_loop (encode_param p ++ rest) cur false out = split_loop rest (cur ++ encode_param p) false out.
Proof.
  intros (_ & _ & K34 & K44 & _ & V34 & Vq). unfold encode_param. rewrite <- !app_assoc.
  rewrite split_loop_plain by (done || by right).
  rewrite (split_loop_plain [61]) by (by repeat constructor || right; by repeat constructor).
  destruct (quoted p).
  - rewrite <- !app_assoc. cbn [app]. cbn [split_loop Z.eqb Pos.eqb negb].
    rewrite split_loop_plain by (done || by left). cbn [split_loop Z.eqb Pos.eqb negb].
    f_equal. by rewrite <- !app_assoc.
  - destruct (Vq eq_refl) as [_ V44]. rewrite split_loop_plain by (done || by right).
    f_equal. by rewrite <- !app_assoc.
Qed.

Lemma drop_while_in f s c : In c s -> f c = false -> In c (drop_while f s).
Proof.
  induction s as [|x s IH]; [done|]. intros [->|H] Hf; cbn [drop_while]; [rewrite Hf; by left|].
  destruct (f x); [by apply IH|by right].
Qed.

Lemma trim_nonempty s c : In c s -> is_whitespace c = false -> trim s <> [].
Proof.
  intros Hin Hc. unfold trim, trim_end, trim_start.
  assert (In c (rev (drop_while is_whitespace (rev (drop_while is_whitespace s))))) as H.
  { rewrite <- in_rev. apply drop_while_in; [|done]. rewrite <- in_rev. by apply drop_while_in. }
  intros E. by rewrite E in H.
Qed.

Lemma encode_param_eq_in p pre : In 61 (pre ++ encode_param p).
Proof. apply in_or_app. right. unfold encode_param. apply in_or_app. right. by left. Qed.

Lemma split_loop_params ps cur pre p out :
  Forall param_ok ps -> cur = pre ++ encode_param p ->
  split_loop (concat (map (fun p => [44; 32] ++ encode_param p) ps)) cur false out
  = out ++ cur :: map (fun p => 32 :: encode_param p) ps.
Proof.
  intros H. revert cur pre p out. induction H as [|q ps Hq Hps IH]; intros cur pre p out ->.
  - cbn [map concat split_loop]. destruct (trim _) eqn:E; [|done].
    by apply trim_nonempty with (c := 61) in E; [|apply encode_param_eq_in|].
  - cbn [map concat]. rewrite <- app_assoc. cbn [app]. cbn [split_loop Z.eqb Pos.eqb negb andb app].
    rewrite split_loop_param by done. rewrite (IH _ [32] q) by done. by rewrite <- app_assoc.
Qed.

Lemma split_params p ps :
  param_ok p -> Forall param_ok ps ->
  split_digest_params (join_params p ps) = encode_param p :: map (fun p => 32 :: encode_param p) ps.
Proof.
  intros Hp Hps. unfold split_digest_params, join_params. rewrite split_loop_param by done.
  by rewrite (split_loop_params ps _ [] p).
Qed.

Lemma trim_quoted v : Forall (fun c => c <> 34) v -> trim_matches 34 (trim ([34] ++ v ++ [34])) = v.
Proof.
  intros Hv. assert (trim ([34] ++ v ++ [34]) = [34] ++ v ++ [34]) as ->.
  { apply trim_both; [done|]. rewrite app_assoc, rev_app_distr. done. }
  unfold trim_matches, trim_end, trim_start.
  change (drop_while (Z.eqb 34) ([34] ++ v ++ [34])) with (drop_while (Z.eqb 34) (v ++ [34])).
  destruct v as [|c v]; [done|]. inversion Hv as [|? ? Hc _]; subst.
  rewrite (drop_while_id (Z.eqb 34) ((c :: v) ++ [34])) by (cbn [app]; apply Z.eqb_neq; congruence).
  rewrite rev_app_distr. change (drop_while (Z.eqb 34) (rev [34] ++ rev (c :: v)))
    with (drop_while (Z.eqb 34) (rev v ++ [c])).
  assert (rev (rev v ++ [c]) = c :: v) as E by (rewrite rev_app_distr, rev_involutive; done).
  rewrite drop_while_id; [exact E|].
  apply Forall_rev in Hv. cbn [rev] in Hv. destruct (rev v ++ [c]); [done|].
  inversion Hv; subst. apply Z.eqb_neq. congruence.
Qed.

Lemma insert_param pre p parts m :
  param_ok p -> pre = [] \/ pre = [32] ->
  insert_params ((pre ++ encode_param p) :: parts) m = insert_params parts (<[key p := val p]> m).
Proof.
  intros (Kg & K61 & K34 & K44 & Kl & V34 & Vq) Hpre. cbn [insert_params]. unfold encode_param.
  assert (pre ++ key p ++ [61] ++ (if quoted p then [34] ++ val p ++ [34] else val p)
    = (pre ++ key p) ++ 61 :: (if quoted p then [34] ++ val p ++ [34] else val p)) as ->
    by (by rewrite <- app_assoc).
  rewrite split_once_sep; [|destruct Hpre as [-> | ->]; [done|by constructor]].
  assert (trim (pre ++ key p) = key p) as ->.
  { destruct Hpre as [-> | ->]; [by apply trim_graphic|].
    unfold trim, trim_start. cbn [app drop_while is_whitespace].
    change (drop_while is_whitespace (32 :: key p)) with (drop_while is_whitespace (key p)).
    change (trim_end is_whitespace (drop_while is_whitespace (key p))) with (trim (key p)).
    by apply trim_graphic. }
  rewrite Kl. do 2 f_equal. destruct (quoted p); [by apply trim_quoted|].
  destruct (Vq eq_refl) as [Vg _]. rewrite trim_graphic by done.
  apply trim_both; [destruct (val p); [done|]; inversion V34; subst; apply Z.eqb_neq; congruence|].
  apply Forall_rev in V34. destruct (rev (val p)); [done|]. inversion V34; subst. apply Z.eqb_neq. congruence.
Qed.

Lemma insert_all ps m :
  Forall param_ok ps ->
  insert_params (map (fun p => 32 :: encode_param p) ps) m
  = Ok (fold_left (fun m p => <[key p := val p]> m) ps m).
Proof.
  intros H. revert m. induction H as [|p ps Hp Hps IH]; intros m; [done|]. cbn [map fold_left].
  rewrite <- IH. by apply (insert_param [32]); [|right].
Qed.

(** Quoted and bare parameters come back, whatever commas and spaces the
    quoted values hold. *)
Lemma parse_join p ps :
  param_ok p -> Forall param_ok ps ->
  parse_digest_params (lit "Digest " ++ join_params p ps)
  = Ret (Ok (fold_left (fun m p => <[key p := val p]> m) (p :: ps) ∅)).
Proof.
  intros Hp Hps. unfold parse_digest_params. rewrite strip_prefix_ignore_case_match by done.
  cbn [out_bind]. rewrite split_params by done.
  rewrite (insert_param [] p _ _ Hp) by (by left). by rewrite insert_all.
Qed.

(** The header of a client that answers a challenge. *)
Definition client_params (username realm nonce uri response nc cnonce : str) : list param :=
  [MkParam (lit "realm") true realm; MkParam (lit "nonce") true nonce; MkParam (lit "uri") true uri;
   MkParam (lit "response") true response; MkParam (lit "qop") false (lit "auth");
   MkParam (lit "nc") false nc; MkParam (lit "cnonce") true cnonce].

Definition client_header (username realm nonce uri response nc cnonce : str) : str :=
  lit "Digest "
  ++ join_params (MkParam (lit "username") true username)
       (client_params username realm nonce uri response nc cnonce).

Definition unquoted (s : str) : Prop := Forall (fun c => c <> 34) s.

Lemma literal_param_ok (k : str) q v :
  forallb (in_range 97 122) k = true -> unquoted v ->
  (q = false -> Forall is_graphic v /\ Forall (fun c => c <> 44) v) -> param_ok (MkParam k q v).
Proof.
  intros Hk Hv Hq. rewrite List.forallb_forall in Hk.
  assert (forall c, In c k -> 97 <= c <= 122) as Hc.
  { intros c Hc. specialize (Hk c Hc). unfold in_range in Hk. b2p. lia. }
  split; [|split; [|split; [|split; [|split; [|split; [done|done]]]]]]; cbn [key].
  1-4: apply List.Forall_forall; intros c H; specialize (Hc c H); unfold is_graphic; lia.
  unfold to_ascii_lowercase. rewrite <- (map_id k) at 2. apply map_ext_in. intros c H.
  specialize (Hc c H). unfold ascii_lower, in_range. rewrite (proj2 (Z.leb_gt _ 90)) by lia.
  by rewrite andb_false_r.
Qed.

Ltac key_ne := let E := fresh in intros E; vm_compute in E; discriminate E.
Ltac param_lookup :=
  repeat first [rewrite lookup_insert_eq | rewrite lookup_insert_ne by key_ne].

(** a client that knows the password of one of the
    configured users and answers the live challenge for the path it requests is
    accepted as that user, however it spells the URI and in whatever case it
    writes the digest. *)
Theorem digest_client_accepted u users realm nonce uri response nc cnonce method request_uri nonce_ok :
  In u users -> NoDup (map (fun u => as_bytes (name u)) users) ->
  unquoted (name u) -> unquoted realm -> unquoted nonce -> unquoted uri -> unquoted cnonce ->
  unquoted response -> unquoted nc -> Forall is_graphic nc -> Forall (fun c => c <> 44) nc ->
  nonce_ok nonce = true -> uri_path uri = uri_path request_uri ->
  to_ascii_lowercase response
    = digest_response (name u) realm (password u) method uri nonce nc cnonce (lit "auth") ->
  verify_digest (client_header (name u) realm nonce uri response nc cnonce) method request_uri users
    realm nonce_ok = Ret (Ok (name u)).
Proof.
  intros Hin Hnd Qu Qr Qn Quri Qc Qresp Qnc Hnc Hnc44 Hk Hp Hresp.
  unfold verify_digest, client_header. rewrite parse_join.
  2: { by apply literal_param_ok. }
  2: { unfold client_params. repeat apply List.Forall_cons; [..|apply List.Forall_nil];
         (apply literal_param_ok; [reflexivity|try done|try done]); [lit_check|split; lit_check]. }
  cbn [out_bind fold_left client_params key val]. param_lookup. cbn [default].
  rewrite Hk. unfold digest_uri_paths_match. rewrite bool_decide_true by done. cbn [negb].
  rewrite match_user_find. set (ok := fun user : UserCred => _ && _).
  assert (ok u = true) as Hok.
  { unfold ok. rewrite !bool_decide_true; [done| |done]. by rewrite Hresp. }
  destruct (List.find ok users) as [u'|] eqn:Ef.
  - apply List.find_some in Ef as [Hin' Hok']. cbn [fmap option_fmap option_map].
    assert (as_bytes (name u') = as_bytes (name u)) as En.
    { unfold ok in Hok'. apply andb_true_iff in Hok' as [H _]. by apply bool_decide_eq_true in H. }
    assert (u' = u) as ->; [|done]. clear -Hin Hin' Hnd En.
    induction users as [|v users IH]; [done|]. cbn [map] in Hnd. inversion Hnd as [|? ? Hni Hnd']; subst.
    destruct Hin as [->|Hin], Hin' as [->|Hin']; [done| | |by apply IH].
    + exfalso. apply Hni. rewrite <- En. apply list_elem_of_In. by apply in_map with (f := fun u => as_bytes (name u)).
    + exfalso. apply Hni. rewrite En. apply list_elem_of_In. by apply in_map with (f := fun u => as_bytes (name u)).
  - pose proof (List.find_none _ _ Ef u Hin). congruence.
Qed.
End client.

Lemma digest_accepts_witness :
  exists params, Auth.parse_digest_params (lit "Digest nc=00000001") = Ret (Ok params)
  /\ ~ (exists n, Auth.verify_digest (M := md5_toy) (lit "Digest nc=00000001") (lit "PLAY") (lit "/cam") []
          (lit "realm") (fun _ => true) = Ret (Ok n)).
Proof.
  eexists. split; [reflexivity|]. intros [n H].
  apply (digest_accepts (M := md5_toy)) in H as (p & no & uri & u & _ & _ & _ & _ & _ & H & _). discriminate H.
Defined.

Lemma digest_client_accepted_witness :
  let u := Auth.MkUserCred (lit "alice") (lit "wonderland") in
  let response := Auth.digest_response (M := md5_toy) (lit "alice") (lit "r1, r2") (lit "wonderland")
    (lit "DESCRIBE") (lit "rtsp://host/cam1") (lit "abcd") (lit "00000001") (lit "xyz") (lit "auth") in
  Auth.verify_digest (M := md5_toy)
    (client_header (lit "alice") (lit "r1, r2") (lit "abcd") (lit "rtsp://host/cam1") response
       (lit "00000001") (lit "xyz"))
    (lit "DESCRIBE") (lit "/cam1") [u] (lit "r1, r2") (fun n => bool_decide (n = lit "abcd"))
  = Ret (Ok (lit "alice")).
Proof.
  intros u response.
  apply (digest_client_accepted (M := md5_toy) u [u]); try (unfold unquoted; lit_check); try lit_check.
  - by left.
  - apply NoDup_singleton.
  - done.
  - vm_compute. reflexivity.
  - vm_compute. reflexivity.
Defined.
