(* ===== verification/Sdp.v ===== *)
(** * The session description ([src/rtsp/sdp.rs])

    [build] renders the SDP of a stream. Base64 is the interface [Base64]. *)

From S2P Require Import Prelude Nal StreamTranslate Text RtspText.

Record SdpParams := MkSdpParams {
  server_ip : str;
  session_id : str;
  session_name : str;
  sdp_video : option VideoParams;
  sdp_audio : option AudioParams
}.

Section sdp.
Context `{B : Base64}.

Definition CRLF : str := [13; 10].

(** [{:02x}]. *)
Definition hex02 (b : Z) : str := [Auth.hex_lower (b / 16); Auth.hex_lower (b mod 16)].

Definition append_video (s : str) (v : VideoParams) (track_id : Z) : str :=
  let pt := show_uint (vp_payload_type v) in
  let s := s ++ lit "m=video 0 RTP/AVP " ++ pt ++ CRLF in
  let s :=
    match vp_codec v with
    | H264 =>
        s ++ lit "a=rtpmap:" ++ pt ++ lit " H264/90000" ++ CRLF
        ++ lit "a=fmtp:" ++ pt ++ lit " packetization-mode=1;profile-level-id="
        ++ (let '(a, b, c) := vp_profile_level_id v in hex02 a ++ hex02 b ++ hex02 c)
        ++ lit ";sprop-parameter-sets=" ++ b64_encode (vp_sps v) ++ lit "," ++ b64_encode (vp_pps v) ++ CRLF
    | H265 =>
        s ++ lit "a=rtpmap:" ++ pt ++ lit " H265/90000" ++ CRLF
        ++ lit "a=fmtp:" ++ pt ++ lit " sprop-vps="
        ++ match vp_vps v with Some b => b64_encode b | None => [] end
        ++ lit ";sprop-sps=" ++ b64_encode (vp_sps v) ++ lit ";sprop-pps=" ++ b64_encode (vp_pps v) ++ CRLF
    end in
  s ++ lit "a=control:trackID=" ++ show_uint track_id ++ CRLF.

Definition append_audio (s : str) (a : AudioParams) (track_id : Z) : str :=
  let pt := show_uint (ap_payload_type a) in
  let s := s ++ lit "m=audio 0 RTP/AVP " ++ pt ++ CRLF in
  let s :=
    match ap_codec a with
    | Nal.Aac =>
        s ++ lit "a=rtpmap:" ++ pt ++ lit " mpeg4-generic/" ++ show_uint (ap_sample_rate a)
        ++ lit "/" ++ show_uint (ap_channels a) ++ CRLF
        ++ lit "a=fmtp:" ++ pt
        ++ lit " streamtype=5;profile-level-id=1;mode=AAC-hbr;sizelength=13;indexlength=3;indexdeltalength=3;config="
        ++ match ap_asc_hex a with Some h => lit h | None => [] end ++ CRLF
    | G711Ulaw => s ++ lit "a=rtpmap:" ++ pt ++ lit " PCMU/8000" ++ CRLF
    end in
  s ++ lit "a=control:trackID=" ++ show_uint track_id ++ CRLF.

Definition build (p : SdpParams) : str :=
  let s := lit "v=0" ++ CRLF
    ++ lit "o=- " ++ session_id p ++ lit " 1 IN IP4 " ++ server_ip p ++ CRLF
    ++ lit "s=" ++ session_name p ++ CRLF
    ++ lit "c=IN IP4 " ++ server_ip p ++ CRLF
    ++ lit "t=0 0" ++ CRLF ++ lit "a=control:*" ++ CRLF ++ lit "a=range:npt=now-" ++ CRLF in
  let '(s, track_id) :=
    match sdp_video p with Some v => (append_video s v 0, 1) | None => (s, 0) end in
  match sdp_audio p with Some a => append_audio s a track_id | None => s end.
End sdp.
