(* ===== verification/RtspServer.v ===== *)
(** * The RTSP connection ([src/rtsp/server/connection.rs], [registry.rs],
    [udp_pool.rs], [transport.rs], [src/rtsp/protocol/message.rs])

    One TCP connection: cutting requests out of the read buffer, parsing them,
    the handlers of the seven methods, the session registry with its keepalive
    sweep, and the pool of UDP port pairs.

    The request parser of [rtsp_types] is the interface [RtspTypes]. What a
    handler asks of the outside (the clock, fresh random values, the stream
    provider, the operating system's sockets, whether the peer still takes
    bytes) is the record [Env] of answers, one per request. A response is a
    record: rendering it is [rtsp_types]' work. What a handler does to the
    outside (responses sent, subscriptions to a camera and their release) is a
    list of [effect]s. The send loops of the sessions appear only through the
    tracks they share and by removing their session when they end. *)

From S2P Require Import Prelude Wire Nal StreamTranslate Text XorCrypto RtspText Sdp.

(** ** Messages ([message.rs]) *)

Inductive RtspMethod := Options | Describe | Setup | Play | Teardown | Pause | GetParameter.

(** [rtsp_types]' methods: those the server accepts, and the others. *)
Inductive Method := Supported (m : RtspMethod) | OtherMethod.

Definition from_rtsp_types (m : Method) : option RtspMethod :=
  match m with Supported m => Some m | OtherMethod => None end.

Definition as_str (m : RtspMethod) : str :=
  match m with
  | Options => lit "OPTIONS" | Describe => lit "DESCRIBE" | Setup => lit "SETUP" | Play => lit "PLAY"
  | Teardown => lit "TEARDOWN" | Pause => lit "PAUSE" | GetParameter => lit "GET_PARAMETER"
  end.

Record Request := MkRequest {
  rq_method : Method;
  rq_uri : option str;
  rq_headers : list (str * str)
}.

Inductive Message := RequestMessage (r : Request) | OtherMessage.

Class RtspTypes := { message_parse : bytes -> option Message }.

Inductive MessageError := Malformed | UnsupportedMethod | MissingCSeq.

Record ParsedRequest := MkParsedRequest {
  method : RtspMethod;
  uri : str;
  cseq : Z;
  session : option str;
  authorization : option str;
  user_agent : option str;
  transport : option str;
  range : option str
}.

Definition find_header (name : str) (headers : list (str * str)) : option str :=
  snd <$> List.find (fun h => eq_ignore_ascii_case (fst h) name) headers.

Section message.
Context `{R : RtspTypes}.

Definition parse_request (buf : bytes) : result ParsedRequest MessageError :=
  match message_parse buf with
  | None | Some OtherMessage => Err Malformed
  | Some (RequestMessage req) =>
      match from_rtsp_types (rq_method req) with
      | None => Err UnsupportedMethod
      | Some method =>
          match rq_uri req with
          | None => Err Malformed
          | Some uri =>
              match (v ← find_header (lit "CSeq") (rq_headers req); parse_uint u32_max (trim v)) with
              | None => Err MissingCSeq
              | Some cseq =>
                  let header_str name := trim <$> find_header name (rq_headers req) in
                  Ok (MkParsedRequest method uri cseq
                        ((fun s => trim (default s (head (split 59 s)))) <$> header_str (lit "Session"))
                        (header_str (lit "Authorization")) (header_str (lit "User-Agent"))
                        (header_str (lit "Transport")) (header_str (lit "Range")))
              end
          end
      end
  end.
End message.

Inductive StatusCode :=
| StatusOk | BadRequest | Unauthorized | Forbidden | NotFound | SessionNotFound
| UnsupportedTransport | InternalServerError | ServiceUnavailable.

(** [build_response], before [rtsp_types] renders it: the [Server] header is a
    constant, [Content-Length] follows from the body. *)
Record Response := MkResponse {
  status : StatusCode;
  r_cseq : Z;
  extra_headers : list (str * str);
  r_body : option str
}.

Definition build_response (s : StatusCode) (c : Z) (h : list (str * str)) (b : option str) : Response :=
  MkResponse s c h b.

(** ** Cutting requests out of the buffer *)

Definition MAX_REQUEST_BYTES : Z := 64 * 1024.

Fixpoint find_double_crlf (buf : bytes) : option nat :=
  if bool_decide (take 4 buf = [13; 10; 13; 10]) then Some 0%nat
  else match buf with [] => None | _ :: buf => S <$> find_double_crlf buf end.

Fixpoint content_length_of (lines : list str) : option Z :=
  match lines with
  | [] => None
  | line :: lines =>
      match split_once 58 line with
      | Some (name, value) =>
          if eq_ignore_ascii_case name (lit "Content-Length") then parse_uint u64_max (trim value)
          else content_length_of lines
      | None => content_length_of lines
      end
  end.

Definition parse_content_length (headers : bytes) : option Z :=
  s ← from_utf8 headers; content_length_of (split_lines s).

(** The request, if complete, and the buffer after it. [usize] is 64 bits: the
    addition cannot overflow after the first check. *)
Definition try_consume_request (buf : bytes) : result (option bytes * bytes) unit :=
  match find_double_crlf buf with
  | Some pos =>
      let end_ := Z.of_nat pos + 4 in
      let body_len := default 0 (parse_content_length (take (pos + 4) buf)) in
      if MAX_REQUEST_BYTES <? body_len then Err tt
      else
        let total := end_ + body_len in
        if MAX_REQUEST_BYTES <? total then Err tt
        else if len buf <? total then Ok (None, buf)
        else Ok (Some (take (Z.to_nat total) buf), drop (Z.to_nat total) buf)
  | None => Ok (None, buf)
  end.

(** ** UDP port pairs ([udp_pool.rs], [transport.rs]) *)

Definition POOL_START : Z := 40000.
Definition POOL_END : Z := 40998.

(** The [while] loop: 500 turns reach the end of the pool. *)
Fixpoint acquire_loop (fuel : nat) (port : Z) (used : gset Z) : option (Z * gset Z) :=
  match fuel with
  | O => None
  | S fuel =>
      if port <=? POOL_END then
        if bool_decide (port ∈ used) then acquire_loop fuel (port + 2) used
        else Some (port, {[port]} ∪ used)
      else None
  end.

Definition acquire (used : gset Z) : option (Z * gset Z) := acquire_loop 501 POOL_START used.

Definition release (used : gset Z) (port : Z) : gset Z := used ∖ {[port]}.

(** The operating system's answer to binding a pair: both sockets, an address
    in use, or another error. *)
Inductive BindResult := Bound | AddrInUse | BindError.

(** The leases of a [Vec] are released when it drops. *)
Definition release_all (used : gset Z) (ports : list Z) : gset Z := fold_left release ports used.

(** [UdpUnicastTransport::bind]: every turn parks another pair, so 501 turns
    exhaust the pool. *)
Fixpoint bind_loop (fuel : nat) (bind : Z -> BindResult) (used : gset Z) (parked : list Z)
    : option Z * gset Z :=
  match fuel with
  | O => (None, release_all used parked)
  | S fuel =>
      match acquire used with
      | None => (None, release_all used parked)
      | Some (port, used) =>
          match bind port with
          | Bound => (Some port, release_all used parked)
          | AddrInUse => bind_loop fuel bind used (parked ++ [port])
          | BindError => (None, release_all (release used port) parked)
          end
      end
  end.

Definition bind_udp (bind : Z -> BindResult) (used : gset Z) : option Z * gset Z :=
  bind_loop 501 bind used [].

(** ** State ([registry.rs], [connection.rs]) *)

Inductive TrackKind := VideoTrack | AudioTrack.

Inductive TrackTransport :=
| TcpInterleavedTransport (channel_rtp channel_rtcp : Z)
| UdpUnicastTransport (server_rtp_port client_rtp_port client_rtcp_port : Z).

Record TrackEntry := MkTrack {
  kind : TrackKind;
  track_transport : TrackTransport;
  ssrc : Z;
  clock_rate : Z
}.

(** A subscription: the guard that holds the camera awake, and the SDP. *)
Record SubscriptionHandle := MkSubscription { guard : Z; sdp_params : SdpParams }.

Inductive StreamError := UnknownCamera | AccessDenied | Unavailable | Internal.

Record SessionEntry := MkSession {
  subscription : SubscriptionHandle;
  last_activity : Z;
  tracks : list TrackEntry;
  play_fired : bool
}.

Record IpAddr := MkIp { ip_text : str; is_unspecified : bool }.

Record ConnectionState := MkConn {
  users : list Auth.UserCred;
  realm : str;
  current_nonce : Auth.Nonce;
  sessions : gmap str SessionEntry;
  udp_pool : gset Z;
  server_bind_ip : IpAddr;
  local_ip : IpAddr;
  is_tls : bool
}.

Inductive effect := Subscribed (guard : Z) | Released (guard : Z) | Sent (r : Response).

(** The answers a request gets from outside. [first_video_rtp] is what the PLAY
    handler finds in the session's slot within its ten looks. *)
Record Env := MkEnv {
  now : Z;
  fresh_nonce : str;
  fresh_session_id : str;
  fresh_ssrc : Z;
  unix_secs : Z;
  subscribe : str -> Url.StreamKind -> option str -> result SubscriptionHandle StreamError;
  bind : Z -> BindResult;
  first_video_rtp : option (Z * Z);
  write_ok : bool;
  is_cancelled : bool
}.

Definition set_nonce (st : ConnectionState) (n : Auth.Nonce) : ConnectionState :=
  MkConn (users st) (realm st) n (sessions st) (udp_pool st) (server_bind_ip st) (local_ip st) (is_tls st).

Definition set_sessions (st : ConnectionState) (m : gmap str SessionEntry) : ConnectionState :=
  MkConn (users st) (realm st) (current_nonce st) m (udp_pool st) (server_bind_ip st) (local_ip st) (is_tls st).

Definition set_pool (st : ConnectionState) (p : gset Z) : ConnectionState :=
  MkConn (users st) (realm st) (current_nonce st) (sessions st) p (server_bind_ip st) (local_ip st) (is_tls st).

(** The leases a dropped entry's tracks hold. *)
Definition track_ports (t : TrackEntry) : list Z :=
  match track_transport t with UdpUnicastTransport p _ _ => [p] | _ => [] end.

Definition entry_ports (e : SessionEntry) : list Z := concat (map track_ports (tracks e)).

(** Dropping an entry cancels its send loop, drops its subscription and frees
    its ports. *)
Definition drop_entry (st : ConnectionState) (e : SessionEntry) : list effect * ConnectionState :=
  ([Released (guard (subscription e))], set_pool st (release_all (udp_pool st) (entry_ports e))).

(** [SessionRegistry::remove]. *)
Definition registry_remove (st : ConnectionState) (id : str) : bool * list effect * ConnectionState :=
  match sessions st !! id with
  | None => (false, [], st)
  | Some e =>
      let '(effs, st) := drop_entry (set_sessions st (delete id (sessions st))) e in (true, effs, st)
  end.

Fixpoint remove_each (ids : list str) (st : ConnectionState) : list effect * ConnectionState :=
  match ids with
  | [] => ([], st)
  | id :: ids =>
      let '(_, effs, st) := registry_remove st id in
      let '(effs', st) := remove_each ids st in (effs ++ effs', st)
  end.

(** [SessionRegistry::clear]. *)
Definition clear (st : ConnectionState) : list effect * ConnectionState :=
  remove_each (map fst (map_to_list (sessions st))) st.

(** [SessionRegistry::sweep_expired]. *)
Definition sweep_expired (st : ConnectionState) (now max_idle : Z) : list effect * ConnectionState :=
  remove_each
    (map fst (List.filter (fun ie : str * SessionEntry => max_idle <? sat_sub now (last_activity (snd ie)))
                (map_to_list (sessions st)))) st.

Definition update_session (st : ConnectionState) (id : str) (f : SessionEntry -> SessionEntry)
    : ConnectionState := set_sessions st (alter f id (sessions st)).

Definition touch (st : ConnectionState) (id : str) (now : Z) : ConnectionState :=
  update_session st id (fun e => MkSession (subscription e) now (tracks e) (play_fired e)).

Definition append_track (st : ConnectionState) (id : str) (t : TrackEntry) : ConnectionState :=
  update_session st id (fun e => MkSession (subscription e) (last_activity e) (tracks e ++ [t]) (play_fired e)).

Definition mark_playing (st : ConnectionState) (id : str) : ConnectionState :=
  update_session st id (fun e => MkSession (subscription e) (last_activity e) (tracks e) true).

Definition contains (st : ConnectionState) (id : str) : bool :=
  match sessions st !! id with Some _ => true | None => false end.

Definition audio_sample_rate (st : ConnectionState) (id : str) : option Z :=
  e ← sessions st !! id; a ← sdp_audio (sdp_params (subscription e)); Some (ap_sample_rate a).

Definition is_empty (st : ConnectionState) : bool :=
  match map_to_list (sessions st) with [] => true | _ => false end.

(** ** Handlers ([connection.rs])

    A handler's result: its effects, whether the connection goes on (a failed
    write ends it), and the new state. *)

Definition SECOND : Z := 1000000000.

Definition NONCE_TTL : Z := 300 * SECOND.
Definition INITIAL_REQUEST_TIMEOUT : Z := 30 * SECOND.

Abbreviation handled := (list effect * bool * ConnectionState)%type.

Definition write_response (env : Env) (st : ConnectionState) (r : Response) : handled :=
  if write_ok env then ([Sent r], true, st) else ([], false, st).

(** Effects before the rest of a handler. *)
Definition after (effs : list effect) (h : handled) : handled :=
  let '(effs', ok, st) := h in (effs ++ effs', ok, st).

Definition respond (env : Env) (st : ConnectionState) (s : StatusCode) (c : Z)
    (h : list (str * str)) (b : option str) : handled :=
  write_response env st (build_response s c h b).

Definition extract_path (uri : str) : str :=
  match find_str (lit "://") uri with
  | Some (_, after) =>
      match find_str [47] after with
      | Some (_, path) => 47 :: path
      | None => [47]
      end
  | None => uri
  end.

Definition scheme_matches_transport (uri : str) (is_tls : bool) : bool :=
  if starts_with (lit "rtsp://") uri then negb is_tls
  else if starts_with (lit "rtsps://") uri then is_tls
  else true.

Definition advertised_server_ip (st : ConnectionState) : IpAddr :=
  if is_unspecified (server_bind_ip st) then local_ip st else server_bind_ip st.

(** *** Authentication *)

Inductive AuthOutcome :=
| AuthOk (user : str)
| Challenge (headers : list (str * str))
| AuthForbidden.

Definition timeout_session (sid : str) : str * str := (lit "Session", sid ++ lit ";timeout=30").

Section handlers.
Context `{R : RtspTypes} `{M : Md5} `{B : Base64}.

Definition challenge_header (v : str) : str * str := (lit "WWW-Authenticate", v).

Definition nonce_ok (env : Env) (st : ConnectionState) (n : str) : bool :=
  bool_decide (n = Auth.value (current_nonce st))
  && negb (Auth.is_stale (current_nonce st) (now env) NONCE_TTL).

Definition authenticate_digest (env : Env) (st : ConnectionState) (p : ParsedRequest) (authz m : str)
    : outcome (AuthOutcome * ConnectionState) :=
  let nonce := current_nonce st in
  let! r := Auth.verify_digest authz m (uri p) (users st) (realm st) (nonce_ok env st) in
  match r with
  | Ok user => Ret (AuthOk user, st)
  | Err Auth.StaleNonce =>
      let fresh := Auth.MkNonce (fresh_nonce env) (now env) in
      Ret (Challenge [challenge_header (Auth.build_digest_challenge (realm st) fresh true)],
           set_nonce st fresh)
  | Err Auth.BadCredentials => Ret (AuthForbidden, st)
  | Err _ => Ret (Challenge [challenge_header (Auth.build_digest_challenge (realm st) nonce false)], st)
  end.

Definition authenticate (env : Env) (st : ConnectionState) (p : ParsedRequest) (m : str)
    : outcome (AuthOutcome * ConnectionState) :=
  match authorization p with
  | None =>
      Ret (Challenge (challenge_header (Auth.build_digest_challenge (realm st) (current_nonce st) false)
             :: if is_tls st then [challenge_header (Auth.build_basic_challenge (realm st))] else []), st)
  | Some authz =>
      if is_tls st && starts_with (lit "basic ") (to_ascii_lowercase authz) then
        let! r := Auth.verify_basic authz (users st) in
        match r with
        | Ok user => Ret (AuthOk user, st)
        | Err Auth.BadCredentials => Ret (AuthForbidden, st)
        | Err _ => Ret (Challenge [challenge_header (Auth.build_basic_challenge (realm st))], st)
        end
      else authenticate_digest env st p authz m
  end.

(** The auth gate of DESCRIBE and SETUP: the rest of the handler runs with the
    user, or with none when no users are configured. *)
Definition auth_gate (env : Env) (st : ConnectionState) (p : ParsedRequest) (m : str)
    (k : option str -> ConnectionState -> outcome handled) : outcome handled :=
  match users st with
  | [] => k None st
  | _ =>
      let! (a, st) := authenticate env st p m in
      match a with
      | AuthOk user => k (Some user) st
      | Challenge headers => Ret (respond env st Unauthorized (cseq p) headers None)
      | AuthForbidden => Ret (respond env st Forbidden (cseq p) [] None)
      end
  end.

(** *** OPTIONS, GET_PARAMETER, PAUSE *)

Definition handle_options (env : Env) (st : ConnectionState) (c : Z) : handled :=
  respond env st StatusOk c
    [(lit "Public", lit "OPTIONS, DESCRIBE, SETUP, PLAY, TEARDOWN, GET_PARAMETER, PAUSE")] None.

Definition handle_getparameter (env : Env) (st : ConnectionState) (p : ParsedRequest) : handled :=
  respond env st StatusOk (cseq p)
    (match session p with Some sid => [timeout_session sid] | None => [] end) None.

Definition handle_pause (env : Env) (st : ConnectionState) (p : ParsedRequest) : handled :=
  respond env st StatusOk (cseq p)
    (match session p with Some sid => [(lit "Session", sid)] | None => [] end) None.

(** *** DESCRIBE *)

Definition subscribe_with_extern_fallback (env : Env) (camera : str) (kind : Url.StreamKind)
    (user : option str) : result SubscriptionHandle StreamError :=
  match subscribe env camera kind user, kind with
  | Err Unavailable, Url.Extern => subscribe env camera Url.Sub user
  | other, _ => other
  end.

Definition content_base (uri : str) : str :=
  if bool_decide (head (rev uri) = Some 47) then uri else uri ++ [47].

Definition handle_describe (env : Env) (st : ConnectionState) (p : ParsedRequest) : outcome handled :=
  match Url.resolve (extract_path (uri p)) with
  | None => Ret (respond env st NotFound (cseq p) [] None)
  | Some resolved =>
      auth_gate env st p (lit "DESCRIBE") (fun user st =>
        match subscribe_with_extern_fallback env (Url.camera resolved) (Url.stream resolved) user with
        | Err UnknownCamera => Ret (respond env st NotFound (cseq p) [] None)
        | Err _ => Ret (respond env st ServiceUnavailable (cseq p) [] None)
        | Ok sub =>
            let s := sdp_params sub in
            let sdp := build (MkSdpParams (ip_text (advertised_server_ip st)) (show_uint (unix_secs env))
                         (session_name s) (sdp_video s) (sdp_audio s)) in
            Ret (after [Subscribed (guard sub); Released (guard sub)]
                  (respond env st StatusOk (cseq p)
                     [(lit "Content-Type", lit "application/sdp");
                      (lit "Content-Base", content_base (uri p))] (Some sdp)))
        end)
  end.

(** *** SETUP *)

(** The base path and the track index: 0 without a numeric [trackID=]. *)
Definition setup_target (path : str) : str * Z :=
  match ('(base, last) ← rsplit_once 47 path;
         n ← (strip_prefix (lit "trackID=") last ≫= parse_uint u32_max);
         Some (base : str, n : Z)) with
  | Some target => target
  | None => (path, 0)
  end.

Definition build_transport (env : Env) (st : ConnectionState) (spec : Transport.TransportSpec) (track_ssrc : Z)
    : result (TrackTransport * str) StatusCode * ConnectionState :=
  match spec with
  | Transport.TcpInterleaved channel_rtp channel_rtcp =>
      (Ok (TcpInterleavedTransport channel_rtp channel_rtcp,
           Transport.build_tcp_response channel_rtp channel_rtcp track_ssrc), st)
  | Transport.UdpUnicast client_rtp_port client_rtcp_port =>
      match bind_udp (bind env) (udp_pool st) with
      | (None, used) => (Err InternalServerError, set_pool st used)
      | (Some port, used) =>
          (Ok (UdpUnicastTransport port client_rtp_port client_rtcp_port,
               Transport.build_udp_response client_rtp_port client_rtcp_port port (port + 1) track_ssrc),
           set_pool st used)
      end
  end.

(** Returning drops the transport: an unregistered track gives its ports back. *)
Definition drop_transport (st : ConnectionState) (t : TrackTransport) : ConnectionState :=
  set_pool st (release_all (udp_pool st) (track_ports (MkTrack VideoTrack t 0 0))).

Definition insert_session (st : ConnectionState) (id : str) (e : SessionEntry) : ConnectionState :=
  set_sessions st (<[id := e]> (sessions st)).

Definition setup_ok (env : Env) (st : ConnectionState) (p : ParsedRequest) (transport_response sid : str) : handled :=
  respond env st StatusOk (cseq p) [(lit "Transport", transport_response); timeout_session sid] None.

(** The part of [handle_setup] after the transport is built. *)
Definition setup_track (env : Env) (st : ConnectionState) (p : ParsedRequest) (resolved : Url.ResolvedPath)
    (track_id_num : Z) (user : option str) (t : TrackTransport) (transport_response : str) : handled :=
  let sid := default (fresh_session_id env) (session p) in
  let track_kind := if track_id_num =? 0 then VideoTrack else AudioTrack in
  if contains st sid then
    let track_clock_rate :=
      match track_kind with VideoTrack => 90000 | AudioTrack => default 16000 (audio_sample_rate st sid) end in
    setup_ok env (append_track st sid (MkTrack track_kind t (fresh_ssrc env) track_clock_rate))
      p transport_response sid
  else
    match subscribe_with_extern_fallback env (Url.camera resolved) (Url.stream resolved) user with
    | Err e =>
        respond env (drop_transport st t)
          (match e with
           | UnknownCamera => NotFound
           | AccessDenied => Forbidden
           | _ => ServiceUnavailable
           end) (cseq p) [] None
    | Ok sub =>
        let first_track_clock_rate :=
          match track_kind with
          | VideoTrack => 90000
          | AudioTrack => default 16000 (ap_sample_rate <$> sdp_audio (sdp_params sub))
          end in
        let entry := MkSession sub (now env)
                       [MkTrack track_kind t (fresh_ssrc env) first_track_clock_rate] false in
        after [Subscribed (guard sub)]
          (setup_ok env (insert_session st sid entry) p transport_response sid)
    end.

Definition handle_setup (env : Env) (st : ConnectionState) (p : ParsedRequest) : outcome handled :=
  let '(base_path, track_id_num) := setup_target (extract_path (uri p)) in
  match Url.resolve base_path with
  | None => Ret (respond env st NotFound (cseq p) [] None)
  | Some resolved =>
      auth_gate env st p (lit "SETUP") (fun user st =>
        match transport p with
        | None => Ret (respond env st BadRequest (cseq p) [] None)
        | Some transport_header =>
            let! spec := Transport.parse transport_header in
            match spec with
            | Err _ => Ret (respond env st UnsupportedTransport (cseq p) [] None)
            | Ok spec =>
                match build_transport env st spec (fresh_ssrc env) with
                | (Err status, st) => Ret (respond env st status (cseq p) [] None)
                | (Ok (t, transport_response), st) =>
                    Ret (setup_track env st p resolved track_id_num user t transport_response)
                end
            end
        end)
  end.

(** *** PLAY and TEARDOWN *)

Definition rtp_info (u : str) (seq rtptime : Z) : str * str :=
  (lit "RTP-Info", lit "url=" ++ u ++ lit ";seq=" ++ show_uint seq ++ lit ";rtptime=" ++ show_uint rtptime).

Definition handle_play (env : Env) (st : ConnectionState) (p : ParsedRequest) : handled :=
  match session p with
  | None => respond env st BadRequest (cseq p) [] None
  | Some sid =>
      if negb (contains st sid) then respond env st SessionNotFound (cseq p) [] None
      else
        respond env (mark_playing st sid) StatusOk (cseq p)
          ([(lit "Session", sid); (lit "Range", lit "npt=now-")]
           ++ match first_video_rtp env with
              | Some (seq, rtptime) => [rtp_info (uri p) seq rtptime]
              | None => []
              end) None
  end.

Definition handle_teardown (env : Env) (st : ConnectionState) (p : ParsedRequest) : handled :=
  match session p with
  | None => respond env st BadRequest (cseq p) [] None
  | Some sid =>
      let '(removed, effs, st) := registry_remove st sid in
      after effs
        (if removed then respond env st StatusOk (cseq p) [(lit "Session", sid)] None
         else respond env st SessionNotFound (cseq p) [] None)
  end.

(** ** Dispatch *)

Definition touch_session (env : Env) (st : ConnectionState) (p : ParsedRequest) : ConnectionState :=
  match session p with Some sid => touch st sid (now env) | None => st end.

Definition dispatch_request (env : Env) (st : ConnectionState) (req_bytes : bytes) : outcome handled :=
  match parse_request req_bytes with
  | Err _ =>
      let '(effs, _, st) := respond env st BadRequest 0 [] None in Ret (effs, false, st)
  | Ok p =>
      if negb (scheme_matches_transport (uri p) (is_tls st)) then
        Ret (respond env st BadRequest (cseq p) [] None)
      else
        let st := touch_session env st p in
        match method p with
        | Options => Ret (handle_options env st (cseq p))
        | GetParameter => Ret (handle_getparameter env st p)
        | Pause => Ret (handle_pause env st p)
        | Describe => handle_describe env st p
        | Setup => handle_setup env st p
        | Play => Ret (handle_play env st p)
        | Teardown => Ret (handle_teardown env st p)
        end
  end.

(** ** The connection loop *)

(** The loop's variables; [served] counts the requests, and numbers the
    answers [env] of the outside. *)
Record Conn := MkConnection {
  state : ConnectionState;
  buf : bytes;
  last_request : Z;
  served : nat
}.

(** One turn of a loop, or of all: go on, or leave ['conn]. *)
Inductive turn := Continue (c : Conn) | Break (st : ConnectionState).

Variable env : nat -> Env.

(** The inner [loop]: every turn consumes a request of at least four bytes, so
    the buffer's length is enough fuel. *)
Fixpoint drain_requests (fuel : nat) (c : Conn) : outcome (list effect * turn) :=
  match fuel with
  | O => Ret ([], Continue c)
  | S fuel =>
      let e := env (served c) in
      if is_cancelled e then Ret ([], Break (state c))
      else
        match try_consume_request (buf c) with
        | Ok (Some req_bytes, buf') =>
            let! (effs, ok, st) := dispatch_request e (state c) req_bytes in
            if ok then
              let! (effs', t) := drain_requests fuel (MkConnection st buf' (now e) (S (served c))) in
              Ret (effs ++ effs', t)
            else Ret (effs, Break st)
        | Ok (None, buf') =>
            if MAX_REQUEST_BYTES <? len buf' then Ret ([], Break (state c))
            else Ret ([], Continue (MkConnection (state c) buf' (last_request c) (served c)))
        | Err _ =>
            Ret (if write_ok e then [Sent (build_response BadRequest 0 [] None)] else [], Break (state c))
        end
  end.

(** What wakes the [select!]: the peer's bytes or its end, the keepalive
    ticker, the deadline of a connection without sessions, the shutdown, or a
    session's send loop that ended and removed its session. *)
Inductive event :=
| Read (chunk : bytes)
| Closed
| Tick (now : Z)
| Deadline (now : Z)
| Cancelled
| SendLoopEnded (id : str).

Definition on_event (c : Conn) (ev : event) : outcome (list effect * turn) :=
  let goes st := Continue (MkConnection st (buf c) (last_request c) (served c)) in
  match ev with
  | Read chunk =>
      match chunk with
      | [] => Ret ([], Break (state c))
      | _ =>
          let b := buf c ++ chunk in
          drain_requests (S (length b)) (MkConnection (state c) b (last_request c) (served c))
      end
  | Closed | Cancelled => Ret ([], Break (state c))
  | Tick now => let '(effs, st) := sweep_expired (state c) now (30 * SECOND) in Ret (effs, goes st)
  | Deadline now =>
      if is_empty (state c) && (last_request c + INITIAL_REQUEST_TIMEOUT <=? now)
      then Ret ([], Break (state c)) else Ret ([], Continue c)
  | SendLoopEnded id => let '(_, effs, st) := registry_remove (state c) id in Ret (effs, goes st)
  end.

(** ['conn: loop]. Events after the loop is left have no one to hear them. *)
Fixpoint run (evs : list event) (c : Conn) : outcome (list effect * turn) :=
  match evs with
  | [] => Ret ([], Continue c)
  | ev :: evs =>
      let! (effs, t) := on_event c ev in
      match t with
      | Break st => Ret (effs, Break st)
      | Continue c => let! (effs', t) := run evs c in Ret (effs ++ effs', t)
      end
  end.

(** The whole connection: the loop, and the teardown of the live sessions once
    it is left. *)
Definition handle_connection (evs : list event) (c : Conn) : outcome (list effect * turn) :=
  let! (effs, t) := run evs c in
  match t with
  | Continue c => Ret (effs, Continue c)
  | Break st => let '(effs', st) := clear st in Ret (effs ++ effs', Break st)
  end.
End handlers.
