(* ===== verification/RtspConn.v ===== *)
(** * Correctness of the RTSP connection

    What [RtspServer] keeps: port pairs and camera subscriptions are accounted
    for along every sequence of events, a camera is reached only with proven
    credentials, the control addresses a client derives from DESCRIBE name the
    tracks SETUP selects, and the way the peer's bytes are cut into reads does
    not change what the connection does. *)

From S2P Require Import Prelude Wire Nal StreamTranslate Text XorCrypto RtspText Sdp RtspServer.

(** ** The port pool *)

(** The RTP ports the pool hands out. *)
Definition pool_ports (i n : nat) : list Z := map (fun i => POOL_START + 2 * Z.of_nat i) (seq i n).

Definition free_in (used : gset Z) (ports : list Z) : list Z :=
  List.filter (fun p => negb (bool_decide (p ∈ used))) ports.

Definition POOL_PAIRS : nat := Z.to_nat 500.

Definition port_ok (p : Z) : Prop := POOL_START <= p <= POOL_END /\ p mod 2 = 0.

Lemma acquire_loop_free n i used :
  (i + n = POOL_PAIRS)%nat ->
  acquire_loop (S n) (POOL_START + 2 * Z.of_nat i) used
  = (p ← head (free_in used (pool_ports i n)); Some (p, {[p]} ∪ used)).
Proof.
  unfold POOL_PAIRS. revert i. induction n as [|n IH]; intros i Hi.
  - cbn [acquire_loop pool_ports seq map free_in List.filter head mbind option_bind].
    unfold POOL_START, POOL_END. destruct (Z.leb_spec (40000 + 2 * Z.of_nat i) 40998); [lia|done].
  - remember (S n) as m. cbn [acquire_loop].
    destruct (Z.leb_spec (POOL_START + 2 * Z.of_nat i) POOL_END) as [_|H];
      [|unfold POOL_START, POOL_END in H; lia]. subst m.
    unfold pool_ports. cbn [seq map]. fold (pool_ports (S i) n). unfold free_in. cbn [List.filter].
    destruct (bool_decide (POOL_START + 2 * Z.of_nat i ∈ used)); cbn [negb]; [|done].
    replace (POOL_START + 2 * Z.of_nat i + 2) with (POOL_START + 2 * Z.of_nat (S i)) by lia.
    apply IH. lia.
Qed.

(** [acquire] hands out the first free pair. *)
Lemma acquire_first_free used :
  acquire used = (p ← head (free_in used (pool_ports 0 POOL_PAIRS)); Some (p, {[p]} ∪ used)).
Proof. apply (acquire_loop_free POOL_PAIRS 0 used). done. Qed.

Lemma pool_ports_ok p i n : (i + n <= POOL_PAIRS)%nat -> In p (pool_ports i n) -> port_ok p.
Proof.
  unfold POOL_PAIRS. intros Hn H. apply in_map_iff in H as (k & <- & Hk). apply in_seq in Hk.
  unfold port_ok, POOL_START, POOL_END. split; [lia|].
  rewrite Z.mul_comm, Z.mod_add by lia. done.
Qed.

Lemma pool_ports_nodup i n : List.NoDup (pool_ports i n).
Proof. apply Finite.Injective_map_NoDup; [intros a b; lia|apply seq_NoDup]. Qed.

(** Taking the first free pair leaves the others. *)
Lemma free_in_take used ports p rest :
  List.NoDup ports -> free_in used ports = p :: rest -> free_in ({[p]} ∪ used) ports = rest.
Proof.
  revert p rest. induction ports as [|q ports IH]; intros p rest Hn E; [done|].
  inversion Hn as [|? ? Hq Hn']; subst. unfold free_in in E |- *. cbn [List.filter] in E |- *.
  destruct (bool_decide (q ∈ used)) eqn:D; cbn [negb] in E.
  - apply bool_decide_eq_true in D. rewrite (bool_decide_eq_true_2 (q ∈ {[p]} ∪ used)) by set_solver.
    cbn [negb]. by apply IH.
  - injection E as -> <-. rewrite (bool_decide_eq_true_2 (p ∈ {[p]} ∪ used)) by set_solver. cbn [negb].
    apply filter_ext_in. intros a Ha. f_equal. apply bool_decide_ext.
    assert (a <> p) by (intros ->; done). rewrite elem_of_union, elem_of_singleton. tauto.
Qed.

Lemma free_in_elem used ports p : In p (free_in used ports) -> In p ports /\ p ∉ used.
Proof.
  intros H. apply filter_In in H as [Hp Hu]. apply negb_true_iff, bool_decide_eq_false in Hu. done.
Qed.

Lemma release_all_difference used ports : release_all used ports = used ∖ list_to_set ports.
Proof.
  unfold release_all. revert used. induction ports as [|p ports IH]; intros used; cbn [fold_left].
  - cbn. set_solver.
  - rewrite IH. unfold release. cbn. set_solver.
Qed.

Lemma release_fresh (used : gset Z) p : p ∉ used -> release ({[p]} ∪ used) p = used.
Proof. intros H. unfold release. set_solver. Qed.

(** The first free pair whose sockets are not both free is bound or fails;
    the pairs in use before it are passed over. *)
Definition first_usable (bind : Z -> BindResult) (ports : list Z) : option Z :=
  List.find (fun p => match bind p with AddrInUse => false | _ => true end) ports.

Definition bind_result (bind : Z -> BindResult) (used : gset Z) (p : option Z) : option Z * gset Z :=
  match p with
  | Some p => match bind p with Bound => (Some p, {[p]} ∪ used) | _ => (None, used) end
  | None => (None, used)
  end.

Lemma release_parked (used : gset Z) parked :
  Forall (fun p => p ∉ used) parked -> release_all (list_to_set parked ∪ used) parked = used.
Proof.
  intros Hp. rewrite release_all_difference. apply set_eq. intros x.
  rewrite elem_of_difference, elem_of_union, elem_of_list_to_set. split; [tauto|].
  rewrite List.Forall_forall in Hp. intros Hx. split; [by right|].
  intros Hin. apply list_elem_of_In in Hin. by apply (Hp x).
Qed.

Lemma bind_loop_first fuel bind used parked :
  (length (free_in (list_to_set parked ∪ used) (pool_ports 0 POOL_PAIRS)) < fuel)%nat ->
  Forall (fun p => p ∉ used) parked ->
  bind_loop fuel bind (list_to_set parked ∪ used) parked
  = bind_result bind used (first_usable bind (free_in (list_to_set parked ∪ used) (pool_ports 0 POOL_PAIRS))).
Proof.
  revert parked. induction fuel as [|fuel IH]; intros parked Hf Hp; [lia|]. cbn [bind_loop].
  rewrite acquire_first_free.
  destruct (free_in (list_to_set parked ∪ used) (pool_ports 0 POOL_PAIRS)) as [|p rest] eqn:E;
    cbn [head mbind option_bind first_usable List.find bind_result].
  { by rewrite release_parked. }
  assert (p ∉ (list_to_set parked ∪ used : gset Z)) as Hfresh.
  { eapply (free_in_elem _ (pool_ports 0 POOL_PAIRS)). rewrite E. by left. }
  destruct (bind p) eqn:B; cbn [bind_result]; rewrite ?B.
  - f_equal. rewrite (union_comm_L (list_to_set parked)), union_assoc_L, union_comm_L.
    apply release_parked. rewrite List.Forall_forall in *. intros q Hq.
    rewrite elem_of_union, elem_of_singleton. intros [->|Hu]; [|by apply (Hp q)].
    apply Hfresh. rewrite elem_of_union, elem_of_list_to_set, list_elem_of_In. by left.
  - fold (first_usable bind rest). pose proof (free_in_take _ _ _ _ (pool_ports_nodup 0 POOL_PAIRS) E) as E'.
    assert ({[p]} ∪ (list_to_set parked ∪ used) = list_to_set (parked ++ [p]) ∪ used :> gset Z) as Es
      by (rewrite list_to_set_app_L; cbn; rewrite union_empty_r_L, union_assoc_L; f_equal; apply union_comm_L).
    rewrite Es in E' |- *. rewrite IH; [by rewrite E'| |].
    + rewrite E'. cbn [length] in Hf. lia.
    + apply Forall_app_2; [done|]. constructor; [|done]. rewrite elem_of_union in Hfresh. tauto.
  - f_equal. rewrite release_fresh by done. by apply release_parked.
Qed.

Lemma bind_udp_first bind used :
  bind_udp bind used
  = bind_result bind used (first_usable bind (free_in used (pool_ports 0 POOL_PAIRS))).
Proof.
  unfold bind_udp. assert (used = list_to_set [] ∪ used) as E by (cbn; set_solver).
  rewrite E at 1. rewrite bind_loop_first; [by rewrite <- E| |done].
  rewrite <- E. eapply Nat.le_lt_trans; [apply filter_length_le|].
  unfold pool_ports. rewrite length_map, length_seq. unfold POOL_PAIRS. lia.
Qed.

Lemma first_usable_spec bind used i n :
  match first_usable bind (free_in used (pool_ports i n)) with
  | Some p => In p (pool_ports i n) /\ p ∉ used /\ (bind p <> AddrInUse)
      /\ (forall q, In q (pool_ports i n) -> q < p -> q ∉ used -> bind q = AddrInUse)
  | None => forall q, In q (pool_ports i n) -> q ∉ used -> bind q = AddrInUse
  end.
Proof.
  revert i. induction n as [|n IH]; intros i; [by intros q []|]. unfold pool_ports. cbn [seq map].
  fold (pool_ports (S i) n). set (a := POOL_START + 2 * Z.of_nat i).
  assert (forall q, In q (pool_ports (S i) n) -> a < q) as Hlt.
  { intros q Hq. apply in_map_iff in Hq as (k & <- & Hk). apply in_seq in Hk. lia. }
  specialize (IH (S i)). unfold free_in, first_usable in *. cbn [List.filter].
  destruct (bool_decide (a ∈ used)) eqn:D; cbn [negb List.find].
  - apply bool_decide_eq_true in D. destruct (List.find _ _) as [p|].
    + destruct IH as (H1 & H2 & H3 & H4). split; [by right|]. split; [done|]. split; [done|].
      intros q [<-|Hq]; [done|by apply H4].
    + intros q [<-|Hq]; [done|by apply IH].
  - apply bool_decide_eq_false in D. destruct (bind a) eqn:B.
    + split; [by left|]. split; [done|]. split; [congruence|]. intros q [<-|Hq] Hqa; [lia|].
      apply Hlt in Hq. lia.
    + destruct (List.find _ _) as [p|].
      * destruct IH as (H1 & H2 & H3 & H4). split; [by right|]. split; [done|]. split; [done|].
        intros q [<-|Hq]; [done|by apply H4].
      * intros q [<-|Hq]; [done|by apply IH].
    + split; [by left|]. split; [done|]. split; [congruence|]. intros q [<-|Hq] Hqa; [lia|].
      apply Hlt in Hq. lia.
Qed.

Lemma pool_ports_complete p : port_ok p <-> In p (pool_ports 0 POOL_PAIRS).
Proof.
  split; [|by apply pool_ports_ok]. intros [Hr He]. apply in_map_iff.
  exists (Z.to_nat ((p - POOL_START) / 2)). unfold POOL_START, POOL_END, POOL_PAIRS in *.
  rewrite in_seq. pose proof (Z.div_mod p 2). split; [|split; [lia|]].
  - rewrite Z2Nat.id by (apply Z.div_pos; lia).
    replace (p - 40000) with (p + -20000 * 2) by lia. rewrite Z.div_add; lia.
  - apply Nat2Z.inj_lt. rewrite Z2Nat.id by (apply Z.div_pos; lia).
    cbn [Nat.add]. rewrite Z2Nat.id by lia. apply Z.div_lt_upper_bound; lia.
Qed.

(** binding a UDP transport takes the lowest pair of the
    pool, an even port and its successor, that no session holds and that the
    operating system binds, stepping over the pairs it reports in use; it fails
    only when no pair is left or another bind error comes first. Either way
    the pool is afterwards what it was, plus the bound pair: the pairs parked
    on the way are given back. *)
Theorem bind_first_usable bind used :
  match bind_udp bind used with
  | (Some p, used') =>
      port_ok p /\ p ∉ used /\ bind p = Bound /\ used' = {[p]} ∪ used
      /\ (forall q, port_ok q -> q < p -> q ∉ used -> bind q = AddrInUse)
  | (None, used') =>
      used' = used
      /\ ((forall q, port_ok q -> q ∉ used -> bind q = AddrInUse)
          \/ exists q, port_ok q /\ q ∉ used /\ bind q = BindError
              /\ forall r, port_ok r -> r < q -> r ∉ used -> bind r = AddrInUse)
  end.
Proof.
  rewrite bind_udp_first. pose proof (first_usable_spec bind used 0 POOL_PAIRS) as H.
  destruct (first_usable _ _) as [p|]; cbn [bind_result].
  - destruct H as (Hp & Hu & Hb & Hlt). apply pool_ports_complete in Hp.
    assert (forall q, port_ok q -> q < p -> q ∉ used -> bind q = AddrInUse) as Hall
      by (intros q Hq; apply Hlt; by apply pool_ports_complete).
    destruct (bind p) eqn:B; [|done|split; [done|right; by exists p]].
    exact (conj Hp (conj Hu (conj B (conj eq_refl Hall)))).
  - split; [done|]. left. intros q Hq. apply H. by apply pool_ports_complete.
Qed.

(** ** Accounting

    [total f m] lists what the sessions hold, [f] of each entry: the guards of
    their subscriptions, or the ports of their tracks. *)

Definition total (f : SessionEntry -> list Z) (m : gmap str SessionEntry) : list Z :=
  concat (map (fun ie => f (snd ie)) (map_to_list m)).

Definition entry_guards (e : SessionEntry) : list Z := [guard (subscription e)].

Definition subscribed (effs : list effect) : list Z :=
  concat (map (fun e => match e with Subscribed g => [g] | _ => [] end) effs).

Definition released (effs : list effect) : list Z :=
  concat (map (fun e => match e with Released g => [g] | _ => [] end) effs).

Lemma subscribed_app a b : subscribed (a ++ b) = subscribed a ++ subscribed b.
Proof. unfold subscribed. by rewrite map_app, concat_app. Qed.

Lemma released_app a b : released (a ++ b) = released a ++ released b.
Proof. unfold released. by rewrite map_app, concat_app. Qed.

Lemma concat_perm {A} (l k : list (list A)) : l ≡ₚ k -> concat l ≡ₚ concat k.
Proof.
  induction 1 as [|x l k _ IH|x y l|l k m _ IH1 _ IH2]; cbn [concat]; [done|by rewrite IH| |by rewrite IH1].
  by rewrite !app_assoc, (Permutation_app_comm x y).
Qed.

Lemma total_perm f m l :
  map_to_list m ≡ₚ l -> total f m ≡ₚ concat (map (fun ie => f (snd ie)) l).
Proof. intros H. apply concat_perm. by apply Permutation_map. Qed.

Lemma total_insert f m id e : m !! id = None -> total f (<[id := e]> m) ≡ₚ f e ++ total f m.
Proof. intros H. rewrite (total_perm f _ _ (map_to_list_insert m id e H)). done. Qed.

Lemma total_delete f m id e : m !! id = Some e -> total f m ≡ₚ f e ++ total f (delete id m).
Proof. intros H. by rewrite (total_perm f _ _ (symmetry (map_to_list_delete m id e H))). Qed.

Lemma alter_delete_insert (g : SessionEntry -> SessionEntry) m id e :
  m !! id = Some e -> alter g id m = <[id := g e]> (delete id m) :> gmap str SessionEntry.
Proof.
  intros H. apply map_eq. intros j. rewrite insert_delete_eq. destruct (decide (id = j)) as [<-|Hj].
  - by rewrite lookup_alter_eq, lookup_insert_eq, H.
  - by rewrite lookup_alter_ne, lookup_insert_ne.
Qed.

(** An update that adds [new] to what its entry holds. *)
Lemma total_alter f g m id new :
  (forall e, m !! id = Some e -> f (g e) ≡ₚ new ++ f e) -> m !! id <> None ->
  total f (alter g id m) ≡ₚ new ++ total f m.
Proof.
  intros Hg Hm. destruct (m !! id) as [e|] eqn:E; [|done]. rewrite (alter_delete_insert g m id e E).
  rewrite total_insert by apply lookup_delete_eq. rewrite (Hg e eq_refl), (total_delete f m id e E).
  by rewrite app_assoc.
Qed.

Lemma total_alter_same f g m id : (forall e, f (g e) = f e) -> total f (alter g id m) ≡ₚ total f m.
Proof.
  intros Hg. destruct (m !! id) as [e|] eqn:E.
  - apply (total_alter f g m id []); [|congruence]. intros e' _. by rewrite Hg.
  - by rewrite alter_id by congruence.
Qed.

(** One step of the books: subscriptions are held or released, ports of the
    pool are the other connections', a local transport's, or a session's. *)
Record accounted (p : list Z) (st : ConnectionState) (effs : list effect) (p' : list Z)
    (st' : ConnectionState) : Prop := MkAccounted {
  acc_guards : total entry_guards (sessions st) ++ subscribed effs
               ≡ₚ released effs ++ total entry_guards (sessions st');
  acc_ports : forall others,
    elements (udp_pool st) ≡ₚ others ++ p ++ total entry_ports (sessions st) ->
    elements (udp_pool st') ≡ₚ others ++ p' ++ total entry_ports (sessions st');
  acc_valid : Forall port_ok (p ++ total entry_ports (sessions st)) ->
              Forall port_ok (p' ++ total entry_ports (sessions st'))
}.

Lemma accounted_refl p st : accounted p st [] p st.
Proof. constructor; [|done|done]. cbn. by rewrite app_nil_r. Qed.

Lemma accounted_trans p st effs p1 st1 effs' p2 st2 :
  accounted p st effs p1 st1 -> accounted p1 st1 effs' p2 st2 -> accounted p st (effs ++ effs') p2 st2.
Proof.
  intros [G1 P1 V1] [G2 P2 V2]. constructor; [|auto|auto].
  rewrite subscribed_app, released_app, app_assoc, G1, <- !app_assoc, G2. done.
Qed.

(** A change that concerns neither the guards nor the ports. *)
Lemma accounted_same p st st' :
  total entry_guards (sessions st') ≡ₚ total entry_guards (sessions st) ->
  total entry_ports (sessions st') ≡ₚ total entry_ports (sessions st) ->
  udp_pool st' = udp_pool st -> accounted p st [] p st'.
Proof.
  intros Hg Hp Hu. constructor.
  - cbn. by rewrite app_nil_r, Hg.
  - intros others H. by rewrite Hu, Hp.
  - intros H. by rewrite Hp.
Qed.

Lemma accounted_update p st id f :
  (forall e, entry_guards (f e) = entry_guards e) -> (forall e, entry_ports (f e) = entry_ports e) ->
  accounted p st [] p (update_session st id f).
Proof. intros Hg Hp. apply accounted_same; [by apply total_alter_same..|done]. Qed.

Lemma accounted_respond p env st s c h b :
  let '(effs, ok, st') := respond env st s c h b in accounted p st effs p st' /\ st' = st.
Proof.
  unfold respond, write_response. destruct (write_ok env); (split; [|done]); [|apply accounted_refl].
  destruct (accounted_refl p st) as [G P V]. by constructor.
Qed.

Lemma release_perm (used : gset Z) p l : elements used ≡ₚ p :: l -> elements (release used p) ≡ₚ l.
Proof.
  intros H. unfold release. assert (p ∈ used) as Hp.
  { apply elem_of_elements. rewrite H. by left. }
  apply (Permutation_cons_inv (a := p)). rewrite <- H.
  rewrite <- (elements_union_singleton (used ∖ {[p]}) p) by set_solver.
  f_equiv. rewrite <- union_difference_singleton; [done|done].
Qed.

Lemma release_all_perm ports (used : gset Z) l :
  elements used ≡ₚ ports ++ l -> elements (release_all used ports) ≡ₚ l.
Proof.
  revert used. induction ports as [|p ports IH]; intros used H; [done|].
  apply IH. apply release_perm. by rewrite H.
Qed.

Lemma accounted_drop p st t :
  accounted (track_ports (MkTrack VideoTrack t 0 0) ++ p) st [] p (drop_transport st t).
Proof.
  constructor.
  - cbn. by rewrite app_nil_r.
  - intros others H. cbn [drop_transport udp_pool set_pool sessions]. apply release_all_perm.
    rewrite H. rewrite <- app_assoc. apply Permutation_app_swap_app.
  - cbn [drop_transport set_pool sessions]. rewrite <- app_assoc. by intros [_ H]%Forall_app.
Qed.

Lemma accounted_remove p st id :
  let '(_, effs, st') := registry_remove st id in accounted p st effs p st'.
Proof.
  unfold registry_remove. destruct (sessions st !! id) as [e|] eqn:E; [|apply accounted_refl].
  cbn [drop_entry]. constructor; cbn [set_pool set_sessions sessions udp_pool].
  - rewrite (total_delete entry_guards _ _ _ E). cbn. by rewrite app_nil_r.
  - intros others H. apply release_all_perm. rewrite H, (total_delete entry_ports _ _ _ E).
    rewrite (app_assoc p), (Permutation_app_comm p), <- app_assoc. by rewrite Permutation_app_swap_app.
  - rewrite (total_delete entry_ports _ _ _ E), !Forall_app. tauto.
Qed.

Lemma accounted_remove_each ids p st :
  let '(effs, st') := remove_each ids st in accounted p st effs p st'.
Proof.
  revert st. induction ids as [|id ids IH]; intros st; cbn [remove_each]; [apply accounted_refl|].
  pose proof (accounted_remove p st id) as H. destruct (registry_remove st id) as [[? effs] st1].
  specialize (IH st1). destruct (remove_each ids st1) as [effs' st2]. by eapply accounted_trans.
Qed.

(** The books of a handler that starts with the local ports [p]. *)
Definition booked (p : list Z) (st : ConnectionState) (h : handled) : Prop :=
  let '(effs, _, st') := h in accounted p st effs [] st'.

Definition booked_out (st : ConnectionState) (o : outcome handled) : Prop :=
  match o with Ret h => booked [] st h | Panic => True end.

Lemma booked_step p st effs st1 h : accounted p st effs [] st1 -> booked [] st1 h -> booked p st (after effs h).
Proof. destruct h as [[effs' ok] st2]. cbn [booked after]. apply accounted_trans. Qed.

Lemma booked_silent p p' st st1 h : accounted p st [] p' st1 -> booked p' st1 h -> booked p st h.
Proof. destruct h as [[effs' ok] st2]. cbn [booked]. intros H1 H2. by apply (accounted_trans _ _ _ _ _ _ _ _ H1 H2). Qed.

Lemma booked_respond env st s c h b : booked [] st (respond env st s c h b).
Proof.
  pose proof (accounted_respond [] env st s c h b) as H. unfold booked. 
  destruct (respond env st s c h b) as [[effs ok] st']. apply H.
Qed.

#[local] Hint Resolve booked_respond accounted_refl : core.

Lemma booked_out_respond env st s c h b : booked_out st (Ret (respond env st s c h b)).
Proof. apply booked_respond. Qed.

#[local] Hint Resolve booked_out_respond : core.

Lemma free_in_nodup used ports : List.NoDup ports -> List.NoDup (free_in used ports).
Proof. apply NoDup_filter. Qed.

Lemma accounted_bind st b :
  let '(r, used) := bind_udp b (udp_pool st) in
  accounted [] st [] (match r with Some p => [p] | None => [] end) (set_pool st used).
Proof.
  rewrite bind_udp_first. pose proof (first_usable_spec b (udp_pool st) 0 POOL_PAIRS) as H.
  destruct (first_usable _ _) as [p|]; cbn [bind_result]; [destruct (b p)|];
    try (by apply accounted_same).
  destruct H as (Hp & Hu & _). apply pool_ports_complete in Hp.
  constructor; cbn [set_pool sessions udp_pool].
  - cbn. by rewrite app_nil_r.
  - intros others H. rewrite elements_union_singleton by done. rewrite H. cbn [app].
    apply Permutation_middle.
  - intros H. by constructor.
Qed.

Section books.
Context `{R : RtspTypes} `{M : Md5} `{B : Base64}.

Lemma accounted_build env st spec ssrc :
  let '(r, st') := build_transport env st spec ssrc in
  accounted [] st [] (match r with Ok (t, _) => track_ports (MkTrack VideoTrack t 0 0) | Err _ => [] end) st'
  /\ sessions st' = sessions st.
Proof.
  destruct spec as [a b|a b]; cbn [build_transport]; [split; [apply accounted_refl|done]|].
  pose proof (accounted_bind st (bind env)) as H. destruct (bind_udp _ _) as [[p|] used]; by split.
Qed.

Lemma booked_setup_track env st p resolved n user t response :
  booked (track_ports (MkTrack VideoTrack t 0 0)) st (setup_track env st p resolved n user t response).
Proof.
  unfold setup_track. set (sid := default _ _). unfold contains.
  destruct (sessions st !! sid) as [e|] eqn:E.
  - eapply booked_silent; [|apply booked_respond]. set (tr := MkTrack _ t _ _). constructor.
    + cbn [subscribed released map concat app]. rewrite app_nil_r. symmetry. by apply total_alter_same.
    + intros others H. cbn [append_track update_session set_sessions udp_pool sessions].
      rewrite (total_alter entry_ports _ _ _ (track_ports tr)); [done| |by rewrite E].
      intros e' _. unfold entry_ports. cbn [tracks]. rewrite map_app, concat_app. cbn [map concat].
      rewrite app_nil_r. apply Permutation_app_comm.
    + intros H. cbn [append_track update_session set_sessions sessions app].
      rewrite (total_alter entry_ports _ _ _ (track_ports tr)); [done| |by rewrite E].
      intros e' _. unfold entry_ports. cbn [tracks]. rewrite map_app, concat_app. cbn [map concat].
      rewrite app_nil_r. apply Permutation_app_comm.
  - destruct (subscribe_with_extern_fallback _ _ _ _) as [sub|e].
    + eapply booked_step; [|apply booked_respond].
      constructor; cbn [insert_session set_sessions udp_pool sessions].
      * rewrite total_insert by done. cbn. rewrite Permutation_app_comm. done.
      * intros others H. rewrite total_insert by done. unfold entry_ports at 1. cbn [tracks map concat].
        by rewrite app_nil_r.
      * intros H. rewrite total_insert by done. unfold entry_ports at 1. cbn [tracks map concat].
        by rewrite app_nil_r.
    + eapply booked_silent; [|apply booked_respond].
      pose proof (accounted_drop [] st t) as H. by rewrite app_nil_r in H.
Qed.

Lemma authenticate_state env st p m a st' :
  authenticate env st p m = Ret (a, st') -> st' = st \/ exists n, st' = set_nonce st n.
Proof.
  unfold authenticate, authenticate_digest. intros H.
  destruct (authorization p) as [authz|]; [|injection H as <- <-; by left].
  destruct (is_tls st && _).
  - destruct (Auth.verify_basic _ _) as [[?|[]]|]; cbn [out_bind] in H; try discriminate H;
      injection H as <- <-; by left.
  - destruct (Auth.verify_digest _ _ _ _ _ _) as [[?|[]]|]; cbn [out_bind] in H; try discriminate H;
      injection H as <- <-; first [by left|right; by eexists].
Qed.

Lemma booked_gate env st p m k :
  (forall user st1, users st1 = users st -> booked_out st1 (k user st1)) -> booked_out st (auth_gate env st p m k).
Proof.
  intros Hk. unfold auth_gate. destruct (users st) as [|u us] eqn:Eu; [by apply Hk|].
  destruct (authenticate env st p m) as [[a st1]|] eqn:E; cbn [out_bind]; [|done].
  apply authenticate_state in E. assert (accounted [] st [] [] st1 /\ users st1 = users st) as [Ha Hu]
    by (destruct E as [->|[n ->]]; (split; [|done]); [apply accounted_refl|by apply accounted_same]).
  assert (forall o, booked_out st1 o -> booked_out st o) as Hs
    by (intros [h|] H; [by eapply booked_silent|done]).
  apply Hs. rewrite Eu in Hu. destruct a; auto.
Qed.

Lemma booked_dispatch env st req : booked_out st (dispatch_request env st req).
Proof.
  unfold dispatch_request. destruct (parse_request req) as [p|e].
  2:{ pose proof (booked_respond env st BadRequest 0 [] None) as H.
      by destruct (respond env st BadRequest 0 [] None) as [[effs ok] st']. }
  destruct (negb _); [auto|].
  assert (accounted [] st [] [] (touch_session env st p)) as Ht.
  { unfold touch_session. destruct (session p); [|apply accounted_refl]. by apply accounted_update. }
  generalize dependent (touch_session env st p). intros st1 Ht.
  assert (forall o, booked_out st1 o -> booked_out st o) as Hs
    by (intros [h|] H; [by eapply booked_silent|done]).
  apply Hs. clear st Hs Ht. destruct (method p); [apply booked_respond| | | | |apply booked_respond..].
  - unfold handle_describe. destruct (Url.resolve _) as [r|]; [|auto]. apply booked_gate. intros user st2 _.
    destruct (subscribe_with_extern_fallback _ _ _ _) as [sub|[]]; [|auto..].
    eapply booked_step; [|auto]. constructor; [|done|done]. cbn. apply Permutation_app_comm.
  - unfold handle_setup. destruct (setup_target _) as [base n]. destruct (Url.resolve _) as [r|]; [|auto].
    apply booked_gate. intros user st2 _. destruct (transport p) as [h|]; [|auto].
    destruct (Transport.parse h) as [[spec|e]|]; cbn [out_bind]; [|auto|done].
    pose proof (accounted_build env st2 spec (fresh_ssrc env)) as Hb.
    destruct (build_transport _ _ _ _) as [[[t response]|status] st3]; destruct Hb as [Hb _];
      (eapply booked_silent; [exact Hb|]); [apply booked_setup_track|auto].
  - cbn [booked_out]. unfold handle_play. destruct (session p) as [sid|]; [|auto].
    destruct (negb _); [auto|]. eapply booked_silent; [|auto]. by apply accounted_update.
  - cbn [booked_out]. unfold handle_teardown. destruct (session p) as [sid|]; [|auto].
    pose proof (accounted_remove [] st1 sid) as H. destruct (registry_remove st1 sid) as [[removed effs] st2].
    eapply booked_step; [exact H|]. destruct removed; auto.
Qed.

Variable env : nat -> Env.

Definition turn_state (t : turn) : ConnectionState :=
  match t with Continue c => state c | Break st => st end.

Definition booked_turn (st : ConnectionState) (o : outcome (list effect * turn)) : Prop :=
  match o with Ret (effs, t) => accounted [] st effs [] (turn_state t) | Panic => True end.

Lemma booked_turn_step st effs st1 o :
  accounted [] st effs [] st1 -> booked_turn st1 o ->
  booked_turn st (let! (effs', t) := o in Ret (effs ++ effs', t)).
Proof. destruct o as [[effs' t]|]; [|done]. cbn [out_bind booked_turn]. apply accounted_trans. Qed.

Lemma booked_drain fuel c : booked_turn (state c) (drain_requests env fuel c).
Proof.
  revert c. induction fuel as [|fuel IH]; intros c; cbn [drain_requests]; [apply accounted_refl|].
  destruct (is_cancelled _); [apply accounted_refl|].
  destruct (try_consume_request (buf c)) as [[[req|] buf']|?].
  - pose proof (booked_dispatch (env (served c)) (state c) req) as H.
    destruct (dispatch_request _ _ _) as [[[effs ok] st]|]; cbn [out_bind]; [|done].
    destruct ok; [|exact H]. eapply booked_turn_step; [exact H|]. apply (IH (MkConnection _ _ _ _)).
  - destruct (_ <? _); apply accounted_refl.
  - cbn [booked_turn turn_state]. destruct (write_ok _); [|apply accounted_refl].
    destruct (accounted_refl [] (state c)) as [G P V]. by constructor.
Qed.

Lemma booked_event c ev : booked_turn (state c) (on_event env c ev).
Proof.
  destruct ev as [chunk| |now|now| |id]; cbn [on_event]; try apply accounted_refl.
  - destruct chunk; [apply accounted_refl|]. apply (booked_drain _ (MkConnection _ _ _ _)).
  - pose proof (accounted_remove_each (map fst (List.filter (fun ie : str * SessionEntry =>
      30 * SECOND <? sat_sub now (last_activity (snd ie))) (map_to_list (sessions (state c))))) [] (state c)) as H.
    unfold sweep_expired. by destruct (remove_each _ _) as [effs st].
  - destruct (_ && _); apply accounted_refl.
  - pose proof (accounted_remove [] (state c) id) as H. by destruct (registry_remove _ _) as [[? effs] st].
Qed.

Lemma booked_run evs c : booked_turn (state c) (run env evs c).
Proof.
  revert c. induction evs as [|ev evs IH]; intros c; cbn [run]; [apply accounted_refl|].
  pose proof (booked_event c ev) as H. destruct (on_event env c ev) as [[effs [c1|st]]|]; cbn [out_bind];
    [|exact H|done].
  eapply booked_turn_step; [exact H|]. apply IH.
Qed.

Lemma booked_connection evs c : booked_turn (state c) (handle_connection env evs c).
Proof.
  unfold handle_connection. pose proof (booked_run evs c) as H.
  destruct (run env evs c) as [[effs [c1|st]]|]; cbn [out_bind]; [exact H| |done].
  pose proof (accounted_remove_each (map fst (map_to_list (sessions st))) [] st) as H'. unfold clear.
  destruct (remove_each _ st) as [effs' st']. by eapply accounted_trans.
Qed.

Lemma remove_each_sessions ids st id :
  sessions (snd (remove_each ids st)) !! id
  = if bool_decide (id ∈ ids) then None else sessions st !! id.
Proof.
  revert st. induction ids as [|i ids IH]; intros st; [done|]. cbn [remove_each].
  assert (sessions (snd (registry_remove st i)) = delete i (sessions st)) as E.
  { unfold registry_remove. destruct (sessions st !! i) eqn:Ei; [done|]. cbn [snd]. by rewrite delete_id. }
  destruct (registry_remove st i) as [[? effs] st1]. cbn [snd] in E. specialize (IH st1).
  destruct (remove_each ids st1) as [effs' st2]. cbn [snd] in IH |- *. rewrite IH, E.
  destruct (decide (id = i)) as [->|Hi].
  - rewrite lookup_delete_eq, (bool_decide_eq_true_2 (i ∈ i :: ids)) by apply list_elem_of_here.
    by destruct (bool_decide _).
  - rewrite lookup_delete_ne by done. rewrite (bool_decide_ext (id ∈ i :: ids) (id ∈ ids)); [done|].
    rewrite elem_of_cons. tauto.
Qed.

Lemma clear_empty st : sessions (snd (clear st)) = ∅.
Proof.
  apply map_empty. intros id. unfold clear. rewrite remove_each_sessions. case_bool_decide as Hin; [done|].
  apply eq_None_not_Some. intros [e He]. apply Hin. apply list_elem_of_In, in_map_iff. exists (id, e).
  split; [done|]. by apply list_elem_of_In, elem_of_map_to_list.
Qed.

Lemma connection_closed evs c effs st : handle_connection env evs c = Ret (effs, Break st) -> sessions st = ∅.
Proof.
  unfold handle_connection. destruct (run env evs c) as [[effs1 [c1|st1]]|]; cbn [out_bind]; try discriminate.
  pose proof (clear_empty st1) as E. destruct (clear st1) as [effs' st']. by injection 1 as <- <-.
Qed.

(** C7: along every sequence of reads, timer ticks, ended send
    loops and failed writes, the camera subscriptions taken are the ones given
    back plus those the live sessions hold; once the connection is closed every
    one of them has been given back, whatever the peer sent. *)
Theorem guards_balanced evs c effs t :
  sessions (state c) = ∅ -> handle_connection env evs c = Ret (effs, t) ->
  match t with
  | Continue c' => subscribed effs ≡ₚ released effs ++ total entry_guards (sessions (state c'))
  | Break st => subscribed effs ≡ₚ released effs /\ sessions st = ∅
  end.
Proof.
  intros H0 E. pose proof (booked_connection evs c) as H. rewrite E in H. destruct H as [G _ _].
  rewrite H0 in G. destruct t as [c'|st]; [exact G|]. apply connection_closed in E as E'. split; [|done].
  cbn [turn_state] in G. rewrite E' in G. cbn in G. by rewrite app_nil_r in G.
Qed.

(** the pool is what it was before the connection plus the
    ports of its sessions' tracks, each an even port of the range, used by no
    other track or connection; and closing the connection restores the pool. *)
Theorem ports_returned evs c effs t :
  sessions (state c) = ∅ -> handle_connection env evs c = Ret (effs, t) ->
  match t with
  | Continue c' =>
      let held := total entry_ports (sessions (state c')) in
      Forall port_ok held /\ List.NoDup held /\ (forall p, In p held -> p ∉ udp_pool (state c))
      /\ udp_pool (state c') = udp_pool (state c) ∪ list_to_set held
  | Break st => udp_pool st = udp_pool (state c)
  end.
Proof.
  intros H0 E. pose proof (booked_connection evs c) as H. rewrite E in H. destruct H as [_ P V].
  specialize (P (elements (udp_pool (state c)))). rewrite H0 in P, V. cbn [app] in P, V.
  unfold total at 1 in P. unfold total at 1 in V. rewrite map_to_list_empty in P, V. cbn [map concat] in P, V.
  rewrite app_nil_r in P. specialize (P (reflexivity _)). specialize (V (List.Forall_nil _)).
  assert (forall used (l : list Z), elements used ≡ₚ elements (udp_pool (state c)) ++ l ->
            used = udp_pool (state c) ∪ list_to_set l) as Hset.
  { intros used l Hl. rewrite <- (list_to_set_elements_L used), Hl, list_to_set_app_L.
    by rewrite list_to_set_elements_L. }
  destruct t as [c'|st]; cbn [turn_state] in P, V.
  - set (held := total entry_ports (sessions (state c'))) in *.
    pose proof (NoDup_elements (udp_pool (state c'))) as Hn. rewrite P in Hn.
    apply list.NoDup_app in Hn as (_ & Hd & Hn). split; [exact V|]. split; [by apply NoDup_ListNoDup|].
    split; [|by apply Hset]. intros p Hp Hu. apply (Hd p); [by apply elem_of_elements|by apply list_elem_of_In].
  - apply connection_closed in E. rewrite E in P. apply Hset in P. rewrite P.
    unfold total. rewrite map_to_list_empty. cbn [map concat]. by rewrite list_to_set_nil, union_empty_r_L.
Qed.
End books.

(** ** Authentication *)

Section auth_required.
Context `{R : RtspTypes} `{M : Md5} `{B : Base64}.

(** The request carries credentials that check out for [user]: a digest under
    the live nonce, or, on TLS, name and password. *)
Definition credentials (env : Env) (st : ConnectionState) (p : ParsedRequest) (m user : str) : Prop :=
  exists authz, authorization p = Some authz
    /\ ((is_tls st = true /\ Auth.verify_basic authz (users st) = Ret (Ok user))
        \/ Auth.verify_digest authz m (uri p) (users st) (realm st) (nonce_ok env st) = Ret (Ok user)).

(** No subscription was taken, and every session is an old one with its old
    tracks. *)
Definition quiet (st : ConnectionState) (effs : list effect) (st' : ConnectionState) : Prop :=
  subscribed effs = [] /\
  forall id e', sessions st' !! id = Some e' ->
    exists e, sessions st !! id = Some e /\ tracks e' = tracks e /\ subscription e' = subscription e.

Definition quiet_h (st : ConnectionState) (h : handled) : Prop := let '(effs, _, st') := h in quiet st effs st'.

Lemma quiet_sub st effs m :
  subscribed effs = [] -> (forall id e, m !! id = Some e -> exists e0, sessions st !! id = Some e0
    /\ tracks e = tracks e0 /\ subscription e = subscription e0) ->
  forall st', sessions st' = m -> quiet st effs st'.
Proof. intros H1 H2 st' <-. by split. Qed.

Lemma quiet_same st effs st' : subscribed effs = [] -> sessions st' = sessions st -> quiet st effs st'.
Proof. intros H E. split; [done|]. rewrite E. intros id e He. by exists e. Qed.

Lemma quiet_respond env st st1 s c h b : quiet st [] st1 -> quiet_h st (respond env st1 s c h b).
Proof. intros [_ H]. unfold respond, write_response. destruct (write_ok env); by split. Qed.

Lemma quiet_update st id f :
  (forall e, tracks (f e) = tracks e) -> (forall e, subscription (f e) = subscription e) ->
  quiet st [] (update_session st id f).
Proof.
  intros Ht Hs. split; [done|]. intros i e'. cbn [update_session set_sessions sessions].
  destruct (decide (id = i)) as [<-|Hi].
  - rewrite lookup_alter_eq. destruct (sessions st !! id) as [e|]; [|done]. injection 1 as <-. by exists e.
  - rewrite lookup_alter_ne by done. intros He. by exists e'.
Qed.

Lemma quiet_silent st st1 h : quiet st [] st1 -> quiet_h st1 h -> quiet_h st h.
Proof.
  destruct h as [[effs ok] st2]. intros [_ H1] [H2 H3]. split; [done|]. intros id e' He.
  apply H3 in He as (e1 & He & Ht & Hs). apply H1 in He as (e & He & Ht' & Hs').
  exists e. split; [done|]. split; congruence.
Qed.

Lemma quiet_refl st : quiet st [] st.
Proof. by apply quiet_same. Qed.

#[local] Hint Resolve quiet_respond quiet_refl : core.

Lemma authenticate_ok env st p m user st1 :
  authenticate env st p m = Ret (AuthOk user, st1) -> st1 = st /\ credentials env st p m user.
Proof.
  unfold authenticate, authenticate_digest. intros H.
  destruct (authorization p) as [authz|] eqn:Ea; [|discriminate H].
  destruct (is_tls st && _) eqn:Et.
  - apply andb_true_iff in Et as [Et _]. destruct (Auth.verify_basic _ _) as [[u|[]]|] eqn:Ev; try discriminate H.
    injection H as -> <-. split; [done|]. exists authz. split; [done|]. by left.
  - destruct (Auth.verify_digest _ _ _ _ _ _) as [[u|[]]|] eqn:Ev; try discriminate H.
    injection H as -> <-. split; [done|]. exists authz. split; [done|]. by right.
Qed.

(** With users configured, the gated part runs only for an authenticated one. *)
Lemma gate_authenticated env st p m k h :
  users st <> [] -> auth_gate env st p m k = Ret h ->
  quiet_h st h \/ exists user, credentials env st p m user /\ k (Some user) st = Ret h.
Proof.
  intros Hu H. unfold auth_gate in H. destruct (users st); [done|]. clear Hu.
  destruct (authenticate env st p m) as [[a st1]|] eqn:E; cbn [out_bind] in H; [|discriminate H].
  apply authenticate_state in E as Est. assert (quiet st [] st1) as Hq
    by (destruct Est as [->|[n ->]]; by apply quiet_same).
  destruct a as [user|hs|].
  - apply authenticate_ok in E as [-> Hc]. right. by exists user.
  - injection H as <-. left. by apply quiet_respond.
  - injection H as <-. left. by apply quiet_respond.
Qed.

(** The subscriptions of a handler were granted to [user]. *)
Definition granted (env : Env) (user : option str) (h : handled) : Prop :=
  let '(effs, _, _) := h in
  forall g, In g (subscribed effs) -> exists cam k sub, subscribe env cam k user = Ok sub /\ guard sub = g.

Lemma granted_respond env user st s c hd b : granted env user (respond env st s c hd b).
Proof. unfold respond, write_response. destruct (write_ok env); by intros g []. Qed.

Lemma granted_subscribe env user cam k sub effs h :
  subscribe_with_extern_fallback env cam k user = Ok sub -> subscribed effs = [guard sub] ->
  granted env user h -> granted env user (after effs h).
Proof.
  intros Hs He Hh. destruct h as [[effs' ok] st]. intros g. cbn [after]. rewrite subscribed_app, He.
  intros [<-|Hg]; [|by apply Hh]. unfold subscribe_with_extern_fallback in Hs.
  destruct (subscribe env cam k user) as [s|[]] eqn:E; destruct k; try discriminate Hs;
    try (injection Hs as <-); by eexists _, _, _.
Qed.

Lemma granted_setup_track env st p r n user t response : granted env user (setup_track env st p r n user t response).
Proof.
  unfold setup_track. destruct (contains _ _); [apply granted_respond|].
  destruct (subscribe_with_extern_fallback _ _ _ _) as [sub|e] eqn:E; [|apply granted_respond].
  eapply granted_subscribe; [exact E|done|apply granted_respond].
Qed.

Lemma dispatch_authenticated env st req effs ok st' :
  users st <> [] -> dispatch_request env st req = Ret (effs, ok, st') ->
  quiet st effs st'
  \/ exists p m user, parse_request req = Ok p /\ (m = Describe \/ m = Setup) /\ method p = m
       /\ credentials env st p (as_str m) user
       /\ forall g, In g (subscribed effs) ->
            exists cam k sub, subscribe env cam k (Some user) = Ok sub /\ guard sub = g.
Proof.
  intros Hu H. change (quiet st effs st') with (quiet_h st (effs, ok, st')).
  unfold dispatch_request in H. destruct (parse_request req) as [p|e].
  2:{ left. unfold respond, write_response in H. destruct (write_ok env); injection H as <- <- <-; by apply quiet_same. }
  destruct (negb _); [injection H as H; left; rewrite <- H; auto|].
  assert (quiet st [] (touch_session env st p)) as Hq.
  { unfold touch_session. destruct (session p); [by apply quiet_update|apply quiet_refl]. }
  assert (users (touch_session env st p) <> []) as Hu' by (unfold touch_session; by destruct (session p)).
  assert (forall m user, credentials env (touch_session env st p) p m user -> credentials env st p m user) as Hc
    by (unfold touch_session; by destruct (session p)).
  generalize dependent (touch_session env st p). intros st1 H Hq Hu' Hc.
  assert (forall h, Ret h = Ret (effs, ok, st') -> quiet_h st1 h -> quiet_h st (effs, ok, st')) as Hs
    by (injection 1 as ->; by apply quiet_silent).
  destruct (method p) eqn:Em.
  - left. eapply Hs; [exact H|]. by apply quiet_respond.
  - unfold handle_describe in H. destruct (Url.resolve _) as [r|]; [|left; eapply Hs; [exact H|]; auto].
    apply gate_authenticated in H as [H|(user & Hcr & H)]; [by left; eapply Hs| |done].
    right. exists p, Describe, user. do 3 (split; [auto|]). split; [by apply Hc|].
    change (granted env (Some user) (effs, ok, st')).
    destruct (subscribe_with_extern_fallback _ _ _ _) as [sub|[]] eqn:E; injection H as <-; try apply granted_respond.
    eapply granted_subscribe; [exact E|done|apply granted_respond].
  - unfold handle_setup in H. destruct (setup_target _) as [base n].
    destruct (Url.resolve _) as [r|]; [|left; eapply Hs; [exact H|]; auto].
    apply gate_authenticated in H as [H|(user & Hcr & H)]; [by left; eapply Hs| |done].
    right. exists p, Setup, user. do 3 (split; [auto|]). split; [by apply Hc|].
    change (granted env (Some user) (effs, ok, st')).
    destruct (transport p) as [hd|]; [|injection H as <-; apply granted_respond].
    destruct (Transport.parse hd) as [[spec|e]|]; cbn [out_bind] in H;
      [|injection H as <-; apply granted_respond|discriminate H].
    destruct (build_transport _ _ _ _) as [[[t response]|status] st3]; injection H as <-;
      [apply granted_setup_track|apply granted_respond].
  - left. eapply Hs; [exact H|]. unfold handle_play. destruct (session p); [|auto].
    destruct (negb _); [auto|]. apply quiet_respond. by apply quiet_update.
  - left. eapply Hs; [exact H|]. unfold handle_teardown. destruct (session p) as [sid|]; [|auto].
    unfold registry_remove. destruct (sessions st1 !! sid) as [e|]; cbn [drop_entry].
    + unfold respond, write_response.
      assert (forall id e', delete sid (sessions st1) !! id = Some e' -> exists e, sessions st1 !! id = Some e
        /\ tracks e' = tracks e /\ subscription e' = subscription e) as Hd
        by (intros id e' [_ He]%lookup_delete_Some; by exists e').
      destruct (write_ok env); by eapply quiet_sub.
    + unfold after. pose proof (quiet_respond env st1 st1 SessionNotFound (cseq p) [] None (quiet_refl st1)) as Hr.
      by destruct (respond _ _ _ _ _ _) as [[? ?] ?].
  - left. eapply Hs; [exact H|]. by apply quiet_respond.
  - left. eapply Hs; [exact H|]. by apply quiet_respond.
Qed.

(** C5: with users configured, a request reaches a camera, by
    subscribing to it or by adding a session or a track, only if it is a
    DESCRIBE or a SETUP whose credentials prove one of the users: a digest over
    this method and address under the connection's live nonce, or name and
    password inside TLS. The stream provider is then asked in that user's
    name. *)
Theorem auth_required env st req effs ok st' :
  users st <> [] -> dispatch_request env st req = Ret (effs, ok, st') ->
  quiet st effs st'
  \/ exists p m user, parse_request req = Ok p /\ (m = Describe \/ m = Setup) /\ method p = m
       /\ credentials env st p (as_str m) user
       /\ forall g, In g (subscribed effs) ->
            exists cam k sub, subscribe env cam k (Some user) = Ok sub /\ guard sub = g.
Proof. apply dispatch_authenticated. Qed.
End auth_required.

(** ** Control addresses *)

Section addresses.

Lemma find_str_eq needle s a b : find_str needle s = Some (a, b) -> s = a ++ needle ++ b.
Proof.
  assert (forall s, bool_decide (take (length needle) s = needle) = true -> s = needle ++ drop (length needle) s) as Hp
    by (intros s' H; apply bool_decide_eq_true in H; rewrite <- H at 1; by rewrite take_drop).
  revert a b. induction s as [|c s IH]; intros a b; cbn [find_str].
  - destruct (bool_decide _) eqn:D; [|done]. injection 1 as <- <-. by apply Hp.
  - destruct (bool_decide _) eqn:D; [injection 1 as <- <-; by apply Hp|].
    intros H. destruct (find_str needle s) as [[a' b']|]; [|done]. injection H as <- <-.
    cbn [app]. f_equal. by apply IH.
Qed.

(** The first occurrence stays the first when text is added behind. *)
Lemma find_str_extend needle s a b w :
  needle <> [] -> find_str needle s = Some (a, b) -> find_str needle (s ++ w) = Some (a, b ++ w).
Proof.
  intros Hn. revert a b. induction s as [|c s IH]; intros a b H.
  - apply find_str_eq in H. symmetry in H. by apply app_eq_nil in H as [_ [? _]%app_eq_nil].
  - apply find_str_eq in H as Heq.
    assert (length needle <= length (c :: s))%nat as Hl by (rewrite Heq, !length_app; lia).
    cbn [find_str app] in *. change (c :: s ++ w) with ((c :: s) ++ w). rewrite take_app_le, drop_app_le by done.
    destruct (bool_decide _); [by injection H as <- <-|].
    destruct (find_str needle s) as [[a' b']|]; [|done]. injection H as <- <-. by rewrite (IH a' b').
Qed.

(** A trailing slash does not matter to the resolver. *)
Lemma drop_while_snoc f s c :
  f c = true -> drop_while f (s ++ [c]) = match drop_while f s with [] => [] | l => l ++ [c] end.
Proof.
  intros Hc. induction s as [|x s IH]; cbn [app drop_while]; [by rewrite Hc|].
  by destruct (f x).
Qed.

Lemma resolve_slash base : Url.resolve (base ++ [47]) = Url.resolve base.
Proof.
  unfold Url.resolve, trim_start. rewrite (drop_while_snoc _ base 47) by done.
  destruct (drop_while (Z.eqb 47) base) as [|x l]; [done|]. unfold trim_end. rewrite rev_app_distr. done.
Qed.

Lemma content_base_eq u : content_base u = u \/ content_base u = u ++ [47].
Proof. unfold content_base. case_bool_decide; auto. Qed.

Lemma content_base_slash u : exists b, content_base u = b ++ [47] /\ (u = b \/ u = b ++ [47]).
Proof.
  unfold content_base. case_bool_decide as H; [|by exists u; auto].
  exists (rev (tail (rev u))). assert (u = rev (tail (rev u)) ++ [47]) as E; [|by auto].
  rewrite <- (rev_involutive u) at 1. destruct (rev u) as [|x l]; [done|]. injection H as ->. done.
Qed.

Lemma content_base_app a p : p <> [] -> content_base (a ++ p) = a ++ content_base p.
Proof.
  intros Hp. unfold content_base. rewrite rev_app_distr.
  assert (head (rev p ++ rev a) = head (rev p)) as ->.
  { destruct (rev p) eqn:E; [|done]. by apply (f_equal (@rev Z)) in E; rewrite rev_involutive in E. }
  case_bool_decide; by rewrite ?app_assoc.
Qed.

(** for every absolute address DESCRIBE serves, the address a
    client forms from the answer's Content-Base and the SDP's [trackID=N]
    selects, at SETUP, the same camera, the same stream, and track N. *)
Theorem control_uri u scheme rest resolved n :
  find_str (lit "://") u = Some (scheme, rest) -> Url.resolve (extract_path u) = Some resolved ->
  0 <= n <= u32_max ->
  exists base, setup_target (extract_path (content_base u ++ lit "trackID=" ++ show_uint n)) = (base, n)
    /\ Url.resolve base = Some resolved.
Proof.
  intros Hs Hr Hn. unfold extract_path in Hr. rewrite Hs in Hr.
  destruct (find_str [47] rest) as [[host path]|] eqn:Hp; [|done].
  set (control := lit "trackID=" ++ show_uint n).
  apply find_str_eq in Hs as Eu. apply find_str_eq in Hp as Er.
  assert (u = (scheme ++ lit "://" ++ host) ++ 47 :: path) as Eu' by (rewrite Eu, Er, <- !app_assoc; done).
  assert (exists w, content_base u ++ control = u ++ w /\ content_base (47 :: path) ++ control = 47 :: path ++ w)
    as (w & Ew & Ew').
  { assert (content_base u = (scheme ++ lit "://" ++ host) ++ content_base (47 :: path)) as Ec
      by (rewrite Eu' at 1; by rewrite content_base_app).
    destruct (content_base_eq (47 :: path)) as [E|E]; rewrite E in Ec |- *.
    - exists control. rewrite Ec, <- Eu'. done.
    - exists ([47] ++ control). rewrite Ec, app_assoc, <- Eu', <- app_assoc. split; [done|].
      cbn [app]. by rewrite <- app_assoc. }
  assert (extract_path (content_base u ++ control) = content_base (47 :: path) ++ control) as ->.
  { rewrite Ew, Ew'. unfold extract_path.
    rewrite (find_str_extend (lit "://") u scheme rest w ltac:(discriminate) Hs).
    by rewrite (find_str_extend [47] rest host path w ltac:(discriminate) Hp). }
  destruct (content_base_slash (47 :: path)) as (b & -> & Hb). exists b. split.
  - unfold setup_target. rewrite <- app_assoc. cbn [app]. destruct (show_uint_spec n) as (Hd & _ & Hparse); [lia|].
    rewrite rsplit_once_last.
    + cbn [mbind option_bind]. unfold control, strip_prefix. rewrite take_app_length, drop_app_length.
      rewrite bool_decide_eq_true_2 by done. cbn [mbind option_bind]. by rewrite Hparse by lia.
    + apply Forall_app_2; [lit_check|]. eapply Forall_impl; [|exact Hd]. unfold is_digit. lia.
  - destruct Hb as [<-|Hb]; [done|]. rewrite <- resolve_slash, <- Hb. done.
Qed.

Lemma control_uri_witness :
  exists base, setup_target (extract_path (lit "rtsp://10.0.0.1:8554/porch/sub/trackID=1")) = (base, 1)
    /\ Url.resolve base = Some (Url.MkResolvedPath (lit "porch") Url.Sub).
Proof.
  change (lit "rtsp://10.0.0.1:8554/porch/sub/trackID=1")
    with (content_base (lit "rtsp://10.0.0.1:8554/porch/sub") ++ lit "trackID=" ++ show_uint 1).
  eapply (control_uri (lit "rtsp://10.0.0.1:8554/porch/sub") (lit "rtsp") (lit "10.0.0.1:8554/porch/sub"));
    [reflexivity|vm_compute; reflexivity|done].
Defined.
End addresses.

(** ** Track numbers

    A stream without video: its description numbers the audio track 0, and a
    SETUP of track 0 makes a video track, on the 90 kHz clock. *)
Theorem audio_only_track `{B : Base64} p a env st rq resolved user t response sub :
  sdp_video p = None -> sdp_audio p = Some a ->
  contains st (default (fresh_session_id env) (session rq)) = false ->
  subscribe_with_extern_fallback env (Url.camera resolved) (Url.stream resolved) user = Ok sub ->
  (exists s, build p = s ++ lit "a=control:trackID=" ++ show_uint 0 ++ CRLF)
  /\ let '(_, _, st') := setup_track env st rq resolved 0 user t response in
     exists e, sessions st' !! default (fresh_session_id env) (session rq) = Some e
       /\ tracks e = [MkTrack VideoTrack t (fresh_ssrc env) 90000].
Proof.
  intros Hv Ha Hc Hs. split.
  - unfold build. rewrite Hv, Ha. cbv zeta. unfold append_audio at 1. cbv zeta. by eexists.
  - unfold setup_track. rewrite Hc, Hs. unfold setup_ok, respond, write_response.
    destruct (write_ok env); cbn [after insert_session set_sessions sessions];
      (eexists; split; [apply lookup_insert_eq|done]).
Qed.

(** ** Reads *)

Section reads.
Context `{R : RtspTypes} `{M : Md5} `{B : Base64}.
Variable env : nat -> Env.

(** A complete request: a header block, and the body its Content-Length
    announces. *)
Definition complete_request (r : bytes) : Prop :=
  exists pos, find_double_crlf r = Some pos
    /\ Z.of_nat pos + 4 + default 0 (parse_content_length (take (pos + 4) r)) = len r
    /\ 0 <= default 0 (parse_content_length (take (pos + 4) r)) /\ len r <= MAX_REQUEST_BYTES.

(** Handling the requests one after the other, with no buffer in between. *)
Fixpoint serve (reqs : list bytes) (c : Conn) : outcome (list effect * turn) :=
  match reqs with
  | [] => Ret ([], Continue c)
  | r :: reqs =>
      let e := env (served c) in
      let! (effs, ok, st) := dispatch_request e (state c) r in
      if ok then
        let! (effs', t) := serve reqs (MkConnection st (buf c) (now e) (S (served c))) in Ret (effs ++ effs', t)
      else Ret (effs, Break st)
  end.

Lemma find_double_crlf_step b (l : bytes) :
  find_double_crlf (b :: l) = if bool_decide (take 4 (b :: l) = [13; 10; 13; 10]) then Some 0%nat
                              else S <$> find_double_crlf l.
Proof. reflexivity. Qed.

Lemma find_double_crlf_bound (r : bytes) pos : find_double_crlf r = Some pos -> (pos + 4 <= length r)%nat.
Proof.
  revert pos. induction r as [|b r IH]; intros pos; [by cbn|]. rewrite find_double_crlf_step.
  case_bool_decide as H.
  - injection 1 as <-. apply (f_equal length) in H. rewrite length_take in H. cbn [length] in *. lia.
  - destruct (find_double_crlf r) as [q|]; [|done]. injection 1 as <-. specialize (IH q eq_refl).
    cbn [length]. lia.
Qed.

Lemma find_double_crlf_app (r w : bytes) pos : find_double_crlf r = Some pos -> find_double_crlf (r ++ w) = Some pos.
Proof.
  revert pos. induction r as [|b r IH]; intros pos H; [by cbn in H|].
  apply find_double_crlf_bound in H as Hb. cbn [app]. rewrite find_double_crlf_step in H |- *.
  change (b :: r ++ w) with ((b :: r) ++ w). rewrite take_app_le by lia.
  destruct (bool_decide _); [done|]. destruct (find_double_crlf r) as [q|]; [|done]. by rewrite (IH q).
Qed.

Lemma find_double_crlf_take (r : bytes) k pos :
  find_double_crlf r = Some pos -> find_double_crlf (take k r) = None \/ find_double_crlf (take k r) = Some pos.
Proof.
  intros H. destruct (find_double_crlf (take k r)) as [q|] eqn:E; [|by left]. right.
  apply (find_double_crlf_app _ (drop k r)) in E. rewrite take_drop in E. congruence.
Qed.

(** A complete request is cut off whatever follows it; a proper part of one is
    waited for. *)
Lemma try_consume_complete r rest : complete_request r -> try_consume_request (r ++ rest) = Ok (Some r, rest).
Proof.
  intros (pos & Hf & Hl & H0 & Hm). unfold try_consume_request. rewrite (find_double_crlf_app _ _ _ Hf).
  apply find_double_crlf_bound in Hf. rewrite take_app_le by lia.
  set (n := default 0 _) in *. rewrite Hl. destruct (Z.ltb_spec MAX_REQUEST_BYTES n); [lia|].
  destruct (Z.ltb_spec MAX_REQUEST_BYTES (len r)); [lia|].
  destruct (Z.ltb_spec (len (r ++ rest)) (len r)); [unfold len in *; rewrite length_app in *; lia|].
  unfold len. rewrite Nat2Z.id. by rewrite take_app_length, drop_app_length.
Qed.

Lemma try_consume_partial r b w :
  complete_request r -> r = b ++ w -> w <> [] -> try_consume_request b = Ok (None, b).
Proof.
  intros (pos & Hf & Hl & H0 & Hm) E Hw. unfold try_consume_request.
  assert (b = take (length b) r) as Eb by (by rewrite E, take_app_length).
  destruct (find_double_crlf_take r (length b) pos Hf) as [Hn|Hs]; rewrite <- Eb in *; [by rewrite Hn|].
  rewrite Hs. apply find_double_crlf_bound in Hs.
  assert (take (pos + 4) r = take (pos + 4) b) as Et by (by rewrite E, take_app_le).
  rewrite Et in *. set (n := default 0 _) in *. rewrite Hl.
  destruct (Z.ltb_spec MAX_REQUEST_BYTES n); [lia|].
  destruct (Z.ltb_spec MAX_REQUEST_BYTES (len r)); [lia|].
  destruct (Z.ltb_spec (len b) (len r)); [done|].
  destruct w; [done|]. rewrite E in *. unfold len in *. rewrite length_app in *. cbn [length] in *. lia.
Qed.

Lemma complete_length r : complete_request r -> (4 <= length r)%nat.
Proof. intros (pos & Hf & _). apply find_double_crlf_bound in Hf. lia. Qed.

Hypothesis running : forall n, is_cancelled (env n) = false.

(** Draining the buffer and then reading on amounts to serving the requests. *)
Lemma drain_serve cs :
  (forall reqs st b t0 n, Forall complete_request reqs -> concat reqs = b ++ concat cs ->
     (reqs = [] \/ exists r, head reqs = Some r /\ (length b < length r)%nat) ->
     run env (map Read cs) (MkConnection st b t0 n) = serve reqs (MkConnection st [] t0 n)) ->
  Forall (fun c : bytes => c <> []) cs ->
  forall reqs fuel st b t0 n, Forall complete_request reqs -> concat reqs = b ++ concat cs ->
    (length b < fuel)%nat ->
    (let! (effs, t) := drain_requests env fuel (MkConnection st b t0 n) in
     match t with
     | Break st => Ret (effs, Break st)
     | Continue c => let! (effs', t) := run env (map Read cs) c in Ret (effs ++ effs', t)
     end) = serve reqs (MkConnection st [] t0 n).
Proof.
  intros Hrun Hcs reqs. induction reqs as [|r reqs IH]; intros fuel st b t0 n Hr E Hf;
    (destruct fuel as [|fuel]; [lia|]); cbn [drain_requests served state buf last_request]; rewrite running.
  - symmetry in E. apply app_eq_nil in E as [-> E]. destruct cs as [|c cs]; [done|].
    apply app_eq_nil in E as [-> _]. by inversion Hcs.
  - inversion Hr as [|? ? Hc Hr']; subst. cbn [concat] in E.
    destruct (decide (length r <= length b)%nat) as [Hl|Hl].
    + assert (b = r ++ drop (length r) b) as Eb.
      { rewrite <- (take_drop (length r) b) at 1. f_equal.
        rewrite <- (take_app_le b (concat cs)) by done. by rewrite <- E, take_app_length. }
      rewrite Eb, try_consume_complete by done. cbn [serve served state buf].
      rewrite Eb, <- app_assoc in E. apply app_inv_head in E.
      destruct (dispatch_request _ st r) as [[[effs ok] st']|]; cbn [out_bind]; [|done].
      destruct ok; [|done]. cbn [served].
      rewrite <- (IH fuel st' (drop (length r) b) _ _ Hr' E).
      2:{ apply complete_length in Hc. rewrite length_drop. lia. }
      destruct (drain_requests _ _ _) as [[effs1 [c|st1]]|]; cbn [out_bind]; [|done|done].
      destruct (run _ _ _) as [[effs2 t]|]; cbn [out_bind]; [|done]. by rewrite app_assoc.
    + assert (r = b ++ drop (length b) r) as Er.
      { rewrite <- (take_drop (length b) r) at 1. f_equal.
        rewrite <- (take_app_le r (concat reqs)) by lia. by rewrite E, take_app_length. }
      rewrite (try_consume_partial r b (drop (length b) r) Hc Er).
      2:{ intros H. apply (f_equal length) in H. rewrite length_drop in H. cbn [length] in H. lia. }
      destruct Hc as (pos & Hc1 & Hc2 & Hc3 & Hc4).
      destruct (Z.ltb_spec MAX_REQUEST_BYTES (len b)) as [H|_]; [unfold len in *; lia|]. cbn [out_bind app].
      rewrite (Hrun (r :: reqs) st b t0 n Hr E).
      * by destruct (serve _ _) as [[effs t]|].
      * right. exists r. split; [done|lia].
Qed.

Lemma run_serve cs reqs st b t0 n :
  Forall (fun c : bytes => c <> []) cs -> Forall complete_request reqs -> concat reqs = b ++ concat cs ->
  (reqs = [] \/ exists r, head reqs = Some r /\ (length b < length r)%nat) ->
  run env (map Read cs) (MkConnection st b t0 n) = serve reqs (MkConnection st [] t0 n).
Proof.
  intros Hcs. revert reqs st b t0 n. induction Hcs as [|c cs Hc Hcs IH]; intros reqs st b t0 n Hr E Hb.
  - cbn [concat] in E. rewrite app_nil_r in E. destruct reqs as [|r reqs]; [by rewrite <- E|].
    destruct Hb as [?|(r' & [= <-] & Hl)]; [done|]. rewrite <- E in Hl. cbn [concat] in Hl. rewrite length_app in Hl. lia.
  - cbn [map run on_event]. destruct c as [|x c]; [done|]. cbn [buf state last_request served].
    set (b' := b ++ x :: c). cbn [concat] in E. rewrite app_assoc in E. fold b' in E.
    apply drain_serve; [|done|done|done|lia].
    intros reqs' st' b'' t' n' Hr' E' Hb'. by apply IH.
Qed.

(** C6: however the bytes of a sequence of requests are cut
    into reads, one per read, several in one, or split in the middle, the
    connection does what it would do handed the requests one by one: the same
    responses and subscriptions, the same state, and nothing left in the
    buffer; also when it is left early or a handler panics. *)
Theorem reads_irrelevant cs reqs st t0 n :
  Forall (fun c : bytes => c <> []) cs -> Forall complete_request reqs -> concat cs = concat reqs ->
  run env (map Read cs) (MkConnection st [] t0 n) = serve reqs (MkConnection st [] t0 n).
Proof.
  intros Hcs Hr E. apply run_serve; [done|done|done|].
  inversion Hr as [|r rs H]; [by left|]. right. exists r. split; [done|].
  apply complete_length in H. cbn [length]. lia.
Qed.
End reads.

(** ** A concrete connection *)

(** A parser of three canned requests, told apart by their first byte. *)
Definition canned (m : RtspMethod) (u : str) (h : list (str * str)) : Message :=
  RequestMessage (MkRequest (Supported m) (Some u) ((lit "CSeq", lit "7") :: h)).

#[local] Instance canned_requests : RtspTypes := {|
  message_parse b :=
    match b with
    | 79 :: _ => Some (canned Options (lit "rtsps://h/porch") [])
    | 83 :: _ => Some (canned Setup (lit "rtsps://h/porch/trackID=0")
                   [(lit "transport", lit "RTP/AVP;unicast;client_port=5000-5001");
                    (lit "Authorization", lit "Basic bob:pw")])
    | 84 :: _ => Some (canned Teardown (lit "rtsps://h/porch") [(lit "Session", lit "s1")])
    | _ => None
    end
|}.

#[local] Instance plain_base64 : Base64 := {| b64_decode s := Some s; b64_encode b := b |}.

Definition porch : SubscriptionHandle := MkSubscription 42 (MkSdpParams [] [] (lit "porch") None None).

Definition sample_env (n : nat) : Env :=
  MkEnv (Z.of_nat n) (lit "n") (lit "s1") 99 1700000000
    (fun camera kind user =>
       if bool_decide (camera = lit "porch" /\ user = Some (lit "bob")) then Ok porch else Err AccessDenied)
    (fun p => if p =? 40000 then AddrInUse else Bound) None true false.

Definition sample_conn : Conn :=
  MkConnection
    (MkConn [Auth.MkUserCred (lit "bob") (lit "pw")] (lit "cams") (Auth.MkNonce (lit "n") 0) ∅ {[ 40002 ]}
       (MkIp (lit "0.0.0.0") true) (MkIp (lit "10.0.0.1") false) true) [] 0 0.

Definition setup_bytes : bytes := [83; 13; 10; 13; 10].

(** Name the results of the run that [H] has evaluated. *)
Ltac run_result H E :=
  match type of H with
  | match ?x with _ => _ end =>
      destruct x as [[effs [?c|?st]]|] eqn:E; try contradiction
  end.

Lemma guards_balanced_witness :
  exists effs st, handle_connection (M := md5_toy) sample_env [Read setup_bytes; Closed] sample_conn = Ret (effs, Break st)
    /\ subscribed effs = [42] /\ subscribed effs ≡ₚ released effs.
Proof.
  assert (match handle_connection (M := md5_toy) sample_env [Read setup_bytes; Closed] sample_conn with
          | Ret (effs, Break st) => subscribed effs = [42] | _ => False end) as H by (vm_compute; reflexivity).
  run_result H E.
  exists effs, st. split; [reflexivity|]. split; [exact H|].
  exact (proj1 (guards_balanced (M := md5_toy) sample_env _ sample_conn effs (Break st) eq_refl E)).
Defined.

Lemma ports_returned_witness :
  exists effs c, handle_connection (M := md5_toy) sample_env [Read setup_bytes] sample_conn = Ret (effs, Continue c)
    /\ total entry_ports (sessions (state c)) = [40004] /\ udp_pool (state c) = {[ 40002 ]} ∪ {[ 40004 ]}.
Proof.
  assert (match handle_connection (M := md5_toy) sample_env [Read setup_bytes] sample_conn with
          | Ret (effs, Continue c) => total entry_ports (sessions (state c)) = [40004]
          | _ => False end) as H by (vm_compute; reflexivity).
  run_result H E.
  exists effs, c. split; [reflexivity|]. split; [exact H|].
  apply (ports_returned (M := md5_toy) sample_env _ sample_conn effs (Continue c) eq_refl) in E as (_ & _ & _ & ->).
  rewrite H. by rewrite list_to_set_singleton_L.
Defined.

Lemma auth_required_witness :
  exists effs ok st', dispatch_request (M := md5_toy) (sample_env 0) (state sample_conn) setup_bytes = Ret (effs, ok, st')
    /\ exists user, (forall g, In g (subscribed effs) -> exists cam k sub,
         subscribe (sample_env 0) cam k (Some user) = Ok sub /\ guard sub = g).
Proof.
  assert (match dispatch_request (M := md5_toy) (sample_env 0) (state sample_conn) setup_bytes with
          | Ret (effs, _, _) => subscribed effs = [42] | Panic => False end) as H by (vm_compute; reflexivity).
  match type of H with match ?x with _ => _ end => destruct x as [[[effs ok] st']|] eqn:E; [|contradiction] end.
  exists effs, ok, st'. split; [reflexivity|].
  apply (auth_required (M := md5_toy) (sample_env 0) (state sample_conn) setup_bytes) in E
    as [[Hq _]|(p & m & user & _ & _ & _ & _ & Hg)]; [congruence| |discriminate].
  by exists user.
Defined.

Lemma reads_irrelevant_witness :
  run (M := md5_toy) sample_env (map Read [[79; 13]; [10; 13; 10; 83; 13; 10; 13]; [10]]) sample_conn
  = serve (M := md5_toy) sample_env [[79; 13; 10; 13; 10]; setup_bytes] sample_conn.
Proof.
  apply (reads_irrelevant (M := md5_toy) sample_env).
  - done.
  - repeat (constructor; [done|]). constructor.
  - constructor; [|constructor; [|constructor]]; exists 1%nat; vm_compute; repeat split; discriminate.
  - reflexivity.
Defined.
