(* ===== verification/SessionTask.v ===== *)
(** * The session send loop ([src/rtsp/server/session_task.rs])

    After PLAY a session runs two loops, each with its own receiver on the
    camera's broadcast channel: one sends the cached key frame and then the
    live video, the other the audio. A loop is a fold over what [recv] returns,
    each item with the answers of that moment: the session's track list, a
    random number and the clock. [send] answers the attempts to write a packet,
    in order. The loops share no state but the track list, so the wire of each
    is modelled on its own; their packets interleave on a shared TCP
    connection packet by packet. The RTCP counters are kept, as in the code,
    though no report is sent. *)

From S2P Require Import Prelude Rtp Nal AudioCodec Packetizer FrameBuffer RtspServer.

Record RuntimeTrack := MkRuntimeTrack {
  rt_kind : TrackKind;
  rt_transport : TrackTransport;
  counters : RtpCounters;
  packet_count : Z;
  octet_count : Z;
  last_rtp_ts : Z;
  last_rtp_instant : option Z;
  rt_clock_rate : Z
}.

Definition same_kind (a b : TrackKind) : bool :=
  match a, b with VideoTrack, VideoTrack | AudioTrack, AudioTrack => true | _, _ => false end.

(** [build_runtime_for_kind]; the lock is held for the lookup. *)
Definition build_runtime_for_kind (shared : list TrackEntry) (k : TrackKind) (prev : option RuntimeTrack)
    (random : Z) : option RuntimeTrack :=
  entry ← List.find (fun t => same_kind (kind t) k) shared;
  let fresh := MkRuntimeTrack k (track_transport entry) (MkRtpCounters (RtspServer.ssrc entry) random) 0 0 0 None
                 (clock_rate entry) in
  Some (match prev with
        | Some p =>
            if Rtp.ssrc (counters p) =? RtspServer.ssrc entry then
              MkRuntimeTrack k (track_transport entry) (MkRtpCounters (RtspServer.ssrc entry) (seq (counters p)))
                (packet_count p) (octet_count p) (last_rtp_ts p) (last_rtp_instant p) (rt_clock_rate p)
            else fresh
        | None => fresh
        end).

(** The packets written, and the number of attempts. *)
Record Wire := MkWire { written : list (TrackTransport * bytes); attempts : nat }.

(** The slot PLAY reads for [RTP-Info]: sequence number and timestamp. *)
Abbreviation Slot := (option (Z * Z)).

Section session.
Context `{B : RtpBuilder}.
Variable send : nat -> bool.

Definition send_rtp (t : TrackTransport) (pkt : bytes) (w : Wire) : bool * Wire :=
  if send (attempts w) then (true, MkWire (written w ++ [(t, pkt)]) (S (attempts w)))
  else (false, MkWire (written w) (S (attempts w))).

Definition count_packet (t : RuntimeTrack) (pkt : bytes) : RuntimeTrack :=
  MkRuntimeTrack (rt_kind t) (rt_transport t) (counters t) (wrap 32 (packet_count t + 1))
    (wrap 32 (octet_count t + wrap 32 (len pkt))) (last_rtp_ts t) (last_rtp_instant t) (rt_clock_rate t).

Definition set_counters (t : RuntimeTrack) (c : RtpCounters) : RuntimeTrack :=
  MkRuntimeTrack (rt_kind t) (rt_transport t) c (packet_count t) (octet_count t) (last_rtp_ts t)
    (last_rtp_instant t) (rt_clock_rate t).

Definition stamp (t : RuntimeTrack) (ts now : Z) : RuntimeTrack :=
  MkRuntimeTrack (rt_kind t) (rt_transport t) (counters t) (packet_count t) (octet_count t) ts (Some now)
    (rt_clock_rate t).

(** The [for pkt] loop: false on the first failed write. *)
Fixpoint send_counted (pkts : list bytes) (t : RuntimeTrack) (w : Wire) : bool * RuntimeTrack * Wire :=
  match pkts with
  | [] => (true, t, w)
  | pkt :: pkts =>
      let '(ok, w) := send_rtp (rt_transport t) pkt w in
      if ok then send_counted pkts (count_packet t pkt) w else (false, t, w)
  end.

Definition frame_pts (f : Frame) : Z :=
  match f with VideoFrame _ _ pts _ _ => pts | AudioFrame _ pts => pts end.

(** [slot] is [None] for the audio loop, which has none. *)
Definition record_first (slot : option Slot) (t : RuntimeTrack) (packets : list bytes) (f : Frame) (sq : Z)
    : option Slot :=
  match slot, rt_kind t, packets, f with
  | Some None, VideoTrack, _ :: _, VideoFrame _ _ pts _ _ => Some (Some (sq, pts))
  | _, _, _, _ => slot
  end.

Definition dispatch_one (f : Frame) (t : RuntimeTrack) (slot : option Slot) (now : Z) (w : Wire)
    : outcome (bool * RuntimeTrack * option Slot * Wire) :=
  let seq_for_first := seq (counters t) in
  let! (packets, c) := dispatch f (counters t) in
  let '(ok, t, w) := send_counted packets (set_counters t c) w in
  if ok then Ret (true, stamp t (frame_pts f) now, record_first slot t packets f seq_for_first, w)
  else Ret (false, t, slot, w).

(** The [for pkt] loop of the replay. *)
Fixpoint send_each (pkts : list bytes) (tr : TrackTransport) (sent : bool) (w : Wire) : bool * bool * Wire :=
  match pkts with
  | [] => (true, sent, w)
  | pkt :: pkts =>
      let '(ok, w) := send_rtp tr pkt w in
      if ok then send_each pkts tr true w else (false, sent, w)
  end.

(** The [for nal] loop; [i] counts up to [last_nal_idx]. *)
Fixpoint replay_nals (codec : VideoCodec) (ts : Z) (last_nal_idx i : nat) (nals : list bytes)
    (tr : TrackTransport) (c : RtpCounters) (sent : bool) (w : Wire) : outcome (bool * RtpCounters * Wire) :=
  match nals with
  | [] => Ret (sent, c, w)
  | nal :: nals =>
      let! (pkts, c) := dispatch_nal codec ts (i =? last_nal_idx)%nat nal c in
      let '(ok, sent, w) := send_each pkts tr sent w in
      if ok then replay_nals codec ts last_nal_idx (S i) nals tr c sent w else Ret (sent, c, w)
  end.

Definition replay_burst (burst : VideoBurst) (tr : TrackTransport) (c : RtpCounters) (w : Wire)
    : outcome (bool * RtpCounters * Wire) :=
  match iframe_nals burst with
  | [] => Ret (false, c, w)
  | nals => replay_nals (codec burst) (captured_pts_90khz burst) (length nals - 1) 0 nals tr c false w
  end.

(** What [select!] yields; [biased]: a cancellation comes before a frame. *)
Inductive recv :=
| Received (f : Frame) (tracks : list TrackEntry) (random now : Z)
| Lagged
| ChannelClosed
| LoopCancelled.

(** *** The video loop *)

Record VideoLoop := MkVideoLoop {
  track : option RuntimeTrack;
  awaiting_live_keyframe : bool;
  first_rtp : Slot;
  wire : Wire;
  ended : bool
}.

Definition is_video (f : Frame) : bool := match f with VideoFrame _ _ _ _ _ => true | _ => false end.
Definition is_keyframe (f : Frame) : bool := match f with VideoFrame _ _ _ k _ => k | _ => false end.

(** The loop's set-up: the track as far as known, and the replay. *)
Definition video_start (tracks : list TrackEntry) (random : Z) (last_frame : LastFrameBuffer) (w : Wire)
    : outcome VideoLoop :=
  match build_runtime_for_kind tracks VideoTrack None random, video_snapshot last_frame with
  | Some t, Some burst =>
      let! (sent, c, w) := replay_burst burst (rt_transport t) (counters t) w in
      Ret (MkVideoLoop (Some (set_counters t c)) sent None w false)
  | t, _ => Ret (MkVideoLoop t false None w false)
  end.

Definition video_frame (s : VideoLoop) (f : Frame) (tracks : list TrackEntry) (random now : Z)
    : outcome VideoLoop :=
  if negb (is_video f) then Ret s
  else
    let resolved := match track s with
                    | None => build_runtime_for_kind tracks VideoTrack None random
                    | t => t
                    end in
    match resolved with
    | None => Ret s
    | Some t =>
        if awaiting_live_keyframe s && negb (is_keyframe f) then
          Ret (MkVideoLoop resolved (awaiting_live_keyframe s) (first_rtp s) (wire s) (ended s))
        else
          let! (ok, t, slot, w) := dispatch_one f t (Some (first_rtp s)) now (wire s) in
          Ret (MkVideoLoop (Some t) false (default (first_rtp s) slot) w (negb ok))
    end.

Fixpoint video_dispatch_loop (inputs : list recv) (s : VideoLoop) : outcome VideoLoop :=
  match inputs with
  | [] => Ret s
  | Received f tracks random now :: inputs =>
      let! s := video_frame s f tracks random now in
      if ended s then Ret s else video_dispatch_loop inputs s
  | _ :: _ => Ret (MkVideoLoop (track s) (awaiting_live_keyframe s) (first_rtp s) (wire s) true)
  end.

(** *** The audio loop *)

Record AudioLoop := MkAudioLoop { a_track : option RuntimeTrack; a_wire : Wire; a_ended : bool }.

Definition audio_frame (s : AudioLoop) (f : Frame) (tracks : list TrackEntry) (random now : Z)
    : outcome AudioLoop :=
  if is_video f then Ret s
  else
    match (match a_track s with
           | None => build_runtime_for_kind tracks AudioTrack None random
           | t => t
           end) with
    | None => Ret s
    | Some t =>
        let! (ok, t, _, w) := dispatch_one f t None now (a_wire s) in
        Ret (MkAudioLoop (Some t) w (negb ok))
    end.

Fixpoint audio_dispatch_loop (inputs : list recv) (s : AudioLoop) : outcome AudioLoop :=
  match inputs with
  | [] => Ret s
  | Received f tracks random now :: inputs =>
      let! s := audio_frame s f tracks random now in
      if a_ended s then Ret s else audio_dispatch_loop inputs s
  | _ :: _ => Ret (MkAudioLoop (a_track s) (a_wire s) true)
  end.

(** *** The PLAY gate and the two loops *)

Inductive gate := GateCancelled | GateNotified.

(** [None]: cancelled before PLAY, no loop has run. The session is removed
    from the registry on both paths. *)
Definition run (play_fired : bool) (first : gate) (tracks : list TrackEntry) (video_random audio_random : Z)
    (last_frame : LastFrameBuffer) (video_inputs audio_inputs : list recv)
    : outcome (option (VideoLoop * AudioLoop)) :=
  match play_fired, first with
  | false, GateCancelled => Ret None
  | _, _ =>
      let! v := video_start tracks video_random last_frame (MkWire [] 0) in
      let! v := video_dispatch_loop video_inputs v in
      let! a := audio_dispatch_loop audio_inputs
                  (MkAudioLoop (build_runtime_for_kind tracks AudioTrack None audio_random) (MkWire [] 0) false) in
      Ret (Some (v, a))
  end.
End session.

(** ** What a session sends

    An access unit a receiver gets: codec, timestamp, NALs, and whether its
    last packet carries the marker. *)

Record AccessUnit := MkAccessUnit { au_codec : VideoCodec; au_ts : Z; au_nals : list bytes; au_end : bool }.

Definition au_ok (a : AccessUnit) : Prop := Forall (nal_ok (au_codec a)) (au_nals a) /\ u32 (au_ts a).

(** The packets of one access unit: numbered from [c] on, stamped and marked
    as one, and reassembled by a receiver to its NALs. *)
Definition carries (c : RtpCounters) (a : AccessUnit) (fields : list RtpFields) : Prop :=
  depacketize (au_codec a) None (map payload fields) = au_nals a
  /\ forall i f, fields !! i = Some f ->
       payload_type f = 96 /\ sequence_number f = wrap 16 (seq c + Z.of_nat i)
       /\ timestamp f = au_ts a /\ ssrc_field f = Rtp.ssrc c
       /\ marker_bit f = au_end a && (i =? length fields - 1)%nat.

(** A group of packets per access unit, in one sequence space. *)
Fixpoint carries_all (c : RtpCounters) (aus : list AccessUnit) (groups : list (list RtpFields)) : Prop :=
  match aus, groups with
  | [], [] => True
  | a :: aus, g :: groups => carries c a g /\ carries_all (advance c (length g)) aus groups
  | _, _ => False
  end.

Definition frame_au (f : Frame) : list AccessUnit :=
  match f with VideoFrame codec nals pts _ aue => [MkAccessUnit codec pts nals aue] | AudioFrame _ _ => [] end.

Definition burst_au (b : option VideoBurst) : list AccessUnit :=
  match b with
  | Some b =>
      match iframe_nals b with
      | [] => []
      | nals => [MkAccessUnit (codec b) (captured_pts_90khz b) nals true]
      end
  | None => []
  end.

Fixpoint from_keyframe (fs : list Frame) : list Frame :=
  match fs with [] => [] | f :: fs' => if is_keyframe f then fs else from_keyframe fs' end.

(** The live frames a session forwards: after a replay, from the next key
    frame on. *)
Definition live (b : option VideoBurst) (fs : list Frame) : list Frame :=
  let fs := List.filter is_video fs in
  match burst_au b with [] => fs | _ => from_keyframe fs end.

Definition received_frames (inputs : list recv) : list Frame :=
  concat (map (fun r => match r with Received f _ _ _ => [f] | _ => [] end) inputs).

Lemma map_snd_pair {A C} (a : A) (l : list C) : map snd (map (pair a) l) = l.
Proof. induction l as [|x l IH]; [done|]. cbn [map snd]. by rewrite IH. Qed.

Section wire_facts.
Context `{B : RtpBuilder} `{!RtpBuilderLaws B}.

(** The packets of an access unit. *)
Definition au_packets (c : RtpCounters) (a : AccessUnit) : list bytes :=
  emit_all 96 (au_ts a) c (all_views (au_codec a) (au_end a) (au_nals a)).

Lemma au_packets_carry c a :
  au_ok a -> counters_ok c ->
  exists fields, map rtp_parse (au_packets c a) = map Some fields /\ carries c a fields
    /\ length fields = length (au_packets c a).
Proof.
  intros [Hn Ht] Hc. set (vs := all_views (au_codec a) (au_end a) (au_nals a)).
  exists (imap (packet_fields 96 (au_ts a) c) vs). split; [by apply emit_all_parse|]. split; [split|].
  - rewrite map_payload_imap. by apply depack_all_views.
  - intros i f Hf. rewrite list_lookup_imap in Hf. destruct (vs !! i) as [v|] eqn:Ev; [|done].
    injection Hf as <-. rewrite length_imap. cbn. split_and!; try done. by apply all_views_marked.
  - unfold au_packets. by rewrite length_imap, emit_all_length.
Qed.

(** The packets of a sequence of access units. *)
Fixpoint aus_packets (c : RtpCounters) (aus : list AccessUnit) : list bytes :=
  match aus with
  | [] => []
  | a :: aus => au_packets c a ++ aus_packets (advance c (length (au_packets c a))) aus
  end.

Lemma aus_packets_carry aus c :
  Forall au_ok aus -> counters_ok c ->
  exists groups, map rtp_parse (aus_packets c aus) = map Some (concat groups) /\ carries_all c aus groups.
Proof.
  intros H. revert c. induction H as [|a aus Ha _ IH]; intros c Hc; [by exists []|].
  destruct (au_packets_carry c a Ha Hc) as (fs & E & Hf & Hl).
  destruct (IH (advance c (length (au_packets c a)))) as (gs & E' & Hg); [by apply advance_ok|].
  exists (fs :: gs). cbn [aus_packets concat carries_all]. rewrite !map_app, E, E'. by rewrite Hl.
Qed.

Lemma aus_packets_app aus aus' c :
  counters_ok c ->
  aus_packets c (aus ++ aus') = aus_packets c aus ++ aus_packets (advance c (length (aus_packets c aus))) aus'.
Proof.
  revert c. induction aus as [|a aus IH]; intros c Hc; cbn [app aus_packets length].
  - by rewrite advance_0.
  - rewrite IH by by apply advance_ok. rewrite <- app_assoc, length_app, advance_advance. done.
Qed.

Variable send : nat -> bool.
Hypothesis delivered : forall n, send n = true.

Lemma send_counted_all pkts t w :
  exists pc oc, send_counted send pkts t w
  = (true, MkRuntimeTrack (rt_kind t) (rt_transport t) (counters t) pc oc (last_rtp_ts t) (last_rtp_instant t)
             (rt_clock_rate t),
     MkWire (written w ++ map (pair (rt_transport t)) pkts) (attempts w + length pkts)).
Proof.
  revert t w. induction pkts as [|pkt pkts IH]; intros t w; cbn [send_counted].
  - exists (packet_count t), (octet_count t). destruct t, w. cbn. by rewrite app_nil_r, Nat.add_0_r.
  - unfold send_rtp. rewrite delivered. destruct (IH (count_packet t pkt)
      (MkWire (written w ++ [(rt_transport t, pkt)]) (S (attempts w)))) as (pc & oc & ->).
    exists pc, oc. cbn. rewrite <- app_assoc. cbn. do 2 f_equal. lia.
Qed.

Lemma send_each_all pkts tr sent w :
  send_each send pkts tr sent w
  = (true, match pkts with [] => sent | _ => true end,
     MkWire (written w ++ map (pair tr) pkts) (attempts w + length pkts)).
Proof.
  revert sent w. induction pkts as [|pkt pkts IH]; intros sent w; cbn [send_each].
  - destruct w. cbn. by rewrite app_nil_r, Nat.add_0_r.
  - unfold send_rtp. rewrite delivered, IH. cbn. rewrite <- app_assoc. cbn. destruct pkts; do 2 f_equal; lia.
Qed.

Lemma replay_nals_all codec ts last i nals tr c sent w :
  counters_ok c -> last = (i + length nals - 1)%nat ->
  let pkts := emit_all 96 ts c (all_views codec true nals) in
  replay_nals send codec ts last i nals tr c sent w
  = Ret (match pkts with [] => sent | _ => true end, advance c (length pkts),
         MkWire (written w ++ map (pair tr) pkts) (attempts w + length pkts)).
Proof.
  revert i c sent w. induction nals as [|nal nals IH]; intros i c sent w Hc Hl; cbn [replay_nals all_views].
  { destruct w. cbn. by rewrite app_nil_r, Nat.add_0_r, advance_0. }
  rewrite dispatch_nal_views by done. cbn [out_bind].
  assert ((i =? last)%nat = match nals with [] => true | _ => false end) as ->.
  { destruct nals; simpl in *; [apply Nat.eqb_eq|apply Nat.eqb_neq]; lia. }
  rewrite send_each_all. set (vs := views codec _ nal).
  rewrite IH by (auto with br_ints; simpl in *; lia).
  rewrite emit_all_app by done. rewrite length_app, !emit_all_length, advance_advance. cbn [written attempts].
  rewrite map_app, app_assoc. do 2 f_equal; [|f_equal; lia].
  f_equal. destruct (emit_all 96 ts c vs); [done|]. by destruct (emit_all _ _ _ (all_views codec true nals)).
Qed.

Definition has_nals (a : AccessUnit) : bool := match au_nals a with [] => false | _ => true end.

(** The slot after access units sent from [c] on. *)
Definition slot_after (slot : Slot) (c : RtpCounters) (aus : list AccessUnit) : Slot :=
  match slot with
  | Some x => Some x
  | None => a ← List.find has_nals aus; Some (seq c, au_ts a)
  end.

Lemma au_packets_empty c a : has_nals a = false -> au_packets c a = [].
Proof. unfold has_nals, au_packets. by destruct (au_nals a). Qed.

Lemma au_packets_nonempty c a : has_nals a = true -> au_packets c a <> [].
Proof.
  unfold has_nals, au_packets. destruct (au_nals a) as [|nal nals]; [done|]. intros _ E.
  apply (f_equal length) in E. rewrite emit_all_length in E. cbn [all_views length] in E.
  by apply nil_length_inv, views_nonempty in E.
Qed.

Lemma dispatch_one_video f a t slot now w :
  frame_au f = [a] -> counters_ok (counters t) -> rt_kind t = VideoTrack ->
  exists t', rt_kind t' = VideoTrack /\ rt_transport t' = rt_transport t
    /\ counters t' = advance (counters t) (length (au_packets (counters t) a))
    /\ dispatch_one send f t (Some slot) now w
       = Ret (true, t', Some (slot_after slot (counters t) [a]),
              MkWire (written w ++ map (pair (rt_transport t)) (au_packets (counters t) a))
                (attempts w + length (au_packets (counters t) a))).
Proof.
  intros Hf Hc Hk. destruct f as [codec nals pts key aue|]; [|done]. injection Hf as <-.
  unfold dispatch_one. rewrite dispatch_video_views by done. cbn [out_bind].
  rewrite <- (emit_all_length 96 pts (counters t)).
  change (emit_all 96 pts (counters t) (all_views codec aue nals))
    with (au_packets (counters t) (MkAccessUnit codec pts nals aue)).
  set (a := MkAccessUnit codec pts nals aue). set (ps := au_packets (counters t) a).
  destruct (send_counted_all ps (set_counters t (advance (counters t) (length ps))) w) as (pc & oc & ->).
  eexists. split; [|split; [|split; [|do 2 f_equal; f_equal]]]; [done|done|done|].
  unfold slot_after. cbn [List.find rt_kind set_counters]. rewrite Hk. destruct slot as [x|]; cbn [record_first];
    [by destruct ps|].
  destruct (has_nals a) eqn:Ha.
  - apply (au_packets_nonempty (counters t)) in Ha. fold ps in Ha. by destruct ps.
  - apply (au_packets_empty (counters t)) in Ha. fold ps in Ha. by rewrite Ha.
Qed.

Lemma slot_after_app slot c a aus :
  counters_ok c ->
  slot_after (slot_after slot c [a]) (advance c (length (au_packets c a))) aus = slot_after slot c (a :: aus).
Proof.
  intros Hc. unfold slot_after. destruct slot as [x|]; [done|]. cbn [List.find].
  destruct (has_nals a) eqn:E; [done|]. cbn [mbind option_bind]. rewrite (au_packets_empty c a E).
  cbn [length]. by rewrite advance_0.
Qed.

Definition all_received (inputs : list recv) : Prop :=
  Forall (fun r => match r with Received _ _ _ _ => True | _ => False end) inputs.

(** The frames a loop with a track forwards. *)
Definition forwarded (awaiting : bool) (inputs : list recv) : list AccessUnit :=
  let fs := List.filter is_video (received_frames inputs) in
  concat (map frame_au (if awaiting then from_keyframe fs else fs)).

Lemma video_loop_sends inputs s t :
  all_received inputs -> track s = Some t -> rt_kind t = VideoTrack -> counters_ok (counters t) ->
  ended s = false ->
  let aus := forwarded (awaiting_live_keyframe s) inputs in
  exists s', video_dispatch_loop send inputs s = Ret s' /\ ended s' = false
    /\ written (wire s') = written (wire s) ++ map (pair (rt_transport t)) (aus_packets (counters t) aus)
    /\ first_rtp s' = slot_after (first_rtp s) (counters t) aus.
Proof.
  intros Hin. revert s t. induction Hin as [|r inputs Hr _ IH]; intros s t Ht Hk Hc He.
  { exists s. unfold forwarded. cbn. destruct (awaiting_live_keyframe s); cbn; rewrite app_nil_r;
      by destruct (first_rtp s). }
  destruct r as [f tracks random now| | |]; try done. cbn [video_dispatch_loop].
  unfold video_frame. rewrite Ht. unfold forwarded, received_frames. cbn [map concat app List.filter].
  fold (received_frames inputs).
  destruct (is_video f) eqn:Hv; cbn [negb].
  2:{ cbn [out_bind]. rewrite He. by apply (IH s t). }
  destruct (awaiting_live_keyframe s && negb (is_keyframe f)) eqn:Ha.
  { apply andb_true_iff in Ha as [Ha Hkf]. apply negb_true_iff in Hkf. cbn [out_bind ended]. rewrite He.
    destruct (IH (MkVideoLoop (Some t) true (first_rtp s) (wire s) false) t eq_refl Hk Hc eq_refl) as (s' & E & H).
    rewrite Ha. cbn [from_keyframe]. rewrite Hkf. by exists s'. }
  assert (exists a, frame_au f = [a]) as [a Hfa] by (destruct f; [by eexists|done]).
  destruct (dispatch_one_video f a t (first_rtp s) now (wire s) Hfa Hc Hk) as (t' & Hk' & Htr & Hc' & ->).
  cbn [out_bind ended default negb].
  destruct (IH (MkVideoLoop (Some t') false (slot_after (first_rtp s) (counters t) [a])
    (MkWire (written (wire s) ++ map (pair (rt_transport t)) (au_packets (counters t) a))
       (attempts (wire s) + length (au_packets (counters t) a))) false) t' eq_refl Hk')
    as (s' & E & Hend & Hw & Hslot); [rewrite Hc'; by apply advance_ok|done|].
  exists s'. split; [exact E|]. split; [done|]. cbn [wire written first_rtp awaiting_live_keyframe] in Hw, Hslot.
  assert (forall fs, concat (map frame_au (if awaiting_live_keyframe s then from_keyframe (f :: fs) else f :: fs))
            = a :: concat (map frame_au fs)) as ->.
  { intros fs. cbn [from_keyframe]. apply andb_false_iff in Ha as [->|Ha]; [cbn [map concat]; by rewrite Hfa|].
    apply negb_false_iff in Ha. rewrite Ha. destruct (awaiting_live_keyframe s); cbn [map concat]; by rewrite Hfa. }
  unfold forwarded in Hw, Hslot. rewrite Htr, Hc' in Hw. rewrite Hc', slot_after_app in Hslot by done.
  cbn [aus_packets]. rewrite map_app, app_assoc. done.
Qed.

Definition video_entry (tracks : list TrackEntry) : option TrackEntry :=
  List.find (fun t => same_kind (kind t) VideoTrack) tracks.

Definition track_counters (t : TrackEntry) (random : Z) : RtpCounters := MkRtpCounters (RtspServer.ssrc t) random.

(** The set-up leaves the burst on the wire and the gate armed by it. *)
Lemma video_start_sends tracks t random lf w :
  video_entry tracks = Some t -> counters_ok (track_counters t random) ->
  let c := track_counters t random in
  let pkts := aus_packets c (burst_au (video_snapshot lf)) in
  exists s rt, video_start send tracks random lf w = Ret s /\ track s = Some rt /\ ended s = false
    /\ rt_kind rt = VideoTrack /\ rt_transport rt = track_transport t
    /\ counters rt = advance c (length pkts) /\ first_rtp s = None
    /\ awaiting_live_keyframe s = match burst_au (video_snapshot lf) with [] => false | _ => true end
    /\ written (wire s) = written w ++ map (pair (track_transport t)) pkts.
Proof.
  intros Ht Hc c pkts. unfold video_start, build_runtime_for_kind. fold (video_entry tracks). rewrite Ht.
  cbn [mbind option_bind]. fold (track_counters t random). fold c. subst pkts.
  destruct (video_snapshot lf) as [b|]; cbn [burst_au].
  2:{ eexists _, _. cbn [aus_packets map length]. rewrite app_nil_r, (advance_0 c Hc). repeat split. }
  cbn [rt_transport counters]. unfold replay_burst. destruct (iframe_nals b) as [|nal nals] eqn:Eb.
  { cbn [out_bind]. eexists _, _. cbn [aus_packets map length]. rewrite app_nil_r, (advance_0 c Hc). repeat split. }
  rewrite replay_nals_all by (exact Hc || done). cbn [out_bind]. cbn [aus_packets]. rewrite app_nil_r.
  set (a := MkAccessUnit (codec b) (captured_pts_90khz b) (nal :: nals) true).
  change (emit_all 96 (captured_pts_90khz b) c (all_views (codec b) true (nal :: nals))) with (au_packets c a).
  pose proof (au_packets_nonempty c a eq_refl) as Hne.
  eexists _, _. split; [reflexivity|]. do 6 (split; [done|]). split; [|done].
  cbn [awaiting_live_keyframe]. by destruct (au_packets c a).
Qed.

Lemma audio_loop_total inputs s : exists s', audio_dispatch_loop send inputs s = Ret s'.
Proof.
  revert s. induction inputs as [|r inputs IH]; intros s; [by eexists|].
  destruct r as [f tracks random now| | |]; [|by eexists..]. cbn [audio_dispatch_loop].
  unfold audio_frame. destruct f as [codec nals pts k e|payload pts]; cbn [is_video].
  - cbn [out_bind]. destruct (a_ended s); [by eexists|apply IH].
  - destruct (match a_track s with None => _ | _ => _ end) as [t|];
      [|cbn [out_bind]; destruct (a_ended s); [by eexists|apply IH]].
    unfold dispatch_one. cbn [dispatch out_bind]. destruct (dispatch_audio _ _ _) as [ps c].
    destruct (send_counted _ _ _ _) as [[[] t'] w]; cbn [out_bind a_ended negb]; [apply IH|by eexists].
Qed.

(** The whole session, once PLAY is issued. *)
Lemma run_video play_fired first tracks t vr ar lf vin ain :
  video_entry tracks = Some t -> counters_ok (track_counters t vr) -> all_received vin ->
  play_fired = true \/ first = GateNotified ->
  let c := track_counters t vr in
  let burst := burst_au (video_snapshot lf) in
  let aus := concat (map frame_au (live (video_snapshot lf) (received_frames vin))) in
  exists v a, run send play_fired first tracks vr ar lf vin ain = Ret (Some (v, a))
    /\ written (wire v) = map (pair (track_transport t)) (aus_packets c (burst ++ aus))
    /\ first_rtp v = slot_after None (advance c (length (aus_packets c burst))) aus.
Proof.
  intros Ht Hc Hin Hp c burst aus.
  destruct (video_start_sends tracks t vr lf (MkWire [] 0) Ht Hc)
    as (s & rt & E & Htr & He & Hk & Htt & Hcc & Hs & Ha & Hw).
  destruct (video_loop_sends vin s rt Hin Htr Hk) as (v & E' & _ & Hw' & Hs').
  { rewrite Hcc. by apply advance_ok. }
  { done. }
  destruct (audio_loop_total ain (MkAudioLoop (build_runtime_for_kind tracks AudioTrack None ar) (MkWire [] 0) false))
    as [a Ea].
  exists v, a. unfold run. rewrite E. cbn [out_bind]. rewrite E'. cbn [out_bind]. rewrite Ea. cbn [out_bind].
  assert (forwarded (awaiting_live_keyframe s) vin = aus) as Haus.
  { rewrite Ha. unfold forwarded, aus, live. fold burst. by destruct burst. }
  rewrite Haus, Hcc in Hw', Hs'. rewrite Hs in Hs'. rewrite Hw, Htt in Hw'. cbn [written app] in Hw'.
  split; [by destruct Hp as [->| ->]; [|destruct play_fired]|]. split; [|done].
  rewrite Hw', aus_packets_app by done. by rewrite map_app.
Qed.

(** C11: before PLAY nothing is sent. After it, a session whose
    writes succeed sends, on its video track's transport and in one sequence of
    packet numbers, the cached key frame and then the live video, each access
    unit stamped and marked as one and reassembled by a receiver to its NALs;
    when a key frame was replayed, the live video starts at the next key
    frame. *)
Theorem session_video play_fired first tracks t vr ar lf vin ain :
  video_entry tracks = Some t -> counters_ok (track_counters t vr) -> all_received vin ->
  let aus := burst_au (video_snapshot lf)
             ++ concat (map frame_au (live (video_snapshot lf) (received_frames vin))) in
  Forall au_ok aus ->
  run send false GateCancelled tracks vr ar lf vin ain = Ret None
  /\ (play_fired = true \/ first = GateNotified ->
      exists v a groups, run send play_fired first tracks vr ar lf vin ain = Ret (Some (v, a))
        /\ Forall (fun p => fst p = track_transport t) (written (wire v))
        /\ map rtp_parse (map snd (written (wire v))) = map Some (concat groups)
        /\ carries_all (track_counters t vr) aus groups).
Proof.
  intros Ht Hc Hin aus Hok. split; [done|]. intros Hp.
  destruct (run_video play_fired first tracks t vr ar lf vin ain Ht Hc Hin Hp) as (v & a & E & Hw & _).
  destruct (aus_packets_carry aus (track_counters t vr) Hok Hc) as (groups & Hg & Hca).
  exists v, a, groups. rewrite Hw. split; [done|]. split; [|split; [|done]].
  - apply Forall_map, List.Forall_forall. done.
  - by rewrite map_snd_pair.
Qed.

(** the sequence number and timestamp PLAY may answer as
    [RTP-Info] are those of the first live access unit; when a key frame was
    replayed before it they are not those of the first packet sent: that packet
    is numbered [vr], the recorded one comes after the whole burst. *)
Theorem rtp_info_first play_fired first tracks t vr ar lf vin ain :
  video_entry tracks = Some t -> counters_ok (track_counters t vr) -> all_received vin ->
  play_fired = true \/ first = GateNotified ->
  exists v a n, run send play_fired first tracks vr ar lf vin ain = Ret (Some (v, a))
    /\ (n <= length (written (wire v)))%nat
    /\ (n = 0%nat <-> burst_au (video_snapshot lf) = [])
    /\ first_rtp v = (a ← List.find has_nals
                           (concat (map frame_au (live (video_snapshot lf) (received_frames vin))));
                      Some (wrap 16 (vr + Z.of_nat n), au_ts a)).
Proof.
  intros Ht Hc Hin Hp.
  destruct (run_video play_fired first tracks t vr ar lf vin ain Ht Hc Hin Hp) as (v & a & E & Hw & Hs).
  set (burst := burst_au _) in *. exists v, a, (length (aus_packets (track_counters t vr) burst)).
  split; [done|]. split.
  { rewrite Hw, length_map, aus_packets_app, length_app by done. lia. }
  split; [|by rewrite Hs].
  split; [|by intros ->]. intros Hl. unfold burst in *. destruct (video_snapshot lf) as [b|]; [|done].
  unfold burst_au in *. destruct (iframe_nals b) as [|nal nals]; [done|]. exfalso.
  cbn [aus_packets] in Hl. rewrite app_nil_r in Hl. apply nil_length_inv in Hl. by apply au_packets_nonempty in Hl.
Qed.

(** ** Audio *)

Definition audio_entry (tracks : list TrackEntry) : option TrackEntry :=
  List.find (fun t => same_kind (kind t) AudioTrack) tracks.

(** The packet an audio frame becomes. *)
Definition audio_fields (c : RtpCounters) (p : AudioPayload) (pts : Z) : RtpFields :=
  MkRtpFields (match payload_codec p with Nal.Aac => 97 | G711Ulaw => 0 end) (seq c) pts (Rtp.ssrc c) true
    (match p with AacPayload au _ _ => Aac.build_au_hbr_payload au | G711Payload s => s end).

Definition audio_of (inputs : list recv) : list (AudioPayload * Z) :=
  concat (map (fun r => match r with Received (AudioFrame p pts) _ _ _ => [(p, pts)] | _ => [] end) inputs).

Fixpoint audio_packets (c : RtpCounters) (fs : list (AudioPayload * Z)) : list RtpFields :=
  match fs with
  | [] => []
  | (p, pts) :: fs => audio_fields c p pts :: audio_packets (advance c 1) fs
  end.

(** Nothing is sent while the session has no audio track. *)
Definition no_audio_track (r : recv) : Prop :=
  match r with
  | Received f tracks _ _ => is_video f = true \/ audio_entry tracks = None
  | _ => False
  end.

Lemma audio_loop_skips pre inputs w :
  Forall no_audio_track pre ->
  audio_dispatch_loop send (pre ++ inputs) (MkAudioLoop None w false)
  = audio_dispatch_loop send inputs (MkAudioLoop None w false).
Proof.
  induction 1 as [|r pre Hr _ IH]; [done|]. destruct r as [f tracks random now| | |]; try done.
  cbn [app audio_dispatch_loop]. unfold audio_frame. cbn [a_track].
  destruct (is_video f) eqn:Ev; [done|]. destruct Hr as [Hr|Hr]; [congruence|].
  unfold build_runtime_for_kind. fold (audio_entry tracks). rewrite Hr. done.
Qed.

Lemma audio_loop_sends inputs t w :
  all_received inputs -> counters_ok (counters t) -> Forall (fun f => u32 (snd f)) (audio_of inputs) ->
  exists s, audio_dispatch_loop send inputs (MkAudioLoop (Some t) w false) = Ret s
    /\ exists ps, written (a_wire s) = written w ++ map (pair (rt_transport t)) ps
      /\ map rtp_parse ps = map Some (audio_packets (counters t) (audio_of inputs)).
Proof.
  intros Hin. revert t w. induction Hin as [|r inputs Hr _ IH]; intros t w Hc Hok.
  { eexists. split; [done|]. exists []. by rewrite app_nil_r. }
  destruct r as [f tracks random now| | |]; try done. cbn [audio_dispatch_loop]. unfold audio_frame.
  destruct f as [codec nals pts k e|p pts]; cbn [is_video a_track].
  { cbn [out_bind a_ended]. by apply IH. }
  unfold audio_of in Hok. cbn [map concat app] in Hok. fold (audio_of inputs) in Hok.
  inversion Hok as [|? ? Hp Hok']; subst. cbn [snd] in Hp.
  assert (exists packet, dispatch (AudioFrame p pts) (counters t) = Ret ([packet], advance (counters t) 1)
    /\ rtp_parse packet = Some (audio_fields (counters t) p pts)) as (packet & Ed & Er).
  { destruct Hc as [Hs Hq]. destruct p; (eexists; split; [reflexivity|]); by apply rtp_parse_build. }
  unfold dispatch_one. rewrite Ed. cbn [out_bind a_wire].
  destruct (send_counted_all [packet] (set_counters t (advance (counters t) 1)) w) as (pc & oc & ->).
  cbn [out_bind a_ended negb rt_transport set_counters counters].
  match goal with |- context [MkAudioLoop (Some ?t') ?w' false] =>
    destruct (IH t' w') as (s & E & ps & Hw & Hps) end; [by apply advance_ok|done|].
  exists s. split; [exact E|]. exists (packet :: ps). cbn [stamp rt_transport counters written] in Hw, Hps.
  rewrite Hw, <- app_assoc. split; [done|]. unfold audio_of. cbn [map concat app audio_packets].
  fold (audio_of inputs). by rewrite Er, Hps.
Qed.

(** audio received before the audio track is set up is
    dropped; from the first audio frame that finds the track on, every audio
    frame becomes one marked packet with its own timestamp, on that track's
    transport and in one sequence of packet numbers, whatever video is received
    in between and even if the track list changes. *)
Theorem session_audio pre f tracks random now inputs t :
  Forall no_audio_track pre -> is_video f = false -> audio_entry tracks = Some t ->
  counters_ok (track_counters t random) -> all_received inputs ->
  let sent := audio_of (Received f tracks random now :: inputs) in
  Forall (fun g => u32 (snd g)) sent ->
  exists s, audio_dispatch_loop send (pre ++ Received f tracks random now :: inputs)
              (MkAudioLoop None (MkWire [] 0) false) = Ret s
    /\ Forall (fun p => fst p = track_transport t) (written (a_wire s))
    /\ map rtp_parse (map snd (written (a_wire s)))
       = map Some (audio_packets (track_counters t random) sent).
Proof.
  intros Hpre Hf Ht Hc Hin sent Hok. rewrite audio_loop_skips by done.
  assert (all_received (Received f tracks random now :: inputs)) as Hall by by constructor.
  set (rt := MkRuntimeTrack AudioTrack (track_transport t) (track_counters t random) 0 0 0 None (clock_rate t)).
  destruct (audio_loop_sends (Received f tracks random now :: inputs) rt (MkWire [] 0) Hall Hc Hok)
    as (s & E & ps & Hw & Hps).
  exists s. split.
  - rewrite <- E. cbn [audio_dispatch_loop]. unfold audio_frame. rewrite Hf. cbn [a_track].
    unfold build_runtime_for_kind. fold (audio_entry tracks). rewrite Ht. done.
  - rewrite Hw. cbn [written app]. split; [apply Forall_map, List.Forall_forall; done|].
    by rewrite map_snd_pair.
Qed.
End wire_facts.

(** ** A session *)

Definition sample_tracks : list TrackEntry :=
  [MkTrack VideoTrack (TcpInterleavedTransport 0 1) 11 90000; MkTrack AudioTrack (TcpInterleavedTransport 2 3) 12 8000].

Definition sample_burst : LastFrameBuffer :=
  MkLastFrameBuffer (Some (MkVideoBurst H264 [] [[0x65; 1; 2]] [] 0 9000)) None.

Definition sample_recv : list recv :=
  [Received (VideoFrame H264 [[0x41; 1]] 12000 false true) sample_tracks 0 0;
   Received (VideoFrame H264 [[0x65; 3]] 15000 true true) sample_tracks 0 0].

Lemma session_video_witness :
  exists v a groups, run (B := rtp_std) (fun _ => true) true GateNotified sample_tracks 65535 7 sample_burst sample_recv []
    = Ret (Some (v, a))
    /\ carries_all (track_counters (MkTrack VideoTrack (TcpInterleavedTransport 0 1) 11 90000) 65535)
         [MkAccessUnit H264 9000 [[0x65; 1; 2]] true; MkAccessUnit H264 15000 [[0x65; 3]] true] groups.
Proof.
  destruct (session_video (B := rtp_std) (fun _ => true) (fun _ => eq_refl) true GateNotified sample_tracks
    (MkTrack VideoTrack (TcpInterleavedTransport 0 1) 11 90000) 65535 7 sample_burst sample_recv [])
    as (_ & v & a & groups & E & _ & _ & H).
  - reflexivity.
  - split; cbn; unfold in_u; lia.
  - repeat (constructor; [done|]). constructor.
  - repeat (constructor; [split; [constructor; [|constructor]; split; [|split; [reflexivity|intros _; cbn; lia]];
      repeat (constructor; [unfold in_u; lia|]); constructor|cbn; unfold in_u; lia]|]). constructor.
  - by left.
  - exists v, a, groups. split; [exact E|exact H].
Defined.

Lemma rtp_info_first_witness :
  exists v a n, run (B := rtp_std) (fun _ => true) true GateNotified sample_tracks 65535 7 sample_burst sample_recv []
    = Ret (Some (v, a)) /\ n <> 0%nat /\ first_rtp v = Some (wrap 16 (65535 + Z.of_nat n), 15000).
Proof.
  destruct (rtp_info_first (B := rtp_std) (fun _ => true) (fun _ => eq_refl) true GateNotified sample_tracks
    (MkTrack VideoTrack (TcpInterleavedTransport 0 1) 11 90000) 65535 7 sample_burst sample_recv [])
    as (v & a & n & E & _ & Hn & Hs).
  - reflexivity.
  - split; cbn; unfold in_u; lia.
  - repeat (constructor; [done|]). constructor.
  - by left.
  - exists v, a, n. split; [exact E|]. split; [|exact Hs]. intros H. apply Hn in H. discriminate H.
Defined.

Lemma session_audio_witness :
  exists s, audio_dispatch_loop (B := rtp_std) (fun _ => true)
    [Received (AudioFrame (G711Payload [1]) 80) [] 0 0; Received (AudioFrame (G711Payload [2]) 160) sample_tracks 9 0]
    (MkAudioLoop None (MkWire [] 0) false) = Ret s
    /\ map rtp_parse (map snd (written (a_wire s))) = [Some (MkRtpFields 0 9 160 12 true [2])].
Proof.
  destruct (session_audio (B := rtp_std) (fun _ => true) (fun _ => eq_refl)
    [Received (AudioFrame (G711Payload [1]) 80) [] 0 0] (AudioFrame (G711Payload [2]) 160) sample_tracks 9 0 []
    (MkTrack AudioTrack (TcpInterleavedTransport 2 3) 12 8000)) as (s & E & _ & H).
  - constructor; [by right|constructor].
  - reflexivity.
  - reflexivity.
  - split; cbn; unfold in_u; lia.
  - constructor.
  - constructor; [cbn; unfold in_u; lia|constructor].
  - exists s. split; [exact E|exact H].
Defined.
