(* ===== verification/WakeLock.v ===== *)
(** * The wake lock ([src/wake_lock.rs])

    A counter that keeps a camera awake while guards are alive, shared by many
    tasks. Every atomic operation, lock section and notification is one step of
    a task ([pc] is where it stands), and the steps of all tasks interleave
    freely: [step]. Tokio's [Notify] is its documented behaviour: [notify_one]
    wakes one waiting task, or stores one permit, and waiting consumes a stored
    permit. Time is a clock that never goes back. *)

From S2P Require Import Prelude.

(** [WakeLockInner]; of each [Notify] the stored permit. *)
Record WakeLockInner := MkInner {
  count : Z;
  notify_release : bool;
  notify_acquire : bool;
  last_release_at : option Z
}.

(** ** Tasks *)

Inductive pc :=
(* [acquire], then [drop] of the guard *)
| AcquireAdd | AcquireClear | AcquireNotify | Held | DropStamp | DropNotify | Dropped
(* [wait_for_acquire] *)
| WaitCheck | WaitPoll | WaitParked | WaitRecheck | WaitReturned
(* [idle_since] *)
| SinceCount | SinceRead | SinceReturned (r : option Z).

(** [last_zero] is not the program's: it records when the count last went from
    1 to 0, for the statements. *)
Record State := MkState { inner : WakeLockInner; tasks : list pc; clock : Z; last_zero : option Z }.

(** ** Operations on the shared state *)

(** [fetch_add(1)] on a [usize]; the previous value. *)
Definition fetch_add (w : WakeLockInner) : Z * WakeLockInner :=
  (count w, MkInner (wrap 64 (count w + 1)) (notify_release w) (notify_acquire w) (last_release_at w)).

Definition fetch_sub (w : WakeLockInner) : Z * WakeLockInner :=
  (count w, MkInner (wrap 64 (count w - 1)) (notify_release w) (notify_acquire w) (last_release_at w)).

Definition set_last (w : WakeLockInner) (t : option Z) : WakeLockInner :=
  MkInner (count w) (notify_release w) (notify_acquire w) t.

Definition store_acquire (w : WakeLockInner) (b : bool) : WakeLockInner :=
  MkInner (count w) (notify_release w) b (last_release_at w).

Definition store_release (w : WakeLockInner) (b : bool) : WakeLockInner :=
  MkInner (count w) b (notify_acquire w) (last_release_at w).

Definition is_idle (w : WakeLockInner) : bool := count w =? 0.

(** ** One step of a task that wakes no other; a task that is done calls again *)

Definition task_step (w : WakeLockInner) (now : Z) (p : pc) : option (WakeLockInner * pc) :=
  match p with
  | AcquireAdd =>
      let '(prev, w) := fetch_add w in Some (w, if prev =? 0 then AcquireClear else Held)
  | AcquireClear => Some (set_last w None, AcquireNotify)
  | AcquireNotify => None
  | Held =>
      let '(prev, w) := fetch_sub w in Some (w, if prev =? 1 then DropStamp else Dropped)
  | DropStamp => Some (set_last w (Some now), DropNotify)
  | DropNotify => Some (store_release w true, Dropped)
  | Dropped => Some (w, AcquireAdd)
  | WaitCheck => Some (w, if is_idle w then WaitPoll else WaitReturned)
  | WaitPoll =>
      Some (if notify_acquire w then (store_acquire w false, WaitRecheck) else (w, WaitParked))
  | WaitParked => None
  | WaitRecheck => Some (w, if is_idle w then WaitCheck else WaitReturned)
  | WaitReturned => Some (w, WaitCheck)
  | SinceCount => Some (w, if is_idle w then SinceRead else SinceReturned None)
  | SinceRead => Some (w, SinceReturned (last_release_at w))
  | SinceReturned _ => Some (w, SinceCount)
  end.

(** [notify_acquire.notify_one()]: a parked task is woken, whichever, or the
    permit is stored. *)
Inductive step : State -> State -> Prop :=
| step_task w ts now z i p w' p' :
    ts !! i = Some p -> task_step w now p = Some (w', p') ->
    step (MkState w ts now z)
      (MkState w' (<[i := p']> ts) now (match p' with DropStamp => Some now | _ => z end))
| step_wake w ts now z i j :
    ts !! i = Some AcquireNotify -> ts !! j = Some WaitParked ->
    step (MkState w ts now z) (MkState w (<[j := WaitRecheck]> (<[i := Held]> ts)) now z)
| step_store w ts now z i :
    ts !! i = Some AcquireNotify -> ~ In WaitParked ts ->
    step (MkState w ts now z) (MkState (store_acquire w true) (<[i := Held]> ts) now z)
| step_tick w ts now z now' : now <= now' -> step (MkState w ts now z) (MkState w ts now' z).

Definition new : WakeLockInner := MkInner 0 false false None.

(** Tasks before their first step. *)
Definition fresh (p : pc) : Prop := p = AcquireAdd \/ p = WaitCheck \/ p = SinceCount.

Inductive reachable : State -> Prop :=
| reach_init ts now : Forall fresh ts -> Z.of_nat (length ts) < 2 ^ 64 -> reachable (MkState new ts now None)
| reach_step s s' : reachable s -> step s s' -> reachable s'.

(** ** Invariants *)

(** The tasks whose guard counts, and those about to notify an acquire. *)
Definition holds (p : pc) : bool := match p with AcquireClear | AcquireNotify | Held => true | _ => false end.
Definition pending (p : pc) : bool := match p with AcquireClear | AcquireNotify => true | _ => false end.
Definition stamping (p : pc) : bool := match p with DropStamp => true | _ => false end.

Definition number (f : pc -> bool) (ts : list pc) : nat := length (List.filter f ts).

Definition waiting (p : pc) : bool :=
  match p with WaitCheck | WaitPoll | WaitParked | WaitRecheck | WaitReturned => true | _ => false end.

Lemma number_insert f ts i p q :
  ts !! i = Some p ->
  (number f (<[i := q]> ts) + (if f p then 1 else 0) = number f ts + (if f q then 1 else 0))%nat.
Proof.
  revert i. unfold number. induction ts as [|t ts IH]; intros [|i] H; try done.
  - injection H as ->. change (<[0%nat := q]> (p :: ts)) with (q :: ts). cbn [List.filter].
    destruct (f p), (f q); cbn [length]; lia.
  - change (<[S i := q]> (t :: ts)) with (t :: <[i := q]> ts). specialize (IH i H). cbn [List.filter].
    destruct (f t); cbn [length]; lia.
Qed.

Lemma number_le f ts : (number f ts <= length ts)%nat.
Proof. apply filter_length_le. Qed.

Lemma number_pos f ts p : In p ts -> f p = true -> (1 <= number f ts)%nat.
Proof.
  intros H Hf. unfold number. assert (In p (List.filter f ts)) as Hin by (by apply filter_In).
  destruct (List.filter f ts); [done|]. cbn. lia.
Qed.

Lemma number_zero f ts p : number f ts = 0%nat -> In p ts -> f p = false.
Proof. intros H Hp. destruct (f p) eqn:E; [|done]. pose proof (number_pos f ts p Hp E). lia. Qed.

Lemma number_none f ts : (forall p, In p ts -> f p = false) -> number f ts = 0%nat.
Proof.
  unfold number. induction ts as [|t ts IH]; [done|]. intros H. cbn [List.filter].
  rewrite (H t) by (by left). apply IH. intros p Hp. apply H. by right.
Qed.

Lemma in_insert (ts : list pc) i q x : In x (<[i := q]> ts) -> x = q \/ In x ts.
Proof.
  rewrite <- !list_elem_of_In. intros H. apply list_elem_of_lookup in H as [k Hk].
  destruct (decide (i = k)) as [<-|Hik].
  - apply list_lookup_insert_Some in Hk. left. naive_solver.
  - rewrite list_lookup_insert_ne in Hk by done. right. by eapply list_elem_of_lookup_2.
Qed.

Lemma lookup_in (ts : list pc) i x : ts !! i = Some x -> In x ts.
Proof. intros H. apply list_elem_of_In. by eapply list_elem_of_lookup_2. Qed.

(** What every reachable state satisfies: the count is the number of guards;
    the notification of a 0-to-1 transition is due, stored, or has reached a
    lone waiter; and the end of the last hold is stamped, or about to be, unless
    the lock is held. *)
Record inv (s : State) : Prop := MkInv {
  inv_count : count (inner s) = Z.of_nat (number holds (tasks s));
  inv_length : Z.of_nat (length (tasks s)) < 2 ^ 64;
  inv_wake : (number waiting (tasks s) <= 1)%nat -> count (inner s) <> 0 -> number pending (tasks s) = 0%nat ->
    ~ In WaitParked (tasks s) /\ (In WaitPoll (tasks s) -> notify_acquire (inner s) = true);
  inv_clock : forall z, last_zero s = Some z -> z <= clock s;
  inv_stamp : forall z, last_zero s = Some z ->
    count (inner s) <> 0 \/ (1 <= number stamping (tasks s))%nat
    \/ exists t, last_release_at (inner s) = Some t /\ z <= t
}.

Lemma count_wrap n : 0 <= n < 2 ^ 64 -> wrap 64 n = n.
Proof. intros H. by apply wrap_small. Qed.

(** The numbers before and after a step of one task. *)
Ltac moves Hi q :=
  match type of Hi with
  | ?ts !! ?i = Some ?p =>
      pose proof (number_insert holds ts i p q Hi) as Nh;
      pose proof (number_insert pending ts i p q Hi) as Np;
      pose proof (number_insert stamping ts i p q Hi) as Ns;
      pose proof (number_insert waiting ts i p q Hi) as Nw;
      cbn [holds pending stamping waiting] in Nh, Np, Ns, Nw
  end.

Lemma inv_init ts now : Forall fresh ts -> Z.of_nat (length ts) < 2 ^ 64 -> inv (MkState new ts now None).
Proof.
  intros Hf Hl. constructor; cbn [inner tasks last_zero clock]; try done.
  assert (number holds ts = 0%nat) as ->; [|done].
  unfold number. induction Hf as [|p ts Hp Hf IH]; [done|]. cbn [List.filter length] in *.
  destruct Hp as [->|[->| ->]]; cbn; apply IH; cbn in Hl; lia.
Qed.

(** A lone waiter that moves leaves no other behind. *)
Lemma lone_waiter ts i p q x :
  ts !! i = Some p -> waiting p = true -> (number waiting ts <= 1)%nat ->
  In x (<[i := q]> ts) -> waiting x = true -> x = q.
Proof.
  intros Hi Hp Hn Hx Hw. apply list_elem_of_In, list_elem_of_lookup in Hx as [k Hk].
  destruct (decide (i = k)) as [<-|Hik]; [apply list_lookup_insert_Some in Hk; naive_solver|].
  rewrite list_lookup_insert_ne in Hk by done. exfalso.
  pose proof (number_insert waiting ts i p Dropped Hi) as N. rewrite Hp in N. cbn [waiting] in N.
  assert (In x (<[i := Dropped]> ts)) as Hx
    by (apply (lookup_in _ k); by rewrite list_lookup_insert_ne).
  pose proof (number_pos waiting _ x Hx Hw). lia.
Qed.

(** Waiting is undisturbed by a task that is not a waiter. *)
Lemma wake_frame ts i p q (b : bool) :
  ts !! i = Some p -> waiting p = false -> waiting q = false ->
  ~ In WaitParked ts /\ (In WaitPoll ts -> b = true) ->
  ~ In WaitParked (<[i := q]> ts) /\ (In WaitPoll (<[i := q]> ts) -> b = true).
Proof.
  intros Hi Hp Hq [H1 H2]. split.
  - intros [<-|H]%in_insert; [done|by apply H1].
  - intros [<-|H]%in_insert; [done|by apply H2].
Qed.

(** A lone waiter that goes on to neither has nothing to miss. *)
Lemma wake_alone ts i p q (b : bool) :
  ts !! i = Some p -> waiting p = true -> (number waiting ts <= 1)%nat -> q <> WaitParked -> q <> WaitPoll ->
  ~ In WaitParked (<[i := q]> ts) /\ (In WaitPoll (<[i := q]> ts) -> b = true).
Proof.
  intros Hi Hp Hn H1 H2.
  split; intros H; exfalso; [apply H1|apply H2]; symmetry; by apply (lone_waiter ts i p q).
Qed.

(** The shared fields, and the comparisons, of a step's result. *)
Ltac step_fields :=
  constructor; cbn [inner tasks clock last_zero count notify_acquire notify_release last_release_at
                    set_last store_release store_acquire];
  rewrite ?count_wrap by lia; try done; try lia.

(** The last hold's stamp, in a step that keeps it. *)
Ltac stamp_kept Hst :=
  let Hz := fresh in
  intros ? Hz; destruct (Hst _ Hz) as [?|[?|?]]; [by left|right; left; lia|by right; right].

Lemma inv_task w ts now z i p w' p' :
  inv (MkState w ts now z) -> ts !! i = Some p -> task_step w now p = Some (w', p') ->
  inv (MkState w' (<[i := p']> ts) now (match p' with DropStamp => Some now | _ => z end)).
Proof.
  intros [Hc Hl Hw Hk Hst] Hi Hs. cbn [inner tasks clock last_zero] in *.
  pose proof (number_le holds (<[i:=p']> ts)) as Hle. rewrite length_insert in Hle.
  assert (Z.of_nat (length (<[i:=p']> ts)) < 2 ^ 64) as Hl' by (by rewrite length_insert).
  pose proof (fun b => wake_frame ts i p p' b Hi) as Hf.
  pose proof (fun b => wake_alone ts i p p' b Hi) as Ha.
  pose proof (fun f => number_pos f ts p (lookup_in _ _ _ Hi)) as Hpos.
  moves Hi p'. destruct p; cbn [task_step] in Hs; try discriminate Hs;
    unfold is_idle in Hs; cbn [fetch_add fetch_sub] in Hs;
    repeat (match type of Hs with context [if ?b then _ else _] => destruct b eqn:E end);
    injection Hs as <- <-; cbn [waiting holds pending stamping] in *;
    try rewrite ?Z.eqb_eq, ?Z.eqb_neq in E.
  all: try (specialize (Hpos holds eq_refl) as Hh); try (specialize (Hpos pending eq_refl) as Hp').
  all: step_fields.
  all: try stamp_kept Hst.
  all: try (intros Hn H0 Hp; apply Hf; [done|done|]; apply Hw; lia).
  all: try (intros Hn H0 Hp; apply Ha; [done|lia|done|done]).
  - intros ? [= <-]. lia.
  - intros ? Hz. right. right. exists now. split; [done|by apply Hk].
  - intros Hn H1 Hp. exfalso. destruct (Hw ltac:(lia) H1 ltac:(lia)) as [_ H2].
    specialize (H2 (lookup_in _ _ _ Hi)). congruence.
Qed.

Lemma inv_step s s' : inv s -> step s s' -> inv s'.
Proof.
  intros Hinv Hs. destruct Hs as [w ts now z i p w' p' Hi Hp|w ts now z i j Hi Hj|w ts now z i Hi Hn|w ts now z now' Ht].
  - by eapply inv_task.
  - destruct Hinv as [Hc Hl Hw Hk Hst]. cbn [inner tasks clock last_zero] in *.
    assert (i <> j) as Hij by congruence.
    assert (<[i := Held]> ts !! j = Some WaitParked) as Hj' by (by rewrite list_lookup_insert_ne).
    pose proof (wake_alone _ j WaitParked WaitRecheck (notify_acquire w) Hj' eq_refl) as Ha.
    moves Hi Held. rename Nh into Mh, Np into Mp, Ns into Ms, Nw into Mw. moves Hj' WaitRecheck.
    constructor; cbn [inner tasks clock last_zero]; rewrite ?length_insert; try done; try lia.
    + intros Hn H0 Hp. apply Ha; [lia|done|done].
    + stamp_kept Hst.
  - destruct Hinv as [Hc Hl Hw Hk Hst]. cbn [inner tasks clock last_zero] in *. moves Hi Held.
    constructor; cbn [inner tasks clock last_zero store_acquire count notify_acquire last_release_at];
      rewrite ?length_insert; try done; try lia.
    + intros _ _ _. split; [|done]. intros [|H]%in_insert; [done|by apply Hn].
    + stamp_kept Hst.
  - destruct Hinv as [Hc Hl Hw Hk Hst]. cbn [inner tasks clock last_zero] in *.
    constructor; cbn [inner tasks clock last_zero]; try done.
    intros z0 Hz. specialize (Hk z0 Hz). lia.
Qed.

Lemma reachable_inv s : reachable s -> inv s.
Proof. induction 1; [by apply inv_init|by eapply inv_step]. Qed.

(** ** Schedules

    A schedule picks the task that moves, and at a notification the task woken. *)

#[export] Instance pc_eq_dec : EqDecision pc.
Proof. solve_decision. Defined.

Inductive event := Task (i : nat) | Wake (i j : nat) | Store (i : nat) | Tick (d : Z).

#[export] Instance event_eq_dec : EqDecision event.
Proof. solve_decision. Defined.

Definition play1 (s : State) (e : event) : option State :=
  let '(MkState w ts now z) := s in
  match e with
  | Task i =>
      p ← ts !! i; '(w', p') ← task_step w now p;
      Some (MkState w' (<[i := p']> ts) now (match p' with DropStamp => Some now | _ => z end))
  | Wake i j =>
      if decide (ts !! i = Some AcquireNotify) then
        if decide (ts !! j = Some WaitParked)
        then Some (MkState w (<[j := WaitRecheck]> (<[i := Held]> ts)) now z) else None
      else None
  | Store i =>
      if decide (ts !! i = Some AcquireNotify) then
        if decide (WaitParked ∈ ts) then None
        else Some (MkState (store_acquire w true) (<[i := Held]> ts) now z)
      else None
  | Tick d => Some (MkState w ts (now + Z.max 0 d) z)
  end.

Fixpoint play (s : State) (es : list event) : option State :=
  match es with [] => Some s | e :: es => s ← play1 s e; play s es end.

Lemma play1_step s e s' : play1 s e = Some s' -> step s s'.
Proof.
  destruct s as [w ts now z]. destruct e as [i|i j|i|d]; cbn [play1].
  - destruct (ts !! i) as [p|] eqn:Hi; [|discriminate]. cbn [mbind option_bind].
    destruct (task_step w now p) as [[w' p']|] eqn:Hp; [|discriminate]. cbn [mbind option_bind].
    intros [= <-]. by apply step_task with (p := p).
  - destruct (decide _) as [Hi|]; [|discriminate]. destruct (decide _) as [Hj|]; [|discriminate].
    intros [= <-]. by apply step_wake.
  - destruct (decide _) as [Hi|]; [|discriminate]. destruct (decide _) as [|Hn]; [discriminate|].
    intros [= <-]. apply step_store; [done|]. intros H%list_elem_of_In. by apply Hn.
  - intros [= <-]. apply step_tick. lia.
Qed.

Lemma play_steps es : forall s s', play s es = Some s' -> rtc step s s'.
Proof.
  induction es as [|e es IH]; cbn [play]; intros s s' H; [injection H as <-; apply rtc_refl|].
  destruct (play1 s e) as [s1|] eqn:E; [|discriminate]. cbn [mbind option_bind] in H.
  eapply rtc_l; [by eapply play1_step|by apply IH].
Qed.

Lemma reachable_rtc s s' : reachable s -> rtc step s s' -> reachable s'.
Proof. intros Hr Hs. induction Hs as [|s s1 s' H1 _ IH]; [done|]. apply IH. by eapply reach_step. Qed.

(** Two tasks that take the lock, one that waits for it, one that reads [idle_since]. *)
Definition cast : list pc := [AcquireAdd; AcquireAdd; WaitCheck; SinceCount].
Definition opening : State := MkState new cast 0 None.

Lemma opening_reachable es s : play opening es = Some s -> reachable s.
Proof.
  intros H. eapply reachable_rtc; [|by eapply play_steps].
  apply reach_init; [|done]. apply List.Forall_forall. unfold cast, fresh. intros p Hp. cbn in Hp. intuition auto.
Qed.

(** ** Theorems *)

(** However the tasks interleave, the count is the
    number of guards alive (a guard whose [acquire] is still at work included),
    so [is_idle] holds exactly when nobody holds the lock: no update is lost,
    the unsigned counter does not wrap, and no guard is released twice. *)
Theorem guards_counted s :
  reachable s ->
  count (inner s) = Z.of_nat (number holds (tasks s)) /\
  (is_idle (inner s) = true <-> forall p, In p (tasks s) -> holds p = false).
Proof.
  intros H%reachable_inv. destruct H as [Hc _ _ _ _]. split; [done|].
  unfold is_idle. rewrite Hc, Z.eqb_eq. split.
  - intros H p Hp. apply (number_zero holds (tasks s)); [lia|done].
  - intros H. by rewrite number_none.
Qed.

Lemma guards_counted_witness :
  exists s, reachable s /\ number holds (tasks s) = 2%nat /\ count (inner s) = 2.
Proof.
  destruct (play opening [Task 0; Task 1]) as [s|] eqn:E; [|discriminate E].
  exists s. pose proof (opening_reachable _ s E) as Hr. injection E as <-.
  split; [done|]. split; [done|]. apply (guards_counted _ Hr).
Defined.

(** One lone waiter, left to run alone: the schedule of its next steps. *)
Fixpoint alone (fuel : nat) (i : nat) (s : State) : State :=
  match fuel with
  | O => s
  | S n => match play1 s (Task i) with Some s' => alone n i s' | None => s end
  end.

Lemma alone_rtc n : forall i s, rtc step s (alone n i s).
Proof.
  induction n as [|n IH]; intros i s; [apply rtc_refl|]. cbn [alone].
  destruct (play1 s (Task i)) as [s'|] eqn:E; [|apply rtc_refl].
  eapply rtc_l; [by eapply play1_step|apply IH].
Qed.

(** The lock is held in every state a schedule passes through. *)
Fixpoint held (s : State) (es : list event) : bool :=
  negb (is_idle (inner s))
  && match es with [] => true | e :: es => match play1 s e with Some s => held s es | None => true end end.

(** The steps a schedule gives a task. *)
Definition turns (i : nat) (es : list event) : nat :=
  length (List.filter (fun e => match e with Task j => bool_decide (j = i) | _ => false end) es).

(** What a lone waiter still needs, once an acquisition is notified. *)
Definition due (p : pc) : nat := match p with WaitReturned => 0 | WaitPoll => 2 | _ => 1 end.

Definition ready (i : nat) (s : State) : Prop :=
  reachable s /\ (number waiting (tasks s) <= 1)%nat /\ number pending (tasks s) = 0%nat
  /\ exists p, tasks s !! i = Some p /\ waiting p = true /\ p <> WaitParked.

Lemma number_zero_insert f ts i p q :
  ts !! i = Some p -> number f ts = 0%nat -> f q = false -> number f (<[i := q]> ts) = 0%nat.
Proof. intros Hi H Hq. pose proof (number_insert f ts i p q Hi) as N. rewrite Hq in N. destruct (f p); lia. Qed.

Lemma task_step_kind w now p w' p' : task_step w now p = Some (w', p') -> waiting p' = waiting p.
Proof.
  destruct p; cbn; try discriminate; try (by intros [= <- <-]).
  all: repeat match goal with |- context [if ?b then _ else _] => destruct b end; by intros [= <- <-].
Qed.

Lemma task_step_pending w now p w' p' :
  is_idle w = false -> task_step w now p = Some (w', p') -> pending p = false -> pending p' = false.
Proof.
  unfold is_idle. intros Hw. destruct p; cbn [task_step fetch_add fetch_sub]; try discriminate;
    try (by intros [= <- <-]); rewrite ?Hw;
    repeat match goal with |- context [if ?b then _ else _] => destruct b end; by intros [= <- <-].
Qed.

(** A step of another task leaves a ready waiter ready where it stands. *)
Lemma ready_other i s e s' :
  ready i s -> is_idle (inner s) = false -> play1 s e = Some s' -> e <> Task i ->
  ready i s' /\ tasks s' !! i = tasks s !! i.
Proof.
  intros (Hr & Hn & Hp & p & Hi & Hw & Hk) Hh E He.
  pose proof (reach_step _ _ Hr (play1_step _ _ _ E)) as Hr'.
  destruct s as [w ts now z]. cbn [inner tasks] in *.
  enough (tasks s' !! i = Some p /\ (number waiting (tasks s') <= 1)%nat /\ number pending (tasks s') = 0%nat)
    as (H1 & H2 & H3) by (split; [split_and!; eauto|congruence]).
  destruct e as [j|j k|j|d]; cbn [play1] in E.
  - destruct (ts !! j) as [q|] eqn:Hj; [|discriminate]. cbn [mbind option_bind] in E.
    destruct (task_step w now q) as [[w' q']|] eqn:Hq; [|discriminate]. injection E as <-. cbn [tasks].
    assert (j <> i) as Hji by congruence. split_and!.
    + by rewrite list_lookup_insert_ne.
    + pose proof (number_insert waiting ts j q q' Hj) as N. rewrite (task_step_kind _ _ _ _ _ Hq) in N.
      destruct (waiting q); lia.
    + eapply number_zero_insert; [exact Hj|done|]. eapply task_step_pending; [exact Hh|exact Hq|].
      by eapply number_zero, lookup_in.
  - destruct (decide _) as [Hj|]; [|discriminate]. exfalso.
    pose proof (number_zero pending ts AcquireNotify Hp (lookup_in _ _ _ Hj)). done.
  - destruct (decide _) as [Hj|]; [|discriminate]. exfalso.
    pose proof (number_zero pending ts AcquireNotify Hp (lookup_in _ _ _ Hj)). done.
  - injection E as <-. by split_and!.
Qed.

(** Its own step brings it closer. *)
Lemma ready_turn i s s' p :
  ready i s -> is_idle (inner s) = false -> tasks s !! i = Some p -> p <> WaitReturned -> play1 s (Task i) = Some s' ->
  ready i s' /\ exists p', tasks s' !! i = Some p' /\ (due p' < due p)%nat.
Proof.
  intros (Hr & Hn & Hp & p0 & Hi & Hw & Hk) Hh Hi' Hret E. assert (p0 = p) as -> by congruence. clear Hi'.
  pose proof (reach_step _ _ Hr (play1_step _ _ _ E)) as Hr'.
  destruct (reachable_inv s Hr) as [_ _ Hwake _ _]. destruct Hwake as [_ Hpermit]; [done|by apply Z.eqb_neq|done|].
  destruct s as [w ts now z]. cbn [inner tasks] in *. assert (i < length ts)%nat as Hlen by (by eapply lookup_lt_Some).
  cbn [play1] in E. rewrite Hi in E. cbn [mbind option_bind] in E.
  destruct (task_step w now p) as [[w' p']|] eqn:Hq; [|discriminate]. injection E as <-. cbn [tasks].
  assert (p' <> WaitParked /\ (due p' < due p)%nat) as [H1 H2].
  { destruct p; try done; cbn [task_step] in Hq; rewrite ?Hh, ?(Hpermit (lookup_in _ _ _ Hi)) in Hq;
      injection Hq as <- <-; cbn [due]; split; (done || lia). }
  split.
  - split; [done|]. cbn [tasks]. split_and!.
    + pose proof (number_insert waiting ts i p p' Hi) as N. rewrite (task_step_kind _ _ _ _ _ Hq) in N.
      destruct (waiting p); lia.
    + eapply number_zero_insert; [exact Hi|done|]. eapply task_step_pending; [exact Hh|exact Hq|].
      by eapply number_zero, lookup_in.
    + exists p'. split; [by apply list_lookup_insert_eq|]. split; [|done].
      by rewrite (task_step_kind _ _ _ _ _ Hq).
  - exists p'. split; [by apply list_lookup_insert_eq|done].
Qed.

Lemma ready_returns i es : forall s s' p,
  ready i s -> tasks s !! i = Some p -> held s es = true -> play s es = Some s' -> (due p <= turns i es)%nat ->
  exists n s1, play s (take n es) = Some s1 /\ tasks s1 !! i = Some WaitReturned.
Proof.
  induction es as [|e es IH]; intros s s' p Hr Hi Hh E Ht; destruct (decide (p = WaitReturned)) as [->|Hne];
    try (by exists 0%nat, s).
  { destruct Hr as (_ & _ & _ & q & Hq & Hw & _). assert (q = p) as -> by congruence.
    exfalso. unfold turns in Ht. cbn in Ht. destruct p; cbn in *; (done || lia). }
  cbn [held play] in Hh, E. destruct (play1 s e) as [s2|] eqn:E1; [|discriminate]. cbn [mbind option_bind] in E.
  apply andb_true_iff in Hh as [Hh Hh']. apply negb_true_iff in Hh.
  enough (exists p', ready i s2 /\ tasks s2 !! i = Some p' /\ (due p' <= turns i es)%nat) as (p' & H1 & H2 & H3).
  { destruct (IH s2 s' p' H1 H2 Hh' E H3) as (n & s1 & Hp & Hret). exists (S n), s1. cbn [take play]. by rewrite E1. }
  destruct (decide (e = Task i)) as [->|He].
  - destruct (ready_turn i s s2 p Hr Hh Hi Hne E1) as (H1 & p' & H2 & H3). exists p'. split_and!; [done..|].
    unfold turns in *. cbn [List.filter] in Ht. rewrite bool_decide_eq_true_2 in Ht by done. cbn [length] in Ht. lia.
  - destruct (ready_other i s e s2 Hr Hh E1 He) as [H1 H2]. exists p. split_and!; [done|by rewrite H2|].
    unfold turns in *. cbn [List.filter] in Ht. destruct e as [j|j k|j|d]; try done.
    rewrite bool_decide_eq_false_2 in Ht by congruence. done.
Qed.

(** C12: A single task in [wait_for_acquire] does not miss an acquisition that lasts:
    in every reachable state where the lock is held and the notification of that has
    been issued, it is not parked, and it has returned by its second step of every
    schedule along which the lock stays held, whatever the other tasks do meanwhile.
    The check, the stored permit and the re-check leave no window between them. A
    hold that ends before the waiter looks again is not seen. *)
Theorem no_lost_wakeup s i p :
  reachable s -> (number waiting (tasks s) <= 1)%nat ->
  is_idle (inner s) = false -> number pending (tasks s) = 0%nat ->
  tasks s !! i = Some p -> waiting p = true ->
  p <> WaitParked
  /\ (exists n, (n <= 2)%nat /\ tasks (alone n i s) !! i = Some WaitReturned)
  /\ forall es s', play s es = Some s' -> held s es = true -> (2 <= turns i es)%nat ->
       exists n s1, play s (take n es) = Some s1 /\ tasks s1 !! i = Some WaitReturned.
Proof.
  intros Hr Hn Hi Hp Hl Hw. pose proof (reachable_inv s Hr) as [_ _ Hwake _ _].
  destruct Hwake as [H1 H2]; [done|by apply Z.eqb_neq|done|].
  pose proof (lookup_in _ _ _ Hl) as Hin. assert (p <> WaitParked) as Hk by (by intros ->).
  split; [done|]. split.
  - destruct s as [w ts now z]. cbn [inner tasks] in *.
    assert (i < length ts)%nat as Hlen by (by eapply lookup_lt_Some).
    destruct p; try done; [exists 1%nat|exists 2%nat|exists 1%nat|exists 0%nat]; (split; [lia|]); cbn [alone play1];
      rewrite ?Hl; cbn [mbind option_bind task_step]; rewrite ?Hi, ?(H2 Hin); try (by apply list_lookup_insert_eq); [|done].
    cbn [alone play1]. rewrite list_lookup_insert_eq by done. cbn [mbind option_bind task_step].
    unfold is_idle, store_acquire in *. cbn [count]. rewrite Hi.
    apply list_lookup_insert_eq. by rewrite length_insert.
  - intros es s' E Hh Ht. eapply ready_returns; [|exact Hl|exact Hh|exact E|].
    + split_and!; eauto.
    + etrans; [|exact Ht]. destruct p; cbn; lia.
Qed.

Lemma no_lost_wakeup_witness :
  exists s, reachable s /\ tasks s !! 2%nat = Some WaitPoll
    /\ (exists n, (n <= 2)%nat /\ tasks (alone n 2 s) !! 2%nat = Some WaitReturned)
    /\ exists n s1, play s (take n [Task 1; Task 2; Task 0; Task 3; Task 2]) = Some s1
         /\ tasks s1 !! 2%nat = Some WaitReturned.
Proof.
  destruct (play opening [Task 2; Task 0; Task 0; Store 0]) as [s|] eqn:E; [|discriminate E].
  exists s. pose proof (opening_reachable _ s E) as Hr. injection E as <-.
  split; [done|]. split; [done|].
  destruct (no_lost_wakeup _ 2 WaitPoll Hr) as (_ & H1 & H2); cbn; [lia|done..|].
  split; [exact H1|]. by eapply H2.
Defined.

(** A hold that begins and ends before the waiter looks again leaves it waiting. *)
Example short_hold_unseen :
  tasks <$> play opening [Task 2; Task 0; Task 0; Store 0; Task 2; Task 0; Task 0; Task 0; Task 2; Task 2; Task 2]
  = Some [Dropped; AcquireAdd; WaitParked; SinceCount].
Proof. reflexivity. Qed.

(** Whenever the lock is idle and no release is
    between its decrement and its stamp, the stored instant is that of the last
    1-to-0 transition or later, so the watchdog's grace period is counted from
    no earlier than the release. *)
Theorem idle_since_fresh s z :
  reachable s -> is_idle (inner s) = true -> number stamping (tasks s) = 0%nat -> last_zero s = Some z ->
  exists t, last_release_at (inner s) = Some t /\ z <= t.
Proof.
  intros H%reachable_inv Hi Hn Hz. destruct H as [_ _ _ _ Hst].
  apply Z.eqb_eq in Hi. destruct (Hst z Hz) as [?|[?|?]]; [done|lia|done].
Qed.

Lemma idle_since_fresh_witness :
  exists s, reachable s /\ exists t, last_release_at (inner s) = Some t /\ 5 <= t.
Proof.
  destruct (play opening [Task 0; Task 0; Store 0; Tick 5; Task 0; Tick 1; Task 0]) as [s|] eqn:E;
    [|discriminate E].
  exists s. pose proof (opening_reachable _ s E) as Hr. injection E as <-.
  split; [done|]. by apply (idle_since_fresh _ 5 Hr).
Defined.

(** Without that condition it is not: a release
    that is overtaken between its decrement and its stamp by the next
    acquisition stamps a lock that is held; when that one is released in turn,
    [idle_since] can hand out the earlier instant, any time in the past,
    although the lock was released just now. *)
Theorem idle_since_stale d :
  0 <= d ->
  exists s z t, reachable s /\ last_zero s = Some z /\ clock s = z /\ is_idle (inner s) = true
    /\ In (SinceReturned (Some t)) (tasks s) /\ z = t + d.
Proof.
  intros Hd.
  set (es := [Task 0; Task 0; Store 0; Task 0; Task 1; Task 1; Store 1; Task 0; Tick d; Task 1; Task 3; Task 3]).
  match eval vm_compute in (play opening es) with
  | Some ?s => assert (play opening es = Some s) as E by (vm_compute; reflexivity)
  end.
  pose proof (opening_reachable _ _ E) as Hr. clear E es.
  eexists _, _, 0. split; [exact Hr|]. split; [done|]. split; [done|]. split; [done|].
  split; [cbn; tauto|]. destruct d; lia.
Qed.

Lemma idle_since_stale_witness :
  exists s z t, reachable s /\ last_zero s = Some z /\ clock s = z /\ is_idle (inner s) = true
    /\ In (SinceReturned (Some t)) (tasks s) /\ z = t + 3600.
Proof. apply (idle_since_stale 3600). lia. Defined.
