(* ===== verification/BcConn.v ===== *)
(** * The control connection's demultiplexer ([src/baichuan/bc_protocol/connection/])

    One task, the poller of [bcconn.rs], owns the subscriptions of a camera
    connection and routes every message that arrives to the channel of the
    command that waits for it, or to a handler. [bcsub.rs] is the receiving
    end. A channel is its identity, a [nat]; whether its receiver has been
    dropped is decided by other tasks, so each command is handled under two
    readings of that, one at the clean-up and a later one after it. *)

From S2P Require Import Prelude Wire XorCrypto BcMsg.

(** The errors of [errors.rs] the connection raises; the source's own are
    carried through. *)
Inductive Error :=
| SimultaneousSubscription (num : option Z)
| SimultaneousSubscriptionId (id : Z)
| ConnectionShutdown
| DroppedSubscriber
| Other (message : string)
| SourceError (code : Z).

Section conn.

Abbreviation Item := (result Bc Error).

(** A handler's eventual reply to a message. *)
Definition MsgHandler := Bc -> option Bc.

Record Subscriber := MkSubscriber {
  num : gmap Z (gmap (option Z) nat);
  id : gmap Z MsgHandler
}.

Inductive PollCommand :=
| BcCommand (r : Item)
| AddHandler (id : Z) (h : MsgHandler)
| RemoveHandler (id : Z)
| AddSubscriber (id : Z) (num : option Z) (tx : nat)
| Disconnect.

(** What handling one command does: the subscriptions after it, the messages
    sent to channels in order, the handlers started, and the error that ends
    the poller. *)
Record Handled := MkHandled {
  after : Subscriber;
  sends : list (nat * Item);
  spawned : list (MsgHandler * Bc);
  ended : option Error
}.

(** ** The poller *)

(** The two [retain]s before each command. *)
Definition clean_up (closed : nat -> bool) (m : gmap Z (gmap (option Z) nat)) : gmap Z (gmap (option Z) nat) :=
  omap (fun channels =>
    let channels := filter (fun kc => closed (snd kc) = false) channels in
    if decide (channels = ∅) then None else Some channels) m.

(** The channel of a message with number [n], and the inner map left. *)
Definition find_sender (closed : nat -> bool) (occ : gmap (option Z) nat) (n : Z)
    : option nat * gmap (option Z) nat :=
  match (c ← occ !! Some n; if closed c then None else Some c) with
  | Some c => (Some c, occ)
  | None =>
      match occ !! None with
      | Some c => (Some c, <[Some n := c]> (delete None occ))
      | None =>
          match occ !! Some n with
          | Some c => if closed c then (None, delete (Some n) occ) else (None, occ)
          | None => (None, occ)
          end
      end
  end.

(** The keys of a map in the order of a [BTreeMap]. *)
Definition key_le (a b : option Z) : Prop :=
  match a, b with None, _ => True | Some _, None => False | Some x, Some y => x <= y end.

#[export] Instance key_le_dec a b : Decision (key_le a b).
Proof. destruct a, b; cbn; solve_decision. Defined.

(** Every subscription, in the order the two loops over [values] visit them. *)
Definition entries (m : gmap Z (gmap (option Z) nat)) : list (Z * option Z * nat) :=
  merge_sort Z.le (base.elements (dom m)) ≫= fun i =>
    match m !! i with
    | Some channels =>
        merge_sort key_le (base.elements (dom channels)) ≫= fun k =>
          match channels !! k with Some c => [(i, k, c)] | None => [] end
    | None => []
    end.

Definition handle_command (closed1 closed2 : nat -> bool) (command : PollCommand) (s : Subscriber) : Handled :=
  let subs := clean_up closed1 (num s) in
  match command with
  | BcCommand (Ok response) =>
      let i := msg_id (meta response) in
      let n := msg_num (meta response) in
      match id s !! i, subs !! i with
      | Some occ, _ => MkHandled (MkSubscriber subs (id s)) [] [(occ, response)] None
      | None, Some occ =>
          let '(sender, occ) := find_sender closed2 occ n in
          MkHandled (MkSubscriber (<[i := occ]> subs) (id s))
            (match sender with Some c => [(c, Ok response)] | None => [] end) [] None
      | None, None => MkHandled (MkSubscriber subs (id s)) [] [] None
      end
  | BcCommand (Err e) =>
      MkHandled (MkSubscriber ∅ ∅) (map (fun x => (snd x, Err e)) (entries subs)) [] (Some e)
  | AddHandler i h =>
      match id s !! i with
      | None => MkHandled (MkSubscriber subs (<[i := h]> (id s))) [] [] None
      | Some _ => MkHandled (MkSubscriber subs (id s)) [] [] (Some (SimultaneousSubscriptionId i))
      end
  | RemoveHandler i => MkHandled (MkSubscriber subs (delete i (id s))) [] [] None
  | AddSubscriber i n tx =>
      let channels := default ∅ (subs !! i) in
      match channels !! n with
      | None => MkHandled (MkSubscriber (<[i := <[n := tx]> channels]> subs) (id s)) [] [] None
      | Some c =>
          if closed2 c then MkHandled (MkSubscriber (<[i := <[n := tx]> channels]> subs) (id s)) [] [] None
          else MkHandled (MkSubscriber (<[i := channels]> subs) (id s)) [(tx, Err (SimultaneousSubscription n))] []
                 None
      end
  | Disconnect => MkHandled (MkSubscriber subs (id s)) [] [] (Some ConnectionShutdown)
  end.

(** A command with the two readings it is handled under. *)
Record Event := MkEvent { closed1 : nat -> bool; closed2 : nat -> bool; command : PollCommand }.

(** [Poller::run]: commands until one ends it. *)
Fixpoint run (evs : list Event) (s : Subscriber) : Handled :=
  match evs with
  | [] => MkHandled s [] [] None
  | ev :: evs =>
      let h := handle_command (closed1 ev) (closed2 ev) (command ev) s in
      match ended h with
      | Some _ => h
      | None =>
          let r := run evs (after h) in
          MkHandled (after r) (sends h ++ sends r) (spawned h ++ spawned r) (ended r)
      end
  end.

Definition Subscriber_default : Subscriber := MkSubscriber ∅ ∅.

(** The task of a handler: the reply that goes out, if any. *)
Definition handler_task (h : MsgHandler) (response : Bc) : option Bc :=
  reply ← h response;
  if msg_num (meta reply) =? msg_num (meta response) then Some reply else None.

(** ** The receiving end *)

Record BcSubscription := MkBcSubscription { sub_num : option Z }.

(** [recv]: [None] is the end of the channel. *)
Definition recv (s : BcSubscription) (next : option Item) : Item * BcSubscription :=
  match next with
  | None => (Err DroppedSubscriber, s)
  | Some (Err e) => (Err e, s)
  | Some (Ok bc) =>
      match sub_num s with
      | Some n =>
          if negb (msg_num (meta bc) =? n) then (Err (Other "BcSub::recv msg_num mismatch"), s) else (Ok bc, s)
      | None => (Ok bc, MkBcSubscription (Some (msg_num (meta bc))))
      end
  end.

(** [send]: the message as handed to the sink's task. *)
Definition send (s : BcSubscription) (bc : Bc) : result Bc Error :=
  match sub_num s with
  | Some n => if negb (msg_num (meta bc) =? n) then Err (Other "BcSub::send msg_num mismatch") else Ok bc
  | None => Ok bc
  end.

(** What a caller sees that calls [recv] over and over. *)
Fixpoint recv_all (s : BcSubscription) (items : list Item) : list Item :=
  match items with
  | [] => []
  | it :: items => let '(r, s) := recv s (Some it) in r :: recv_all s items
  end.

(** ** The contract

    What the connection promises, without nested maps or clean-up: a flat table
    from a key, the message id and a number or none, to the channel subscribed
    under it, in which a closed channel counts as absent. *)

Record Spec := MkSpec { s_subs : gmap (Z * option Z) nat; s_handlers : gmap Z MsgHandler }.

Definition live (closed : nat -> bool) (o : option nat) : option nat :=
  c ← o; if closed c then None else Some c.

Record SpecHandled := MkSpecHandled {
  s_after : Spec;
  s_sends : list (nat * Item);
  s_spawned : list (MsgHandler * Bc);
  s_ended : option Error
}.

Definition spec_command (closed : nat -> bool) (command : PollCommand) (s : Spec) : SpecHandled :=
  let '(MkSpec subs handlers) := s in
  match command with
  | BcCommand (Ok response) =>
      let i := msg_id (meta response) in
      let n := msg_num (meta response) in
      match handlers !! i with
      | Some h => MkSpecHandled s [] [(h, response)] None
      | None =>
          match live closed (subs !! (i, Some n)) with
          | Some c => MkSpecHandled s [(c, Ok response)] [] None
          | None =>
              match live closed (subs !! (i, None)) with
              | Some c =>
                  MkSpecHandled (MkSpec (<[(i, Some n) := c]> (delete (i, None) subs)) handlers)
                    [(c, Ok response)] [] None
              | None => MkSpecHandled s [] [] None
              end
          end
      end
  | BcCommand (Err e) =>
      MkSpecHandled (MkSpec ∅ ∅) (map (fun x => (snd x, Err e)) (map_to_list subs)) [] (Some e)
  | AddHandler i h =>
      match handlers !! i with
      | None => MkSpecHandled (MkSpec subs (<[i := h]> handlers)) [] [] None
      | Some _ => MkSpecHandled s [] [] (Some (SimultaneousSubscriptionId i))
      end
  | RemoveHandler i => MkSpecHandled (MkSpec subs (delete i handlers)) [] [] None
  | AddSubscriber i n tx =>
      match live closed (subs !! (i, n)) with
      | None => MkSpecHandled (MkSpec (<[(i, n) := tx]> subs) handlers) [] [] None
      | Some _ => MkSpecHandled s [(tx, Err (SimultaneousSubscription n))] [] None
      end
  | Disconnect => MkSpecHandled s [] [] (Some ConnectionShutdown)
  end.

Fixpoint spec_run (evs : list Event) (s : Spec) : SpecHandled :=
  match evs with
  | [] => MkSpecHandled s [] [] None
  | ev :: evs =>
      let h := spec_command (closed2 ev) (command ev) s in
      match s_ended h with
      | Some _ => h
      | None =>
          let r := spec_run evs (s_after h) in
          MkSpecHandled (s_after r) (s_sends h ++ s_sends r) (s_spawned h ++ s_spawned r) (s_ended r)
      end
  end.

(** What one channel is sent, in order. *)
Definition sends_to (c : nat) (l : list (nat * Item)) : list Item :=
  omap (fun x => if decide (fst x = c) then Some (snd x) else None) l.

(** Receivers, once dropped, stay dropped. *)
Definition closes (a b : nat -> bool) : Prop := forall c, a c = true -> b c = true.

Fixpoint grows (closed : nat -> bool) (evs : list Event) : Prop :=
  match evs with
  | [] => True
  | ev :: evs => closes closed (closed1 ev) /\ closes (closed1 ev) (closed2 ev) /\ grows (closed2 ev) evs
  end.

(** The channel subscribed under a key in the nested maps. *)
Definition lookup2 (m : gmap Z (gmap (option Z) nat)) (k : Z * option Z) : option nat :=
  channels ← m !! fst k; channels !! snd k.

(** The nested maps and the table agree on the channels still open. *)
Definition implements (closed : nat -> bool) (s : Subscriber) (t : Spec) : Prop :=
  id s = s_handlers t /\ forall k, live closed (lookup2 (num s) k) = live closed (s_subs t !! k).

(** *** Facts about the tables *)

Lemma live_mono a b o o' : closes a b -> live a o = live a o' -> live b o = live b o'.
Proof.
  intros Hab. unfold live. destruct o as [c|], o' as [d|]; cbn [mbind option_bind]; try done.
  - destruct (a c) eqn:Hc, (a d) eqn:Hd; try done; [|by intros [= ->]].
    by rewrite (Hab c Hc), (Hab d Hd).
  - destruct (a c) eqn:Hc; [|done]. by rewrite (Hab c Hc).
  - destruct (a d) eqn:Hd; [|done]. by rewrite (Hab d Hd).
Qed.

Lemma implements_mono a b s t : closes a b -> implements a s t -> implements b s t.
Proof. intros Hab [Hi Hk]. split; [done|]. intros k. by apply (live_mono a). Qed.

Lemma lookup2_insert m i channels k :
  lookup2 (<[i := channels]> m) k = if decide (fst k = i) then channels !! snd k else lookup2 m k.
Proof.
  unfold lookup2. destruct (decide (fst k = i)) as [->|H]; [by rewrite lookup_insert_eq|].
  by rewrite lookup_insert_ne.
Qed.

Lemma lookup2_clean_up closed m k : lookup2 (clean_up closed m) k = live closed (lookup2 m k).
Proof.
  unfold lookup2, clean_up, live. rewrite lookup_omap. destruct (m !! fst k) as [channels|]; [|done].
  cbn [mbind option_bind]. set (kept := filter _ channels).
  assert (kept !! snd k = (c ← channels !! snd k; if closed c then None else Some c)) as E.
  { unfold kept. rewrite map_lookup_filter. destruct (channels !! snd k) as [c|]; [|done].
    simpl. case_guard as H; simpl in H; by destruct (closed c). }
  destruct (decide (kept = ∅)) as [H|H]; cbn [mbind option_bind]; rewrite <- E; [|done].
  by rewrite H, lookup_empty.
Qed.

Lemma live_live a b o : closes a b -> live b (live a o) = live b o.
Proof.
  intros Hab. unfold live. destruct o as [c|]; [|done]. cbn [mbind option_bind].
  destruct (a c) eqn:E; cbn [mbind option_bind]; [by rewrite (Hab c E)|done].
Qed.

Lemma sends_to_app c l l' : sends_to c (l ++ l') = sends_to c l ++ sends_to c l'.
Proof. apply omap_app. Qed.

Lemma sends_to_one c d (it : Item) : sends_to c [(d, it)] = if decide (d = c) then [it] else [].
Proof. unfold sends_to. cbn. by destruct (decide (d = c)). Qed.

Lemma sends_to_cons c d (it : Item) l :
  sends_to c ((d, it) :: l) = (if decide (d = c) then [it] else []) ++ sends_to c l.
Proof. unfold sends_to. cbn. by destruct (decide (d = c)). Qed.

Lemma sends_to_const {K} c (f : K -> nat) (it : Item) (l : list K) :
  sends_to c (map (fun x => (f x, it)) l) = replicate (length (filter (fun x => f x = c) l)) it.
Proof.
  induction l as [|x l IH]; [done|]. cbn [map]. unfold sends_to in *. cbn [omap list_omap fst snd].
  rewrite filter_cons. destruct (decide (f x = c)); cbn [length replicate]; by rewrite IH.
Qed.

Lemma elem_of_entries m i k c : (i, k, c) ∈ entries m <-> lookup2 m (i, k) = Some c.
Proof.
  unfold entries, lookup2. rewrite list_elem_of_bind. cbn [fst snd]. split.
  - intros (j & H & _). destruct (m !! j) as [channels|] eqn:Ej; [|by apply not_elem_of_nil in H].
    apply list_elem_of_bind in H as (l & H & _). destruct (channels !! l) as [d|] eqn:El;
      [|by apply not_elem_of_nil in H].
    apply list_elem_of_singleton in H as [= -> -> ->]. by rewrite Ej.
  - destruct (m !! i) as [channels|] eqn:Ei; [|done]. cbn [mbind option_bind]. intros Hk.
    exists i. rewrite Ei. split.
    + apply list_elem_of_bind. exists k. rewrite Hk. split; [by apply list_elem_of_singleton|].
      rewrite merge_sort_Permutation. apply elem_of_elements, elem_of_dom. eauto.
    + rewrite merge_sort_Permutation. apply elem_of_elements, elem_of_dom. eauto.
Qed.

Lemma NoDup_entries m : NoDup (entries m).
Proof.
  unfold entries. apply NoDup_bind.
  - intros i j [[l k] c] _ _ Hi Hj.
    destruct (m !! i) as [ci|]; [|by apply not_elem_of_nil in Hi].
    destruct (m !! j) as [cj|]; [|by apply not_elem_of_nil in Hj].
    apply list_elem_of_bind in Hi as (ki & Hi & _). apply list_elem_of_bind in Hj as (kj & Hj & _).
    destruct (ci !! ki); [|by apply not_elem_of_nil in Hi]. destruct (cj !! kj); [|by apply not_elem_of_nil in Hj].
    apply list_elem_of_singleton in Hi as [= -> _ _]. by apply list_elem_of_singleton in Hj as [= -> _ _].
  - intros i _. destruct (m !! i) as [channels|]; [|constructor]. apply NoDup_bind.
    + intros k1 k2 x _ _ H1 H2. destruct (channels !! k1); [|by apply not_elem_of_nil in H1].
      destruct (channels !! k2); [|by apply not_elem_of_nil in H2].
      apply list_elem_of_singleton in H1 as ->. by apply list_elem_of_singleton in H2 as [= -> _].
    + intros k _. destruct (channels !! k); [apply NoDup_singleton|constructor].
    + rewrite merge_sort_Permutation. apply NoDup_elements.
  - rewrite merge_sort_Permutation. apply NoDup_elements.
Qed.

(** *** The nested maps implement the table *)

Lemma find_sender_some closed occ n c :
  live closed (occ !! Some n) = Some c -> find_sender closed occ n = (Some c, occ).
Proof. unfold find_sender, live. by intros ->. Qed.

Lemma find_sender_upgrade closed occ n c :
  live closed (occ !! Some n) = None -> live closed (occ !! None) = Some c ->
  find_sender closed occ n = (Some c, <[Some n := c]> (delete None occ)).
Proof.
  unfold find_sender, live. intros ->. destruct (occ !! None) as [d|]; [|done].
  cbn [mbind option_bind]. destruct (closed d); [done|]. by intros [= ->].
Qed.

Lemma find_sender_none closed occ n :
  live closed (occ !! Some n) = None -> live closed (occ !! None) = None ->
  let '(sender, occ') := find_sender closed occ n in
  live closed sender = None /\ forall k, live closed (occ' !! k) = live closed (occ !! k).
Proof.
  unfold find_sender. intros Hs Hn. pose proof Hs as Hs'. unfold live at 1 in Hs'. rewrite Hs'. clear Hs'.
  destruct (occ !! None) as [d|] eqn:Ed.
  - assert (closed d = true) as Hd.
    { unfold live in Hn. cbn in Hn. by destruct (closed d). }
    split; [done|]. intros k. destruct (decide (k = Some n)) as [->|Hk].
    + rewrite lookup_insert_eq, Hs. unfold live. cbn [mbind option_bind]. by rewrite Hd.
    + rewrite lookup_insert_ne by done. destruct k as [k|]; [by rewrite lookup_delete_ne|].
      by rewrite lookup_delete_eq, Ed, Hn.
  - destruct (occ !! Some n) as [c|] eqn:Ec; [|done]. unfold live in Hs. cbn [mbind option_bind] in Hs.
    destruct (closed c) eqn:Hc; [|done]. split; [done|]. intros k.
    destruct (decide (k = Some n)) as [->|Hk]; [|by rewrite lookup_delete_ne].
    rewrite lookup_delete_eq, Ec. unfold live. cbn [mbind option_bind]. by rewrite Hc.
Qed.

Lemma implements_insert closed s t i k c :
  implements closed s t ->
  implements closed (MkSubscriber (<[i := <[k := c]> (default ∅ (num s !! i))]> (num s)) (id s))
    (MkSpec (<[(i, k) := c]> (s_subs t)) (s_handlers t)).
Proof.
  intros [Hi Hk]. split; [done|]. intros [j l]. cbn [num s_subs]. rewrite lookup2_insert. cbn [fst snd].
  destruct (decide (j = i)) as [->|Hj].
  - destruct (decide (l = k)) as [->|Hl]; [by rewrite !lookup_insert_eq|].
    rewrite !lookup_insert_ne by congruence. rewrite <- Hk. unfold lookup2. cbn [fst snd].
    destruct (num s !! i); [done|]. cbn [default]. by rewrite lookup_empty.
  - rewrite lookup_insert_ne by congruence. apply Hk.
Qed.

Lemma implements_clean_up a b s t :
  closes a b -> implements b s t -> implements b (MkSubscriber (clean_up a (num s)) (id s)) t.
Proof.
  intros Hab [Hi Hk]. split; [done|]. intros k. cbn [num]. rewrite lookup2_clean_up, live_live by done. apply Hk.
Qed.

(** A sender that goes nowhere open is sent nothing anyone can see. *)
Lemma sends_to_closed closed sender c (it : Item) :
  live closed sender = None -> closed c = false ->
  sends_to c (match sender with Some d => [(d, it)] | None => [] end) = [].
Proof.
  intros H Hc. destruct sender as [d|]; [|done]. rewrite sends_to_one.
  destruct (decide (d = c)) as [->|]; [|done]. unfold live in H. cbn in H. by rewrite Hc in H.
Qed.

(** As many subscriptions of an open channel in the one as in the other. *)
Lemma entries_count closed s t c :
  implements closed s t -> closed c = false ->
  length (filter (fun x : Z * option Z * nat => snd x = c) (entries (num s)))
  = length (filter (fun x : Z * option Z * nat => snd x = c) (map_to_list (s_subs t))).
Proof.
  intros [_ Hk] Hc. apply Permutation_length, NoDup_Permutation.
  - apply list.NoDup_filter, NoDup_entries.
  - apply list.NoDup_filter, NoDup_map_to_list.
  - intros [[i k] d]. rewrite !list_elem_of_filter. cbn [snd]. rewrite elem_of_entries, elem_of_map_to_list.
    specialize (Hk (i, k)). unfold live in Hk. split; intros [-> H]; (split; [done|]); rewrite H in Hk.
    + cbn [mbind option_bind] in Hk. rewrite Hc in Hk. destruct (s_subs t !! (i, k)) as [e|]; [|done].
      cbn [mbind option_bind] in Hk. destruct (closed e); [done|]. by injection Hk as ->.
    + cbn [mbind option_bind] in Hk. rewrite Hc in Hk. destruct (lookup2 (num s) (i, k)) as [e|]; [|done].
      cbn [mbind option_bind] in Hk. destruct (closed e); [done|]. by injection Hk as ->.
Qed.

(** One command does what the contract says, to every channel that is open. *)
Lemma handle_refines ev s t :
  closes (closed1 ev) (closed2 ev) -> implements (closed2 ev) s t ->
  let h := handle_command (closed1 ev) (closed2 ev) (command ev) s in
  let h' := spec_command (closed2 ev) (command ev) t in
  ended h = s_ended h' /\ spawned h = s_spawned h'
  /\ (forall c, closed2 ev c = false -> sends_to c (sends h) = sends_to c (s_sends h'))
  /\ (ended h = None -> implements (closed2 ev) (after h) (s_after h')).
Proof.
  destruct ev as [a b cmd]. cbn [closed1 closed2 command].
  intros Hcl Him. pose proof (implements_clean_up a b s t Hcl Him) as Hcu.
  set (s1 := MkSubscriber (clean_up a (num s)) (id s)) in *.
  assert (id s = s_handlers t) as Hid by apply Him. destruct t as [subs handlers]. cbn [s_handlers] in Hid.
  assert (forall i channels, num s1 !! i = Some channels ->
    forall k, live b (channels !! k) = live b (subs !! (i, k))) as Hocc.
  { intros i channels Hi k. destruct Hcu as [_ Hk]. specialize (Hk (i, k)). unfold lookup2 in Hk.
    cbn [fst snd s_subs] in Hk. by rewrite Hi in Hk. }
  destruct cmd as [[response|e]|i h|i|i n tx|]; cbn [handle_command spec_command]; subst handlers.
  - set (i := msg_id (meta response)). set (n := msg_num (meta response)).
    destruct (id s !! i) as [h|]; [done|].
    change (clean_up a (num s)) with (num s1).
    destruct (num s1 !! i) as [occ|] eqn:Ei.
    + specialize (Hocc i occ Ei). destruct (live b (subs !! (i, Some n))) as [c|] eqn:E1.
      * rewrite (find_sender_some b occ n c) by by rewrite Hocc. split; [done|]. split; [done|].
        split; [done|]. intros _. cbn [after s_after]. by rewrite insert_id.
      * destruct (live b (subs !! (i, None))) as [c|] eqn:E2.
        -- rewrite (find_sender_upgrade b occ n c) by by rewrite Hocc. split; [done|]. split; [done|].
           split; [done|]. intros _. cbn [after s_after]. split; [done|]. intros [j l]. cbn [num s_subs].
           rewrite lookup2_insert. cbn [fst snd]. destruct (decide (j = i)) as [->|Hj].
           ++ destruct (decide (l = Some n)) as [->|Hl]; [by rewrite !lookup_insert_eq|].
              rewrite !lookup_insert_ne by congruence. destruct l as [l|].
              ** rewrite !lookup_delete_ne by congruence. apply Hocc.
              ** by rewrite !lookup_delete_eq.
           ++ rewrite lookup_insert_ne, lookup_delete_ne by congruence. apply Hcu.
        -- pose proof (find_sender_none b occ n ltac:(by rewrite Hocc) ltac:(by rewrite Hocc)) as H.
           destruct (find_sender b occ n) as [sender occ']. destruct H as [Hs Hk].
           split; [done|]. split; [done|]. cbn [sends s_sends after s_after]. split.
           ++ intros c Hc. by apply (sends_to_closed b).
           ++ intros _. split; [done|]. intros [j l]. cbn [num s_subs]. rewrite lookup2_insert. cbn [fst snd].
              destruct (decide (j = i)) as [->|Hj]; [by rewrite Hk|]. apply Hcu.
    + assert (forall k, live b (subs !! (i, k)) = None) as Hnone.
      { intros k. destruct Hcu as [_ Hk]. specialize (Hk (i, k)). unfold lookup2 in Hk. cbn [fst snd s_subs] in Hk.
        by rewrite Ei in Hk. }
      by rewrite !Hnone.
  - split; [done|]. split; [done|]. split; [|done]. intros c Hc. cbn [sends s_sends].
    rewrite !sends_to_const. f_equal. by apply (entries_count b s1 (MkSpec subs (id s))).
  - destruct (id s !! i); [done|]. split; [done|]. split; [done|]. split; [done|]. intros _.
    split; [done|]. apply Hcu.
  - split; [done|]. split; [done|]. split; [done|]. intros _. split; [done|]. apply Hcu.
  - change (clean_up a (num s)) with (num s1). set (channels := default ∅ (num s1 !! i)).
    assert (live b (channels !! n) = live b (subs !! (i, n))) as Hn.
    { unfold channels. destruct (num s1 !! i) as [occ|] eqn:Ei; cbn [default]; [by apply Hocc|].
      rewrite lookup_empty. destruct Hcu as [_ Hk]. specialize (Hk (i, n)). unfold lookup2 in Hk.
      cbn [fst snd s_subs] in Hk. by rewrite Ei in Hk. }
    rewrite <- Hn. pose proof (implements_insert b s1 (MkSpec subs (id s)) i n tx Hcu) as Hins.
    destruct (channels !! n) as [c|] eqn:Ec; cbn [live mbind option_bind]; [|done].
    destruct (b c); [done|]. split; [done|]. split; [done|]. split; [done|]. intros _.
    cbn [after s_after]. unfold channels in *. destruct (num s1 !! i) as [occ|] eqn:Ei; cbn [default] in *;
      [by rewrite insert_id|done].
  - done.
Qed.

(** ** Runs *)

Lemma poll_run_app evs evs' s :
  ended (run evs s) = None ->
  run (evs ++ evs') s
  = let r := run evs s in let r' := run evs' (after r) in
    MkHandled (after r') (sends r ++ sends r') (spawned r ++ spawned r') (ended r').
Proof.
  revert s. induction evs as [|ev evs IH]; intros s H; cbn [app run].
  - cbn. by destruct (run evs' s).
  - cbn [run] in H. set (h := handle_command _ _ _ s) in *. destruct (ended h) eqn:Eh; [congruence|].
    cbn [ended] in H. rewrite IH by done. cbn. by rewrite !app_assoc.
Qed.

Lemma run_refines evs evs' closed s t :
  implements closed s t -> grows closed (evs ++ evs') ->
  ended (run evs s) = s_ended (spec_run evs t) /\ spawned (run evs s) = s_spawned (spec_run evs t)
  /\ (forall c, Forall (fun ev => closed2 ev c = false) evs ->
        sends_to c (sends (run evs s)) = sends_to c (s_sends (spec_run evs t)))
  /\ (ended (run evs s) = None -> exists closed',
        implements closed' (after (run evs s)) (s_after (spec_run evs t)) /\ grows closed' evs').
Proof.
  revert closed s t. induction evs as [|ev evs IH]; intros closed s t Him Hg.
  { split; [done|]. split; [done|]. split; [done|]. intros _. by exists closed. }
  cbn [app grows] in Hg. destruct Hg as (H1 & H2 & Hg).
  assert (implements (closed2 ev) s t) as Him'.
  { apply (implements_mono closed); [|done]. intros c Hc. by apply H2, H1. }
  destruct (handle_refines ev s t H2 Him') as (He & Hsp & Hse & Ha). cbn [run spec_run].
  set (h := handle_command _ _ _ s) in *. set (h' := spec_command _ _ t) in *. rewrite <- He.
  destruct (ended h) as [e|] eqn:Ee.
  { rewrite <- He. split; [done|]. split; [done|]. split; [|by rewrite Ee].
    intros c Hc. apply Hse. by inversion Hc. }
  destruct (IH (closed2 ev) (after h) (s_after h') (Ha eq_refl) Hg) as (Ie & Isp & Ise & Ia).
  cbn [ended spawned sends after s_ended s_spawned s_sends s_after].
  split; [done|]. split; [by rewrite Hsp, Isp|]. split; [|done].
  intros c Hc. inversion Hc as [|? ? Hc1 Hc2]; subst. by rewrite !sends_to_app, Hse, Ise.
Qed.

Definition Spec_default : Spec := MkSpec ∅ ∅.

Lemma default_implements closed : implements closed Subscriber_default Spec_default.
Proof. split; [done|]. intros k. unfold lookup2. cbn. by rewrite !lookup_empty. Qed.

(** ** One subscriber's stream

    What a subscriber of number [n] under message id [i] is sent from its
    subscription on: every message with that id and number, in order, unless a
    handler of the id takes it; then the error that ends the connection. *)
Fixpoint expect (i n : Z) (handled : gset Z) (evs : list Event) : list Item :=
  match evs with
  | [] => []
  | ev :: evs =>
      match command ev with
      | BcCommand (Ok bc) =>
          if decide (msg_id (meta bc) = i /\ msg_num (meta bc) = n /\ i ∉ handled)
          then Ok bc :: expect i n handled evs else expect i n handled evs
      | BcCommand (Err e) => [Err e]
      | AddHandler j _ => if decide (j ∈ handled) then [] else expect i n ({[j]} ∪ handled) evs
      | RemoveHandler j => expect i n (handled ∖ {[j]}) evs
      | AddSubscriber _ _ _ => expect i n handled evs
      | Disconnect => []
      end
  end.

(** No other subscription uses the channel, and its receiver is not dropped. *)
Definition others (c : nat) (evs : list Event) : Prop :=
  Forall (fun ev => match command ev with AddSubscriber _ _ tx => tx <> c | _ => True end) evs.

Definition stays_open (c : nat) (evs : list Event) : Prop := Forall (fun ev => closed2 ev c = false) evs.

(** In the table, [c] is subscribed under the key and no other. *)
Definition only (t : Spec) (c : nat) (k : Z * option Z) : Prop :=
  s_subs t !! k = Some c /\ forall k', s_subs t !! k' = Some c -> k' = k.

Lemma live_open closed (c : nat) : closed c = false -> live closed (Some c) = Some c.
Proof. intros H. unfold live. cbn. by rewrite H. Qed.

Lemma live_some closed o c : live closed o = Some c -> o = Some c.
Proof. unfold live. destruct o as [d|]; cbn; [|done]. by destruct (closed d). Qed.

Lemma only_count t c k :
  only t c k -> filter (fun x : Z * option Z * nat => snd x = c) (map_to_list (s_subs t)) ≡ₚ [(k, c)].
Proof.
  intros [Hk Hu]. apply NoDup_Permutation.
  - apply list.NoDup_filter, NoDup_map_to_list.
  - apply NoDup_singleton.
  - intros [k' d]. rewrite list_elem_of_filter, elem_of_map_to_list, list_elem_of_singleton. cbn [snd].
    split; [intros [-> H]; by rewrite (Hu k' H)|by intros [= -> ->]].
Qed.

Lemma spec_stream i n c evs t :
  only t c (i, Some n) -> stays_open c evs -> others c evs ->
  sends_to c (s_sends (spec_run evs t)) = expect i n (dom (s_handlers t)) evs.
Proof.
  revert t. induction evs as [|ev evs IH]; intros t Ho Hop Hot; [done|].
  inversion Hop as [|? ? Hop1 Hop2]; subst. inversion Hot as [|? ? Hot1 Hot2]; subst.
  cbn [spec_run expect]. destruct t as [subs handlers]. pose proof Ho as [Hk Hu]. cbn [s_subs s_handlers] in *.
  destruct (command ev) as [[bc|e]|j h|j|j m tx|]; cbn [spec_command].
  - set (j := msg_id (meta bc)). set (m := msg_num (meta bc)).
    destruct (handlers !! j) as [h|] eqn:Ej; cbn [s_ended s_sends s_after app].
    { rewrite decide_False; [by apply IH|]. intros (E & _ & H). apply H. rewrite <- E. apply elem_of_dom. by exists h. }
    assert (j ∉ dom handlers) as Hnj by by apply not_elem_of_dom.
    destruct (live (closed2 ev) (subs !! (j, Some m))) as [d|] eqn:E1.
    { cbn [s_ended s_sends s_after app]. rewrite sends_to_cons, IH by done. apply live_some in E1.
      destruct (decide (d = c)) as [->|Hd].
      - apply Hu in E1 as [= <- <-]. by rewrite decide_True.
      - rewrite decide_False; [done|]. intros (E & E' & _). congruence. }
    assert (~ (j = i /\ m = n)) as Hne.
    { intros [E E']. rewrite E, E', Hk, live_open in E1; done. }
    rewrite (decide_False (P := _ /\ _)) by tauto.
    destruct (live (closed2 ev) (subs !! (j, None))) as [d|] eqn:E2; cbn [s_ended s_sends s_after app]; [|by apply IH].
    apply live_some in E2. assert (d <> c) as Hd by (intros ->; apply Hu in E2; congruence).
    rewrite sends_to_cons, decide_False by done. apply IH; [|done|done]. split; cbn [s_subs].
    + rewrite lookup_insert_ne by (intros [= E E']; by apply Hne). by rewrite lookup_delete_ne.
    + intros k' Hk'. destruct (decide (k' = (j, Some m))) as [->|Hkm]; [by rewrite lookup_insert_eq in Hk'; congruence|].
      rewrite lookup_insert_ne in Hk' by done. destruct (decide (k' = (j, None))) as [->|Hkn];
        [by rewrite lookup_delete_eq in Hk'|]. rewrite lookup_delete_ne in Hk' by done. by apply Hu.
  - cbn [s_ended s_sends]. by rewrite sends_to_const, (only_count _ _ _ Ho).
  - destruct (handlers !! j) as [h'|] eqn:Ej; cbn [s_ended s_sends s_after app].
    + rewrite decide_True; [done|]. apply elem_of_dom. by exists h'.
    + rewrite decide_False by by apply not_elem_of_dom. rewrite IH; [|done|done|done]. cbn [s_handlers].
      by rewrite dom_insert_L.
  - cbn [s_ended s_sends s_after app]. rewrite IH; [|done|done|done]. cbn [s_handlers]. by rewrite dom_delete_L.
  - destruct (live (closed2 ev) (subs !! (j, m))) as [d|] eqn:E1; cbn [s_ended s_sends s_after app].
    + rewrite sends_to_cons, decide_False by done. by apply IH.
    + apply IH; [|done|done]. split; cbn [s_subs].
      * rewrite lookup_insert_ne; [done|]. intros E. rewrite E, Hk, live_open in E1; done.
      * intros k' Hk'. destruct (decide (k' = (j, m))) as [->|Hkm]; [by rewrite lookup_insert_eq in Hk'; congruence|].
        rewrite lookup_insert_ne in Hk' by done. by apply Hu.
  - done.
Qed.

Lemma spec_run_app evs evs' t :
  s_ended (spec_run evs t) = None ->
  s_sends (spec_run (evs ++ evs') t) = s_sends (spec_run evs t) ++ s_sends (spec_run evs' (s_after (spec_run evs t))).
Proof.
  revert t. induction evs as [|ev evs IH]; intros t H; cbn [app spec_run]; [done|].
  cbn [spec_run] in H. set (h := spec_command _ _ t) in *. destruct (s_ended h) eqn:Eh; [congruence|].
  cbn [s_ended s_sends s_after] in *. by rewrite IH, app_assoc.
Qed.

(** A channel nobody has subscribed is in no table, and is sent nothing. *)
Lemma others_absent c evs t :
  others c evs -> (forall k, s_subs t !! k <> Some c) ->
  (forall k, s_subs (s_after (spec_run evs t)) !! k <> Some c) /\ sends_to c (s_sends (spec_run evs t)) = [].
Proof.
  revert t. induction evs as [|ev evs IH]; intros t Hot Ht; [done|].
  inversion Hot as [|? ? Hot1 Hot2]; subst. cbn [spec_run]. destruct t as [subs handlers]. cbn [s_subs] in Ht.
  destruct (command ev) as [[bc|e]|j h|j|j m tx|]; cbn [spec_command].
  - destruct (handlers !! _); [by apply IH|].
    destruct (live (closed2 ev) (subs !! (_, Some _))) as [d|] eqn:E1; cbn [s_ended s_sends s_after app].
    { apply live_some in E1. rewrite sends_to_cons, decide_False by (intros ->; by apply Ht in E1). by apply IH. }
    destruct (live (closed2 ev) (subs !! (_, None))) as [d|] eqn:E2; cbn [s_ended s_sends s_after app]; [|by apply IH].
    apply live_some in E2. assert (d <> c) as Hd by (intros ->; by apply Ht in E2).
    rewrite sends_to_cons, decide_False by done. apply IH; [done|]. cbn [s_subs]. intros k Hk.
    apply lookup_insert_Some in Hk as [[_ ->]|[_ Hk]]; [done|]. apply lookup_delete_Some in Hk as [_ Hk]. by apply Ht in Hk.
  - cbn [s_ended s_sends s_after]. split; [intros k; cbn; by rewrite lookup_empty|].
    rewrite sends_to_const. destruct (filter _ _) as [|[k d] l] eqn:F; [done|]. exfalso.
    assert ((k, d) ∈ (k, d) :: l) as Hin by by left. rewrite <- F in Hin.
    apply list_elem_of_filter in Hin as [E Hin%elem_of_map_to_list]. cbn in E. subst d. by apply Ht in Hin.
  - destruct (handlers !! j); cbn [s_ended s_sends s_after app]; [done|by apply IH].
  - by apply IH.
  - destruct (live (closed2 ev) (subs !! (j, m))) as [d|] eqn:E1; cbn [s_ended s_sends s_after app].
    + rewrite sends_to_cons, decide_False by done. by apply IH.
    + apply IH; [done|]. cbn [s_subs]. intros k Hk.
      apply lookup_insert_Some in Hk as [[_ ->]|[_ Hk]]; [done|by apply Ht in Hk].
  - done.
Qed.

Lemma expect_recv i n handled evs : recv_all (MkBcSubscription (Some n)) (expect i n handled evs) = expect i n handled evs.
Proof.
  revert handled. induction evs as [|ev evs IH]; intros handled; [done|]. cbn [expect].
  destruct (command ev) as [[bc|e]|j h|j|j m tx|]; try done.
  - destruct (decide _) as [(_ & Hn & _)|]; [|done]. cbn [recv_all recv sub_num]. rewrite Hn, Z.eqb_refl.
    cbn [negb]. by rewrite IH.
  - by destruct (decide _).
Qed.

(** C14: A command that subscribes under a message id and
    number nobody else is waiting on is handed, by [recv], exactly the messages
    of that id and number that arrive from then on, each once and in order, up
    to the error that ends the connection, whatever other subscribers and
    handlers come and go, and none is refused by [recv]'s own check. One that
    subscribes while another waits on the same key is handed the error alone. *)
Theorem subscriber_stream pre ev i n c evs :
  let s := after (run pre Subscriber_default) in
  let received := recv_all (MkBcSubscription (Some n)) (sends_to c (sends (run (pre ++ ev :: evs) Subscriber_default))) in
  ended (run pre Subscriber_default) = None ->
  grows (fun _ => false) (pre ++ ev :: evs) ->
  command ev = AddSubscriber i (Some n) c -> stays_open c (pre ++ ev :: evs) -> others c (pre ++ evs) ->
  match live (closed2 ev) (lookup2 (num s) (i, Some n)) with
  | None => received = expect i n (dom (id s)) evs
  | Some _ => received = [Err (SimultaneousSubscription (Some n))]
  end.
Proof.
  intros s received He Hg Hev Hop Hot.
  destruct (run_refines (pre ++ ev :: evs) [] (fun _ => false) Subscriber_default Spec_default
              (default_implements _)) as (_ & _ & Hse & _); [by rewrite app_nil_r|].
  destruct (run_refines pre (ev :: evs) (fun _ => false) Subscriber_default Spec_default
              (default_implements _) Hg) as (He' & _ & _ & Ha).
  destruct (Ha He) as (closed' & Him & Hg'). destruct Hg' as (H1 & H2 & _).
  assert (implements (closed2 ev) s (s_after (spec_run pre Spec_default))) as Him'.
  { apply (implements_mono closed'); [|done]. intros d Hd. by apply H2, H1. }
  apply Forall_app in Hot as [Hot1 Hot2]. pose proof Hop as Hop'. apply Forall_app in Hop' as [_ Hop']. inversion Hop' as [|? ? Hop1 Hop2]; subst.
  destruct (others_absent c pre Spec_default Hot1) as [Habs Hnone]; [intros k; cbn; by rewrite lookup_empty|].
  unfold received. rewrite Hse by done.
  rewrite spec_run_app by by rewrite <- He'. rewrite sends_to_app, Hnone. cbn [app spec_run]. rewrite Hev.
  destruct (s_after (spec_run pre Spec_default)) as [subs handlers] eqn:Et. destruct Him' as [Hid Hk].
  cbn [s_subs s_handlers spec_command] in *. rewrite Hk.
  destruct (live (closed2 ev) (subs !! (i, Some n))) as [d|] eqn:E; cbn [s_ended s_sends s_after app].
  - rewrite sends_to_cons, decide_True by done.
    destruct (others_absent c evs (MkSpec subs handlers) Hot2 Habs) as [_ ->]. done.
  - rewrite (spec_stream i n); [|split; cbn [s_subs]|done|done].
    + cbn [s_handlers]. rewrite <- Hid. apply expect_recv.
    + by rewrite lookup_insert_eq.
    + intros k Hk'. apply lookup_insert_Some in Hk' as [[<- _]|[_ Hk']]; [done|by apply Habs in Hk'].
Qed.

(** ** The connection at run time

    The poller takes commands off its channel, which holds 200, and awaits each
    send: a channel holds 100 messages, and while one is full and its receiver
    alive the poller waits. Receivers take messages, and are dropped, at any
    time. [log], [seen] are not the program's: the commands handled and what
    each receiver has taken. *)

Definition COMMAND_CAPACITY : nat := 200.
Definition CHANNEL_CAPACITY : nat := 100.

Record Connection := MkConnection {
  poller : Subscriber;
  pending : list (nat * Item);
  commands : list PollCommand;
  queue : nat -> list Item;
  dropped : nat -> bool;
  stopped : option Error;
  seen : nat -> list Item;
  log : list Event
}.

Definition set_at {A} (f : nat -> A) (c : nat) (v : A) : nat -> A := fun d => if decide (d = c) then v else f d.

Inductive label := Post (cmd : PollCommand) | Handle | Deliver | Discard | Take (c : nat) | DropReceiver (c : nat).

Inductive conn_step : label -> Connection -> Connection -> Prop :=
| step_post p ps cs q d st se l cmd :
    (length cs < COMMAND_CAPACITY)%nat ->
    conn_step (Post cmd) (MkConnection p ps cs q d st se l) (MkConnection p ps (cs ++ [cmd]) q d st se l)
| step_handle p cmd cs q d d' se l :
    closes d d' ->
    let h := handle_command d d' cmd p in
    conn_step Handle (MkConnection p [] (cmd :: cs) q d None se l)
      (MkConnection (after h) (sends h) cs q d' (ended h) se (l ++ [MkEvent d d' cmd]))
| step_deliver p c it ps cs q d st se l :
    d c = false -> (length (q c) < CHANNEL_CAPACITY)%nat ->
    conn_step Deliver (MkConnection p ((c, it) :: ps) cs q d st se l)
      (MkConnection p ps cs (set_at q c (q c ++ [it])) d st se l)
| step_discard p c it ps cs q d st se l :
    d c = true ->
    conn_step Discard (MkConnection p ((c, it) :: ps) cs q d st se l) (MkConnection p ps cs q d st se l)
| step_take p ps cs q d st se l c it items :
    d c = false -> q c = it :: items ->
    conn_step (Take c) (MkConnection p ps cs q d st se l)
      (MkConnection p ps cs (set_at q c items) d st (set_at se c (se c ++ [it])) l)
| step_drop p ps cs q d st se l c :
    conn_step (DropReceiver c) (MkConnection p ps cs q d st se l)
      (MkConnection p ps cs (set_at q c []) (set_at d c true) st se l).

Definition BcConnection_new : Connection :=
  MkConnection Subscriber_default [] [] (fun _ => []) (fun _ => false) None (fun _ => []) [].

Inductive reachable : Connection -> Prop :=
| reachable_new : reachable BcConnection_new
| reachable_step a s s' : reachable s -> conn_step a s s' -> reachable s'.

(** The poller's state is that of a run over the log, and every open channel
    has, taken, queued or on its way, what the run sent to it. *)
Record conn_inv (s : Connection) : Prop := MkConnInv {
  inv_poller : poller s = after (run (log s) Subscriber_default);
  inv_stopped : stopped s = ended (run (log s) Subscriber_default);
  inv_grows : grows (fun _ => false) (log s);
  inv_closed : Forall (fun ev => closes (closed2 ev) (dropped s)) (log s);
  inv_sent : forall c, dropped s c = false ->
    seen s c ++ queue s c ++ sends_to c (pending s) = sends_to c (sends (run (log s) Subscriber_default));
  inv_queue : forall c, (length (queue s c) <= CHANNEL_CAPACITY)%nat
}.

Lemma grows_snoc closed evs ev :
  grows closed evs -> closes closed (closed1 ev) -> Forall (fun e => closes (closed2 e) (closed1 ev)) evs ->
  closes (closed1 ev) (closed2 ev) -> grows closed (evs ++ [ev]).
Proof.
  revert closed. induction evs as [|e evs IH]; intros closed Hg H1 H2 H3; cbn [app grows] in *; [done|].
  inversion H2; subst. destruct Hg as (? & ? & ?). split; [done|]. split; [done|]. by apply IH.
Qed.

Lemma closes_set d c : closes d (set_at d c true).
Proof. intros e He. unfold set_at. by destruct (decide _). Qed.

Lemma closes_refl d : closes d d.
Proof. by intros c. Qed.

Lemma closes_trans a b d : closes a b -> closes b d -> closes a d.
Proof. intros H1 H2 c Hc. by apply H2, H1. Qed.

Lemma conn_inv_step a s s' : conn_inv s -> conn_step a s s' -> conn_inv s'.
Proof.
  intros [Hp Hst Hg Hcl Hse Hq] Hstep.
  destruct Hstep as [p ps cs q d st se l cmd Hn|p cmd cs q d d' se l Hd h|p c it ps cs q d st se l Hd Hn
    |p c it ps cs q d st se l Hd|p ps cs q d st se l c it items Hd Hc|p ps cs q d st se l c];
    cbn [poller pending commands queue dropped stopped seen log] in *.
  - by constructor.
  - assert (run (l ++ [MkEvent d d' cmd]) Subscriber_default
      = MkHandled (after h) (sends (run l Subscriber_default) ++ sends h)
          (spawned (run l Subscriber_default) ++ spawned h) (ended h)) as E.
    { rewrite poll_run_app by done. cbn [run closed1 closed2 command]. rewrite <- Hp. fold h.
      destruct (ended h) eqn:Eh; cbn; rewrite ?app_nil_r; by rewrite ?Eh. }
    constructor; cbn [poller pending commands queue dropped stopped seen log]; rewrite ?E; try done.
    + apply grows_snoc; cbn [closed1 closed2]; [done|by intros c|done|done].
    + apply Forall_app. split; [|by constructor; [intros c|]].
      eapply Forall_impl; [|exact Hcl]. intros ev Hev. by apply (closes_trans _ d).
    + intros c Hc. cbn [sends]. rewrite sends_to_app, <- Hse; [cbn; by rewrite app_nil_r, app_assoc|].
      destruct (d c) eqn:Edc; [by rewrite (Hd c Edc) in Hc|done].
  - constructor; cbn [poller pending commands queue dropped stopped seen log]; try done.
    + intros e He. rewrite <- Hse by done. rewrite sends_to_cons. unfold set_at.
      destruct (decide (e = c)) as [->|Hec]; [rewrite decide_True by done; by rewrite <- !app_assoc|].
      rewrite decide_False by congruence. done.
    + intros e. unfold set_at. destruct (decide (e = c)); [rewrite length_app; cbn; lia|done].
  - constructor; cbn [poller pending commands queue dropped stopped seen log]; try done.
    intros e He. rewrite <- Hse by done. rewrite sends_to_cons, decide_False by congruence. done.
  - constructor; cbn [poller pending commands queue dropped stopped seen log]; try done.
    + intros e He. rewrite <- Hse by done. unfold set_at. destruct (decide (e = c)) as [->|]; [|done].
      rewrite Hc. by rewrite <- !app_assoc.
    + intros e. unfold set_at. destruct (decide (e = c)) as [->|]; [|done]. specialize (Hq c).
      rewrite Hc in Hq. cbn in Hq. lia.
  - constructor; cbn [poller pending commands queue dropped stopped seen log]; try done.
    + eapply Forall_impl; [|exact Hcl]. intros ev Hev. apply (closes_trans _ d); [done|apply closes_set].
    + intros e He. unfold set_at in *. destruct (decide (e = c)); [done|]. by apply Hse.
    + intros e. unfold set_at. destruct (decide (e = c)); [cbn; lia|done].
Qed.

Lemma reachable_conn_inv s : reachable s -> conn_inv s.
Proof.
  induction 1 as [|a s s' _ IH Hs]; [|by eapply conn_inv_step].
  constructor; cbn; try done. intros c. lia.
Qed.

(** C13: The connection implements its contract. In every
    reachable state of the poller, the command channel and the bounded
    channels, what the receiver of an open channel has taken, followed by what
    is queued and on its way, is what the flat table of the contract sends it
    for the commands handled; the poller has stopped exactly when the contract
    has, with its error; and no channel holds more than 100 messages. *)
Theorem conn_refines s c :
  reachable s ->
  stopped s = s_ended (spec_run (log s) Spec_default)
  /\ (length (queue s c) <= CHANNEL_CAPACITY)%nat
  /\ (dropped s c = false ->
        seen s c ++ queue s c ++ sends_to c (pending s) = sends_to c (s_sends (spec_run (log s) Spec_default))).
Proof.
  intros [Hp Hst Hg Hcl Hse Hq]%reachable_conn_inv.
  destruct (run_refines (log s) [] (fun _ => false) Subscriber_default Spec_default (default_implements _))
    as (He & _ & Hs & _); [by rewrite app_nil_r|].
  split; [by rewrite Hst|]. split; [done|]. intros Hc. rewrite Hse by done. apply Hs.
  eapply Forall_impl; [|exact Hcl]. intros ev Hev. destruct (closed2 ev c) eqn:E; [|done].
  by rewrite (Hev c E) in Hc.
Qed.

(** *** A receiver that does not keep up *)

Inductive conn_steps : list label -> Connection -> Connection -> Prop :=
| steps_nil s : conn_steps [] s s
| steps_cons a ls s1 s2 s3 : conn_step a s1 s2 -> conn_steps ls s2 s3 -> conn_steps (a :: ls) s1 s3.

Lemma conn_steps_closes ls s s' : conn_steps ls s s' -> closes (dropped s) (dropped s').
Proof.
  induction 1 as [s|a ls s1 s2 s3 Hstep _ IH]; [by intros c|]. eapply closes_trans; [|exact IH].
  destruct Hstep; cbn [dropped]; try apply closes_refl; [done|apply closes_set].
Qed.

(** [c]'s receiver neither takes a message nor goes away. *)
Definition leaves (c : nat) (a : label) : Prop :=
  match a with Take d | DropReceiver d => d <> c | _ => True end.

(** One receiver that stops taking messages
    stops the connection. Once its channel holds 100 messages and the next one
    is due, then, until it takes one or is dropped, no command is handled, no
    other subscriber is sent anything new, whatever else happens, and the
    source's messages pile up in the command channel. *)
Theorem slow_receiver_stalls s ls s' c it ps :
  reachable s -> pending s = (c, it) :: ps -> length (queue s c) = CHANNEL_CAPACITY -> dropped s c = false ->
  conn_steps ls s s' -> Forall (leaves c) ls ->
  poller s' = poller s /\ log s' = log s /\ pending s' = pending s
  /\ (forall d, dropped s' d = false -> seen s' d ++ queue s' d = seen s d ++ queue s d)
  /\ exists posted, commands s' = commands s ++ posted.
Proof.
  intros _ Hp Hq Hd Hs Hl. revert Hp Hq Hd. induction Hs as [s|a ls s1 s2 s3 Hstep Hs IH]; intros Hp Hq Hd.
  { do 4 (split; [done|]). exists []. by rewrite app_nil_r. }
  inversion Hl as [|? ? Ha Hl']; subst. specialize (IH Hl').
  destruct Hstep as [p qs cs q d st se l cmd Hn|p cmd cs q d d' se l Hcl h|p e it' qs cs q d st se l Hde Hn
    |p e it' qs cs q d st se l Hde|p qs cs q d st se l e it' items Hde Hc|p qs cs q d st se l e];
    cbn [poller pending commands queue dropped stopped seen log leaves] in *; subst; try done.
  - destruct (IH eq_refl Hq Hd) as (H1 & H2 & H3 & H4 & posted & H5). do 4 (split; [done|]).
    exists (cmd :: posted). by rewrite H5, <- app_assoc.
  - injection Hp as -> -> ->. lia.
  - injection Hp as -> -> ->. congruence.
  - assert (set_at q e items c = q c) as E by (unfold set_at; by rewrite decide_False).
    destruct (IH eq_refl ltac:(by rewrite E) Hd) as (H1 & H2 & H3 & H4 & H5). do 3 (split; [done|]). split; [|done].
    intros f Hf. rewrite H4 by done. unfold set_at. destruct (decide (f = e)) as [->|]; [|done].
    by rewrite Hc, <- app_assoc.
  - assert (set_at q e [] c = q c) as E by (unfold set_at; by rewrite decide_False).
    assert (set_at d e true c = d c) as Ed by (unfold set_at; by rewrite decide_False).
    destruct (IH eq_refl ltac:(by rewrite E) ltac:(by rewrite Ed)) as (H1 & H2 & H3 & H4 & H5).
    do 3 (split; [done|]). split; [|done]. intros f Hf. rewrite H4 by done. unfold set_at.
    destruct (decide (f = e)) as [->|]; [|done]. exfalso. apply conn_steps_closes in Hs. cbn [dropped] in Hs.
    rewrite (Hs e) in Hf; [done|]. unfold set_at. by rewrite decide_True.
Qed.

(** ** Schedules *)

Definition play1 (a : label) (s : Connection) : option Connection :=
  let '(MkConnection p ps cs q d st se l) := s in
  match a with
  | Post cmd =>
      if (length cs <? COMMAND_CAPACITY)%nat then Some (MkConnection p ps (cs ++ [cmd]) q d st se l) else None
  | Handle =>
      match ps, cs, st with
      | [], cmd :: cs, None =>
          let h := handle_command d d cmd p in
          Some (MkConnection (after h) (sends h) cs q d (ended h) se (l ++ [MkEvent d d cmd]))
      | _, _, _ => None
      end
  | Deliver =>
      match ps with
      | (c, it) :: ps =>
          if negb (d c) && (length (q c) <? CHANNEL_CAPACITY)%nat
          then Some (MkConnection p ps cs (set_at q c (q c ++ [it])) d st se l) else None
      | [] => None
      end
  | Discard =>
      match ps with
      | (c, it) :: ps => if d c then Some (MkConnection p ps cs q d st se l) else None
      | [] => None
      end
  | Take c =>
      match q c with
      | it :: items =>
          if d c then None
          else Some (MkConnection p ps cs (set_at q c items) d st (set_at se c (se c ++ [it])) l)
      | [] => None
      end
  | DropReceiver c => Some (MkConnection p ps cs (set_at q c []) (set_at d c true) st se l)
  end.

Fixpoint play (ls : list label) (s : Connection) : option Connection :=
  match ls with [] => Some s | a :: ls => s ← play1 a s; play ls s end.

Lemma conn_play1_step a s s' : play1 a s = Some s' -> conn_step a s s'.
Proof.
  destruct s as [p ps cs q d st se l]. destruct a as [cmd| | | |c|c]; cbn [play1]; intros H.
  - destruct (Nat.ltb_spec (length cs) COMMAND_CAPACITY); [|done]. injection H as <-. by apply step_post.
  - destruct ps, cs, st; try done. injection H as <-. apply step_handle. apply closes_refl.
  - destruct ps as [|[c it] ps]; [done|]. destruct (d c) eqn:E; [done|]. cbn [negb andb] in H.
    destruct (Nat.ltb_spec (length (q c)) CHANNEL_CAPACITY); [|done]. injection H as <-. by apply step_deliver.
  - destruct ps as [|[c it] ps]; [done|]. destruct (d c) eqn:E; [|done]. injection H as <-. by apply step_discard.
  - destruct (q c) as [|it items] eqn:E; [done|]. destruct (d c) eqn:Ed; [done|]. injection H as <-.
    by apply step_take.
  - injection H as <-. apply step_drop.
Qed.

Lemma play_reachable ls s s' : reachable s -> play ls s = Some s' -> reachable s'.
Proof.
  revert s. induction ls as [|a ls IH]; intros s Hr H; cbn [play] in H; [by injection H as <-|].
  destruct (play1 a s) as [s1|] eqn:E; [|done]. cbn [mbind option_bind] in H. apply (IH s1); [|done].
  eapply reachable_step; [done|by apply conn_play1_step].
Qed.

End conn.

(** ** A session

    Two commands under message id 3, numbers 7 and 8, and a stream of messages
    for both. *)

Definition toy_message (n code : Z) : Bc := new_bc (MkBcMeta 3 0 0 code n 0) None None.

Definition all_open (c : nat) : bool := false.

Definition toy_event (cmd : PollCommand) : Event := MkEvent all_open all_open cmd.

Definition toy_stream : list Event :=
  [toy_event (BcCommand (Ok (toy_message 7 200))); toy_event (BcCommand (Ok (toy_message 8 200)));
   toy_event (RemoveHandler 3); toy_event (BcCommand (Ok (toy_message 7 400)));
   toy_event (BcCommand (Err (SourceError 1)))].

Lemma subscriber_stream_witness :
  recv_all (MkBcSubscription (Some 7))
    (sends_to 1 (sends (run ([toy_event (AddSubscriber 3 (Some 8) 0)] ++
                             toy_event (AddSubscriber 3 (Some 7) 1) :: toy_stream) Subscriber_default)))
  = [Ok (toy_message 7 200); Ok (toy_message 7 400); Err (SourceError 1)].
Proof.
  pose proof (subscriber_stream [toy_event (AddSubscriber 3 (Some 8) 0)]
    (toy_event (AddSubscriber 3 (Some 7) 1)) 3 7 1 toy_stream) as H.
  apply H.
  - vm_compute. reflexivity.
  - cbn. unfold closes, all_open. tauto.
  - reflexivity.
  - repeat (constructor; [reflexivity|]). constructor.
  - repeat (constructor; [first [exact I|discriminate]|]). constructor.
Defined.

(** A receiver that takes nothing: 101 messages for it, each posted and handled. *)
Definition flood (k : nat) : list label :=
  [Post (AddSubscriber 3 (Some 7) 1); Handle] ++
  concat (repeat [Post (BcCommand (Ok (toy_message 7 200))); Handle; Deliver] k) ++
  [Post (BcCommand (Ok (toy_message 7 200))); Handle].

Definition flooded (k : nat) : Connection := default BcConnection_new (play (flood k) BcConnection_new).

(** The schedule goes through; a boolean, which evaluates without the state. *)
Definition goes_through (k : nat) : bool := if play (flood k) BcConnection_new then true else false.

Lemma flooded_reachable k : goes_through k = true -> reachable (flooded k).
Proof.
  unfold goes_through, flooded. destruct (play (flood k) BcConnection_new) as [s|] eqn:E; [|done]. intros _.
  apply (play_reachable _ _ _ (reachable_new) E).
Qed.

Lemma conn_refines_witness :
  seen (flooded 2) 1%nat ++ queue (flooded 2) 1%nat ++ sends_to 1%nat (pending (flooded 2))
  = repeat (Ok (toy_message 7 200)) 3.
Proof.
  destruct (conn_refines (flooded 2) 1 (flooded_reachable 2 ltac:(vm_compute; reflexivity)))
    as (_ & _ & H).
  rewrite H; [|reflexivity]. vm_compute. reflexivity.
Defined.

Lemma slow_receiver_stalls_witness :
  let s := flooded 100 in
  let s' := default BcConnection_new (play1 (Post Disconnect) s) in
  reachable s /\ pending s' = pending s /\ log s' = log s /\ exists posted, commands s' = commands s ++ posted.
Proof.
  intros s s'. assert (reachable s) as Hr by (apply flooded_reachable; vm_compute; reflexivity).
  destruct (slow_receiver_stalls s [Post Disconnect] s' 1 (Ok (toy_message 7 200)) [] Hr)
    as (_ & H1 & H2 & _ & H3).
  - vm_compute. reflexivity.
  - vm_compute. reflexivity.
  - vm_compute. reflexivity.
  - eapply steps_cons; [|apply steps_nil]. apply conn_play1_step. unfold s'.
    assert ((if play1 (Post Disconnect) s then true else false) = true) as E by (vm_compute; reflexivity).
    destruct (play1 (Post Disconnect) s); [reflexivity|discriminate E].
  - repeat constructor.
  - split; [exact Hr|]. split; [exact H2|]. split; [exact H1|exact H3].
Defined.
