(* ===== verification/StreamSource.v ===== *)
(** * The stream source ([src/stream_source.rs])

    One source per camera stream: a reader that feeds the camera's packets to
    the translator and performs what it says, a ticker that bridges gaps, and
    two pacers that hold frames back to their natural spacing. Instants are
    nanoseconds on a clock that never goes back, so [Instant] arithmetic does
    not overflow. What the logs and the fixture capture write is left out. *)

From S2P Require Import Prelude Rtp Nal AudioCodec Packetizer FrameBuffer GapBridging Wire BcMedia StreamTranslate.

(** ** The pacers *)

(** [duration] in microseconds, as the translator computes it. *)
Record PacedFrame := MkPacedFrame { frame : Frame; duration : Z }.

Definition AUDIO_PACER_MAX_LEAD : Z := millis 2000.
Definition VIDEO_PACER_MAX_LEAD : Z := millis 3000.
Definition AUDIO_PACER_INITIAL_LATENCY : Z := millis 500.
Definition VIDEO_PACER_INITIAL_LATENCY : Z := millis 1500.
Definition AUDIO_PACER_QUEUE : nat := 200.
Definition VIDEO_PACER_QUEUE : nat := 300.
Definition SDP_POLL_INTERVAL : Z := millis 100.

Definition next_target (cursor : option Z) (now max_lead initial_latency : Z) (snap_on_past : bool) : Z :=
  match cursor with
  | Some t => if now + max_lead <? t then now else if snap_on_past && (t <? now) then now else t
  | None => now + initial_latency
  end.

(** A pacer between two awaits: its cursor, and the frame it sleeps on with
    the target it sleeps to. *)
Record PacerTask := MkPacerTask { next_emit_at : option Z; sleeping : option (PacedFrame * Z) }.

(** One turn of the loop up to the sleep: the task, and the frame if it is due
    at once. *)
Definition pacer_take (max_lead initial_latency : Z) (snap_on_past : bool) (t : PacerTask) (item : PacedFrame)
    (now : Z) : PacerTask * list Frame :=
  let target := next_target (next_emit_at t) now max_lead initial_latency snap_on_past in
  if now <? target then (MkPacerTask (next_emit_at t) (Some (item, target)), [])
  else (MkPacerTask (Some (target + 1000 * duration item)) None, [frame item]).

(** The rest of the turn, after the sleep. *)
Definition pacer_wake (t : PacerTask) : PacerTask * list Frame :=
  match sleeping t with
  | Some (item, target) => (MkPacerTask (Some (target + 1000 * duration item)) None, [frame item])
  | None => (t, [])
  end.

(** [media_pacer_task] over items with the instants at which each is taken and,
    if it slept, woken: what it broadcasts, and when. *)
Fixpoint media_pacer_task (max_lead initial_latency : Z) (snap_on_past : bool) (t : PacerTask)
    (items : list (PacedFrame * Z * Z)) : list (Frame * Z) :=
  match items with
  | [] => []
  | (item, now, woken) :: items =>
      let '(t, fs) := pacer_take max_lead initial_latency snap_on_past t item now in
      match sleeping t with
      | Some _ =>
          let '(t, fs) := pacer_wake t in
          map (fun f => (f, woken)) fs ++ media_pacer_task max_lead initial_latency snap_on_past t items
      | None => map (fun f => (f, now)) fs ++ media_pacer_task max_lead initial_latency snap_on_past t items
      end
  end.

Definition audio_pacer_task := media_pacer_task AUDIO_PACER_MAX_LEAD AUDIO_PACER_INITIAL_LATENCY true.
Definition video_pacer_task := media_pacer_task VIDEO_PACER_MAX_LEAD VIDEO_PACER_INITIAL_LATENCY false.

(** A task that has not broadcast yet. *)
Definition pacer_start : PacerTask := MkPacerTask None None.

(** ** The reader *)

(** [AudioPresence] of [audio_presence.rs]. *)
Inductive AudioPresence := Unknown | Present (codec : AudioCodec) | Absent.

Definition observed (p : AudioPresence) (codec : AudioCodec) : AudioPresence :=
  match p with Unknown | Absent => Present codec | Present _ => p end.

(** The sending end of a pacer: none (the tests' sources), its queue, or
    closed. *)
Inductive Pacer := Unpaced | Paced (queue : list PacedFrame) | Closed.

(** The shared state of a source. [tx] is the broadcast channel: every frame
    sent on it, with whether a gap replay sent it. *)
Record Source := MkSource {
  translator_state : StreamTranslatorState;
  bridging : BridgingPolicy;
  last_frame : LastFrameBuffer;
  sdp_video : option VideoParams;
  sdp_audio : option AudioParams;
  audio_presence : AudioPresence;
  audio_pace_tx : Pacer;
  video_pace_tx : Pacer;
  tx : list (bool * Frame)
}.

Definition set_tx (s : Source) (x : list (bool * Frame)) : Source :=
  MkSource (translator_state s) (bridging s) (last_frame s) (sdp_video s) (sdp_audio s) (audio_presence s)
    (audio_pace_tx s) (video_pace_tx s) x.
Definition set_audio_pacer (s : Source) (p : Pacer) : Source :=
  MkSource (translator_state s) (bridging s) (last_frame s) (sdp_video s) (sdp_audio s) (audio_presence s)
    p (video_pace_tx s) (tx s).
Definition set_video_pacer (s : Source) (p : Pacer) : Source :=
  MkSource (translator_state s) (bridging s) (last_frame s) (sdp_video s) (sdp_audio s) (audio_presence s)
    (audio_pace_tx s) p (tx s).
Definition set_sdp_video (s : Source) (p : VideoParams) : Source :=
  MkSource (translator_state s) (bridging s) (last_frame s) (Some p) (sdp_audio s) (audio_presence s)
    (audio_pace_tx s) (video_pace_tx s) (tx s).
Definition set_source_audio (s : Source) (p : option AudioParams) : Source :=
  MkSource (translator_state s) (bridging s) (last_frame s) (sdp_video s) p (audio_presence s)
    (audio_pace_tx s) (video_pace_tx s) (tx s).
Definition set_last_frame (s : Source) (b : LastFrameBuffer) : Source :=
  MkSource (translator_state s) (bridging s) b (sdp_video s) (sdp_audio s) (audio_presence s)
    (audio_pace_tx s) (video_pace_tx s) (tx s).
Definition set_presence (s : Source) (p : AudioPresence) : Source :=
  MkSource (translator_state s) (bridging s) (last_frame s) (sdp_video s) (sdp_audio s) p
    (audio_pace_tx s) (video_pace_tx s) (tx s).
Definition set_bridging (s : Source) (b : BridgingPolicy) : Source :=
  MkSource (translator_state s) b (last_frame s) (sdp_video s) (sdp_audio s) (audio_presence s)
    (audio_pace_tx s) (video_pace_tx s) (tx s).
Definition set_translator (s : Source) (t : StreamTranslatorState) : Source :=
  MkSource t (bridging s) (last_frame s) (sdp_video s) (sdp_audio s) (audio_presence s)
    (audio_pace_tx s) (video_pace_tx s) (tx s).

(** [try_send] on a queue of the capacity: a full one drops the frame. *)
Definition try_send (capacity : nat) (p : Pacer) (f : PacedFrame) : Pacer :=
  match p with
  | Paced q => if (length q <? capacity)%nat then Paced (q ++ [f]) else Paced q
  | _ => p
  end.

Definition dispatch_paced_video (s : Source) (f : Frame) (d : Z) : Source :=
  match video_pace_tx s with
  | Unpaced => set_tx s (tx s ++ [(false, f)])
  | p => set_video_pacer s (try_send VIDEO_PACER_QUEUE p (MkPacedFrame f d))
  end.

Definition dispatch_paced_audio (s : Source) (f : Frame) (d : Z) : Source :=
  match audio_pace_tx s with
  | Unpaced => set_tx s (tx s ++ [(false, f)])
  | p => set_audio_pacer s (try_send AUDIO_PACER_QUEUE p (MkPacedFrame f d))
  end.

Definition apply_emit (s : Source) (e : Emit) : Source :=
  match e with
  | EmitVideo f pace => dispatch_paced_video s f pace
  | EmitAudio f pace => dispatch_paced_audio s f pace
  | EmitSdpVideo p => set_sdp_video s p
  | EmitSdpAudio p => match sdp_audio s with None => set_source_audio s (Some p) | Some _ => s end
  | ReplaceVideoBurst b => set_last_frame s (replace_video (last_frame s) b)
  | EmitAppendPframe nals => set_last_frame s (append_pframe (last_frame s) nals)
  | AudioSeen c => set_presence s (observed (audio_presence s) c)
  end.

Definition apply_bcmedia_packet (packet : BcMedia) (s : Source) (now : Z) (gate : bool)
    : outcome (option Z * Source) :=
  let! (emits, video_pts, t) := translate packet (translator_state s) now gate in
  Ret (video_pts, fold_left apply_emit emits (set_translator s t)).

(** What [get_data] yields: a packet, a packet that does not decode, or the
    end of the stream. *)
Inductive StreamResult := Packet (p : BcMedia) | DecodeError | Finished.

Definition is_video_packet (p : BcMedia) : bool :=
  match p with Iframe _ | Pframe _ => true | _ => false end.

(** False ends the loop. [now] is read once for the three uses of the clock. *)
Definition process_stream_result (r : StreamResult) (s : Source) (now : Z) : outcome (bool * Source) :=
  match r with
  | Packet packet =>
      let s := if is_video_packet packet then set_bridging s (on_upstream_packet (bridging s) now) else s in
      let! (broadcast_pts, s) := apply_bcmedia_packet packet s now (is_bridging (bridging s)) in
      Ret (true, match broadcast_pts with
                 | Some pts_90khz => set_bridging s (on_broadcast (bridging s) pts_90khz now)
                 | None => s
                 end)
  | DecodeError => Ret (true, s)
  | Finished => Ret (false, s)
  end.

(** The payload of a replay: the cached key frame without parameter sets. *)
Definition replay_payload (b : LastFrameBuffer) : option (VideoCodec * list bytes * Z) :=
  burst ← video_snapshot b;
  let nals := List.filter (fun n => negb (is_parameter_set_nal n (codec burst)) && is_decodable_nal n (codec burst))
                (iframe_nals burst) in
  match nals with
  | [] => None
  | _ => Some (codec burst, nals, captured_pts_90khz burst)
  end.

Definition tick_bridging (s : Source) (now : Z) : Source :=
  let payload := replay_payload (last_frame s) in
  let '(synth_pts, b) := on_tick (bridging s) now (snd <$> payload) in
  let s := set_bridging s b in
  match synth_pts, payload with
  | Some pts, Some (codec, nals, _) => set_tx s (tx s ++ [(true, VideoFrame codec nals pts true true)])
  | _, _ => s
  end.

(** What [select!] picks in the loop. *)
Inductive Event := Cancelled | Tick (now : Z) | Data (r : StreamResult) (now : Z).

Fixpoint drive_translator_loop (evs : list Event) (s : Source) : outcome Source :=
  match evs with
  | [] => Ret s
  | Cancelled :: _ => Ret s
  | Tick now :: evs => drive_translator_loop evs (tick_bridging s now)
  | Data r now :: evs =>
      let! (continue, s) := process_stream_result r s now in
      if continue then drive_translator_loop evs s else Ret s
  end.

(** ** The reader task *)

Inductive StartVideo := CancelledFirst | Started | StartFailed | StartTimedOut.

Inductive CameraCall := StartVideoCall | StopVideoCall.

(** The calls made to the camera, and the source at the end; a panic of the
    loop stays in its own task, and leaves the source as it is then. *)
Definition reader_task (start : StartVideo) (evs : list Event) (s : Source) : list CameraCall * outcome Source :=
  match start with
  | Started => ([StartVideoCall; StopVideoCall], drive_translator_loop evs s)
  | _ => ([StartVideoCall], Ret s)
  end.

(** ** Waiting for the session description *)

(** The loop of [await_sdp_ready], [await_sdp_both] and
    [await_audio_or_deadline]: [now] is the instant of this poll, [polls] those
    of the next ones, each with what is read there. *)
Fixpoint await_sdp {P} (ready : P -> bool) (start timeout : Z) (polls : list (Z * P)) : option (result P unit) :=
  match polls with
  | [] => None
  | (now, p) :: polls =>
      if ready p then Some (Ok p)
      else if timeout <? now - start then Some (Err tt)
      else await_sdp ready start timeout polls
  end.

(** The three readinesses, of the pair of parameters. *)
Definition video_ready (p : option VideoParams * option AudioParams) : bool := if fst p then true else false.
Definition audio_ready (p : option VideoParams * option AudioParams) : bool := if snd p then true else false.
Definition both_ready (p : option VideoParams * option AudioParams) : bool := video_ready p && audio_ready p.

(** [StreamSource::start]: a source with both pacers, on the clock at [now]. *)
Definition start (last_frame : LastFrameBuffer) (presence : AudioPresence) (gap_threshold now : Z) : Source :=
  MkSource default_state (GapBridging.new gap_threshold now) last_frame None None presence (Paced []) (Paced []) [].

(** ** The pacers' schedules *)

(** The items' own spacing, summed. *)
Definition spacing (items : list (PacedFrame * Z * Z)) : Z :=
  foldr Z.add 0 (map (fun x => 1000 * duration (fst (fst x))) items).

Definition taken (x : PacedFrame * Z * Z) : Z := snd (fst x).
Definition woken (x : PacedFrame * Z * Z) : Z := snd x.
Definition item (x : PacedFrame * Z * Z) : PacedFrame := fst (fst x).

(** A run of the task: an item is taken no earlier than the previous frame went
    out, and a sleep ends no earlier than its target, and at most [jitter]
    later. Cursors advance by the items' durations. *)
Fixpoint timely (max_lead latency : Z) (snap : bool) (jitter : Z) (cursor : option Z) (last_out : Z)
    (items : list (PacedFrame * Z * Z)) : Prop :=
  match items with
  | [] => True
  | x :: items =>
      let target := next_target cursor (taken x) max_lead latency snap in
      last_out <= taken x
      /\ (taken x < target -> target <= woken x <= target + jitter)
      /\ timely max_lead latency snap jitter (Some (target + 1000 * duration (item x)))
           (if taken x <? target then woken x else taken x) items
  end.

(** Durations the translator makes: not negative, and within the cap. *)
Definition spaced (max_lead : Z) (x : PacedFrame * Z * Z) : Prop := 0 <= 1000 * duration (item x) <= max_lead.

(** The frame of one turn goes out at the target, or at once when it is due. *)
Definition out_at (target : Z) (x : PacedFrame * Z * Z) : Z := if taken x <? target then woken x else taken x.

(** The targets of a run. *)
Fixpoint targets (max_lead latency : Z) (snap : bool) (cursor : option Z) (items : list (PacedFrame * Z * Z)) : list Z :=
  match items with
  | [] => []
  | x :: items =>
      let target := next_target cursor (taken x) max_lead latency snap in
      target :: targets max_lead latency snap (Some (target + 1000 * duration (item x))) items
  end.

Lemma media_pacer_targets max_lead latency snap cursor items :
  media_pacer_task max_lead latency snap (MkPacerTask cursor None) items
  = zip_with (fun x target => (frame (item x), out_at target x)) items (targets max_lead latency snap cursor items).
Proof.
  revert cursor. induction items as [|[[it now] wk] items IH]; intros cursor; [done|].
  cbn [media_pacer_task targets zip_with]. unfold pacer_take. cbn [next_emit_at]. unfold out_at, taken, woken, item in *.
  cbn [fst snd]. destruct (now <? _); cbn [sleeping pacer_wake map app]; by rewrite IH.
Qed.

Lemma targets_length max_lead latency snap cursor items :
  length (targets max_lead latency snap cursor items) = length items.
Proof. revert cursor. induction items as [|x items IH]; intros cursor; cbn [targets length]; [done|]. by rewrite IH. Qed.

(** Once a frame has gone out, the cursor is at most one duration ahead of
    whatever instant the next frame is taken at: the lead cap is out of reach. *)
Lemma next_target_after max_lead latency snap target last_out d now :
  target <= last_out -> 0 <= d <= max_lead -> last_out <= now ->
  next_target (Some (target + d)) now max_lead latency snap = if snap then Z.max (target + d) now else target + d.
Proof.
  intros Ht Hd Hn. unfold next_target. destruct (Z.ltb_spec (now + max_lead) (target + d)); [lia|].
  destruct snap; cbn [andb]; [|done]. destruct (Z.ltb_spec (target + d) now); lia.
Qed.

Lemma spacing_cons x items : spacing (x :: items) = 1000 * duration (item x) + spacing items.
Proof. done. Qed.

Lemma out_at_ge target x jitter :
  (taken x < target -> target <= woken x <= target + jitter) -> target <= out_at target x.
Proof. unfold out_at. destruct (Z.ltb_spec (taken x) target); lia. Qed.

(** After a frame that went out at [last_out], no earlier than its target, the
    next ones follow on the cursor, or, with [snap], no earlier than it. *)
Lemma targets_after max_lead latency snap jitter target last_out d items i x :
  0 <= d <= max_lead -> target <= last_out ->
  timely max_lead latency snap jitter (Some (target + d)) last_out items -> Forall (spaced max_lead) items ->
  items !! i = Some x ->
  exists t, targets max_lead latency snap (Some (target + d)) items !! i = Some t
    /\ (if snap then target + d + spacing (take i items) <= t else t = target + d + spacing (take i items))
    /\ (if snap then t <= Z.max t (taken x) else True)
    /\ (taken x < t -> t <= woken x <= t + jitter).
Proof.
  revert target last_out d i. induction items as [|y items IH]; intros target last_out d i Hd Ht Htm Hs Hi; [done|].
  inversion Hs as [|? ? Hy Hs']; subst. destruct Htm as (H1 & H2 & H3).
  rewrite (next_target_after max_lead latency snap target last_out d (taken y)) in H2, H3 by done.
  cbn [targets]. rewrite (next_target_after max_lead latency snap target last_out d (taken y)) by done.
  set (t0 := if snap then _ else _) in *. pose proof (out_at_ge t0 y jitter H2) as Hge.
  destruct i as [|i]; simpl lookup in *; simpl take; [|rewrite spacing_cons].
  - injection Hi as ->. exists t0. split; [done|]. unfold t0, spacing in *. simpl.
    destruct snap; split; try split; try lia; exact H2.
  - fold (out_at t0 y) in H3. destruct (IH t0 (out_at t0 y) (1000 * duration (item y)) i) as (t & Et & E & _ & Hw); try done.
    exists t. split; [done|]. unfold t0 in *. destruct snap; split; try split; try lia; exact Hw.
Qed.

(** The same from the first frame on. *)
Lemma targets_from_start max_lead latency snap jitter t0 x0 items i x :
  0 <= latency -> timely max_lead latency snap jitter None t0 items -> Forall (spaced max_lead) items ->
  head items = Some x0 -> items !! i = Some x ->
  let due := taken x0 + latency + spacing (take i items) in
  exists t, targets max_lead latency snap None items !! i = Some t
    /\ (if snap then due <= t else t = due) /\ (taken x < t -> t <= woken x <= t + jitter).
Proof.
  intros Hl Htm Hs Hh Hi due. destruct items as [|y items]; [done|]. injection Hh as ->.
  inversion Hs as [|? ? Hy Hs']; subst. destruct Htm as (_ & Hw & Htm). cbn [next_target] in Hw, Htm.
  destruct i as [|i]; cbn in Hi.
  - injection Hi as ->. exists (taken x + latency). split; [done|]. unfold due, spacing. cbn. split; [destruct snap; lia|exact Hw].
  - cbn [targets next_target lookup list_lookup]. pose proof (out_at_ge _ _ _ Hw) as Hge.
    fold (out_at (taken x0 + latency) x0) in Htm.
    destruct (targets_after _ _ _ _ _ _ _ items i x Hy Hge Htm Hs' Hi) as (t & Et & E & _ & Hw').
    exists t. split; [done|]. unfold due. cbn [take firstn]. rewrite spacing_cons. split; [destruct snap; lia|exact Hw'].
Qed.

Lemma pacer_frames max_lead latency snap items :
  map fst (media_pacer_task max_lead latency snap pacer_start items) = map (fun y => frame (item y)) items.
Proof.
  unfold pacer_start. rewrite media_pacer_targets.
  pose proof (targets_length max_lead latency snap None items) as Hl. revert Hl.
  generalize (targets max_lead latency snap None items).
  induction items as [|y items IH]; intros [|t l] Hl; try done. cbn [zip_with map fst]. f_equal.
  apply IH. by injection Hl.
Qed.

Lemma pacer_lookup max_lead latency snap items i x t :
  items !! i = Some x -> targets max_lead latency snap None items !! i = Some t ->
  media_pacer_task max_lead latency snap pacer_start items !! i = Some (frame (item x), out_at t x).
Proof. intros Hi Ht. unfold pacer_start. by rewrite media_pacer_targets, lookup_zip_with, Hi, Ht. Qed.

(** The video pacer broadcasts every frame
    once and in order, on one absolute schedule: the frame after [i] others is
    due 1.5 s after the first was taken plus the durations of those [i], and
    goes out then, or at once when it is taken later. No burst makes it skip or
    re-anchor: with durations within the 3 s lead cap the cap never acts. *)
Theorem video_pacer_schedule items jitter x0 i x t0 :
  timely VIDEO_PACER_MAX_LEAD VIDEO_PACER_INITIAL_LATENCY false jitter None t0 items ->
  Forall (spaced VIDEO_PACER_MAX_LEAD) items -> head items = Some x0 -> items !! i = Some x ->
  let due := taken x0 + millis 1500 + spacing (take i items) in
  map fst (video_pacer_task pacer_start items) = map (fun y => frame (item y)) items
  /\ exists t, video_pacer_task pacer_start items !! i = Some (frame (item x), t)
       /\ (due <= taken x -> t = taken x) /\ (taken x < due -> due <= t <= due + jitter).
Proof.
  intros Htm Hs Hh Hi due. split; [apply pacer_frames|].
  destruct (targets_from_start _ VIDEO_PACER_INITIAL_LATENCY _ _ _ _ _ _ _ ltac:(done) Htm Hs Hh Hi) as (t & Et & -> & Hw).
  change VIDEO_PACER_INITIAL_LATENCY with (millis 1500) in Hw, Et.
  exists (out_at due x). split; [by apply pacer_lookup|]. unfold out_at. fold due in Hw.
  split; intros H; destruct (Z.ltb_spec (taken x) due); lia.
Qed.

(** A cursor that is at most one duration ahead of the last frame. *)
Definition cursor_ok (max_lead : Z) (cursor : option Z) (last_out : Z) : Prop :=
  forall c, cursor = Some c -> exists target d, c = target + d /\ 0 <= d <= max_lead /\ target <= last_out.

(** The state of the task after some of its items. *)
Lemma targets_app max_lead latency snap jitter cursor last_out pre items :
  cursor_ok max_lead cursor last_out ->
  timely max_lead latency snap jitter cursor last_out (pre ++ items) -> Forall (spaced max_lead) pre ->
  exists cursor' last_out' ts, cursor_ok max_lead cursor' last_out'
    /\ timely max_lead latency snap jitter cursor' last_out' items
    /\ length ts = length pre
    /\ targets max_lead latency snap cursor (pre ++ items) = ts ++ targets max_lead latency snap cursor' items.
Proof.
  revert cursor last_out. induction pre as [|x pre IH]; intros cursor last_out Hc Htm Hs.
  { by exists cursor, last_out, []. }
  inversion Hs as [|? ? Hx Hs']; subst. destruct Htm as (H1 & H2 & H3). cbn [app targets].
  set (target := next_target cursor (taken x) max_lead latency snap) in *.
  destruct (IH (Some (target + 1000 * duration (item x))) (out_at target x)) as (c' & l' & ts & Hc' & Ht' & Hl & E);
    [|exact H3|done|].
  - intros c [= <-]. exists target, (1000 * duration (item x)). split; [done|]. split; [exact Hx|].
    by apply (out_at_ge _ _ jitter).
  - exists c', l', (target :: ts). split; [done|]. split; [done|]. cbn [length app]. by rewrite Hl, E.
Qed.

Lemma snap_target max_lead latency cursor last_out now :
  0 <= latency -> 0 <= max_lead -> cursor_ok max_lead cursor last_out -> last_out <= now ->
  now <= next_target cursor now max_lead latency true.
Proof.
  intros Hl Hm Hc Hn. destruct cursor as [c|]; [|cbn; lia]. destruct (Hc c eq_refl) as (target & d & -> & Hd & Ht).
  rewrite (next_target_after max_lead latency true target last_out d now) by done. lia.
Qed.

(** The audio pacer never sends a burst: it
    broadcasts every frame once and in order, and of any two frames the later
    goes out no sooner after the earlier than the durations of the frames from
    the earlier on, up to the jitter of a wake-up, however the camera delivers
    them. *)
Theorem audio_pacer_spacing pre x items jitter i y tx ty t0 :
  timely AUDIO_PACER_MAX_LEAD AUDIO_PACER_INITIAL_LATENCY true jitter None t0 (pre ++ x :: items) ->
  Forall (spaced AUDIO_PACER_MAX_LEAD) (pre ++ x :: items) -> 0 <= jitter -> items !! i = Some y ->
  let out := audio_pacer_task pacer_start (pre ++ x :: items) in
  map snd out !! length pre = Some tx -> map snd out !! (length pre + S i)%nat = Some ty ->
  map fst out = map (fun z => frame (item z)) (pre ++ x :: items)
  /\ tx + spacing (take (S i) (x :: items)) <= ty + jitter.
Proof.
  intros Htm Hs Hj Hi out Hx Hy. split; [apply pacer_frames|].
  apply Forall_app in Hs as [Hs1 Hs2]. inversion Hs2 as [|? ? Hsx Hs3]; subst.
  destruct (targets_app AUDIO_PACER_MAX_LEAD AUDIO_PACER_INITIAL_LATENCY true jitter None t0 pre (x :: items))
    as (cursor & last_out & ts & Hc & Ht & Hl & E); [done|exact Htm|exact Hs1|].
  pose proof Ht as (H1 & H2 & H3). cbn [targets] in E.
  set (target := next_target cursor (taken x) _ _ true) in *.
  assert (taken x <= target) as Hle by (apply (snap_target _ _ _ last_out); done).
  assert ((pre ++ x :: items) !! length pre = Some x) as Hpx by by rewrite list_lookup_middle.
  assert ((pre ++ x :: items) !! (length pre + S i)%nat = Some y) as Hpy
    by (rewrite lookup_app_r by lia; by replace (length pre + S i - length pre)%nat with (S i) by lia).
  destruct (targets_after AUDIO_PACER_MAX_LEAD AUDIO_PACER_INITIAL_LATENCY true jitter target (out_at target x)
              (1000 * duration (item x)) items i y Hsx (out_at_ge _ _ jitter H2) H3 Hs3 Hi) as (t & Et & Hge & _ & Hw).
  assert (targets AUDIO_PACER_MAX_LEAD AUDIO_PACER_INITIAL_LATENCY true None (pre ++ x :: items) !! length pre = Some target)
    as Etx by (rewrite E; by rewrite list_lookup_middle).
  assert (targets AUDIO_PACER_MAX_LEAD AUDIO_PACER_INITIAL_LATENCY true None (pre ++ x :: items) !! (length pre + S i)%nat = Some t)
    as Ety by (rewrite E, lookup_app_r by lia; by replace (length pre + S i - length ts)%nat with (S i) by lia).
  unfold out, audio_pacer_task in Hx, Hy. rewrite list_lookup_fmap in Hx, Hy.
  rewrite (pacer_lookup _ _ _ _ _ _ _ Hpx Etx) in Hx. rewrite (pacer_lookup _ _ _ _ _ _ _ Hpy Ety) in Hy.
  injection Hx as <-. injection Hy as <-. cbn [take firstn]. rewrite spacing_cons.
  pose proof (out_at_ge t y jitter Hw). unfold out_at at 1. destruct (Z.ltb_spec (taken x) target); lia.
Qed.

(** ** The source at run time

    Reader, ticker and pacers interleave on one clock. *)

Record System := MkSystem {
  source : Source;
  running : bool;
  video_pacer : PacerTask;
  audio_pacer : PacerTask;
  clock : Z
}.

Inductive action :=
| Wait (d : Z)
| ReaderTick
| ReaderData (r : StreamResult)
| VideoTake
| VideoWake
| AudioTake
| AudioWake.

(** Frames a pacer sends. *)
Definition send_live (s : Source) (fs : list Frame) : Source := set_tx s (tx s ++ map (pair false) fs).

Definition queue_of (p : Pacer) : list PacedFrame := match p with Paced q => q | _ => [] end.

(** [None]: the action is not possible, or panics. *)
Definition act (a : action) (y : System) : option System :=
  let '(MkSystem s run vp ap now) := y in
  match a with
  | Wait d => if 0 <=? d then Some (MkSystem s run vp ap (now + d)) else None
  | ReaderTick => if run then Some (MkSystem (tick_bridging s now) run vp ap now) else None
  | ReaderData r =>
      if run then
        match process_stream_result r s now with
        | Ret (continue, s) => Some (MkSystem s continue vp ap now)
        | Panic => None
        end
      else None
  | VideoTake =>
      match sleeping vp, queue_of (video_pace_tx s) with
      | None, item :: q =>
          let '(vp, fs) := pacer_take VIDEO_PACER_MAX_LEAD VIDEO_PACER_INITIAL_LATENCY false vp item now in
          Some (MkSystem (send_live (set_video_pacer s (Paced q)) fs) run vp ap now)
      | _, _ => None
      end
  | VideoWake =>
      match sleeping vp with
      | Some (_, target) =>
          if target <=? now then
            let '(vp, fs) := pacer_wake vp in Some (MkSystem (send_live s fs) run vp ap now)
          else None
      | None => None
      end
  | AudioTake =>
      match sleeping ap, queue_of (audio_pace_tx s) with
      | None, item :: q =>
          let '(ap, fs) := pacer_take AUDIO_PACER_MAX_LEAD AUDIO_PACER_INITIAL_LATENCY true ap item now in
          Some (MkSystem (send_live (set_audio_pacer s (Paced q)) fs) run vp ap now)
      | _, _ => None
      end
  | AudioWake =>
      match sleeping ap with
      | Some (_, target) =>
          if target <=? now then
            let '(ap, fs) := pacer_wake ap in Some (MkSystem (send_live s fs) run vp ap now)
          else None
      | None => None
      end
  end.

Fixpoint act_all (acts : list action) (y : System) : option System :=
  match acts with [] => Some y | a :: acts => y ← act a y; act_all acts y end.

Definition system (last_frame : LastFrameBuffer) (presence : AudioPresence) (gap_threshold now : Z) : System :=
  MkSystem (start last_frame presence gap_threshold now) true pacer_start pacer_start now.

(** ** Live frames keep their order *)

Definition is_video_frame (f : Frame) : bool := match f with VideoFrame _ _ _ _ _ => true | _ => false end.

(** The video frames of emits, and of packets translated from a state. *)
Definition video_frames (es : list Emit) : list Frame :=
  concat (map (fun e => match e with EmitVideo f _ => [f] | _ => [] end) es).

Fixpoint video_of (packets : list BcMedia) (t : StreamTranslatorState) : list Frame :=
  match packets with
  | [] => []
  | p :: packets =>
      match translate p t 0 false with
      | Ret (es, _, t) => video_frames es ++ video_of packets t
      | Panic => []
      end
  end.

(** The packets the reader is given. *)
Definition packets_of (acts : list action) : list BcMedia :=
  concat (map (fun a => match a with ReaderData (Packet p) => [p] | _ => [] end) acts).

(** Live video on the broadcast channel, and live video anywhere past the
    reader: broadcast, held by the pacer, queued. *)
Definition live_video (s : Source) : list Frame :=
  List.filter is_video_frame (map snd (List.filter (fun x => negb (fst x)) (tx s))).

Definition past_reader (y : System) : list Frame :=
  live_video (source y)
  ++ match sleeping (video_pacer y) with Some (it, _) => [frame it] | None => [] end
  ++ map frame (queue_of (video_pace_tx (source y))).

Lemma video_frames_app es es' : video_frames (es ++ es') = video_frames es ++ video_frames es'.
Proof. unfold video_frames. by rewrite map_app, concat_app. Qed.

Lemma video_frames_not_audio es : video_frames (List.filter not_audio es) = video_frames es.
Proof.
  unfold video_frames. induction es as [|e es IH]; [done|].
  destruct e; simpl; rewrite ?IH; reflexivity.
Qed.

(** The instant a packet is translated only dates the cached burst. *)
Lemma translate_now p t now gate es pts t' :
  translate p t now gate = Ret (es, pts, t') ->
  exists es', translate p t 0 gate = Ret (es', pts, t') /\ video_frames es' = video_frames es.
Proof.
  destruct p as [i|i|f|f|a|a]; cbn [translate]; try (by intros H; eexists; split; [exact H|]).
  intros [= E]. unfold translate_iframe, video_frame_duration in *. destruct (split_annex_b _).
  { simplify_eq. by eexists. }
  destruct (detected_codec (match detected_codec t with Some _ => t | None => _ end)); [|by simplify_eq; eexists].
  destruct (decodable _ _); [by simplify_eq; eexists|].
  destruct (extract_iframe_parts _ _) as [ps ifr sps pps vps].
  destruct (List.filter _ (reorder _ _)) as [|n ns]; destruct sps, pps; simplify_eq; by eexists.
Qed.

(** The video of a packet does not depend on when it is translated, nor on the
    gate. *)
Lemma translate_video_only p t now gate es pts t' :
  bytes_ok (packet_bytes p) -> translate p t now gate = Ret (es, pts, t') ->
  exists es', translate p t 0 false = Ret (es', pts, t') /\ video_frames es' = video_frames es.
Proof.
  intros Hb E. apply translate_now in E as (es' & E & <-).
  destruct (translate_gate p t 0 Hb) as (es0 & pts0 & t0 & E1 & E2).
  destruct gate; rewrite ?E1, ?E2 in E; injection E as <- <- <-; eexists; (split; [done|]); [|done].
  symmetry. apply video_frames_not_audio.
Qed.

(** Video emits carry video frames, audio emits do not. *)
Definition kind_ok (e : Emit) : Prop :=
  match e with
  | EmitVideo f _ => is_video_frame f = true
  | EmitAudio f _ => is_video_frame f = false
  | _ => True
  end.

Lemma audio_kind s s' es : audio_shape s s' es -> Forall kind_ok es.
Proof.
  intros (sdp & tail & -> & [[-> _]|(p & -> & _)] & [->|(pl & pts & pace & ->)]);
    cbn [app]; repeat (apply List.Forall_cons; [exact I || reflexivity|]); apply List.Forall_nil.
Qed.

Lemma translate_kind p t now gate es pts t' : translate p t now gate = Ret (es, pts, t') -> Forall kind_ok es.
Proof.
  destruct p as [i|i|f|f|a|a]; cbn [translate].
  - intros [= <- _ _]. constructor.
  - intros [= <- _ _]. constructor.
  - intros [= E]. unfold translate_iframe, video_frame_duration in E.
    destruct (split_annex_b _); [by simplify_eq|].
    destruct (detected_codec (match detected_codec t with Some _ => t | None => _ end)); [|by simplify_eq].
    destruct (decodable _ _); [by simplify_eq|].
    destruct (extract_iframe_parts _ _) as [ps ifr sps pps vps].
    destruct (List.filter _ (reorder _ _)); destruct sps, pps; simplify_eq; cbn [app];
      repeat (apply List.Forall_cons; [exact I || reflexivity|]); apply List.Forall_nil.
  - intros [= E]. unfold translate_pframe, video_frame_duration in E.
    destruct (detected_codec t); [|by simplify_eq]. destruct (split_annex_b _); [by simplify_eq|].
    destruct (decodable _ _); simplify_eq; cbn [app];
      repeat (apply List.Forall_cons; [exact I || reflexivity|]); apply List.Forall_nil.
  - pose proof (translate_aac_shape a t gate) as H. destruct (translate_aac a t gate) as [es0 t0].
    intros [= <- _ _]. by eapply audio_kind.
  - destruct (translate_adpcm a t gate) as [[es0 t0]|] eqn:E; [|done]. intros [= <- _ _].
    by eapply audio_kind, translate_adpcm_shape.
Qed.

(** A source whose pacers run, with the right frames in their queues. *)
Record paced (s : Source) : Prop := MkPaced {
  paced_video : exists q, video_pace_tx s = Paced q;
  paced_audio : exists q, audio_pace_tx s = Paced q;
  video_queue : Forall (fun it => is_video_frame (frame it) = true) (queue_of (video_pace_tx s));
  audio_queue : Forall (fun it => is_video_frame (frame it) = false) (queue_of (audio_pace_tx s))
}.

Definition queued (s : Source) : list Frame := map frame (queue_of (video_pace_tx s)).

Lemma apply_emit_paced s e :
  paced s -> kind_ok e ->
  paced (apply_emit s e) /\ tx (apply_emit s e) = tx s /\ translator_state (apply_emit s e) = translator_state s
  /\ exists acc, queued (apply_emit s e) = queued s ++ acc /\ sublist acc (video_frames [e])
       /\ ((length (queued s) < 300)%nat -> acc = video_frames [e]).
Proof.
  intros [[qv Ev] [qa Ea] Hv Ha] Hk. pose proof Hv as Hv0. pose proof Ha as Ha0. rewrite Ev in Hv. rewrite Ea in Ha. cbn [queue_of] in Hv, Ha.
  destruct e as [f d|f d|p|p|b|n|c]; cbn [apply_emit kind_ok] in *;
    [| | |destruct (sdp_audio s)| | |];
    try (split; [constructor; by eauto|split; [done|split; [done|exists []; split; [by rewrite app_nil_r|done]]]]).
  - unfold dispatch_paced_video. rewrite Ev. unfold queued. rewrite Ev. cbn [try_send queue_of].
    rewrite length_map. change VIDEO_PACER_QUEUE with 300%nat.
    destruct (Nat.ltb_spec (length qv) 300) as [Hl|Hl].
    + split; [constructor; cbn; eauto; apply Forall_app; by split; [|constructor]|].
      split; [done|]. split; [done|]. exists [f]. cbn [video_pace_tx set_video_pacer queue_of].
      rewrite map_app. by split.
    + split; [constructor; cbn; by eauto|]. split; [done|]. split; [done|]. exists []. cbn [video_pace_tx set_video_pacer queue_of].
      rewrite app_nil_r. split; [done|]. split; [|lia]. apply sublist_nil_l.
  - unfold dispatch_paced_audio. rewrite Ea. cbn [try_send]. destruct (length qa <? AUDIO_PACER_QUEUE)%nat.
    + split; [constructor; cbn; eauto; apply Forall_app; by split; [|constructor]|].
      split; [done|]. split; [done|]. exists []. rewrite app_nil_r. by split.
    + split; [constructor; cbn; by eauto|]. split; [done|]. split; [done|]. exists []. rewrite app_nil_r. by split.
Qed.

Lemma apply_emits_paced es s :
  paced s -> Forall kind_ok es ->
  let s' := fold_left apply_emit es s in
  paced s' /\ tx s' = tx s /\ translator_state s' = translator_state s
  /\ exists acc, queued s' = queued s ++ acc /\ sublist acc (video_frames es)
       /\ ((length (queued s) + length (video_frames es) <= 300)%nat -> acc = video_frames es).
Proof.
  intros Hs Hk. revert s Hs. induction Hk as [|e es He _ IH]; intros s Hs.
  { split; [done|]. split; [done|]. split; [done|]. exists []. by rewrite app_nil_r. }
  cbn [fold_left]. destruct (apply_emit_paced s e Hs He) as (H1 & H2 & H3 & acc & H4 & H5 & H6).
  destruct (IH _ H1) as (I1 & I2 & I3 & acc' & I4 & I5 & I6).
  split; [done|]. split; [by rewrite I2|]. split; [by rewrite I3|]. exists (acc ++ acc').
  change (e :: es) with ([e] ++ es). rewrite video_frames_app, length_app. split; [by rewrite I4, H4, app_assoc|].
  split; [by apply sublist_app|]. intros Hl.
  assert (length acc <= length (video_frames [e]))%nat as Hle by by apply sublist_length.
  rewrite H4, length_app in I6. rewrite I6 by lia. destruct (video_frames [e]) as [|f fs] eqn:Ef.
  - by apply sublist_nil_r in H5 as ->.
  - rewrite H6; [done|]. cbn [length] in Hl. lia.
Qed.

(** The translator's state after packets. *)
Fixpoint translator_after (packets : list BcMedia) (t : StreamTranslatorState) : StreamTranslatorState :=
  match packets with
  | [] => t
  | p :: packets =>
      match translate p t 0 false with
      | Ret (_, _, t) => translator_after packets t
      | Panic => t
      end
  end.

Lemma translate_total p t now gate :
  bytes_ok (packet_bytes p) -> exists es pts t', translate p t now gate = Ret (es, pts, t').
Proof. intros Hb. destruct (translate_gate p t now Hb) as (es & pts & t' & E1 & E2). destruct gate; eauto. Qed.

Lemma video_of_snoc packets p t es pts t' :
  Forall (fun p => bytes_ok (packet_bytes p)) packets -> translate p (translator_after packets t) 0 false = Ret (es, pts, t') ->
  video_of (packets ++ [p]) t = video_of packets t ++ video_frames es /\ translator_after (packets ++ [p]) t = t'.
Proof.
  intros Hb. revert t. induction Hb as [|q packets Hq _ IH]; intros t E; cbn [app video_of translator_after] in *.
  - rewrite E. by rewrite app_nil_r.
  - destruct (translate_total q t 0 false Hq) as (es0 & pts0 & t0 & E0). rewrite E0 in *.
    destruct (IH t0 E) as [-> ->]. by rewrite app_assoc.
Qed.

Record sys_inv (packets : list BcMedia) (y : System) : Prop := MkSysInv {
  sys_paced : paced (source y);
  sys_sleep_v : forall it t, sleeping (video_pacer y) = Some (it, t) -> is_video_frame (frame it) = true;
  sys_sleep_a : forall it t, sleeping (audio_pacer y) = Some (it, t) -> is_video_frame (frame it) = false;
  sys_translator : translator_state (source y) = translator_after packets default_state;
  sys_sub : sublist (past_reader y) (video_of packets default_state);
  sys_all : (length (video_of packets default_state) <= 300)%nat -> past_reader y = video_of packets default_state
}.

Lemma live_video_app s fs : live_video (send_live s fs) = live_video s ++ List.filter is_video_frame fs.
Proof.
  unfold live_video, send_live. cbn [tx set_tx]. rewrite List.filter_app, map_app, List.filter_app. f_equal.
  induction fs as [|f fs IH]; [done|]. simpl. by rewrite IH.
Qed.

(** A step that moves no live video and keeps the translator. *)
Lemma sys_inv_same packets y y' :
  sys_inv packets y -> paced (source y') ->
  (forall it t, sleeping (video_pacer y') = Some (it, t) -> is_video_frame (frame it) = true) ->
  (forall it t, sleeping (audio_pacer y') = Some (it, t) -> is_video_frame (frame it) = false) ->
  translator_state (source y') = translator_state (source y) -> past_reader y' = past_reader y -> sys_inv packets y'.
Proof.
  intros [H1 H2 H3 H4 H5 H6] Hp Hv Ha Ht Hpast. constructor; try done; [by rewrite Ht|by rewrite Hpast|].
  intros Hl. rewrite Hpast. by apply H6.
Qed.

Lemma tick_live s now :
  live_video (tick_bridging s now) = live_video s /\ video_pace_tx (tick_bridging s now) = video_pace_tx s
  /\ audio_pace_tx (tick_bridging s now) = audio_pace_tx s
  /\ translator_state (tick_bridging s now) = translator_state s.
Proof.
  unfold tick_bridging. destruct (on_tick _ now _) as [[pts|] b]; [|done].
  destruct (replay_payload (last_frame s)) as [[[c nals] p]|]; [|done].
  unfold live_video. cbn [tx set_tx set_bridging]. rewrite List.filter_app, map_app, List.filter_app. simpl.
  by rewrite app_nil_r.
Qed.

Lemma paced_ext s s' :
  paced s -> video_pace_tx s' = video_pace_tx s -> audio_pace_tx s' = audio_pace_tx s -> paced s'.
Proof. intros [H1 H2 H3 H4] Ev Ea. constructor; by rewrite ?Ev, ?Ea. Qed.

Lemma process_data packets s now vp ap continue p s' :
  Forall (fun p => bytes_ok (packet_bytes p)) (packets ++ [p]) ->
  sys_inv packets (MkSystem s true vp ap now) ->
  process_stream_result (Packet p) s now = Ret (continue, s') ->
  sys_inv (packets ++ [p]) (MkSystem s' continue vp ap now).
Proof.
  intros Hb [H1 H2 H3 H4 H5 H6] E. cbn [source video_pacer audio_pacer] in *.
  apply Forall_app in Hb as [Hb Hp]. inversion Hp as [|? ? Hp' _]; subst.
  cbn [process_stream_result] in E.
  set (s0 := if is_video_packet p then _ else s) in E.
  assert (paced s0 /\ tx s0 = tx s /\ translator_state s0 = translator_state s /\ queued s0 = queued s) as (P0 & T0 & S0 & Q0).
  { unfold s0. destruct (is_video_packet p); [|done]. split; [by apply (paced_ext s)|done]. }
  clearbody s0. unfold apply_bcmedia_packet in E.
  destruct (translate p (translator_state s0) now (is_bridging (bridging s0))) as [[[es pts] t]|] eqn:Et; [|done].
  cbn [out_bind] in E. destruct (apply_emits_paced es (set_translator s0 t)) as (P1 & T1 & S1 & acc & Q1 & Hacc & Hfull).
  { by apply (paced_ext s0). }
  { by eapply translate_kind. }
  set (s1 := fold_left apply_emit es (set_translator s0 t)) in *. clearbody s1.
  assert (paced s' /\ tx s' = tx s1 /\ translator_state s' = t /\ queued s' = queued s1 /\ continue = true) as (P2 & T2 & S2 & Q2 & ->).
  { injection E as <- <-. destruct pts; (split; [by apply (paced_ext s1)|]); repeat split; done. }
  rewrite S0, H4 in Et. apply translate_video_only in Et as (es' & Et & Ef); [|done].
  destruct (video_of_snoc packets p default_state es' pts t Hb Et) as [Ev Ea].
  assert (past_reader (MkSystem s' true vp ap now) = past_reader (MkSystem s true vp ap now) ++ acc) as Epast.
  { unfold past_reader. cbn [source video_pacer]. unfold live_video. rewrite T2, T1. cbn [tx set_translator]. rewrite T0.
    fold (queued s') (queued s). rewrite Q2, Q1. change (queued (set_translator s0 t)) with (queued s0). rewrite Q0.
    by rewrite <- !app_assoc. }
  constructor; cbn [source video_pacer audio_pacer]; try done.
  - by rewrite S2, Ea.
  - rewrite Epast, Ev, Ef. by apply sublist_app.
  - rewrite Epast, Ev, Ef. intros Hl. rewrite length_app in Hl. rewrite H6 by lia. f_equal. apply Hfull.
    change (queued (set_translator s0 t)) with (queued s0). rewrite Q0.
    assert (length (queued s) <= length (past_reader (MkSystem s true vp ap now)))%nat as Hq.
    { unfold past_reader. cbn [source]. fold (queued s). rewrite !length_app. lia. }
    rewrite H6 in Hq by lia. lia.
Qed.

Lemma act_inv packets a y y' :
  sys_inv packets y -> Forall (fun p => bytes_ok (packet_bytes p)) (packets ++ packets_of [a]) -> act a y = Some y' ->
  sys_inv (packets ++ packets_of [a]) y'.
Proof.
  intros Hi Hb E. destruct y as [s run vp ap now]. pose proof Hi as [H1 H2 H3 H4 H5 H6].
  cbn [source video_pacer audio_pacer] in *.
  destruct a as [d| |r| | | |]; [| |destruct r as [p| |]| | | |]; cbn [act] in E;
    try change (packets_of [_]) with (@nil BcMedia) in *; rewrite ?app_nil_r in *.
  - destruct (0 <=? d); [|done]. injection E as <-. by apply (sys_inv_same packets _ _ Hi).
  - destruct run; [|done]. injection E as <-. destruct (tick_live s now) as (L1 & L2 & L3 & L4).
    apply (sys_inv_same packets _ _ Hi); cbn [source video_pacer audio_pacer]; try done; [by apply (paced_ext s)|].
    unfold past_reader. cbn [source video_pacer]. by rewrite L1, L2.
  - change (packets_of [ReaderData (Packet p)]) with [p] in *. destruct run; [|done].
    destruct (process_stream_result (Packet p) s now) as [[c s']|] eqn:Ep; [|done]. injection E as <-.
    by eapply process_data.
  - destruct run; [|done]. cbn in E. injection E as <-. by apply (sys_inv_same packets _ _ Hi).
  - destruct run; [|done]. cbn in E. injection E as <-. by apply (sys_inv_same packets _ _ Hi).
  - destruct (sleeping vp) as [x|] eqn:Es; [done|]. destruct H1 as [[q Eq] Ha0 Hvq Haq].
    rewrite Eq in E, Hvq. cbn [queue_of] in E, Hvq. destruct q as [|it q]; [done|]. inversion Hvq as [|? ? Hit Hq]; subst.
    unfold pacer_take in E. destruct (now <? _); injection E as <-;
      (apply (sys_inv_same packets _ _ Hi); cbn [source video_pacer audio_pacer sleeping];
       [constructor; cbn; [by eauto|done|done|done]|intros it' t Hx; by simplify_eq|done|done|]);
      unfold past_reader; cbn [source video_pacer sleeping]; rewrite live_video_app, Es, Eq; cbn [List.filter].
    + by rewrite app_nil_r.
    + rewrite Hit, <- app_assoc. reflexivity.
  - unfold pacer_wake in E. destruct (sleeping vp) as [[it t]|] eqn:Es; [|done]. destruct (t <=? now); [|done].
    injection E as <-. apply (sys_inv_same packets _ _ Hi); cbn [source video_pacer audio_pacer]; try done.
    + by apply (paced_ext s).
    + unfold past_reader. cbn [source video_pacer sleeping]. rewrite live_video_app, Es. cbn [List.filter]. rewrite (H2 it t eq_refl).
      rewrite <- app_assoc. reflexivity.
  - destruct (sleeping ap) as [x|] eqn:Es; [done|]. destruct H1 as [Hv0 [q Eq] Hvq Haq].
    rewrite Eq in E, Haq. cbn [queue_of] in E, Haq. destruct q as [|it q]; [done|]. inversion Haq as [|? ? Hit Hq]; subst.
    unfold pacer_take in E. destruct (now <? _); injection E as <-;
      (apply (sys_inv_same packets _ _ Hi); cbn [source video_pacer audio_pacer sleeping];
       [constructor; cbn; [done|by eauto|done|done]|done|intros it' t Hx; by simplify_eq|done|]);
      unfold past_reader; cbn [source video_pacer]; rewrite live_video_app; cbn [List.filter];
      rewrite ?Hit; by rewrite app_nil_r.
  - unfold pacer_wake in E. destruct (sleeping ap) as [[it t]|] eqn:Es; [|done]. destruct (t <=? now); [|done].
    injection E as <-. apply (sys_inv_same packets _ _ Hi); cbn [source video_pacer audio_pacer]; try done.
    + by apply (paced_ext s).
    + unfold past_reader. cbn [source video_pacer]. rewrite live_video_app. cbn [List.filter]. rewrite (H3 it t eq_refl).
      by rewrite app_nil_r.
Qed.

Lemma act_all_inv packets acts y y' :
  sys_inv packets y -> Forall (fun p => bytes_ok (packet_bytes p)) (packets ++ packets_of acts) ->
  act_all acts y = Some y' -> sys_inv (packets ++ packets_of acts) y'.
Proof.
  revert packets y. induction acts as [|a acts IH]; intros packets y Hi Hb E; cbn [act_all] in E.
  { injection E as <-. by rewrite app_nil_r. }
  destruct (act a y) as [y1|] eqn:Ea; [|done]. cbn [mbind option_bind] in E.
  assert (packets_of (a :: acts) = packets_of [a] ++ packets_of acts) as Ep.
  { unfold packets_of. cbn [map concat]. by rewrite app_nil_r. }
  rewrite Ep, app_assoc in *. apply (IH _ y1); [|done|done]. apply (act_inv _ _ y); [done| |done].
  by apply Forall_app in Hb as [Hb _].
Qed.

Lemma system_inv lf presence gap now : sys_inv [] (system lf presence gap now).
Proof. constructor; cbn; try done. constructor; cbn; eauto. Qed.

(** C15: Whatever the order in which the reader, the
    ticker and the pacers run, the live video broadcast is, in order and each
    frame once, taken from what the translator makes of the packets read, and
    nothing is lost on the way: until more than 300 frames have been made, what
    is broadcast, held and queued is exactly that. *)
Theorem live_video_order acts lf presence gap now y :
  Forall (fun p => bytes_ok (packet_bytes p)) (packets_of acts) ->
  act_all acts (system lf presence gap now) = Some y ->
  let made := video_of (packets_of acts) default_state in
  sublist (live_video (source y)) made
  /\ ((length made <= 300)%nat -> past_reader y = made).
Proof.
  intros Hb E made. destruct (act_all_inv [] acts _ y (system_inv lf presence gap now) Hb E) as [_ _ _ _ Hs Ha].
  split; [|exact Ha]. etransitivity; [|exact Hs]. apply sublist_inserts_r. done.
Qed.

(** *** A gap bridged over a backlog *)

Definition key_packet (micros : Z) : BcMedia :=
  Iframe (MkIframe TypeH264 micros None [0; 0; 0; 1; 0x67; 66; 0; 30; 0; 0; 0; 1; 0x68; 1; 0; 0; 0; 1; 0x65; 9]).
Definition delta_packet (micros : Z) : BcMedia := Pframe (MkPframe TypeH264 micros [0; 0; 0; 1; 0x41; 9]).

(** Three seconds of video delivered at once, then silence. *)
Definition backlog : list action :=
  map (fun p => ReaderData (Packet p)) [key_packet 0; delta_packet 1000000; delta_packet 2000000; delta_packet 3000000] ++
  [VideoTake; Wait (millis 1500); VideoWake; VideoTake; VideoTake; Wait (millis 1000); VideoWake; VideoTake;
   Wait (millis 700); ReaderTick; Wait (millis 300); VideoWake].

Definition frame_time (x : bool * Frame) : Z := match snd x with VideoFrame _ _ pts _ _ | AudioFrame _ pts => pts end.

(** The gap policy counts a frame as sent when
    it is queued, and replays bypass the queue. With the default threshold of
    3 s, three seconds of video that arrive at once and then a pause make the
    source broadcast a replay stamped 6.2 s, and after it the last queued frame,
    stamped 3 s: the video timestamps go back. *)
Theorem bridging_goes_back :
  exists y pre, act_all backlog (system FrameBuffer.new Unknown (millis 3000) 0) = Some y
    /\ map fst (tx (source y)) = pre ++ [true; false]
    /\ map frame_time (tx (source y)) = [0; 90000; 180000; 558000; 270000].
Proof. eexists _, [false; false; false]. split; [vm_compute; reflexivity|]. split; vm_compute; reflexivity. Qed.

(** ** Waiting for the session description *)

(** Polls follow each other by at least the interval. *)
Fixpoint polled {P} (from : Z) (polls : list (Z * P)) : Prop :=
  match polls with [] => True | (now, _) :: polls => from <= now /\ polled (now + SDP_POLL_INTERVAL) polls end.

Lemma polled_mono {P} a b (polls : list (Z * P)) : a <= b -> polled b polls -> polled a polls.
Proof. destruct polls as [|[now p] polls]; [done|]. intros H [H1 H2]. split; [lia|done]. Qed.

(** Waiting for the description ends: after
    at most [timeout / 100 ms + 2] polls it has an answer, which is either a
    snapshot that was ready when it was read, or the timeout, given only past
    the deadline to a poll that found nothing. *)
Theorem await_sdp_returns {P} (ready : P -> bool) from timeout polls :
  0 <= timeout -> polled from polls -> timeout / SDP_POLL_INTERVAL + 1 < Z.of_nat (length polls) ->
  match await_sdp ready from timeout polls with
  | None => False
  | Some (Ok p) => ready p = true /\ exists now, In (now, p) polls
  | Some (Err _) => exists now p, In (now, p) polls /\ ready p = false /\ from + timeout < now
  end.
Proof.
  intros Ht Hp Hl.
  assert (forall k polls0, polled (from + k * SDP_POLL_INTERVAL) polls0 -> 0 <= k ->
    timeout / SDP_POLL_INTERVAL + 1 < k + Z.of_nat (length polls0) -> k <= timeout / SDP_POLL_INTERVAL + 1 ->
    match await_sdp ready from timeout polls0 with
    | None => False
    | Some (Ok p) => ready p = true /\ exists now, In (now, p) polls0
    | Some (Err _) => exists now p, In (now, p) polls0 /\ ready p = false /\ from + timeout < now
    end) as H; [|apply (H 0); [by rewrite Z.mul_0_l, Z.add_0_r|lia|lia|]; pose proof (Z.div_pos timeout SDP_POLL_INTERVAL Ht); unfold SDP_POLL_INTERVAL, millis in *; lia].
  clear polls Hp Hl. intros k polls. revert k. induction polls as [|[now p] polls IH]; intros k Hp Hk Hl Hk'.
  { cbn [length] in Hl. lia. }
  destruct Hp as [Hn Hp]. cbn [await_sdp]. destruct (ready p) eqn:Er; [split; [done|exists now; by left]|].
  destruct (Z.ltb_spec timeout (now - from)) as [Hd|Hd].
  { exists now, p. split; [by left|]. split; [done|lia]. }
  assert (k <= timeout / SDP_POLL_INTERVAL) as Hk2.
  { apply Z.div_le_lower_bound; [done|]. rewrite Z.mul_comm. lia. }
  assert (polled (from + (k + 1) * SDP_POLL_INTERVAL) polls) as Hp' by (apply (polled_mono _ (now + SDP_POLL_INTERVAL)); [lia|done]).
  specialize (IH (k + 1) Hp'). destruct (await_sdp ready from timeout polls) as [[q|[]]|].
  - destruct IH as [H1 [n H2]]; [lia|cbn [length] in Hl; lia|lia|]. split; [done|]. exists n. by right.
  - destruct IH as (n & q & H1 & H2); [lia|cbn [length] in Hl; lia|lia|]. exists n, q. split; [by right|done].
  - apply IH; [lia|cbn [length] in Hl; lia|lia].
Qed.

(** ** Examples *)

Definition sample_item (pts d now woken : Z) : PacedFrame * Z * Z :=
  (MkPacedFrame (VideoFrame H264 [[0x41; 1]] pts false true) d, now, woken).

(** Decides [timely] on a concrete run. *)
Ltac run_timely :=
  repeat first
    [ exact I
    | split; [vm_compute; discriminate|]
    | split; [let H := fresh in intros H; first [vm_compute in H; discriminate H|split; vm_compute; discriminate]|] ].

Lemma video_pacer_schedule_witness :
  exists t, video_pacer_task pacer_start
    [sample_item 0 0 0 (millis 1500); sample_item 3000 33333 (millis 1500) 0; sample_item 6000 33333 (millis 1500) (millis 1535)]
    !! 2%nat = Some (VideoFrame H264 [[0x41; 1]] 6000 false true, t) /\ millis 1500 <= t.
Proof.
  destruct (video_pacer_schedule
    [sample_item 0 0 0 (millis 1500); sample_item 3000 33333 (millis 1500) 0; sample_item 6000 33333 (millis 1500) (millis 1535)]
    (millis 10) (sample_item 0 0 0 (millis 1500)) 2 (sample_item 6000 33333 (millis 1500) (millis 1535)) 0)
    as (_ & t & E & H1 & H2).
  - run_timely.
  - repeat (apply List.Forall_cons; [split; vm_compute; discriminate|]). apply List.Forall_nil.
  - reflexivity.
  - reflexivity.
  - exists t. split; [exact E|]. destruct (H2 ltac:(vm_compute; reflexivity)) as [H3 _].
    etransitivity; [|exact H3]. vm_compute. discriminate.
Defined.

Lemma audio_pacer_spacing_witness :
  exists tx ty, tx + 64000000 <= ty + 0 /\ tx = millis 500 /\ ty = millis 564.
Proof.
  destruct (audio_pacer_spacing [] (sample_item 0 64000 0 (millis 500)) [sample_item 1 64000 (millis 500) (millis 564)]
    0 0 (sample_item 1 64000 (millis 500) (millis 564)) (millis 500) (millis 564) 0) as [_ H].
  - run_timely.
  - repeat (apply List.Forall_cons; [split; vm_compute; discriminate|]). apply List.Forall_nil.
  - lia.
  - reflexivity.
  - reflexivity.
  - reflexivity.
  - exists (millis 500), (millis 564). split; [exact H|]. split; reflexivity.
Defined.

Lemma live_video_order_witness :
  exists y, act_all backlog (system FrameBuffer.new Unknown (millis 3000) 0) = Some y
    /\ past_reader y = video_of (packets_of backlog) default_state /\ length (past_reader y) = 4%nat.
Proof.
  destruct (act_all backlog (system FrameBuffer.new Unknown (millis 3000) 0)) as [y|] eqn:E;
    [|vm_compute in E; discriminate E].
  exists y. destruct (live_video_order backlog FrameBuffer.new Unknown (millis 3000) 0 y) as [_ H]; [|exact E|].
  - repeat (apply List.Forall_cons; [repeat (apply List.Forall_cons; [unfold in_u; cbn; lia|]); apply List.Forall_nil|]). apply List.Forall_nil.
  - split; [reflexivity|]. rewrite H; [split; vm_compute; reflexivity|]. vm_compute. lia.
Defined.

Lemma await_sdp_returns_witness :
  match await_sdp audio_ready 0 (millis 150) [(0, (None, None)); (millis 100, (None, None)); (millis 200, (None, None))] with
  | Some (Err _) => True
  | _ => False
  end.
Proof.
  pose proof (await_sdp_returns audio_ready 0 (millis 150)
    [(0, (None, None)); (millis 100, (None, None)); (millis 200, (None, None))]) as H.
  destruct (await_sdp audio_ready 0 (millis 150) _) as [[q|e]|].
  - destruct H as [Hq [n Hn]]; [done|cbn; unfold SDP_POLL_INTERVAL, millis; lia|vm_compute; reflexivity|].
    cbn in Hn. destruct Hn as [Hn|[Hn|[Hn|[]]]]; injection Hn as _ <-; discriminate Hq.
  - exact I.
  - apply H; [done|cbn; unfold SDP_POLL_INTERVAL, millis; lia|vm_compute; reflexivity].
Defined.
