(* ===== verification/BcUdpXml.v ===== *)
(** * The discovery documents ([src/baichuan/bcudp/xml.rs])

    The XML of a discovery packet is one of 29 documents under a [P2P] root:
    who talks to whom (C client, D device, M middleman, R register), then what.
    [Serde] is the pair of conversions that serde and [quick_xml] derive for
    the type; with it the documents are an instance of what the datagram codec
    asks of a payload. Field names carry the struct's name; a constructor is the
    source's with an X before it, since the structs have the names too. *)

From S2P Require Import Prelude BcUdp Text.

Record PortList := MkPortList { plist_port : Z }.
#[export] Instance PortList_eq_dec : EqDecision PortList. Proof. solve_decision. Defined.

Record ClientList := MkClientList { clist_port : Z }.
#[export] Instance ClientList_eq_dec : EqDecision ClientList. Proof. solve_decision. Defined.

Record Timer := MkTimer { timer_def : Z; timer_hb : Z; timer_hbt : Z }.
#[export] Instance Timer_eq_dec : EqDecision Timer. Proof. solve_decision. Defined.

Record IpPort := MkIpPort { ip : str; port : Z }.
#[export] Instance IpPort_eq_dec : EqDecision IpPort. Proof. solve_decision. Defined.

Record EmptyTag := MkEmptyTag { }.
#[export] Instance EmptyTag_eq_dec : EqDecision EmptyTag. Proof. solve_decision. Defined.

Record HbTimer := MkHbTimer { hbtimer_hb : Z }.
#[export] Instance HbTimer_eq_dec : EqDecision HbTimer. Proof. solve_decision. Defined.

Record C2dS := MkC2dS { c2ds_to : PortList }.
#[export] Instance C2dS_eq_dec : EqDecision C2dS. Proof. solve_decision. Defined.

Record C2dC := MkC2dC {
  c2dc_uid : str; c2dc_cli : ClientList; c2dc_cid : Z; c2dc_mtu : Z; c2dc_debug : bool; c2dc_os : str;
  c2dc_lver : Z
}.
#[export] Instance C2dC_eq_dec : EqDecision C2dC. Proof. solve_decision. Defined.

Record D2cCr := MkD2cCr {
  d2ccr_timer : Timer; d2ccr_rsp : Z; d2ccr_cid : Z; d2ccr_did : Z; d2ccr_pl : option str;
  d2ccr_nc : option Z
}.
#[export] Instance D2cCr_eq_dec : EqDecision D2cCr. Proof. solve_decision. Defined.

Record C2dDisc := MkC2dDisc { c2ddisc_cid : Z; c2ddisc_did : Z }.
#[export] Instance C2dDisc_eq_dec : EqDecision C2dDisc. Proof. solve_decision. Defined.

Record D2cDisc := MkD2cDisc { d2cdisc_cid : Z; d2cdisc_did : Z }.
#[export] Instance D2cDisc_eq_dec : EqDecision D2cDisc. Proof. solve_decision. Defined.

Record R2cDisc := MkR2cDisc { r2cdisc_sid : Z }.
#[export] Instance R2cDisc_eq_dec : EqDecision R2cDisc. Proof. solve_decision. Defined.

Record D2cT := MkD2cT { d2ct_sid : Z; d2ct_conn : str; d2ct_cid : Z; d2ct_did : Z }.
#[export] Instance D2cT_eq_dec : EqDecision D2cT. Proof. solve_decision. Defined.

Record C2dT := MkC2dT { c2dt_sid : Z; c2dt_conn : str; c2dt_cid : Z; c2dt_mtu : Z }.
#[export] Instance C2dT_eq_dec : EqDecision C2dT. Proof. solve_decision. Defined.

Record C2mQ := MkC2mQ { c2mq_uid : str; c2mq_os : str }.
#[export] Instance C2mQ_eq_dec : EqDecision C2mQ. Proof. solve_decision. Defined.

Record D2mQ := MkD2mQ { d2mq_uid : str; d2mq_revision : option Z }.
#[export] Instance D2mQ_eq_dec : EqDecision D2mQ. Proof. solve_decision. Defined.

Record M2dQr := MkM2dQr {
  m2dqr_reg : IpPort; m2dqr_log : IpPort; m2dqr_timer : EmptyTag; m2dqr_retry : EmptyTag; m2dqr_rsp : Z;
  m2dqr_token : Z; m2dqr_ac : Z
}.
#[export] Instance M2dQr_eq_dec : EqDecision M2dQr. Proof. solve_decision. Defined.

Record D2rR := MkD2rR { d2rr_uid : str; d2rr_token : Z; d2rr_revision : option Z }.
#[export] Instance D2rR_eq_dec : EqDecision D2rR. Proof. solve_decision. Defined.

Record R2dRr := MkR2dRr { r2drr_rsp : Z; r2drr_ac : Z }.
#[export] Instance R2dRr_eq_dec : EqDecision R2dRr. Proof. solve_decision. Defined.

Record M2cQr := MkM2cQr {
  m2cqr_reg : option IpPort; m2cqr_relay : option IpPort; m2cqr_log : option IpPort; m2cqr_t : option IpPort
}.
#[export] Instance M2cQr_eq_dec : EqDecision M2cQr. Proof. solve_decision. Defined.

Record C2rC := MkC2rC {
  c2rc_uid : str; c2rc_cli : IpPort; c2rc_relay : IpPort; c2rc_cid : Z; c2rc_debug : bool; c2rc_family : Z;
  c2rc_os : str; c2rc_revision : option Z
}.
#[export] Instance C2rC_eq_dec : EqDecision C2rC. Proof. solve_decision. Defined.

Record R2cT := MkR2cT { r2ct_dmap : option IpPort; r2ct_dev : option IpPort; r2ct_cid : Z; r2ct_sid : Z }.
#[export] Instance R2cT_eq_dec : EqDecision R2cT. Proof. solve_decision. Defined.

Record R2cCr := MkR2cCr {
  r2ccr_dev : option IpPort; r2ccr_dmap : option IpPort; r2ccr_relay : option IpPort;
  r2ccr_relayt : option IpPort; r2ccr_nat : str; r2ccr_sid : option Z; r2ccr_rsp : Z; r2ccr_ac : Z
}.
#[export] Instance R2cCr_eq_dec : EqDecision R2cCr. Proof. solve_decision. Defined.

Record D2cCfm := MkD2cCfm {
  d2ccfm_sid : Z; d2ccfm_conn : str; d2ccfm_rsp : Z; d2ccfm_cid : Z; d2ccfm_did : Z;
  d2ccfm_time_r : option Z
}.
#[export] Instance D2cCfm_eq_dec : EqDecision D2cCfm. Proof. solve_decision. Defined.

Record C2rCfm := MkC2rCfm {
  c2rcfm_sid : Z; c2rcfm_conn : str; c2rcfm_rsp : Z; c2rcfm_cid : Z; c2rcfm_did : Z
}.
#[export] Instance C2rCfm_eq_dec : EqDecision C2rCfm. Proof. solve_decision. Defined.

Record C2dA := MkC2dA { c2da_sid : Z; c2da_conn : str; c2da_cid : Z; c2da_did : Z; c2da_mtu : Z }.
#[export] Instance C2dA_eq_dec : EqDecision C2dA. Proof. solve_decision. Defined.

Record C2dHb := MkC2dHb { c2dhb_cid : Z; c2dhb_did : Z }.
#[export] Instance C2dHb_eq_dec : EqDecision C2dHb. Proof. solve_decision. Defined.

Record C2rHb := MkC2rHb { c2rhb_sid : Z; c2rhb_cid : Z; c2rhb_did : Z }.
#[export] Instance C2rHb_eq_dec : EqDecision C2rHb. Proof. solve_decision. Defined.

Record D2cHb := MkD2cHb { d2chb_cid : Z; d2chb_did : Z }.
#[export] Instance D2cHb_eq_dec : EqDecision D2cHb. Proof. solve_decision. Defined.

Record D2rHb := MkD2rHb {
  d2rhb_uid : str; d2rhb_dev : option IpPort; d2rhb_needrsp : option Z; d2rhb_token : Z
}.
#[export] Instance D2rHb_eq_dec : EqDecision D2rHb. Proof. solve_decision. Defined.

Record R2dHbr := MkR2dHbr { r2dhbr_rsp : Z; r2dhbr_time_t : Z; r2dhbr_timer : HbTimer }.
#[export] Instance R2dHbr_eq_dec : EqDecision R2dHbr. Proof. solve_decision. Defined.

Record R2dC := MkR2dC {
  r2dc_cli : IpPort; r2dc_cmap : IpPort; r2dc_relay : IpPort; r2dc_sid : Z; r2dc_cid : Z
}.
#[export] Instance R2dC_eq_dec : EqDecision R2dC. Proof. solve_decision. Defined.

Record D2rCr := MkD2rCr { d2rcr_sid : Z; d2rcr_dev : option IpPort; d2rcr_rsp : Z }.
#[export] Instance D2rCr_eq_dec : EqDecision D2rCr. Proof. solve_decision. Defined.

Record D2rDisc := MkD2rDisc { d2rdisc_sid : Z }.
#[export] Instance D2rDisc_eq_dec : EqDecision D2rDisc. Proof. solve_decision. Defined.

Record R2dDcr := MkR2dDcr { r2ddcr_sid : Z; r2ddcr_rsp : Z }.
#[export] Instance R2dDcr_eq_dec : EqDecision R2dDcr. Proof. solve_decision. Defined.

Inductive UdpXml :=
| XC2dS (x : C2dS)
| XC2dC (x : C2dC)
| XD2cCr (x : D2cCr)
| XD2cT (x : D2cT)
| XC2dT (x : C2dT)
| XD2cCfm (x : D2cCfm)
| XC2dDisc (x : C2dDisc)
| XD2cDisc (x : D2cDisc)
| XR2cDisc (x : R2cDisc)
| XC2mQ (x : C2mQ)
| XM2cQr (x : M2cQr)
| XC2rC (x : C2rC)
| XR2cT (x : R2cT)
| XR2cCr (x : R2cCr)
| XC2rCfm (x : C2rCfm)
| XC2dA (x : C2dA)
| XC2dHb (x : C2dHb)
| XC2rHb (x : C2rHb)
| XD2cHb (x : D2cHb)
| XD2rHb (x : D2rHb)
| XR2dHbr (x : R2dHbr)
| XR2dC (x : R2dC)
| XD2rCr (x : D2rCr)
| XD2rDisc (x : D2rDisc)
| XR2dDcr (x : R2dDcr)
| XD2mQ (x : D2mQ)
| XM2dQr (x : M2dQr)
| XD2rR (x : D2rR)
| XR2dRr (x : R2dRr).
#[export] Instance UdpXml_eq_dec : EqDecision UdpXml. Proof. solve_decision. Defined.

(** ** The text *)

Class Serde := {
  (** [UdpXml::try_parse] *)
  try_parse : bytes -> option UdpXml;
  (** [UdpXml::serialize] *)
  to_xml : UdpXml -> option bytes
}.

(** The two disconnects are what the codec looks at. *)
Definition udp_xml_kind (x : UdpXml) : UdpXmlKind :=
  match x with
  | XR2cDisc _ => BcUdp.R2cDisc
  | XD2cDisc _ => BcUdp.D2cDisc
  | _ => OtherXml
  end.

#[export] Instance udp_xml_codec `{Serde} : UdpXmlCodec := {|
  BcUdp.UdpXml := UdpXml;
  xml_try_parse := try_parse;
  xml_serialize := to_xml;
  xml_kind := udp_xml_kind
|}.

(** ** An instance

    A length-prefixed text for the documents of the wake server; it writes only
    what it reads back. *)

Module Toy.

Definition num (n : Z) : bytes := (if n <? 0 then 1 else 0) :: to_le_bytes 8 (Z.abs n).
Definition unnum (b : bytes) : Z :=
  match b with sign :: b => if sign =? 1 then - of_le_bytes b else of_le_bytes b | [] => 0 end.

Definition txt (s : str) : bytes := concat (map (to_le_bytes 3) s).
Fixpoint untxt (b : bytes) : str :=
  match b with x :: y :: z :: b => of_le_bytes [x; y; z] :: untxt b | _ => [] end.

Definition flag (b : bool) : bytes := if b then [1] else [].
Definition unflag (b : bytes) : bool := match b with [] => false | _ => true end.

Definition addr (a : IpPort) : bytes := num (port a) ++ txt (ip a).
Definition unaddr (b : bytes) : IpPort := MkIpPort (untxt (drop 9 b)) (unnum (take 9 b)).

Definition opt {A} (f : A -> bytes) (o : option A) : bytes := match o with Some x => f x | None => [] end.
Definition unopt {A} (f : bytes -> A) (b : bytes) : option A := match b with [] => None | _ => Some (f b) end.

Definition fields (x : UdpXml) : list bytes :=
  match x with
  | XD2mQ q => [[1]; txt (d2mq_uid q); opt num (d2mq_revision q)]
  | XM2dQr r => [[2]; addr (m2dqr_reg r); addr (m2dqr_log r); num (m2dqr_rsp r); num (m2dqr_token r);
      num (m2dqr_ac r)]
  | XD2rR r => [[3]; txt (d2rr_uid r); num (d2rr_token r); opt num (d2rr_revision r)]
  | XR2dRr r => [[4]; num (r2drr_rsp r); num (r2drr_ac r)]
  | XD2rHb h => [[5]; txt (d2rhb_uid h); opt addr (d2rhb_dev h); opt num (d2rhb_needrsp h); num (d2rhb_token h)]
  | XC2rC c => [[6]; txt (c2rc_uid c); addr (c2rc_cli c); addr (c2rc_relay c); num (c2rc_cid c); flag (c2rc_debug c);
      num (c2rc_family c); txt (c2rc_os c); opt num (c2rc_revision c)]
  | XR2cCr r => [[7]; opt addr (r2ccr_dev r); opt addr (r2ccr_dmap r); opt addr (r2ccr_relay r);
      opt addr (r2ccr_relayt r); txt (r2ccr_nat r); opt num (r2ccr_sid r); num (r2ccr_rsp r); num (r2ccr_ac r)]
  | XR2cT t => [[8]; opt addr (r2ct_dmap t); opt addr (r2ct_dev t); num (r2ct_cid t); num (r2ct_sid t)]
  | XR2dC c => [[9]; addr (r2dc_cli c); addr (r2dc_cmap c); addr (r2dc_relay c); num (r2dc_sid c); num (r2dc_cid c)]
  | XC2mQ q => [[11]; txt (c2mq_uid q); txt (c2mq_os q)]
  | XR2dHbr r => [[10]; num (r2dhbr_rsp r); num (r2dhbr_time_t r); num (hbtimer_hb (r2dhbr_timer r))]
  | _ => []
  end.

Definition unfields (fs : list bytes) : option UdpXml :=
  match fs with
  | [[1]; u; r] => Some (XD2mQ (MkD2mQ (untxt u) (unopt unnum r)))
  | [[2]; a; b; r; t; c] =>
      Some (XM2dQr (MkM2dQr (unaddr a) (unaddr b) MkEmptyTag MkEmptyTag (unnum r) (unnum t) (unnum c)))
  | [[3]; u; t; r] => Some (XD2rR (MkD2rR (untxt u) (unnum t) (unopt unnum r)))
  | [[4]; r; c] => Some (XR2dRr (MkR2dRr (unnum r) (unnum c)))
  | [[5]; u; d; n; t] => Some (XD2rHb (MkD2rHb (untxt u) (unopt unaddr d) (unopt unnum n) (unnum t)))
  | [[6]; u; c; r; i; d; f; p; v] =>
      Some (XC2rC (MkC2rC (untxt u) (unaddr c) (unaddr r) (unnum i) (unflag d) (unnum f) (untxt p) (unopt unnum v)))
  | [[7]; d; m; r; t; n; s; p; c] =>
      Some (XR2cCr (MkR2cCr (unopt unaddr d) (unopt unaddr m) (unopt unaddr r) (unopt unaddr t) (untxt n)
                     (unopt unnum s) (unnum p) (unnum c)))
  | [[8]; m; d; i; s] => Some (XR2cT (MkR2cT (unopt unaddr m) (unopt unaddr d) (unnum i) (unnum s)))
  | [[9]; c; m; r; s; i] => Some (XR2dC (MkR2dC (unaddr c) (unaddr m) (unaddr r) (unnum s) (unnum i)))
  | [[11]; u; o] => Some (XC2mQ (MkC2mQ (untxt u) (untxt o)))
  | [[10]; r; t; h] => Some (XR2dHbr (MkR2dHbr (unnum r) (unnum t) (MkHbTimer (unnum h))))
  | _ => None
  end.

Fixpoint unframe (fuel : nat) (b : bytes) : list bytes :=
  match fuel, b with
  | S fuel, x :: y :: b =>
      let n := Z.to_nat (of_le_bytes [x; y]) in take n b :: unframe fuel (drop n b)
  | _, _ => []
  end.

Definition parse (b : bytes) : option UdpXml := unfields (unframe (length b) b).

Definition write (x : UdpXml) : option bytes :=
  let b := concat (map (fun f => to_le_bytes 2 (len f) ++ f) (fields x)) in
  if decide (parse b = Some x) then if forallb (fun z => (0 <=? z) && (z <? 256)) b then Some b else None else None.
End Toy.

Definition serde_toy : Serde := {| try_parse := Toy.parse; to_xml := Toy.write |}.

Lemma serde_toy_laws : UdpXmlLaws (udp_xml_codec (H := serde_toy)).
Proof.
  split; intros x b; cbn [xml_serialize xml_try_parse udp_xml_codec to_xml try_parse serde_toy]; unfold Toy.write;
    (destruct (decide _) as [E|]; [|done]); destruct (forallb _ _) eqn:F; intros [= <-].
  - apply List.Forall_forall. intros z Hz. apply (proj1 (forallb_forall _ _) F) in Hz. int_lia.
  - exact E.
Qed.

(** It does write a document of the server. *)
Example toy_writes : Toy.write (XR2dRr (MkR2dRr (-4) 7)) <> None.
Proof. vm_compute. congruence. Qed.
