(* ===== verification/WakeServer.v ===== *)
(** * The wake server ([src/wake_server/])

    The local stand-in for the vendor's cloud that wakes battery cameras: two
    UDP listeners, the middleman (middleman.rs), which tells cameras and clients
    where to register, and the register (register.rs), which keeps the address
    each camera's heartbeats come from and, when a client asks, sends the camera
    a burst of wake packets. They share the table of session anchors
    (registry.rs) and the cache of advertised addresses (route.rs).

    A step is one datagram handled to its end. Each handler locks each table it
    shares with the other listener once, so its steps can be ordered by those
    locks; only the address cache is locked twice, and two misses then write it
    twice. [Datagram] carries what the handler reads besides: the clock, random
    numbers, the kernel's answer about routes and the order in which the hash
    table happens to be walked. Instants are in nanoseconds. *)

From S2P Require Import Prelude Wire Text BcUdp BcUdpXml.

(** ** Addresses, as the standard library has them *)

(** Four octets, or eight 16-bit segments. *)
Inductive IpAddr := V4 (octets : list Z) | V6 (segments : list Z).

#[export] Instance IpAddr_eq_dec : EqDecision IpAddr.
Proof. solve_decision. Defined.

#[export] Instance IpAddr_countable : Countable IpAddr.
Proof.
  apply (inj_countable' (fun a => match a with V4 l => inl l | V6 l => inr l end)
                        (fun x => match x with inl l => V4 l | inr l => V6 l end)).
  by intros [].
Defined.

Record SocketAddr := MkSocketAddr { addr_ip : IpAddr; addr_port : Z }.

#[export] Instance SocketAddr_eq_dec : EqDecision SocketAddr.
Proof. solve_decision. Defined.

Definition is_unspecified (a : IpAddr) : bool :=
  match a with V4 l => forallb (Z.eqb 0) l | V6 l => forallb (Z.eqb 0) l end.

Definition LOCALHOST4 : IpAddr := V4 [127; 0; 0; 1].
Definition LOCALHOST6 : IpAddr := V6 [0; 0; 0; 0; 0; 0; 0; 1].

(** *** [to_string] *)

Definition hex_digit (d : Z) : Z := if d <? 10 then 48 + d else 87 + d.

(** Lower case, without leading zeros. *)
Definition show_segment (n : Z) : str :=
  let digits := map (fun k => n / 16 ^ k mod 16) [3; 2; 1; 0] in
  match drop_while (Z.eqb 0) digits with [] => [48] | ds => map hex_digit ds end.

Definition join (sep : str) (parts : list str) : str :=
  match parts with [] => [] | p :: ps => p ++ concat (map (fun q => sep ++ q) ps) end.

Definition show_v4 (octets : list Z) : str := join (lit ".") (map show_uint octets).

(** Start and length of the first of the longest runs of zero segments. *)
Fixpoint longest_zeros (i : nat) (segments : list Z) (current longest : nat * nat) : nat * nat :=
  match segments with
  | [] => longest
  | s :: segments =>
      if s =? 0 then
        let start := if (snd current =? 0)%nat then i else fst current in
        let current := (start, S (snd current)) in
        longest_zeros (S i) segments current (if (snd longest <? snd current)%nat then current else longest)
      else longest_zeros (S i) segments (0, 0)%nat longest
  end.

Definition show_ip (a : IpAddr) : str :=
  match a with
  | V4 octets => show_v4 octets
  | V6 [0; 0; 0; 0; 0; 0xffff; hi; lo] => lit "::ffff:" ++ show_v4 [hi / 256; hi mod 256; lo / 256; lo mod 256]
  | V6 segments =>
      let show l := join (lit ":") (map show_segment l) in
      let '(start, length) := longest_zeros 0 segments (0, 0)%nat (0, 0)%nat in
      if (1 <? length)%nat then show (take start segments) ++ lit "::" ++ show (drop (start + length) segments)
      else show segments
  end.

Example show_ip_v4 : show_ip (V4 [192; 168; 1; 50]) = lit "192.168.1.50".
Proof. reflexivity. Qed.

Example show_ip_v6 : show_ip (V6 [0xfe80; 0; 0; 0; 0x1c; 0; 0; 0xab]) = lit "fe80::1c:0:0:ab".
Proof. reflexivity. Qed.

(** ** Configuration ([config.rs]) *)

Record WakeServerConfig := MkWakeServerConfig {
  cfg_enable : bool;
  cfg_middleman_port : Z;
  cfg_register_port : Z;
  cfg_heartbeat_ms : Z;
  cfg_stale_after_ms : Z;
  cfg_bind : option IpAddr
}.

Definition WakeServerConfig_default : WakeServerConfig := MkWakeServerConfig false 9999 58200 20000 80000 None.

Record RuntimeConfig := MkRuntimeConfig {
  bind : IpAddr;
  middleman_port : Z;
  register_port : Z;
  heartbeat_ms : Z;
  stale_after_ms : Z
}.

(** The message of an error tells which field is wrong. *)
Inductive ConfigError := BadMiddlemanPort | BadRegisterPort | SamePorts | ShortHeartbeat | ShortStale.

Definition from_block (block : WakeServerConfig) (bind : IpAddr) : result RuntimeConfig ConfigError :=
  if cfg_middleman_port block =? 0 then Err BadMiddlemanPort
  else if cfg_register_port block =? 0 then Err BadRegisterPort
  else if cfg_middleman_port block =? cfg_register_port block then Err SamePorts
  else if cfg_heartbeat_ms block <? 1000 then Err ShortHeartbeat
  else if cfg_stale_after_ms block <? cfg_heartbeat_ms block then Err ShortStale
  else
    Ok (MkRuntimeConfig bind (cfg_middleman_port block) (cfg_register_port block) (cfg_heartbeat_ms block)
         (cfg_stale_after_ms block)).

(** ** The tables ([registry.rs]) *)

Definition MAX_MAP_ENTRIES : nat := 1024.

Record SessionAnchor := MkSessionAnchor { anchor_token : Z; anchor_ac : Z; issued_at : Z }.

Record CameraEntry := MkCameraEntry { entry_addr : SocketAddr; entry_token : Z; last_seen : Z }.

(** Both tables refuse a new key at the cap and drop stale entries the same
    way. *)
Definition full {A} (map : gmap str A) (uid : str) : bool :=
  (MAX_MAP_ENTRIES <=? size map)%nat && negb (bool_decide (is_Some (map !! uid))).

Definition purge {A} (stamp : A -> Z) (m : gmap str A) (now stale_after : Z) : list str * gmap str A :=
  let stale := map fst (List.filter (fun x => stale_after <? sat_sub now (stamp (snd x))) (map_to_list m)) in
  (stale, fold_left (fun m uid => delete uid m) stale m).

Module SessionAnchors.

Definition issue (map : gmap str SessionAnchor) (uid : str) (token ac now : Z) : bool * gmap str SessionAnchor :=
  if full map uid then (false, map) else (true, <[uid := MkSessionAnchor token ac now]> map).

Definition purge_stale := purge issued_at.

Definition lookup (map : gmap str SessionAnchor) (uid : str) (now stale_after : Z) : option SessionAnchor :=
  match map !! uid with
  | Some a => if sat_sub now (issued_at a) <=? stale_after then Some a else None
  | None => None
  end.
End SessionAnchors.

Module CameraRegistry.

Definition upsert (map : gmap str CameraEntry) (uid : str) (addr : SocketAddr) (token now : Z)
    : option bool * gmap str CameraEntry :=
  if full map uid then (None, map)
  else (Some (negb (bool_decide (is_Some (map !! uid)))), <[uid := MkCameraEntry addr token now]> map).

Definition purge_stale := purge last_seen.

Definition fresh (now stale_after : Z) (e : CameraEntry) : bool := sat_sub now (last_seen e) <=? stale_after.

(** [iter] is the order of [map.iter()]. *)
Definition lookup_fresh (iter : gmap str CameraEntry -> list (str * CameraEntry)) (map : gmap str CameraEntry)
    (uid : str) (now stale_after : Z) : option CameraEntry :=
  let prefixed := snd <$> List.find (fun x => starts_with uid (fst x) && fresh now stale_after (snd x)) (iter map) in
  match map !! uid with
  | Some e => if fresh now stale_after e then Some e else prefixed
  | None => prefixed
  end.

Definition lookup_by_ip (iter : gmap str CameraEntry -> list (str * CameraEntry)) (map : gmap str CameraEntry)
    (ip : IpAddr) (now stale_after : Z) : option (str * CameraEntry) :=
  List.find (fun x => bool_decide (addr_ip (entry_addr (snd x)) = ip) && fresh now stale_after (snd x)) (iter map).
End CameraRegistry.

(** The advertised addresses, by bound address and peer. *)
Abbreviation Cache := (gmap (IpAddr * IpAddr) IpAddr).

Section server.
Context `{Sd : Serde} `{K : Crc32} `{N : Nom} `{C : CookieFactory}.

(** ** Packets ([packet.rs]) *)

Definition MAX_UID_LEN : Z := 64.

Inductive WakeServerError := Frame (e : Wire.Error) | UnexpectedPacketKind (kind : string).

Definition payload_uid (payload : UdpXml) : option str :=
  match payload with
  | XC2mQ q => Some (c2mq_uid q)
  | XD2mQ q => Some (d2mq_uid q)
  | XC2rC c => Some (c2rc_uid c)
  | XD2rHb hb => Some (d2rhb_uid hb)
  | XD2rR r => Some (d2rr_uid r)
  | _ => None
  end.

Definition validate_uid_bounds (payload : UdpXml) : result unit WakeServerError :=
  match payload_uid payload with
  | Some u => if MAX_UID_LEN <? byte_len u then Err (UnexpectedPacketKind "uid-too-long") else Ok tt
  | None => Ok tt
  end.

Definition decode_discovery (buf : bytes) : result (Z * UdpXml) WakeServerError :=
  match fst (deserialize buf) with
  | Err e => Err (Frame e)
  | Ok (Discovery d) =>
      let? _ := validate_uid_bounds (disc_payload d) in Ok (disc_tid d, disc_payload d)
  | Ok (Ack _) => Err (UnexpectedPacketKind "Ack")
  | Ok (Data _) => Err (UnexpectedPacketKind "Data")
  end.

Definition encode_discovery (tid : Z) (payload : UdpXml) : result bytes WakeServerError :=
  match serialize (Discovery (MkUdpDiscovery tid payload)) [] with
  | Ok buf => Ok buf
  | Err e => Err (Frame e)
  end.

(** ** The address to advertise ([route.rs])

    [probe] is what a socket connected to the peer reports as its own address,
    [None] when a call fails. *)

Definition CACHE_CAP : nat := 256.

Definition cache_lookup (cache : Cache) (key : IpAddr * IpAddr) : option IpAddr := cache !! key.

Definition cache_insert (cache : Cache) (key : IpAddr * IpAddr) (value : IpAddr) : Cache :=
  if (CACHE_CAP <=? size cache)%nat && negb (bool_decide (is_Some (cache !! key))) then cache
  else <[key := value]> cache.

Definition resolve_advertise_ip (probe : SocketAddr -> option IpAddr) (peer : SocketAddr) : IpAddr :=
  let fallback := match addr_ip peer with V4 _ => LOCALHOST4 | V6 _ => LOCALHOST6 end in
  default fallback (probe peer).

Definition advertise_ip (probe : SocketAddr -> option IpAddr) (cache : Cache) (bind : IpAddr) (peer : SocketAddr)
    : IpAddr * Cache :=
  if negb (is_unspecified bind) then (bind, cache)
  else
    let key := (bind, addr_ip peer) in
    match cache_lookup cache key with
    | Some cached => (cached, cache)
    | None =>
        let resolved := resolve_advertise_ip probe peer in
        (resolved, cache_insert cache key resolved)
    end.

(** ** State and inputs *)

Record Server := MkServer {
  cameras : gmap str CameraEntry;
  anchors : gmap str SessionAnchor;
  cache : Cache
}.

Definition Server_new : Server := MkServer ∅ ∅ ∅.

Definition set_cameras (s : Server) (x : gmap str CameraEntry) : Server := MkServer x (anchors s) (cache s).
Definition set_anchors (s : Server) (x : gmap str SessionAnchor) : Server := MkServer (cameras s) x (cache s).
Definition set_cache (s : Server) (x : Cache) : Server := MkServer (cameras s) (anchors s) x.

Inductive Listener := Middleman | Register.

(** A datagram received, with what its handler reads: [random_token] and
    [random_ac] for the middleman, [random_sid] for the register. [unix_secs]
    is 0 when the clock stands before the epoch. *)
Record Datagram := MkDatagram {
  listener : Listener;
  src : SocketAddr;
  raw : bytes;
  now : Z;
  unix_secs : Z;
  random_token : Z;
  random_ac : Z;
  random_sid : Z;
  probe : SocketAddr -> option IpAddr;
  iter : gmap str CameraEntry -> list (str * CameraEntry)
}.

(** What a handler starts: a reply, or the task that sends the burst. *)
Inductive effect :=
| SendReply (dst : SocketAddr) (tid : Z) (payload : UdpXml)
| WakeBurst (cam_addr : SocketAddr) (tid : Z) (wake : R2dC).

(** ** The middleman ([middleman.rs]) *)

Definition middleman_query (d : Datagram) (s : Server) (tid : Z) (reg : IpPort) (payload : UdpXml)
    : Server * list effect :=
  match payload with
  | XC2mQ _ => (s, [SendReply (src d) tid (XM2cQr (MkM2cQr (Some reg) (Some reg) (Some reg) (Some reg)))])
  | XD2mQ q =>
      let token := random_token d in
      let ac := random_ac d in
      let '(stored, map) := SessionAnchors.issue (anchors s) (d2mq_uid q) token ac (now d) in
      let s := set_anchors s map in
      if negb stored then (s, [])
      else (s, [SendReply (src d) tid (XM2dQr (MkM2dQr reg reg MkEmptyTag MkEmptyTag 0 token ac))])
  | _ => (s, [])
  end.

Definition middleman_handle (cfg : RuntimeConfig) (register_addr : SocketAddr) (d : Datagram) (s : Server)
    : Server * list effect :=
  match decode_discovery (raw d) with
  | Err _ => (s, [])
  | Ok (tid, payload) =>
      let '(advertise, cache) := advertise_ip (probe d) (cache s) (bind cfg) (src d) in
      middleman_query d (set_cache s cache) tid (MkIpPort (show_ip advertise) (addr_port register_addr)) payload
  end.

(** ** The register ([register.rs]) *)

Definition WAKE_BURST_COUNT : nat := 10.

(** An hour, in which an anchor answers. *)
Definition ANCHOR_TTL : Z := millis (60 * 60 * 1000).

Definition handle_register (d : Datagram) (s : Server) (tid : Z) (r : D2rR) : Server * list effect :=
  match SessionAnchors.lookup (anchors s) (d2rr_uid r) (now d) ANCHOR_TTL with
  | Some a =>
      if anchor_token a =? d2rr_token r then
        (s, [SendReply (src d) tid (XR2dRr (MkR2dRr (-4) (anchor_ac a)))])
      else (s, [])
  | None => (s, [])
  end.

Definition handle_connect (cfg : RuntimeConfig) (stale_after : Z) (d : Datagram) (s : Server) (tid : Z) (c : C2rC)
    : Server * list effect :=
  match CameraRegistry.lookup_fresh (iter d) (cameras s) (c2rc_uid c) (now d) stale_after with
  | None =>
      (s, [SendReply (src d) tid (XR2cCr (MkR2cCr None None None None (lit "NULL") None (-1) 0))])
  | Some entry =>
      let sid := random_sid d in
      let cam_addr := entry_addr entry in
      let cli_src_ip := show_ip (addr_ip (src d)) in
      let cli := MkIpPort cli_src_ip (port (c2rc_cli c)) in
      let cmap := MkIpPort cli_src_ip (addr_port (src d)) in
      let '(relay_ip_for_camera, cache) := advertise_ip (probe d) (cache s) (bind cfg) cam_addr in
      let '(relay_ip_for_client, cache) := advertise_ip (probe d) cache (bind cfg) (src d) in
      let relay := MkIpPort (show_ip relay_ip_for_camera) (register_port cfg) in
      let cam := MkIpPort (show_ip (addr_ip cam_addr)) (addr_port cam_addr) in
      (set_cache s cache,
       [WakeBurst cam_addr tid (MkR2dC cli cmap relay sid (c2rc_cid c));
        SendReply (src d) tid
          (XR2cCr (MkR2cCr (Some cam) (Some cam) (Some (MkIpPort (show_ip relay_ip_for_client) (register_port cfg)))
                     None (lit "NULL") (Some sid) 0 0));
        SendReply (src d) tid (XR2cT (MkR2cT (Some cam) (Some cam) (c2rc_cid c) sid))])
  end.

Definition handle_heartbeat (cfg : RuntimeConfig) (stale_after : Z) (d : Datagram) (s : Server) (tid : Z) (hb : D2rHb)
    : Server * list effect :=
  match CameraRegistry.upsert (cameras s) (d2rhb_uid hb) (src d) (d2rhb_token hb) (now d) with
  | (None, map) => (set_cameras s map, [])
  | (Some _, map) =>
      let '(_, map) := CameraRegistry.purge_stale map (now d) stale_after in
      let '(_, anchors) := SessionAnchors.purge_stale (anchors s) (now d) stale_after in
      let s := set_anchors (set_cameras s map) anchors in
      if decide (d2rhb_needrsp hb = Some 1) then
        (s, [SendReply (src d) tid (XR2dHbr (MkR2dHbr 0 (unix_secs d) (MkHbTimer (heartbeat_ms cfg))))])
      else (s, [])
  end.

Definition register_payload (cfg : RuntimeConfig) (stale_after : Z) (d : Datagram) (s : Server) (tid : Z)
    (payload : UdpXml) : Server * list effect :=
  match payload with
  | XD2rHb hb => handle_heartbeat cfg stale_after d s tid hb
  | XC2rC c => handle_connect cfg stale_after d s tid c
  | XD2rR r => handle_register d s tid r
  | XD2rDisc disc => (s, [SendReply (src d) tid (XR2dDcr (MkR2dDcr (d2rdisc_sid disc) 0))])
  | _ => (s, [])
  end.

Definition register_handle (cfg : RuntimeConfig) (stale_after : Z) (d : Datagram) (s : Server)
    : Server * list effect :=
  match decode_discovery (raw d) with
  | Err _ => (s, [])
  | Ok (tid, payload) => register_payload cfg stale_after d s tid payload
  end.

(** *** What goes out *)

Definition send_reply (dst : SocketAddr) (tid : Z) (payload : UdpXml) : list (SocketAddr * bytes) :=
  match encode_discovery tid payload with Ok bytes => [(dst, bytes)] | Err _ => [] end.

(** The burst from turn [i] on, with [turns] turns to go. [sends i] is whether
    the socket takes the packet of turn [i], [cancelled i] whether the server is
    cancelled in the 100 ms after it. *)
Fixpoint wake_burst (sends cancelled : nat -> bool) (cam_addr : SocketAddr) (tid : Z) (wake : R2dC) (turns i : nat)
    : list (SocketAddr * bytes) :=
  match turns with
  | O => []
  | S turns =>
      match encode_discovery tid (XR2dC wake) with
      | Ok bytes =>
          if sends i then
            (cam_addr, bytes) ::
              (if (i + 1 <? WAKE_BURST_COUNT)%nat && cancelled i then []
               else wake_burst sends cancelled cam_addr tid wake turns (S i))
          else []
      | Err _ => []
      end
  end.

(** ** The two loops ([mod.rs]) *)

(** Each loop reads into a buffer of 4096 bytes. *)
Definition received (d : Datagram) : Datagram :=
  MkDatagram (listener d) (src d) (take 4096 (raw d)) (now d) (unix_secs d) (random_token d) (random_ac d)
    (random_sid d) (probe d) (iter d).

Definition handle (cfg : RuntimeConfig) (register_addr : SocketAddr) (d : Datagram) (s : Server)
    : Server * list effect :=
  match listener d with
  | Middleman => middleman_handle cfg register_addr (received d) s
  | Register => register_handle cfg (millis (stale_after_ms cfg)) (received d) s
  end.

(** The state after a sequence of datagrams, and what each of them started. *)
Fixpoint run (cfg : RuntimeConfig) (register_addr : SocketAddr) (ds : list Datagram) (s : Server)
    : Server * list (list effect) :=
  match ds with
  | [] => (s, [])
  | d :: ds =>
      let '(s, out) := handle cfg register_addr d s in
      let '(s, outs) := run cfg register_addr ds s in
      (s, out :: outs)
  end.
(** ** What a datagram asks for, and what handling it does to the tables *)

Definition request (d : Datagram) : option (Z * UdpXml) :=
  match decode_discovery (take 4096 (raw d)) with Ok x => Some x | Err _ => None end.

Definition beat (d : Datagram) : option D2rHb :=
  match listener d, request d with Register, Some (_, XD2rHb hb) => Some hb | _, _ => None end.

Definition query (d : Datagram) : option D2mQ :=
  match listener d, request d with Middleman, Some (_, XD2mQ q) => Some q | _, _ => None end.

Definition connect (d : Datagram) : option (Z * C2rC) :=
  match listener d, request d with Register, Some (tid, XC2rC c) => Some (tid, c) | _, _ => None end.
End server.

(** ** Lemmas on the tables *)

Lemma lookup_delete_all {A} (m : gmap str A) ks uid :
  fold_left (fun m k => delete k m) ks m !! uid = if decide (uid ∈ ks) then None else m !! uid.
Proof.
  revert m. induction ks as [|k ks IH]; intros m; cbn [fold_left].
  - by rewrite decide_False by apply not_elem_of_nil.
  - rewrite IH. destruct (decide (uid = k)) as [->|Hne].
    + rewrite lookup_delete_eq, (decide_True (P := k ∈ k :: ks)) by left. by destruct (decide _).
    + rewrite lookup_delete_ne by done. apply decide_ext. rewrite elem_of_cons. naive_solver.
Qed.

Lemma lookup_purge {A} (stamp : A -> Z) m now stale_after uid :
  snd (purge stamp m now stale_after) !! uid =
  match m !! uid with
  | Some x => if stale_after <? sat_sub now (stamp x) then None else Some x
  | None => None
  end.
Proof.
  unfold purge. cbn [snd]. rewrite lookup_delete_all.
  assert (forall x, m !! uid = Some x ->
    (uid ∈ map fst (List.filter (fun x => stale_after <? sat_sub now (stamp (snd x))) (map_to_list m)) <->
     (stale_after <? sat_sub now (stamp x)) = true)) as H.
  { intros x Hx. rewrite list_elem_of_fmap. split.
    - intros ([k y] & -> & Hin). cbn [fst snd] in *. apply list_elem_of_In, filter_In in Hin as [Hin Hs].
      apply list_elem_of_In, elem_of_map_to_list in Hin. cbn [fst snd] in *. congruence.
    - intros Hs. exists (uid, x). split; [done|]. apply list_elem_of_In, filter_In. split; [|done].
      by apply list_elem_of_In, elem_of_map_to_list. }
  destruct (m !! uid) as [x|] eqn:E; [|by destruct (decide _)].
  specialize (H x eq_refl). destruct (decide _) as [Hd|Hd]; [by rewrite (proj1 H)|].
  destruct (_ <? _); [|done]. exfalso. by apply Hd, H.
Qed.

Lemma purge_subseteq {A} (stamp : A -> Z) m now stale_after : snd (purge stamp m now stale_after) ⊆ m.
Proof.
  apply map_subseteq_spec. intros uid x. rewrite lookup_purge. destruct (m !! uid) as [y|]; [|done].
  by destruct (_ <? _).
Qed.

Lemma full_insert {A} (m : gmap str A) uid x :
  full m uid = false -> (size m <= MAX_MAP_ENTRIES)%nat -> (size (<[uid := x]> m) <= MAX_MAP_ENTRIES)%nat.
Proof.
  unfold full. intros Hf Hm. destruct (m !! uid) as [y|] eqn:E.
  - by rewrite map_size_insert_Some by (by rewrite E).
  - rewrite map_size_insert_None by done. rewrite bool_decide_eq_false_2, andb_true_r in Hf by (by intros []).
    apply Nat.leb_gt in Hf. lia.
Qed.

Lemma full_known {A} (m : gmap str A) uid x : m !! uid = Some x -> full m uid = false.
Proof. intros E. unfold full. rewrite E, bool_decide_eq_true_2, andb_false_r by eauto. done. Qed.

Section handling.
Context `{Sd : Serde} `{K : Crc32} `{N : Nom} `{C : CookieFactory}.
Context (cfg : RuntimeConfig) (register_addr : SocketAddr).

Notation stale := (millis (stale_after_ms cfg)).
Notation step := (handle cfg register_addr).

(** The cases of a handler, up to what the address cache answers. *)
Ltac handler_cases :=
  unfold handle, beat, query, connect, request, middleman_handle, register_handle; cbn [raw received];
  case_match; [destruct (decode_discovery _) as [[? []]|?]; try done; cbn [received src probe now];
     destruct (advertise_ip _ _ _ _) as [? ?]; cbn [middleman_query]; try done
   |destruct (decode_discovery _) as [[? []]|?]; try done; cbn [register_payload];
     unfold handle_connect, handle_heartbeat, handle_register; cbn [received src probe now iter unix_secs random_sid]];
  try (destruct (CameraRegistry.lookup_fresh _ _ _ _ _) as [?|] eqn:?;
         [do 2 destruct (advertise_ip _ _ _ _) as [? ?]; try done|try done]);
  try (unfold CameraRegistry.upsert; destruct (full _ _); [try done|destruct (decide _); try done]);
  try (destruct (SessionAnchors.lookup _ _ _ _) eqn:?; [destruct (_ =? _) eqn:?; try done|try done]).

Lemma handle_cameras d s :
  cameras (fst (step d s)) =
  match beat d with
  | Some hb =>
      if full (cameras s) (d2rhb_uid hb) then cameras s
      else snd (purge last_seen (<[d2rhb_uid hb := MkCameraEntry (src d) (d2rhb_token hb) (now d)]> (cameras s))
                  (now d) stale)
  | None => cameras s
  end.
Proof. handler_cases. by destruct (SessionAnchors.issue _ _ _ _ _) as [[] ?]. Qed.

Lemma handle_anchors d s :
  anchors (fst (step d s)) =
  match beat d, query d with
  | Some hb, _ =>
      if full (cameras s) (d2rhb_uid hb) then anchors s else snd (purge issued_at (anchors s) (now d) stale)
  | None, Some q => snd (SessionAnchors.issue (anchors s) (d2mq_uid q) (random_token d) (random_ac d) (now d))
  | None, None => anchors s
  end.
Proof. handler_cases. cbn [set_cache anchors]. by destruct (SessionAnchors.issue _ _ _ _ _) as [[] ?]. Qed.

(** The cache moves only by [advertise_ip]: any property of caches that keeps
    it is kept. *)
Lemma handle_cache (P : Cache -> Prop) d s :
  (forall c peer, P c -> P (snd (advertise_ip (probe d) c (bind cfg) peer))) ->
  P (cache s) -> P (cache (fst (step d s))).
Proof.
  intros HP Hs. unfold handle, middleman_handle, register_handle. cbn [raw received probe src].
  destruct (listener d); destruct (decode_discovery _) as [[tid p]|e]; try done.
  - pose proof (HP (cache s) (src d) Hs) as Hc. destruct (advertise_ip _ _ _ _) as [a c].
    destruct p; try done. cbn [middleman_query]. by destruct (SessionAnchors.issue _ _ _ _ _) as [[] ?].
  - destruct p; try done; cbn [register_payload]; unfold handle_connect, handle_heartbeat, handle_register.
    + destruct (CameraRegistry.lookup_fresh _ _ _ _ _) as [e|]; [|done]. cbn [probe src received].
      pose proof (HP (cache s) (entry_addr e) Hs) as Hc. destruct (advertise_ip _ (cache s) _ _) as [a ca].
      cbn [snd] in Hc. pose proof (HP ca (src d) Hc) as Hc'. by destruct (advertise_ip _ ca _ _) as [a' ca'].
    + unfold CameraRegistry.upsert. destruct (full _ _); [done|]. by destruct (decide _).
    + destruct (SessionAnchors.lookup _ _ _ _); [|done]. by destruct (_ =? _).
Qed.

Lemma run_snoc ds d s :
  fst (run cfg register_addr (ds ++ [d]) s) = fst (step d (fst (run cfg register_addr ds s))).
Proof.
  revert s. induction ds as [|e ds IH]; intros s; cbn [app run].
  - cbn [fst]. by destruct (step d s).
  - destruct (step e s) as [s' o]. specialize (IH s'). destruct (run _ _ (ds ++ [d]) s'). cbn [fst] in IH.
    by destruct (run _ _ ds s').
Qed.

(** A property of the state that every datagram keeps holds after any run. *)
Lemma run_ind (P : Server -> Prop) (Q : Datagram -> Prop) ds s :
  (forall d s, Q d -> P s -> P (fst (step d s))) -> Forall Q ds -> P s -> P (fst (run cfg register_addr ds s)).
Proof.
  intros Hstep Hds Hs. revert Hds. induction ds as [|d ds IH] using rev_ind; intros Hds; [done|].
  apply Forall_app in Hds as [Hds Hd]. rewrite run_snoc. apply Hstep; [by inversion Hd|]. auto.
Qed.

(** ** Memory *)

Lemma decoded_uid buf tid payload uid :
  decode_discovery buf = Ok (tid, payload) -> payload_uid payload = Some uid -> byte_len uid <= MAX_UID_LEN.
Proof.
  unfold decode_discovery, validate_uid_bounds. destruct (fst (deserialize buf)) as [[[t x]| |]|]; try done.
  cbn [disc_payload disc_tid]. intros H Hu. destruct (payload_uid x) as [u|] eqn:E.
  - destruct (MAX_UID_LEN <? byte_len u) eqn:El; [done|]. injection H as <- <-.
    rewrite E in Hu. injection Hu as ->. by apply Z.ltb_ge in El.
  - injection H as <- <-. congruence.
Qed.

Lemma beat_uid d hb : beat d = Some hb -> byte_len (d2rhb_uid hb) <= MAX_UID_LEN.
Proof.
  unfold beat, request. destruct (listener d); [done|].
  destruct (decode_discovery _) as [[t x]|] eqn:E; [|done]. destruct x; try done. intros [= <-].
  by eapply decoded_uid.
Qed.

Lemma query_uid d q : query d = Some q -> byte_len (d2mq_uid q) <= MAX_UID_LEN.
Proof.
  unfold query, request. destruct (listener d); [|done].
  destruct (decode_discovery _) as [[t x]|] eqn:E; [|done]. destruct x; try done. intros [= <-].
  by eapply decoded_uid.
Qed.

(** A table within the caps on its entries and its keys. *)
Definition bounded {A} (m : gmap str A) : Prop :=
  (size m <= MAX_MAP_ENTRIES)%nat /\ forall uid, is_Some (m !! uid) -> byte_len uid <= MAX_UID_LEN.

Lemma bounded_subseteq {A} (m m' : gmap str A) : m' ⊆ m -> bounded m -> bounded m'.
Proof.
  intros Hs [H1 H2]. split.
  - etransitivity; [by apply map_subseteq_size|done].
  - intros uid Hu. by apply H2, (lookup_weaken_is_Some m').
Qed.

Lemma bounded_insert {A} (m : gmap str A) uid x :
  full m uid = false -> byte_len uid <= MAX_UID_LEN -> bounded m -> bounded (<[uid := x]> m).
Proof.
  intros Hf Hu [H1 H2]. split; [by apply full_insert|]. intros k [y Hk].
  apply lookup_insert_Some in Hk as [[<- _]|[_ Hk]]; [done|eauto].
Qed.

Lemma advertise_size probe c b peer :
  (size c <= CACHE_CAP)%nat -> (size (snd (advertise_ip probe c b peer)) <= CACHE_CAP)%nat.
Proof.
  intros Hc. unfold advertise_ip. destruct (negb _); [done|].
  destruct (cache_lookup c _) as [x|] eqn:E; [done|]. cbn [snd]. unfold cache_lookup in E. unfold cache_insert.
  rewrite E. rewrite bool_decide_eq_false_2, andb_true_r by (by intros []).
  destruct (CACHE_CAP <=? size c)%nat eqn:El; [done|]. rewrite map_size_insert_None by done.
  apply Nat.leb_gt in El. lia.
Qed.

Lemma step_cameras d s : bounded (cameras s) -> bounded (cameras (fst (step d s))).
Proof.
  intros Hs. rewrite handle_cameras. destruct (beat d) as [hb|] eqn:Eb; [|done].
  destruct (full _ _) eqn:Ef; [done|]. eapply bounded_subseteq; [apply purge_subseteq|].
  apply bounded_insert; [done|by eapply beat_uid|done].
Qed.

Lemma step_anchors d s : bounded (anchors s) -> bounded (anchors (fst (step d s))).
Proof.
  intros Hs. rewrite handle_anchors. destruct (beat d) as [hb|] eqn:Eb.
  { destruct (full _ _); [done|]. eapply bounded_subseteq; [apply purge_subseteq|done]. }
  destruct (query d) as [q|] eqn:Eq; [|done]. unfold SessionAnchors.issue.
  destruct (full (anchors s) _) eqn:Ef; [done|]. apply bounded_insert; [done|by eapply query_uid|done].
Qed.

(** Whatever datagrams arrive at the two
    ports, the server remembers at most 1024 cameras, 1024 session anchors and
    256 routes, and no name longer than 64 bytes. *)
Theorem wake_server_bounded ds :
  let s := fst (run cfg register_addr ds Server_new) in
  (size (cameras s) <= 1024)%nat /\ (size (anchors s) <= 1024)%nat /\ (size (cache s) <= 256)%nat
  /\ forall uid, is_Some (cameras s !! uid) \/ is_Some (anchors s !! uid) -> byte_len uid <= 64.
Proof.
  cbv zeta. set (s := fst _).
  set (P s := bounded (cameras s) /\ bounded (anchors s) /\ (size (cache s) <= CACHE_CAP)%nat).
  assert (P s) as ([Hc1 Hc2] & [Ha1 Ha2] & Hr);
    [|split; [done|]; split; [done|]; split; [done|]; intros uid [Hu|Hu]; auto].
  apply (run_ind P (fun _ => True)); [|by apply List.Forall_forall|].
  - clear s. intros d s _ (Hc & Ha & Hr). split; [by apply step_cameras|]. split; [by apply step_anchors|].
    apply (handle_cache (fun c => (size c <= CACHE_CAP)%nat)); [|done]. intros. by apply advertise_size.
  - split; [|split].
    + split; [apply Nat.le_0_l|]. intros uid [x Hx]. done.
    + split; [apply Nat.le_0_l|]. intros uid [x Hx]. done.
    + apply Nat.le_0_l.
Qed.

(** ** Where an entry comes from *)

(** The last datagram of the sequence that names [uid]. *)
Definition latest (name : Datagram -> option str) (uid : str) (ds : list Datagram) : option Datagram :=
  List.find (fun d => bool_decide (name d = Some uid)) (rev ds).

Definition beat_name (d : Datagram) : option str := d2rhb_uid <$> beat d.
Definition query_name (d : Datagram) : option str := d2mq_uid <$> query d.

Lemma latest_hit name uid ds d : name d = Some uid -> latest name uid (ds ++ [d]) = Some d.
Proof. intros H. unfold latest. rewrite rev_app_distr. cbn. by rewrite bool_decide_eq_true_2. Qed.

Lemma latest_miss name uid ds d : name d <> Some uid -> latest name uid (ds ++ [d]) = latest name uid ds.
Proof. intros H. unfold latest. rewrite rev_app_distr. cbn. by rewrite bool_decide_eq_false_2. Qed.

Lemma latest_last name uid pre h evs :
  name h = Some uid -> Forall (fun e => name e <> Some uid) evs -> latest name uid (pre ++ h :: evs) = Some h.
Proof.
  intros Hh. induction evs as [|e evs IH] using rev_ind; intros Hevs; [by apply latest_hit|].
  apply Forall_app in Hevs as [Hevs He]. rewrite app_comm_cons, app_assoc, latest_miss by (by inversion He). auto.
Qed.

Lemma beat_name_some d hb : beat d = Some hb -> beat_name d = Some (d2rhb_uid hb).
Proof. unfold beat_name. by intros ->. Qed.

Lemma beat_name_none d : beat d = None -> beat_name d = None.
Proof. unfold beat_name. by intros ->. Qed.

Lemma beat_not_query d hb : beat d = Some hb -> query_name d = None.
Proof. unfold beat, query_name, query. by destruct (listener d). Qed.

Lemma query_name_some d q : query d = Some q -> query_name d = Some (d2mq_uid q).
Proof. unfold query_name. by intros ->. Qed.

Lemma query_name_none d : query d = None -> query_name d = None.
Proof. unfold query_name. by intros ->. Qed.

Lemma camera_origin ds uid e :
  cameras (fst (run cfg register_addr ds Server_new)) !! uid = Some e ->
  exists h hb, latest beat_name uid ds = Some h /\ beat h = Some hb
    /\ e = MkCameraEntry (src h) (d2rhb_token hb) (now h).
Proof.
  revert e. induction ds as [|d ds IH] using rev_ind; intros e; [done|].
  rewrite run_snoc, handle_cameras. destruct (beat d) as [hb|] eqn:Eb.
  2: { intros He. rewrite latest_miss by (by rewrite beat_name_none). auto. }
  apply beat_name_some in Eb as En. destruct (full _ _) eqn:Ef.
  - intros He. rewrite latest_miss; [by apply IH|]. rewrite En. intros [= Hu]. rewrite Hu in Ef.
    by rewrite (full_known _ _ _ He) in Ef.
  - rewrite lookup_purge. destruct (decide (d2rhb_uid hb = uid)) as [Hu|Hne].
    + rewrite Hu, lookup_insert_eq. destruct (_ <? _); [done|]. intros [= <-].
      rewrite latest_hit by congruence. by exists d, hb.
    + rewrite lookup_insert_ne by done. destruct (_ !! uid) as [x|]; [|done].
      destruct (_ <? _); [done|]. intros [= <-]. rewrite latest_miss by congruence. auto.
Qed.

Lemma anchor_origin ds uid a :
  anchors (fst (run cfg register_addr ds Server_new)) !! uid = Some a ->
  exists d, latest query_name uid ds = Some d /\ a = MkSessionAnchor (random_token d) (random_ac d) (now d).
Proof.
  revert a. induction ds as [|d ds IH] using rev_ind; intros a; [done|].
  rewrite run_snoc, handle_anchors. destruct (beat d) as [hb|] eqn:Eb.
  - rewrite latest_miss by (by rewrite (beat_not_query _ _ Eb)). destruct (full _ _); [auto|].
    rewrite lookup_purge. destruct (_ !! uid) as [x|]; [|done]. destruct (_ <? _); [done|]. intros [= <-]. auto.
  - destruct (query d) as [q|] eqn:Eq.
    2: { intros Ha. rewrite latest_miss by (by rewrite query_name_none). auto. }
    apply query_name_some in Eq as En. unfold SessionAnchors.issue. destruct (full _ _) eqn:Ef; cbn [snd].
    + intros Ha. rewrite latest_miss; [by apply IH|]. rewrite En. intros [= Hu]. rewrite Hu in Ef.
      by rewrite (full_known _ _ _ Ha) in Ef.
    + destruct (decide (d2mq_uid q = uid)) as [Hu|Hne].
      * rewrite Hu, lookup_insert_eq. intros [= <-]. rewrite latest_hit by congruence. by exists d.
      * rewrite lookup_insert_ne by done. rewrite latest_miss by congruence. auto.
Qed.

(** C18: The access code the middleman gave a
    camera is told again only to who presents the token given with it. Whenever
    the register answers a registration, the request carries the token drawn at
    the latest query for that name, at most an hour ago, and the answer, sent
    where the request came from, carries the code drawn at that same query. *)
Theorem register_reply_authentic ds d dst tid r :
  In (SendReply dst tid (XR2dRr r)) (snd (step d (fst (run cfg register_addr ds Server_new)))) ->
  exists q a, listener d = Register /\ request d = Some (tid, XD2rR q) /\ dst = src d
    /\ latest query_name (d2rr_uid q) ds = Some a /\ d2rr_token q = random_token a
    /\ r = MkR2dRr (-4) (random_ac a) /\ now d - now a <= millis 3600000.
Proof.
  pose proof (anchor_origin ds) as Ho. set (s := fst _) in *. clearbody s.
  handler_cases; cbn [snd In]; intros Hin.
  1-6: try destruct (SessionAnchors.issue _ _ _ _ _) as [[] ?]; cbn [snd negb In] in Hin; by naive_solver.
  destruct Hin as [[= <- <- <-]|[]].
  match goal with E : SessionAnchors.lookup _ _ _ _ = Some _, T : (_ =? _) = true |- _ =>
    rename E into El, T into Et end.
  unfold SessionAnchors.lookup in El. destruct (anchors s !! d2rr_uid x) as [a|] eqn:Ea; [|done].
  destruct (sat_sub _ _ <=? _) eqn:Ets; [|done]. injection El as <-. apply Z.eqb_eq in Et. apply Z.leb_le in Ets.
  destruct (Ho _ _ Ea) as (q & Hq & ->). cbn [anchor_token anchor_ac issued_at] in *.
  exists x, q. do 6 (split; [congruence|]). unfold sat_sub, ANCHOR_TTL, millis in *. cbn [received now] in Ets. lia.
Qed.

(** ** Waking *)

(** The walk of the table shows its entries, each once. *)
Definition fair (d : Datagram) : Prop := forall m, Permutation (iter d m) (map_to_list m).

Lemma starts_with_refl s : starts_with s s = true.
Proof. unfold starts_with, strip_prefix. by rewrite firstn_all, bool_decide_eq_true_2. Qed.

Lemma lookup_fresh_some d m uid e t st :
  fair d -> CameraRegistry.lookup_fresh (iter d) m uid t st = Some e ->
  exists k, starts_with uid k = true /\ m !! k = Some e /\ sat_sub t (last_seen e) <= st.
Proof.
  intros Hf. unfold CameraRegistry.lookup_fresh.
  set (test x := starts_with uid (fst x) && CameraRegistry.fresh t st (snd x)).
  assert (forall x, snd <$> List.find test (iter d m) = Some x ->
    exists k, starts_with uid k = true /\ m !! k = Some x /\ sat_sub t (last_seen x) <= st) as Hp.
  { intros x. destruct (List.find _ _) as [[k y]|] eqn:E; [|done]. intros [= <-].
    apply find_some in E as [Hin Hb]. cbn [fst snd] in *. apply andb_true_iff in Hb as [H1 H2].
    exists k. split; [done|]. split; [|by apply Z.leb_le].
    apply elem_of_map_to_list. rewrite <- (Hf m). by apply list_elem_of_In. }
  destruct (m !! uid) as [x|] eqn:E; [|auto]. destruct (CameraRegistry.fresh t st x) eqn:Ef; [|auto].
  intros [= <-]. exists uid. split; [apply starts_with_refl|]. split; [done|by apply Z.leb_le].
Qed.

(** C19: The server sends nothing to an address it is
    told. A reply goes back where its request came from. A wake burst goes to
    the source address of the last heartbeat of a camera whose name starts with
    the requested one, no older than the staleness limit, and the addresses it
    gives the camera for the client are the client's source address. *)
Theorem no_reflection ds d e :
  fair d -> In e (snd (step d (fst (run cfg register_addr ds Server_new)))) ->
  match e with
  | SendReply dst _ _ => dst = src d
  | WakeBurst cam tid wake => exists c uid h,
      connect d = Some (tid, c) /\ starts_with (c2rc_uid c) uid = true
      /\ latest beat_name uid ds = Some h /\ cam = src h /\ now d - now h <= stale
      /\ ip (r2dc_cli wake) = show_ip (addr_ip (src d))
      /\ r2dc_cmap wake = MkIpPort (show_ip (addr_ip (src d))) (addr_port (src d))
  end.
Proof.
  intros Hf. pose proof (camera_origin ds) as Ho. set (s := fst _) in *. clearbody s.
  handler_cases; cbn [snd In]; intros Hin.
  1-2: try destruct (SessionAnchors.issue _ _ _ _ _) as [[] ?]; cbn [snd negb In] in Hin; by naive_solver.
  2-5: by naive_solver.
  destruct Hin as [<-|[<-|[<-|[]]]]; [|done|done].
  match goal with E : CameraRegistry.lookup_fresh _ _ _ _ _ = Some _ |- _ => rename E into El end.
  cbn [received iter now] in El. apply lookup_fresh_some in El as (k & Hk & Hc & Ht); [|done].
  destruct (Ho _ _ Hc) as (h & hb & Hl & Hb & ->). cbn [entry_addr last_seen] in *.
  exists x, k, h. do 4 (split; [done|]). split; [|done]. unfold sat_sub in Ht. lia.
Qed.

Lemma camera_kept pre h evs hb t :
  beat h = Some hb -> full (cameras (fst (run cfg register_addr pre Server_new))) (d2rhb_uid hb) = false ->
  Forall (fun e => beat_name e <> Some (d2rhb_uid hb) /\ now e <= t) evs -> now h <= t <= now h + stale ->
  cameras (fst (run cfg register_addr (pre ++ h :: evs) Server_new)) !! d2rhb_uid hb
    = Some (MkCameraEntry (src h) (d2rhb_token hb) (now h)).
Proof.
  intros Hb Hf Hevs Ht. assert (forall u, u <= t -> (stale <? sat_sub u (now h)) = false) as Hs.
  { intros u Hu. apply Z.ltb_ge. unfold sat_sub. lia. }
  induction evs as [|e evs IH] using rev_ind.
  - rewrite run_snoc, handle_cameras, Hb, Hf. cbv iota. rewrite lookup_purge, lookup_insert_eq. cbn [last_seen].
    by rewrite Hs by lia.
  - apply Forall_app in Hevs as [Hevs He]. inversion He as [|? ? [Hn Hu] _]; subst.
    rewrite app_comm_cons, app_assoc, run_snoc, handle_cameras. specialize (IH Hevs).
    destruct (beat e) as [hb'|] eqn:Eb; [|done].
    rewrite (beat_name_some _ _ Eb) in Hn. destruct (full _ (d2rhb_uid hb')); [done|].
    rewrite lookup_purge, lookup_insert_ne by congruence. rewrite IH. cbn [last_seen]. by rewrite Hs.
Qed.

Lemma advertise_bound probe c peer :
  is_unspecified (bind cfg) = false -> advertise_ip probe c (bind cfg) peer = (bind cfg, c).
Proof. intros E. unfold advertise_ip. by rewrite E. Qed.

(** The effects of a request for a camera known under that very name. *)
Lemma connect_known d s tid c e :
  connect d = Some (tid, c) -> cameras s !! c2rc_uid c = Some e -> sat_sub (now d) (last_seen e) <= stale ->
  exists relay_cam relay_cli,
    let cam := MkIpPort (show_ip (addr_ip (entry_addr e))) (addr_port (entry_addr e)) in
    let client := show_ip (addr_ip (src d)) in
    (is_unspecified (bind cfg) = false -> relay_cam = bind cfg /\ relay_cli = bind cfg)
    /\ snd (step d s) =
      [WakeBurst (entry_addr e) tid
         (MkR2dC (MkIpPort client (port (c2rc_cli c))) (MkIpPort client (addr_port (src d)))
            (MkIpPort (show_ip relay_cam) (register_port cfg)) (random_sid d) (c2rc_cid c));
       SendReply (src d) tid
         (XR2cCr (MkR2cCr (Some cam) (Some cam) (Some (MkIpPort (show_ip relay_cli) (register_port cfg))) None
                    (lit "NULL") (Some (random_sid d)) 0 0));
       SendReply (src d) tid (XR2cT (MkR2cT (Some cam) (Some cam) (c2rc_cid c) (random_sid d)))].
Proof.
  unfold connect, request, handle, register_handle. cbn [raw received]. destruct (listener d); [done|].
  destruct (decode_discovery _) as [[t x]|]; [|done]. destruct x; try done. intros [= -> ->] Hc Hs.
  cbn [register_payload]. unfold handle_connect, CameraRegistry.lookup_fresh.
  cbn [received iter now src random_sid probe]. rewrite Hc.
  assert (CameraRegistry.fresh (now d) stale e = true) as -> by (by apply Z.leb_le).
  destruct (advertise_ip _ (cache s) _ _) as [a ca] eqn:E1. destruct (advertise_ip _ ca _ _) as [a' ca'] eqn:E2.
  exists a, a'. split; [|done]. intros Hu. rewrite advertise_bound in E1, E2 by done. by inversion E1; inversion E2.
Qed.

Lemma burst_all tid wake cam b turns i :
  encode_discovery tid (XR2dC wake) = Ok b ->
  wake_burst (fun _ => true) (fun _ => false) cam tid wake turns i = replicate turns (cam, b).
Proof.
  intros E. revert i. induction turns as [|n IH]; intros i; [done|]. cbn [wake_burst replicate].
  rewrite E, andb_false_r, IH. done.
Qed.

(** C17: A camera is woken where its heartbeats come
    from. After an accepted heartbeat, and whatever else arrives that is not
    another of that camera, a client that asks for its name within the staleness
    limit is told, twice, the address the heartbeat came from, and that address
    is sent ten wake packets with the client's source address, unless the
    socket fails or the server stops. *)
Theorem connect_wakes pre h evs hb d tid c :
  beat h = Some hb -> full (cameras (fst (run cfg register_addr pre Server_new))) (d2rhb_uid hb) = false ->
  Forall (fun e => beat_name e <> Some (d2rhb_uid hb) /\ now e <= now d) evs ->
  connect d = Some (tid, c) -> c2rc_uid c = d2rhb_uid hb -> now h <= now d <= now h + stale ->
  exists relay_cam relay_cli wake,
    let cam := MkIpPort (show_ip (addr_ip (src h))) (addr_port (src h)) in
    let client := show_ip (addr_ip (src d)) in
    snd (step d (fst (run cfg register_addr (pre ++ h :: evs) Server_new))) =
      [WakeBurst (src h) tid wake;
       SendReply (src d) tid
         (XR2cCr (MkR2cCr (Some cam) (Some cam) (Some (MkIpPort (show_ip relay_cli) (register_port cfg))) None
                    (lit "NULL") (Some (random_sid d)) 0 0));
       SendReply (src d) tid (XR2cT (MkR2cT (Some cam) (Some cam) (c2rc_cid c) (random_sid d)))]
    /\ wake = MkR2dC (MkIpPort client (port (c2rc_cli c))) (MkIpPort client (addr_port (src d)))
                 (MkIpPort (show_ip relay_cam) (register_port cfg)) (random_sid d) (c2rc_cid c)
    /\ (is_unspecified (bind cfg) = false -> relay_cam = bind cfg /\ relay_cli = bind cfg)
    /\ forall b, encode_discovery tid (XR2dC wake) = Ok b ->
         wake_burst (fun _ => true) (fun _ => false) (src h) tid wake WAKE_BURST_COUNT 0 = replicate 10 (src h, b).
Proof.
  intros Hb Hf Hevs Hd Hu Ht. pose proof (camera_kept pre h evs hb (now d) Hb Hf Hevs Ht) as Hc. rewrite <- Hu in Hc.
  destruct (connect_known d _ tid c _ Hd Hc) as (rc & rl & Hr & E); [cbn [last_seen]; unfold sat_sub; lia|].
  eexists rc, rl, _. split; [exact E|]. split; [done|]. split; [done|]. intros b Hbs. by apply burst_all.
Qed.

(** Once 1024 cameras are registered, the
    server is lost to every other one for good: stale entries are dropped only
    after a heartbeat of a registered camera, so while none of those is heard
    the table does not change, however old its entries get, and when all are
    stale every client is told that its camera is unknown. *)
Theorem full_registry_locks_out s ds d tid c :
  (MAX_MAP_ENTRIES <= size (cameras s))%nat ->
  Forall (fun e => forall uid, beat_name e = Some uid -> cameras s !! uid = None) ds ->
  connect d = Some (tid, c) -> fair d -> (forall uid e, cameras s !! uid = Some e -> last_seen e + stale < now d) ->
  0 <= stale ->
  let s' := fst (run cfg register_addr ds s) in
  cameras s' = cameras s
  /\ snd (step d s') = [SendReply (src d) tid (XR2cCr (MkR2cCr None None None None (lit "NULL") None (-1) 0))].
Proof.
  intros Hn Hds Hd Hfair Hst Hpos s'. assert (cameras s' = cameras s) as E.
  { unfold s'. apply (run_ind (fun t => cameras t = cameras s) _ ds s) with (2 := Hds); [|done].
    intros e t He Ht. rewrite handle_cameras. destruct (beat e) as [hb|] eqn:Eb; [|done].
    specialize (He _ (beat_name_some _ _ Eb)). unfold full. rewrite Ht, He.
    rewrite bool_decide_eq_false_2, andb_true_r by (by intros []). rewrite (proj2 (Nat.leb_le _ _)) by done. done. }
  split; [done|]. revert Hd. unfold connect, request, handle, register_handle. cbn [raw received].
  destruct (listener d); [done|]. destruct (decode_discovery _) as [[t x]|]; [|done]. destruct x; try done.
  intros [= -> ->]. cbn [register_payload]. unfold handle_connect. cbn [received iter now src].
  destruct (CameraRegistry.lookup_fresh _ _ _ _ _) as [e|] eqn:El; [|done]. exfalso.
  apply lookup_fresh_some in El as (k & _ & Hk & Ht); [|done]. rewrite E in Hk. specialize (Hst _ _ Hk).
  unfold sat_sub in Ht. lia.
Qed.
End handling.

(** ** At work *)

Section sample.
#[local] Existing Instances serde_toy crc32_std nom_std cf_std.

Definition toy_raw (payload : UdpXml) : bytes :=
  match encode_discovery 7 payload with Ok b => b | Err _ => [] end.

Definition host (n p : Z) : SocketAddr := MkSocketAddr (V4 [192; 168; 1; n]) p.

Definition toy_datagram (l : Listener) (from : SocketAddr) (t : Z) (payload : UdpXml) : Datagram :=
  MkDatagram l from (toy_raw payload) (millis t) 0 11 22 33 (fun _ => None) map_to_list.

Definition toy_cfg : RuntimeConfig := MkRuntimeConfig (V4 [192; 168; 1; 2]) 9999 58200 20000 80000.
Definition toy_register : SocketAddr := host 2 58200.

Definition CAM : str := lit "9527000TESTCAM00ABCD".

Definition toy_query := toy_datagram Middleman (host 91 4000) 1000 (XD2mQ (MkD2mQ CAM (Some 2))).
Definition toy_registration := toy_datagram Register (host 91 4001) 2000 (XD2rR (MkD2rR CAM 11 None)).
Definition toy_beat := toy_datagram Register (host 91 4001) 3000 (XD2rHb (MkD2rHb CAM None (Some 1) 11)).
Definition toy_connect_to (uid : str) (t : Z) :=
  toy_datagram Register (host 50 5000) t
    (XC2rC (MkC2rC uid (MkIpPort (lit "10.0.0.1") 6000) (MkIpPort [] 0) 9 false 4 (lit "WIN") None)).

Lemma toy_fair l from t payload : fair (toy_datagram l from t payload).
Proof. by intros m. Qed.

Lemma register_reply_authentic_witness : exists q a, d2rr_token q = random_token a /\ random_ac a = 22.
Proof.
  destruct (register_reply_authentic toy_cfg toy_register [toy_query] toy_registration (host 91 4001) 7
              (MkR2dRr (-4) 22)) as (q & a & _ & _ & _ & _ & Ht & Hr & _).
  - vm_compute. by left.
  - exists q, a. split; [done|by injection Hr].
Defined.

Lemma no_reflection_witness : exists wake tid, ip (r2dc_cli wake) = lit "192.168.1.50"
  /\ In (WakeBurst (host 91 4001) tid wake)
       (snd (handle toy_cfg toy_register (toy_connect_to (lit "9527000TESTCAM00") 4000)
               (fst (run toy_cfg toy_register [toy_query; toy_beat] Server_new)))).
Proof.
  eexists _, _. match goal with |- ?P /\ ?Q => assert Q as H by (vm_compute; left; reflexivity) end.
  split; [|exact H].
  pose proof (no_reflection toy_cfg toy_register _ _ _ (toy_fair _ _ _ _) H) as (c & uid & h & _ & _ & _ & _ & _ & Hi & _).
  exact Hi.
Defined.

Lemma connect_wakes_witness : exists wake b,
  encode_discovery 7 (XR2dC wake) = Ok b
  /\ wake_burst (fun _ => true) (fun _ => false) (host 91 4001) 7 wake WAKE_BURST_COUNT 0
     = replicate 10 (host 91 4001, b).
Proof.
  destruct (connect_wakes toy_cfg toy_register [toy_query] toy_beat [toy_registration]
              (MkD2rHb CAM None (Some 1) 11) (toy_connect_to CAM 4000) 7
              (MkC2rC CAM (MkIpPort (lit "10.0.0.1") 6000) (MkIpPort [] 0) 9 false 4 (lit "WIN") None))
    as (rc & rl & wake & _ & Hw & Hb & Hs).
  - vm_compute. reflexivity.
  - vm_compute. reflexivity.
  - constructor; [|constructor]. split; [vm_compute; congruence|vm_compute; congruence].
  - vm_compute. reflexivity.
  - reflexivity.
  - split; vm_compute; congruence.
  - destruct (Hb eq_refl) as [-> ->]. destruct (encode_discovery 7 (XR2dC wake)) as [b|e] eqn:E.
    + exists wake, b. split; [exact E|]. by apply Hs.
    + exfalso. revert E. rewrite Hw. vm_compute. congruence.
Defined.

(** 1024 cameras last heard at the origin of time. *)
Definition crowd : gmap str CameraEntry :=
  list_to_map (map (fun i => ([Z.of_nat i], MkCameraEntry (host 9 9) 0 0)) (seq 0 1024)).

Lemma crowd_size : size crowd = 1024%nat.
Proof.
  unfold crowd. rewrite map_size_list_to_map.
  - by rewrite length_map, length_seq.
  - change (NoDup (map fst (map (fun i => ([Z.of_nat i], MkCameraEntry (host 9 9) 0 0)) (seq 0 1024)))).
    rewrite map_map. apply (NoDup_fmap_2_strong (fun i => [Z.of_nat i])); [|apply NoDup_seq]. intros i j _ _ [= H]. lia.
Qed.

Lemma crowd_lookup uid e : crowd !! uid = Some e -> last_seen e = 0 /\ length uid = 1%nat.
Proof.
  intros H. apply elem_of_list_to_map_2, list_elem_of_In, in_map_iff in H as (i & [= <- <-] & _). done.
Qed.

Lemma full_registry_locks_out_witness :
  cameras (fst (run toy_cfg toy_register [toy_beat] (MkServer crowd ∅ ∅))) = crowd.
Proof.
  apply (full_registry_locks_out toy_cfg toy_register (MkServer crowd ∅ ∅) [toy_beat] (toy_connect_to CAM 4000000) 7
           (MkC2rC CAM (MkIpPort (lit "10.0.0.1") 6000) (MkIpPort [] 0) 9 false 4 (lit "WIN") None)).
  - cbn [cameras]. by rewrite crowd_size.
  - assert (beat_name toy_beat = Some CAM) as Hn by (vm_compute; reflexivity).
    constructor; [|constructor]. intros uid Hu. rewrite Hn in Hu. assert (uid = CAM) as -> by congruence.
    cbn [cameras]. destruct (crowd !! CAM) as [e|] eqn:E; [|done].
    apply crowd_lookup in E as [_ E]. vm_compute in E. congruence.
  - vm_compute. reflexivity.
  - apply toy_fair.
  - cbn [cameras]. intros uid e H. apply crowd_lookup in H as [-> _]. reflexivity.
  - done.
Defined.
End sample.
