(* ===== verification/MqttControl.v ===== *)
(** * MQTT topics and commands ([src/mqtt/topics.rs, control.rs])

    The names of the topics of a camera, and the parser of what arrives on
    them. [str::to_lowercase] needs the Unicode tables and [parse::<f32>] the
    correctly rounded decimal conversion of the standard library: [Unicode] and
    [DecimalF32] are their interfaces. A 32-bit float is a binary32 value of
    [SpecFloat]. *)

From Stdlib Require Import SpecFloat.
From S2P Require Import Prelude Text.

Class Unicode := {
  to_lowercase : str -> str
}.

Class UnicodeLaws (U : Unicode) : Prop := {
  to_lowercase_ascii s : Forall is_ascii s -> to_lowercase s = to_ascii_lowercase s
}.

Class DecimalF32 := {
  parse_f32 : str -> option spec_float
}.

(** The conversions the theorems speak of: decimal digits parse. *)
Class DecimalF32Laws (F : DecimalF32) : Prop := {
  parse_f32_digit d : 0 <= d < 10 -> exists x, parse_f32 [48 + d] = Some x
    /\ match x with S754_zero false | S754_finite false _ _ => True | _ => False end
}.

(** [is_finite] and [< 0.0]. *)
Definition f32_is_finite (x : spec_float) : bool :=
  match x with S754_zero _ | S754_finite _ _ _ => true | _ => false end.

Definition f32_negative (x : spec_float) : bool := SFltb x (S754_zero false).

Definition f32_32 : spec_float := S754_finite false 8388608 (-18).

(** ** Topics ([topics.rs]) *)

Definition topic (prefix cam : str) (rest : string) : str := prefix ++ [47] ++ cam ++ [47] ++ lit rest.

Definition status (prefix cam : str) : str := topic prefix cam "status".
Definition status_motion (prefix cam : str) : str := topic prefix cam "status/motion".
Definition status_battery_level (prefix cam : str) : str := topic prefix cam "status/battery_level".
Definition status_battery (prefix cam : str) : str := topic prefix cam "status/battery".
Definition status_preview (prefix cam : str) : str := topic prefix cam "status/preview".
Definition status_floodlight (prefix cam : str) : str := topic prefix cam "status/floodlight".
Definition status_floodlight_tasks (prefix cam : str) : str := topic prefix cam "status/floodlight_tasks".
Definition status_pir (prefix cam : str) : str := topic prefix cam "status/pir".
Definition status_ptz_preset (prefix cam : str) : str := topic prefix cam "status/ptz/preset".

Definition control_floodlight (prefix cam : str) : str := topic prefix cam "control/floodlight".
Definition control_floodlight_tasks (prefix cam : str) : str := topic prefix cam "control/floodlight_tasks".
Definition control_led (prefix cam : str) : str := topic prefix cam "control/led".
Definition control_ir (prefix cam : str) : str := topic prefix cam "control/ir".
Definition control_pir (prefix cam : str) : str := topic prefix cam "control/pir".
Definition control_reboot (prefix cam : str) : str := topic prefix cam "control/reboot".
Definition control_ptz (prefix cam : str) : str := topic prefix cam "control/ptz".
Definition control_ptz_preset (prefix cam : str) : str := topic prefix cam "control/ptz/preset".
Definition control_ptz_assign (prefix cam : str) : str := topic prefix cam "control/ptz/assign".
Definition control_zoom (prefix cam : str) : str := topic prefix cam "control/zoom".
Definition control_siren (prefix cam : str) : str := topic prefix cam "control/siren".
Definition control_wakeup (prefix cam : str) : str := topic prefix cam "control/wakeup".

Definition query_battery (prefix cam : str) : str := topic prefix cam "query/battery".
Definition query_preview (prefix cam : str) : str := topic prefix cam "query/preview".
Definition query_pir (prefix cam : str) : str := topic prefix cam "query/pir".
Definition query_ptz_preset (prefix cam : str) : str := topic prefix cam "query/ptz/preset".

Definition subscribe_topics (prefix cam : str) : list str :=
  [control_floodlight prefix cam; control_floodlight_tasks prefix cam; control_led prefix cam;
   control_ir prefix cam; control_pir prefix cam; control_reboot prefix cam; control_ptz prefix cam;
   control_ptz_preset prefix cam; control_ptz_assign prefix cam; control_zoom prefix cam;
   control_siren prefix cam; control_wakeup prefix cam;
   query_battery prefix cam; query_preview prefix cam; query_pir prefix cam; query_ptz_preset prefix cam].

(** ** Commands ([control.rs]) *)

Inductive PtzDirection := Up | Down | Left | Right.

Inductive IrMode := IrOn | IrOff | IrAuto.

Inductive ControlCommand :=
| Floodlight (camera : str) (state : bool)
| FloodlightTasks (camera : str) (state : bool)
| Led (camera : str) (state : bool)
| Ir (camera : str) (mode : IrMode)
| Pir (camera : str) (state : bool)
| Reboot (camera : str)
| Ptz (camera : str) (direction : PtzDirection) (amount : spec_float)
| PtzPreset (camera : str) (preset_id : Z)
| PtzPresetByName (camera : str) (name : str)
| PtzAssign (camera : str) (preset_id : Z) (name : str)
| Zoom (camera : str) (level : spec_float)
| Siren (camera : str) (state : bool)
| Wakeup (camera : str) (minutes : Z)
| QueryBattery (camera : str)
| QueryPreview (camera : str)
| QueryPir (camera : str)
| QueryPtzPreset (camera : str).

Definition camera_name (c : ControlCommand) : str :=
  match c with
  | Floodlight camera _ | FloodlightTasks camera _ | Led camera _ | Ir camera _ | Pir camera _ | Reboot camera
  | Ptz camera _ _ | PtzPreset camera _ | PtzPresetByName camera _ | PtzAssign camera _ _ | Zoom camera _
  | Siren camera _ | Wakeup camera _ | QueryBattery camera | QueryPreview camera | QueryPir camera
  | QueryPtzPreset camera => camera
  end.

Definition control_topic (prefix : str) (c : ControlCommand) : str :=
  let cam := camera_name c in
  match c with
  | Floodlight _ _ => topic prefix cam "control/floodlight"
  | FloodlightTasks _ _ => topic prefix cam "control/floodlight_tasks"
  | Led _ _ => topic prefix cam "control/led"
  | Ir _ _ => topic prefix cam "control/ir"
  | Pir _ _ => topic prefix cam "control/pir"
  | Reboot _ => topic prefix cam "control/reboot"
  | Ptz _ _ _ => topic prefix cam "control/ptz"
  | PtzPreset _ _ => topic prefix cam "control/ptz/preset"
  | PtzPresetByName _ _ => topic prefix cam "control/ptz/preset"
  | PtzAssign _ _ _ => topic prefix cam "control/ptz/assign"
  | Zoom _ _ => topic prefix cam "control/zoom"
  | Siren _ _ => topic prefix cam "control/siren"
  | Wakeup _ _ => topic prefix cam "control/wakeup"
  | QueryBattery _ => topic prefix cam "query/battery"
  | QueryPreview _ => topic prefix cam "query/preview"
  | QueryPir _ => topic prefix cam "query/pir"
  | QueryPtzPreset _ => topic prefix cam "query/ptz/preset"
  end.

(** *** The parser *)

Definition eqs (s : str) (l : string) : bool := bool_decide (s = lit l).

(** [split_whitespace]: the non-empty pieces between white space. *)
Fixpoint split_whitespace (s : str) : list str :=
  match s with
  | [] => []
  | c :: s' =>
      if is_whitespace c then split_whitespace s'
      else match s' with
           | d :: _ => if is_whitespace d then [c] :: split_whitespace s'
                       else match split_whitespace s' with [] => [[c]] | p :: ps => (c :: p) :: ps end
           | [] => [[c]]
           end
  end.

Definition name_char (c : Z) : bool :=
  in_range 48 57 c || in_range 65 90 c || in_range 97 122 c || (c =? 95) || (c =? 45).

Definition is_reserved_reply_token (payload : str) : bool :=
  eq_ignore_ascii_case payload (lit "OK") || eq_ignore_ascii_case payload (lit "FAIL").

Section parser.
Context `{U : Unicode} `{F : DecimalF32}.

Definition parse_on_off (payload : str) : option bool :=
  let p := to_lowercase payload in
  if eqs p "on" || eqs p "true" || eqs p "1" then Some true
  else if eqs p "off" || eqs p "false" || eqs p "0" then Some false
  else None.

Definition parse_ir_mode (payload : str) : option IrMode :=
  let p := to_lowercase payload in
  if eqs p "on" || eqs p "true" || eqs p "1" then Some IrOn
  else if eqs p "off" || eqs p "false" || eqs p "0" then Some IrOff
  else if eqs p "auto" then Some IrAuto
  else None.

Definition parse_ptz_direction (s : str) : option PtzDirection :=
  let p := to_lowercase s in
  if eqs p "up" then Some Up
  else if eqs p "down" then Some Down
  else if eqs p "left" then Some Left
  else if eqs p "right" then Some Right
  else None.

Definition parse_ptz (camera payload : str) : option ControlCommand :=
  match split_whitespace payload with
  | [] => None
  | d :: rest =>
      direction ← parse_ptz_direction d;
      amount ← match rest with a :: _ => parse_f32 a | [] => Some f32_32 end;
      if negb (f32_is_finite amount) || f32_negative amount then None else Some (Ptz camera direction amount)
  end.

Definition parse_control_action (camera action payload : str) : option ControlCommand :=
  if is_reserved_reply_token payload then None
  else if eqs action "floodlight" then Floodlight camera <$> parse_on_off payload
  else if eqs action "floodlight_tasks" then FloodlightTasks camera <$> parse_on_off payload
  else if eqs action "led" then Led camera <$> parse_on_off payload
  else if eqs action "ir" then Ir camera <$> parse_ir_mode payload
  else if eqs action "pir" then Pir camera <$> parse_on_off payload
  else if eqs action "reboot" then Some (Reboot camera)
  else if eqs action "ptz" then parse_ptz camera payload
  else if eqs action "zoom" then
    level ← parse_f32 payload;
    if negb (f32_is_finite level) || f32_negative level then None else Some (Zoom camera level)
  else if eqs action "siren" then Siren camera <$> parse_on_off payload
  else if eqs action "wakeup" then
    minutes ← parse_uint u32_max payload;
    if (minutes =? 0) || (1440 <? minutes) then None else Some (Wakeup camera minutes)
  else None.

Definition parse_query_action (camera action : str) : option ControlCommand :=
  if eqs action "battery" then Some (QueryBattery camera)
  else if eqs action "preview" then Some (QueryPreview camera)
  else if eqs action "pir" then Some (QueryPir camera)
  else None.

Definition parse_control_ptz_sub (camera sub payload : str) : option ControlCommand :=
  if eqs sub "preset" then
    match parse_uint u8_max payload with
    | Some preset_id => Some (PtzPreset camera preset_id)
    | None =>
        let name := trim payload in
        match name with
        | [] => None
        | _ => if is_reserved_reply_token name then None else Some (PtzPresetByName camera name)
        end
    end
  else if eqs sub "assign" then
    '(id_str, name) ← split_once 32 payload;
    preset_id ← parse_uint u8_max id_str;
    match trim name with
    | [] => None
    | name => Some (PtzAssign camera preset_id name)
    end
  else None.

Definition parse_query_ptz_sub (camera sub : str) : option ControlCommand :=
  if eqs sub "preset" then Some (QueryPtzPreset camera) else None.

Definition parse_control_message (prefix topic : str) (payload : bytes) : option ControlCommand :=
  let parts := split 47 topic in
  if (length parts <? 3)%nat || negb (bool_decide (nth 0 parts [] = prefix)) then None
  else
    let camera := nth 1 parts [] in
    if bool_decide (camera = []) || negb (forallb name_char camera) then None
    else
      payload_str ← from_utf8 payload;
      let payload_trimmed := trim payload_str in
      match parts with
      | [_; _; category; a; sub] =>
          if eqs category "control" && eqs a "ptz" then parse_control_ptz_sub camera sub payload_trimmed
          else if eqs category "query" && eqs a "ptz" then
            if is_reserved_reply_token payload_trimmed then None else parse_query_ptz_sub camera sub
          else None
      | [_; _; category; action] =>
          if eqs category "control" then parse_control_action camera action payload_trimmed
          else if eqs category "query" then
            if is_reserved_reply_token payload_trimmed then None else parse_query_action camera action
          else None
      | _ => None
      end.
End parser.

(** ** Topics and commands agree *)

Lemma split_join c s p ps : split c s = p :: ps -> s = p ++ concat (map (cons c) ps).
Proof.
  revert p ps. induction s as [|x s IH]; intros p ps; cbn [split]; [by intros [= <- <-]|].
  destruct (Z.eqb_spec x c) as [->|Hne].
  - intros [= <- <-]. destruct (split c s) as [|q qs] eqn:E.
    + exfalso. clear IH. revert E. destruct s as [|y s]; cbn [split]; [done|].
      destruct (y =? c); [done|]. by destruct (split c s).
    + cbn [map concat app]. f_equal. by apply IH.
  - destruct (split c s) as [|q qs] eqn:E.
    + intros [= <- <-]. exfalso. revert E. destruct s as [|y s]; cbn [split]; [done|].
      destruct (y =? c); [done|]. by destruct (split c s).
    + intros [= <- <-]. cbn [app]. f_equal. by apply IH.
Qed.

Lemma split_pieces c s : Forall (Forall (fun x => x <> c)) (split c s).
Proof.
  induction s as [|x s IH]; cbn [split]; [repeat constructor|].
  destruct (Z.eqb_spec x c); [by constructor|].
  destruct (split c s) as [|q qs]; [by repeat constructor|]. inversion IH; subst. by repeat constructor.
Qed.

(** A camera name the configuration accepts. *)
Definition name_ok (cam : str) : Prop := cam <> [] /\ forallb name_char cam = true.

(** A prefix the configuration accepts has no slash. *)
Definition no_slash (s : str) : Prop := Forall (fun c => c <> 47) s.

Lemma name_no_slash cam : name_ok cam -> no_slash cam.
Proof.
  intros [_ H]. apply List.Forall_forall. intros c Hc ->. apply (proj1 (forallb_forall _ _) H) in Hc. done.
Qed.

Lemma eqs_true s l : eqs s l = true <-> s = lit l.
Proof. apply bool_decide_eq_true. Qed.

(** The two shapes of a topic that is a command's. *)
Definition leaf (t prefix cam : str) (category : string) (action : str) : Prop :=
  t = prefix ++ [47] ++ cam ++ [47] ++ lit category ++ [47] ++ action.

Section agree.
Context `{U : Unicode} `{F : DecimalF32}.

(** The branches of the parser, by the pieces of the topic. *)
Lemma parse_shape prefix t payload cmd :
  parse_control_message prefix t payload = Some cmd ->
  exists cam p, name_ok cam /\ no_slash prefix /\ from_utf8 payload = Some p /\
  ((exists sub, leaf t prefix cam "control/ptz" sub /\ parse_control_ptz_sub cam sub (trim p) = Some cmd)
   \/ (exists sub, leaf t prefix cam "query/ptz" sub /\ is_reserved_reply_token (trim p) = false
         /\ parse_query_ptz_sub cam sub = Some cmd)
   \/ (exists action, leaf t prefix cam "control" action /\ parse_control_action cam action (trim p) = Some cmd)
   \/ (exists action, leaf t prefix cam "query" action /\ is_reserved_reply_token (trim p) = false
         /\ parse_query_action cam action = Some cmd)).
Proof.
  unfold parse_control_message. pose proof (split_join 47 t) as Hj. pose proof (split_pieces 47 t) as Hp.
  destruct (split 47 t) as [|p0 ps]; [done|]. specialize (Hj _ _ eq_refl). inversion Hp as [|? ? Hp0 _]; subst.
  cbn [nth]. destruct (_ || negb (bool_decide (p0 = prefix))) eqn:E0; [done|].
  apply orb_false_iff in E0 as [_ E0]. apply negb_false_iff, bool_decide_eq_true in E0 as ->.
  destruct ps as [|cam ps]; [done|]. cbn [nth].
  destruct (_ || _) eqn:E1; [done|]. apply orb_false_iff in E1 as [E1 E2].
  apply bool_decide_eq_false in E1. apply negb_false_iff in E2.
  destruct (from_utf8 payload) as [p|] eqn:Eu; [|done]. cbn [mbind option_bind].
  intros H. exists cam, p. split; [done|]. split; [done|]. split; [done|]. revert H.
  destruct ps as [|cat [|a [|sub [|? ?]]]]; try done; cbn [map concat app].
  - destruct (eqs cat "control") eqn:Ec; [|destruct (eqs cat "query") eqn:Eq; [|done]].
    + apply eqs_true in Ec as ->. intros H. right. right. left. exists a. split; [|done]. unfold leaf.
      by rewrite app_nil_r.
    + apply eqs_true in Eq as ->. destruct (is_reserved_reply_token _) eqn:Er; [done|]. intros H.
      right. right. right. exists a. split; [|done]. unfold leaf. by rewrite app_nil_r.
  - destruct (eqs cat "control" && eqs a "ptz") eqn:Ec; [|destruct (eqs cat "query" && eqs a "ptz") eqn:Eq; [|done]].
    + apply andb_true_iff in Ec as [Ec Ea]. apply eqs_true in Ec, Ea. subst. intros H. left. exists sub.
      split; [|done]. unfold leaf. by rewrite app_nil_r.
    + apply andb_true_iff in Eq as [Eq Ea]. apply eqs_true in Eq, Ea. subst.
      destruct (is_reserved_reply_token _) eqn:Er; [done|]. intros H.
      right. left. exists sub. split; [|done]. unfold leaf. by rewrite app_nil_r.
Qed.

(** What parsing says of a command: camera, topic, subscription. *)
Definition answers_on (prefix cam : str) (category : string) (x : str) (cmd : ControlCommand) : Prop :=
  camera_name cmd = cam /\ leaf (control_topic prefix cmd) prefix cam category x
  /\ In (control_topic prefix cmd) (subscribe_topics prefix cam).

Ltac parsed_names :=
  repeat match goal with
    | H : context [eqs ?x ?l] |- _ =>
        let E := fresh in destruct (eqs x l) eqn:E;
        [apply eqs_true in E; subst x|clear E]; cbv iota in H
    end.

Ltac parsed_cmd := simplify_option_eq; split; [done|]; split; [done|]; cbn; tauto.

Lemma control_action_topic prefix cam x p cmd :
  parse_control_action cam x p = Some cmd -> answers_on prefix cam "control" x cmd.
Proof.
  unfold parse_control_action, parse_ptz. destruct (is_reserved_reply_token _); [done|]. intros H.
  parsed_names; [..|done]; try parsed_cmd.
  all: repeat (case_match; try done); simplify_option_eq; repeat (case_match; try done); parsed_cmd.
Qed.

Lemma query_action_topic prefix cam x cmd :
  parse_query_action cam x = Some cmd -> answers_on prefix cam "query" x cmd.
Proof. unfold parse_query_action. intros H. parsed_names; [..|done]; parsed_cmd. Qed.

Lemma query_ptz_topic prefix cam x cmd :
  parse_query_ptz_sub cam x = Some cmd -> answers_on prefix cam "query/ptz" x cmd.
Proof. unfold parse_query_ptz_sub. intros H. parsed_names; [..|done]; parsed_cmd. Qed.

Lemma control_ptz_topic prefix cam x p cmd :
  parse_control_ptz_sub cam x p = Some cmd -> answers_on prefix cam "control/ptz" x cmd.
Proof.
  unfold parse_control_ptz_sub. intros H. parsed_names; [| |done].
  - repeat (case_match; try done); parsed_cmd.
  - destruct (split_once _ _) as [[a b]|]; [|done]. cbn [mbind option_bind] in H.
    destruct (parse_uint _ a); [|done]. cbn [mbind option_bind] in H. destruct (trim b); [done|]. parsed_cmd.
Qed.

(** A command arrives on the topic its answer goes to, which the bridge
    subscribes to, and for a well-named camera. *)
Lemma parse_topic prefix t payload cmd :
  parse_control_message prefix t payload = Some cmd ->
  control_topic prefix cmd = t /\ name_ok (camera_name cmd) /\ no_slash prefix
  /\ In t (subscribe_topics prefix (camera_name cmd)).
Proof.
  intros H. apply parse_shape in H as (cam & p & Hn & Hs & _ & H).
  assert (exists category x, leaf t prefix cam category x /\ answers_on prefix cam category x cmd)
    as (cat & x & Ht & <- & Hl & Hin).
  { destruct H as [(x & Hl & H)|[(x & Hl & _ & H)|[(x & Hl & H)|(x & Hl & _ & H)]]].
    - exists "control/ptz", x. eauto using control_ptz_topic.
    - exists "query/ptz", x. eauto using query_ptz_topic.
    - exists "control", x. eauto using control_action_topic.
    - exists "query", x. eauto using query_action_topic. }
  unfold leaf in *. rewrite <- Ht in Hl. split; [done|]. split; [done|]. split; [done|]. by rewrite <- Hl.
Qed.

(** ** What the bridge publishes is no command *)

(** An answer is not a command on any topic. *)
Lemma answer_no_command prefix t answer :
  In answer [lit "OK"; lit "FAIL"] -> parse_control_message prefix t answer = None.
Proof.
  intros Ha. destruct (parse_control_message _ _ _) as [cmd|] eqn:E; [|done]. exfalso.
  apply parse_shape in E as (cam & p & _ & _ & Eu & H).
  assert (is_reserved_reply_token (trim p) = true /\ parse_uint u8_max (trim p) = None
          /\ split_once 32 (trim p) = None /\ trim (trim p) = trim p) as (Hr & Hn & Ho & Ht).
  { destruct Ha as [<-|[<-|[]]]; vm_compute in Eu; injection Eu as <-; repeat split; reflexivity. }
  destruct H as [(x & _ & H)|[(x & _ & Hr' & _)|[(x & _ & H)|(x & _ & Hr' & _)]]]; [|congruence| |congruence].
  - unfold parse_control_ptz_sub in H. rewrite Hn, Ho, Ht, Hr in H.
    destruct (eqs x "preset"), (eqs x "assign"); try done; by destruct (trim p).
  - unfold parse_control_action in H. by rewrite Hr in H.
Qed.

Lemma split_topic prefix cam rest :
  no_slash prefix -> name_ok cam -> split 47 (topic prefix cam rest) = prefix :: cam :: split 47 (lit rest).
Proof.
  intros Hp Hc. unfold topic. cbn [app]. rewrite split_sep by done.
  f_equal. rewrite split_sep by (by apply name_no_slash). done.
Qed.

(** Nothing on a status topic is a command. *)
Lemma status_no_command prefix cam rest more payload :
  no_slash prefix -> name_ok cam -> split 47 (lit rest) = lit "status" :: more ->
  parse_control_message prefix (topic prefix cam rest) payload = None.
Proof.
  intros Hp Hc Hs. unfold parse_control_message. rewrite split_topic, Hs by done. cbn [length nth].
  destruct (_ || _); [done|]. destruct (_ || _); [done|]. destruct (from_utf8 payload) as [p|]; [|done].
  cbn [mbind option_bind]. by destruct more as [|? [|? [|? ?]]].
Qed.

(** ** Every topic works *)

Context `{!UnicodeLaws U} `{!DecimalF32Laws F}.

(** The payload of a topic that is sure to be a command. *)
Definition sample_payload (rest : string) : string :=
  if bool_decide (rest = "control/ptz")%string then "up"
  else if bool_decide (rest = "control/ptz/preset")%string then "1"
  else if bool_decide (rest = "control/ptz/assign")%string then "1 gate"
  else if bool_decide (rest = "control/zoom")%string then "2"
  else if bool_decide (rest = "control/wakeup")%string then "5"
  else "on".

Lemma parse_sample prefix cam rest category a :
  no_slash prefix -> name_ok cam -> split 47 (lit rest) = [category; a] ->
  forall p, from_utf8 (lit (sample_payload rest)) = Some p ->
  parse_control_message prefix (topic prefix cam rest) (lit (sample_payload rest)) =
    if eqs category "control" then parse_control_action cam a (trim p)
    else if eqs category "query" then
      if is_reserved_reply_token (trim p) then None else parse_query_action cam a
    else None.
Proof.
  intros Hp Hc Hs p Eu. unfold parse_control_message. rewrite split_topic, Hs by done. cbn [length nth].
  rewrite bool_decide_eq_true_2 by done. destruct Hc as [Hc1 Hc2].
  rewrite bool_decide_eq_false_2, Hc2 by done. cbn [negb orb Nat.ltb Nat.leb]. by rewrite Eu.
Qed.

Lemma parse_sample_ptz prefix cam rest category sub :
  no_slash prefix -> name_ok cam -> split 47 (lit rest) = [category; lit "ptz"; sub] ->
  forall p, from_utf8 (lit (sample_payload rest)) = Some p ->
  parse_control_message prefix (topic prefix cam rest) (lit (sample_payload rest)) =
    if eqs category "control" then parse_control_ptz_sub cam sub (trim p)
    else if eqs category "query" then
      if is_reserved_reply_token (trim p) then None else parse_query_ptz_sub cam sub
    else None.
Proof.
  intros Hp Hc Hs p Eu. unfold parse_control_message. rewrite split_topic, Hs by done. cbn [length nth].
  rewrite bool_decide_eq_true_2 by done. destruct Hc as [Hc1 Hc2].
  rewrite bool_decide_eq_false_2, Hc2 by done. cbn [negb orb Nat.ltb Nat.leb]. rewrite Eu. cbn [mbind option_bind].
  by rewrite !andb_true_r.
Qed.

Lemma on_parses : parse_on_off (lit "on") = Some true /\ parse_ir_mode (lit "on") = Some IrOn.
Proof.
  unfold parse_on_off, parse_ir_mode. rewrite to_lowercase_ascii by (by apply ascii_check). split; reflexivity.
Qed.

Lemma up_parses : parse_ptz_direction (lit "up") = Some Up.
Proof. unfold parse_ptz_direction. rewrite to_lowercase_ascii by (by apply ascii_check). reflexivity. Qed.

(** Evaluate what depends on literals alone. *)
Ltac literals :=
  repeat match goal with
    | |- context [trim ?x] => let v := eval vm_compute in (trim x) in change (trim x) with v
    | |- context [eqs ?x ?l] => let v := eval vm_compute in (eqs x l) in change (eqs x l) with v
    | |- context [is_reserved_reply_token ?x] =>
        let v := eval vm_compute in (is_reserved_reply_token x) in change (is_reserved_reply_token x) with v
    | |- context [parse_uint ?m ?x] =>
        let v := eval vm_compute in (parse_uint m x) in change (parse_uint m x) with v
    | |- context [split_once ?c ?x] =>
        let v := eval vm_compute in (split_once c x) in change (split_once c x) with v
    | |- context [split_whitespace ?x] =>
        let v := eval vm_compute in (split_whitespace x) in change (split_whitespace x) with v
    end; cbv iota.

Lemma command_topics prefix cam t :
  (forall payload cmd, parse_control_message prefix t payload = Some cmd ->
     control_topic prefix cmd = t /\ In t (subscribe_topics prefix (camera_name cmd)))
  /\ (no_slash prefix -> name_ok cam -> In t (subscribe_topics prefix cam) ->
       exists payload cmd, parse_control_message prefix t payload = Some cmd /\ camera_name cmd = cam).
Proof.
  split; [intros payload cmd H; apply parse_topic in H as (? & _ & _ & ?); done|].
  intros Hp Hc Hin. destruct on_parses as [On Ir]. pose proof up_parses as Hu.
  destruct (parse_f32_digit 2 ltac:(lia)) as (x & Ex & Hx).
  assert (f32_is_finite x = true /\ f32_negative x = false) as [Hf Hneg] by (by destruct x as [[]|[]| |[] ? ?]).
  change (lit "on") with [111; 110] in On, Ir. change (lit "up") with [117; 112] in Hu. change (48 + 2) with 50 in Ex.
  cbn [subscribe_topics In] in Hin.
  repeat destruct Hin as [<-|Hin]; [..|done].
  all: lazymatch goal with |- context [parse_control_message _ ?t _] =>
         let t' := eval red in t in change t with t';
         lazymatch t' with topic _ _ ?rest =>
           exists (lit (sample_payload rest)); eexists;
           (erewrite (parse_sample prefix cam rest); [|exact Hp|exact Hc|reflexivity|reflexivity]) ||
           (erewrite (parse_sample_ptz prefix cam rest); [|exact Hp|exact Hc|reflexivity|reflexivity])
         end end.
  all: literals; unfold parse_control_action, parse_control_ptz_sub, parse_query_action, parse_query_ptz_sub, parse_ptz.
  all: literals; rewrite ?On, ?Ir, ?Hu, ?Ex; cbn [mbind option_bind fmap option_fmap option_map].
  all: literals; rewrite ?Hf, ?Hneg; split; reflexivity.
Qed.

(** The bridge subscribes to the topics its parser
    understands, and no others. A message that is a command arrived on a topic
    subscribed for the camera it names, and that topic is where its answer is
    published; and on each topic subscribed for a camera some payload is a
    command for it. *)
Theorem topics_exact prefix cam t :
  (forall payload cmd, parse_control_message prefix t payload = Some cmd ->
     control_topic prefix cmd = t /\ In t (subscribe_topics prefix (camera_name cmd)))
  /\ (no_slash prefix -> name_ok cam -> In t (subscribe_topics prefix cam) ->
       exists payload cmd, parse_control_message prefix t payload = Some cmd /\ camera_name cmd = cam).
Proof. apply command_topics. Qed.
End agree.

(** ** Instances: ASCII text, integer amounts *)

Definition unicode_ascii : Unicode := {| to_lowercase := to_ascii_lowercase |}.

#[export] Instance unicode_ascii_laws : UnicodeLaws unicode_ascii.
Proof. by split. Qed.

Definition decimal_int : DecimalF32 := {|
  parse_f32 s := (fun n => binary_normalize 24 128 n 0 false) <$> parse_uint u32_max s
|}.

#[export] Instance decimal_int_laws : DecimalF32Laws decimal_int.
Proof.
  split. intros d Hd. assert (In d [0; 1; 2; 3; 4; 5; 6; 7; 8; 9]) as Hin by (cbn; lia).
  repeat destruct Hin as [<-|Hin]; [..|done]; eexists; (split; [vm_compute; reflexivity|done]).
Qed.

Lemma topics_exact_witness : exists payload cmd,
  parse_control_message (U := unicode_ascii) (F := decimal_int) (lit "bairelay")
    (control_ptz (lit "bairelay") (lit "porch")) payload = Some cmd
  /\ camera_name cmd = lit "porch".
Proof.
  destruct (topics_exact (U := unicode_ascii) (F := decimal_int) (lit "bairelay") (lit "porch")
              (control_ptz (lit "bairelay") (lit "porch"))) as [_ H].
  apply H.
  - apply List.Forall_forall. intros c Hc ->. vm_compute in Hc. intuition discriminate.
  - split; [discriminate|reflexivity].
  - cbn. tauto.
Defined.
