(* ===== verification/Mqtt.v ===== *)
(** * The MQTT side ([src/mqtt_dispatch.rs, mqtt_loop.rs, mqtt_status.rs])

    What the bridge does for a command ([dispatch_control]), as the list of its
    effects under given answers of the camera; what it publishes and caches for
    a camera event ([report]) and sends again when the broker comes back
    ([republish_cached_status], camera.rs); and how it paces its retries
    ([MqttBackoff]). XML, base64 and the preview's rendering are library code:
    their output is part of the answers. Instants are in nanoseconds. *)

From Stdlib Require Import SpecFloat.
From S2P Require Import Prelude Text MqttControl.

(** ** Commands to the camera *)

Inductive LightState := LightOn | LightOff | LightAuto.

Inductive Direction := DirUp | DirDown | DirLeft | DirRight | DirStop.

Inductive call :=
| set_floodlight_manual (state : bool) (duration : Z)
| floodlight_tasks_enable (state : bool)
| led_light_set (state : bool)
| irled_light_set (ls : LightState)
| pir_set (state : bool)
| reboot
| send_ptz (dir : Direction) (speed : spec_float)
| moveto_ptz_preset (preset_id : Z)
| set_ptz_preset (preset_id : Z) (name : str)
| zoom_to (camera_units : Z)
| siren
| battery_status
| snapshot
| pir_config
| ptz_presets.

(** [x as u32] after [round]: to nearest, halves up, and saturating. *)
Definition round_u32 (x : spec_float) : Z :=
  match x with
  | S754_finite false m e =>
      clamp 0 u32_max (if 0 <=? e then Z.pos m * 2 ^ e else (Z.pos m + 2 ^ (- e - 1)) / 2 ^ (- e))
  | S754_infinity false => u32_max
  | _ => 0
  end.

Definition f32_1000 : spec_float := S754_finite false 16384000 (-14).

(** [ZoomLevel::from_factor]. *)
Definition from_factor (factor : spec_float) : Z :=
  let factor := if f32_negative factor then S754_zero false else factor in
  round_u32 (SFmul 24 128 factor f32_1000).

(** How waiting for a camera to wake ends. *)
Inductive woken := WokenUp | TimedOut | CancelledFirst.

(** What the outside answers while a command runs: whether the camera is
    connected, or comes up within the 15 s it is waited for; how the wait of a
    [Wakeup] ends; whether a call
    succeeds within its 30 s; the preset names cached; the texts made of the
    replies; whether a report or the discovery publish succeeds. *)
Record Env := MkEnv {
  connected : bool;
  woken_up : woken;
  succeeds : call -> bool;
  preset_cache : list (Z * str);
  battery_xml : option bytes;
  pir_xml : option bytes;
  preview : bytes;
  slots : list (Z * option str);
  report_ok : bool;
  discovery_ok : bool
}.

Definition preset_id_for_name (cache : list (Z * str)) (name : str) : option Z :=
  fst <$> List.find (fun x => eq_ignore_ascii_case (snd x) name) cache.

Definition preset_name_for_id (cache : list (Z * str)) (preset_id : Z) : option str :=
  snd <$> List.find (fun x => fst x =? preset_id) cache.

(** ** Events of a camera ([camera_status.rs], [mqtt/status.rs]) *)

Inductive CameraEvent :=
| Connection (online : bool)
| Motion (detected : bool)
| MotionUnknown
| BatteryLevel (percent : Z)
| FloodlightState (on : bool)
| FloodlightTasksState (enabled : bool)
| PirState (enabled : bool)
| Preview (encoded : bytes).

Definition is_cacheable (e : CameraEvent) : bool :=
  match e with
  | Motion _ | BatteryLevel _ | FloodlightState _ | FloodlightTasksState _ | PirState _ => true
  | _ => false
  end.

Definition on_off (b : bool) : bytes := if b then lit "on" else lit "off".

(** The quotes of the JSON text, which a literal cannot hold. *)
Definition floodlight_state_json (on : bool) : bytes :=
  [123; 34] ++ lit "state" ++ [34; 58; 34] ++ on_off on ++ [34; 125].

(** Topic and payload of an event; all are retained. A preview is given as its
    base64 text. *)
Definition publication (prefix cam : str) (e : CameraEvent) : str * bytes :=
  match e with
  | Connection online => (status prefix cam, if online then lit "connected" else lit "disconnected")
  | Motion detected => (status_motion prefix cam, on_off detected)
  | MotionUnknown => (status_motion prefix cam, lit "unknown")
  | BatteryLevel percent => (status_battery_level prefix cam, show_uint (Z.min percent 100))
  | FloodlightState on => (status_floodlight prefix cam, floodlight_state_json on)
  | FloodlightTasksState enabled => (status_floodlight_tasks prefix cam, on_off enabled)
  | PirState enabled => (status_pir prefix cam, on_off enabled)
  | Preview encoded => (status_preview prefix cam, encoded)
  end.

(** ** [dispatch_control] ([mqtt_dispatch.rs]) *)

Inductive effect :=
| Acquire
| Release
| Call (c : call)
| Sleep (seconds : spec_float)
| Hold (seconds : Z)
| Publish (topic : str) (payload : bytes) (retained : bool)
| Report (camera : str) (e : CameraEvent)
| ReplacePresets (presets : list (Z * str))
| PublishDiscovery.

(** The messages among the effects, discovery aside. *)
Definition published (prefix : str) (e : effect) : list (str * bytes * bool) :=
  match e with
  | Publish topic payload retained => [(topic, payload, retained)]
  | Report camera e => [(publication prefix camera e, true)]
  | _ => []
  end.

Definition PTZ_SPEED : spec_float := f32_32.
Definition f32_10 : spec_float := S754_finite false 10485760 (-20).

(** [(amount / speed).clamp(0.0, 10.0)]. *)
Definition ptz_seconds (amount : spec_float) : spec_float :=
  let x := SFdiv 24 128 amount PTZ_SPEED in
  if f32_negative x then S754_zero false else if SFltb f32_10 x then f32_10 else x.

Definition timed (env : Env) (c : call) : list effect * bool := ([Call c], succeeds env c).

(** The command's calls and publications, and whether it succeeded. [Wakeup]
    is handled before. *)
Definition run_command (env : Env) (prefix : str) (cmd : ControlCommand) : list effect * bool :=
  match cmd with
  | Floodlight _ state => timed env (set_floodlight_manual state 30)
  | FloodlightTasks _ state => timed env (floodlight_tasks_enable state)
  | Led _ state => timed env (led_light_set state)
  | Ir _ mode =>
      timed env (irled_light_set match mode with IrOn => LightOn | IrOff => LightOff | IrAuto => LightAuto end)
  | Pir camera state =>
      let '(es, ok) := timed env (pir_set state) in
      (if ok then es ++ [Report camera (PirState state)] else es, ok)
  | Reboot _ => timed env reboot
  | Ptz _ direction amount =>
      let dir := match direction with Up => DirUp | Down => DirDown | Left => DirLeft | Right => DirRight end in
      let '(es, ok) := timed env (send_ptz dir PTZ_SPEED) in
      let es := if ok then es ++ [Sleep (ptz_seconds amount)] else es in
      (es ++ [Call (send_ptz DirStop PTZ_SPEED)], ok)
  | PtzPreset camera preset_id =>
      let '(es, ok) := timed env (moveto_ptz_preset preset_id) in
      match ok, preset_name_for_id (preset_cache env) preset_id with
      | true, Some name => (es ++ [Publish (status_ptz_preset prefix camera) (as_bytes name) true], ok)
      | _, _ => (es, ok)
      end
  | PtzPresetByName camera name =>
      match preset_id_for_name (preset_cache env) name with
      | Some preset_id =>
          let '(es, ok) := timed env (moveto_ptz_preset preset_id) in
          if ok then (es ++ [Publish (status_ptz_preset prefix camera) (as_bytes name) true], ok) else (es, ok)
      | None => ([], false)
      end
  | PtzAssign _ preset_id name => timed env (set_ptz_preset preset_id name)
  | Zoom _ level => timed env (zoom_to (from_factor level))
  | Siren _ state => if state then timed env siren else ([], true)
  | Wakeup _ _ => ([], true)
  | QueryBattery camera =>
      let '(es, ok) := timed env battery_status in
      match ok, battery_xml env with
      | true, Some xml => (es ++ [Publish (status_battery prefix camera) xml false], true)
      | _, _ => (es, false)
      end
  | QueryPreview camera =>
      let '(es, ok) := timed env snapshot in
      if ok then (es ++ [Report camera (Preview (preview env))], report_ok env) else (es, false)
  | QueryPir camera =>
      let '(es, ok) := timed env pir_config in
      match ok, pir_xml env with
      | true, Some xml => (es ++ [Publish (status_pir prefix camera) xml false], true)
      | _, _ => (es, false)
      end
  | QueryPtzPreset _ =>
      let '(es, ok) := timed env ptz_presets in
      if ok then
        let presets := omap (fun x => pair (fst x) <$> snd x) (slots env) in
        (es ++ [ReplacePresets presets; PublishDiscovery], discovery_ok env)
      else (es, false)
  end.

(** The task a [Wakeup] spawns. It holds the lock until the camera has been
    connected for the minutes asked; it gives up when the camera does not
    connect within 120 s or the program is cancelled. *)
Definition wakeup_task (w : woken) (minutes : Z) : list effect :=
  [Acquire] ++ (match w with WokenUp => [Hold (minutes * 60)] | _ => [] end) ++ [Release].

(** [known]: the camera the command names is configured. *)
Definition dispatch_control (env : Env) (known : str -> bool) (prefix : str) (cmd : ControlCommand) : list effect :=
  if negb (known (camera_name cmd)) then []
  else
    match cmd with
    | Wakeup _ minutes => wakeup_task (woken_up env) minutes
    | _ =>
    [Acquire] ++
    (if connected env then
       let '(es, ok) := run_command env prefix cmd in
       es ++ [Publish (control_topic prefix cmd) (if ok then lit "OK" else lit "FAIL") false]
     else []) ++
    [Release]
    end.

(** A message as the event loop handles it. *)
Definition on_publish `{Unicode} `{DecimalF32} (env : Env) (known : str -> bool) (prefix topic : str) (payload : bytes)
    : list effect :=
  match parse_control_message prefix topic payload with
  | Some cmd => dispatch_control env known prefix cmd
  | None => []
  end.

(** ** Status cache and republishing ([status_cache.rs], [mqtt_status.rs]) *)

Record StatusCache := MkStatusCache {
  battery_level : option Z;
  motion : option bool;
  floodlight : option bool;
  floodlight_tasks : option bool;
  pir : option bool
}.

Definition StatusCache_default : StatusCache := MkStatusCache None None None None None.

Definition cache_event (c : StatusCache) (e : CameraEvent) : StatusCache :=
  match e with
  | Motion b => MkStatusCache (battery_level c) (Some b) (floodlight c) (floodlight_tasks c) (pir c)
  | BatteryLevel n => MkStatusCache (Some n) (motion c) (floodlight c) (floodlight_tasks c) (pir c)
  | FloodlightState b => MkStatusCache (battery_level c) (motion c) (Some b) (floodlight_tasks c) (pir c)
  | FloodlightTasksState b => MkStatusCache (battery_level c) (motion c) (floodlight c) (Some b) (pir c)
  | PirState b => MkStatusCache (battery_level c) (motion c) (floodlight c) (floodlight_tasks c) (Some b)
  | Connection _ | MotionUnknown | Preview _ => c
  end.

(** The messages a broker retains, by topic. *)
Abbreviation Broker := (gmap str bytes).

Definition retain (broker : Broker) (m : str * bytes) : Broker := <[fst m := snd m]> broker.

(** [accepted]: the broker took the publish. *)
Definition report (prefix cam : str) (e : CameraEvent) (accepted : bool) (s : Broker * StatusCache)
    : Broker * StatusCache * bool :=
  if accepted then (retain (fst s) (publication prefix cam e), cache_event (snd s) e, true)
  else (fst s, snd s, false).

(** [republish_cached_status] (camera.rs), which stops at the first report that
    fails; [accepts i] is whether the broker takes the [i]-th. *)
Definition cached_events (c : StatusCache) : list CameraEvent :=
  omap id [BatteryLevel <$> battery_level c; Motion <$> motion c; FloodlightState <$> floodlight c;
           FloodlightTasksState <$> floodlight_tasks c; PirState <$> pir c].

Fixpoint report_each (prefix cam : str) (es : list (CameraEvent * bool)) (s : Broker * StatusCache)
    : Broker * StatusCache :=
  match es with
  | [] => s
  | (e, accepted) :: es =>
      let '(s, ok) := report prefix cam e accepted s in
      if ok then report_each prefix cam es s else s
  end.

Definition republish_cached_status (prefix cam : str) (accepts : nat -> bool) (s : Broker * StatusCache)
    : Broker * StatusCache :=
  report_each prefix cam (imap (fun i e => (e, accepts i)) (cached_events (snd s))) s.

(** The reports of a camera's tasks, one after another, failures skipped. *)
Definition reports (prefix cam : str) (es : list (CameraEvent * bool)) (s : Broker * StatusCache)
    : Broker * StatusCache :=
  fold_left (fun s x => fst (report prefix cam (fst x) (snd x) s)) es s.

(** ** Retrying ([mqtt_loop.rs]) *)

Record MqttBackoff := MkMqttBackoff { consecutive : Z; last_logged_at : option Z }.

Definition RELOG_PERIOD : Z := millis 60000.

Definition MqttBackoff_new : MqttBackoff := MkMqttBackoff 0 None.

(** Delay in seconds. [duration_since] saturates at zero. *)
Definition record_error_at (b : MqttBackoff) (now : Z) : Z * bool * MqttBackoff :=
  let should_log := match last_logged_at b with
                    | None => true
                    | Some t => RELOG_PERIOD <=? sat_sub now t
                    end in
  let last_logged_at := if should_log then Some now else last_logged_at b in
  let exp := Z.min (consecutive b) 5 in
  let raw := Z.shiftl 1 exp in
  let delay := Z.min raw 30 in
  (delay, should_log, MkMqttBackoff (sat_add u32_max (consecutive b) 1) last_logged_at).

Definition backoff_reset (b : MqttBackoff) : MqttBackoff := MkMqttBackoff 0 None.

(** What [EventLoop::poll] yields. *)
Inductive EventAction :=
| ActPublish (topic : str) (payload : bytes)
| ActConnAck
| ActLogError
| ActIgnore.

(** The backoff along the loop: for each event at its instant, the delay and
    whether it is logged, if it was an error. *)
Fixpoint backoff_run (b : MqttBackoff) (events : list (EventAction * Z)) : list (option (Z * bool)) :=
  match events with
  | [] => []
  | (ActLogError, now) :: events =>
      let '(delay, should_log, b) := record_error_at b now in Some (delay, should_log) :: backoff_run b events
  | (ActPublish _ _, _) :: events | (ActConnAck, _) :: events => None :: backoff_run (backoff_reset b) events
  | (ActIgnore, _) :: events => None :: backoff_run b events
  end.

(** ** Commands and answers *)

Section dispatching.
Context `{U : Unicode} `{F : DecimalF32}.

(** Where a command's own publications go: status topics of its camera. *)
Lemma run_command_topics env prefix cmd e t p r :
  In e (fst (run_command env prefix cmd)) -> In (t, p, r) (published prefix e) ->
  exists rest more, t = topic prefix (camera_name cmd) rest /\ split 47 (lit rest) = lit "status" :: more.
Proof.
  intros He Hp. destruct cmd; cbn [run_command timed fst camera_name] in *.
  all: repeat (case_match; cbn [fst timed] in He); cbn [fst] in He.
  all: repeat match goal with
    | H : In _ (_ ++ _) |- _ => apply in_app_iff in H as [H|H]
    | H : In _ (_ :: _) |- _ => destruct H as [<-|H]
    | H : In _ [] |- _ => destruct H
    end; try done.
  all: cbn [published In publication] in Hp; try done.
  all: destruct Hp as [Hp|Hp]; [|done];
    injection Hp as <- <- <-.
  all: eexists _, _; split; [reflexivity|vm_compute; reflexivity].
Qed.

(** The guard brackets the rest, and a command that is answered is answered
    once, at the end. *)
Lemma dispatch_shape env known prefix cmd e :
  In e (dispatch_control env known prefix cmd) ->
  e = Acquire \/ e = Release \/ (exists s, e = Hold s) \/ In e (fst (run_command env prefix cmd))
  \/ (exists answer, In answer [lit "OK"; lit "FAIL"] /\ e = Publish (control_topic prefix cmd) answer false).
Proof.
  unfold dispatch_control, wakeup_task. destruct (negb _); [done|]. intros H.
  assert (forall l, In e ([Acquire] ++ l ++ [Release]) -> e = Acquire \/ e = Release \/ In e l) as Hb.
  { intros l Hl. apply in_app_iff in Hl as [Hl|Hl]; [destruct Hl; [auto|done]|].
    apply in_app_iff in Hl as [Hl|Hl]; [auto|]. destruct Hl; [auto|done]. }
  destruct cmd; apply Hb in H as [H|[H|H]]; auto.
  all: try (destruct (connected env); [|done]; destruct (run_command _ _ _) as [es ok];
            apply in_app_iff in H as [H|[<-|[]]]; [by do 3 right; left|];
            do 4 right; eexists; split; [|reflexivity]; destruct ok; cbn; auto).
  destruct (woken_up env); cbn in H; [|done|done]. destruct H as [<-|[]]. right. right. left. eauto.
Qed.

(** The bridge never answers itself. Nothing
    it publishes while handling a message, its answers and the states it
    reports included, is a command when the broker sends it back, whatever the
    camera answers then. *)
Theorem publications_no_commands env known prefix t payload e t' p' r env' known' :
  In e (on_publish env known prefix t payload) -> In (t', p', r) (published prefix e) ->
  on_publish env' known' prefix t' p' = [].
Proof.
  unfold on_publish. destruct (parse_control_message prefix t payload) as [cmd|] eqn:E; [|done]. intros He Hp.
  enough (parse_control_message prefix t' p' = None) as -> by done.
  apply parse_topic in E as (_ & Hn & Hs & _).
  apply dispatch_shape in He as [->|[->|[[s ->]|[He|(a & Ha & ->)]]]]; try done.
  - destruct (run_command_topics _ _ _ _ _ _ _ He Hp) as (rest & more & -> & Hr). by eapply status_no_command.
  - destruct Hp as [Hp|Hp]; [|done]. injection Hp as <- <- <-. by apply answer_no_command.
Qed.




End dispatching.

(** ** The broker restored *)

Section cache.
Context (prefix cam : str).

Notation topic_of := (fun e => fst (publication prefix cam e)).

(** The event of [e]'s kind in the cache. *)
Definition cached (c : StatusCache) (e : CameraEvent) : option CameraEvent :=
  match e with
  | BatteryLevel _ => BatteryLevel <$> battery_level c
  | Motion _ => Motion <$> motion c
  | FloodlightState _ => FloodlightState <$> floodlight c
  | FloodlightTasksState _ => FloodlightTasksState <$> floodlight_tasks c
  | PirState _ => PirState <$> pir c
  | Connection _ | MotionUnknown | Preview _ => None
  end.

Lemma topic_ne a b : lit a <> lit b -> topic prefix cam a <> topic prefix cam b.
Proof. intros H E. unfold topic in E. simplify_list_eq. Qed.

(** The broker retains what the cache holds. *)
Definition in_step (s : Broker * StatusCache) : Prop :=
  forall e, is_cacheable e = true ->
    fst s !! topic_of e = (fun x => snd (publication prefix cam x)) <$> cached (snd s) e.

Lemma report_in_step e accepted s :
  e <> MotionUnknown -> in_step s -> in_step (fst (report prefix cam e accepted s)).
Proof.
  intros Hm Hs. unfold report. destruct accepted; cbn [fst snd]; [|by destruct s].
  intros x Hx. cbn [fst snd]. unfold retain. destruct e, x; try done; cbn [publication fst snd cache_event].
  all: first [rewrite lookup_insert_eq; reflexivity
             |rewrite lookup_insert_ne by (apply topic_ne; vm_compute; congruence); exact (Hs _ Hx)].
Qed.

Lemma reports_in_step es s :
  Forall (fun x => fst x <> MotionUnknown) es -> in_step s -> in_step (reports prefix cam es s).
Proof.
  intros Hes. revert s. induction Hes as [|[e a] es He _ IH]; intros s Hs; [done|]. cbn [reports fold_left].
  by apply IH, report_in_step.
Qed.

(** The broker does not depend on the cache. *)
Lemma reports_broker es b c c' : fst (reports prefix cam es (b, c)) = fst (reports prefix cam es (b, c')).
Proof.
  revert b c c'. induction es as [|[e []] es IH]; intros b c c'; [done| |]; cbn [reports fold_left report fst snd];
    apply IH.
Qed.

Lemma report_each_accepted es s :
  report_each prefix cam (map (fun e => (e, true)) es) s = reports prefix cam (map (fun e => (e, true)) es) s.
Proof. revert s. induction es as [|e es IH]; intros s; [done|]. cbn [map report_each reports fold_left]. apply IH. Qed.

Lemma cached_events_restore b c :
  snd (reports prefix cam (map (fun e => (e, true)) (cached_events c)) (b, c)) = c
  /\ snd (reports prefix cam (map (fun e => (e, true)) (cached_events c)) (b, StatusCache_default)) = c.
Proof. by destruct c as [[] [] [] [] []]. Qed.

(** A broker that lost its retained messages gets
    the camera's states back. After any sequence of reports, some of which the
    broker refused, sending the cached states to an empty broker leaves it with
    the messages the old one retained on the five state topics, byte for byte,
    and the cache as it was; for motion, provided it was not reported as
    unknown. *)
Theorem republish_restores es e :
  is_cacheable e = true -> Forall (fun x => fst x <> MotionUnknown) es ->
  let '(broker, cache) := reports prefix cam es (∅, StatusCache_default) in
  let '(broker', cache') := republish_cached_status prefix cam (fun _ => true) (∅, cache) in
  cache' = cache /\ broker' !! fst (publication prefix cam e) = broker !! fst (publication prefix cam e).
Proof.
  intros He Hes. assert (in_step (∅, StatusCache_default)) as Hi.
  { intros x Hx. cbn [fst snd]. rewrite lookup_empty. by destruct x. }
  pose proof (reports_in_step es _ Hes Hi e He) as Hb. destruct (reports _ _ es _) as [broker cache].
  unfold republish_cached_status. cbn [snd].
  replace (imap (fun i e => (e, true)) (cached_events cache)) with (map (fun e => (e, true)) (cached_events cache))
    by (generalize (cached_events cache); intros l; induction l as [|x l IH]; [done|]; cbn; by rewrite IH).
  rewrite report_each_accepted. set (l := map _ _).
  destruct (cached_events_restore ∅ cache) as [Hc Hc']. fold l in Hc, Hc'.
  assert (Forall (fun x => fst x <> MotionUnknown) l) as Hl.
  { unfold l, cached_events. destruct cache as [[] [] [] [] []]; cbn; repeat constructor; done. }
  pose proof (reports_in_step l _ Hl Hi e He) as Hb'. rewrite Hc' in Hb'.
  rewrite (reports_broker l ∅ _ cache) in Hb'. destruct (reports prefix cam l (∅, cache)) as [broker' cache'].
  cbn [fst snd] in *. split; [done|]. by rewrite Hb', Hb.
Qed.
End cache.

(** ** Retries *)

Lemma after_reset b pre t evs :
  drop (S (length pre)) (backoff_run b (pre ++ (ActConnAck, t) :: evs)) = backoff_run MqttBackoff_new evs.
Proof.
  revert b. induction pre as [|[[] u] pre IH]; intros b; cbn [app backoff_run length drop]; try done; try apply IH.
  all: try (destruct (record_error_at b u) as [[? ?] ?]; apply IH).
Qed.

(** The outage from a state on: delay and log of its [i]-th error. *)
Lemma outage_from b nows i now :
  0 <= consecutive b -> consecutive b + len nows <= u32_max ->
  StronglySorted Z.le nows -> (forall t, last_logged_at b = Some t -> Forall (Z.le t) nows) -> nows !! i = Some now ->
  let out := backoff_run b (map (pair ActLogError) nows) in
  exists logged, out !! i = Some (Some (Z.min 30 (2 ^ (consecutive b + Z.of_nat i)), logged))
    /\ (logged = true <->
         (forall t, last_logged_at b = Some t -> RELOG_PERIOD <= now - t)
         /\ forall k now' d, (k < i)%nat -> nows !! k = Some now' -> out !! k = Some (Some (d, true)) ->
              RELOG_PERIOD <= now - now').
Proof.
  revert b i. induction nows as [|n nows IH]; intros b i Hc Hb Hs Hl Hi; [done|]. cbn [map backoff_run].
  inversion Hs as [|? ? Hs' Hn]; subst.
  destruct (record_error_at b n) as [[d0 l0] b'] eqn:E. unfold record_error_at in E. injection E as <- El <-.
  assert (l0 = true <-> forall t, last_logged_at b = Some t -> RELOG_PERIOD <= n - t) as Hl0.
  { rewrite <- El. destruct (last_logged_at b) as [t|]; [|split; [intros _ ? [=]|done]].
    specialize (Hl t eq_refl). inversion Hl; subst. unfold sat_sub, RELOG_PERIOD, millis.
    rewrite Z.leb_le. split; [intros H u [= <-]; lia|intros H; specialize (H t eq_refl); lia]. }
  destruct i as [|i].
  - injection Hi as ->. exists l0. cbn [lookup list_lookup]. split.
    + assert (Z.min (Z.shiftl 1 (Z.min (consecutive b) 5)) 30 = Z.min 30 (2 ^ (consecutive b + Z.of_nat 0))) as ->;
        [|done]. rewrite Z.add_0_r, Z.shiftl_1_l. pose proof (Z.pow_le_mono_r 2 5 (consecutive b)).
      destruct (Z.le_gt_cases (consecutive b) 5); [rewrite (Z.min_l _ 5)|rewrite (Z.min_r _ 5)]; lia.
    + rewrite Hl0. split; [intros H; split; [done|lia]|by intros [H _]].
  - cbn [lookup list_lookup] in Hi. pose proof (list_elem_of_lookup_2 _ _ _ Hi) as Hin.
    assert (n <= now) as Hnow by (by eapply List.Forall_forall; [exact Hn|apply list_elem_of_In]).
    set (b' := MkMqttBackoff _ _). assert (consecutive b' = consecutive b + 1) as Ec.
    { cbn. unfold sat_add, len in *. cbn [length] in Hb. lia. }
    destruct (IH b' i) as (logged & Eo & Hlog); try done.
    { lia. } { rewrite Ec. unfold len in *. cbn [length] in Hb. lia. }
    { intros t. cbn. rewrite El. destruct l0; [by intros [= <-]|]. intros Ht. specialize (Hl t Ht). by inversion Hl. }
    exists logged. split; [etransitivity; [exact Eo|]; rewrite Ec; do 5 f_equal; lia|].
    rewrite Hlog. cbn [last_logged_at b']. rewrite El.
    destruct l0.
    + split.
      * intros [H1 H2]. specialize (H1 n eq_refl). split.
        { intros t Ht. specialize (proj1 Hl0 eq_refl t Ht). unfold RELOG_PERIOD, millis in *. lia. }
        intros [|k] now' d Hk Hn' Ho; [by injection Hn' as <-|]. eapply (H2 k); [lia|exact Hn'|exact Ho].
      * intros [H1 H2]. split; [intros t [= <-]; eapply (H2 0%nat); [lia|done|reflexivity]|].
        intros k now' d Hk Hn' Ho. eapply (H2 (S k)); [lia|exact Hn'|exact Ho].
    + split; intros [H1 H2]; (split; [done|]).
      * intros [|k] now' d Hk Hn' Ho; [done|]. eapply (H2 k); [lia|exact Hn'|exact Ho].
      * intros k now' d Hk Hn' Ho. eapply (H2 (S k)); [lia|exact Hn'|exact Ho].
Qed.

(** While the broker is down, from the last connection
    on, the error after [i] others is followed by a pause of [2^i] s, at most
    30 s, and it is logged exactly when no error logged in this outage is less
    than a minute old: the first one is, and no two within a minute, whatever
    they say. *)
Theorem outage_backoff b pre t nows i now :
  StronglySorted Z.le nows -> len nows <= u32_max -> nows !! i = Some now ->
  let out := drop (S (length pre)) (backoff_run b (pre ++ (ActConnAck, t) :: map (pair ActLogError) nows)) in
  exists logged, out !! i = Some (Some (Z.min 30 (2 ^ Z.of_nat i), logged))
    /\ (logged = true <->
         forall k now' d, (k < i)%nat -> nows !! k = Some now' -> out !! k = Some (Some (d, true)) ->
           millis 60000 <= now - now').
Proof.
  intros Hs Hlen Hi out. unfold out. rewrite after_reset.
  destruct (outage_from MqttBackoff_new nows i now) as (logged & Eo & Hl); try done.
  exists logged. split; [exact Eo|]. rewrite Hl. split; [by intros [_ H]|]. intros H. split; [done|exact H].
Qed.

(** ** At work *)

Section sample.
#[local] Existing Instances unicode_ascii decimal_int.

Definition sample_env : Env :=
  MkEnv true WokenUp (fun _ => true) [(1, lit "gate")] (Some (lit "xml")) (Some (lit "xml")) (lit "aGk=") [] true true.

Definition porch_preset : str := control_ptz_preset (lit "bairelay") (lit "porch").

Lemma publications_no_commands_witness : exists t p r,
  In (Publish t p r) (on_publish sample_env (fun _ => true) (lit "bairelay") porch_preset (lit "gate"))
  /\ on_publish sample_env (fun _ => true) (lit "bairelay") t p = [].
Proof.
  exists (status_ptz_preset (lit "bairelay") (lit "porch")), (lit "gate"), true.
  assert (In (Publish (status_ptz_preset (lit "bairelay") (lit "porch")) (lit "gate") true)
            (on_publish sample_env (fun _ => true) (lit "bairelay") porch_preset (lit "gate"))) as H
    by (vm_compute; tauto).
  split; [exact H|].
  exact (publications_no_commands sample_env (fun _ => true) (lit "bairelay") porch_preset (lit "gate") _ _ _ _
           sample_env (fun _ => true) H (or_introl eq_refl)).
Defined.


Lemma republish_restores_witness :
  let '(broker, cache) :=
    reports (lit "b") (lit "c") [(Motion true, true); (Motion false, false)] (∅, StatusCache_default) in
  fst (republish_cached_status (lit "b") (lit "c") (fun _ => true) (∅, cache)) !! status_motion (lit "b") (lit "c")
    = broker !! status_motion (lit "b") (lit "c").
Proof.
  pose proof (republish_restores (lit "b") (lit "c") [(Motion true, true); (Motion false, false)] (Motion true)
                eq_refl) as H.
  destruct (reports _ _ _ _) as [broker cache]. destruct (republish_cached_status _ _ _ _) as [broker' cache'].
  apply H. constructor; [discriminate|constructor; [discriminate|constructor]].
Defined.

Lemma outage_backoff_witness : exists logged,
  drop 1 (backoff_run MqttBackoff_new ((ActConnAck, 0) :: map (pair ActLogError) [1; 2; 3])) !! 2%nat
    = Some (Some (4, logged)).
Proof.
  destruct (outage_backoff MqttBackoff_new [] 0 [1; 2; 3] 2 3) as (logged & H & _).
  - repeat constructor; lia.
  - vm_compute. discriminate.
  - reflexivity.
  - exists logged. exact H.
Defined.
End sample.
