(* ===== verification/CameraRun.v ===== *)
(** * A camera's life ([src/camera.rs], grace and watchdog rules)

    [CameraHandle] is shared by the task that connects, keeps alive and tears
    down sessions ([run]), by the RTSP subscribers that want a stream source
    ([stream_source]), and by the watchdog. Every access to the shared fields
    (state, driver slot, source registry, create lock) is one step, and the
    steps interleave freely: [act]. A session's driver is its number. The pure
    parts, keepalive counting, preview aggregation, pruning and the reconnect
    backoff, are functions. *)

From S2P Require Import Prelude StreamSource.

(** ** The shared fields *)

Inductive CameraState := Disconnected | Connecting | Connected.

#[export] Instance CameraState_eq_dec : EqDecision CameraState.
Proof. solve_decision. Defined.

Inductive PreviewState := Live | PreviewConnecting | Sleeping.

#[export] Instance PreviewState_eq_dec : EqDecision PreviewState.
Proof. solve_decision. Defined.

(** [RtspStreamKind]. *)
Inductive Kind := Main | Sub | Extern.

#[export] Instance Kind_eq_dec : EqDecision Kind.
Proof. solve_decision. Defined.

#[export] Instance Kind_countable : Countable Kind.
Proof.
  apply (inj_countable' (fun k => match k with Main => 0 | Sub => 1 | Extern => 2 end)
                        (fun n => match n with 0 => Main | 1 => Sub | _ => Extern end)).
  by intros [].
Defined.

(** A started source: its kind, and the session whose driver it reads. *)
Record SourceRef := MkSourceRef { src_id : nat; src_kind : Kind; src_session : nat }.

#[export] Instance SourceRef_eq_dec : EqDecision SourceRef.
Proof. solve_decision. Defined.

(** Where [run] stands. *)
Inductive phase :=
| LoopTop
| Parked
| ConnectAttempt
| JustConnected (session : nat)
| InSession (session : nat)
| Draining
| Stopping (sources : list SourceRef)
| EndingSession
| SlotCleared
| Backoff
| Exiting
| FinalStop
| FinalStopping (sources : list SourceRef)
| Done.

(** Where a caller of [stream_source] stands; after [AwaitLock] it holds the
    create lock until it returns. *)
Inductive pc :=
| Poll
| FastPath
| AwaitLock
| Recheck
| CheckState
| ReadSlot
| Start (session : nat)
| Insert (s : SourceRef)
| Got (s : SourceRef)
| Unavailable.

(** [running]: the sources started and not stopped, for the statements.
    [last_write] is the preview aggregator's bookkeeping, [disconnect_permit]
    the one permit [disconnect_signal.notify_one()] stores. *)
Record Handle := MkHandle {
  cam_phase : phase;
  state : CameraState;
  preview : PreviewState;
  slot : option nat;
  stream_sources : gmap Kind SourceRef;
  create_lock : option nat;
  callers : list (Kind * pc);
  sessions : nat;
  started : nat;
  running : list SourceRef;
  last_write : option PreviewState;
  disconnect_permit : bool
}.

Definition Handle_new : Handle := MkHandle LoopTop Disconnected Sleeping None ∅ None [] 0 0 [] None false.

Definition set_phase (h : Handle) (x : phase) : Handle :=
  MkHandle x (state h) (preview h) (slot h) (stream_sources h) (create_lock h)
    (callers h) (sessions h) (started h) (running h) (last_write h) (disconnect_permit h).
Definition set_state (h : Handle) (x : CameraState) : Handle :=
  MkHandle (cam_phase h) x (preview h) (slot h) (stream_sources h) (create_lock h)
    (callers h) (sessions h) (started h) (running h) (last_write h) (disconnect_permit h).
Definition set_preview_state (h : Handle) (x : PreviewState) : Handle :=
  MkHandle (cam_phase h) (state h) x (slot h) (stream_sources h) (create_lock h)
    (callers h) (sessions h) (started h) (running h) (last_write h) (disconnect_permit h).
Definition set_slot (h : Handle) (x : option nat) : Handle :=
  MkHandle (cam_phase h) (state h) (preview h) x (stream_sources h) (create_lock h)
    (callers h) (sessions h) (started h) (running h) (last_write h) (disconnect_permit h).
Definition set_sources (h : Handle) (x : gmap Kind SourceRef) : Handle :=
  MkHandle (cam_phase h) (state h) (preview h) (slot h) x (create_lock h)
    (callers h) (sessions h) (started h) (running h) (last_write h) (disconnect_permit h).
Definition set_lock (h : Handle) (x : option nat) : Handle :=
  MkHandle (cam_phase h) (state h) (preview h) (slot h) (stream_sources h) x
    (callers h) (sessions h) (started h) (running h) (last_write h) (disconnect_permit h).
Definition set_callers (h : Handle) (x : list (Kind * pc)) : Handle :=
  MkHandle (cam_phase h) (state h) (preview h) (slot h) (stream_sources h) (create_lock h)
    x (sessions h) (started h) (running h) (last_write h) (disconnect_permit h).
Definition set_last_write (h : Handle) (x : option PreviewState) : Handle :=
  MkHandle (cam_phase h) (state h) (preview h) (slot h) (stream_sources h) (create_lock h)
    (callers h) (sessions h) (started h) (running h) x (disconnect_permit h).
Definition set_permit (h : Handle) (x : bool) : Handle :=
  MkHandle (cam_phase h) (state h) (preview h) (slot h) (stream_sources h) (create_lock h)
    (callers h) (sessions h) (started h) (running h) (last_write h) x.
Definition next_session (h : Handle) : Handle :=
  MkHandle (cam_phase h) (state h) (preview h) (slot h) (stream_sources h) (create_lock h)
    (callers h) (S (sessions h)) (started h) (running h) (last_write h) (disconnect_permit h).
Definition set_running (h : Handle) (n : nat) (x : list SourceRef) : Handle :=
  MkHandle (cam_phase h) (state h) (preview h) (slot h) (stream_sources h) (create_lock h)
    (callers h) (sessions h) n x (last_write h) (disconnect_permit h).

(** [source.stop()]: its reader is cancelled. *)
Definition stop (h : Handle) (s : SourceRef) : Handle :=
  set_running h (started h) (List.filter (fun r => negb (bool_decide (r = s))) (running h)).

(** ** [run] and [run_connected_session] *)

Definition post_keepalive_preview_state (idle_disconnect wake_lock_idle : bool) : PreviewState :=
  if idle_disconnect && wake_lock_idle then Sleeping else PreviewConnecting.

(** How a connect attempt ends. *)
Inductive attempt := ConnectOk | ConnectFailed | AuthFailed | ConnectCancelled.

(** What the task finds when it looks: cancelled, the wake lock idle, the
    outcome of the attempt, a disconnect request. A session that ends finds the
    wake lock idle or held ([post_keepalive_preview_state]). *)
Inductive finding :=
  IsCancelled | WakeLockIdle | WakeLockHeld | Attempt (a : attempt) | DisconnectNotified (idle : bool) | Proceed.

(** [stop_all_stream_sources]: the registry is drained at once, the sources
    are then stopped one by one. *)
Definition stop_all_stream_sources (h : Handle) (then_stopping : list SourceRef -> phase) : Handle :=
  set_phase (set_sources h ∅) (then_stopping (map snd (map_to_list (stream_sources h)))).

(** [run_connected_session], once the state is set. *)
Definition session_step (idle_disconnect : bool) (f : finding) (h : Handle) : option Handle :=
  match cam_phase h, f with
  | JustConnected d, Proceed => Some (set_phase (set_last_write (set_slot h (Some d)) None) (InSession d))
  | InSession _, WakeLockIdle =>
      Some (set_phase (set_preview_state h (post_keepalive_preview_state idle_disconnect true)) Draining)
  | InSession _, WakeLockHeld =>
      Some (set_phase (set_preview_state h (post_keepalive_preview_state idle_disconnect false)) Draining)
  | InSession _, DisconnectNotified idle =>
      if disconnect_permit h then
        Some (set_phase (set_preview_state (set_permit h false) (post_keepalive_preview_state idle_disconnect idle))
                Draining)
      else None
  | _, _ => None
  end.

(** [teardown_session_tasks] *)
Definition teardown_step (f : finding) (h : Handle) : option Handle :=
  match cam_phase h, f with
  | Draining, Proceed => Some (stop_all_stream_sources h Stopping)
  | Stopping (s :: l), Proceed => Some (set_phase (stop h s) (Stopping l))
  | Stopping [], Proceed => Some (set_phase h EndingSession)
  | EndingSession, Proceed => Some (set_phase (set_slot h None) SlotCleared)
  | SlotCleared, Proceed => Some (set_phase (set_state h Disconnected) Backoff)
  | _, _ => None
  end.

Definition connecting (h : Handle) : Handle :=
  set_phase (set_preview_state (set_state h Connecting) PreviewConnecting) ConnectAttempt.

Definition run_step (idle_disconnect : bool) (f : finding) (h : Handle) : option Handle :=
  match cam_phase h, f with
  | LoopTop, IsCancelled => Some (set_phase h Exiting)
  | LoopTop, WakeLockIdle =>
      if idle_disconnect then Some (set_phase (set_preview_state h Sleeping) Parked) else Some (connecting h)
  | LoopTop, WakeLockHeld => Some (connecting h)
  | Parked, IsCancelled => Some (set_phase h Exiting)
  | Parked, WakeLockHeld => Some (connecting h)
  | ConnectAttempt, Attempt ConnectOk =>
      let h := next_session h in
      Some (set_phase (set_preview_state (set_state h Connected) Live) (JustConnected (sessions h)))
  | ConnectAttempt, Attempt ConnectFailed => Some (set_phase (set_state h Disconnected) Backoff)
  | ConnectAttempt, Attempt AuthFailed => Some (set_phase (set_state h Disconnected) Exiting)
  | ConnectAttempt, Attempt ConnectCancelled => Some (set_phase h Exiting)
  | (JustConnected _ | InSession _), f => session_step idle_disconnect f h
  | (Draining | Stopping _ | EndingSession | SlotCleared), f => teardown_step f h
  | Backoff, Proceed => Some (set_phase h LoopTop)
  | Backoff, IsCancelled => Some (set_phase h Exiting)
  | Exiting, Proceed => Some (set_phase (set_state h Disconnected) FinalStop)
  | FinalStop, Proceed => Some (stop_all_stream_sources h FinalStopping)
  | FinalStopping (s :: l), Proceed => Some (set_phase (stop h s) (FinalStopping l))
  | FinalStopping [], Proceed => Some (set_phase h Done)
  | _, _ => None
  end.

(** ** The preview aggregator *)

Definition aggregate_preview_state (current : PreviewState) (any_bridging : bool) (last_own_write : option PreviewState)
  : PreviewState :=
  match current, any_bridging, last_own_write with
  | Sleeping, _, _ => Sleeping
  | Live, true, _ => PreviewConnecting
  | Live, false, _ => Live
  | PreviewConnecting, false, Some PreviewConnecting => Live
  | PreviewConnecting, _, _ => PreviewConnecting
  end.

(** One tick of [aggregate_preview_state_loop]. *)
Definition aggregate_tick (any_bridging : bool) (h : Handle) : Handle :=
  let next := aggregate_preview_state (preview h) any_bridging (last_write h) in
  if decide (next = preview h) then
    if decide (preview h = Sleeping \/ (preview h = PreviewConnecting /\ last_write h <> Some PreviewConnecting))
    then set_last_write h None
    else h
  else set_last_write (set_preview_state h next) (Some next).

(** The session's tasks, of which the aggregator is one, live from
    [spawn_session_tasks] until the teardown has joined them. *)
Definition tasks_alive (p : phase) : bool := match p with InSession _ | Draining => true | _ => false end.

(** ** The watchdog *)

(** Times in microseconds. *)
Definition should_disconnect (idle_disconnect connected : bool) (idle_for : option Z) (grace : Z) : bool :=
  idle_disconnect && connected && match idle_for with Some idle => grace <=? idle | None => false end.

(** [request_disconnect] *)
Definition request_disconnect (h : Handle) : Handle := set_permit h true.

(** ** [stream_source] *)

(** The caller returns, giving the lock back if it holds it. *)
Definition returns (h : Handle) (i : nat) (k : Kind) (p : pc) : Handle :=
  set_lock (set_callers h (<[i := (k, p)]> (callers h))) None.

Definition moves (h : Handle) (i : nat) (k : Kind) (p : pc) : Handle := set_callers h (<[i := (k, p)]> (callers h)).

(** One step of caller [i]. [gives_up]: it finds the program cancelled, or its
    30 s over. *)
Definition caller_step (i : nat) (gives_up : bool) (h : Handle) : option Handle :=
  '(k, p) ← callers h !! i;
  match p with
  | Poll =>
      if gives_up then Some (moves h i k Unavailable)
      else if decide (state h = Connected) then Some (moves h i k FastPath) else Some h
  | FastPath =>
      match stream_sources h !! k with
      | Some s => Some (moves h i k (Got s))
      | None => Some (moves h i k AwaitLock)
      end
  | AwaitLock =>
      match create_lock h with
      | None => Some (set_lock (moves h i k Recheck) (Some i))
      | Some _ => None
      end
  | Recheck =>
      match stream_sources h !! k with
      | Some s => Some (returns h i k (Got s))
      | None => Some (moves h i k CheckState)
      end
  | CheckState =>
      if gives_up || negb (bool_decide (state h = Connected)) then Some (returns h i k Unavailable)
      else Some (moves h i k ReadSlot)
  | ReadSlot =>
      match slot h with
      | None => Some (returns h i k Unavailable)
      | Some d => Some (moves h i k (Start d))
      end
  | Start d =>
      let s := MkSourceRef (started h) k d in
      Some (set_running (moves h i k (Insert s)) (S (started h)) (s :: running h))
  | Insert s => Some (returns (set_sources h (<[k := s]> (stream_sources h))) i k (Got s))
  | Got _ | Unavailable => None
  end.

(** ** All together *)

Inductive action :=
| Run (f : finding)
| Arrive (k : Kind)
| Caller (i : nat) (gives_up : bool)
| Aggregate (any_bridging : bool)
| Prune (k : Kind)
| Sweep (idle_for : option Z) (grace : Z).

(** [Prune]: the watchdog's sweep finds the source of the kind idle past the
    grace. [Sweep]: it looks whether the session is to end. *)
Definition act (idle_disconnect : bool) (a : action) (h : Handle) : option Handle :=
  match a with
  | Run f => run_step idle_disconnect f h
  | Arrive k => Some (set_callers h (callers h ++ [(k, Poll)]))
  | Caller i gives_up => caller_step i gives_up h
  | Aggregate b => if tasks_alive (cam_phase h) then Some (aggregate_tick b h) else None
  | Sweep idle_for grace =>
      if should_disconnect idle_disconnect (bool_decide (state h = Connected)) idle_for grace
      then Some (request_disconnect h) else Some h
  | Prune k =>
      s ← stream_sources h !! k;
      Some (stop (set_sources h (delete k (stream_sources h))) s)
  end.

Fixpoint act_all (idle_disconnect : bool) (acts : list action) (h : Handle) : option Handle :=
  match acts with
  | [] => Some h
  | a :: acts => h ← act idle_disconnect a h; act_all idle_disconnect acts h
  end.

(** ** Keepalive, pruning, backoff *)

Inductive KeepaliveTickOutcome := TickOk | TickFailed.

#[export] Instance KeepaliveTickOutcome_eq_dec : EqDecision KeepaliveTickOutcome.
Proof. solve_decision. Defined.

Definition classify_keepalive_tick {T E} (outcome : option (result T E)) : KeepaliveTickOutcome :=
  match outcome with Some (Ok _) => TickOk | Some (Err _) => TickFailed | None => TickFailed end.

Definition advance_keepalive_counter (consecutive_failures : Z) (outcome : KeepaliveTickOutcome) (max_failures : Z)
  : Z * bool :=
  match outcome with
  | TickOk => (0, false)
  | TickFailed =>
      let next := Z.min (consecutive_failures + 1) (2 ^ 32 - 1) in
      (next, max_failures <=? next)
  end.

Definition KEEPALIVE_MAX_FAILURES : Z := 5.

(** What ends the wait for a tick: a signal (shutdown, session cancel,
    watchdog) or a probe's outcome, [None] for the timeout. *)
Inductive wakening {E} := Signal | Probed (outcome : option (result unit E)).
Arguments wakening : clear implicits.

(** [None]: the loop still runs; otherwise what it has not looked at. *)
Fixpoint keepalive_loop {E} (consecutive_failures : Z) (ticks : list (wakening E)) : option (list (wakening E)) :=
  match ticks with
  | [] => None
  | Signal :: ticks => Some ticks
  | Probed raw :: ticks =>
      let '(next, should_break) :=
        advance_keepalive_counter consecutive_failures (classify_keepalive_tick raw) KEEPALIVE_MAX_FAILURES in
      if should_break then Some ticks else keepalive_loop next ticks
  end.

(** One source in one sweep of [prune_idle_stream_sources_at]: the marker
    after it, or [None] when it is stopped and dropped. *)
Definition prune_idle (now grace : Z) (subs : nat) (marker : option Z) : option (option Z) :=
  if (0 <? subs)%nat then Some None
  else match marker with
  | None => if grace =? 0 then None else Some (Some now)
  | Some since => if grace <=? Z.max 0 (now - since) then None else Some (Some since)
  end.

(** The sweeps one after the other, each with the subscribers it counts. *)
Fixpoint sweeps (grace : Z) (marker : option Z) (seen : list (Z * nat)) : option (option Z) :=
  match seen with
  | [] => Some marker
  | (now, subs) :: seen => marker ← prune_idle now grace subs marker; sweeps grace marker seen
  end.

Record ReconnectBackoff := MkBackoff { initial_delay : Z; max_delay : Z; current_delay : Z }.

Definition ReconnectBackoff_new (i m : Z) : ReconnectBackoff := MkBackoff i m i.
Definition next_delay (b : ReconnectBackoff) : Z * ReconnectBackoff :=
  (current_delay b, MkBackoff (initial_delay b) (max_delay b) (Z.min (current_delay b * 2) (max_delay b))).
Definition reset (b : ReconnectBackoff) : ReconnectBackoff :=
  MkBackoff (initial_delay b) (max_delay b) (initial_delay b).

Fixpoint delays (n : nat) (b : ReconnectBackoff) : list Z :=
  match n with O => [] | S n => let '(d, b) := next_delay b in d :: delays n b end.

(** ** Invariants *)

Definition holds (p : pc) : bool :=
  match p with Recheck | CheckState | ReadSlot | Start _ | Insert _ => true | _ => false end.

(** Past the second look at the registry. *)
Definition creating (p : pc) : bool :=
  match p with CheckState | ReadSlot | Start _ | Insert _ => true | _ => false end.

(** The sources a teardown has taken out of the registry and not stopped. *)
Definition stopping (p : phase) : list SourceRef :=
  match p with Stopping l | FinalStopping l => l | _ => [] end.

Record inv (h : Handle) : Prop := MkInv {
  inv_lock i k p : callers h !! i = Some (k, p) -> holds p = true -> create_lock h = Some i;
  inv_creating i k p : callers h !! i = Some (k, p) -> creating p = true -> stream_sources h !! k = None;
  inv_kind k s : stream_sources h !! k = Some s -> src_kind s = k;
  inv_insert i k s : callers h !! i = Some (k, Insert s) -> src_kind s = k;
  inv_running s : In s (running h) ->
    stream_sources h !! src_kind s = Some s \/ (exists i, callers h !! i = Some (src_kind s, Insert s))
    \/ In s (stopping (cam_phase h))
}.

(** Steps of [run] other than the two drains leave sources and callers. *)
Lemma inv_same h h' :
  inv h -> stream_sources h' = stream_sources h -> create_lock h' = create_lock h -> callers h' = callers h ->
  running h' = running h -> stopping (cam_phase h') = stopping (cam_phase h) -> inv h'.
Proof.
  intros [H1 H2 H3 H4 H5] Es El Ec Er Ep. constructor; rewrite ?Es, ?El, ?Ec, ?Er, ?Ep; eauto.
Qed.

Lemma inv_drain h (mk : list SourceRef -> phase) :
  inv h -> stopping (cam_phase h) = [] -> (forall l, stopping (mk l) = l) ->
  inv (set_phase (set_sources h ∅) (mk (map snd (map_to_list (stream_sources h))))).
Proof.
  intros [H1 H2 H3 H4 H5] Ep Hmk. constructor; cbn; eauto.
  - intros k s. by rewrite lookup_empty.
  - intros s Hs. rewrite Hmk. destruct (H5 s Hs) as [Hr|[Hi|Hl]]; [|eauto|by rewrite Ep in Hl].
    right. right. apply in_map_iff. exists (src_kind s, s). split; [done|].
    by apply list_elem_of_In, elem_of_map_to_list.
Qed.

Lemma in_stop h s r : In r (running (stop h s)) <-> In r (running h) /\ r <> s.
Proof.
  unfold stop. cbn [running set_running]. rewrite filter_In, negb_true_iff, bool_decide_eq_false. done.
Qed.

Lemma inv_stop h s l (p : phase) :
  inv h -> stopping (cam_phase h) = s :: l -> stopping p = l -> inv (set_phase (stop h s) p).
Proof.
  intros [H1 H2 H3 H4 H5] Ep Hp.
  constructor; cbn [set_phase callers create_lock stream_sources cam_phase stop set_running]; eauto.
  intros r Hr. apply (in_stop h s r) in Hr as [Hr Hne]. destruct (H5 r Hr) as [?|[?|Hl]]; eauto.
  rewrite Ep in Hl. destruct Hl as [<-|Hl]; [done|]. rewrite Hp. auto.
Qed.

Lemma inv_run idle f h h' : inv h -> run_step idle f h = Some h' -> inv h'.
Proof.
  intros Hi E. unfold run_step, session_step, teardown_step, connecting in E.
  destruct (cam_phase h) as [| | | | | |[|s l]| | | | | |[|s l]|] eqn:Ep, f; try done.
  all: repeat match goal with H : context [if ?b then _ else _] |- _ => destruct b end; try (destruct a); try done.
  all: injection E as <-; try (eapply inv_same; [exact Hi|..]; cbn; rewrite ?Ep; reflexivity).
  - apply (inv_drain h Stopping); [done|by rewrite Ep|done].
  - apply (inv_stop h s l); [done|by rewrite Ep|done].
  - apply (inv_drain h FinalStopping); [done|by rewrite Ep|done].
  - apply (inv_stop h s l); [done|by rewrite Ep|done].
Qed.

Lemma lookup_moved (l : list (Kind * pc)) i j x y :
  <[i := x]> l !! j = Some y -> (j = i /\ y = x) \/ (j <> i /\ l !! j = Some y).
Proof. intros H. apply list_lookup_insert_Some in H as [(<- & <- & _)|[? ?]]; auto. Qed.

(** A step that changes nothing but where a caller stands. *)
Lemma inv_moves h i k p p' :
  inv h -> callers h !! i = Some (k, p) -> (forall s, p <> Insert s) -> (forall s, p' <> Insert s) ->
  (holds p' = true -> create_lock h = Some i) -> (creating p' = true -> stream_sources h !! k = None) ->
  inv (moves h i k p').
Proof.
  intros [H1 H2 H3 H4 H5] Ei Hp Hp' Hl Hc.
  constructor; cbn [moves set_callers callers create_lock stream_sources running cam_phase]; eauto.
  - intros j k' q Hj. apply lookup_moved in Hj as [[-> [= -> ->]]|[_ Hj]]; eauto.
  - intros j k' q Hj. apply lookup_moved in Hj as [[-> [= -> ->]]|[_ Hj]]; eauto.
  - intros j k' s Hj. apply lookup_moved in Hj as [[_ [= _ E]]|[_ Hj]]; [by destruct (Hp' s)|eauto].
  - intros s Hs. destruct (H5 s Hs) as [?|[[j Hj]|?]]; eauto. right. left. exists j.
    rewrite list_lookup_insert_ne; [done|]. intros ->. rewrite Ei in Hj. injection Hj as _ Hj. by destruct (Hp s).
Qed.

(** The lock holder returns without a source of its own. *)
Lemma inv_returns h i k p p' :
  inv h -> callers h !! i = Some (k, p) -> holds p = true -> (forall s, p <> Insert s) ->
  holds p' = false -> inv (returns h i k p').
Proof.
  intros [H1 H2 H3 H4 H5] Ei Hp Hn Hp'.
  assert (forall s, p' <> Insert s) as Hn' by (by intros s ->).
  constructor; cbn [returns set_lock set_callers callers create_lock stream_sources running cam_phase]; eauto.
  - intros j k' q Hj Hq. apply lookup_moved in Hj as [[-> [= -> ->]]|[Hne Hj]]; [congruence|].
    pose proof (H1 _ _ _ Hj Hq). pose proof (H1 _ _ _ Ei Hp). congruence.
  - intros j k' q Hj Hq. apply lookup_moved in Hj as [[-> [= -> ->]]|[_ Hj]]; [by destruct p'|eauto].
  - intros j k' s Hj. apply lookup_moved in Hj as [[_ [= _ E]]|[_ Hj]]; [by destruct (Hn' s)|eauto].
  - intros s Hs. destruct (H5 s Hs) as [?|[[j Hj]|?]]; eauto. right. left. exists j.
    rewrite list_lookup_insert_ne; [done|]. intros ->. rewrite Ei in Hj. injection Hj as _ Hj. by destruct (Hn s).
Qed.

Lemma inv_start h i k d :
  inv h -> callers h !! i = Some (k, Start d) ->
  let s := MkSourceRef (started h) k d in inv (set_running (moves h i k (Insert s)) (S (started h)) (s :: running h)).
Proof.
  intros [H1 H2 H3 H4 H5] Ei s. pose proof (lookup_lt_Some _ _ _ Ei) as Hlt.
  constructor; cbn [moves set_callers set_running callers create_lock stream_sources running cam_phase]; eauto.
  - intros j k' q Hj Hq. apply lookup_moved in Hj as [[-> [= -> ->]]|[_ Hj]]; eauto.
  - intros j k' q Hj Hq. apply lookup_moved in Hj as [[-> [= -> ->]]|[_ Hj]]; eauto.
  - intros j k' s' Hj. apply lookup_moved in Hj as [[_ [= -> ->]]|[_ Hj]]; eauto.
  - intros r [<-|Hr].
    + right. left. exists i. by rewrite list_lookup_insert_eq.
    + destruct (H5 r Hr) as [?|[[j Hj]|?]]; eauto. right. left. exists j.
      rewrite list_lookup_insert_ne; [done|]. intros ->. by rewrite Ei in Hj.
Qed.

Lemma inv_registered h i k s :
  inv h -> callers h !! i = Some (k, Insert s) ->
  inv (returns (set_sources h (<[k := s]> (stream_sources h))) i k (Got s)).
Proof.
  intros [H1 H2 H3 H4 H5] Ei. pose proof (H2 _ _ _ Ei eq_refl) as Hk. pose proof (H4 _ _ _ Ei) as Hs.
  constructor; cbn [returns set_lock set_callers set_sources callers create_lock stream_sources running cam_phase].
  - intros j k' q Hj Hq. apply lookup_moved in Hj as [[-> [= -> ->]]|[Hne Hj]]; [done|].
    pose proof (H1 _ _ _ Hj Hq). pose proof (H1 _ _ _ Ei eq_refl). congruence.
  - intros j k' q Hj Hq. apply lookup_moved in Hj as [[-> [= -> ->]]|[Hne Hj]]; [done|].
    assert (holds q = true) as Hh by (by destruct q).
    pose proof (H1 _ _ _ Hj Hh). pose proof (H1 _ _ _ Ei eq_refl). congruence.
  - intros k' s' Hk'. apply lookup_insert_Some in Hk' as [[<- <-]|[_ Hk']]; eauto.
  - intros j k' s' Hj. apply lookup_moved in Hj as [[_ [= _]]|[_ Hj]]; eauto.
  - intros r Hr. destruct (decide (src_kind r = k)) as [Er|Er].
    + destruct (H5 r Hr) as [E|[[j Hj]|?]]; [congruence| |by auto].
      pose proof (H1 _ _ _ Hj eq_refl). pose proof (H1 _ _ _ Ei eq_refl). assert (j = i) as -> by congruence.
      rewrite Ei in Hj. injection Hj as Hk1 Hj. subst r. left. rewrite <- Hk1. apply lookup_insert_eq.
    + rewrite lookup_insert_ne by done. destruct (H5 r Hr) as [E|[[j Hj]|?]]; auto. right. left. exists j.
      rewrite list_lookup_insert_ne; [done|]. intros <-. congruence.
Qed.

Lemma inv_take_lock h i k :
  inv h -> callers h !! i = Some (k, AwaitLock) -> create_lock h = None ->
  inv (set_lock (moves h i k Recheck) (Some i)).
Proof.
  intros [H1 H2 H3 H4 H5] Ei El.
  constructor; cbn [moves set_lock set_callers callers create_lock stream_sources running cam_phase]; eauto.
  - intros j k' q Hj Hq. apply lookup_moved in Hj as [[-> _]|[_ Hj]]; [done|].
    pose proof (H1 _ _ _ Hj Hq). congruence.
  - intros j k' q Hj Hq. apply lookup_moved in Hj as [[-> [= -> ->]]|[_ Hj]]; [done|eauto].
  - intros j k' s Hj. apply lookup_moved in Hj as [[_ [= _]]|[_ Hj]]; eauto.
  - intros s Hs. destruct (H5 s Hs) as [?|[[j Hj]|?]]; eauto. right. left. exists j.
    rewrite list_lookup_insert_ne; [done|]. intros ->. by rewrite Ei in Hj.
Qed.

Lemma inv_caller i gives_up h h' : inv h -> caller_step i gives_up h = Some h' -> inv h'.
Proof.
  intros Hi E. unfold caller_step in E.
  destruct (callers h !! i) as [[k p]|] eqn:Ei; [|done]. cbn [mbind option_bind] in E.
  pose proof (inv_lock _ Hi i k p Ei) as Hl. pose proof (inv_creating _ Hi i k p Ei) as Hc.
  destruct p as [| | | | | |d|s|s|]; try done.
  - destruct gives_up; [|destruct (decide _)]; injection E as <-; [| |done]; eapply inv_moves; eauto; done.
  - destruct (stream_sources h !! k); injection E as <-; eapply inv_moves; eauto; done.
  - destruct (create_lock h) eqn:El; [done|]. injection E as <-. by apply inv_take_lock.
  - destruct (stream_sources h !! k) eqn:Es; injection E as <-; [eapply inv_returns|eapply inv_moves]; eauto; done.
  - destruct (_ || _); injection E as <-; [eapply inv_returns|eapply inv_moves]; eauto; done.
  - destruct (slot h); injection E as <-; [eapply inv_moves|eapply inv_returns]; eauto; done.
  - injection E as <-. by apply inv_start.
  - injection E as <-. by apply inv_registered.
Qed.

Lemma inv_act idle a h h' : inv h -> act idle a h = Some h' -> inv h'.
Proof.
  destruct a as [f|k|i g|b|k|d g]; cbn [act]; [apply inv_run| |apply inv_caller| | |].
  - intros [H1 H2 H3 H4 H5] [= <-].
    assert (forall i x, (callers h ++ [(k, Poll)]) !! i = Some x -> callers h !! i = Some x \/ x = (k, Poll)) as Ha.
    { intros i x Hx. apply lookup_app_Some in Hx as [?|[_ Hx]]; [auto|].
      apply list_lookup_singleton_Some in Hx as [_ <-]. auto. }
    constructor; cbn [set_callers callers create_lock stream_sources running cam_phase]; eauto.
    + intros i k' p Hp. apply Ha in Hp as [Hp|[= -> ->]]; [eauto|done].
    + intros i k' p Hp. apply Ha in Hp as [Hp|[= -> ->]]; [eauto|done].
    + intros i k' s Hp. apply Ha in Hp as [Hp|[= _]]; eauto.
    + intros s Hs. destruct (H5 s Hs) as [?|[[j Hj]|?]]; eauto. right. left. exists j. by apply lookup_app_l_Some.
  - intros Hi E. destruct (tasks_alive _); [|done]. injection E as <-. unfold aggregate_tick.
    destruct (decide _); [destruct (decide _)|]; [| done|]; (eapply inv_same; [exact Hi|..]; reflexivity).
  - intros [H1 H2 H3 H4 H5] E. destruct (stream_sources h !! k) as [s|] eqn:Es; [|done]. injection E as <-.
    constructor; cbn [stop set_running set_sources callers create_lock stream_sources cam_phase]; eauto.
    + intros i k' p Hp Hc. rewrite lookup_delete_None. eauto.
    + intros k' s' Hk'. apply lookup_delete_Some in Hk' as [_ Hk']. eauto.
    + intros r Hr. apply (in_stop (set_sources h (delete k (stream_sources h))) s r) in Hr as [Hr Hne].
      cbn [running set_sources] in Hr. destruct (H5 r Hr) as [E|[?|?]]; auto. left. rewrite lookup_delete_ne; [done|].
      intros ->. congruence.
  - intros Hi E. destruct (should_disconnect _ _ _ _); injection E as <-; [|done].
    eapply inv_same; [exact Hi|..]; reflexivity.
Qed.

Lemma inv_new : inv Handle_new.
Proof. constructor; cbn; done. Qed.

Lemma handle_inv idle acts h h' : inv h -> act_all idle acts h = Some h' -> inv h'.
Proof.
  revert h. induction acts as [|a acts IH]; intros h Hi E; cbn [act_all] in E; [by injection E as <-|].
  destruct (act idle a h) as [h1|] eqn:Ea; [|done]. cbn [mbind option_bind] in E. eapply IH; [|exact E].
  by eapply inv_act.
Qed.

(** ** The fields in each phase *)

(** Only shutdown can leave a state behind, and [run] then clears it. *)
Definition phase_state (p : phase) : option CameraState :=
  match p with
  | ConnectAttempt => Some Connecting
  | JustConnected _ | InSession _ | Draining | Stopping _ | EndingSession | SlotCleared => Some Connected
  | Exiting => None
  | _ => Some Disconnected
  end.

Definition phase_slot (p : phase) (session : nat) : option nat :=
  match p with InSession _ | Draining | Stopping _ | EndingSession => Some session | _ => None end.

(** In a session the preview is live, or the aggregator has lowered it. *)
Definition preview_owned (h : Handle) : Prop :=
  preview h = Live \/ (preview h = PreviewConnecting /\ last_write h = Some PreviewConnecting).

Record fields_ok (h : Handle) : Prop := MkFields {
  fo_state x : phase_state (cam_phase h) = Some x -> state h = x;
  fo_exiting : cam_phase h = Exiting -> state h <> Connected;
  fo_slot : slot h = phase_slot (cam_phase h) (sessions h);
  fo_just d : cam_phase h = JustConnected d -> d = sessions h /\ preview h = Live;
  fo_session d : cam_phase h = InSession d -> d = sessions h /\ preview_owned h;
  fo_parked : cam_phase h = Parked -> preview h = Sleeping
}.

Lemma run_fields idle f h h' : fields_ok h -> run_step idle f h = Some h' -> fields_ok h'.
Proof.
  intros [F1 F2 F3 F4 F5 F6] E.
  unfold run_step, session_step, teardown_step, connecting, stop_all_stream_sources in E.
  destruct (cam_phase h) as [| | |n|n| |[|s l]| | | | | |[|s l]|] eqn:Ep, f; try done.
  all: repeat match goal with H : context [if ?b then _ else _] |- _ => destruct b end; try (destruct a); try done.
  all: injection E as <-; specialize (F1 _ eq_refl) || clear F1.
  all: constructor; cbn; try rewrite Ep; cbn; try done; try (intros ? [= <-]); try done; try congruence.
  all: try (destruct (F4 _ eq_refl) as [-> Hv]; cbn; auto).
  all: try (split; [done|left; exact Hv]).
Qed.

Lemma fields_same h h' :
  fields_ok h -> cam_phase h' = cam_phase h -> state h' = state h -> slot h' = slot h -> sessions h' = sessions h ->
  preview h' = preview h -> last_write h' = last_write h -> fields_ok h'.
Proof.
  intros [F1 F2 F3 F4 F5 F6] Ep Es El En Ev Ew.
  constructor; unfold preview_owned in *; rewrite ?Ep, ?Es, ?El, ?En, ?Ev, ?Ew; auto.
Qed.

Lemma aggregate_tick_frame b h :
  let h' := aggregate_tick b h in
  cam_phase h' = cam_phase h /\ state h' = state h /\ slot h' = slot h /\ sessions h' = sessions h.
Proof. cbv zeta. unfold aggregate_tick. repeat (destruct (decide _)); done. Qed.

(** In a session a tick leaves the preview as the bridging says. *)
Lemma aggregate_follows b h :
  preview_owned h ->
  preview (aggregate_tick b h) = (if b then PreviewConnecting else Live) /\ preview_owned (aggregate_tick b h).
Proof.
  unfold preview_owned, aggregate_tick. intros [Ev|[Ev El]]; rewrite Ev; [|rewrite El]; destruct b; cbn; auto.
Qed.

Lemma caller_fields i gives_up h h' : fields_ok h -> caller_step i gives_up h = Some h' -> fields_ok h'.
Proof.
  intros Hf E. apply (fields_same h); [done|..]; unfold caller_step in E;
    (destruct (callers h !! i) as [[k p]|]; [|done]); cbn [mbind option_bind] in E;
    destruct p; try done;
    repeat match goal with
    | H : context [match ?x with _ => _ end] |- _ => destruct x eqn:?; try done
    end; injection E as <-; cbn; congruence.
Qed.

Lemma act_fields idle a h h' : fields_ok h -> act idle a h = Some h' -> fields_ok h'.
Proof.
  destruct a as [f|k|i g|b|k|d g]; cbn [act].
  - apply run_fields.
  - intros Hf [= <-]. by apply (fields_same h).
  - apply caller_fields.
  - intros [F1 F2 F3 F4 F5 F6] E. destruct (tasks_alive _) eqn:Ea; [|done]. injection E as <-.
    destruct (aggregate_tick_frame b h) as (Ep & Es & El & En).
    constructor; rewrite ?Ep, ?Es, ?El, ?En; auto.
    + intros d Hd. by rewrite Hd in Ea.
    + intros d Hd. destruct (F5 d Hd) as [-> Hv]. split; [done|]. by apply aggregate_follows.
    + intros Hd. by rewrite Hd in Ea.
  - intros Hf E. destruct (stream_sources h !! k); [|done]. injection E as <-. by apply (fields_same h).
  - intros Hf E. destruct (should_disconnect _ _ _ _); injection E as <-; [|done]. by apply (fields_same h).
Qed.

Lemma fields_new : fields_ok Handle_new.
Proof. constructor; cbn; try done. by intros x [= <-]. Qed.

Lemma handle_fields idle acts h h' : fields_ok h -> act_all idle acts h = Some h' -> fields_ok h'.
Proof.
  revert h. induction acts as [|a acts IH]; intros h Hi E; cbn [act_all] in E; [by injection E as <-|].
  destruct (act idle a h) as [h1|] eqn:Ea; [|done]. cbn [mbind option_bind] in E. eapply IH; [|exact E].
  by eapply act_fields.
Qed.

(** ** What holds *)

(** C16: However the connection task, the
    subscribers and the watchdog interleave, two started and not yet stopped
    sources of the same stream kind are one and the same, except for the
    sources a teardown is just stopping: no duplicate [start_video] is ever
    issued by racing subscribers. *)
Theorem one_source_per_kind idle acts h r s :
  act_all idle acts Handle_new = Some h -> In r (running h) -> In s (running h) -> src_kind r = src_kind s ->
  ~ In r (stopping (cam_phase h)) -> ~ In s (stopping (cam_phase h)) -> r = s.
Proof.
  intros E Hr Hs Ek Nr Ns. pose proof (handle_inv _ _ _ _ inv_new E) as [H1 H2 H3 H4 H5].
  destruct (H5 r Hr) as [Er|[[i Hi]|?]]; [| |done]; (destruct (H5 s Hs) as [Es|[[j Hj]|?]]; [| |done]).
  - congruence.
  - pose proof (H2 _ _ _ Hj eq_refl). congruence.
  - pose proof (H2 _ _ _ Hi eq_refl). congruence.
  - pose proof (H1 _ _ _ Hi eq_refl). pose proof (H1 _ _ _ Hj eq_refl). assert (i = j) as -> by congruence. congruence.
Qed.

(** The camera comes up as session 1. *)
Definition come_up : list action := [Run WakeLockHeld; Run (Attempt ConnectOk); Run Proceed].

(** A subscriber alone, from arrival to its source. *)
Definition subscribe (i : nat) (k : Kind) : list action := Arrive k :: repeat (Caller i false) 8.

(** The session is lost, torn down and followed by the next. *)
Definition teardown : list action := [Run Proceed; Run Proceed; Run Proceed].
Definition reconnect : list action := Run Proceed :: come_up.

(** Where the actions lead, for concrete runs. *)
Definition outcome_of (idle_disconnect : bool) (acts : list action) : Handle :=
  default Handle_new (act_all idle_disconnect acts Handle_new).

(** Two subscribers race for the same stream. *)
Definition race : list action :=
  come_up ++ [Arrive Main; Arrive Main; Caller 0 false; Caller 1 false; Caller 0 false; Caller 1 false]
  ++ repeat (Caller 0 false) 6 ++ [Caller 1 false; Caller 1 false].

Lemma one_source_per_kind_witness :
  exists h r s, act_all false race Handle_new = Some h /\ In r (running h) /\ map snd (callers h) = [Got r; Got s]
                /\ r = s.
Proof.
  assert (act_all false race Handle_new = Some (outcome_of false race)) as E by (vm_compute; reflexivity).
  exists (outcome_of false race), (MkSourceRef 0 Main 1), (MkSourceRef 0 Main 1).
  split; [exact E|]. split; [vm_compute; auto|]. split; [vm_compute; reflexivity|].
  apply (one_source_per_kind false race _ _ _ E); [vm_compute; auto|vm_compute; auto|reflexivity|vm_compute..]; tauto.
Defined.

(** Whatever the interleaving, in every phase
    of [run] the state subscribers poll is the phase's ([phase_state]), on the
    way out it is not Connected, the driver slot is filled exactly from the
    moment the session begins until its end was announced, with that
    session's driver, a parked camera shows as sleeping, and in a session the
    preview is live or lowered by the aggregator itself. *)
Theorem observable_state idle acts h :
  act_all idle acts Handle_new = Some h ->
  (forall x, phase_state (cam_phase h) = Some x -> state h = x)
  /\ (cam_phase h = Exiting -> state h <> Connected)
  /\ slot h = phase_slot (cam_phase h) (sessions h)
  /\ (forall d, cam_phase h = InSession d -> d = sessions h /\ preview_owned h)
  /\ (cam_phase h = Parked -> preview h = Sleeping).
Proof. intros E. pose proof (handle_fields _ _ _ _ fields_new E) as [F1 F2 F3 F4 F5 F6]. auto. Qed.

Lemma observable_state_witness :
  let h := outcome_of false (come_up ++ [Aggregate true]) in state h = Connected /\ slot h = Some 1%nat.
Proof.
  intros h. assert (act_all false (come_up ++ [Aggregate true]) Handle_new = Some h) as E by (vm_compute; reflexivity).
  destruct (observable_state _ _ _ E) as (Hs & _ & Hl & _). split; [apply Hs|rewrite Hl]; vm_compute; reflexivity.
Defined.

(** In a session, each tick of the
    aggregator leaves the preview overlay as the bridging of the sources says,
    whatever happened before: CONNECTING while one of them bridges a gap, live
    otherwise; so a cleared gap always brings it back to live. *)
Theorem overlay_follows_bridging idle acts h d any_bridging :
  act_all idle acts Handle_new = Some h -> cam_phase h = InSession d ->
  exists h', act idle (Aggregate any_bridging) h = Some h'
             /\ preview h' = (if any_bridging then PreviewConnecting else Live).
Proof.
  intros E Ed. pose proof (handle_fields _ _ _ _ fields_new E) as [_ _ _ _ F5 _]. destruct (F5 d Ed) as [_ Hv].
  exists (aggregate_tick any_bridging h). cbn [act]. rewrite Ed. split; [done|]. by apply aggregate_follows.
Qed.

Lemma overlay_follows_bridging_witness :
  let h := outcome_of false (come_up ++ [Aggregate true]) in
  preview h = PreviewConnecting /\ exists h', act false (Aggregate false) h = Some h' /\ preview h' = Live.
Proof.
  intros h. assert (act_all false (come_up ++ [Aggregate true]) Handle_new = Some h) as E by (vm_compute; reflexivity).
  split; [vm_compute; reflexivity|].
  apply (overlay_follows_bridging _ _ _ 1 false E). vm_compute. reflexivity.
Defined.

(** A subscriber comes while the teardown ends the session; the next one comes
    in the next session. *)
Definition late_subscriber : list action :=
  come_up ++ [Run WakeLockHeld; Run Proceed] ++ subscribe 0 Main ++ teardown ++ reconnect
  ++ Arrive Main :: repeat (Caller 1 false) 2.

(** A subscriber comes while the teardown waits for the first one's source. *)
Definition overlapping : list action :=
  come_up ++ subscribe 0 Main ++ [Run WakeLockHeld; Run Proceed] ++ subscribe 1 Main.

(** The state stays Connected and the
    driver slot filled while the teardown stops the sources and ends the
    session, so a subscriber that passes both checks then registers a source
    of the old session after the registry was emptied. It survives into the
    next session, whose subscribers are served this dead source of session 1
    while session 2 is up; and started while the teardown is still stopping
    the old source, it runs beside it. *)
Theorem source_outlives_session :
  (exists h, act_all false late_subscriber Handle_new = Some h /\ cam_phase h = InSession 2 /\ slot h = Some 2%nat
             /\ callers h !! 1%nat = Some (Main, Got (MkSourceRef 0 Main 1)))
  /\ (exists h, act_all false overlapping Handle_new = Some h
                /\ running h = [MkSourceRef 1 Main 1; MkSourceRef 0 Main 1]).
Proof.
  split; [exists (outcome_of false late_subscriber)|exists (outcome_of false overlapping)].
  - split; [vm_compute; reflexivity|]. split; [vm_compute; reflexivity|]. split; vm_compute; reflexivity.
  - split; vm_compute; reflexivity.
Qed.

(** The grace period ends the session, a sweep falls into its teardown, and a
    subscriber wakes the camera again. *)
Definition swept_late : list action :=
  come_up ++ [Run WakeLockIdle; Run Proceed; Sweep (Some 45_000_000) 45_000_000] ++ teardown ++ reconnect.

(** A disconnect request is a stored permit. A
    sweep during a teardown, when the state is still Connected and the camera
    still idle past the grace, leaves it behind, and the next session's
    keepalive loop ends at once on it, although its wake lock is held and
    nobody asked this session to end. *)
Theorem stale_disconnect :
  exists h, act_all true swept_late Handle_new = Some h /\ cam_phase h = InSession 2
            /\ exists h', act true (Run (DisconnectNotified false)) h = Some h' /\ cam_phase h' = Draining.
Proof.
  exists (outcome_of true swept_late). split; [vm_compute; reflexivity|]. split; [vm_compute; reflexivity|].
  exists (outcome_of true (swept_late ++ [Run (DisconnectNotified false)])). split; vm_compute; reflexivity.
Qed.

(** The connection is lost while a source bridges the gap. *)
Definition bridging_lost : list action :=
  come_up ++ [Aggregate true; Run WakeLockHeld; Aggregate false; Run Proceed].

(** The aggregator still runs when the ended
    session has set the overlay. If it had lowered the overlay itself, it
    takes the loop's CONNECTING for its own and shows the lost camera as live
    throughout the teardown. *)
Theorem live_after_session :
  exists h, act_all false bridging_lost Handle_new = Some h /\ cam_phase h = Stopping [] /\ preview h = Live.
Proof.
  exists (outcome_of false bridging_lost). split; [vm_compute; reflexivity|]. split; vm_compute; reflexivity.
Qed.

(** ** Keepalive *)

Definition failing {E} (w : wakening E) : bool :=
  match w with Probed raw => bool_decide (classify_keepalive_tick raw = TickFailed) | Signal => false end.

(** The failures at the end of what the loop has seen. *)
Fixpoint trailing {E} (ticks : list (wakening E)) (acc : Z) : Z :=
  match ticks with [] => acc | w :: ticks => trailing ticks (if failing w then acc + 1 else 0) end.

Lemma keepalive_step {E} n (w : wakening E) ticks :
  0 <= n < KEEPALIVE_MAX_FAILURES ->
  keepalive_loop n (w :: ticks)
  = match w with
    | Signal => Some ticks
    | Probed _ => if failing w
                  then if decide (n = 4) then Some ticks else keepalive_loop (n + 1) ticks
                  else keepalive_loop 0 ticks
    end.
Proof.
  unfold KEEPALIVE_MAX_FAILURES. intros Hn. destruct w as [|[[x|e]|]]; [done|reflexivity| |]; cbn -[Z.min Z.leb];
    rewrite Z.min_l by lia; unfold KEEPALIVE_MAX_FAILURES; (destruct (decide (n = 4)) as [->|]; [reflexivity|]);
    by rewrite (proj2 (Z.leb_gt 5 (n + 1))) by lia.
Qed.

Lemma failing_probe {E} (w : wakening E) : failing w = true -> exists raw, w = Probed raw.
Proof. destruct w; [done|eauto]. Qed.

(** With [n] failures behind it, the loop survives exactly the lists without a
    signal whose failures, counted from [n], stay below five. *)
Lemma keepalive_survives {E} (ticks : list (wakening E)) n :
  0 <= n < KEEPALIVE_MAX_FAILURES ->
  keepalive_loop n ticks = None
  <-> ~ In Signal ticks /\ forall p q, ticks = p ++ q -> trailing p n < KEEPALIVE_MAX_FAILURES.
Proof.
  revert n. induction ticks as [|w ticks IH]; intros n Hn.
  - split; [|done]. intros _. split; [intros []|]. intros p q Ep. symmetry in Ep.
    apply app_eq_nil in Ep as [-> _]. cbn. lia.
  - rewrite keepalive_step by done.
    assert (forall m, 0 <= m < KEEPALIVE_MAX_FAILURES -> m = (if failing w then n + 1 else 0) -> w <> Signal ->
      (keepalive_loop m ticks = None
       <-> ~ In Signal (w :: ticks) /\ forall p q, w :: ticks = p ++ q -> trailing p n < KEEPALIVE_MAX_FAILURES))
      as Hrec.
    { intros m Hm -> Hw. rewrite IH by done. split; intros [Hs Ht]; (split; [cbn in *; tauto|]).
      - intros [|x p] q Ep; cbn; [lia|]. injection Ep as <- ->. by eapply Ht.
      - intros p q ->. by apply (Ht (w :: p) q). }
    destruct w as [|raw]; [split; [done|intros [[] _]; by constructor]|].
    destruct (failing (Probed raw)) eqn:Ef; [|apply Hrec; unfold KEEPALIVE_MAX_FAILURES in *; [lia|done|done]].
    destruct (decide (n = 4)) as [->|]; [|apply Hrec; unfold KEEPALIVE_MAX_FAILURES in *; [lia|done|done]].
    split; [done|]. intros [_ Ht]. specialize (Ht [Probed raw] ticks eq_refl). cbn [trailing] in Ht. rewrite Ef in Ht.
    unfold KEEPALIVE_MAX_FAILURES in Ht. lia.
Qed.

Lemma trailing_app {E} (p q : list (wakening E)) n : trailing (p ++ q) n = trailing q (trailing p n).
Proof. revert n. induction p as [|w p IH]; intros n; cbn; [done|apply IH]. Qed.

Lemma trailing_all {E} (q : list (wakening E)) n : Forall (fun w => failing w = true) q -> trailing q n = n + len q.
Proof.
  revert n. induction q as [|w q IH]; intros n Hq; [unfold len; cbn; lia|]. apply Forall_cons_iff in Hq as [Hw Hq].
  cbn [trailing]. rewrite Hw, IH by done. unfold len. cbn [length]. lia.
Qed.

Lemma trailing_nonneg {E} (p : list (wakening E)) n : 0 <= n -> 0 <= trailing p n.
Proof. revert n. induction p as [|w p IH]; intros n Hn; cbn; [done|]. apply IH. destruct (failing w); lia. Qed.

(** The counter is the length of the run of failures it ends. *)
Lemma trailing_run {E} (p : list (wakening E)) :
  exists a b, p = a ++ b /\ Forall (fun w => failing w = true) b /\ trailing p 0 = len b.
Proof.
  induction p as [|w p (a & b & -> & Hb & Ht)] using rev_ind; [exists [], []; done|].
  rewrite trailing_app. cbn [trailing]. destruct (failing w) eqn:Ew.
  - exists a, (b ++ [w]). rewrite <- app_assoc. split; [done|]. split; [apply Forall_app; auto|].
    rewrite Ht. unfold len. rewrite length_app. cbn. lia.
  - exists (a ++ b ++ [w]), []. by rewrite app_nil_r, <- app_assoc.
Qed.

(** The keepalive loop goes on exactly as long as
    no signal comes and no five probes in a row fail, each by an error or a
    timeout; any success in between starts the count anew. *)
Theorem keepalive_exact {E} (ticks : list (wakening E)) :
  keepalive_loop 0 ticks = None
  <-> ~ In Signal ticks
      /\ ~ exists before run after, ticks = before ++ run ++ after /\ length run = 5%nat
                                    /\ Forall (fun w => failing w = true) run.
Proof.
  rewrite keepalive_survives by (unfold KEEPALIVE_MAX_FAILURES; lia). unfold KEEPALIVE_MAX_FAILURES.
  split; intros [Hs Ht]; (split; [done|]).
  - intros (before & run & after & -> & Hl & Hf). specialize (Ht (before ++ run) after). rewrite <- app_assoc in Ht.
    specialize (Ht eq_refl). rewrite trailing_app, trailing_all in Ht by done.
    pose proof (trailing_nonneg before 0). unfold len in Ht. lia.
  - intros p q ->. destruct (trailing_run p) as (a & b & -> & Hb & ->).
    destruct (decide (len b < 5)) as [|Hlong]; [done|].
    exfalso. apply Ht. exists a, (take 5 b), (drop 5 b ++ q). split; [|split].
    + rewrite (app_assoc (take 5 b)), take_drop, <- app_assoc. done.
    + rewrite length_take. unfold len in Hlong. lia.
    + by apply Forall_take.
Qed.

(** ** Pruning *)

(** Since when the trailing sweeps have all counted no subscriber. *)
Fixpoint idle_from (seen : list (Z * nat)) (acc : option Z) : option Z :=
  match seen with
  | [] => acc
  | (now, subs) :: seen =>
      idle_from seen (if (0 <? subs)%nat then None else Some (match acc with Some t => t | None => now end))
  end.

Lemma sweeps_marker grace marker seen m : sweeps grace marker seen = Some m -> m = idle_from seen marker.
Proof.
  revert marker. induction seen as [|[now subs] seen IH]; intros marker E; cbn in E; [by injection E as <-|].
  unfold prune_idle in E. cbn [idle_from]. destruct (0 <? subs)%nat; [by apply IH|].
  destruct marker as [since|]; [destruct (_ <=? _)|destruct (_ =? _)]; try done; by apply IH.
Qed.

(** A source that has survived the sweeps so far
    is stopped and dropped by the next one exactly when that one counts no
    subscriber, and neither did the sweeps before it back to one at least the
    grace earlier; with a zero grace, at once. *)
Theorem pruned_exactly grace seen now subs m :
  0 <= grace -> sweeps grace None seen = Some m ->
  sweeps grace None (seen ++ [(now, subs)]) = None
  <-> subs = 0%nat /\ (grace = 0 \/ exists since, idle_from seen None = Some since /\ since + grace <= now).
Proof.
  intros Hg E. pose proof (sweeps_marker _ _ _ _ E) as Hm.
  assert (sweeps grace None (seen ++ [(now, subs)]) = prune_idle now grace subs m) as ->.
  { clear Hm. revert E. generalize (@None Z) as k. induction seen as [|[t n] seen IH]; intros k E; cbn in *.
    - injection E as ->. by destruct (prune_idle _ _ _ _).
    - destruct (prune_idle t grace n k); [by apply IH|done]. }
  rewrite <- Hm. unfold prune_idle. destruct (Nat.ltb_spec 0 subs); [split; [done|lia]|].
  destruct m as [since|].
  - destruct (Z.leb_spec grace (Z.max 0 (now - since))); split; try done.
    + intros _. split; [lia|]. destruct (decide (grace = 0)); [auto|]. right. exists since. split; [done|lia].
    + intros [_ [?|(s & [= <-] & ?)]]; lia.
  - destruct (Z.eqb_spec grace 0); split; try done; [intros _; split; [lia|auto]|].
    intros [_ [?|(s & [=] & _)]]. done.
Qed.

Lemma pruned_exactly_witness : sweeps 60 None ([(0, 1%nat); (30, 0%nat); (60, 0%nat)] ++ [(90, 0%nat)]) = None.
Proof.
  apply (pruned_exactly 60 [(0, 1%nat); (30, 0%nat); (60, 0%nat)] 90 0 (Some 30)).
  - lia.
  - reflexivity.
  - split; [done|]. right. exists 30. split; [reflexivity|lia].
Defined.

(** ** Reconnect delays *)


Lemma delays_from n i m k :
  0 <= i <= m ->
  delays n (MkBackoff i m (Z.min m (i * 2 ^ Z.of_nat k)))
  = map (fun j => Z.min m (i * 2 ^ Z.of_nat j)) (seq k n).
Proof.
  revert k. induction n as [|n IH]; intros k Hi; [done|]. cbn [delays next_delay seq map]. f_equal.
  rewrite <- IH by done. do 2 f_equal. cbn [current_delay max_delay].
  rewrite Nat2Z.inj_succ, Z.pow_succ_r by lia. pose proof (Z.pow_pos_nonneg 2 (Z.of_nat k)). nia.
Qed.

(** Whatever the delays before, from the last
    successful connect on the attempts are 2, 4, 8, ... seconds apart, never
    more than 60. *)
Theorem reconnect_delays n b :
  initial_delay b = 2 -> max_delay b = 60 ->
  delays n (reset b) = map (fun j => Z.min 60 (2 ^ (Z.of_nat j + 1))) (seq 0 n).
Proof.
  intros Ei Em. unfold reset. rewrite Ei, Em. etransitivity; [exact (delays_from n 2 60 0 ltac:(lia))|].
  apply map_ext. intros j.
  rewrite Z.pow_add_r by lia. f_equal. lia.
Qed.

Lemma reconnect_delays_witness :
  delays 6 (reset (snd (next_delay (ReconnectBackoff_new 2 60)))) = [2; 4; 8; 16; 32; 60].
Proof. apply (reconnect_delays 6); reflexivity. Defined.
