(* ===== verification/Commands.v ===== *)
(** * Camera commands ([src/baichuan/bc_protocol/])

    [BcCamera] and its commands, over the control connection of [BcConn]. A
    command is a program of the monad [M]: it takes message numbers, subscribes,
    sends and waits. What the connection answers is a script, the
    acknowledgements of subscriptions and sends and the receptions, each taken
    in turn; everything the command does is recorded in the trace. A program
    whose script is exhausted is waiting. *)

From S2P Require Import Prelude Text Wire XorCrypto BcXml BcMsg BcConn.

(** ** Errors ([errors.rs]), those commands raise

    [Panicked] is no error: the task unwinds. *)

Inductive Error :=
| Connection (e : BcConn.Error)
| UnintelligibleReply (reply : Bc) (why : str)
| UnintelligibleXml (reply : BcXml Elements) (why : str)
| CameraServiceUnavailable (id code : Z)
| CameraLoginFail
| AuthFailed
| UserAlreadyExists (user_name : bytes)
| UserNotFound (user_name : bytes)
| TimeParse
| MissingAbility (name requested actual : bytes)
| Other (what : str)
| Cloud (what : str)
| Panicked.

(** ** The camera ([bc_protocol.rs]) *)

Inductive ReadKind := ReadOnly | ReadWrite | ReadNone.

#[export] Instance ReadKind_eq_dec : EqDecision ReadKind.
Proof. solve_decision. Defined.

Record BcCamera := MkBcCamera {
  cam_channel : Z;
  logged_in : bool;
  message_num : Z;
  cam_credentials : Credentials;
  abilities : gmap bytes ReadKind;
  is_cloud : bool;
  sigv3_handshake : option (Z * str);
  cloud_account : option bytes;
  cloud_password : option bytes;
  cloud_uid : option bytes;
  cloud_mfa_trust_token : option bytes;
  cloud_refresh_token : option bytes
}.

Definition set_message_num (c : BcCamera) (n : Z) : BcCamera :=
  MkBcCamera (cam_channel c) (logged_in c) n (cam_credentials c) (abilities c) (is_cloud c) (sigv3_handshake c)
    (cloud_account c) (cloud_password c) (cloud_uid c) (cloud_mfa_trust_token c) (cloud_refresh_token c).
Definition set_logged_in (c : BcCamera) (b : bool) : BcCamera :=
  MkBcCamera (cam_channel c) b (message_num c) (cam_credentials c) (abilities c) (is_cloud c) (sigv3_handshake c)
    (cloud_account c) (cloud_password c) (cloud_uid c) (cloud_mfa_trust_token c) (cloud_refresh_token c).
Definition set_abilities (c : BcCamera) (a : gmap bytes ReadKind) : BcCamera :=
  MkBcCamera (cam_channel c) (logged_in c) (message_num c) (cam_credentials c) a (is_cloud c) (sigv3_handshake c)
    (cloud_account c) (cloud_password c) (cloud_uid c) (cloud_mfa_trust_token c) (cloud_refresh_token c).

(** ** Programs *)

Inductive Call :=
| Subscribe (id num : Z)
| SubscribeId (id : Z)
| DropSubscription (id num : Z)
| Send (m : Bc).

(** A reception: a message, the channel's error, or nothing. *)
Inductive Reception := Delivered (m : Bc) | Broken (e : BcConn.Error) | Silence.

Record World := MkWorld {
  cam : BcCamera;
  trace : list Call;
  acks : list (option BcConn.Error);
  inbox : list Reception
}.

Definition M (A : Type) : Type := World -> option (result A Error) * World.

Definition ret {A} (a : A) : M A := fun w => (Some (Ok a), w).
Definition fail {A} (e : Error) : M A := fun w => (Some (Err e), w).

Definition bind {A B} (m : M A) (f : A -> M B) : M B := fun w =>
  match m w with
  | (Some (Ok a), w) => f a w
  | (Some (Err e), w) => (Some (Err e), w)
  | (None, w) => (None, w)
  end.

Notation "'let*' x ':=' m 'in' k" := (bind m (fun x => k))
  (at level 10, x pattern, m at level 100, k at level 200) : bairelay_scope.

(** An [async] block whose result is looked at. *)
Definition outcome_of {A} (m : M A) : M (result A Error) := fun w =>
  match m w with
  | (Some r, w) => (Some (Ok r), w)
  | (None, w) => (None, w)
  end.

Definition gets {A} (f : BcCamera -> A) : M A := fun w => (Some (Ok (f (cam w))), w).
Definition modify (f : BcCamera -> BcCamera) : M unit := fun w =>
  (Some (Ok tt), MkWorld (f (cam w)) (trace w) (acks w) (inbox w)).

Definition record (c : Call) (w : World) : World := MkWorld (cam w) (trace w ++ [c]) (acks w) (inbox w).

(** A call the connection acknowledges. *)
Definition call (c : Call) : M unit := fun w =>
  let w := record c w in
  match acks w with
  | [] => (None, w)
  | None :: l => (Some (Ok tt), MkWorld (cam w) (trace w) l (inbox w))
  | Some e :: l => (Some (Err (Connection e)), MkWorld (cam w) (trace w) l (inbox w))
  end.

Definition subscribe (id num : Z) : M unit := call (Subscribe id num).
Definition subscribe_to_id (id : Z) : M unit := call (SubscribeId id).
Definition send (m : Bc) : M unit := call (Send m).
Definition drop_subscription (id num : Z) : M unit := fun w => (Some (Ok tt), record (DropSubscription id num) w).

Definition recv : M Bc := fun w =>
  match inbox w with
  | Delivered m :: l => (Some (Ok m), MkWorld (cam w) (trace w) (acks w) l)
  | Broken e :: l => (Some (Err (Connection e)), MkWorld (cam w) (trace w) (acks w) l)
  | Silence :: _ | [] => (None, w)
  end.

(** [timeout(.., recv())]: [None] when it elapses. *)
Definition recv_within : M (option Bc) := fun w =>
  match inbox w with
  | Silence :: l => (Some (Ok None), MkWorld (cam w) (trace w) (acks w) l)
  | _ => bind recv (fun m => ret (Some m)) w
  end.

(** [fetch_add(1)] on a 16-bit counter. *)
Definition new_message_num : M Z := fun w =>
  (Some (Ok (message_num (cam w))),
   MkWorld (set_message_num (cam w) (wrap 16 (message_num (cam w) + 1))) (trace w) (acks w) (inbox w)).

Definition has_ability (c : BcCamera) (name : bytes) : ReadKind := default ReadNone (abilities c !! name).

Definition has_ability_ro (name : bytes) : M unit :=
  let* kind := gets (fun c => has_ability c name) in
  match kind with
  | ReadWrite | ReadOnly => ret tt
  | ReadNone => fail (MissingAbility name (lit "read") (lit "none"))
  end.

Definition has_ability_rw (name : bytes) : M unit :=
  let* kind := gets (fun c => has_ability c name) in
  match kind with
  | ReadWrite => ret tt
  | ReadOnly => fail (MissingAbility name (lit "write") (lit "read"))
  | ReadNone => fail (MissingAbility name (lit "write") (lit "none"))
  end.

(** ** Messages ([bc/model.rs]) *)

Definition MSG_ID_LOGOUT : Z := 2.
Definition MSG_ID_VIDEO : Z := 3.
Definition MSG_ID_VIDEO_STOP : Z := 4.
Definition MSG_ID_PTZ_CONTROL : Z := 18.
Definition MSG_ID_PTZ_CONTROL_PRESET : Z := 19.
Definition MSG_ID_REBOOT : Z := 23.
Definition MSG_ID_MOTION_REQUEST : Z := 31.
Definition MSG_ID_SET_SERVICE_PORTS : Z := 36.
Definition MSG_ID_GET_SERVICE_PORTS : Z := 37.
Definition MSG_ID_GET_ABILITY_SUPPORT : Z := 58.
Definition MSG_ID_UPDATE_USER_LIST : Z := 59.
Definition MSG_ID_VERSION : Z := 80.
Definition MSG_ID_PING : Z := 93.
Definition MSG_ID_GET_GENERAL : Z := 104.
Definition MSG_ID_SET_GENERAL : Z := 105.
Definition MSG_ID_GET_DST : Z := 106.
Definition MSG_ID_SNAP : Z := 109.
Definition MSG_ID_ABILITY_INFO : Z := 151.
Definition MSG_ID_GET_PTZ_PRESET : Z := 190.
Definition MSG_ID_GET_SUPPORT : Z := 199.
Definition MSG_ID_GET_LED_STATUS : Z := 208.
Definition MSG_ID_SET_LED_STATUS : Z := 209.
Definition MSG_ID_GET_PIR_ALARM : Z := 212.
Definition MSG_ID_START_PIR_ALARM : Z := 213.
Definition MSG_ID_UDP_KEEP_ALIVE : Z := 234.
Definition MSG_ID_BATTERY_INFO : Z := 253.
Definition MSG_ID_PLAY_AUDIO : Z := 263.
Definition MSG_ID_FLOODLIGHT_MANUAL : Z := 288.
Definition MSG_ID_FLOODLIGHT_TASKS_WRITE : Z := 290.
Definition MSG_ID_GET_ZOOM_FOCUS : Z := 294.
Definition MSG_ID_SET_ZOOM_FOCUS : Z := 295.
Definition MSG_ID_FLOODLIGHT_TASKS_READ : Z := 438.

(** [Extension::default()] and the two forms the commands fill in. *)
Definition Extension_default : Extension := MkExtension xml_ver None None None None None None None None.
Definition ext_channel (c : Z) : Extension := MkExtension xml_ver None None None (Some c) None None None None.
Definition ext_rf (c : Z) : Extension := MkExtension xml_ver None None None None (Some c) None None None.
Definition ext_user (name : bytes) (token : option bytes) : Extension :=
  MkExtension xml_ver None (Some name) token None None None None None.

Definition xml_body (e : Elements) : option BcPayloads := Some (BcXmlPayload (MkBcXml None None e)).

(** A request: a fresh number, the subscription to its reply, the message.
    The parts may depend on the camera's channel. *)
Definition request (id : Z) (parts : Z -> option Extension * option BcPayloads) : M Z :=
  let* num := new_message_num in
  let* _ := subscribe id num in
  let* channel := gets cam_channel in
  let '(e, p) := parts channel in
  let* _ := send (new_bc (MkBcMeta id channel 0 0 num 0x6414) e p) in
  ret num.

Definition nothing (channel : Z) : option Extension * option BcPayloads := (None, None).
Definition by_channel (channel : Z) : option Extension * option BcPayloads := (Some (ext_channel channel), None).

(** [if response_code != 200 { return Err(CameraServiceUnavailable) }] *)
Definition checked (m : Bc) : M unit :=
  if response_code (meta m) =? 200 then ret tt
  else fail (CameraServiceUnavailable (msg_id (meta m)) (response_code (meta m))).

(** [if let BcMeta { response_code: 200, .. }], with the error of the other. *)
Definition accepted (m : Bc) (why : str) : M unit :=
  if response_code (meta m) =? 200 then ret tt else fail (UnintelligibleReply m why).

(** The XML payload of a modern message. *)
Definition xml_of (m : Bc) : option (BcXml Elements) :=
  match body m with Modern (MkModernMsg _ (Some (BcXmlPayload x))) => Some x | _ => None end.

(** [if let Some(x) = xml.field.take() { return Ok(x) }], or the error. *)
Definition taken {A} (field : Elements -> option A) (m : Bc) (why : str) : M A :=
  match xml_of m with
  | Some x => match field (elements x) with Some a => ret a | None => fail (UnintelligibleReply m why) end
  | None => fail (UnintelligibleReply m why)
  end.

(** The common shape of a query. *)
Definition query {A} (id : Z) (parts : Z -> option Extension * option BcPayloads) (field : Elements -> option A)
    (why : str) : M A :=
  let* _ := request id parts in
  let* m := recv in
  let* _ := checked m in
  taken field m why.

(** [await_set_reply_with_quirk]: no reply within the window is success. *)
Definition await_set_reply_with_quirk : M unit :=
  let* r := recv_within in
  match r with None => ret tt | Some m => checked m end.

(** A query the camera may put off with code 400, five times. *)
Fixpoint retrying (retries_left : nat) (id : Z) (parts : Z -> option Extension * option BcPayloads) : M Bc :=
  let* _ := request id parts in
  let* m := recv in
  if response_code (meta m) =? 400 then
    match retries_left with
    | O => fail (CameraServiceUnavailable (msg_id (meta m)) (response_code (meta m)))
    | S n => retrying n id parts
    end
  else let* _ := checked m in ret m.

(** ** Queries *)

Definition get_abilityinfo : M AbilityInfo :=
  let* c := gets cam_credentials in
  query MSG_ID_ABILITY_INFO
    (fun _ => (Some (ext_user (username c)
       (Some (lit "system, streaming, PTZ, IO, security, replay, disk,  network, alarm, record, video, image"))), None))
    ability_info (lit "Expected AbilityInfo xml but it was not received").

(** A code other than 200 and a reply without the block are one error here. *)
Definition battery_info : M BatteryInfo :=
  let why := lit "The camera did not accept the battery info (maybe no battery) command." in
  let* _ := request MSG_ID_BATTERY_INFO by_channel in
  let* m := recv in
  if response_code (meta m) =? 200 then taken battery_info m why else fail (UnintelligibleReply m why).

Definition get_floodlight_tasks : M FloodlightTask :=
  query MSG_ID_FLOODLIGHT_TASKS_READ by_channel floodlight_task
    (lit "Expected FloodlightTask xml but it was not received").

Definition get_ledstate : M LedState :=
  let* _ := has_ability_ro (lit "ledState") in
  query MSG_ID_GET_LED_STATUS by_channel led_state (lit "Expected LEDState xml but it was not received").

Definition get_linktype : M LinkType :=
  query MSG_ID_PING nothing link_type (lit "Expected LinkType xml but it was not received").

Definition get_support : M Support :=
  query MSG_ID_GET_SUPPORT nothing support (lit "Expected Support xml but it was not received").

Definition version : M VersionInfo :=
  let* _ := has_ability_ro (lit "version") in
  query MSG_ID_VERSION nothing version_info (lit "Expected a VersionInfo message").

Definition get_users : M UserList :=
  let* _ := has_ability_ro (lit "user") in
  query MSG_ID_GET_ABILITY_SUPPORT (fun _ => (Some (ext_user (lit "admin") None), None)) user_list
    (lit "Expected ModernMsg payload with a user_list but it was not received").

Definition get_zoom : M PtzZoomFocus :=
  let* _ := has_ability_ro (lit "control") in
  query MSG_ID_GET_ZOOM_FOCUS by_channel ptz_zoom_focus (lit "Expected PtzZoomFocus xml but it was not received").

(** This one does not look at the code. *)
Definition get_ptz_preset : M PtzPreset :=
  let* _ := has_ability_ro (lit "control") in
  let* _ := request MSG_ID_GET_PTZ_PRESET by_channel in
  let* m := recv in
  taken ptz_preset m (lit "The camera did not return a valid PtzPreset xml").

Definition get_pirstate : M RfAlarmCfg :=
  let* _ := has_ability_ro (lit "rfAlarm") in
  let* m := retrying 5 MSG_ID_GET_PIR_ALARM (fun channel => (Some (ext_rf channel), None)) in
  taken rf_alarm_cfg m (lit "Expected PirSate xml but it was not received").

Definition get_services : M (BcXml Elements) :=
  let* _ := has_ability_ro (lit "port") in
  let* m := retrying 5 MSG_ID_GET_SERVICE_PORTS nothing in
  match xml_of m with
  | Some x => ret x
  | None => fail (UnintelligibleReply m (lit "Expected ModernMsg payload but it was not received"))
  end.

(** ** Commands that change the camera *)

Definition set_floodlight_manual (state : bool) (duration : Z) : M unit :=
  let* _ := request MSG_ID_FLOODLIGHT_MANUAL (fun channel =>
    (Some (ext_channel channel),
     xml_body (only_floodlight_manual (MkFloodlightManual (lit "1") channel (if state then 1 else 0) duration)))) in
  await_set_reply_with_quirk.

Definition set_floodlight_tasks (new_xml : FloodlightTask) : M unit :=
  let* _ := request MSG_ID_FLOODLIGHT_TASKS_WRITE (fun channel =>
    (Some (ext_channel channel), xml_body (only_floodlight_task new_xml))) in
  let* m := recv in checked m.

Definition with_task_enable (t : FloodlightTask) (x : Z) : FloodlightTask :=
  MkFloodlightTask (task_version t) (task_channel t) (task_alarm_mode t) x (task_last_alarm_mode t)
    (task_preview_auto t) (task_duration t) (task_brightness_cur t) (task_brightness_max t) (task_brightness_min t)
    (task_schedule t) (task_light_sens_threshold t) (task_floodlight_schedule_list t)
    (task_night_long_view_multi_brightness t) (task_detect_type t).

Definition floodlight_tasks_enable (state : bool) : M unit :=
  let* curr_state := get_floodlight_tasks in
  let want := if state then 1 else 0 in
  if task_enable curr_state =? want then ret tt else set_floodlight_tasks (with_task_enable curr_state want).

Definition is_floodlight_tasks_enabled : M bool :=
  let* curr_state := get_floodlight_tasks in ret (task_enable curr_state =? 1).

Definition set_ledstate (l : LedState) : M unit :=
  let* _ := has_ability_rw (lit "ledState") in
  let l := MkLedState (leds_version l) (leds_channel_id l) None (leds_state l) (leds_light_state l) in
  let* _ := request MSG_ID_SET_LED_STATUS (fun channel =>
    (Some (ext_channel channel), xml_body (only_led_state l))) in
  await_set_reply_with_quirk.

Inductive LightState := LightOn | LightOff | LightAuto.

Definition irled_light_set (state : LightState) : M unit :=
  let* l := get_ledstate in
  let state := match state with LightOn => lit "open" | LightOff => lit "close" | LightAuto => lit "auto" end in
  set_ledstate (MkLedState (leds_version l) (leds_channel_id l) (leds_led_version l) state (leds_light_state l)).

Definition led_light_set (state : bool) : M unit :=
  let* l := get_ledstate in
  let light_state := if state then lit "open" else lit "close" in
  set_ledstate (MkLedState (leds_version l) (leds_channel_id l) (leds_led_version l) (leds_state l) light_state).

Definition set_pirstate (cfg : RfAlarmCfg) : M unit :=
  let* _ := has_ability_rw (lit "rfAlarm") in
  let* _ := request MSG_ID_START_PIR_ALARM (fun channel =>
    (Some (ext_rf channel), xml_body (only_rf_alarm_cfg cfg))) in
  await_set_reply_with_quirk.

Definition with_rf_enable (c : RfAlarmCfg) (x : Z) : RfAlarmCfg :=
  MkRfAlarmCfg (rf_version c) (rf_rf_id c) x (rf_sensitivity c) (rf_sensiValue c) (rf_reduceFalseAlarm c)
    (rf_interval c) (rf_maxAlarmTime c) (rf_intervalUseRange c) (rf_intervalSecMin c) (rf_intervalSecMax c)
    (rf_time_block_list c) (rf_alarm_handle c).

Definition pir_set (state : bool) : M unit :=
  let* pir_state := get_pirstate in
  set_pirstate (with_rf_enable pir_state (if state then 1 else 0)).

Inductive Direction := Up | Down | Left | Right | Stop.

Definition direction_str (d : Direction) : bytes :=
  match d with
  | Up => lit "up" | Down => lit "down" | Left => lit "left" | Right => lit "right" | Stop => lit "stop"
  end.

(** [f32::is_finite] and [< 0.0], on the bit pattern. *)
Definition f32_is_finite (x : Z) : bool := negb (Z.land (Z.shiftr x 23) 255 =? 255).
Definition f32_is_negative (x : Z) : bool := Z.testbit x 31 && negb (Z.land x 0x7fffffff =? 0).

Definition send_ptz (direction : Direction) (amount : Z) : M unit :=
  if negb (f32_is_finite amount) || f32_is_negative amount
  then fail (Other (lit "send_ptz: amount must be a finite, non-negative f32"))
  else
    let* _ := has_ability_rw (lit "control") in
    let* _ := request MSG_ID_PTZ_CONTROL (fun channel =>
      (Some (ext_channel channel),
       xml_body (only_ptz_control (MkPtzControl xml_ver channel amount (direction_str direction))))) in
    let* m := recv in
    accepted m (lit "The camera did not accept the PtzControl xml").

Definition ptz_preset_command (p : Preset) : M unit :=
  let* _ := has_ability_rw (lit "control") in
  let* _ := request MSG_ID_PTZ_CONTROL_PRESET (fun channel =>
    (Some (ext_channel channel), xml_body (only_ptz_preset (MkPtzPreset [] 0 (MkPresetList [p]))))) in
  let* m := recv in
  accepted m (lit "The camera did not accept the PtzPreset xml").

Definition set_ptz_preset (preset_id : Z) (name : bytes) : M unit :=
  ptz_preset_command (MkPreset preset_id (Some name) (lit "setPos")).

Definition moveto_ptz_preset (preset_id : Z) : M unit :=
  ptz_preset_command (MkPreset preset_id None (lit "toPos")).

(** [clamp] asserts that its bounds are in order. *)
Definition zoom_to (zoom_pos : Z) : M unit :=
  let* current := get_zoom in
  let lo := helper_position_min_pos (zf_zoom current) in
  let hi := helper_position_max_pos (zf_zoom current) in
  if hi <? lo then fail Panicked
  else
    let zoom_pos := clamp lo hi zoom_pos in
    let* _ := has_ability_rw (lit "control") in
    let* _ := request MSG_ID_SET_ZOOM_FOCUS (fun channel =>
      (Some (ext_channel channel),
       xml_body (only_start_zoom_focus (MkStartZoomFocus xml_ver channel (lit "zoomPos") zoom_pos)))) in
    let* m := recv in
    accepted m (lit "The camera did not accept the StartZoomFocus xml").

Definition reboot : M unit :=
  let* _ := has_ability_rw (lit "reboot") in
  let* _ := request MSG_ID_REBOOT nothing in
  let* m := recv in
  accepted m (lit "The camera did not accept the reboot command").

Definition siren : M unit :=
  let* _ := has_ability_rw (lit "siren") in
  let* _ := request MSG_ID_PLAY_AUDIO (fun channel =>
    (Some (ext_channel channel), xml_body (only_audio_play_info (MkAudioPlayInfo channel 0 0 1 0)))) in
  let* m := recv in checked m.

(** ** Service ports ([services.rs]) *)

Definition set_services (e : Elements) : M unit :=
  let* _ := has_ability_rw (lit "port") in
  let* _ := request MSG_ID_SET_SERVICE_PORTS (fun _ => (None, xml_body e)) in
  await_set_reply_with_quirk.

Definition get_port {P} (field : Elements -> option P) (why : str) : M P :=
  let* x := get_services in
  match field (elements x) with Some p => ret p | None => fail (UnintelligibleXml x why) end.

Definition set_port {P} (field : Elements -> option P) (why : str) (only : P -> Elements) (update : P -> P) : M unit :=
  let* p := get_port field why in set_services (only (update p)).

Definition new_enable (set_on : option bool) (old : option Z) : option Z :=
  match set_on with Some b => Some (if b then 1 else 0) | None => old end.

Definition get_serverport : M ServerPort :=
  get_port server_port (lit "Expected ServerPort xml but it was not received").
Definition get_http : M HttpPort := get_port http_port (lit "Expected HttpPort xml but it was not received").
Definition get_https : M HttpsPort := get_port https_port (lit "Expected HttpsPort xml but it was not received").
Definition get_rtsp : M RtspPort := get_port rtsp_port (lit "Expected RtspPort xml but it was not received").
Definition get_rtmp : M RtmpPort := get_port rtmp_port (lit "Expected RtmpPort xml but it was not received").
Definition get_onvif : M OnvifPort := get_port onvif_port (lit "Expected OnvifPort xml but it was not received").

Definition set_serverport (set_on : option bool) (port : option Z) : M unit :=
  set_port server_port (lit "Expected ServerPort xml but it was not received") only_server_port (fun p =>
    MkServerPort (server_port_version p) (default (server_port_port p) port)
      (new_enable set_on (server_port_enable p))).
Definition set_http (set_on : option bool) (port : option Z) : M unit :=
  set_port http_port (lit "Expected HttpPort xml but it was not received") only_http_port (fun p =>
    MkHttpPort (http_port_version p) (default (http_port_port p) port) (new_enable set_on (http_port_enable p))).
Definition set_https (set_on : option bool) (port : option Z) : M unit :=
  set_port https_port (lit "Expected HttpsPort xml but it was not received") only_https_port (fun p =>
    MkHttpsPort (https_port_version p) (default (https_port_port p) port) (new_enable set_on (https_port_enable p))).
Definition set_rtsp (set_on : option bool) (port : option Z) : M unit :=
  set_port rtsp_port (lit "Expected RtspPort xml but it was not received") only_rtsp_port (fun p =>
    MkRtspPort (rtsp_port_version p) (default (rtsp_port_port p) port) (new_enable set_on (rtsp_port_enable p))).
Definition set_rtmp (set_on : option bool) (port : option Z) : M unit :=
  set_port rtmp_port (lit "Expected RtmpPort xml but it was not received") only_rtmp_port (fun p =>
    MkRtmpPort (rtmp_port_version p) (default (rtmp_port_port p) port) (new_enable set_on (rtmp_port_enable p))).
Definition set_onvif (set_on : option bool) (port : option Z) : M unit :=
  set_port onvif_port (lit "Expected OnvifPort xml but it was not received") only_onvif_port (fun p =>
    MkOnvifPort (onvif_port_version p) (default (onvif_port_port p) port) (new_enable set_on (onvif_port_enable p))).

(** ** Users ([users.rs]) *)

Definition set_users (users : list User) : M unit :=
  let* _ := has_ability_rw (lit "user") in
  let* _ := request MSG_ID_UPDATE_USER_LIST (fun _ =>
    (None, xml_body (only_user_list (MkUserList (lit "1.1") (Some users))))) in
  await_set_reply_with_quirk.

Definition user_list_of (l : UserList) : list User := default [] (users_user_list l).

Definition named (user_name : bytes) (u : User) : bool := bool_decide (user_user_name u = user_name).

Definition add_user (user_name password : bytes) (user_level : Z) : M unit :=
  let* l := get_users in
  let users := user_list_of l in
  if existsb (named user_name) users then fail (UserAlreadyExists user_name)
  else set_users (users ++ [MkUser user_name (Some password) None user_level None (lit "add")]).

(** [iter_mut().find(..)]: the first of the name is changed. *)
Fixpoint change_user (user_name : bytes) (f : User -> User) (users : list User) : option (list User) :=
  match users with
  | [] => None
  | u :: users =>
      if named user_name u then Some (f u :: users) else cons u <$> change_user user_name f users
  end.

Definition with_set_state (u : User) (password : option bytes) (s : bytes) : User :=
  MkUser (user_user_name u) password (user_user_id u) (user_user_level u) (user_login_state u) s.

Definition modify_user (user_name password : bytes) : M unit :=
  let* l := get_users in
  match change_user user_name (fun u => with_set_state u (Some password) (lit "modify")) (user_list_of l) with
  | Some users => set_users users
  | None => fail (UserNotFound user_name)
  end.

Definition delete_user (user_name : bytes) : M unit :=
  let* l := get_users in
  match change_user user_name (fun u => with_set_state u (user_password u) (lit "delete")) (user_list_of l) with
  | Some users => set_users users
  | None => fail (UserNotFound user_name)
  end.

(** ** Snapshots ([snap.rs]) *)

Definition MAX_SNAPSHOT_BYTES : Z := 16 * 1024 * 1024.

Definition binary_chunk (m : Bc) : option (option BcPayloads) :=
  match body m with
  | Modern (MkModernMsg (Some e) p) => match binary_data e with Some 1 => Some p | _ => None end
  | _ => None
  end.

(** The message the loop ends on. Each turn takes a reception, so the
    receptions there are are fuel enough. *)
Fixpoint snap_chunks (fuel : nat) (received : bytes) (m : Bc) : M (bytes * Bc) :=
  match fuel with
  | O => fun w => (None, w)
  | S fuel =>
      if response_code (meta m) =? 200 then
        match binary_chunk m with
        | Some (Some (Binary data)) =>
            let received := received ++ data in
            if MAX_SNAPSHOT_BYTES <? len received then fail (CameraServiceUnavailable MSG_ID_SNAP 200)
            else let* m := recv in snap_chunks fuel received m
        | _ => fail (UnintelligibleReply m (lit "Expected binary data but got something else"))
        end
      else ret (received, m)
  end.

(** The last message and the length. *)
Definition snap_finish (channel num expected_size : Z) (received : bytes) (m : Bc) : M bytes :=
  if response_code (meta m) =? 201 then
    match binary_chunk m with
    | Some p =>
        let received := received ++ match p with Some (Binary data) => data | _ => [] end in
        if len received =? expected_size then ret received
        else fail (UnintelligibleReply (MkBc (MkBcMeta MSG_ID_SNAP channel 0 201 num 0x6414)
                                          (Modern (MkModernMsg None None)))
                     (lit "Snap truncated: chunk total did not match advertised picture_size"))
    | None => fail (UnintelligibleReply m (lit "Expected binary data but got something else"))
    end
  else fail (CameraServiceUnavailable (msg_id (meta m)) (response_code (meta m))).

Definition get_snapshot : M bytes :=
  let* _ := has_ability_ro (lit "preview") in
  let* num := request MSG_ID_SNAP (fun channel =>
    (Some (ext_channel channel),
     xml_body (only_snap (MkSnap (lit "1.1") channel (Some channel) 0 (Some 0) (Some (lit "main")) None None)))) in
  let* m := recv in
  let* _ := checked m in
  match xml_of m with
  | Some x =>
      match snap (elements x) with
      | Some (MkSnap _ _ _ _ _ _ (Some _) (Some expected_size)) =>
          if MAX_SNAPSHOT_BYTES <? expected_size then fail (CameraServiceUnavailable MSG_ID_SNAP 200)
          else
            let* _ := subscribe_to_id MSG_ID_SNAP in
            let* _ := drop_subscription MSG_ID_SNAP num in
            let* m := recv in
            let* fuel := (fun w => (Some (Ok (S (length (inbox w)))), w)) in
            let* (received, m) := snap_chunks fuel [] m in
            let* channel := gets cam_channel in
            snap_finish channel num expected_size received m
      | _ => fail (UnintelligibleReply m (lit "Expected Snap xml but it was not received"))
      end
  | None => fail (UnintelligibleReply m (lit "Expected Snap xml but it was not received"))
  end.

(** ** Motion ([motion.rs]) *)

Definition start_motion_query : M Z :=
  let* _ := has_ability_rw (lit "motion") in
  let* num := request MSG_ID_MOTION_REQUEST nothing in
  let* m := recv in
  let* _ := accepted m (lit "The camera did not accept the request to start motion") in
  ret num.

Inductive MotionStatus := MotionStart | MotionStop | NoChange.

Definition event_status (a : AlarmEvent) : MotionStatus :=
  if negb (bool_decide (alarm_status a = lit "none"))
     || match alarm_ai_type a with Some t => negb (bool_decide (t = lit "none")) | None => false end
  then MotionStart else MotionStop.

(** The status of a motion message: the first event of the channel decides. *)
Definition motion_status (channel : Z) (m : Bc) : MotionStatus :=
  match xml_of m with
  | Some x =>
      match List.find (fun a => alarm_channel_id a =? channel)
              (match alarm_event_list (elements x) with Some l => alarm_list_alarm_events l | None => [] end) with
      | Some a => event_status a
      | None => NoChange
      end
  | None => NoChange
  end.

(** ** Video ([stream.rs]) *)

Inductive StreamKind := MainStream | SubStream | ExternStream.

Definition stream_code (k : StreamKind) : Z := match k with MainStream => 0 | SubStream => 1 | ExternStream => 0 end.
Definition stream_handle (k : StreamKind) : Z :=
  match k with MainStream => 0 | SubStream => 256 | ExternStream => 1024 end.
Definition stream_name (k : StreamKind) : bytes :=
  match k with
  | MainStream => lit "mainStream" | SubStream => lit "subStream" | ExternStream => lit "externStream"
  end.

Definition start_message (channel num : Z) (k : StreamKind) : Bc :=
  new_bc (MkBcMeta MSG_ID_VIDEO channel (stream_code k) 0 num 0x6414) None
    (xml_body (only_preview (MkPreview xml_ver channel (stream_handle k) (Some (stream_name k))))).

Definition stop_message (channel num : Z) (k : StreamKind) : Bc :=
  new_bc (MkBcMeta MSG_ID_VIDEO_STOP channel (stream_code k) 0 num 0x6414) None
    (xml_body (only_preview (MkPreview xml_ver channel (stream_handle k) None))).

Definition may_stream : M unit :=
  let* r := outcome_of (has_ability_rw (lit "preview")) in
  match r with
  | Ok _ => ret tt
  | Err e =>
      let* r := outcome_of (has_ability_ro (lit "streamTable")) in
      match r with Ok _ => ret tt | Err _ => fail e end
  end.

(** The receptions of the stop subscription until its reply; [Silence] is the
    cancellation or the two seconds. *)
Fixpoint stop_replies (fuel : nat) : M unit :=
  match fuel with
  | O => fun w => (None, w)
  | S fuel =>
      let* r := recv_within in
      match r with
      | None => ret tt
      | Some m =>
          if msg_id (meta m) =? MSG_ID_VIDEO_STOP then checked m else stop_replies fuel
      end
  end.

(** The task [start_video] spawns. The media between the reply and the end of
    the stream are [BcMedia]'s and leave no trace here. *)
Definition video_task (num : Z) (k : StreamKind) : M unit :=
  let* _ := subscribe MSG_ID_VIDEO num in
  let* channel := gets cam_channel in
  let* _ := send (start_message channel num k) in
  let* stream_result := outcome_of (
    let* m := recv in accepted m (lit "The camera did not accept the stream start command.")) in
  let* _ := outcome_of (
    let* _ := subscribe MSG_ID_VIDEO_STOP num in
    let* channel := gets cam_channel in
    let* _ := send (stop_message channel num k) in
    let* fuel := (fun w => (Some (Ok (S (length (inbox w)))), w)) in
    stop_replies fuel) in
  match stream_result with Ok _ => ret tt | Err e => fail e end.

(** The number under which the task is spawned. *)
Definition start_video (k : StreamKind) : M Z :=
  let* _ := may_stream in
  new_message_num.

Definition stop_video (k : StreamKind) : M unit :=
  let* _ := may_stream in
  let* num := new_message_num in
  let* _ := subscribe MSG_ID_VIDEO_STOP num in
  let* channel := gets cam_channel in
  let* _ := send (stop_message channel num k) in
  let* m := recv in checked m.

(** ** Abilities, logout, keepalive *)

Definition ability_tokens (i : AbilityInfo) : list AbilityInfoToken :=
  omap (fun t => t) [ability_system i; ability_network i; ability_alarm i; ability_image i; ability_video i;
           ability_security i; ability_replay i; ability_ptz i; ability_io i; ability_streaming i].

(** The ability names with their suffix: spaces out, split at commas. *)
Definition ability_values (i : AbilityInfo) : list bytes :=
  t ← ability_tokens i; s ← token_sub_module t;
  split 44 (List.filter (fun c => negb (c =? 32)) (sub_ability_value s)).

Definition read_kind (suffix : bytes) : option ReadKind :=
  if bool_decide (suffix = lit "rw") then Some ReadWrite
  else if bool_decide (suffix = lit "ro") then Some ReadOnly
  else None.

Definition insert_ability (m : gmap bytes ReadKind) (value : bytes) : gmap bytes ReadKind :=
  match rsplit_once 95 value with
  | Some (name, suffix) => match read_kind suffix with Some k => <[name := k]> m | None => m end
  | None => m
  end.

Definition populate_abilities : M unit :=
  let* i := get_abilityinfo in
  modify (fun c => set_abilities c (fold_left insert_ability (ability_values i) (abilities c))).

(** [LoginUser { version, user_name, password, user_ver: 1, ..Default }]. *)
Definition login_user_of (user_name password : bytes) : LoginUser :=
  MkLoginUser xml_ver None user_name password 1 None None None None None None None.

Definition logout : M unit :=
  let* on := gets logged_in in
  let* _ :=
    (if on : bool then
      let* c := gets cam_credentials in
      let* num := new_message_num in
      let* _ := subscribe MSG_ID_LOGOUT num in
      let* channel := gets cam_channel in
      let* _ := send (new_bc (MkBcMeta MSG_ID_LOGOUT channel 0 0 num 0x6414) None
        (Some (BcXmlPayload (MkBcXml None (Some (login_user_of (username c) (default [] (password c))))
                               (only_login_net LoginNet_default))))) in
      ret tt
     else ret tt) in
  modify (fun c => set_logged_in c false).

(** The handler [keepalive] installs. *)
Definition keepalive_reply (m : Bc) : option Bc :=
  Some (MkBc
    (MkBcMeta MSG_ID_UDP_KEEP_ALIVE (channel_id (meta m)) (stream_type (meta m)) 200 (msg_num (meta m)) 0x6414)
    (Modern (MkModernMsg None None))).

(** ** All commands *)

Inductive command :=
| GetAbilityInfo
| GetBattery
| FloodlightManual_ (state : bool) (duration : Z)
| GetFloodlightTasks
| FloodlightTasksEnable (state : bool)
| IsFloodlightTasksEnabled
| GetLed
| IrLed (state : LightState)
| Led (state : bool)
| GetLink
| GetSupport
| GetVersion
| GetUsers
| AddUser (name password : bytes) (level : Z)
| ModifyUser (name password : bytes)
| DeleteUser (name : bytes)
| GetZoom
| ZoomTo (pos : Z)
| Ptz (d : Direction) (amount : Z)
| GetPresets
| SetPreset (id : Z) (name : bytes)
| MoveTo (id : Z)
| GetPir
| PirSet (state : bool)
| GetServices
| SetServerPort (on : option bool) (port : option Z)
| SetHttp (on : option bool) (port : option Z)
| SetHttps (on : option bool) (port : option Z)
| SetRtsp (on : option bool) (port : option Z)
| SetRtmp (on : option bool) (port : option Z)
| SetOnvif (on : option bool) (port : option Z)
| Reboot
| Siren
| Snapshot
| Motion
| Video (k : StreamKind)
| StopVideo (k : StreamKind)
| Logout.

Definition quiet {A} (m : M A) : M unit := let* _ := m in ret tt.

(** A camera's command; [Video] with the task it spawns. *)
Definition run_command (c : command) : M unit :=
  match c with
  | GetAbilityInfo => quiet get_abilityinfo
  | GetBattery => quiet battery_info
  | FloodlightManual_ state duration => set_floodlight_manual state duration
  | GetFloodlightTasks => quiet get_floodlight_tasks
  | FloodlightTasksEnable state => floodlight_tasks_enable state
  | IsFloodlightTasksEnabled => quiet is_floodlight_tasks_enabled
  | GetLed => quiet get_ledstate
  | IrLed state => irled_light_set state
  | Led state => led_light_set state
  | GetLink => quiet get_linktype
  | GetSupport => quiet get_support
  | GetVersion => quiet version
  | GetUsers => quiet get_users
  | AddUser name password level => add_user name password level
  | ModifyUser name password => modify_user name password
  | DeleteUser name => delete_user name
  | GetZoom => quiet get_zoom
  | ZoomTo pos => zoom_to pos
  | Ptz d amount => send_ptz d amount
  | GetPresets => quiet get_ptz_preset
  | SetPreset id name => set_ptz_preset id name
  | MoveTo id => moveto_ptz_preset id
  | GetPir => quiet get_pirstate
  | PirSet state => pir_set state
  | GetServices => quiet get_services
  | SetServerPort on port => set_serverport on port
  | SetHttp on port => set_http on port
  | SetHttps on port => set_https on port
  | SetRtsp on port => set_rtsp on port
  | SetRtmp on port => set_rtmp on port
  | SetOnvif on port => set_onvif on port
  | Reboot => reboot
  | Siren => siren
  | Snapshot => quiet get_snapshot
  | Motion => quiet start_motion_query
  | Video k => let* num := start_video k in video_task num k
  | StopVideo k => stop_video k
  | Logout => logout
  end.

(** The abilities the camera must have granted for a message. *)
Inductive grant := Read (name : bytes) | Write (name : bytes) | Either (a b : grant) | Free.

Fixpoint granted (a : gmap bytes ReadKind) (g : grant) : bool :=
  match g with
  | Read name => negb (bool_decide (default ReadNone (a !! name) = ReadNone))
  | Write name => bool_decide (default ReadNone (a !! name) = ReadWrite)
  | Either g g' => granted a g || granted a g'
  | Free => true
  end.

Definition needed (id : Z) : grant :=
  if id =? MSG_ID_GET_LED_STATUS then Read (lit "ledState")
  else if id =? MSG_ID_SET_LED_STATUS then Write (lit "ledState")
  else if id =? MSG_ID_VERSION then Read (lit "version")
  else if id =? MSG_ID_GET_ABILITY_SUPPORT then Read (lit "user")
  else if id =? MSG_ID_UPDATE_USER_LIST then Write (lit "user")
  else if id =? MSG_ID_GET_ZOOM_FOCUS then Read (lit "control")
  else if id =? MSG_ID_SET_ZOOM_FOCUS then Write (lit "control")
  else if id =? MSG_ID_PTZ_CONTROL then Write (lit "control")
  else if id =? MSG_ID_PTZ_CONTROL_PRESET then Write (lit "control")
  else if id =? MSG_ID_GET_PTZ_PRESET then Read (lit "control")
  else if id =? MSG_ID_GET_PIR_ALARM then Read (lit "rfAlarm")
  else if id =? MSG_ID_START_PIR_ALARM then Write (lit "rfAlarm")
  else if id =? MSG_ID_GET_SERVICE_PORTS then Read (lit "port")
  else if id =? MSG_ID_SET_SERVICE_PORTS then Write (lit "port")
  else if id =? MSG_ID_REBOOT then Write (lit "reboot")
  else if id =? MSG_ID_PLAY_AUDIO then Write (lit "siren")
  else if id =? MSG_ID_SNAP then Read (lit "preview")
  else if id =? MSG_ID_MOTION_REQUEST then Write (lit "motion")
  else if (id =? MSG_ID_VIDEO) || (id =? MSG_ID_VIDEO_STOP)
       then Either (Write (lit "preview")) (Read (lit "streamTable"))
  else if (id =? MSG_ID_GET_GENERAL) then Read (lit "general")
  else if (id =? MSG_ID_SET_GENERAL) then Write (lit "general")
  else Free.

(** ** The discipline of the commands *)

(** A message goes out on the camera's channel, as a request, with its ability
    granted, and after the subscription to its id and number. *)
Definition proper (c : BcCamera) (before : list Call) (m : Bc) : Prop :=
  channel_id (meta m) = cam_channel c /\ response_code (meta m) = 0
  /\ granted (abilities c) (needed (msg_id (meta m))) = true
  /\ In (Subscribe (msg_id (meta m)) (msg_num (meta m))) before.

Definition proper_trace (c : BcCamera) (t : list Call) : Prop :=
  forall before m rest, t = before ++ Send m :: rest -> proper c before m.

(** Channel and abilities stay, and the new part of the trace is proper. *)
Definition disciplined {A : Type} (P : gmap bytes ReadKind -> Prop) (m : M A) : Prop := forall w,
  P (abilities (cam w)) ->
  let w' := snd (m w) in
  cam_channel (cam w') = cam_channel (cam w) /\ abilities (cam w') = abilities (cam w)
  /\ exists t, trace w' = trace w ++ t /\ proper_trace (cam w) t.

Lemma proper_nil c : proper_trace c [].
Proof. intros before m rest E. by destruct before. Qed.

Lemma proper_other c x : (forall m, x <> Send m) -> proper_trace c [x].
Proof.
  intros Hx [|y before] m rest E; [injection E as E _; by apply Hx in E|].
  injection E as _ E. by destruct before.
Qed.

Lemma proper_app c t1 t2 : proper_trace c t1 -> proper_trace c t2 -> proper_trace c (t1 ++ t2).
Proof.
  intros H1 H2 before m rest E. apply app_eq_app in E as (k & [[E1 E2]|[E1 E2]]).
  - destruct k as [|x k]; [rewrite app_nil_r in E1; subst before|].
    + cbn in E2. destruct (H2 [] m rest (eq_sym E2)) as (? & ? & ? & []).
    + injection E2 as <- E2. by apply (H1 before m k).
  - destruct (H2 k m rest E2) as (Hc & Hr & Hg & Hi). subst before. split; [done|]. split; [done|]. split; [done|].
    apply in_or_app. by right.
Qed.

Lemma proper_same c c' t :
  cam_channel c' = cam_channel c -> abilities c' = abilities c -> proper_trace c' t -> proper_trace c t.
Proof. intros E1 E2 H before m rest E. specialize (H _ _ _ E). unfold proper in *. by rewrite <- E1, <- E2. Qed.

Section discipline.
Context (P : gmap bytes ReadKind -> Prop).

Lemma disc_same {A : Type} (m : M A) :
  (forall w, abilities (cam (snd (m w))) = abilities (cam w) /\ cam_channel (cam (snd (m w))) = cam_channel (cam w)
             /\ trace (snd (m w)) = trace w) ->
  disciplined P m.
Proof.
  intros H w _. destruct (H w) as (Ha & Hc & Ht). split; [done|]. split; [done|]. exists []. rewrite app_nil_r.
  split; [done|apply proper_nil].
Qed.

Lemma disc_bind {A B : Type} (m : M A) (k : A -> M B) :
  disciplined P m -> (forall a, disciplined P (k a)) -> disciplined P (let* a := m in k a).
Proof.
  intros Hm Hk w Hw. specialize (Hm w Hw). unfold bind. destruct (m w) as [[[a|e]|] w1]; cbn [snd] in *; [|done|done].
  destruct Hm as (Hc & Ha & t & Ht & Hp). destruct (Hk a w1) as (Hc' & Ha' & t' & Ht' & Hp'); [by rewrite Ha|].
  split; [by rewrite Hc'|]. split; [by rewrite Ha'|]. exists (t ++ t'). rewrite Ht', Ht, app_assoc. split; [done|].
  apply proper_app; [done|]. by apply (proper_same _ (cam w1)).
Qed.

Lemma disc_outcome_of {A : Type} (m : M A) : disciplined P m -> disciplined P (outcome_of m).
Proof. intros Hm w Hw. specialize (Hm w Hw). unfold outcome_of. by destruct (m w) as [[r|] w1]. Qed.

Lemma disc_call c : (forall m, c <> Send m) -> disciplined P (call c).
Proof.
  intros Hc w _. unfold call, record. cbn [acks].
  destruct (acks w) as [|[e|] l]; cbn;
    (split; [done|]; split; [done|]; exists [c]; split; [done|by apply proper_other]).
Qed.

Lemma disc_drop i n : disciplined P (drop_subscription i n).
Proof. intros w _. cbn. split; [done|]. split; [done|]. eexists. split; [done|by apply proper_other]. Qed.

Lemma disc_ret {A : Type} (a : A) : disciplined P (ret a).
Proof. by apply disc_same. Qed.

Lemma disc_fail {A : Type} e : disciplined P (@fail A e).
Proof. by apply disc_same. Qed.

Lemma disc_gets {A : Type} (f : BcCamera -> A) : disciplined P (gets f).
Proof. by apply disc_same. Qed.

Lemma disc_inbox {A : Type} (f : World -> A) : disciplined P (fun w => (Some (Ok (f w)), w)).
Proof. by apply disc_same. Qed.

Lemma disc_waiting {A : Type} : disciplined P (fun w => (@None (result A Error), w)).
Proof. by apply disc_same. Qed.

Lemma disc_recv : disciplined P recv.
Proof. apply disc_same. intros w. unfold recv. by destruct (inbox w) as [|[m|e|] l]. Qed.

Lemma disc_recv_within : disciplined P recv_within.
Proof.
  apply disc_same. intros w. unfold recv_within, recv, bind, ret.
  by destruct (inbox w) as [|[m|e|] l] eqn:E; cbn; rewrite ?E.
Qed.

Lemma disc_num : disciplined P new_message_num.
Proof. by apply disc_same. Qed.

Lemma disc_logged b : disciplined P (modify (fun c => set_logged_in c b)).
Proof. by apply disc_same. Qed.
End discipline.

Lemma call_result c w : exists o w', call c w = (o, w') /\ cam w' = cam w /\ trace w' = trace w ++ [c].
Proof. unfold call, record. cbn [acks]. destruct (acks w) as [|[e|] l]; eexists _, _; by split. Qed.

(** A [Send] after its subscription. *)
Lemma proper_request c i n m :
  msg_id (meta m) = i -> msg_num (meta m) = n -> channel_id (meta m) = cam_channel c -> response_code (meta m) = 0 ->
  granted (abilities c) (needed i) = true -> proper_trace c [Subscribe i n; Send m].
Proof.
  intros <- <- Hc Hr Hg before m' rest E. destruct before as [|x before]; [done|].
  destruct before as [|y before]; [|by destruct before]. injection E as <- <- _.
  split; [done|]. split; [done|]. split; [done|]. by left.
Qed.

Lemma disc_request (P : gmap bytes ReadKind -> Prop) i parts :
  (forall a, P a -> granted a (needed i) = true) -> disciplined P (request i parts).
Proof.
  intros Hg w Hw. unfold request, new_message_num, subscribe, send, gets, ret, bind.
  set (w1 := MkWorld _ _ _ _). destruct (call_result (Subscribe i (message_num (cam w))) w1) as (o & w2 & -> & C2 & T2).
  assert (cam_channel (cam w2) = cam_channel (cam w) /\ abilities (cam w2) = abilities (cam w)) as [E1 E2]
    by by rewrite C2.
  destruct o as [[u|e]|]; cbn [snd].
  2,3: split; [done|]; split; [done|]; eexists; split; [exact T2|by apply proper_other].
  destruct (parts (cam_channel (cam w2))) as [e p].
  set (m := new_bc _ e p). destruct (call_result (Send m) w2) as (o & w3 & -> & C3 & T3).
  assert (snd (match o with Some (Ok _) => (Some (@Ok Z Error (message_num (cam w))), w3)
               | Some (Err e) => (Some (Err e), w3) | None => (None, w3) end) = w3) as -> by by destruct o as [[|]|].
  rewrite C3, E1, E2. split; [done|]. split; [done|]. exists [Subscribe i (message_num (cam w)); Send m].
  split; [by rewrite T3, T2, <- app_assoc|]. apply proper_request; try done. by apply Hg.
Qed.

Lemma disc_gate_ro {A : Type} (P : gmap bytes ReadKind -> Prop) name (k : M A) :
  disciplined (fun a => P a /\ granted a (Read name) = true) k -> disciplined P (let* _ := has_ability_ro name in k).
Proof.
  intros Hk w Hw. unfold has_ability_ro, gets, bind, ret, fail, has_ability.
  destruct (default ReadNone (abilities (cam w) !! name)) eqn:E; cbn [snd].
  1,2: apply Hk; split; [done|]; cbn; by rewrite E.
  split; [done|]. split; [done|]. exists []. rewrite app_nil_r. split; [done|apply proper_nil].
Qed.

Lemma disc_gate_rw {A : Type} (P : gmap bytes ReadKind -> Prop) name (k : M A) :
  disciplined (fun a => P a /\ granted a (Write name) = true) k -> disciplined P (let* _ := has_ability_rw name in k).
Proof.
  intros Hk w Hw. unfold has_ability_rw, gets, bind, ret, fail, has_ability.
  destruct (default ReadNone (abilities (cam w) !! name)) eqn:E; cbn [snd].
  2: apply Hk; split; [done|]; cbn; by rewrite E.
  all: split; [done|]; split; [done|]; exists []; rewrite app_nil_r; split; [done|apply proper_nil].
Qed.

Lemma disc_may_stream {A : Type} (P : gmap bytes ReadKind -> Prop) (k : M A) :
  disciplined (fun a => P a /\ granted a (Either (Write (lit "preview")) (Read (lit "streamTable"))) = true) k ->
  disciplined P (let* _ := may_stream in k).
Proof.
  intros Hk w Hw. unfold may_stream, outcome_of, has_ability_rw, has_ability_ro, gets, bind, ret, fail, has_ability.
  destruct (default ReadNone (abilities (cam w) !! lit "preview")) eqn:E; cbn [snd].
  2: apply Hk; split; [done|]; cbn [granted]; by rewrite E.
  all: destruct (default ReadNone (abilities (cam w) !! lit "streamTable")) eqn:E'; cbn [snd].
  1,2,4,5: apply Hk; split; [done|]; cbn [granted]; rewrite E'; apply orb_true_r.
  all: split; [done|]; split; [done|]; exists []; rewrite app_nil_r; split; [done|apply proper_nil].
Qed.

(** A message written out, after its subscription. *)
Lemma disc_sub_send {A : Type} (P : gmap bytes ReadKind -> Prop) (f : Z -> Bc) i n (k : M A) :
  (forall c, msg_id (meta (f c)) = i /\ msg_num (meta (f c)) = n /\ channel_id (meta (f c)) = c
             /\ response_code (meta (f c)) = 0) ->
  (forall a, P a -> granted a (needed i) = true) -> disciplined P k ->
  disciplined P (let* _ := subscribe i n in let* channel := gets cam_channel in let* _ := send (f channel) in k).
Proof.
  intros Hf Hg Hk.
  assert (disciplined P (let* _ := subscribe i n in let* channel := gets cam_channel in send (f channel))) as H.
  { intros w Hw. unfold bind, subscribe, send, gets.
    destruct (call_result (Subscribe i n) w) as (o & w2 & -> & C2 & T2).
    destruct o as [[u|e]|]; cbn [snd]; rewrite ?C2;
      [|split; [done|]; split; [done|]; eexists; split; [exact T2|by apply proper_other]..].
    destruct (call_result (Send (f (cam_channel (cam w)))) w2) as (o & w3 & -> & C3 & T3). cbn [snd].
    rewrite C3, C2. split; [done|]. split; [done|]. exists [Subscribe i n; Send (f (cam_channel (cam w)))].
    split; [by rewrite T3, T2, <- app_assoc|]. destruct (Hf (cam_channel (cam w))) as (H1 & H2 & H3 & H4).
    apply (proper_request _ i n); try done. by apply Hg. }
  intros w Hw. pose proof (disc_bind P _ (fun _ => k) H (fun _ => Hk) w Hw) as H'. revert H'.
  unfold bind, gets. destruct (subscribe i n w) as [[[?|?]|] ?]; try done.
Qed.

Create HintDb disciplined.
#[export] Hint Resolve disc_ret disc_fail disc_gets disc_inbox disc_waiting disc_recv disc_recv_within disc_num
  disc_logged disc_drop disc_outcome_of : disciplined.

(** A grant the gates before have ensured. *)
Ltac granted_now :=
  intros ?a Ha; repeat match goal with H : _ /\ _ |- _ => destruct H end;
  first [reflexivity | assumption].

(** Follows the branches of a program. *)
Ltac branches :=
  repeat first
    [ match goal with
      | |- disciplined _ (bind (has_ability_ro _) _) => apply disc_gate_ro
      | |- disciplined _ (bind (has_ability_rw _) _) => apply disc_gate_rw
      | |- disciplined _ (bind may_stream _) => apply disc_may_stream
      | |- disciplined _ (bind (subscribe _ _) _) => apply disc_sub_send; [done|granted_now|]
      | |- disciplined _ (outcome_of _) => apply disc_outcome_of
      end
    | progress auto with disciplined
    | match goal with |- disciplined _ (bind _ _) => apply disc_bind; [|intros ?] end
    | apply disc_call; done
    | match goal with |- disciplined _ (if ?b then _ else _) => destruct b end
    | match goal with |- disciplined _ (match ?x with _ => _ end) => destruct x end ].

Section commands.
Context (P : gmap bytes ReadKind -> Prop).

Lemma disc_checked m : disciplined P (checked m).
Proof. unfold checked. branches. Qed.

Lemma disc_accepted m why : disciplined P (accepted m why).
Proof. unfold accepted. branches. Qed.

Lemma disc_taken {A : Type} (f : Elements -> option A) m why : disciplined P (taken f m why).
Proof. unfold taken. branches. Qed.

Lemma disc_await : disciplined P await_set_reply_with_quirk.
Proof. unfold await_set_reply_with_quirk, checked. branches. Qed.
End commands.

#[export] Hint Resolve disc_checked disc_accepted disc_taken disc_await : disciplined.

Lemma disc_query {A : Type} (P : gmap bytes ReadKind -> Prop) i parts (f : Elements -> option A) why :
  (forall a, P a -> granted a (needed i) = true) -> disciplined P (query i parts f why).
Proof. intros Hg. unfold query. apply disc_bind; [by apply disc_request|]. intros _. branches. Qed.

Lemma disc_retrying (P : gmap bytes ReadKind -> Prop) n i parts :
  (forall a, P a -> granted a (needed i) = true) -> disciplined P (retrying n i parts).
Proof.
  intros Hg. induction n as [|n IH]; cbn [retrying]; (apply disc_bind; [by apply disc_request|]; intros _); branches.
Qed.

(** Follows a program, its gates and requests included. *)
Ltac disciplined :=
  repeat first
    [ apply disc_query; granted_now | apply disc_retrying; granted_now | apply disc_request; granted_now
    | progress branches ].

Lemma disc_snap_chunks (P : gmap bytes ReadKind -> Prop) fuel received m : disciplined P (snap_chunks fuel received m).
Proof. revert received m. induction fuel as [|fuel IH]; intros received m; cbn [snap_chunks]; branches. Qed.

Lemma disc_snap_finish (P : gmap bytes ReadKind -> Prop) c n z received m :
  disciplined P (snap_finish c n z received m).
Proof. unfold snap_finish. branches. Qed.

Lemma disc_stop_replies (P : gmap bytes ReadKind -> Prop) fuel : disciplined P (stop_replies fuel).
Proof. induction fuel as [|fuel IH]; cbn [stop_replies]; branches. Qed.

#[export] Hint Resolve disc_snap_chunks disc_snap_finish disc_stop_replies : disciplined.

Section each.
Context (P : gmap bytes ReadKind -> Prop).

Lemma disc_get_users : disciplined P get_users.
Proof. unfold get_users. disciplined. Qed.

Lemma disc_set_users l : disciplined P (set_users l).
Proof. unfold set_users. disciplined. Qed.

Lemma disc_get_ledstate : disciplined P get_ledstate.
Proof. unfold get_ledstate. disciplined. Qed.

Lemma disc_set_ledstate l : disciplined P (set_ledstate l).
Proof. unfold set_ledstate. disciplined. Qed.

Lemma disc_get_pirstate : disciplined P get_pirstate.
Proof. unfold get_pirstate. disciplined. Qed.

Lemma disc_set_pirstate c : disciplined P (set_pirstate c).
Proof. unfold set_pirstate. disciplined. Qed.

Lemma disc_get_floodlight_tasks : disciplined P get_floodlight_tasks.
Proof. unfold get_floodlight_tasks. disciplined. Qed.

Lemma disc_get_zoom : disciplined P get_zoom.
Proof. unfold get_zoom. disciplined. Qed.

Lemma disc_get_services : disciplined P get_services.
Proof. unfold get_services. disciplined. Qed.

Lemma disc_set_services e : disciplined P (set_services e).
Proof. unfold set_services. disciplined. Qed.

Lemma disc_ptz_preset p : disciplined P (ptz_preset_command p).
Proof. unfold ptz_preset_command. disciplined. Qed.
End each.

#[export] Hint Resolve disc_get_users disc_set_users disc_get_ledstate disc_set_ledstate disc_get_pirstate
  disc_set_pirstate disc_get_floodlight_tasks disc_get_zoom disc_get_services disc_set_services
  disc_ptz_preset : disciplined.

Lemma disc_set_port {T : Type} (P : gmap bytes ReadKind -> Prop) (f : Elements -> option T) why only update :
  disciplined P (set_port f why only update).
Proof. unfold set_port, get_port. disciplined. Qed.

#[export] Hint Resolve disc_set_port : disciplined.


Lemma disc_start_video {A : Type} (P : gmap bytes ReadKind -> Prop) kind (k : Z -> M A) :
  (forall n, disciplined (fun a => P a /\ granted a (Either (Write (lit "preview")) (Read (lit "streamTable"))) = true)
               (k n)) ->
  disciplined P (let* n := start_video kind in k n).
Proof.
  intros Hk w Hw. pose proof (disc_may_stream P (let* n := new_message_num in k n)) as H.
  specialize (H ltac:(apply disc_bind; auto with disciplined) w Hw). revert H.
  unfold start_video, bind. by destruct (may_stream w) as [[[?|?]|] ?].
Qed.

(** C24: Whatever the camera answers, and however far a
    command gets, every message it sends is a request on the camera's own
    channel, sent after the subscription under its id and number, so that no
    reply can be missed, and only when the camera has granted the ability the
    message needs ([needed]), reading or writing. *)
Theorem commands_disciplined c w before m rest :
  trace (snd (run_command c w)) = trace w ++ before ++ Send m :: rest ->
  channel_id (meta m) = cam_channel (cam w) /\ response_code (meta m) = 0
  /\ granted (abilities (cam w)) (needed (msg_id (meta m))) = true
  /\ In (Subscribe (msg_id (meta m)) (msg_num (meta m))) before.
Proof.
  intros E. assert (disciplined (fun _ => True) (run_command c)) as H.
  { destruct c; cbn [run_command]; unfold quiet.
    all: try (unfold get_abilityinfo, battery_info, set_floodlight_manual, floodlight_tasks_enable,
      set_floodlight_tasks, is_floodlight_tasks_enabled, irled_light_set, led_light_set, get_linktype, get_support,
      version, add_user, modify_user, delete_user, zoom_to, send_ptz, get_ptz_preset, set_ptz_preset,
      moveto_ptz_preset, pir_set, set_serverport, set_http, set_https, set_rtsp, set_rtmp, set_onvif, reboot, siren,
      get_snapshot, start_motion_query; disciplined; fail).
    - apply disc_start_video. intros n. unfold video_task. disciplined.
    - unfold stop_video. disciplined.
    - unfold logout. disciplined. }
  destruct (H w I) as (_ & _ & t & Ht & Hp). rewrite Ht in E. apply app_inv_head in E. exact (Hp before m rest E).
Qed.

(** ** Refusals *)

Definition code_ok (m : Bc) : bool := (response_code (meta m) =? 200) || (response_code (meta m) =? 201).

(** The last thing received is an acceptance, or silence. *)
Definition good (u : list Reception) : Prop :=
  match rev u with Delivered m :: _ => code_ok m = true | Broken _ :: _ => False | _ => True end.

(** If it succeeds, what it took from the connection ended well; [n] of it at
    least. *)
Definition heeds {A : Type} (n : nat) (m : M A) : Prop := forall w a w',
  m w = (Some (Ok a), w') -> exists u, inbox w = u ++ inbox w' /\ good u /\ (n <= length u)%nat.

Lemma good_snoc u v : v <> [] -> good v -> good (u ++ v).
Proof.
  unfold good. intros Hv. rewrite rev_app_distr. destruct (rev v) as [|x l] eqn:E; [|done].
  apply (f_equal (@rev _)) in E. rewrite rev_involutive in E. done.
Qed.

Lemma good_app u v : good u -> good v -> good (u ++ v).
Proof. intros Hu Hv. destruct v as [|x v]; [by rewrite app_nil_r|]. by apply good_snoc. Qed.

Lemma heeds_bind {A B : Type} n (m : M A) (k : A -> M B) :
  heeds 0 m -> (forall a, heeds n (k a)) -> heeds n (let* a := m in k a).
Proof.
  intros Hm Hk w b w' E. unfold bind in E. destruct (m w) as [[[a|e]|] w1] eqn:Em; try done.
  destruct (Hm _ _ _ Em) as (u & Hu & Gu & _). destruct (Hk a _ _ _ E) as (v & Hv & Gv & Hn).
  exists (u ++ v). rewrite Hu, Hv, app_assoc. split; [done|]. split; [by apply good_app|]. rewrite length_app. lia.
Qed.

(** After a reception: a message accepted, or more received. *)
Lemma heeds_recv {A : Type} (k : Bc -> M A) :
  (forall m, heeds (if code_ok m then 0 else 1) (k m)) -> heeds 1 (let* m := recv in k m).
Proof.
  intros Hk w b w' E. unfold bind, recv in E. destruct (inbox w) as [|[m|e|] l] eqn:Ei; try done.
  destruct (Hk m _ _ _ E) as (v & Hv & Gv & Hn). cbn [inbox] in Hv. exists (Delivered m :: v). rewrite Hv.
  split; [done|]. split; [|cbn; lia]. destruct v as [|x v].
  - unfold good. cbn. destruct (code_ok m); [done|]. cbn in Hn. lia.
  - by apply (good_snoc [Delivered m] (x :: v)).
Qed.

Lemma heeds_none {A : Type} (m : M A) : (forall w, inbox (snd (m w)) = inbox w) -> heeds 0 m.
Proof.
  intros H w a w' E. specialize (H w). rewrite E in H. cbn in H. exists []. rewrite H. split; [done|]. by split; [|lia].
Qed.

Lemma heeds_fail {A : Type} n e : heeds n (@fail A e).
Proof. intros w a w' [=]. Qed.

Lemma heeds_call c : heeds 0 (call c).
Proof. apply heeds_none. intros w. unfold call. cbn. by destruct (acks w) as [|[e|] l]. Qed.

Lemma heeds_subscribe i n : heeds 0 (subscribe i n).
Proof. apply heeds_call. Qed.

Lemma heeds_subscribe_id i : heeds 0 (subscribe_to_id i).
Proof. apply heeds_call. Qed.

Lemma heeds_send m : heeds 0 (send m).
Proof. apply heeds_call. Qed.

Lemma heeds_ret {A : Type} (a : A) : heeds 0 (ret a).
Proof. by apply heeds_none. Qed.

Lemma heeds_gets {A : Type} (f : BcCamera -> A) : heeds 0 (gets f).
Proof. by apply heeds_none. Qed.

Lemma heeds_inbox {A : Type} (f : World -> A) : heeds 0 (fun w => (Some (Ok (f w)), w)).
Proof. by apply heeds_none. Qed.

Lemma heeds_waiting {A : Type} n : heeds n (fun w => (@None (result A Error), w)).
Proof. intros w a w' [=]. Qed.

Lemma heeds_drop i n : heeds 0 (drop_subscription i n).
Proof. by apply heeds_none. Qed.

Lemma heeds_num : heeds 0 new_message_num.
Proof. by apply heeds_none. Qed.

Lemma heeds_ro name : heeds 0 (has_ability_ro name).
Proof. apply heeds_bind; [apply heeds_gets|]. intros []; first [apply heeds_ret|apply heeds_fail]. Qed.

Lemma heeds_rw name : heeds 0 (has_ability_rw name).
Proof. apply heeds_bind; [apply heeds_gets|]. intros []; first [apply heeds_ret|apply heeds_fail]. Qed.

Lemma heeds_request i parts : heeds 0 (request i parts).
Proof.
  unfold request. apply heeds_bind; [apply heeds_num|]. intros n. apply heeds_bind; [apply heeds_call|]. intros _.
  apply heeds_bind; [apply heeds_gets|]. intros c. destruct (parts c). apply heeds_bind; [apply heeds_call|].
  intros _. apply heeds_ret.
Qed.

(** What only looks at a message: it fails unless the code is 200. *)
Lemma heeds_checked {A : Type} m (k : M A) n :
  (code_ok m = true -> heeds n k) -> heeds n (let* _ := checked m in k).
Proof.
  intros Hk. unfold checked, code_ok in *. destruct (_ =? 200); [|intros w a w' [=]]. exact (Hk eq_refl).
Qed.

Lemma heeds_accepted {A : Type} m why (k : M A) n :
  (code_ok m = true -> heeds n k) -> heeds n (let* _ := accepted m why in k).
Proof.
  intros Hk. unfold accepted, code_ok in *. destruct (_ =? 200); [|intros w a w' [=]]. exact (Hk eq_refl).
Qed.

Lemma heeds_taken {A : Type} (f : Elements -> option A) m why : heeds 0 (taken f m why).
Proof. unfold taken. destruct (xml_of m); [destruct (f _)|]; first [apply heeds_ret|apply heeds_fail]. Qed.

Lemma heeds_more {A : Type} n k (m : M A) : (n <= k)%nat -> heeds k m -> heeds n m.
Proof. intros Hn Hm w a w' E. destruct (Hm _ _ _ E) as (u & ? & ? & ?). exists u. repeat split; [done|done|lia]. Qed.

Lemma heeds_assoc {A B C : Type} n (m : M A) (f : A -> M B) (k : B -> M C) :
  heeds n (let* a := m in let* b := f a in k b) -> heeds n (let* b := (let* a := m in f a) in k b).
Proof. intros H w c w' E. apply (H w c w'). revert E. unfold bind. by destruct (m w) as [[[a|e]|] w1]. Qed.

Lemma heeds_checked_only m : heeds (if code_ok m then 0 else 1) (checked m).
Proof.
  intros w a w' E. unfold checked, code_ok in *. destruct (_ =? 200); [|done]. injection E as _ <-. by exists [].
Qed.

Lemma heeds_accepted_only m why : heeds (if code_ok m then 0 else 1) (accepted m why).
Proof.
  intros w a w' E. unfold accepted, code_ok in *. destruct (_ =? 200); [|done]. injection E as _ <-. by exists [].
Qed.

Lemma heeds_await : heeds 0 await_set_reply_with_quirk.
Proof.
  intros w a w' E. unfold await_set_reply_with_quirk, recv_within, recv, bind, ret in E.
  destruct (inbox w) as [|[m|e|] l] eqn:Ei; rewrite ?Ei in E; try done.
  - destruct (heeds_checked_only m _ _ _ E) as (u & Hu & Gu & Hn). cbn [inbox] in Hu. exists (Delivered m :: u).
    rewrite Hu. split; [done|]. split; [|cbn; lia]. destruct (code_ok m) eqn:Eok.
    + apply (good_app [_]); [|done]. exact Eok.
    + apply (good_snoc [_]); [|done]. intros ->. cbn in Hn. lia.
  - injection E as _ <-. exists [Silence]. split; [done|]. by split; [|cbn; lia].
Qed.

(** After a reception, whatever its code was, at least one was taken. *)
Ltac heeding_recv :=
  match goal with
  | |- heeds 0 (bind recv _) => apply (heeds_more 0 1); [lia|]; apply heeds_recv; intros ?
  | |- heeds 1 (bind recv _) => apply heeds_recv; intros ?
  | |- heeds (if _ then 0 else 1) (bind recv _) => apply (heeds_more _ 1); [destruct (code_ok _); lia|]
  | |- heeds _ (bind (checked _) _) => apply heeds_checked; intros ->
  | |- heeds _ (bind (accepted _ _) _) => apply heeds_accepted; intros ->
  | |- heeds _ (checked _) => apply heeds_checked_only
  | |- heeds _ (accepted _ _) => apply heeds_accepted_only
  end.

Create HintDb heeding.
#[export] Hint Resolve heeds_fail heeds_ret heeds_gets heeds_inbox heeds_waiting heeds_num heeds_ro heeds_rw
  heeds_request heeds_taken heeds_await heeds_subscribe heeds_subscribe_id heeds_send heeds_drop : heeding.

Ltac heeding :=
  repeat first
    [ heeding_recv
    | progress auto with heeding
    | match goal with |- heeds _ (bind _ _) => apply heeds_bind; [|intros ?] end
    | match goal with |- heeds _ (if ?b then _ else _) => destruct b end
    | match goal with |- heeds _ (match ?x with _ => _ end) => destruct x end ].

Lemma heeds_query {A : Type} i parts (f : Elements -> option A) why : heeds 0 (query i parts f why).
Proof. unfold query. heeding. Qed.

Lemma heeds_retrying n i parts : heeds 1 (retrying n i parts).
Proof.
  induction n as [|n IH]; cbn [retrying]; (apply heeds_bind; [auto with heeding|]; intros _).
  - heeding_recv. destruct (_ =? 400); heeding.
  - heeding_recv. destruct (_ =? 400); [apply (heeds_more _ 1); [by destruct (code_ok _); lia|exact IH]|]. heeding.
Qed.

Lemma heeds_retrying0 n i parts : heeds 0 (retrying n i parts).
Proof. apply (heeds_more 0 1); [lia|apply heeds_retrying]. Qed.

Lemma heeds_snap_chunks {A : Type} fuel received m (k : bytes * Bc -> M A) :
  (forall r m, heeds (if code_ok m then 0 else 1) (k (r, m))) ->
  heeds (if code_ok m then 0 else 1) (let* x := snap_chunks fuel received m in k x).
Proof.
  intros Hk. revert received m. induction fuel as [|fuel IH]; intros received m; cbn [snap_chunks].
  { intros w a w' [=]. }
  destruct (_ =? 200) eqn:E; [|exact (Hk received m)].
  destruct (binary_chunk m) as [[[x|data]|]|]; try by intros w a w' [=].
  destruct (_ <? _); [by intros w a w' [=]|]. unfold code_ok. rewrite E. cbn [orb].
  apply heeds_assoc. apply (heeds_more 0 1); [lia|]. apply heeds_recv. intros m'. apply IH.
Qed.

Lemma heeds_snap_finish c n z received m : heeds (if code_ok m then 0 else 1) (snap_finish c n z received m).
Proof.
  unfold snap_finish, code_ok. destruct (_ =? 201) eqn:E; [|by intros w a w' [=]]. rewrite orb_true_r.
  destruct (binary_chunk m) as [p|]; cbv zeta; [destruct (len _ =? _)|]; auto with heeding.
Qed.

#[export] Hint Resolve heeds_query heeds_retrying0 heeds_snap_finish : heeding.

(** What looks at the code of its last reply: all but the query for the
    presets, the video task, whose stop is best effort, and the logout. *)
Definition heeding (c : command) : bool :=
  match c with GetPresets | Video _ | Logout => false | _ => true end.

Lemma heeds_get_ledstate : heeds 0 get_ledstate.
Proof. unfold get_ledstate. heeding. Qed.
Lemma heeds_set_ledstate l : heeds 0 (set_ledstate l).
Proof. unfold set_ledstate. heeding. Qed.
Lemma heeds_get_users : heeds 0 get_users.
Proof. unfold get_users. heeding. Qed.
Lemma heeds_set_users l : heeds 0 (set_users l).
Proof. unfold set_users. heeding. Qed.
Lemma heeds_get_services : heeds 0 get_services.
Proof. unfold get_services. heeding. Qed.
Lemma heeds_set_port {T : Type} (f : Elements -> option T) why only update : heeds 0 (set_port f why only update).
Proof.
  unfold set_port, get_port, set_services. apply heeds_assoc. apply heeds_bind; [apply heeds_get_services|]. intros x.
  heeding.
Qed.
Lemma heeds_may_stream : heeds 0 may_stream.
Proof.
  apply heeds_none. intros w. unfold may_stream, outcome_of, has_ability_rw, has_ability_ro, gets, bind, ret, fail.
  repeat match goal with |- context [match has_ability ?a ?b with _ => _ end] => destruct (has_ability a b) end; done.
Qed.

Lemma heeds_battery : heeds 0 battery_info.
Proof.
  unfold battery_info. apply heeds_bind; [auto with heeding|]. intros _. heeding_recv. unfold code_ok.
  destruct (_ =? 200); [cbn [orb]|]; auto with heeding.
Qed.

Lemma heeds_snapshot : heeds 0 get_snapshot.
Proof.
  unfold get_snapshot. apply heeds_bind; [auto with heeding|]. intros _. apply heeds_bind; [auto with heeding|].
  intros num. heeding_recv. heeding_recv. destruct (xml_of _) as [x|]; [|apply heeds_fail].
  destruct (snap _) as [[? ? ? ? ? ? [?|] [n|]]|]; try apply heeds_fail. destruct (_ <? n); [apply heeds_fail|].
  apply heeds_bind; [auto with heeding|]. intros _. apply heeds_bind; [auto with heeding|]. intros _. heeding_recv.
  apply heeds_bind; [auto with heeding|]. intros fuel. apply heeds_snap_chunks. intros r m'.
  apply heeds_bind; [auto with heeding|]. intros channel. apply heeds_snap_finish.
Qed.

#[export] Hint Resolve heeds_battery heeds_snapshot heeds_get_ledstate heeds_set_ledstate heeds_get_users
  heeds_set_users heeds_get_services
  heeds_set_port heeds_may_stream : heeding.

(** C25: Three commands aside, a command that reports success has not been
    refused: the last thing it took from the camera is an acceptance (200, or
    201 for the end of a snapshot) or, where the firmware need not answer,
    silence; a 400 only counts as an invitation to ask again. The three: the query
    for the presets does not look at the code and takes a refusal that carries a list
    for an answer, the end of a video stream is best effort, and the logout does not
    wait for an answer. *)
Theorem refusal_is_error c w w' :
  heeding c = true -> run_command c w = (Some (Ok tt), w') -> exists taken, inbox w = taken ++ inbox w' /\ good taken.
Proof.
  intros Hc E. assert (heeds 0 (run_command c)) as H; [|destruct (H _ _ _ E) as (u & ? & ? & _); eauto].
  clear E. destruct c; try done; cbn [run_command]; unfold quiet.
  all: try (unfold get_abilityinfo, set_floodlight_manual, floodlight_tasks_enable, is_floodlight_tasks_enabled,
    get_floodlight_tasks, set_floodlight_tasks, irled_light_set, led_light_set, get_linktype, get_support, version,
    add_user, modify_user, delete_user, zoom_to, get_zoom, send_ptz, set_ptz_preset, moveto_ptz_preset,
    ptz_preset_command, pir_set, get_pirstate, set_pirstate, set_serverport, set_http, set_https, set_rtsp, set_rtmp,
    set_onvif, reboot, siren, start_motion_query, stop_video; heeding; fail).
Qed.

(** ** Reading, changing, writing back *)

(** The message a request sends, and the world after it when the connection
    takes both calls. *)
Definition request_message (i : Z) (parts : Z -> option Extension * option BcPayloads) (c : BcCamera) : Bc :=
  new_bc (MkBcMeta i (cam_channel c) 0 0 (message_num c) 0x6414) (fst (parts (cam_channel c)))
    (snd (parts (cam_channel c))).

Definition requested (i : Z) (parts : Z -> option Extension * option BcPayloads) (acks : list (option BcConn.Error))
    (w : World) : World :=
  MkWorld (set_message_num (cam w) (wrap 16 (message_num (cam w) + 1)))
    (trace w ++ [Subscribe i (message_num (cam w)); Send (request_message i parts (cam w))]) acks (inbox w).

Lemma run_request {A : Type} i parts (k : Z -> M A) w l :
  acks w = None :: None :: l ->
  (let* n := request i parts in k n) w = k (message_num (cam w)) (requested i parts l w).
Proof.
  intros E. unfold request, bind, new_message_num, subscribe, send, call, record, gets, ret. cbn [acks cam trace inbox].
  rewrite E. cbn [acks cam trace inbox cam_channel set_message_num]. unfold requested, request_message.
  destruct (parts (cam_channel (cam w))) as [e p]. cbn [fst snd acks cam trace inbox]. by rewrite <- app_assoc.
Qed.

Lemma run_recv {A : Type} (k : Bc -> M A) w m l :
  inbox w = Delivered m :: l -> (let* m := recv in k m) w = k m (MkWorld (cam w) (trace w) (acks w) l).
Proof. intros E. unfold bind, recv. by rewrite E. Qed.

Lemma run_ro {A : Type} name (k : M A) w :
  default ReadNone (abilities (cam w) !! name) = ReadWrite -> (let* _ := has_ability_ro name in k) w = k w.
Proof. intros E. unfold has_ability_ro, bind, gets, has_ability. by rewrite E. Qed.

Lemma run_rw {A : Type} name (k : M A) w :
  default ReadNone (abilities (cam w) !! name) = ReadWrite -> (let* _ := has_ability_rw name in k) w = k w.
Proof. intros E. unfold has_ability_rw, bind, gets, has_ability. by rewrite E. Qed.

Lemma run_checked {A : Type} m (k : M A) w : response_code (meta m) = 200 -> (let* _ := checked m in k) w = k w.
Proof. intros E. unfold checked. by rewrite E. Qed.

Lemma bind_assoc {A B C : Type} (m : M A) (f : A -> M B) (k : B -> M C) w :
  (let* b := (let* a := m in f a) in k b) w = (let* a := m in let* b := f a in k b) w.
Proof. unfold bind. by destruct (m w) as [[[a|e]|] w1]. Qed.

(** The commands that read a block and write it back changed: the two ids,
    the extensions they carry, and the block written for the one read. *)
Record change := MkChange {
  read_id : Z;
  read_ext : Z -> option Extension;
  write_id : Z;
  write_ext : Z -> option Extension;
  changed : Elements -> option Elements
}.

Definition channel_ext (c : Z) : option Extension := Some (ext_channel c).
Definition rf_ext (c : Z) : option Extension := Some (ext_rf c).
Definition no_ext (c : Z) : option Extension := None.

Definition port_change {P : Type} (field : Elements -> option P) (only : P -> Elements) (update : P -> P) : change :=
  MkChange MSG_ID_GET_SERVICE_PORTS no_ext MSG_ID_SET_SERVICE_PORTS no_ext
    (fun e => p ← field e; Some (only (update p))).

Definition users_change (f : list User -> option (list User)) : change :=
  MkChange MSG_ID_GET_ABILITY_SUPPORT (fun _ => Some (ext_user (lit "admin") None)) MSG_ID_UPDATE_USER_LIST no_ext
    (fun e => l ← user_list e; users ← f (user_list_of l);
       Some (only_user_list (MkUserList (lit "1.1") (Some users)))).

Definition led_change (f : LedState -> LedState) : change :=
  MkChange MSG_ID_GET_LED_STATUS channel_ext MSG_ID_SET_LED_STATUS channel_ext
    (fun e => l ← led_state e; Some (only_led_state (f l))).

(** The first user of the name, changed where it stands. *)
Definition first_changed (name : bytes) (f : User -> User) (l : list User) : option (list User) :=
  '(i, u) ← list_find (fun u => user_user_name u = name) l; Some (<[i := f u]> l).

Lemma change_user_first name f l : change_user name f l = first_changed name f l.
Proof.
  unfold first_changed. induction l as [|u l IH]; [done|]. cbn [change_user list_find]. rewrite IH. unfold named.
  destruct (decide (user_user_name u = name)); [by rewrite bool_decide_eq_true_2|]. rewrite bool_decide_eq_false_2 by done.
  by destruct (list_find _ l) as [[i v]|].
Qed.

(** What a command is to change: nothing else of the block, but for the
    [ledVersion], which is not sent back. *)
Definition change_of (c : command) : option change :=
  match c with
  | Led on => Some (led_change (fun l =>
      MkLedState (leds_version l) (leds_channel_id l) None (leds_state l) (if on then lit "open" else lit "close")))
  | IrLed s => Some (led_change (fun l =>
      MkLedState (leds_version l) (leds_channel_id l) None
        (match s with LightOn => lit "open" | LightOff => lit "close" | LightAuto => lit "auto" end)
        (leds_light_state l)))
  | PirSet on => Some (MkChange MSG_ID_GET_PIR_ALARM rf_ext MSG_ID_START_PIR_ALARM rf_ext
      (fun e => r ← rf_alarm_cfg e; Some (only_rf_alarm_cfg (with_rf_enable r (if on then 1 else 0)))))
  | FloodlightTasksEnable on => Some (MkChange MSG_ID_FLOODLIGHT_TASKS_READ channel_ext
      MSG_ID_FLOODLIGHT_TASKS_WRITE channel_ext
      (fun e => t ← floodlight_task e;
         let want := if on then 1 else 0 in
         if task_enable t =? want then None else Some (only_floodlight_task (with_task_enable t want))))
  | SetServerPort on port => Some (port_change server_port only_server_port (fun p =>
      MkServerPort (server_port_version p) (default (server_port_port p) port)
        (new_enable on (server_port_enable p))))
  | SetHttp on port => Some (port_change http_port only_http_port (fun p =>
      MkHttpPort (http_port_version p) (default (http_port_port p) port) (new_enable on (http_port_enable p))))
  | SetHttps on port => Some (port_change https_port only_https_port (fun p =>
      MkHttpsPort (https_port_version p) (default (https_port_port p) port) (new_enable on (https_port_enable p))))
  | SetRtsp on port => Some (port_change rtsp_port only_rtsp_port (fun p =>
      MkRtspPort (rtsp_port_version p) (default (rtsp_port_port p) port) (new_enable on (rtsp_port_enable p))))
  | SetRtmp on port => Some (port_change rtmp_port only_rtmp_port (fun p =>
      MkRtmpPort (rtmp_port_version p) (default (rtmp_port_port p) port) (new_enable on (rtmp_port_enable p))))
  | SetOnvif on port => Some (port_change onvif_port only_onvif_port (fun p =>
      MkOnvifPort (onvif_port_version p) (default (onvif_port_port p) port) (new_enable on (onvif_port_enable p))))
  | AddUser name password level => Some (users_change (fun l =>
      if existsb (named name) l then None
      else Some (l ++ [MkUser name (Some password) None level None (lit "add")])))
  | ModifyUser name password =>
      Some (users_change (first_changed name (fun u => with_set_state u (Some password) (lit "modify"))))
  | DeleteUser name =>
      Some (users_change (first_changed name (fun u => with_set_state u (user_password u) (lit "delete"))))
  | _ => None
  end.

(** The request for the block, and the one that writes it back. *)
Definition block_request (ch : change) (c : BcCamera) : list Call :=
  [Subscribe (read_id ch) (message_num c);
   Send (request_message (read_id ch) (fun channel => (read_ext ch channel, None)) c)].

Definition block_write (ch : change) (e : Elements) (c : BcCamera) : list Call :=
  let c := set_message_num c (wrap 16 (message_num c + 1)) in
  [Subscribe (write_id ch) (message_num c);
   Send (request_message (write_id ch) (fun channel => (write_ext ch channel, xml_body e)) c)].

Section change.
Context (w : World) (reply : Bc) (x : BcXml Elements) (r : list Reception) (l : list (option BcConn.Error)).
Hypothesis Ha : acks w = None :: None :: None :: None :: l.
Hypothesis Hi : inbox w = Delivered reply :: r.
Hypothesis Hc : response_code (meta reply) = 200.
Hypothesis Hx : xml_of reply = Some x.

(** The world once the block is read. *)
Definition block_read (i : Z) (parts : Z -> option Extension * option BcPayloads) : World :=
  let w := requested i parts (None :: None :: l) w in MkWorld (cam w) (trace w) (acks w) r.

Lemma run_query {A B : Type} i parts (f : Elements -> option A) why (k : A -> M B) :
  (let* a := query i parts f why in k a) w
  = match f (elements x) with
    | Some a => k a (block_read i parts)
    | None => (Some (Err (UnintelligibleReply reply why)), block_read i parts)
    end.
Proof.
  unfold query. rewrite bind_assoc, (run_request i parts _ w (None :: None :: l)) by done.
  rewrite bind_assoc, (run_recv _ _ reply r) by done. rewrite bind_assoc, run_checked by done.
  unfold taken. rewrite Hx. unfold bind. by destruct (f (elements x)).
Qed.

Lemma run_retrying {B : Type} n i parts (k : Bc -> M B) :
  (let* m := retrying n i parts in k m) w = k reply (block_read i parts).
Proof.
  destruct n; cbn [retrying]; rewrite bind_assoc, (run_request i parts _ w (None :: None :: l)) by done;
    rewrite bind_assoc, (run_recv _ _ reply r) by done; rewrite Hc; cbn [Z.eqb Pos.eqb]; rewrite bind_assoc;
    by rewrite run_checked.
Qed.

(** A write leaves its request in the trace, whatever comes of it. *)
Lemma trace_write i j parts parts' (k : M unit) :
  (forall w, trace (snd (k w)) = trace w) ->
  trace (snd ((let* _ := request j parts' in k) (block_read i parts)))
  = trace w ++ [Subscribe i (message_num (cam w)); Send (request_message i parts (cam w))]
    ++ let c := set_message_num (cam w) (wrap 16 (message_num (cam w) + 1)) in
       [Subscribe j (message_num c); Send (request_message j parts' c)].
Proof.
  intros Hk. rewrite (run_request j parts' _ _ l) by done. rewrite Hk. cbn [requested block_read trace cam].
  by rewrite <- app_assoc.
Qed.

Lemma abilities_read i parts : abilities (cam (block_read i parts)) = abilities (cam w).
Proof. done. Qed.
End change.

Lemma trace_checked m w : trace (snd (checked m w)) = trace w.
Proof. unfold checked. by destruct (_ =? 200). Qed.

Lemma trace_await w : trace (snd (await_set_reply_with_quirk w)) = trace w.
Proof.
  unfold await_set_reply_with_quirk, recv_within, recv, bind, ret.
  destruct (inbox w) as [|[m|e|] l] eqn:E; rewrite ?E; cbn; rewrite ?E; try done. by rewrite trace_checked.
Qed.

Lemma trace_recv_checked w : trace (snd ((let* m := recv in checked m) w)) = trace w.
Proof. unfold bind, recv. destruct (inbox w) as [|[m|e|] l]; [done| |done..]. by rewrite trace_checked. Qed.

(** One lemma per way of reading and writing. *)
Ltac wrote := rewrite trace_write by (first [assumption | apply trace_await | apply trace_recv_checked]); done.
Ltac wrote_nothing := cbn; by rewrite ?app_nil_r.

Section families.
Context (w : World) (reply : Bc) (x : BcXml Elements) (r : list Reception) (l : list (option BcConn.Error)).
Hypothesis Ha : acks w = None :: None :: None :: None :: l.
Hypothesis Hi : inbox w = Delivered reply :: r.
Hypothesis Hc : response_code (meta reply) = 200.
Hypothesis Hx : xml_of reply = Some x.

Definition did (ch : change) (m : M unit) : Prop :=
  trace (snd (m w))
  = trace w ++ block_request ch (cam w)
    ++ match changed ch (elements x) with Some e => block_write ch e (cam w) | None => [] end.

Lemma led_did f :
  default ReadNone (abilities (cam w) !! lit "ledState") = ReadWrite ->
  did (led_change (fun s => let s := f s in
    MkLedState (leds_version s) (leds_channel_id s) None (leds_state s) (leds_light_state s)))
    (let* s := get_ledstate in set_ledstate (f s)).
Proof.
  intros Hg. unfold did, get_ledstate. rewrite bind_assoc, run_ro by done.
  rewrite (run_query w reply x r l) by done. cbn [changed led_change].
  destruct (led_state (elements x)) as [s|]; [|wrote_nothing]. unfold set_ledstate. rewrite run_rw by done. wrote.
Qed.

Lemma port_did {P : Type} (field : Elements -> option P) why only update :
  default ReadNone (abilities (cam w) !! lit "port") = ReadWrite ->
  did (port_change field only update) (set_port field why only update).
Proof.
  intros Hg. unfold did, set_port, get_port, get_services. rewrite !bind_assoc, run_ro by done. rewrite bind_assoc.
  rewrite (run_retrying w reply r l) by done. unfold bind at 1. rewrite Hx. cbn [changed port_change ret].
  unfold bind at 1. destruct (field (elements x)) as [p|]; [|wrote_nothing].
  unfold set_services. cbn [ret]. rewrite run_rw by done. wrote.
Qed.

Lemma users_did (f : list User -> option (list User)) e :
  default ReadNone (abilities (cam w) !! lit "user") = ReadWrite ->
  did (users_change f)
    (let* l := get_users in match f (user_list_of l) with Some users => set_users users | None => fail e end).
Proof.
  intros Hg. unfold did, get_users. rewrite bind_assoc, run_ro by done.
  rewrite (run_query w reply x r l) by done. cbn [changed users_change].
  destruct (user_list (elements x)) as [ul|]; [|wrote_nothing]. cbn [mbind option_bind].
  destruct (f (user_list_of ul)) as [users|]; [|wrote_nothing]. cbn [mbind option_bind].
  unfold set_users. rewrite run_rw by done. wrote.
Qed.

Lemma change_user_did name f e :
  default ReadNone (abilities (cam w) !! lit "user") = ReadWrite ->
  did (users_change (first_changed name f))
    (let* l := get_users in
     match change_user name f (user_list_of l) with Some users => set_users users | None => fail e end).
Proof.
  intros Hg. pose proof (users_did (change_user name f) e Hg) as H. unfold did in *. rewrite H.
  cbn [changed users_change]. destruct (user_list _) as [ul|]; [|done]. cbn [mbind option_bind].
  by rewrite change_user_first.
Qed.

Lemma pir_did on :
  default ReadNone (abilities (cam w) !! lit "rfAlarm") = ReadWrite ->
  did (MkChange MSG_ID_GET_PIR_ALARM rf_ext MSG_ID_START_PIR_ALARM rf_ext
      (fun e => c ← rf_alarm_cfg e; Some (only_rf_alarm_cfg (with_rf_enable c (if on : bool then 1 else 0))))) (pir_set on).
Proof.
  intros Hg. unfold did, pir_set, get_pirstate. rewrite bind_assoc, run_ro by done. rewrite bind_assoc.
  rewrite (run_retrying w reply r l) by done. unfold bind at 1, taken. rewrite Hx. cbn [changed].
  destruct (rf_alarm_cfg (elements x)) as [c|]; [|wrote_nothing].
  unfold set_pirstate. cbn [ret]. rewrite run_rw by done. wrote.
Qed.
Lemma add_user_did name password level :
  default ReadNone (abilities (cam w) !! lit "user") = ReadWrite ->
  did (users_change (fun l => if existsb (named name) l then None
                              else Some (l ++ [MkUser name (Some password) None level None (lit "add")])))
    (add_user name password level).
Proof.
  intros Hg. pose proof (users_did (fun l => if existsb (named name) l then None
    else Some (l ++ [MkUser name (Some password) None level None (lit "add")])) (UserAlreadyExists name) Hg) as H.
  unfold did in *. rewrite <- H. unfold add_user, bind. destruct (get_users w) as [[[ul|e]|] w1]; try done.
  by destruct (existsb (named name) (user_list_of ul)).
Qed.

Lemma floodlight_did on :
  did (MkChange MSG_ID_FLOODLIGHT_TASKS_READ channel_ext MSG_ID_FLOODLIGHT_TASKS_WRITE channel_ext
      (fun e => t ← floodlight_task e;
         let want := if on : bool then 1 else 0 in
         if task_enable t =? want then None else Some (only_floodlight_task (with_task_enable t want))))
    (floodlight_tasks_enable on).
Proof.
  unfold did, floodlight_tasks_enable, get_floodlight_tasks. rewrite (run_query w reply x r l) by done. cbn [changed].
  destruct (floodlight_task (elements x)) as [t|]; [|wrote_nothing]. cbn [mbind option_bind].
  destruct (task_enable t =? _); [wrote_nothing|]. unfold set_floodlight_tasks. wrote.
Qed.
End families.

(** C26: Every command that changes one setting of a
    block, led, infrared light, motion sensor, floodlight schedule, the six
    service ports, the user list, asks for the block, and once it has it sends
    back the block it got with that setting changed and nothing else, under the next
    message number, but for two fields: the [ledVersion] of the lights is left out and
    the user list is sent as version 1.1; when there is nothing to change (no such block, user
    missing or already there, schedule already so) it sends nothing more. *)
Theorem read_modify_write c ch w reply x r l :
  change_of c = Some ch -> granted (abilities (cam w)) (needed (write_id ch)) = true ->
  acks w = None :: None :: None :: None :: l -> inbox w = Delivered reply :: r ->
  response_code (meta reply) = 200 -> xml_of reply = Some x ->
  trace (snd (run_command c w))
  = trace w ++ block_request ch (cam w)
    ++ match changed ch (elements x) with Some e => block_write ch e (cam w) | None => [] end.
Proof.
  intros Hch Hg Ha Hi Hc Hx.
  destruct c; try done; injection Hch as <-; cbn [write_id led_change port_change users_change] in Hg;
    try (apply bool_decide_eq_true in Hg); cbn [run_command].
  all: first
    [ apply (floodlight_did w reply x r l); done
    | apply (led_did w reply x r l Ha Hi Hc Hx (fun s => MkLedState _ _ (leds_led_version s) _ _)); done
    | apply (add_user_did w reply x r l); done
    | apply (change_user_did w reply x r l); done
    | apply (pir_did w reply x r l); done
    | apply (port_did w reply x r l); done ].
Qed.

(** ** A session *)

Definition toy_credentials : Credentials := MkCredentials (lit "admin") (Some (lit "pw")).

Definition toy_cam : BcCamera :=
  MkBcCamera 0 true 65535 toy_credentials
    (list_to_map [(lit "ledState", ReadWrite); (lit "control", ReadWrite); (lit "preview", ReadOnly)])
    false None None None None None None.

Definition toy_reply (id code : Z) (e : Elements) : Bc :=
  MkBc (MkBcMeta id 0 0 code 0 0x6414) (Modern (MkModernMsg None (xml_body e))).

Definition toy_led : LedState := MkLedState (lit "1") 0 (Some 2) (lit "auto") (lit "open").

(** The led is read and written back, the camera silent on the write. *)
Definition toy_world : World :=
  MkWorld toy_cam [] [None; None; None; None]
    [Delivered (toy_reply MSG_ID_GET_LED_STATUS 200 (only_led_state toy_led)); Silence].

Definition toy_written : LedState := MkLedState (lit "1") 0 None (lit "auto") (lit "close").

Example led_runs :
  run_command (Led false) toy_world
  = (Some (Ok tt),
     MkWorld (set_message_num toy_cam 1)
       [Subscribe 208 65535; Send (new_bc (MkBcMeta 208 0 0 0 65535 0x6414) (Some (ext_channel 0)) None);
        Subscribe 209 0; Send (new_bc (MkBcMeta 209 0 0 0 0 0x6414) (Some (ext_channel 0))
                                 (xml_body (only_led_state toy_written)))] [] []).
Proof. vm_compute. reflexivity. Qed.

Lemma commands_disciplined_witness :
  granted (abilities toy_cam) (Write (lit "ledState")) = true
  /\ In (Subscribe 209 0) [Subscribe 208 65535; Send (request_message 208 by_channel toy_cam); Subscribe 209 0].
Proof.
  pose proof (commands_disciplined (Led false) toy_world
    [Subscribe 208 65535; Send (request_message 208 by_channel toy_cam); Subscribe 209 0]
    (new_bc (MkBcMeta 209 0 0 0 0 0x6414) (Some (ext_channel 0)) (xml_body (only_led_state toy_written))) []) as H.
  destruct H as (_ & _ & Hg & Hi); [vm_compute; reflexivity|]. split; [exact Hg|exact Hi].
Defined.

Lemma refusal_is_error_witness : exists taken, inbox toy_world = taken ++ [] /\ good taken.
Proof.
  apply (refusal_is_error (Led false) toy_world (snd (run_command (Led false) toy_world))); [reflexivity|].
  vm_compute. reflexivity.
Defined.

Lemma read_modify_write_witness :
  trace (snd (run_command (Led false) toy_world))
  = [Subscribe 208 65535; Send (new_bc (MkBcMeta 208 0 0 0 65535 0x6414) (Some (ext_channel 0)) None);
     Subscribe 209 0; Send (new_bc (MkBcMeta 209 0 0 0 0 0x6414) (Some (ext_channel 0))
                              (xml_body (only_led_state toy_written)))].
Proof.
  rewrite (read_modify_write (Led false) (led_change (fun l =>
      MkLedState (leds_version l) (leds_channel_id l) None (leds_state l) (lit "close"))) toy_world
    (toy_reply MSG_ID_GET_LED_STATUS 200 (only_led_state toy_led)) (MkBcXml None None (only_led_state toy_led))
    [Silence] []); try reflexivity.
Defined.

(** ** The picture *)

Definition is_chunk (m : Bc) (d : bytes) : Prop :=
  response_code (meta m) = 200 /\ binary_chunk m = Some (Some (Binary d)).

Definition tail_of (p : option BcPayloads) : bytes := match p with Some (Binary data) => data | _ => [] end.

(** The message before [last]: the first of those still to come. *)
Lemma run_chunks r last ms ds : Forall2 is_chunk ms ds -> response_code (meta last) <> 200 ->
  forall received fuel w m rest, len (received ++ concat ds) <= MAX_SNAPSHOT_BYTES -> (length ms < fuel)%nat ->
  ms ++ [last] = m :: rest -> inbox w = map Delivered rest ++ r ->
  snap_chunks fuel received m w = (Some (Ok (received ++ concat ds, last)), MkWorld (cam w) (trace w) (acks w) r).
Proof.
  intros Hms Hlast. induction Hms as [|m0 d ms ds [Hc Hd] _ IH]; intros received [|fuel] w m rest Hn Hf E Hi;
    try (cbn in Hf; lia); cbn [snap_chunks concat app] in *; injection E as -> E.
  - subst rest. rewrite (proj2 (Z.eqb_neq _ _)) by done. rewrite app_nil_r. destruct w. cbn in *. by subst.
  - rewrite Hc, Hd. cbn [Z.eqb Pos.eqb]. rewrite app_assoc in *.
    destruct (Z.ltb_spec MAX_SNAPSHOT_BYTES (len (received ++ d))) as [Hlt|_].
    { rewrite len_app in Hn. pose proof (len_nonneg (concat ds)). lia. }
    destruct rest as [|m' rest]; [by destruct ms|]. rewrite (run_recv _ _ m' (map Delivered rest ++ r)) by done.
    by rewrite (IH (received ++ d) fuel _ m' rest) by (cbn in Hf; first [done | lia]).
Qed.

Lemma run_picture num n w ms ds last l r :
  Forall2 is_chunk ms ds -> response_code (meta last) <> 200 -> len (concat ds) <= MAX_SNAPSHOT_BYTES ->
  acks w = None :: l -> inbox w = map Delivered (ms ++ [last]) ++ r ->
  exists w', (let* _ := subscribe_to_id MSG_ID_SNAP in
   let* _ := drop_subscription MSG_ID_SNAP num in
   let* m := recv in
   let* fuel := (fun w => (Some (Ok (S (length (inbox w)))), w)) in
   let* (received, m) := snap_chunks fuel [] m in
   let* channel := gets cam_channel in
   snap_finish channel num n received m) w = snap_finish (cam_channel (cam w)) num n (concat ds) last w'.
Proof.
  intros Hms Hlast Hn Ha Hi. unfold subscribe_to_id, drop_subscription, call. unfold bind at 1. cbn [record acks].
  rewrite Ha. cbn [cam trace inbox]. unfold bind at 1, record. cbn [cam trace inbox acks].
  destruct (ms ++ [last]) as [|m rest] eqn:E; [by destruct ms|]. rewrite (run_recv _ _ m (map Delivered rest ++ r)) by done.
  unfold bind at 1. cbn [cam trace inbox acks]. unfold bind at 1.
  assert (length ms = length rest) as El by (apply (f_equal (@length _)) in E; rewrite length_app in E; cbn in E; lia).
  rewrite (run_chunks r last ms ds Hms Hlast [] _ _ m rest); try done.
  - eexists. unfold bind, gets. cbn [cam app]. reflexivity.
  - cbn [inbox]. rewrite length_app, length_map. lia.
Qed.

(** Once the camera has advertised a picture, named
    and of a size within the cap, and sent it in any number of chunks, all
    but the last under code 200, the snapshot is the concatenation of the chunks
    when that is of the advertised size, and an error otherwise; never a truncated
    picture. *)
Theorem snapshot_exact w info x s name n ms ds last p l r :
  granted (abilities (cam w)) (needed MSG_ID_SNAP) = true -> acks w = None :: None :: None :: l ->
  inbox w = map Delivered (info :: ms ++ [last]) ++ r ->
  response_code (meta info) = 200 -> xml_of info = Some x -> snap (elements x) = Some s ->
  snap_file_name s = Some name -> snap_picture_size s = Some n -> n <= MAX_SNAPSHOT_BYTES ->
  Forall2 is_chunk ms ds -> len (concat ds) <= MAX_SNAPSHOT_BYTES ->
  response_code (meta last) = 201 -> binary_chunk last = Some p ->
  let picture := concat ds ++ tail_of p in
  if len picture =? n then fst (get_snapshot w) = Some (Ok picture)
  else exists e, fst (get_snapshot w) = Some (Err e).
Proof.
  intros Hg Ha Hi Hc Hx Hs Hname Hsize Hn Hms Hcap Hlast Hp picture.
  destruct s as [s1 s2 s3 s4 s5 s6 [name'|] [n'|]]; try done. cbn in Hsize. injection Hsize as ->.
  assert (exists w', get_snapshot w = snap_finish (cam_channel (cam w)) (message_num (cam w)) n (concat ds) last w')
    as [w' ->].
  { unfold get_snapshot, has_ability_ro, gets, has_ability. change (needed MSG_ID_SNAP) with (Read (lit "preview")) in Hg.
    cbn [granted] in Hg. unfold bind at 1 2.
    destruct (default ReadNone (abilities (cam w) !! lit "preview")); [| |done]; unfold ret.
    all: rewrite (run_request MSG_ID_SNAP _ _ w (None :: l)) by done.
    all: rewrite (run_recv _ _ info (map Delivered (ms ++ [last]) ++ r)) by exact Hi.
    all: rewrite run_checked by done; rewrite Hx, Hs; rewrite (proj2 (Z.ltb_ge _ _)) by lia.
    all: edestruct run_picture as [w' Hw']; [exact Hms|by rewrite Hlast|exact Hcap| | |eexists; exact Hw']; reflexivity. }
  unfold snap_finish. rewrite Hlast, Hp. cbn [Z.eqb Pos.eqb]. fold (tail_of p) picture. destruct (len picture =? n).
  - done.
  - by eexists.
Qed.

Definition toy_chunk (code : Z) (d : bytes) : Bc :=
  MkBc (MkBcMeta MSG_ID_SNAP 0 0 code 9 0x6414)
    (Modern (MkModernMsg (Some (MkExtension xml_ver (Some 1) None None None None None None None)) (Some (Binary d)))).

Definition toy_snap : Snap := MkSnap (lit "1.1") 0 None 0 None None (Some (lit "a.jpg")) (Some 5).

Lemma snapshot_exact_witness :
  fst (get_snapshot (MkWorld toy_cam [] [None; None; None]
    (map Delivered [toy_reply MSG_ID_SNAP 200 (only_snap toy_snap); toy_chunk 200 [1; 2]; toy_chunk 200 [3];
                    toy_chunk 201 [4; 5]])))
  = Some (Ok [1; 2; 3; 4; 5]).
Proof.
  apply (snapshot_exact (MkWorld toy_cam [] [None; None; None]
    (map Delivered [toy_reply MSG_ID_SNAP 200 (only_snap toy_snap); toy_chunk 200 [1; 2]; toy_chunk 200 [3];
                    toy_chunk 201 [4; 5]])) (toy_reply MSG_ID_SNAP 200 (only_snap toy_snap))
    (MkBcXml None None (only_snap toy_snap)) toy_snap (lit "a.jpg") 5
    [toy_chunk 200 [1; 2]; toy_chunk 200 [3]] [[1; 2]; [3]] (toy_chunk 201 [4; 5]) (Some (Binary [4; 5])) [] []);
    try reflexivity.
  - unfold MAX_SNAPSHOT_BYTES. lia.
  - repeat constructor.
  - vm_compute. discriminate.
Defined.

(** ** Abilities *)

Definition names (name value : bytes) : bool :=
  bool_decide (value = name ++ lit "_rw") || bool_decide (value = name ++ lit "_ro").

(** The last value for a name decides. *)
Definition last_ability (name : bytes) (values : list bytes) (before : ReadKind) : ReadKind :=
  match List.find (names name) (rev values) with
  | Some value => if bool_decide (value = name ++ lit "_rw") then ReadWrite else ReadOnly
  | None => before
  end.

Lemma rsplit_suffix (name suffix : bytes) :
  Forall (fun x => x <> 95) suffix -> rsplit_once 95 (name ++ 95 :: suffix) = Some (name, suffix).
Proof. apply rsplit_once_last. Qed.

Lemma insert_ability_spec m name value :
  default ReadNone (insert_ability m value !! name)
  = if names name value then if bool_decide (value = name ++ lit "_rw") then ReadWrite else ReadOnly
    else default ReadNone (m !! name).
Proof.
  unfold names. destruct (decide (value = name ++ lit "_rw")) as [->|Hrw].
  { rewrite bool_decide_eq_true_2 by done. unfold insert_ability. change (lit "_rw") with (95 :: lit "rw").
    rewrite rsplit_suffix by lit_check. change (read_kind (lit "rw")) with (Some ReadWrite). cbn [orb].
    by rewrite lookup_insert_eq. }
  rewrite (bool_decide_eq_false_2 (value = name ++ lit "_rw")) by done. cbn [orb].
  destruct (decide (value = name ++ lit "_ro")) as [->|Hro].
  { rewrite bool_decide_eq_true_2 by done. unfold insert_ability. change (lit "_ro") with (95 :: lit "ro").
    rewrite rsplit_suffix by lit_check. change (read_kind (lit "ro")) with (Some ReadOnly). cbn [orb].
    by rewrite lookup_insert_eq. }
  rewrite (bool_decide_eq_false_2 (value = name ++ lit "_ro")) by done. unfold insert_ability.
  destruct (rsplit_once 95 value) as [[n suffix]|] eqn:E; [|done]. apply rsplit_once_some in E as ->.
  unfold read_kind. destruct (decide (suffix = lit "rw")) as [->|]; [|destruct (decide (suffix = lit "ro")) as [->|]].
  - rewrite bool_decide_eq_true_2 by done. rewrite lookup_insert_ne; [done|]. by intros ->.
  - rewrite bool_decide_eq_false_2 by done. rewrite bool_decide_eq_true_2 by done. rewrite lookup_insert_ne; [done|].
    by intros ->.
  - by rewrite !bool_decide_eq_false_2 by done.
Qed.

Lemma find_snoc {A : Type} (f : A -> bool) l x :
  List.find f (l ++ [x]) = match List.find f l with Some y => Some y | None => if f x then Some x else None end.
Proof. induction l as [|y l IH]; [done|]. cbn. destruct (f y); [done|exact IH]. Qed.

Lemma insert_abilities_spec name values m :
  default ReadNone (fold_left insert_ability values m !! name) = last_ability name values (default ReadNone (m !! name)).
Proof.
  unfold last_ability. revert m. induction values as [|v values IH]; intros m; [done|]. cbn [fold_left rev].
  rewrite IH, find_snoc, insert_ability_spec. destruct (List.find _ (rev values)); [done|]. by destruct (names name v).
Qed.

(** After the login a command that writes passes its
    gate exactly when the last value the camera reported for the ability, with
    blanks dropped and commas as separators, is its name with [_rw]; one that
    reads, when it is its name with [_rw] or [_ro]; what is not reported keeps
    what it had. *)
Theorem abilities_exact w reply x i name l r :
  acks w = None :: None :: l -> inbox w = Delivered reply :: r -> response_code (meta reply) = 200 ->
  xml_of reply = Some x -> ability_info (elements x) = Some i ->
  let w' := snd (populate_abilities w) in
  let kind := last_ability name (ability_values i) (has_ability (cam w) name) in
  fst (populate_abilities w) = Some (Ok tt) /\ has_ability (cam w') name = kind
  /\ (fst (has_ability_rw name w') = Some (Ok tt) <-> kind = ReadWrite)
  /\ (fst (has_ability_ro name w') = Some (Ok tt) <-> kind <> ReadNone).
Proof.
  intros Ha Hi Hc Hx Hab w' kind.
  assert (fst (populate_abilities w) = Some (Ok tt) /\ has_ability (cam w') name = kind) as [E1 E2].
  { unfold w', populate_abilities, get_abilityinfo. rewrite !bind_assoc. unfold bind at 1 3, gets.
    unfold query. rewrite !bind_assoc.
    rewrite (run_request _ _ _ w l) by done. rewrite bind_assoc, (run_recv _ _ reply r) by done.
    rewrite bind_assoc, run_checked by done. unfold bind, taken. rewrite Hx, Hab. cbn [ret]. split; [done|].
    unfold has_ability. cbn. rewrite insert_abilities_spec. done. }
  split; [done|]. split; [done|]. rewrite <- E2. unfold has_ability_rw, has_ability_ro, bind, gets.
  destruct (has_ability (cam w') name); by split; split.
Qed.

Definition toy_abilities : AbilityInfo :=
  MkAbilityInfo (lit "admin") (Some (MkAbilityInfoToken [MkAbilityInfoSubModule None (lit "reboot_ro, version_ro, reboot_rw")]))
    None None None None None None None None None.

Lemma abilities_exact_witness :
  fst (has_ability_rw (lit "reboot") (snd (populate_abilities (MkWorld toy_cam [] [None; None]
    [Delivered (toy_reply MSG_ID_ABILITY_INFO 200 (only_ability_info toy_abilities))])))) = Some (Ok tt).
Proof.
  apply (abilities_exact _ (toy_reply MSG_ID_ABILITY_INFO 200 (only_ability_info toy_abilities))
    (MkBcXml None None (only_ability_info toy_abilities)) toy_abilities (lit "reboot") [] []); try reflexivity.
Defined.

(** ** The zoom *)

(** A camera that reports a zoom range whose least position
    is above its greatest, makes [zoom_to] panic, where the task unwinds,
    instead of return an error. *)
Theorem zoom_panics w reply x z pos l r :
  granted (abilities (cam w)) (needed MSG_ID_GET_ZOOM_FOCUS) = true ->
  acks w = None :: None :: l -> inbox w = Delivered reply :: r -> response_code (meta reply) = 200 ->
  xml_of reply = Some x -> ptz_zoom_focus (elements x) = Some z ->
  helper_position_max_pos (zf_zoom z) < helper_position_min_pos (zf_zoom z) ->
  fst (zoom_to pos w) = Some (Err Panicked).
Proof.
  intros Hg Ha Hi Hc Hx Hz Hlt. change (needed MSG_ID_GET_ZOOM_FOCUS) with (Read (lit "control")) in Hg.
  cbn [granted] in Hg. unfold zoom_to, get_zoom, has_ability_ro. rewrite !bind_assoc. unfold bind at 1, gets, has_ability.
  destruct (default ReadNone (abilities (cam w) !! lit "control")); [| |done]; unfold bind at 1, ret.
  all: unfold query; rewrite bind_assoc, (run_request _ _ _ w l) by done.
  all: rewrite bind_assoc, (run_recv _ _ reply r) by done; rewrite bind_assoc, run_checked by done.
  all: unfold bind, taken; rewrite Hx, Hz; cbn [ret]; by rewrite (proj2 (Z.ltb_lt _ _)).
Qed.

Lemma zoom_panics_witness :
  fst (zoom_to 5 (MkWorld toy_cam [] [None; None]
    [Delivered (toy_reply MSG_ID_GET_ZOOM_FOCUS 200 (only_ptz_zoom_focus
       (MkPtzZoomFocus [] 0 (MkHelperPosition 0 1 0) (MkHelperPosition 0 0 0))))])) = Some (Err Panicked).
Proof.
  apply (zoom_panics _ (toy_reply MSG_ID_GET_ZOOM_FOCUS 200 (only_ptz_zoom_focus
       (MkPtzZoomFocus [] 0 (MkHelperPosition 0 1 0) (MkHelperPosition 0 0 0)))) (MkBcXml None None (only_ptz_zoom_focus
       (MkPtzZoomFocus [] 0 (MkHelperPosition 0 1 0) (MkHelperPosition 0 0 0))))
       (MkPtzZoomFocus [] 0 (MkHelperPosition 0 1 0) (MkHelperPosition 0 0 0)) 5 [] []); try reflexivity.
Defined.
