(* ===== verification/Login.v ===== *)
(** * Logging in ([src/baichuan/bc_protocol/login.rs], [login_sigv3.rs],
    [login_authlogin.rs])

    The password login, the cloud login (sigV3) and the camera-local authLogin,
    as programs over the connection like those of [Commands]. The primitives are
    interfaces: X25519, PBKDF2, base64, MD5 and AES; the cloud service that
    signs a bundle is a function. The random secret and the time are arguments.
    An XML string is its UTF-8 bytes, a [str] its characters. *)

From S2P Require Import Prelude Text Wire XorCrypto BcXml BcMsg BcConn RtspText Commands.

(** ** Primitives *)

Class X25519 := { x25519 : bytes -> bytes -> bytes; x25519_base : bytes }.

(** The public key of a secret, and the agreement of two parties. *)
Definition public_of `{X25519} (secret : bytes) : bytes := x25519 secret x25519_base.

Class X25519Laws (X : X25519) : Prop := {
  x25519_agree a b : length a = 32%nat -> length b = 32%nat -> x25519 a (public_of b) = x25519 b (public_of a);
  x25519_length a b : length a = 32%nat -> length b = 32%nat -> length (x25519 a b) = 32%nat;
  x25519_ok a b : bytes_ok (x25519 a b);
  x25519_base_length : length x25519_base = 32%nat
}.

Class Pbkdf2 := { pbkdf2_hmac_sha256 : bytes -> bytes -> Z -> nat -> bytes }.

Class Pbkdf2Laws (P : Pbkdf2) : Prop := {
  pbkdf2_length pw salt n k : length (pbkdf2_hmac_sha256 pw salt n k) = k
}.

(** Encoded text is printable, and decodes to what was encoded. *)
Class Base64Laws (B : Base64) : Prop := {
  b64_decode_encode b : bytes_ok b -> b64_decode (b64_encode b) = Some b;
  b64_encode_graphic b : Forall is_graphic (b64_encode b)
}.

(** [cloud.rs], which is modelled in [Cloud]: the signed bundle, from the account
    over HTTP. *)
Record Sigv3Bundle := MkSigv3Bundle { token_p : bytes; token_s : bytes; token_k : bytes; bundle_cert_chain : bytes }.

Class CloudService := {
  mint_bundle : bytes -> bytes -> bytes -> option bytes -> option bytes -> result Sigv3Bundle Error
}.

(** ** Standard library *)

(** [str::replace] of a character. *)
Definition replace (c : Z) (r s : bytes) : bytes := concat (map (fun x => if x =? c then r else [x]) s).

Definition show_int (n : Z) : str := if n <? 0 then 45 :: show_uint (- n) else show_uint n.

(** How many bytes of a malformed sequence are replaced as one. *)
Definition bad_prefix (l : bytes) : nat :=
  match l with
  | a :: b :: c =>
      let lo := if a =? 0xE0 then 0xA0 else if a =? 0xF0 then 0x90 else 0x80 in
      let hi := if a =? 0xED then 0x9F else if a =? 0xF4 then 0x8F else 0xBF in
      if in_range 0xE0 0xF4 a && in_range lo hi b then
        if in_range 0xF0 0xF4 a && match c with x :: _ => in_range 0x80 0xBF x | [] => false end then 3 else 2
      else 1
  | _ => 1
  end.

(** The first character and how long it is. *)
Definition first_char (l : bytes) : option (Z * nat) :=
  match List.find (fun n => match from_utf8 (take n l) with Some [_] => true | _ => false end) [1; 2; 3; 4]%nat with
  | Some n => match from_utf8 (take n l) with Some [c] => Some (c, n) | _ => None end
  | None => None
  end.

(** [String::from_utf8_lossy]; the fuel is the length. *)
Fixpoint lossy (fuel : nat) (l : bytes) : str :=
  match fuel, l with
  | S fuel, _ :: _ =>
      match first_char l with
      | Some (c, n) => c :: lossy fuel (drop n l)
      | None => 0xFFFD :: lossy fuel (drop (bad_prefix l) l)
      end
  | _, _ => []
  end.

Definition from_utf8_lossy (l : bytes) : str := lossy (length l) l.

(** ** [login_sigv3.rs] *)

Record PlFields := MkPlFields { is_v3 : bool; pubkey : option str; pl_iters : option Z }.

Definition pl_field (f : PlFields) (field : str) : PlFields :=
  match split_once 61 field with
  | Some (k, v) =>
      let k := trim k in
      if bool_decide (k = lit "P2") then MkPlFields (bool_decide (trim v = lit "v3")) (pubkey f) (pl_iters f)
      else if bool_decide (k = lit "P4") then MkPlFields (is_v3 f) (Some (trim v)) (pl_iters f)
      else if bool_decide (k = lit "P6") then MkPlFields (is_v3 f) (pubkey f) (parse_uint u32_max (trim v))
      else f
  | None => f
  end.

(** Splitting at two separators is splitting at the one, then at the other. *)
Definition parse_pl (pl : str) : option (str * Z) :=
  let f := fold_left pl_field (mjoin (map (split 59) (split 44 pl))) (MkPlFields false None None) in
  if is_v3 f then k ← pubkey f; Some (k, default 1000 (pl_iters f)) else None.

Record Sigv3Extras := MkSigv3Extras {
  ext_public_key : bytes;
  ext_cipher_content : bytes;
  session_key : bytes;
  session_iv : bytes
}.

(** A backslash, then a quote, each with a backslash before it. *)
Definition json_escape (s : bytes) : bytes := replace 34 [92; 34] (replace 92 [92; 92] s).

Definition q : bytes := [34].

Definition proof_json (nonce : bytes) (unix_time : Z) (p s : bytes) : bytes :=
  lit "{" ++ q ++ lit "nonce" ++ q ++ lit ":" ++ q ++ json_escape nonce ++ q ++ lit "," ++ q ++ lit "clientTime" ++ q
  ++ lit ":" ++ show_int unix_time ++ lit "," ++ q ++ lit "token" ++ q ++ lit ":{" ++ q ++ lit "p" ++ q ++ lit ":" ++ q
  ++ json_escape p ++ q ++ lit "," ++ q ++ lit "s" ++ q ++ lit ":" ++ q ++ json_escape s ++ q ++ lit "}}".

(** The nonce in a zeroed buffer of 32 bytes, at most 31 of it. *)
Definition kdf_buf (nonce : bytes) : bytes := take 31 nonce ++ replicate (32 - Nat.min (length nonce) 31) 0.

Section login.
Context `{X5 : X25519} `{P : Pbkdf2} `{B : Base64} `{H5 : Md5} `{A : Aes128Cfb} `{CS : CloudService}.
Context (debug_strings : list bytes -> str).

Definition build_sigv3_extras (sk_bytes nonce : bytes) (camera_public_b64 : str) (iterations unix_time : Z)
    (p s : bytes) : result Sigv3Extras Error :=
  if negb (in_range 1 1000000 iterations)
  then Err (Other (lit "sigV3: camera ECDHE iterations out of sane range (expected 1..=1_000_000)"))
  else
    match b64_decode (trim camera_public_b64) with
    | None => Err (Other (lit "sigV3: camera publicKey not valid base64"))
    | Some cam_pub =>
        if negb (length cam_pub =? 32)%nat then Err (Other (lit "sigV3: camera publicKey not 32 bytes"))
        else
          let shared := x25519 sk_bytes cam_pub in
          let derived := pbkdf2_hmac_sha256 (kdf_buf nonce) shared iterations 32 in
          let '(key, iv) := (take 16 derived, drop 16 derived) in
          let ct := aes_encrypt (aes_new key iv) (proof_json nonce unix_time p s) in
          Ok (MkSigv3Extras (as_bytes (b64_encode (public_of sk_bytes))) (as_bytes (b64_encode ct)) key iv)
    end.

(** ** [login_authlogin.rs] *)

Inductive Md5Trunc := ZeroLast | Truncate.

(** The upper-case digest with a NUL, cut after 31 characters. *)
Definition md5_string (input : bytes) (trunc : Md5Trunc) : bytes :=
  take 31 (md5_upper input ++ [0]) ++ match trunc with Truncate => [] | ZeroLast => [0] end.

Definition CHALLENGE_SLOT : nat := 64.

Definition auth_code (password nonce : bytes) : bytes := md5_string (password ++ nonce) Truncate.

Fixpoint take_while (f : Z -> bool) (s : bytes) : bytes :=
  match s with
  | [] => []
  | c :: s => if f c then c :: take_while f s else []
  end.

(** A byte is the character of its number. *)
Definition slot (payload : bytes) (off : nat) : option str :=
  let stop := Nat.min (off + CHALLENGE_SLOT) (length payload) in
  if (stop <? off)%nat then None
  else
    let s := trim (take_while (fun b => negb (b =? 0)) (take (stop - off) (drop off payload))) in
    match s with [] => None | _ => Some s end.

Definition parse_challenge (payload : bytes) : option (str * str) :=
  a ← slot payload 0; b ← slot payload CHALLENGE_SLOT; Some (a, b).

Definition decrypt_token (b64 : str) (creds : Credentials) (nonce : bytes) : result bytes Error :=
  match b64_decode (trim b64) with
  | None => Err (Other (lit "authLogin: challenge token not valid base64"))
  | Some ct =>
      let pt := decrypt (aes (make_aeskey creds nonce)) 0 ct in
      Ok (as_bytes (trim (trim_end (Z.eqb 0) (from_utf8_lossy pt))))
  end.

Definition authlogin_field (decrypted_token nonce : bytes) : bytes := md5_string (decrypted_token ++ nonce) Truncate.

(** ** [login.rs] *)

Definition LEGACY_LOGIN_ENC_NONE : Z := 0xdc00.
Definition LEGACY_LOGIN_ENC_BCENCRYPT : Z := 0xdc01.
Definition LEGACY_LOGIN_ENC_AES : Z := 0xdc12.
Definition MSG_CLASS_LEGACY_LOGIN : Z := 0x6514.
Definition MSG_CLASS_MODERN_LOGIN : Z := 0x6414.
Definition MSG_CLASS_SIGV3_LOGIN : Z := 0x0000.

Inductive MaxEncryption := EncNone | EncBcEncrypt | EncAes.

Definition enc_byte (e : MaxEncryption) : Z :=
  match e with
  | EncNone => LEGACY_LOGIN_ENC_NONE | EncBcEncrypt => LEGACY_LOGIN_ENC_BCENCRYPT | EncAes => LEGACY_LOGIN_ENC_AES
  end.

(** [?] on a plain result. *)
Definition lift {T} (r : result T Error) : M T := match r with Ok a => ret a | Err e => fail e end.

Definition login_message (class channel num : Z) (u : LoginUser) : Bc :=
  new_bc (MkBcMeta MSG_ID_LOGIN channel 0 0 num class) None
    (Some (BcXmlPayload (MkBcXml None (Some u) (only_login_net LoginNet_default)))).

(** The [DeviceInfo] of an accepted login. *)
Definition accept_device (m : Bc) (why : str) : M DeviceInfo :=
  match xml_of m ≫= (fun x => device_info (elements x)) with
  | Some info => let* _ := modify (fun c => set_logged_in c true) in ret info
  | None => fail (UnintelligibleReply m why)
  end.

Definition mint_cloud_bundle : M Sigv3Bundle :=
  let* c := gets (fun c => c) in
  match cloud_account c with
  | None => fail (Cloud (lit "cloud_account not set for a 'cloud' camera"))
  | Some account =>
      match cloud_password c with
      | None => fail (Cloud (lit "cloud_password not set for a 'cloud' camera"))
      | Some password =>
          match cloud_uid c with
          | None => fail (Cloud (lit "camera uid required to mint the cloud bundle"))
          | Some uid => lift (mint_bundle account password uid (cloud_mfa_trust_token c) (cloud_refresh_token c))
          end
      end
  end.

Definition finish_cloud_login (device_info : DeviceInfo) : M DeviceInfo :=
  let* _ := outcome_of populate_abilities in ret device_info.

Section instant.
Context (now : Z) (secret : bytes).

Definition sigv3_user (user nonce : bytes) (b : Sigv3Bundle) (x : Sigv3Extras) : LoginUser :=
  MkLoginUser xml_ver None (md5_string (user ++ nonce) Truncate) (md5_string nonce Truncate) 1 (Some (lit "app"))
    (Some (ext_public_key x)) (Some (token_k b)) (Some (ext_cipher_content x)) (Some (bundle_cert_chain b)) None
    (Some (session_key x, session_iv x)).

Definition run_sigv3_login (nonce : bytes) (cam_pub : str) (iters : Z) (bundle : Sigv3Bundle) : M DeviceInfo :=
  let* user := gets (fun c => username (cam_credentials c)) in
  let* num := new_message_num in
  let* _ := subscribe MSG_ID_LOGIN num in
  let* extras := lift (build_sigv3_extras secret nonce cam_pub iters now (token_p bundle) (token_s bundle)) in
  let* channel := gets cam_channel in
  let* _ := send (login_message MSG_CLASS_SIGV3_LOGIN channel num (sigv3_user user nonce bundle extras)) in
  let* reply := recv in
  if negb (response_code (meta reply) =? 200) then fail CameraLoginFail
  else accept_device reply (lit "Expected a DeviceInfo message back from sigV3 login").

Definition run_sigv3_direct (nc : Z) (cam_pub : str) (iters : Z) : M DeviceInfo :=
  let* bundle := mint_cloud_bundle in
  run_sigv3_login (show_int nc) cam_pub iters bundle.

Definition getaccesskey_user (password nonce : bytes) : LoginUser :=
  MkLoginUser xml_ver (Some (lit "getAccesskey")) [] [] 0 None None None None None
    (Some (MkAuthInfo (auth_code password nonce) None)) None.

Definition authlogin_user (a b nonce : bytes) : LoginUser :=
  MkLoginUser xml_ver (Some (lit "authLogin")) (authlogin_field a nonce) (authlogin_field b nonce) 1
    None None None None None None None.

Definition run_authlogin (credentials : Credentials) (nonce : bytes) (num : Z) : M DeviceInfo :=
  let* channel := gets cam_channel in
  let* _ := send (login_message MSG_CLASS_MODERN_LOGIN channel num
                    (getaccesskey_user (default [] (password credentials)) nonce)) in
  let* challenge_reply := recv in
  match body challenge_reply with
  | Modern (MkModernMsg _ (Some (Binary payload))) =>
      match parse_challenge payload with
      | Some (token_a, token_b) =>
          let* dec_a := lift (decrypt_token token_a credentials nonce) in
          let* dec_b := lift (decrypt_token token_b credentials nonce) in
          let* _ := send (login_message MSG_CLASS_MODERN_LOGIN channel num (authlogin_user dec_a dec_b nonce)) in
          let* final_reply := recv in
          if negb (response_code (meta final_reply) =? 200) then fail CameraLoginFail
          else accept_device final_reply (lit "Expected a DeviceInfo message back from authLogin")
      | None => fail CameraLoginFail
      end
  | _ => fail CameraLoginFail
  end.

Definition md5_user (c : Credentials) (nonce : bytes) : LoginUser :=
  login_user_of (md5_string (username c ++ nonce) Truncate)
    (md5_string (default [] (password c) ++ nonce) Truncate).

(** The reply to the plain login; an empty body under 200 is a refusal. *)
Definition password_login (credentials : Credentials) (nonce : bytes) (num : Z) : M DeviceInfo :=
  let* channel := gets cam_channel in
  let* _ := send (login_message MSG_CLASS_MODERN_LOGIN channel num (md5_user credentials nonce)) in
  let* modern_reply := recv in
  if negb (response_code (meta modern_reply) =? 200) then fail CameraLoginFail
  else
    match body modern_reply with
    | Modern (MkModernMsg None None) => fail AuthFailed
    | _ => accept_device modern_reply (lit "Expected a DeviceInfo message back from login")
    end.

Definition pw_present (c : Credentials) : bool :=
  match password c with Some (_ :: _) => true | _ => false end.

Definition sigv3_offer (e : Encryption) : option (bytes * Z) :=
  match ecdhe e, sig_ver e with
  | Some x, Some v => if bool_decide (v = lit "v3") then Some (ecdhe_public_key x, iterations x) else None
  | _, _ => None
  end.

Definition cloud_login (credentials : Credentials) (e : Encryption) (num : Z) : M DeviceInfo :=
  let auth_types := default [] (auth_type_list e) in
  match sigv3_offer e with
  | Some (cam_pub, iters) =>
      let* _ := drop_subscription MSG_ID_LOGIN num in
      let* bundle := mint_cloud_bundle in
      let* di := run_sigv3_login (nonce e) (chars cam_pub) iters bundle in
      finish_cloud_login di
  | None =>
      if existsb (fun t => bool_decide (t = lit "getAccesskey")) auth_types then
        let* di := run_authlogin credentials (nonce e) num in
        finish_cloud_login di
      else fail (Cloud (lit "cloud camera offered neither sigV3 nor authLogin over the login negotiation (auth types "
                        ++ debug_strings auth_types ++ lit "); cannot complete a cloud login"))
  end.

(** The [Encryption] a camera answers the upgrade with. *)
Definition encryption_offer (m : Bc) : option Encryption := xml_of m ≫= encryption.

Definition handshake (c : BcCamera) : option (Z * str * Z) :=
  '(nc, pl) ← sigv3_handshake c; '(cam_pub, iters) ← parse_pl pl; Some (nc, cam_pub, iters).

Definition login_with_maxenc (max_encryption : MaxEncryption) : M DeviceInfo :=
  let* h := gets handshake in
  match h with
  | Some (nc, cam_pub, iters) =>
      let* di := run_sigv3_direct nc cam_pub iters in
      finish_cloud_login di
  | None =>
      let* credentials := gets cam_credentials in
      let* num := new_message_num in
      let* _ := subscribe MSG_ID_LOGIN num in
      let* is_cloud := gets is_cloud in
      let needs_password := match max_encryption with EncNone => false | _ => true end in
      if negb is_cloud && needs_password && negb (pw_present credentials) then fail AuthFailed
      else
        let* channel := gets cam_channel in
        let* _ := send (MkBc (MkBcMeta MSG_ID_LOGIN channel 0 (enc_byte max_encryption) num MSG_CLASS_LEGACY_LOGIN)
                          (Legacy LoginUpgrade)) in
        let* legacy_reply := recv in
        match encryption_offer legacy_reply with
        | None => fail (UnintelligibleReply legacy_reply (lit "Expected an Encryption message back"))
        | Some e =>
            if is_cloud then cloud_login credentials e num
            else
              let* di := password_login credentials (nonce e) num in
              let* _ := populate_abilities in
              ret di
        end
  end.

Definition login : M DeviceInfo := login_with_maxenc EncAes.
End instant.
End login.

(** ** Text *)

Lemma as_bytes_ascii s : Forall is_ascii s -> as_bytes s = s.
Proof.
  unfold as_bytes. induction 1 as [|c s Hc _ IH]; [done|]. cbn [map concat]. rewrite IH. unfold is_ascii in Hc.
  unfold encode_char. by destruct (Z.ltb_spec c 0x80); [|lia].
Qed.

Lemma from_utf8_ascii s : Forall is_ascii s -> from_utf8 s = Some s.
Proof.
  induction 1 as [|c s Hc _ IH]; [done|]. cbn [from_utf8]. unfold is_ascii in Hc.
  destruct (Z.ltb_spec c 0x80); [|lia]. by rewrite IH.
Qed.

Lemma chars_ascii s : Forall is_ascii s -> chars s = s.
Proof. intros H. unfold chars. by rewrite from_utf8_ascii. Qed.

Lemma lossy_ascii s : Forall is_ascii s -> from_utf8_lossy s = s.
Proof.
  unfold from_utf8_lossy. induction 1 as [|c s Hc Hs IH]; [done|]. cbn [length lossy].
  assert (first_char (c :: s) = Some (c, 1%nat)) as ->; [|cbn; change (drop 0 s) with s; by rewrite IH].
  assert (from_utf8 (take 1 (c :: s)) = Some [c]) as E; [|unfold first_char; cbn [List.find]; by rewrite !E].
  cbn. unfold is_ascii in Hc. destruct (Z.ltb_spec c 128); [done|lia].
Qed.

Lemma take_while_stop f s c r : Forall (fun x => f x = true) s -> f c = false -> take_while f (s ++ c :: r) = s.
Proof.
  intros Hs Hc. induction Hs as [|x s Hx _ IH]; cbn [app take_while]; [by rewrite Hc|]. by rewrite Hx, IH.
Qed.

Lemma take_while_all f s : Forall (fun x => f x = true) s -> take_while f s = s.
Proof. induction 1 as [|x s Hx _ IH]; [done|]. cbn [take_while]. by rewrite Hx, IH. Qed.

(** Malformed input is replaced as the standard library replaces it. *)
Example lossy_mixed :
  from_utf8_lossy [72; 0xC3; 0xA9; 0xE2; 0x82; 33; 0xF0; 0x9F; 0x92; 0xFF; 0xED; 0xA0; 0x80]
  = [72; 0xE9; 0xFFFD; 33; 0xFFFD; 0xFFFD; 0xFFFD; 0xFFFD; 0xFFFD].
Proof. vm_compute. reflexivity. Qed.

(** ** The proof of a signed login, as a camera reads it *)

(** The text of a JSON string up to its closing quote. *)
Fixpoint json_string (s : bytes) : option (bytes * bytes) :=
  match s with
  | [] => None
  | c :: s =>
      if c =? 34 then Some ([], s)
      else if c =? 92 then
        match s with
        | d :: s => if (d =? 34) || (d =? 92) then '(a, r) ← json_string s; Some (d :: a, r) else None
        | [] => None
        end
      else if c <? 32 then None
      else '(a, r) ← json_string s; Some (c :: a, r)
  end.

Definition json_key (key s : bytes) : option bytes := strip_prefix (q ++ key ++ q ++ lit ":") s.

Definition read_string (s : bytes) : option (bytes * bytes) := s ← strip_prefix q s; json_string s.

Definition number_char (c : Z) : bool := in_range 48 57 c || (c =? 45).

Definition read_proof (s : bytes) : option (bytes * bytes * bytes * bytes) :=
  s ← strip_prefix (lit "{") s;
  s ← json_key (lit "nonce") s; '(nonce, s) ← read_string s; s ← strip_prefix (lit ",") s;
  s ← json_key (lit "clientTime") s;
  let time := take_while number_char s in
  s ← strip_prefix (lit ",") (drop (length time) s);
  s ← json_key (lit "token") s; s ← strip_prefix (lit "{") s;
  s ← json_key (lit "p") s; '(p, s) ← read_string s; s ← strip_prefix (lit ",") s;
  s ← json_key (lit "s") s; '(sig, s) ← read_string s;
  if bool_decide (s = lit "}}") then Some (nonce, time, p, sig) else None.

Lemma json_string_escape s r :
  Forall (fun c => 32 <= c) s -> json_string (json_escape s ++ 34 :: r) = Some (s, r).
Proof.
  unfold json_escape, replace. induction 1 as [|c s Hc _ IH]; [done|]. cbn [map concat].
  destruct (Z.eqb_spec c 92) as [->|H92]; [cbn; by rewrite IH|].
  cbn [map concat app]. destruct (Z.eqb_spec c 34) as [->|H34]; [cbn; by rewrite IH|].
  cbn [app json_string]. rewrite !(proj2 (Z.eqb_neq _ _)), (proj2 (Z.ltb_ge _ _)) by done. by rewrite IH.
Qed.

Lemma strip_prefix_app p s : strip_prefix p (p ++ s) = Some s.
Proof. unfold strip_prefix. by rewrite take_app_length, bool_decide_eq_true_2, drop_app_length by done. Qed.

Lemma show_int_number n : Forall (fun c => number_char c = true) (show_int n).
Proof.
  assert (forall k, 0 <= k -> Forall (fun c => number_char c = true) (show_uint k)) as H.
  { intros k Hk. destruct (show_uint_spec k Hk) as (Hd & _). eapply Forall_impl; [|exact Hd]. intros c Hc.
    unfold is_digit in Hc. unfold number_char, in_range. destruct (Z.leb_spec 48 c), (Z.leb_spec c 57); first [done | lia]. }
  unfold show_int. destruct (Z.ltb_spec n 0); [|by apply H]. constructor; [done|]. apply H. lia.
Qed.

Lemma take_while_number n r : take_while number_char (show_int n ++ lit "," ++ r) = show_int n.
Proof. apply (take_while_stop number_char (show_int n) 44 r); [apply show_int_number|done]. Qed.

Lemma read_string_escape s r : Forall (fun c => 32 <= c) s -> read_string (q ++ json_escape s ++ q ++ r) = Some (s, r).
Proof. intros Hs. unfold read_string. rewrite strip_prefix_app. cbn [mbind option_bind]. by apply json_string_escape. Qed.

Lemma json_key_app key s : json_key key (q ++ key ++ q ++ lit ":" ++ s) = Some s.
Proof. unfold json_key. rewrite !app_assoc, <- app_assoc. apply strip_prefix_app. Qed.

(** What a camera reads from the proof is what was put into it. *)
Lemma read_proof_json nonce now p s :
  Forall (fun c => 32 <= c) nonce -> Forall (fun c => 32 <= c) p -> Forall (fun c => 32 <= c) s ->
  read_proof (proof_json nonce now p s) = Some (nonce, show_int now, p, s).
Proof.
  intros Hn Hp Hs. unfold read_proof, proof_json. rewrite strip_prefix_app. cbn [mbind option_bind].
  rewrite json_key_app. cbn [mbind option_bind]. rewrite read_string_escape by done. cbn [mbind option_bind].
  rewrite strip_prefix_app. cbn [mbind option_bind]. rewrite json_key_app. cbn [mbind option_bind].
  rewrite take_while_number, drop_app_length.
  rewrite strip_prefix_app. cbn [mbind option_bind].
  change (lit ":{" ++ ?x) with (lit ":" ++ lit "{" ++ x). rewrite json_key_app. cbn [mbind option_bind].
  rewrite strip_prefix_app. cbn [mbind option_bind]. rewrite json_key_app. cbn [mbind option_bind].
  rewrite read_string_escape by done. cbn [mbind option_bind]. rewrite strip_prefix_app. cbn [mbind option_bind].
  rewrite json_key_app. cbn [mbind option_bind]. rewrite read_string_escape by done. cbn [mbind option_bind]. done.
Qed.

(** ** The two ends of a signed login *)

Section agreement.
Context `{X5 : X25519} `{P : Pbkdf2} `{B : Base64} `{H5 : Md5} `{A : Aes128Cfb}.
Context {X5L : X25519Laws X5} {PL : Pbkdf2Laws P} {BL : Base64Laws B} {AL : Aes128CfbLaws A}.

(** The camera's side: the session key and IV from its own secret and the
    login, and the proof opened with them. *)
Definition camera_keys (cam_secret nonce : bytes) (iters : Z) (u : LoginUser) : option (bytes * bytes) :=
  k ← public_key u; pub ← b64_decode (chars k);
  let derived := pbkdf2_hmac_sha256 (kdf_buf nonce) (x25519 cam_secret pub) iters 32 in
  Some (take 16 derived, drop 16 derived).

Definition camera_proof (key iv : bytes) (u : LoginUser) : option (bytes * bytes * bytes * bytes) :=
  c ← cipher_content u; ct ← b64_decode (chars c); read_proof (aes_decrypt (aes_new key iv) ct).

Definition printable (s : bytes) : Prop := Forall (fun c => 32 <= c < 256) s.

Lemma printable_weaken s : printable s -> Forall (fun c => 32 <= c) s /\ bytes_ok s.
Proof. intros H. split; (eapply Forall_impl; [|exact H]); intros c Hc; cbv beta in Hc; [lia|unfold in_u; lia]. Qed.

Lemma replace_ok c r s : bytes_ok r -> bytes_ok s -> bytes_ok (replace c r s).
Proof.
  intros Hr. unfold replace. induction 1 as [|x s Hx _ IH]; [constructor|]. cbn [map concat].
  apply Forall_app. split; [|done]. destruct (x =? c); [done|]. by constructor.
Qed.

Lemma lit_ok s : forallb (in_range 0 127) (lit s) = true -> bytes_ok (lit s).
Proof. intros H. eapply Forall_impl; [|exact (ascii_check _ H)]. intros c Hc. unfold is_ascii in Hc.
  unfold in_u. lia.
Qed.

Lemma proof_json_ok nonce now p s : printable nonce -> printable p -> printable s -> bytes_ok (proof_json nonce now p s).
Proof.
  intros Hn Hp Hs. assert (bytes_ok q) by (repeat constructor; unfold in_u; lia).
  assert (forall x, printable x -> bytes_ok (json_escape x)) as He.
  { intros x Hx. apply replace_ok; [repeat constructor; unfold in_u; lia|]. apply replace_ok; [repeat constructor; unfold in_u; lia|].
    by apply printable_weaken. }
  assert (bytes_ok (show_int now)).
  { eapply Forall_impl; [|apply show_int_number]. intros c Hc. unfold number_char, in_range in Hc.
    apply orb_true_iff in Hc as [Hc|Hc]; b2p; unfold in_u; lia. }
  unfold proof_json. repeat (apply Forall_app; split); try done; try (by apply lit_ok); by apply He.
Qed.

Lemma b64_text b : chars (as_bytes (b64_encode b)) = b64_encode b.
Proof.
  pose proof (graphic_ascii _ (b64_encode_graphic b)) as H. by rewrite as_bytes_ascii, chars_ascii.
Qed.

(** C27: Whatever secret the client draws, a camera that
    advertised its public key and a nonce, and is sent the signed login, derives
    from its own secret and that login the very key and IV the client goes on
    with, 16 bytes each, opens the proof with them, and reads the nonce it gave,
    the time and the two halves of the cloud token as they were issued; and the
    codec of the connection arms exactly that key and IV for the switch. *)
Theorem sigv3_agreement cam_secret secret user nonce iters now bundle :
  length cam_secret = 32%nat -> length secret = 32%nat -> 1 <= iters <= 1000000 ->
  printable nonce -> printable (token_p bundle) -> printable (token_s bundle) ->
  exists x,
    build_sigv3_extras secret nonce (b64_encode (public_of cam_secret)) iters now (token_p bundle) (token_s bundle) = Ok x
    /\ let u := sigv3_user user nonce bundle x in
       camera_keys cam_secret nonce iters u = Some (session_key x, session_iv x)
       /\ length (session_key x) = 16%nat /\ length (session_iv x) = 16%nat
       /\ camera_proof (session_key x) (session_iv x) u = Some (nonce, show_int now, token_p bundle, token_s bundle)
       /\ forall channel num, signed_login_aes (login_message MSG_CLASS_SIGV3_LOGIN channel num u)
                              = Some (Some (session_key x, session_iv x)).
Proof.
  intros Hc Hs Hi Hn Hp Ht. unfold build_sigv3_extras. assert (in_range 1 1000000 iters = true) as -> by
    (unfold in_range; apply andb_true_iff; split; apply Z.leb_le; lia). cbn [negb].
  rewrite trim_graphic, b64_decode_encode by (apply b64_encode_graphic || apply x25519_ok).
  rewrite (proj2 (Nat.eqb_eq _ _)) by (apply x25519_length; [done|apply x25519_base_length]). cbn [negb].
  eexists. split; [reflexivity|]. cbn [sigv3_user session_key session_iv].
  unfold camera_keys, camera_proof. cbn [sigv3_user public_key cipher_content ext_public_key ext_cipher_content].
  cbn [mbind option_bind]. rewrite !b64_text. rewrite b64_decode_encode by apply x25519_ok.
  cbn [mbind option_bind]. rewrite x25519_agree by done. split; [done|].
  rewrite length_take, length_drop, pbkdf2_length. split; [done|]. split; [done|].
  pose proof (proof_json_ok nonce now _ _ Hn Hp Ht) as Hok. rewrite b64_decode_encode by (by apply aes_encrypt_ok).
  cbn [mbind option_bind]. rewrite aes_decrypt_encrypt by done.
  split; [|done]. apply read_proof_json; by apply printable_weaken.
Qed.
End agreement.

(** ** Instances for the examples *)

(** A group in which the secret is the public key, and agreement is xor. *)
Definition pad32 (l : bytes) : bytes := take 32 (map (fun x => x mod 256) l ++ replicate 32 0).

#[local] Instance x25519_toy : X25519 := {|
  x25519 a b := zip_with Z.lxor (pad32 a) (pad32 b); x25519_base := replicate 32 0 |}.

Lemma pad32_length l : length (pad32 l) = 32%nat.
Proof. unfold pad32. rewrite length_take, length_app, length_replicate. lia. Qed.

Lemma pad32_ok l : bytes_ok (pad32 l).
Proof.
  unfold pad32. apply Forall_take, Forall_app. split.
  - apply Forall_map, Forall_true. intros x. unfold compose, in_u. apply Z.mod_pos_bound. lia.
  - apply Forall_replicate. unfold in_u. lia.
Qed.

Lemma pad32_id l : length l = 32%nat -> bytes_ok l -> pad32 l = l.
Proof.
  intros Hl Ho. unfold pad32. assert (map (fun x => x mod 256) l = l) as ->.
  { clear Hl. induction Ho as [|x l Hx _ IH]; [done|]. cbn. rewrite IH, Z.mod_small; [done|]. exact Hx. }
  by rewrite take_app_le, take_ge by lia.
Qed.

Lemma xor_ok a b : bytes_ok a -> bytes_ok b -> bytes_ok (zip_with Z.lxor a b).
Proof.
  intros Ha. revert b. induction Ha as [|x a Hx _ IH]; intros [|y b] Hb; try constructor; inversion Hb; subst.
  - by apply lxor_u8.
  - by apply IH.
Qed.

Lemma xor_zero l n : length l = n -> zip_with Z.lxor l (replicate n 0) = l.
Proof.
  intros <-. induction l as [|x l IH]; [done|]. cbn [length replicate zip_with]. by rewrite IH, Z.lxor_0_r.
Qed.

Lemma xor_comm a b : zip_with Z.lxor a b = zip_with Z.lxor b a.
Proof. revert b. induction a as [|x a IH]; intros [|y b]; try done. cbn. by rewrite IH, Z.lxor_comm. Qed.

Lemma public_toy s : public_of s = pad32 s.
Proof.
  unfold public_of. cbn [x25519 x25519_base x25519_toy].
  rewrite (pad32_id (replicate 32 0)); [apply xor_zero, pad32_length|done|]. apply Forall_replicate. unfold in_u. lia.
Qed.

#[local] Instance x25519_toy_laws : X25519Laws x25519_toy.
Proof.
  split.
  - intros a b _ _. rewrite !public_toy. cbn [x25519 x25519_toy].
    rewrite !(pad32_id (pad32 _)) by (apply pad32_length || apply pad32_ok). apply xor_comm.
  - intros a b _ _. cbn [x25519 x25519_toy]. rewrite length_zip_with, !pad32_length. done.
  - intros a b. apply xor_ok; apply pad32_ok.
  - done.
Qed.

#[local] Instance pbkdf2_toy : Pbkdf2 := {| pbkdf2_hmac_sha256 pw salt n k := take k (pw ++ salt ++ replicate k n) |}.

#[local] Instance pbkdf2_toy_laws : Pbkdf2Laws pbkdf2_toy.
Proof. split. intros pw salt n k. cbn. rewrite length_take, !length_app, length_replicate. lia. Qed.

(** Two letters for each byte. *)
Fixpoint letters (b : bytes) : str :=
  match b with
  | [] => []
  | x :: b => 65 + (x / 16) mod 16 :: 65 + x mod 16 :: letters b
  end.

Fixpoint unletters (s : str) : option bytes :=
  match s with
  | [] => Some []
  | h :: l :: s =>
      if in_range 65 80 h && in_range 65 80 l then cons (16 * (h - 65) + (l - 65)) <$> unletters s else None
  | _ => None
  end.

#[local] Instance base64_toy : Base64 := {| b64_decode := unletters; b64_encode := letters |}.

#[local] Instance base64_toy_laws : Base64Laws base64_toy.
Proof.
  split; cbn.
  - induction 1 as [|x b Hx _ IH]; [done|]. cbn [letters unletters]. unfold in_u in Hx.
    pose proof (Z.div_mod x 16 ltac:(lia)). pose proof (Z.mod_pos_bound x 16 ltac:(lia)).
    rewrite (Z.mod_small (x / 16)) by (split; [apply Z.div_pos; lia|apply Z.div_lt_upper_bound; lia]).
    assert (0 <= x / 16 < 16) by (split; [apply Z.div_pos; lia|apply Z.div_lt_upper_bound; lia]).
    unfold in_range. rewrite !(proj2 (Z.leb_le _ _)) by lia. cbn [andb]. rewrite IH. cbn. do 2 f_equal. lia.
  - induction b as [|x b IH]; [constructor|]. cbn [letters].
    pose proof (Z.mod_pos_bound x 16 ltac:(lia)). pose proof (Z.mod_pos_bound (x / 16) 16 ltac:(lia)).
    repeat constructor; try done; unfold is_graphic; lia.
Qed.

Definition toy_bundle : Sigv3Bundle := MkSigv3Bundle (lit "claims") (lit "sig") (lit "key") (lit "cert").

Lemma sigv3_agreement_witness : exists x,
  build_sigv3_extras (A := aes_toy) (replicate 32 7) (lit "4242") (b64_encode (public_of (replicate 32 9))) 1000 1700000000
    (lit "claims") (lit "sig") = Ok x
  /\ camera_keys (replicate 32 9) (lit "4242") 1000
       (sigv3_user (H5 := md5_toy) (lit "admin") (lit "4242") toy_bundle x) = Some (session_key x, session_iv x).
Proof.
  assert (forall s, forallb (in_range 32 255) s = true -> printable s) as Hpr.
  { intros s Hs. rewrite List.forallb_forall in Hs. apply List.Forall_forall. intros c Hc. specialize (Hs c Hc).
    unfold in_range in Hs. b2p. lia. }
  destruct (sigv3_agreement (A := aes_toy) (H5 := md5_toy) (replicate 32 9) (replicate 32 7) (lit "admin") (lit "4242")
    1000 1700000000 toy_bundle) as (x & Hx & Hk & _); try reflexivity; try (by apply Hpr); [lia|].
  exists x. split; [exact Hx|exact Hk].
Defined.

(** ** Who is logged in *)

(** Takes from the connection in order, whatever becomes of it; [steady] when it
    leaves the login state alone besides. *)
Definition consumes {T : Type} (m : M T) : Prop := forall w, exists u, inbox w = u ++ inbox (snd (m w)).
Definition steady {T : Type} (m : M T) : Prop := forall w, logged_in (cam (snd (m w))) = logged_in (cam w).

Lemma consumes_same {T : Type} (m : M T) : (forall w, inbox (snd (m w)) = inbox w) -> consumes m.
Proof. intros H w. exists []. by rewrite H. Qed.

Lemma consumes_bind {T U : Type} (m : M T) (k : T -> M U) :
  consumes m -> (forall a, consumes (k a)) -> consumes (let* a := m in k a).
Proof.
  intros Hm Hk w. destruct (Hm w) as (u & Hu). unfold bind. destruct (m w) as [[[a|e]|] w1]; cbn [snd] in *; eauto.
  destruct (Hk a w1) as (v & Hv). exists (u ++ v). by rewrite Hu, Hv, app_assoc.
Qed.

Lemma steady_bind {T U : Type} (m : M T) (k : T -> M U) :
  steady m -> (forall a, steady (k a)) -> steady (let* a := m in k a).
Proof.
  intros Hm Hk w. specialize (Hm w). unfold bind. destruct (m w) as [[[a|e]|] w1]; cbn [snd] in *; try done.
  by rewrite Hk.
Qed.

Lemma consumes_call c : consumes (call c).
Proof. apply consumes_same. intros w. unfold call. cbn. by destruct (acks w) as [|[e|] l]. Qed.

Lemma steady_call c : steady (call c).
Proof. intros w. unfold call. cbn. by destruct (acks w) as [|[e|] l]. Qed.

Lemma consumes_recv : consumes recv.
Proof.
  intros w. unfold recv. destruct (inbox w) as [|[m|e|] l] eqn:E; cbn [snd inbox]; rewrite ?E.
  1,4: by exists []. 1,2: by eexists [_].
Qed.

Lemma steady_recv : steady recv.
Proof. intros w. unfold recv. by destruct (inbox w) as [|[m|e|] l]. Qed.

Lemma consumes_outcome {T : Type} (m : M T) : consumes m -> consumes (outcome_of m).
Proof. intros H w. destruct (H w) as (u & Hu). exists u. unfold outcome_of. by destruct (m w) as [[r|] w1]. Qed.

Lemma steady_outcome {T : Type} (m : M T) : steady m -> steady (outcome_of m).
Proof. intros H w. specialize (H w). unfold outcome_of. by destruct (m w) as [[r|] w1]. Qed.

Lemma consumes_lift {T : Type} (r : result T Error) : consumes (lift r).
Proof. apply consumes_same. by destruct r. Qed.

Create HintDb steady.
#[export] Hint Resolve consumes_call consumes_recv consumes_outcome consumes_lift steady_call steady_recv
  steady_outcome : steady.
#[export] Hint Extern 1 (consumes (ret _)) => apply consumes_same; intros; reflexivity : steady.
#[export] Hint Extern 1 (consumes (fail _)) => apply consumes_same; intros; reflexivity : steady.
#[export] Hint Extern 1 (consumes (gets _)) => apply consumes_same; intros; reflexivity : steady.
#[export] Hint Extern 1 (consumes (modify _)) => apply consumes_same; intros; reflexivity : steady.
#[export] Hint Extern 1 (consumes new_message_num) => apply consumes_same; intros; reflexivity : steady.
#[export] Hint Extern 1 (consumes (subscribe _ _)) => apply consumes_call : steady.
#[export] Hint Extern 1 (consumes (send _)) => apply consumes_call : steady.
#[export] Hint Extern 1 (consumes (drop_subscription _ _)) => apply consumes_same; intros; reflexivity : steady.
#[export] Hint Extern 1 (steady (ret _)) => intros ?; reflexivity : steady.
#[export] Hint Extern 1 (steady (fail _)) => intros ?; reflexivity : steady.
#[export] Hint Extern 1 (steady (gets _)) => intros ?; reflexivity : steady.
#[export] Hint Extern 1 (steady (modify (fun c => set_abilities _ _))) => intros ?; reflexivity : steady.
#[export] Hint Extern 1 (steady new_message_num) => intros ?; reflexivity : steady.
#[export] Hint Extern 1 (steady (subscribe _ _)) => apply steady_call : steady.
#[export] Hint Extern 1 (steady (send _)) => apply steady_call : steady.

Ltac steadily :=
  repeat first
    [ progress auto with steady
    | match goal with
      | |- consumes (bind _ _) => apply consumes_bind; [|intros ?]
      | |- steady (bind _ _) => apply steady_bind; [|intros ?]
      | |- context [match ?x with _ => _ end] => destruct x
      end ].

Lemma consumes_populate : consumes populate_abilities.
Proof. unfold populate_abilities, get_abilityinfo, query, request, checked, taken. steadily. Qed.

Lemma steady_populate : steady populate_abilities.
Proof. unfold populate_abilities, get_abilityinfo, query, request, checked, taken. steadily. Qed.

#[export] Hint Resolve consumes_populate steady_populate : steady.

(** A program that succeeds with a device only on a reply under 200 that
    described it, and then the camera is logged in. *)
Definition earned (m : M DeviceInfo) : Prop := forall w di w',
  m w = (Some (Ok di), w') ->
  exists u r x, inbox w = u ++ inbox w' /\ In (Delivered r) u /\ response_code (meta r) = 200 /\ xml_of r = Some x
    /\ device_info (elements x) = Some di /\ logged_in (cam w') = true.

Lemma earned_bind {T : Type} (m : M T) (k : T -> M DeviceInfo) :
  consumes m -> (forall a, earned (k a)) -> earned (let* a := m in k a).
Proof.
  intros Hm Hk w di w' E. destruct (Hm w) as (u & Hu). unfold bind in E.
  destruct (m w) as [[[a|e]|] w1]; cbn [snd] in *; try done. destruct (Hk a _ _ _ E) as (v & r & x & Hv & Hr & H).
  exists (u ++ v), r, x. rewrite Hu, Hv, app_assoc. split; [done|]. split; [|done]. apply in_or_app. by right.
Qed.

Lemma earned_fail e : earned (fail e).
Proof. intros w di w' [=]. Qed.

(** What follows a login keeps its result. *)
Lemma earned_then (m : M DeviceInfo) {T : Type} (k : M T) :
  earned m -> consumes k -> steady k -> earned (let* di := m in let* _ := k in ret di).
Proof.
  intros Hm Hc Hs w di w' E. unfold bind in E. destruct (m w) as [[[d|e]|] w1] eqn:Em; try done.
  destruct (Hm _ _ _ Em) as (u & r & x & Hu & Hr & Hcode & Hx & Hd & Hl). specialize (Hs w1).
  destruct (Hc w1) as (v & Hv). destruct (k w1) as [[[a|e]|] w2]; cbn [snd] in *; try done.
  injection E as -> ->. exists (u ++ v), r, x. rewrite Hu, Hv, app_assoc, Hs. split; [done|]. split; [|done].
  apply in_or_app. by left.
Qed.

(** The last step: a reply, looked at and accepted. *)
Lemma earned_accept (k : Bc -> M DeviceInfo) :
  (forall m, exists c why, (k m = fail c) \/ (response_code (meta m) = 200 /\ k m = accept_device m why)) ->
  earned (let* m := recv in k m).
Proof.
  intros Hk w di w' E. unfold bind, recv in E. destruct (inbox w) as [|[m|e|] l] eqn:Ei; try done.
  destruct (Hk m) as (c & why & [Hf|[Hcode Ha]]); [by rewrite Hf in E|]. rewrite Ha in E. unfold accept_device in E.
  destruct (xml_of m) as [x|] eqn:Ex; [|done]. cbn [mbind option_bind] in E.
  destruct (device_info (elements x)) as [d|] eqn:Ed; [|done]. cbn in E. injection E as -> <-.
  exists [Delivered m], m, x. cbn. eauto 10.
Qed.

Section sound.
Context `{X5 : X25519} `{P : Pbkdf2} `{B : Base64} `{H5 : Md5} `{A : Aes128Cfb} `{CS : CloudService}.
Context (debug_strings : list bytes -> str).

Lemma consumes_mint : consumes mint_cloud_bundle.
Proof. unfold mint_cloud_bundle. steadily. Qed.

Ltac accepts := apply earned_accept; intros m; destruct (Z.eqb_spec (response_code (meta m)) 200); cbn [negb];
  [|by eexists _, []; left].

Lemma earned_sigv3 now secret nonce cam_pub iters bundle : earned (run_sigv3_login now secret nonce cam_pub iters bundle).
Proof.
  unfold run_sigv3_login. do 6 (apply earned_bind; [solve [auto with steady]|intros ?]). accepts.
  exists AuthFailed. eexists. right. by split.
Qed.

Lemma earned_authlogin c nonce num : earned (run_authlogin c nonce num).
Proof.
  unfold run_authlogin. do 3 (apply earned_bind; [solve [auto with steady]|intros ?]).
  destruct (body _) as [|[? [[|payload]|]]]; try apply earned_fail.
  destruct (parse_challenge payload) as [[ta tb]|]; [|apply earned_fail].
  do 3 (apply earned_bind; [solve [auto with steady]|intros ?]). accepts. exists AuthFailed. eexists. right. by split.
Qed.

Lemma earned_password c nonce num : earned (password_login c nonce num).
Proof.
  unfold password_login. do 2 (apply earned_bind; [solve [auto with steady]|intros ?]). accepts.
  destruct (body m) as [|[[?|] [?|]]]; try (exists AuthFailed; eexists; right; split; [done|reflexivity]).
  exists AuthFailed, []. by left.
Qed.

Lemma earned_finish (m : M DeviceInfo) : earned m -> earned (let* di := m in finish_cloud_login di).
Proof. intros Hm. apply earned_then; [done| |]; auto with steady. Qed.

(** C28: Whichever login is made, plain, signed or by
    challenge, it succeeds only with what a reply of the camera under code 200
    described, received while logging in, and then the camera counts as logged
    in. *)
Theorem login_sound now secret e w di w' :
  login_with_maxenc debug_strings now secret e w = (Some (Ok di), w') ->
  exists received reply x, inbox w = received ++ inbox w' /\ In (Delivered reply) received
    /\ response_code (meta reply) = 200 /\ xml_of reply = Some x /\ device_info (elements x) = Some di
    /\ logged_in (cam w') = true.
Proof.
  revert w di w'. change (earned (login_with_maxenc debug_strings now secret e)). unfold login_with_maxenc.
  apply earned_bind; [auto with steady|]. intros [[[nc cam_pub] iters]|].
  { apply earned_finish. unfold run_sigv3_direct. apply earned_bind; [apply consumes_mint|]. intros b.
    apply earned_sigv3. }
  do 4 (apply earned_bind; [solve [auto with steady]|intros ?]). destruct (_ && _); [apply earned_fail|].
  do 3 (apply earned_bind; [solve [auto with steady]|intros ?]). destruct (encryption_offer _) as [en|];
    [|apply earned_fail].
  match goal with |- context [if ?b then cloud_login _ _ _ _ _ _ else _] => destruct b end.
  - unfold cloud_login. destruct (sigv3_offer en) as [[k n]|].
    + apply earned_bind; [auto with steady|]. intros _. apply earned_bind; [apply consumes_mint|]. intros b.
      apply earned_finish, earned_sigv3.
    + destruct (existsb _ _); [|apply earned_fail]. apply earned_finish, earned_authlogin.
  - apply earned_then; [apply earned_password| |]; auto with steady.
Qed.
End sound.

(** ** What a signed login depends on *)

Definition with_password (p : option bytes) (c : BcCamera) : BcCamera :=
  MkBcCamera (cam_channel c) (logged_in c) (message_num c) (MkCredentials (username (cam_credentials c)) p)
    (abilities c) (is_cloud c) (sigv3_handshake c) (cloud_account c) (cloud_password c) (cloud_uid c)
    (cloud_mfa_trust_token c) (cloud_refresh_token c).

Definition repassword (p : option bytes) (w : World) : World :=
  MkWorld (with_password p (cam w)) (trace w) (acks w) (inbox w).

(** A program that does the same whatever the password is. *)
Definition blind {T : Type} (m : M T) : Prop := forall w p, m (repassword p w) = (fst (m w), repassword p (snd (m w))).

Lemma blind_bind {T U : Type} (m : M T) (k : T -> M U) : blind m -> (forall a, blind (k a)) -> blind (let* a := m in k a).
Proof.
  intros Hm Hk w p. unfold bind. rewrite Hm. destruct (m w) as [[[a|e]|] w1]; cbn [fst snd]; [apply Hk|done|done].
Qed.

(** What is read may depend on the password when what is done with it does not. *)
Lemma blind_gets {T U : Type} (f : BcCamera -> T) (k : T -> M U) :
  (forall c p, k (f (with_password p c)) = k (f c)) -> (forall a, blind (k a)) -> blind (let* a := gets f in k a).
Proof. intros Hf Hk w p. unfold bind, gets. cbn [cam repassword]. rewrite Hf. apply Hk. Qed.

Lemma blind_call c : blind (call c).
Proof. intros w p. unfold call, record. cbn. by destruct (acks w) as [|[e|] l]. Qed.

Lemma blind_recv : blind recv.
Proof. intros w p. unfold recv. cbn. by destruct (inbox w) as [|[m|e|] l]. Qed.

Lemma blind_outcome {T : Type} (m : M T) : blind m -> blind (outcome_of m).
Proof. intros H w p. unfold outcome_of. rewrite H. by destruct (m w) as [[r|] w1]. Qed.

Create HintDb blind.
#[export] Hint Resolve blind_call blind_recv blind_outcome : blind.
#[export] Hint Extern 1 (blind (ret _)) => intros ? ?; reflexivity : blind.
#[export] Hint Extern 1 (blind (fail _)) => intros ? ?; reflexivity : blind.
#[export] Hint Extern 1 (blind (gets _)) => intros ? ?; reflexivity : blind.
#[export] Hint Extern 1 (blind (modify _)) => intros ? ?; reflexivity : blind.
#[export] Hint Extern 1 (blind new_message_num) => intros ? ?; reflexivity : blind.
#[export] Hint Extern 1 (blind (subscribe _ _)) => apply blind_call : blind.
#[export] Hint Extern 1 (blind (send _)) => apply blind_call : blind.
#[export] Hint Extern 1 (blind (drop_subscription _ _)) => intros ? ?; reflexivity : blind.

Ltac blindly :=
  repeat first
    [ progress auto with blind
    | match goal with
      | |- blind (bind (gets _) _) => apply blind_gets; [intros; reflexivity|intros ?]
      | |- blind (bind _ _) => apply blind_bind; [|intros ?]
      | |- blind (match ?x with _ => _ end) => destruct x
      end ].

Lemma blind_populate : blind populate_abilities.
Proof. unfold populate_abilities, get_abilityinfo, query, request, checked, taken. blindly. Qed.

#[export] Hint Resolve blind_populate : blind.

Section blind_login.
Context `{X5 : X25519} `{P : Pbkdf2} `{B : Base64} `{H5 : Md5} `{A : Aes128Cfb} `{CS : CloudService}.
Context (debug_strings : list bytes -> str).

Lemma blind_mint : blind mint_cloud_bundle.
Proof. unfold mint_cloud_bundle, lift. blindly. Qed.

Lemma blind_sigv3 now secret nonce cam_pub iters bundle : blind (run_sigv3_login now secret nonce cam_pub iters bundle).
Proof. unfold run_sigv3_login, accept_device, lift. blindly. Qed.

Lemma blind_authlogin c nonce num : blind (run_authlogin c nonce num).
Proof. unfold run_authlogin, accept_device, lift. blindly. Qed.

(** The signed login is the one made: the handshake brought a key, or the
    camera is a cloud camera, and offers one if it answers at all. *)
Definition signed (w : World) : Prop :=
  handshake (cam w) <> None
  \/ is_cloud (cam w) = true
     /\ match inbox w with
        | Delivered m :: _ => forall e, encryption_offer m = Some e -> sigv3_offer e <> None
        | _ => True
        end.

(** The login such a camera gets. *)
Definition signed_tail (now : Z) (secret : bytes) (e : MaxEncryption) : M DeviceInfo :=
  let* num := new_message_num in
  let* _ := subscribe MSG_ID_LOGIN num in
  let* channel := gets cam_channel in
  let* _ := send (MkBc (MkBcMeta MSG_ID_LOGIN channel 0 (enc_byte e) num MSG_CLASS_LEGACY_LOGIN) (Legacy LoginUpgrade)) in
  let* m := recv in
  match encryption_offer m with
  | None => fail (UnintelligibleReply m (lit "Expected an Encryption message back"))
  | Some en => cloud_login debug_strings now secret (MkCredentials [] None) (MkEncryption (enc_version en) (type_ en)
                 (nonce en) None (sig_ver en) (ecdhe en)) num
  end.

Lemma blind_tail now secret e : blind (signed_tail now secret e).
Proof.
  unfold signed_tail, cloud_login, finish_cloud_login. pose proof blind_mint. pose proof blind_sigv3. pose proof blind_authlogin. blindly.
Qed.

Lemma signed_tail_eq now secret e w :
  handshake (cam w) = None -> signed w -> login_with_maxenc debug_strings now secret e w = signed_tail now secret e w.
Proof.
  intros Hh [?|[Hc Hi]]; [done|]. unfold login_with_maxenc, signed_tail. unfold bind at 1 2 3, gets. rewrite Hh.
  unfold new_message_num, subscribe, send, call, record, recv, bind, ret, fail. cbn [acks cam trace inbox].
  destruct (acks w) as [|[e1|] [|[e2|] l]];
    repeat (progress (cbn [acks cam trace inbox is_cloud set_message_num cam_channel negb andb]; rewrite ?Hc)); try done.
  destruct (inbox w) as [|[m|e1|] l']; try done. destruct (encryption_offer m) as [en|] eqn:Ee; [|done].
  specialize (Hi en eq_refl). unfold cloud_login. change (sigv3_offer (MkEncryption _ _ _ _ _ _)) with (sigv3_offer en).
  by destruct (sigv3_offer en) as [[k n]|].
Qed.

(** A signed login makes no use of the local password:
    with any other one it sends the same messages, byte for byte, and ends the
    same. *)
Theorem signed_login_blind now secret e w p :
  signed w ->
  let w' := snd (login_with_maxenc debug_strings now secret e w) in
  fst (login_with_maxenc debug_strings now secret e (repassword p w))
    = fst (login_with_maxenc debug_strings now secret e w)
  /\ trace (snd (login_with_maxenc debug_strings now secret e (repassword p w))) = trace w'.
Proof.
  intros Hs.
  assert (login_with_maxenc debug_strings now secret e (repassword p w)
    = (fst (login_with_maxenc debug_strings now secret e w),
       repassword p (snd (login_with_maxenc debug_strings now secret e w)))) as ->; [|done].
  destruct (handshake (cam w)) as [[[nc k] n]|] eqn:Hh.
  - assert (forall w, handshake (cam w) = Some (nc, k, n) -> login_with_maxenc debug_strings now secret e w
      = (let* di := run_sigv3_direct now secret nc k n in finish_cloud_login di) w) as E
      by (intros w0 E; unfold login_with_maxenc; unfold bind at 1, gets; by rewrite E).
    rewrite !E by done. unfold run_sigv3_direct, finish_cloud_login.
    enough (blind (let* di := let* b := mint_cloud_bundle in run_sigv3_login now secret (show_int nc) k n b in
      let* _ := outcome_of populate_abilities in ret di)) as H by apply H.
    pose proof blind_mint. pose proof blind_sigv3. blindly.
  - rewrite !signed_tail_eq by done. apply blind_tail.
Qed.
End blind_login.

(** ** The challenge *)

Section challenge.
Context `{B : Base64} `{H5 : Md5} `{A : Aes128Cfb}.
Context {BL : Base64Laws B} {AL : Aes128CfbLaws A}.

(** The camera's side: a token, with as many NULs after it as it likes, under
    the session key, in a slot of its own. *)
Definition challenge_text (c : Credentials) (nonce token : bytes) (nuls : nat) : str :=
  b64_encode (aes_encrypt (aes_new (make_aeskey c nonce) IV) (token ++ replicate nuls 0)).

Definition in_slot (text : str) : bytes := text ++ replicate (CHALLENGE_SLOT - length text) 0.

Lemma in_slot_length text : (length text <= CHALLENGE_SLOT)%nat -> length (in_slot text) = CHALLENGE_SLOT.
Proof. intros H. unfold in_slot. rewrite length_app, length_replicate. lia. Qed.

Lemma take_while_slot text : Forall is_graphic text -> take_while (fun b => negb (b =? 0)) (in_slot text) = text.
Proof.
  intros Hg. assert (Forall (fun x => negb (x =? 0) = true) text) as Hn.
  { eapply Forall_impl; [|exact Hg]. intros c Hc. unfold is_graphic in Hc. by rewrite (proj2 (Z.eqb_neq _ _)) by lia. }
  unfold in_slot. destruct (CHALLENGE_SLOT - length text)%nat as [|k].
  - rewrite app_nil_r. by apply take_while_all.
  - by apply take_while_stop.
Qed.

Lemma parse_challenge_exact a b :
  Forall is_graphic a -> Forall is_graphic b -> a <> [] -> b <> [] ->
  (length a <= CHALLENGE_SLOT)%nat -> (length b <= CHALLENGE_SLOT)%nat ->
  parse_challenge (in_slot a ++ in_slot b) = Some (a, b).
Proof.
  intros Ga Gb Na Nb La Lb. pose proof (in_slot_length a La) as Ea. pose proof (in_slot_length b Lb) as Eb.
  unfold parse_challenge, slot. rewrite length_app, Ea, Eb. change (Nat.min (0 + _) _) with CHALLENGE_SLOT.
  change (Nat.min (_ + _) _) with (CHALLENGE_SLOT + CHALLENGE_SLOT)%nat. cbn [Nat.ltb Nat.leb].
  change (CHALLENGE_SLOT - 0)%nat with CHALLENGE_SLOT. change (drop 0 ?l) with l.
  change (CHALLENGE_SLOT + CHALLENGE_SLOT - CHALLENGE_SLOT)%nat with CHALLENGE_SLOT.
  rewrite (take_app_length' _ _ CHALLENGE_SLOT), (drop_app_length' _ _ CHALLENGE_SLOT), (take_ge (in_slot b)) by lia.
  rewrite !take_while_slot, !trim_graphic by done. by destruct a, b.
Qed.

Lemma trim_end_nuls token k : Forall is_graphic token -> trim_end (Z.eqb 0) (token ++ replicate k 0) = token.
Proof.
  intros Hg. unfold trim_end. rewrite rev_app_distr.
  assert (rev (replicate k 0) = replicate k 0) as ->.
  { induction k as [|k IH]; [done|]. cbn [replicate rev]. rewrite IH. symmetry. apply replicate_S_end. }
  assert (forall l, drop_while (Z.eqb 0) (replicate k 0 ++ l) = drop_while (Z.eqb 0) l) as ->
    by (intros l; by induction k).
  rewrite drop_while_id; [apply rev_involutive|]. apply forall_ends in Hg as [_ H].
  destruct (rev token) as [|y ys]; [done|]. unfold is_graphic in H. apply Z.eqb_neq. lia.
Qed.

Lemma decrypt_token_exact c nonce token k :
  Forall is_graphic token -> decrypt_token (challenge_text c nonce token k) c nonce = Ok token.
Proof.
  intros Hg. pose proof (graphic_ascii _ Hg) as Ha. unfold decrypt_token, challenge_text.
  assert (Forall is_ascii (token ++ replicate k 0)) as Hz
    by (apply Forall_app; split; [done|apply Forall_replicate; unfold is_ascii; lia]).
  assert (bytes_ok (token ++ replicate k 0)).
  { eapply Forall_impl; [|exact Hz]. intros x Hx. unfold is_ascii in Hx. unfold in_u. lia. }
  rewrite trim_graphic, b64_decode_encode by (apply b64_encode_graphic || by apply aes_encrypt_ok).
  unfold decrypt, aes. rewrite aes_decrypt_encrypt by done. rewrite lossy_ascii by done.
  by rewrite trim_end_nuls, trim_graphic, as_bytes_ascii.
Qed.

(** Given a camera that knows the password and challenges
    the client with two tokens under the key of password and nonce, the client
    proves the password with its digest, answers with the digests of exactly
    those tokens, and once these are accepted is logged in with what the camera
    described. *)
Theorem authlogin_exact c nonce num a b na nb w challenge e final x di l r :
  let ta := challenge_text c nonce a na in
  let tb := challenge_text c nonce b nb in
  Forall is_graphic a -> Forall is_graphic b -> (0 < length ta <= CHALLENGE_SLOT)%nat ->
  (0 < length tb <= CHALLENGE_SLOT)%nat ->
  acks w = None :: None :: l -> inbox w = Delivered challenge :: Delivered final :: r ->
  body challenge = Modern (MkModernMsg e (Some (Binary (in_slot ta ++ in_slot tb)))) ->
  response_code (meta final) = 200 -> xml_of final = Some x -> device_info (elements x) = Some di ->
  let message := login_message MSG_CLASS_MODERN_LOGIN (cam_channel (cam w)) num in
  run_authlogin c nonce num w
  = (Some (Ok di), MkWorld (set_logged_in (cam w) true)
      (trace w ++ [Send (message (getaccesskey_user (default [] (password c)) nonce));
                   Send (message (authlogin_user a b nonce))]) l r).
Proof.
  intros ta tb Ga Gb Ta Tb Ha Hi Hb Hc Hx Hd message. unfold run_authlogin, send, call, record, recv, bind, gets.
  cbn [acks cam trace inbox]. rewrite Ha. cbn [acks cam trace inbox]. rewrite Hi. cbn [acks cam trace inbox]. rewrite Hb.
  rewrite (parse_challenge_exact ta tb); try apply b64_encode_graphic; try lia;
    try (intros E; rewrite E in *; cbn in *; lia).
  unfold ta, tb. rewrite !decrypt_token_exact by done. cbn [lift ret acks cam trace inbox]. rewrite Hc. cbn [Z.eqb Pos.eqb negb].
  unfold accept_device. rewrite Hx. cbn [mbind option_bind]. rewrite Hd. cbn. by rewrite <- app_assoc.
Qed.
End challenge.

(** ** Sessions *)

#[local] Instance cloud_toy : CloudService := {| mint_bundle account password uid mfa refresh := Ok toy_bundle |}.

Definition toy_xml (code : Z) (x : BcXml Elements) : Reception :=
  Delivered (MkBc (MkBcMeta MSG_ID_LOGIN 0 0 code 7 0x6414) (Modern (MkModernMsg None (Some (BcXmlPayload x))))).

Definition toy_device : DeviceInfo := MkDeviceInfo (Some (lit "1.1")) None.

Definition toy_offer (e : option Ecdhe) : BcXml Elements :=
  MkBcXml (Some (MkEncryption (lit "1.1") (lit "md5") (lit "4242") None (Some (lit "v3")) e)) None no_elements.

Definition offline (is_cloud : bool) : BcCamera :=
  MkBcCamera 0 false 7 toy_credentials ∅ is_cloud None (Some (lit "me@example.org")) (Some (lit "pw")) (Some (lit "UID"))
    None None.

Definition toy_login : MaxEncryption -> M DeviceInfo :=
  login_with_maxenc (A := aes_toy) (H5 := md5_toy) (fun _ => []) 1700000000 (replicate 32 7).

(** The plain login, the abilities after it. *)
Definition plain_world : World :=
  MkWorld (offline false) [] (replicate 5 None)
    [toy_xml 200 (toy_offer None); toy_xml 200 (MkBcXml None None (only_device_info toy_device));
     Delivered (toy_reply MSG_ID_ABILITY_INFO 200 (only_ability_info toy_abilities))].

Lemma login_sound_witness : logged_in (cam (snd (toy_login EncAes plain_world))) = true.
Proof.
  destruct (login_sound (A := aes_toy) (H5 := md5_toy) (fun _ => []) 1700000000 (replicate 32 7) EncAes plain_world toy_device
    (snd (toy_login EncAes plain_world))) as (u & r & x & _ & _ & _ & _ & _ & H); [vm_compute; reflexivity|exact H].
Defined.

(** Without a password nothing is sent. *)
Example no_password_sends_nothing :
  toy_login EncAes (repassword None plain_world)
  = (Some (Err AuthFailed), MkWorld (set_message_num (with_password None (offline false)) 8) [Subscribe MSG_ID_LOGIN 7]
       (replicate 4 None) (inbox plain_world)).
Proof. vm_compute. reflexivity. Qed.

Definition signed_world : World :=
  MkWorld (offline true) [] (replicate 6 None)
    [toy_xml 200 (toy_offer (Some (MkEcdhe (lit "X25519") (b64_encode (public_of (replicate 32 9))) [] 1000)));
     toy_xml 200 (MkBcXml None None (only_device_info toy_device))].

Lemma signed_login_blind_witness :
  fst (toy_login EncAes (repassword None signed_world)) = fst (toy_login EncAes signed_world).
Proof.
  apply (signed_login_blind (A := aes_toy) (H5 := md5_toy) (fun _ => []) 1700000000 (replicate 32 7) EncAes signed_world None).
  right. split; [reflexivity|]. intros e He. injection He as <-. discriminate.
Defined.

Lemma authlogin_exact_witness :
  fst (run_authlogin (A := aes_toy) (H5 := md5_toy) toy_credentials (lit "4242") 7
    (MkWorld (offline true) [] [None; None]
      [Delivered (MkBc (MkBcMeta 1 0 0 200 7 0x6414) (Modern (MkModernMsg None (Some (Binary
         (in_slot (challenge_text (A := aes_toy) (H5 := md5_toy) toy_credentials (lit "4242") (lit "first") 3) ++
          in_slot (challenge_text (A := aes_toy) (H5 := md5_toy) toy_credentials (lit "4242") (lit "second") 0)))))));
       toy_xml 200 (MkBcXml None None (only_device_info toy_device))])) = Some (Ok toy_device).
Proof.
  rewrite (authlogin_exact (A := aes_toy) (H5 := md5_toy) toy_credentials (lit "4242") 7 (lit "first") (lit "second") 3 0 _
    (MkBc (MkBcMeta 1 0 0 200 7 0x6414) (Modern (MkModernMsg None (Some (Binary
         (in_slot (challenge_text (A := aes_toy) (H5 := md5_toy) toy_credentials (lit "4242") (lit "first") 3) ++
          in_slot (challenge_text (A := aes_toy) (H5 := md5_toy) toy_credentials (lit "4242") (lit "second") 0)))))))
    None (MkBc (MkBcMeta MSG_ID_LOGIN 0 0 200 7 0x6414)
      (Modern (MkModernMsg None (Some (BcXmlPayload (MkBcXml None None (only_device_info toy_device)))))))
    (MkBcXml None None (only_device_info toy_device)) toy_device [] []); try reflexivity; try lit_check;
    vm_compute; split; lia.
Defined.
