(* ===== verification/Clock.v ===== *)
(** * The camera's clock ([src/baichuan/bc_protocol/time.rs])

    Reading and setting the clock, and the daylight-saving rules of a camera, as
    programs over the connection like those of [Commands]. Dates, times and
    offsets are the [time] crate's, an interface with the laws it documents; a
    timestamp is in whole seconds. Integers are those of a release build. *)

From S2P Require Import Prelude Text Wire XorCrypto BcXml BcMsg BcConn Commands.

(** ** The [time] crate *)

Class TimeCrate := {
  Date : Type;
  from_calendar_date : Z -> Z -> Z -> option Date;
  ymd : Date -> Z * Z * Z;
  weekday : Date -> Z;
  month_length : Z -> Z -> Z;
  to_julian_day : Date -> Z;
  Time : Type;
  from_hms : Z -> Z -> Z -> option Time;
  hms : Time -> Z * Z * Z;
  from_whole_seconds : Z -> option Z;
  datetime_ltb : Date * Time -> Date * Time -> bool;
  date_ltb : Date -> Date -> bool;
  to_utc : Date * Time -> Z -> option (Date * Time);
  parsed_date : Z -> Z -> Z -> option Date;
  parsed_time : Z -> Z -> Z -> option Time
}.

(** Seconds of a local date and time on a line of its own. *)
Definition day_seconds (x : Z * Z * Z) : Z := let '(h, m, s) := x in 3600 * h + 60 * m + s.

Section seconds.
Context `{T : TimeCrate}.

Definition local_seconds (p : Date * Time) : Z := 86400 * to_julian_day (fst p) + day_seconds (hms (snd p)).
End seconds.

(** Weekdays count from Monday. [to_utc] is [to_offset(UTC)], [None] where it
    panics; the last two are [try_from] of a [Parsed]. *)
Class TimeLaws (T : TimeCrate) : Prop := {
  from_ymd x : let '(y, m, d) := ymd x in from_calendar_date y m d = Some x;
  ymd_from y m d x : from_calendar_date y m d = Some x -> ymd x = (y, m, d);
  calendar_date y m d :
    is_Some (from_calendar_date y m d) <-> -9999 <= y <= 9999 /\ 1 <= m <= 12 /\ 1 <= d <= month_length y m;
  month_length_range y m : 28 <= month_length y m <= 31;
  weekday_range x : 0 <= weekday x < 7;
  weekday_next y m d x x' : from_calendar_date y m d = Some x -> from_calendar_date y m (d + 1) = Some x' ->
    weekday x' = (weekday x + 1) mod 7;
  hms_range t : let '(h, m, s) := hms t in 0 <= h < 24 /\ 0 <= m < 60 /\ 0 <= s < 60;
  from_whole_seconds_range x : from_whole_seconds x = if in_range (-93599) 93599 x then Some x else None;
  datetime_ltb_spec a b : datetime_ltb a b = (local_seconds a <? local_seconds b);
  date_ltb_spec a b : date_ltb a b = (to_julian_day a <? to_julian_day b);
  to_utc_spec p o p' : to_utc p o = Some p' -> local_seconds p' = local_seconds p - o;
  parsed_date_spec x : let '(y, m, d) := ymd x in parsed_date y m d = Some x;
  parsed_time_spec t : let '(h, m, s) := hms t in parsed_time h m s = Some t
}.

(** ** Days of a month *)

Section rules.
Context `{T : TimeCrate}.

(** The first of the days on that weekday. *)
Fixpoint first_on (year month wd : Z) (days : list Z) : option (Z * Date) :=
  match days with
  | [] => None
  | d :: days =>
      match from_calendar_date year month d with
      | Some date => if weekday date =? wd then Some (d, date) else first_on year month wd days
      | None => first_on year month wd days
      end
  end.

Definition nth_weekday_of_month (year month week_index wd : Z) : option Date :=
  if (week_index =? 0) || (5 <? week_index) then None
  else
    let last_day := month_length year month in
    if week_index =? 5 then snd <$> first_on year month wd (rev (seqZ 1 last_day))
    else
      match first_on year month wd (seqZ 1 7) with
      | Some (d, _) =>
          let day_of_target := d + (week_index - 1) * 7 in
          if last_day <? day_of_target then None else from_calendar_date year month day_of_target
      | None => None
      end.

Definition weekday_names : list (str * Z) :=
  [(lit "monday", 0); (lit "mon", 0); (lit "tuesday", 1); (lit "tue", 1); (lit "wednesday", 2); (lit "wed", 2);
   (lit "thursday", 3); (lit "thu", 3); (lit "friday", 4); (lit "fri", 4); (lit "saturday", 5); (lit "sat", 5);
   (lit "sunday", 6); (lit "sun", 6)].

Definition parse_weekday (s : str) : option Z :=
  snd <$> List.find (fun p => bool_decide (fst p = to_ascii_lowercase (trim s))) weekday_names.

Definition dst_transition_for_year (year : Z) (month week_index : option Z) (wd : option str)
    (hour minute second : option Z) : option (Date * Time) :=
  month ← month; month ← (if in_range 1 12 month then Some month else None);
  week_index ← week_index;
  wd ← (wd ≫= parse_weekday);
  date ← nth_weekday_of_month year month week_index wd;
  time ← from_hms (default 0 hour) (default 0 minute) (default 0 second);
  Some (date, time).

Definition i32_min : Z := - 2 ^ 31.
Definition i32_max : Z := 2 ^ 31 - 1.

(** Saturating and wrapping 32-bit arithmetic. *)
Definition sat_i32 (x : Z) : Z := clamp i32_min i32_max x.
Definition wrap_i32 (x : Z) : Z := wrap 32 (x + 2 ^ 31) - 2 ^ 31.

Definition dst_offset_seconds (dst : Dst) (instant_local : Date * Time) : Z :=
  if negb (bool_decide (dst_enable dst = Some 1)) then 0
  else
    match dst_offset dst with
    | None => 0
    | Some offset_hours =>
        if offset_hours =? 0 then 0
        else
          let year := fst (fst (ymd (fst instant_local))) in
          match dst_transition_for_year year (dst_start_month dst) (dst_start_week_index dst)
                  (chars <$> dst_start_weekday dst) (dst_start_hour dst) (dst_start_minute dst) (dst_start_second dst),
                dst_transition_for_year year (dst_end_month dst) (dst_end_week_index dst)
                  (chars <$> dst_end_weekday dst) (dst_end_hour dst) (dst_end_minute dst) (dst_end_second dst) with
          | Some start, Some stop =>
              let in_window :=
                if datetime_ltb start stop
                then negb (datetime_ltb instant_local start) && datetime_ltb instant_local stop
                else negb (datetime_ltb instant_local start) || datetime_ltb instant_local stop in
              if in_window then sat_i32 (offset_hours * 3600) else 0
          | _, _ => 0
          end
    end.

(** ** Reading *)

(** A date and time with an offset. *)
Record OffsetDateTime := MkOffsetDateTime { local : Date * Time; offset : Z }.

(** Its instant, in seconds from the start of the Julian count. *)
Definition instant (t : OffsetDateTime) : Z := local_seconds (local t) - offset t.

(** Any failure is one error to the caller. *)
Definition try_build_timestamp (timezone year month day hour minute second : Z) : option OffsetDateTime :=
  date ← parsed_date year month day;
  time ← parsed_time hour minute second;
  o ← from_whole_seconds (wrap_i32 (- timezone));
  Some (MkOffsetDateTime (date, time) o).

Definition get_system_general : M SystemGeneral :=
  query MSG_ID_GET_GENERAL nothing system_general (lit "Reply did not contain a SystemGeneral block").

(** The six fields and the zone, if all are there. *)
Definition time_fields (g : SystemGeneral) : option (Z * Z * Z * Z * Z * Z * Z) :=
  tz ← general_time_zone g; y ← general_year g; mo ← general_month g; d ← general_day g;
  h ← general_hour g; mi ← general_minute g; s ← general_second g; Some (tz, y, mo, d, h, mi, s).

Definition BOUNDARY : option Date := from_calendar_date 2019 1 1.

Definition get_time : M (option OffsetDateTime) :=
  let* _ := has_ability_ro (lit "general") in
  let* general := get_system_general in
  let reply := MkBcXml None None (only_system_general general) in
  match time_fields general with
  | None => fail (UnintelligibleXml reply (lit "SystemGeneral reply missing one or more time fields"))
  | Some (tz, y, mo, d, h, mi, s) =>
      match try_build_timestamp tz y mo d h mi s with
      | None => fail (UnintelligibleXml reply (lit "Could not parse date"))
      | Some datetime =>
          match BOUNDARY with
          | Some b => ret (if date_ltb (fst (local datetime)) b then None else Some datetime)
          | None => ret (Some datetime)
          end
      end
  end.

(** ** The schedule *)

Context `{X : QuickXml}.

Definition get_dst : M Dst :=
  let* _ := request MSG_ID_GET_DST nothing in
  let* msg := recv in
  let* _ := checked msg in
  let bare := MkBc (meta msg) (Modern (MkModernMsg None None)) in
  match body msg with
  | Modern (MkModernMsg _ (Some (BcXmlPayload xml))) =>
      match dst (elements xml) with
      | Some d => ret d
      | None => fail (UnintelligibleReply bare (lit "GetDst reply lacked a <Dst> body"))
      end
  | Modern (MkModernMsg _ (Some (Binary bytes))) =>
      match de_body bytes ≫= (fun x => dst (elements x)) with
      | Some d => ret d
      | None => fail (UnintelligibleReply bare (lit "GetDst binary payload did not contain <Dst>"))
      end
  | _ => fail (UnintelligibleReply msg (lit "GetDst reply lacked a <Dst> body"))
  end.

(** ** Setting *)

Definition with_time (g : SystemGeneral) (tz : Z) (p : Date * Time) : SystemGeneral :=
  let '(y, mo, d) := ymd (fst p) in
  let '(h, mi, s) := hms (snd p) in
  MkSystemGeneral xml_ver (Some tz) (Some y) (Some mo) (Some d) (Some h) (Some mi) (Some s)
    (general_osd_format g) (general_time_format g) (general_language g) (general_device_name g).

(** What is written for a timestamp, [None] where the shift to UTC panics. *)
Definition new_general (g : SystemGeneral) (dst_seconds : Z) (timestamp : OffsetDateTime) : option SystemGeneral :=
  if negb (dst_seconds =? 0) then
    utc ← to_utc (local timestamp) (offset timestamp);
    let base_offset_seconds := sat_i32 (offset timestamp - dst_seconds) in
    Some (with_time g (wrap_i32 (- base_offset_seconds)) utc)
  else Some (with_time g (wrap_i32 (- offset timestamp)) (local timestamp)).

Definition set_time (timestamp : OffsetDateTime) : M unit :=
  let* _ := has_ability_rw (lit "general") in
  let* r := outcome_of get_dst in
  let dst_seconds := match r with Ok d => dst_offset_seconds d (local timestamp) | Err _ => 0 end in
  let* general := get_system_general in
  match new_general general dst_seconds timestamp with
  | None => fail Panicked
  | Some general =>
      let* _ := request MSG_ID_SET_GENERAL (fun _ => (None, xml_body (only_system_general general))) in
      let* msg := recv in
      accepted msg (lit "The camera did not accept the set time command.")
  end.
End rules.

(** ** The days on a weekday *)

Lemma omap_all_some {A B : Type} (f : A -> option B) l :
  Forall (fun a => is_Some (f a)) l -> length (omap f l) = length l /\ forall k, omap f l !! k = l !! k ≫= f.
Proof.
  induction 1 as [|a l [b Hb] _ [IH1 IH2]]; [done|]. cbn [omap list_omap]. rewrite Hb. cbn [length]. rewrite IH1.
  split; [done|]. intros [|k]; [by cbn; rewrite Hb|apply IH2].
Qed.

Section days.
Context `{T : TimeCrate} {TL : TimeLaws T}.

(** Every date of the month on that weekday, in order. *)
Definition occurrences (y m wd : Z) : list Date :=
  omap (fun d => x ← from_calendar_date y m d; if weekday x =? wd then Some x else None) (seqZ 1 (month_length y m)).

Definition on (w1 wd d : Z) : bool := (w1 + (d - 1)) mod 7 =? wd.

Lemma weekday_of y m x1 d x :
  from_calendar_date y m 1 = Some x1 -> from_calendar_date y m d = Some x -> weekday x = (weekday x1 + (d - 1)) mod 7.
Proof.
  intros H1 Hd. assert (1 <= d) as Hge by (apply (calendar_date y m d); by eexists).
  revert x Hd. pattern d. apply (Zlt_lower_bound_ind _ 1); [|done]. clear d Hge. intros d IH Hge x Hd.
  destruct (decide (d = 1)) as [->|Hne].
  - rewrite H1 in Hd. injection Hd as ->. pose proof (weekday_range x). rewrite Z.add_0_r. by rewrite Z.mod_small.
  - destruct (proj2 (calendar_date y m (d - 1))) as [x' Hx'].
    { destruct (proj1 (calendar_date y m d) ltac:(by eexists)) as (? & ? & ?). lia. }
    replace d with (d - 1 + 1) in Hd by lia. rewrite (weekday_next _ _ _ _ _ Hx' Hd).
    rewrite (IH (d - 1) ltac:(lia) x' Hx'). rewrite Zplus_mod_idemp_l. f_equal. lia.
Qed.

(** In a month of the calendar all days are dates, and their weekdays follow
    from that of the first. *)
Section month.
Context (y m : Z) (x1 : Date).
Hypothesis H1 : from_calendar_date y m 1 = Some x1.

Lemma day_some d : 1 <= d <= month_length y m -> exists x, from_calendar_date y m d = Some x /\ weekday x = (weekday x1 + (d - 1)) mod 7.
Proof.
  intros Hd. destruct (proj1 (calendar_date y m 1) ltac:(by eexists)) as (? & ? & ?).
  destruct (proj2 (calendar_date y m d)) as [x Hx]; [done|]. exists x. split; [done|]. by apply (weekday_of y m x1).
Qed.

Lemma first_on_find wd days :
  Forall (fun d => 1 <= d <= month_length y m) days ->
  first_on y m wd days = (d ← List.find (on (weekday x1) wd) days; x ← from_calendar_date y m d; Some (d, x)).
Proof.
  induction 1 as [|d days Hd _ IH]; [done|]. cbn [first_on List.find]. destruct (day_some d Hd) as (x & Hx & Hw).
  rewrite Hx, Hw. unfold on. destruct (_ =? wd); [cbn; by rewrite Hx|exact IH].
Qed.

Lemma month_days : Forall (fun d => 1 <= d <= month_length y m) (seqZ 1 (month_length y m)).
Proof. apply List.Forall_forall. intros d Hd. apply list_elem_of_In, elem_of_seqZ in Hd. lia. Qed.

Lemma occurrences_filter wd :
  occurrences y m wd = omap (from_calendar_date y m) (List.filter (on (weekday x1) wd) (seqZ 1 (month_length y m))).
Proof.
  unfold occurrences. induction month_days as [|d days Hd _ IH]; [done|]. cbn [omap list_omap List.filter].
  destruct (day_some d Hd) as (x & Hx & Hw). rewrite Hx. cbn [mbind option_bind]. rewrite Hw. unfold on at 1.
  destruct (_ =? wd); cbn [omap list_omap]; [rewrite Hx; f_equal; exact IH|exact IH].
Qed.

Lemma days_some wd :
  Forall (fun d => is_Some (from_calendar_date y m d)) (List.filter (on (weekday x1) wd) (seqZ 1 (month_length y m))).
Proof.
  apply List.Forall_forall. intros d Hd. apply filter_In in Hd as [Hd _].
  pose proof month_days as H. rewrite List.Forall_forall in H. destruct (day_some d (H d Hd)) as (x & -> & _). by eexists.
Qed.
End month.

(** The checks, for the lengths and weekdays there are. *)
Definition nth_ok (n w1 wd i : Z) : bool :=
  let days := List.filter (on w1 wd) (seqZ 1 n) in
  if i =? 5 then
    bool_decide (List.find (on w1 wd) (rev (seqZ 1 n)) = days !! pred (length days))
    && match days with [] => false | _ => true end
  else
    match List.find (on w1 wd) (seqZ 1 7) with
    | Some d =>
        (d + (i - 1) * 7 <=? n) && (1 <=? d + (i - 1) * 7) && bool_decide (days !! Z.to_nat (i - 1) = Some (d + (i - 1) * 7))
    | None => false
    end.

Lemma nth_ok_all n w1 wd i : 28 <= n <= 31 -> 0 <= w1 < 7 -> 0 <= wd < 7 -> 1 <= i <= 5 -> nth_ok n w1 wd i = true.
Proof.
  intros Hn H1 Hw Hi.
  assert (check_range 4 28 (fun n => check_range 7 0 (fun w1 => check_range 7 0 (fun wd =>
    check_range 5 1 (nth_ok n w1 wd)))) = true) as H by (vm_compute; reflexivity).
  apply (check_range_spec _ _ _ n) in H; [|lia]. cbv beta in H. apply (check_range_spec _ _ _ w1) in H; [|lia].
  cbv beta in H. apply (check_range_spec _ _ _ wd) in H; [|lia]. cbv beta in H.
  by apply (check_range_spec _ _ _ i) in H; [|lia].
Qed.

(** For every month of the calendar the rule finds the
    [i]-th of the dates on that weekday for [i] from 1 to 4, which there always
    is, and the last of them for 5; no other index is accepted. *)
Theorem nth_weekday_exact y m i wd :
  -9999 <= y <= 9999 -> 1 <= m <= 12 -> 0 <= wd < 7 -> 0 <= i ->
  let dates := occurrences y m wd in
  nth_weekday_of_month y m i wd
    = (if in_range 1 4 i then dates !! Z.to_nat (i - 1) else if i =? 5 then dates !! pred (length dates) else None)
  /\ (1 <= i <= 5 -> is_Some (nth_weekday_of_month y m i wd)).
Proof.
  intros Hy Hm Hw Hi dates. pose proof (month_length_range y m) as Hlen.
  destruct (proj2 (calendar_date y m 1)) as [x1 H1]; [lia|].
  pose proof (weekday_range x1) as Hw1. unfold dates. rewrite (occurrences_filter y m x1 H1).
  destruct (omap_all_some _ _ (days_some y m x1 H1 wd)) as (El & Ek). rewrite El, !Ek. unfold nth_weekday_of_month.
  destruct (decide (i = 0)) as [->|Hi0]; [split; [done|lia]|]. rewrite (proj2 (Z.eqb_neq i 0)) by done.
  destruct (Z.ltb_spec 5 i) as [Hbig|Hsmall].
  { cbn [orb]. split; [|lia]. unfold in_range. rewrite (proj2 (Z.leb_gt i 4)), (proj2 (Z.eqb_neq i 5)) by lia.
    by rewrite andb_false_r. }
  cbn [orb]. pose proof (nth_ok_all (month_length y m) (weekday x1) wd i Hlen Hw1 Hw ltac:(lia)) as Hok.
  unfold nth_ok in Hok. destruct (Z.eqb_spec i 5) as [->|Hi5].
  - cbn [in_range Z.leb Z.compare Pos.compare Pos.compare_cont andb]. apply andb_true_iff in Hok as [Hf Hne].
    apply bool_decide_eq_true in Hf. rewrite (first_on_find y m x1 H1) by (apply Forall_rev, month_days).
    rewrite Hf. pose proof (days_some y m x1 H1 wd) as Hs. destruct (List.filter _ _) as [|d ds]; [done|].
    destruct (lookup_lt_is_Some_2 (d :: ds) (pred (length (d :: ds)))) as [z Hz]; [cbn; lia|]. rewrite Hz. cbn [mbind option_bind].
    rewrite Forall_lookup in Hs. destruct (Hs _ _ Hz) as [x ->]. cbn. split; [done|by eexists].
  - unfold in_range. rewrite (proj2 (Z.leb_le 1 i)), (proj2 (Z.leb_le i 4)) by lia. cbn [andb].
    destruct (List.find _ (seqZ 1 7)) as [d|] eqn:Ef; [|done].
    apply andb_true_iff in Hok as [Hok Hk]. apply andb_true_iff in Hok as [Hle Hge]. apply bool_decide_eq_true in Hk.
    apply Z.leb_le in Hle. apply Z.leb_le in Hge.
    assert (Forall (fun d => 1 <= d <= month_length y m) (seqZ 1 7)) as H7.
    { apply List.Forall_forall. intros z Hz. apply list_elem_of_In, elem_of_seqZ in Hz. lia. }
    rewrite (first_on_find y m x1 H1 wd _ H7), Ef, Hk. cbn [mbind option_bind].
    assert (1 <= d <= 7) as Hd.
    { apply List.find_some in Ef as [Hin _]. apply list_elem_of_In, elem_of_seqZ in Hin. lia. }
    destruct (day_some y m x1 H1 d ltac:(lia)) as (x & Hx & _). rewrite Hx. cbn [mbind option_bind].
    rewrite (proj2 (Z.ltb_ge _ _)) by lia. split; [done|]. intros _.
    destruct (day_some y m x1 H1 (d + (i - 1) * 7) ltac:(lia)) as (x' & -> & _). by eexists.
Qed.
End days.

(** ** Setting the clock and reading it back *)

Section set_get.
Context `{T : TimeCrate} {TL : TimeLaws T} `{X : QuickXml}.

(** What the camera answers: its schedule, its settings, and an acceptance. *)
Definition answers (d : Dst) (g : SystemGeneral) (w : World) (l : list (option BcConn.Error)) (r : list Reception) : Prop :=
  exists rd xd rg xg rs,
    inbox w = Delivered rd :: Delivered rg :: Delivered rs :: r
    /\ response_code (meta rd) = 200 /\ body rd = Modern (MkModernMsg None (Some (BcXmlPayload xd)))
    /\ dst (elements xd) = Some d
    /\ response_code (meta rg) = 200 /\ xml_of rg = Some xg /\ system_general (elements xg) = Some g
    /\ response_code (meta rs) = 200 /\ acks w = replicate 6 None ++ l.

(** The block a message carries. *)
Definition carries (m : Bc) (g : SystemGeneral) : Prop :=
  msg_id (meta m) = MSG_ID_SET_GENERAL /\ (x ← xml_of m; system_general (elements x)) = Some g.

Lemma set_time_run t d g g' w l r :
  granted (abilities (cam w)) (needed MSG_ID_SET_GENERAL) = true -> answers d g w l r ->
  new_general g (dst_offset_seconds d (local t)) t = Some g' ->
  fst (set_time t w) = Some (Ok tt)
  /\ exists before m, trace (snd (set_time t w)) = trace w ++ before ++ [Send m] /\ carries m g'.
Proof.
  intros Hg (rd & xd & rg & xg & rs & Hi & Hcd & Hbd & Hd & Hcg & Hxg & Hgg & Hcs & Ha) Hn.
  change (needed MSG_ID_SET_GENERAL) with (Write (lit "general")) in Hg. apply bool_decide_eq_true in Hg.
  enough (exists before m w3, set_time t w = (Some (Ok tt), w3) /\ trace w3 = trace w ++ before ++ [Send m] /\ carries m g')
    as (before & m & w3 & E & Ht & Hm) by (rewrite E; cbn [fst snd]; eauto).
  unfold set_time. rewrite run_rw by exact Hg. cbn [replicate app] in Ha.
  assert (exists w1, outcome_of get_dst w = (Some (Ok (Ok d)), w1)
    /\ acks w1 = replicate 4 None ++ l /\ inbox w1 = Delivered rg :: Delivered rs :: r
    /\ exists t1, trace w1 = trace w ++ t1) as (w1 & E1 & A1 & I1 & t1 & T1).
  { unfold outcome_of, get_dst. rewrite (run_request _ _ _ _ (replicate 4 None ++ l)) by exact Ha.
    rewrite (run_recv _ _ rd (Delivered rg :: Delivered rs :: r)) by exact Hi. rewrite run_checked by done.
    rewrite Hbd, Hd. eexists. split; [reflexivity|]. split; [done|]. split; [done|]. by eexists. }
  unfold bind at 1. rewrite E1.
  assert (forall (k : SystemGeneral -> M unit), exists w2, (let* g := get_system_general in k g) w1 = k g w2
    /\ acks w2 = None :: None :: l /\ inbox w2 = Delivered rs :: r /\ exists t2, trace w2 = trace w1 ++ t2) as H2.
  { intros k. unfold get_system_general, query. eexists. rewrite bind_assoc.
    rewrite (run_request _ _ _ _ (None :: None :: l)) by exact A1. rewrite bind_assoc.
    rewrite (run_recv _ _ rg (Delivered rs :: r)) by exact I1. rewrite bind_assoc, run_checked by done.
    unfold taken. rewrite Hxg, Hgg. unfold bind at 1, ret at 1. split; [reflexivity|]. split; [done|]. split; [done|].
    by eexists. }
  destruct (H2 (fun general => match new_general general (dst_offset_seconds d (local t)) t with
    | None => fail Panicked
    | Some general =>
        let* _ := request MSG_ID_SET_GENERAL (fun _ => (None, xml_body (only_system_general general))) in
        let* msg := recv in accepted msg (lit "The camera did not accept the set time command.") end))
    as (w2 & -> & A2 & I2 & t2 & T2).
  rewrite Hn, (run_request _ _ _ _ l) by exact A2. rewrite (run_recv _ _ rs r) by exact I2.
  unfold accepted. rewrite Hcs. cbn [Z.eqb Pos.eqb]. eexists (t1 ++ t2 ++ [_]), _, _. split; [reflexivity|].
  split; [cbn [requested trace cam]; rewrite T2, T1, <- !app_assoc; reflexivity|]. split; reflexivity.
Qed.

(** A camera that answers with a block. *)
Definition shows (g : SystemGeneral) (w : World) (l : list (option BcConn.Error)) (r : list Reception) : Prop :=
  exists rg xg, inbox w = Delivered rg :: r /\ response_code (meta rg) = 200 /\ xml_of rg = Some xg
    /\ system_general (elements xg) = Some g /\ acks w = None :: None :: l.

(** A factory date is no reading. *)
Definition reading (t : OffsetDateTime) : option OffsetDateTime :=
  match BOUNDARY with Some b => if date_ltb (fst (local t)) b then None else Some t | None => Some t end.

Lemma get_time_run g t w l r :
  granted (abilities (cam w)) (needed MSG_ID_GET_GENERAL) = true -> shows g w l r ->
  ('(tz, y, mo, d, h, mi, s) ← time_fields g; try_build_timestamp tz y mo d h mi s) = Some t ->
  fst (get_time w) = Some (Ok (reading t)).
Proof.
  intros Hg (rg & xg & Hi & Hc & Hx & Hgg & Ha) Ht.
  change (needed MSG_ID_GET_GENERAL) with (Read (lit "general")) in Hg. cbn [granted] in Hg.
  unfold get_time, get_system_general, query. unfold has_ability_ro. rewrite bind_assoc. unfold bind at 1, gets, has_ability.
  destruct (default ReadNone (abilities (cam w) !! lit "general")); [| |done]; unfold bind at 1, ret at 1.
  all: rewrite bind_assoc, (run_request _ _ _ _ l) by exact Ha.
  all: rewrite bind_assoc, (run_recv _ _ rg r) by exact Hi; rewrite bind_assoc, run_checked by done.
  all: unfold taken; rewrite Hx, Hgg; unfold bind, ret.
  all: destruct (time_fields g) as [[[[[[[tz y] mo] dd] h] mi] s]|]; [|done]; cbn [mbind option_bind] in Ht; rewrite Ht.
  all: unfold reading; by destruct BOUNDARY.
Qed.

Lemma wrap_i32_small x : i32_min <= x <= i32_max -> wrap_i32 x = x.
Proof.
  unfold wrap_i32, wrap, i32_min, i32_max. intros H. pow2. rewrite Z.mod_small by lia. lia.
Qed.

(** What is written is read as the date and time it was made of, at the offset
    it was given. *)
Lemma with_time_reads g o p :
  - 93599 <= o <= 93599 ->
  ('(tz, y, mo, d, h, mi, s) ← time_fields (with_time g (wrap_i32 (- o)) p); try_build_timestamp tz y mo d h mi s)
  = Some (MkOffsetDateTime p o).
Proof.
  intros Ho. destruct p as [date time]. unfold with_time. cbn [fst snd].
  pose proof (parsed_date_spec date) as Hd. pose proof (parsed_time_spec time) as Ht.
  destruct (ymd date) as [[y mo] d]. destruct (hms time) as [[h mi] s]. cbn. unfold try_build_timestamp. rewrite Hd, Ht.
  cbn [mbind option_bind]. rewrite (wrap_i32_small (- o)) by (unfold i32_min, i32_max; lia).
  rewrite Z.opp_involutive, wrap_i32_small by (unfold i32_min, i32_max; lia). rewrite from_whole_seconds_range.
  unfold in_range. by rewrite !(proj2 (Z.leb_le _ _)) by lia.
Qed.

(** The settings besides the clock. *)
Definition same_settings (g g' : SystemGeneral) : Prop :=
  general_osd_format g' = general_osd_format g /\ general_time_format g' = general_time_format g
  /\ general_language g' = general_language g /\ general_device_name g' = general_device_name g.

Lemma with_time_settings g o p : same_settings g (with_time g o p).
Proof. unfold with_time. by destruct (ymd (fst p)) as [[? ?] ?], (hms (snd p)) as [[? ?] ?]. Qed.

(** Outside the camera's daylight-saving time, setting the
    clock succeeds once the camera accepts, the block it sends keeps every other
    setting, and a camera that shows that block again is read back as the very
    timestamp, offset included; or as no reading before 2019. *)
Theorem clock_roundtrip t d g w l r :
  granted (abilities (cam w)) (needed MSG_ID_SET_GENERAL) = true -> answers d g w l r ->
  - 93599 <= offset t <= 93599 -> dst_offset_seconds d (local t) = 0 ->
  fst (set_time t w) = Some (Ok tt)
  /\ exists before m g', trace (snd (set_time t w)) = trace w ++ before ++ [Send m] /\ carries m g' /\ same_settings g g'
     /\ forall w' l' r', granted (abilities (cam w')) (needed MSG_ID_GET_GENERAL) = true -> shows g' w' l' r' ->
        fst (get_time w') = Some (Ok (reading t)).
Proof.
  intros Hg Hans Ho Hz.
  destruct (set_time_run t d g (with_time g (wrap_i32 (- offset t)) (local t)) w l r) as (E & before & m & Ht & Hm); try done.
  { unfold new_general. by rewrite Hz. }
  split; [done|]. exists before, m, (with_time g (wrap_i32 (- offset t)) (local t)). split; [done|]. split; [done|].
  split; [apply with_time_settings|]. intros w' l' r' Hg' Hs. apply (get_time_run _ _ w' l' r' Hg' Hs).
  rewrite with_time_reads by done. by destruct t.
Qed.

(** Within the daylight-saving time the block sent holds the
    wall clock of UTC next to the base offset, so that a camera that shows it
    again is read back that whole offset early, wherever the offset is not
    zero. *)
Theorem clock_drifts t d g w l r utc :
  let base := offset t - dst_offset_seconds d (local t) in
  granted (abilities (cam w)) (needed MSG_ID_SET_GENERAL) = true -> answers d g w l r ->
  dst_offset_seconds d (local t) <> 0 -> - 93599 <= base <= 93599 -> to_utc (local t) (offset t) = Some utc ->
  fst (set_time t w) = Some (Ok tt)
  /\ exists before m g' t', trace (snd (set_time t w)) = trace w ++ before ++ [Send m] /\ carries m g'
     /\ instant t' = instant t - base /\ offset t' = base
     /\ forall w' l' r', granted (abilities (cam w')) (needed MSG_ID_GET_GENERAL) = true -> shows g' w' l' r' ->
        fst (get_time w') = Some (Ok (reading t')).
Proof.
  intros base Hg Hans Hnz Hb Hu. fold base in Hb.
  assert (sat_i32 base = base) as Hsat by (unfold sat_i32, clamp, i32_min, i32_max; lia).
  destruct (set_time_run t d g (with_time g (wrap_i32 (- base)) utc) w l r) as (E & before & m & Ht & Hm); try done.
  { unfold new_general. rewrite (proj2 (Z.eqb_neq _ _)) by done. cbn [negb]. rewrite Hu. cbn [mbind option_bind].
    fold base. by rewrite Hsat. }
  split; [done|]. exists before, m, (with_time g (wrap_i32 (- base)) utc), (MkOffsetDateTime utc base).
  split; [done|]. split; [done|].
  split; [unfold instant; cbn [local offset]; rewrite (to_utc_spec _ _ _ Hu); lia|]. split; [done|].
  intros w' l' r' Hg' Hs. apply (get_time_run _ _ w' l' r' Hg' Hs). by apply with_time_reads.
Qed.
End set_get.

(** ** The calendar

    The proleptic Gregorian calendar satisfies the laws. *)

Module Gregorian.

Definition leap (y : Z) : bool := (y mod 4 =? 0) && negb (y mod 100 =? 0) || (y mod 400 =? 0).

Definition length_of (lp : bool) (m : Z) : Z :=
  if m =? 2 then if lp then 29 else 28
  else if (m =? 4) || (m =? 6) || (m =? 9) || (m =? 11) then 30 else 31.

Definition days_before (lp : bool) (m : Z) : Z :=
  default 0 ([0; 31; 59; 90; 120; 151; 181; 212; 243; 273; 304; 334] !! Z.to_nat (m - 1))
  + if lp && (2 <? m) then 1 else 0.

Definition month_length (y m : Z) : Z := length_of (leap y) m.

(** 1 on 1 January of the year 1. *)
Definition day_number (p : Z * Z * Z) : Z :=
  let '(y, m, d) := p in
  365 * (y - 1) + (y - 1) / 4 - (y - 1) / 100 + (y - 1) / 400 + days_before (leap y) m + d.

Definition valid (p : Z * Z * Z) : bool :=
  let '(y, m, d) := p in in_range (-9999) 9999 y && in_range 1 12 m && in_range 1 (month_length y m) d.

Definition Date : Type := { p : Z * Z * Z | valid p = true }.

Definition date (y m d : Z) : option Date :=
  match decide (valid (y, m, d) = true) with left H => Some (exist _ (y, m, d) H) | right _ => None end.

(** 1 January of the year 1 is a Monday, day 1721426 of the Julian count. *)
Definition julian (x : Date) : Z := day_number (proj1_sig x) + 1721425.

Definition valid_time (x : Z * Z * Z) : bool :=
  let '(h, m, s) := x in in_range 0 23 h && in_range 0 59 m && in_range 0 59 s.

Definition Time : Type := { x : Z * Z * Z | valid_time x = true }.

Definition time (h m s : Z) : option Time :=
  match decide (valid_time (h, m, s) = true) with left H => Some (exist _ (h, m, s) H) | right _ => None end.

Definition next (x : Date) : option Date :=
  let '(y, m, d) := proj1_sig x in
  if d <? month_length y m then date y m (d + 1) else if m <? 12 then date y (m + 1) 1 else date (y + 1) 1 1.

Definition prev (x : Date) : option Date :=
  let '(y, m, d) := proj1_sig x in
  if 1 <? d then date y m (d - 1)
  else if 1 <? m then date y (m - 1) (month_length y (m - 1)) else date (y - 1) 12 31.

Fixpoint steps (step : Date -> option Date) (n : nat) (x : Date) : option Date :=
  match n with O => Some x | S n => x ← step x; steps step n x end.

Definition shift (k : Z) (x : Date) : option Date :=
  if 0 <=? k then steps next (Z.to_nat k) x else steps prev (Z.to_nat (- k)) x.

Definition utc (p : Date * Time) (o : Z) : option (Date * Time) :=
  let total := day_seconds (proj1_sig (snd p)) - o in
  let s := total mod 86400 in
  x ← shift (total / 86400) (fst p); t ← time (s / 3600) (s mod 3600 / 60) (s mod 60); Some (x, t).

Definition seconds (p : Date * Time) : Z := 86400 * julian (fst p) + day_seconds (proj1_sig (snd p)).

#[export] Instance crate : TimeCrate := {|
  from_calendar_date := date; ymd := @proj1_sig _ _; weekday x := julian x mod 7; Clock.month_length := month_length;
  to_julian_day := julian; from_hms := time; hms := @proj1_sig _ _;
  from_whole_seconds x := if in_range (-93599) 93599 x then Some x else None;
  datetime_ltb a b := seconds a <? seconds b; date_ltb a b := julian a <? julian b; to_utc := utc;
  parsed_date := date; parsed_time := time |}.

Lemma date_spec y m d x : date y m d = Some x -> proj1_sig x = (y, m, d) /\ valid (y, m, d) = true.
Proof. unfold date. destruct (decide _); [|done]. by intros [= <-]. Qed.

Lemma time_spec h m s t : time h m s = Some t -> proj1_sig t = (h, m, s) /\ valid_time (h, m, s) = true.
Proof. unfold time. destruct (decide _); [|done]. by intros [= <-]. Qed.

Lemma date_ymd x : let '(y, m, d) := proj1_sig x in date y m d = Some x.
Proof.
  destruct x as [[[y m] d] H]. cbn [proj1_sig]. unfold date. destruct (decide _) as [H'|]; [|done].
  do 2 f_equal. apply proof_irrel.
Qed.

Lemma time_hms t : let '(h, m, s) := proj1_sig t in time h m s = Some t.
Proof.
  destruct t as [[[h m] s] H]. cbn [proj1_sig]. unfold time. destruct (decide _) as [H'|]; [|done].
  do 2 f_equal. apply proof_irrel.
Qed.

Lemma valid_spec y m d : valid (y, m, d) = true <-> -9999 <= y <= 9999 /\ 1 <= m <= 12 /\ 1 <= d <= month_length y m.
Proof.
  unfold valid, in_range. rewrite !andb_true_iff, !Z.leb_le. tauto.
Qed.

(** The months and the years follow one another without a gap. *)
Lemma months_follow lp m : 1 <= m < 12 -> days_before lp (m + 1) = days_before lp m + length_of lp m.
Proof.
  intros Hm. apply Z.eqb_eq. apply (check_range_spec 11 1 (fun m => days_before lp (m + 1) =? days_before lp m + length_of lp m)); [|lia].
  by destruct lp.
Qed.

Lemma years_follow y : day_number (y + 1, 1, 1) = day_number (y, 12, 31) + 1.
Proof.
  unfold day_number, leap. change (days_before ?b 1) with (0 + if b && false then 1 else 0).
  change (days_before ?b 12) with (334 + if b && true then 1 else 0). rewrite andb_false_r, andb_true_r.
  replace (y + 1 - 1) with y by lia.
  destruct (Z.eqb_spec (y mod 4) 0), (Z.eqb_spec (y mod 100) 0), (Z.eqb_spec (y mod 400) 0); cbn [andb orb negb];
    Z.to_euclidean_division_equations; lia.
Qed.

Lemma next_julian x x' : next x = Some x' -> julian x' = julian x + 1.
Proof.
  unfold next, julian. destruct (proj1_sig x) as [[y m] d] eqn:E. pose proof (proj2_sig x) as Hv.
  cbn beta in Hv. rewrite E in Hv. apply valid_spec in Hv as (Hy & Hm & Hd).
  destruct (Z.ltb_spec d (month_length y m)) as [Hd1|Hl]; [|destruct (Z.ltb_spec m 12) as [H12|H12]];
    intros H; apply date_spec in H as [-> _].
  - unfold day_number. lia.
  - unfold day_number. rewrite months_follow by lia. fold (month_length y m). lia.
  - replace m with 12 in * by lia. assert (d = 31) as -> by (unfold month_length, length_of in *; cbn in *; lia).
    rewrite years_follow. lia.
Qed.

Lemma prev_julian x x' : prev x = Some x' -> julian x' = julian x - 1.
Proof.
  unfold prev, julian. destruct (proj1_sig x) as [[y m] d] eqn:E. pose proof (proj2_sig x) as Hv.
  cbn beta in Hv. rewrite E in Hv. apply valid_spec in Hv as (Hy & Hm & Hd).
  destruct (Z.ltb_spec 1 d) as [Hd1|Hl]; [|destruct (Z.ltb_spec 1 m) as [H1|H1]];
    intros H; apply date_spec in H as [-> _].
  - unfold day_number. lia.
  - unfold day_number. pose proof (months_follow (leap y) (m - 1) ltac:(lia)) as Hf.
    replace (m - 1 + 1) with m in Hf by lia. fold (month_length y (m - 1)) in Hf. lia.
  - replace m with 1 in * by lia. replace d with 1 in * by lia. pose proof (years_follow (y - 1)) as Hf.
    replace (y - 1 + 1) with y in Hf by lia. lia.
Qed.

Lemma steps_julian step k n x x' :
  (forall x x', step x = Some x' -> julian x' = julian x + k) -> steps step n x = Some x' ->
  julian x' = julian x + k * Z.of_nat n.
Proof.
  intros Hk. revert x. induction n as [|n IH]; intros x H; cbn [steps] in H; [injection H as ->; lia|].
  destruct (step x) as [x1|] eqn:E; [|done]. cbn [mbind option_bind] in H. apply Hk in E. apply IH in H. lia.
Qed.

Lemma shift_julian k x x' : shift k x = Some x' -> julian x' = julian x + k.
Proof.
  unfold shift. destruct (Z.leb_spec 0 k); intros Hs.
  - apply (steps_julian next 1) in Hs; [lia|apply next_julian].
  - apply (steps_julian prev (-1)) in Hs; [lia|]. intros y y' E. apply prev_julian in E. lia.
Qed.

Lemma day_seconds_split s :
  0 <= s < 86400 -> day_seconds (s / 3600, s mod 3600 / 60, s mod 60) = s
  /\ valid_time (s / 3600, s mod 3600 / 60, s mod 60) = true.
Proof.
  intros Hs. unfold day_seconds, valid_time, in_range. rewrite !andb_true_iff, !Z.leb_le.
  Z.to_euclidean_division_equations. lia.
Qed.

#[export] Instance laws : TimeLaws crate.
Proof.
  split; cbn [from_calendar_date ymd weekday Clock.month_length to_julian_day from_hms hms from_whole_seconds
    datetime_ltb date_ltb to_utc parsed_date parsed_time crate].
  - exact date_ymd.
  - intros y m d x H. by apply date_spec in H as [-> _].
  - intros y m d. rewrite <- valid_spec. unfold date. destruct (decide _) as [H|H]; split; try done.
  - intros y m. unfold month_length, length_of. repeat case_step; lia.
  - intros x. apply Z.mod_pos_bound. lia.
  - intros y m d x x' H H'. apply date_spec in H as [E _]. apply date_spec in H' as [E' _].
    unfold julian. rewrite E, E'. unfold day_number. rewrite Zplus_mod_idemp_l. f_equal. lia.
  - intros [[[h m] s] H]. cbn. unfold valid_time, in_range in H. b2p. lia.
  - done.
  - done.
  - done.
  - intros [x t] o [x' t'] H. unfold utc in H. cbn [fst snd] in H.
    pose proof (Z.mod_pos_bound (day_seconds (proj1_sig t) - o) 86400 ltac:(lia)) as Hs.
    destruct (shift _ x) as [x1|] eqn:Ex; [|done]. cbn [mbind option_bind] in H.
    destruct (time _ _ _) as [t1|] eqn:Et; [|done]. cbn [mbind option_bind] in H. injection H as -> ->.
    apply shift_julian in Ex. apply time_spec in Et as [Et _]. unfold local_seconds. cbn [fst snd to_julian_day hms crate].
    rewrite Et, Ex. rewrite (proj1 (day_seconds_split _ Hs)). pose proof (Z.div_mod (day_seconds (proj1_sig t) - o) 86400). lia.
  - exact date_ymd.
  - exact time_hms.
Qed.
End Gregorian.

(** ** A camera under the European rule *)

#[local] Existing Instance Gregorian.crate.
#[local] Existing Instance Gregorian.laws.

Definition eu_dst : Dst :=
  MkDst xml_ver (Some 1) (Some 1) (Some 3) (Some 5) (Some (lit "Sunday")) (Some 2) (Some 0) (Some 0)
    (Some 10) (Some 5) (Some (lit "Sunday")) (Some 3) (Some 0) (Some 0).

Definition last_sunday_of_march : Gregorian.Date := exist _ (2026, 3, 29) eq_refl.

Lemma nth_weekday_exact_witness : nth_weekday_of_month 2026 3 5 6 = Some last_sunday_of_march.
Proof.
  destruct (nth_weekday_exact 2026 3 5 6 ltac:(lia) ltac:(lia) ltac:(lia) ltac:(lia)) as [-> _]. vm_compute. reflexivity.
Defined.

Definition noon : Gregorian.Time := exist _ (12, 0, 0) eq_refl.

(** Noon on 15 January and on 3 May 2026 in central Europe. *)
Definition in_january : Gregorian.Date := exist _ (2026, 1, 15) eq_refl.
Definition in_may : Gregorian.Date := exist _ (2026, 5, 3) eq_refl.
Definition winter : OffsetDateTime := MkOffsetDateTime (in_january, noon) 3600.
Definition summer : OffsetDateTime := MkOffsetDateTime (in_may, noon) 7200.
Definition ten : Gregorian.Time := exist _ (10, 0, 0) eq_refl.

Example dst_examples : dst_offset_seconds eu_dst (local winter) = 0 /\ dst_offset_seconds eu_dst (local summer) = 3600.
Proof. vm_compute. by split. Qed.

Definition general_cam : BcCamera :=
  MkBcCamera 0 true 7 toy_credentials (list_to_map [(lit "general", ReadWrite)]) false None None None None None None.

Definition toy_general : SystemGeneral :=
  MkSystemGeneral (lit "1.1") None None None None None None None (Some (lit "DMY")) (Some 0) (Some (lit "English")) None.

Definition toy_answers : list Reception :=
  [Delivered (toy_reply MSG_ID_GET_DST 200 (only_dst eu_dst));
   Delivered (toy_reply MSG_ID_GET_GENERAL 200 (only_system_general toy_general));
   Delivered (toy_reply MSG_ID_SET_GENERAL 200 no_elements)].

Definition clock_world : World := MkWorld general_cam [] (replicate 6 None) toy_answers.

Lemma toy_answers_ok : answers eu_dst toy_general clock_world [] [].
Proof.
  exists (toy_reply MSG_ID_GET_DST 200 (only_dst eu_dst)), (MkBcXml None None (only_dst eu_dst)),
    (toy_reply MSG_ID_GET_GENERAL 200 (only_system_general toy_general)), (MkBcXml None None (only_system_general toy_general)),
    (toy_reply MSG_ID_SET_GENERAL 200 no_elements).
  repeat split.
Defined.

Lemma clock_roundtrip_witness : fst (set_time (X := xml_toy) winter clock_world) = Some (Ok tt).
Proof.
  apply (clock_roundtrip (X := xml_toy) winter eu_dst toy_general clock_world [] []); try reflexivity.
  - exact toy_answers_ok.
  - cbn. lia.
Defined.

(** Noon is read back as eleven o'clock. *)
Lemma clock_drifts_witness :
  exists t' : OffsetDateTime, instant t' = instant summer - 3600 /\ offset t' = 3600.
Proof.
  destruct (clock_drifts (X := xml_toy) summer eu_dst toy_general clock_world [] []
    (in_may, ten)) as (_ & before & m & g' & t' & _ & _ & Hi & Ho & _).
  - reflexivity.
  - exact toy_answers_ok.
  - vm_compute. discriminate.
  - vm_compute. split; discriminate.
  - vm_compute. reflexivity.
  - exists t'. split; [exact Hi|exact Ho].
Defined.
