(* ===== verification/Toml.v ===== *)
(** * TOML values and their derived codecs

    The document model of the [toml] crate ([toml::Value], whose tables are
    sorted maps), 64-bit floats, [Duration::from_secs_f64], and the reading of
    the [serde] attributes the configuration's structs carry: a field is
    required, or has a default; it may have aliases; a [None] is left out; a key
    that is no field's is refused. The text of a document is read and written
    by the crate: [TomlText]. *)

From Stdlib Require Import SpecFloat.
From S2P Require Import Prelude Text.

(** ** 64-bit floats *)

Abbreviation f64 := spec_float.

Definition f64_zero : f64 := S754_zero false.

Definition f64_is_finite (x : f64) : bool :=
  match x with S754_zero _ | S754_finite _ _ _ => true | _ => false end.

Definition f64_of_Z (i : Z) : f64 := binary_normalize 53 1024 i 0 false.

#[export] Instance f64_eq_dec : EqDecision f64.
Proof. solve_decision. Defined.

(** [SFeqb] is IEEE equality: it tells neither zero from the other, and no
    NaN is equal to itself. On what is written as a finite number that is not
    zero it is equality. *)
Lemma f64_eqb_finite s m e x : SFeqb x (S754_finite s m e) = true -> x = S754_finite s m e.
Proof.
  unfold SFeqb, SFcompare. destruct x as [s'|s'| |s' m' e']; try (destruct s'; destruct s; discriminate).
  - discriminate.
  - destruct s', s; try discriminate; destruct (Z.compare_spec e' e) as [->|?|?]; try discriminate;
      destruct (Pcompare m' m Eq) eqn:E; try discriminate; apply Pos.compare_eq in E as ->; done.
Qed.

(** The quotient of two positive integers, rounded to the nearest, ties to
    even. *)
Definition round_div (n d : Z) : Z :=
  let q := n / d in
  let r := n mod d in
  if (2 * r <? d) || ((2 * r =? d) && Z.even q) then q else q + 1.

(** The seconds a float stands for, in nanoseconds. *)
Definition secs_nanos (m : positive) (e : Z) : Z :=
  if 0 <=? e then Zpos m * 2 ^ e * 10 ^ 9 else round_div (Zpos m * 10 ^ 9) (2 ^ (- e)).

Definition DURATION_MAX : Z := 2 ^ 64 * 10 ^ 9 - 1.

(** [Duration::from_secs_f64]: nanoseconds. *)
Definition from_secs_f64 (x : f64) : outcome Z :=
  match x with
  | S754_zero _ => Ret 0
  | S754_finite false m e => let n := secs_nanos m e in if n <=? DURATION_MAX then Ret n else Panic
  | _ => Panic
  end.

(** ** Documents *)

Inductive Value :=
| String (s : str)
| Integer (i : Z)
| Float (x : f64)
| Boolean (b : bool)
| Datetime (d : str)
| Array (a : list Value)
| Table (t : list (str * Value)).

Abbreviation table := (list (str * Value)).

Definition is_table (v : Value) : bool := match v with Table _ => true | _ => false end.

(** Derived [PartialEq]; floats compare as floats do. *)
Fixpoint value_eqb (v w : Value) {struct v} : bool :=
  match v, w with
  | String a, String b => bool_decide (a = b)
  | Integer a, Integer b => a =? b
  | Float a, Float b => SFeqb a b
  | Boolean a, Boolean b => Bool.eqb a b
  | Datetime a, Datetime b => bool_decide (a = b)
  | Array a, Array b =>
      (fix go (a b : list Value) : bool :=
         match a, b with
         | [], [] => true
         | x :: a, y :: b => value_eqb x y && go a b
         | _, _ => false
         end) a b
  | Table a, Table b =>
      (fix go (a b : table) : bool :=
         match a, b with
         | [], [] => true
         | (k, x) :: a, (l, y) :: b => bool_decide (k = l) && value_eqb x y && go a b
         | _, _ => false
         end) a b
  | _, _ => false
  end.

(** A [toml::Table] iterates in the order of its keys. *)
Fixpoint str_ltb (a b : str) : bool :=
  match a, b with
  | [], _ :: _ => true
  | x :: a, y :: b => (x <? y) || ((x =? y) && str_ltb a b)
  | _, [] => false
  end.

Fixpoint t_get (k : str) (t : table) : option Value :=
  match t with
  | [] => None
  | (l, v) :: t => if bool_decide (k = l) then Some v else t_get k t
  end.

Fixpoint t_insert (k : str) (v : Value) (t : table) : table :=
  match t with
  | [] => [(k, v)]
  | (l, w) :: t' =>
      if bool_decide (k = l) then (k, v) :: t'
      else if str_ltb k l then (k, v) :: t else (l, w) :: t_insert k v t'
  end.

Lemma t_get_insert k l v t : t_get k (t_insert l v t) = if bool_decide (k = l) then Some v else t_get k t.
Proof.
  induction t as [|[j w] t IH]; cbn [t_insert t_get]; [done|].
  repeat case_bool_decide; subst; cbn [t_get]; try (destruct (str_ltb l j); cbn [t_get]);
    rewrite ?IH; repeat case_bool_decide; congruence.
Qed.

Lemma keys_insert k v t : forall l, In l (map fst (t_insert k v t)) -> l = k \/ In l (map fst t).
Proof.
  induction t as [|[j w] t IH]; cbn [t_insert map fst]; intros l.
  - intros [<-|[]]; auto.
  - case_bool_decide; [subst; intros [<-|H]; cbn; auto|].
    destruct (str_ltb k j); intros [<-|Hi]; cbn; auto. apply IH in Hi as [->|Hi]; auto.
Qed.

(** ** The derived conversions of a struct *)

(** What a field writes: nothing for a [None]. *)
Abbreviation fields := (list (str * option Value)).

Definition table_of (l : fields) : table :=
  foldr (fun f t => match snd f with Some v => t_insert (fst f) v t | None => t end) [] l.

Fixpoint field_of (k : str) (l : fields) : option Value :=
  match l with
  | [] => None
  | (j, v) :: l => if bool_decide (k = j) then match v with Some w => Some w | None => field_of k l end else field_of k l
  end.

Lemma t_get_table_of k l : t_get k (table_of l) = field_of k l.
Proof.
  induction l as [|[j [v|]] l IH]; cbn [table_of foldr fst snd field_of]; [done| |].
  - rewrite t_get_insert. by case_bool_decide.
  - fold (table_of l). rewrite IH. by case_bool_decide.
Qed.

Lemma keys_table_of l k : In k (map fst (table_of l)) -> In k (map fst l).
Proof.
  induction l as [|[j [v|]] l IH]; cbn [table_of foldr fst snd map]; [done| |]; fold (table_of l).
  - intros H. apply keys_insert in H as [->|H]; cbn; auto.
  - intros H. right. auto.
Qed.

(** A field read under its name or an alias; two of them at once are refused
    ([Some] of [None] is an absent field). *)
Definition entry (names : list str) (t : table) : option (option Value) :=
  match omap (fun n => t_get n t) names with
  | [] => Some None
  | [v] => Some (Some v)
  | _ => None
  end.

Definition required {A} (names : list str) (de : Value -> option A) (t : table) : option A :=
  e ← entry names t; v ← e; de v.

Definition defaulted {A} (names : list str) (d : A) (de : Value -> option A) (t : table) : option A :=
  e ← entry names t; match e with Some v => de v | None => Some d end.

(** [deny_unknown_fields]. *)
Definition known (names : list str) (t : table) : bool :=
  forallb (fun kv => existsb (fun n => bool_decide (n = fst kv)) names) t.

Definition of_table {A} (names : list str) (f : table -> option A) (v : Value) : option A :=
  match v with Table t => if known names t then f t else None | _ => None end.

Definition de_str (v : Value) : option str := match v with String s => Some s | _ => None end.
Definition de_bool (v : Value) : option bool := match v with Boolean b => Some b | _ => None end.
Definition de_uint (w : Z) (v : Value) : option Z :=
  match v with Integer i => if (0 <=? i) && (i <? 2 ^ w) then Some i else None | _ => None end.
Definition de_f64 (v : Value) : option f64 :=
  match v with Float x => Some x | Integer i => Some (f64_of_Z i) | _ => None end.
Definition de_option {A} (de : Value -> option A) (v : Value) : option (option A) := Some <$> de v.
Definition de_list {A} (de : Value -> option A) (v : Value) : option (list A) :=
  match v with Array a => mapM de a | _ => None end.
Definition de_pair (v : Value) : option (str * str) :=
  match v with Array [String a; String b] => Some (a, b) | _ => None end.

(** A unit variant is the string of its name or of an alias. *)
Definition de_variant {A} (l : list (str * A)) (v : Value) : option A :=
  match v with String s => snd <$> List.find (fun p => bool_decide (fst p = s)) l | _ => None end.

Definition ser_pair (p : str * str) : Value := Array [String (fst p); String (snd p)].
Definition ser_list {A} (ser : A -> Value) (l : list A) : Value := Array (map ser l).

(** The integers a document can hold. *)
Definition i64_max : Z := 9223372036854775807.

(** ** The text of a document *)

Class TomlText := {
  toml_parse : str -> option Value;
  toml_print : Value -> str
}.

(** What is printed is read back. *)
Class TomlTextLaws (T : TomlText) : Prop := {
  toml_print_parse t : toml_parse (toml_print (Table t)) = Some (Table t)
}.

Section ValueInd.

Variable P : Value -> Prop.
Hypothesis Hstring : forall s, P (String s).
Hypothesis Hinteger : forall i, P (Integer i).
Hypothesis Hfloat : forall x, P (Float x).
Hypothesis Hboolean : forall b, P (Boolean b).
Hypothesis Hdatetime : forall d, P (Datetime d).
Hypothesis Harray : forall a, Forall P a -> P (Array a).
Hypothesis Htable : forall t, Forall (fun kv => P (snd kv)) t -> P (Table t).

(** Induction with the hypothesis for every element of an array or a
    table. *)
Fixpoint value_ind (v : Value) : P v :=
  match v with
  | String s => Hstring s
  | Integer i => Hinteger i
  | Float x => Hfloat x
  | Boolean b => Hboolean b
  | Datetime d => Hdatetime d
  | Array a => Harray a ((fix go a : Forall P a := match a with [] => List.Forall_nil P | x :: a => @List.Forall_cons _ P x a (value_ind x) (go a) end) a)
  | Table t =>
      Htable t ((fix go t : Forall (fun kv => P (snd kv)) t :=
        match t with [] => List.Forall_nil _ | kv :: t => @List.Forall_cons _ _ kv t (value_ind (snd kv)) (go t) end) t)
  end.

End ValueInd.

(** An instance: the parse tree in the digits 0 and 1. *)
Module Bits.

Fixpoint to_tree (v : Value) : gen_tree (str + Z + f64 + bool) :=
  match v with
  | String s => GenNode 0 [GenLeaf (inl (inl (inl s)))]
  | Integer i => GenNode 1 [GenLeaf (inl (inl (inr i)))]
  | Float x => GenNode 2 [GenLeaf (inl (inr x))]
  | Boolean b => GenNode 3 [GenLeaf (inr b)]
  | Datetime s => GenNode 4 [GenLeaf (inl (inl (inl s)))]
  | Array a => GenNode 5 (map to_tree a)
  | Table t => GenNode 6 (map (fun p => GenNode 7 [GenLeaf (inl (inl (inl (fst p)))); to_tree (snd p)]) t)
  end.

Fixpoint of_tree (g : gen_tree (str + Z + f64 + bool)) : Value :=
  match g with
  | GenNode 0 [GenLeaf (inl (inl (inl s)))] => String s
  | GenNode 1 [GenLeaf (inl (inl (inr i)))] => Integer i
  | GenNode 2 [GenLeaf (inl (inr x))] => Float x
  | GenNode 3 [GenLeaf (inr b)] => Boolean b
  | GenNode 4 [GenLeaf (inl (inl (inl s)))] => Datetime s
  | GenNode 5 a => Array (map of_tree a)
  | GenNode 6 l =>
      Table (map (fun g => match g with
                           | GenNode _ [GenLeaf (inl (inl (inl k))); h] => (k, of_tree h)
                           | _ => ([], Integer 0)
                           end) l)
  | _ => Integer 0
  end.

Lemma of_to_tree v : of_tree (to_tree v) = v.
Proof.
  induction v as [| | | | |a IH|t IH] using value_ind; [done..| |]; cbn; f_equal; rewrite map_map;
    (induction IH as [|x l H _ IH]; [done|]); cbn; rewrite IH; [by rewrite H|].
  destruct x as [k w]. cbn in *. by rewrite H.
Qed.

#[export] Instance f64_countable : Countable f64.
Proof.
  refine (inj_countable'
    (fun x => match x with
              | S754_zero b => inl (inl b) | S754_infinity b => inl (inr b)
              | S754_nan => inr (inl tt) | S754_finite b m e => inr (inr (b, m, e))
              end : bool + bool + (unit + bool * positive * Z))
    (fun y => match y with
              | inl (inl b) => S754_zero b | inl (inr b) => S754_infinity b
              | inr (inl _) => S754_nan | inr (inr (b, m, e)) => S754_finite b m e
              end) _).
  by intros [].
Defined.

Fixpoint bits (p : positive) : str :=
  match p with xH => [] | xO p => 48 :: bits p | xI p => 49 :: bits p end.

Fixpoint of_bits (s : str) : positive :=
  match s with [] => xH | c :: s => if c =? 49 then xI (of_bits s) else xO (of_bits s) end.

Lemma of_bits_bits p : of_bits (bits p) = p.
Proof. by induction p as [p IH|p IH|]; cbn; rewrite ?IH. Qed.

#[export] Instance toml : TomlText := {
  toml_parse s := of_tree <$> decode (of_bits s);
  toml_print v := bits (encode (to_tree v))
}.

#[export] Instance toml_laws : TomlTextLaws toml.
Proof. constructor. intros t. cbn -[to_tree of_tree]. by rewrite of_bits_bits, decode_encode; cbn -[to_tree of_tree]; rewrite of_to_tree. Qed.

End Bits.

(** ** When a number of seconds is a duration *)

Definition f64_2p64 : f64 := S754_finite false 4503599627370496 12.

(** A float as the machine holds it. *)
Definition canonical (x : f64) : Prop := valid_binary 53 1024 x = true.

Lemma digits2_pos_bounds p : 2 ^ (Zpos (digits2_pos p) - 1) <= Zpos p < 2 ^ Zpos (digits2_pos p).
Proof.
  induction p as [p IH|p IH|]; cbn [digits2_pos]; [..|done];
    rewrite Pos2Z.inj_succ; replace (Z.succ (Zpos (digits2_pos p)) - 1) with (Z.succ (Zpos (digits2_pos p) - 1)) by lia;
    rewrite !Z.pow_succ_r by lia; lia.
Qed.

Lemma canonical_mantissa_bounds s m e : canonical (S754_finite s m e) ->
  Zpos m < 2 ^ 53 /\ (-1074 < e -> 2 ^ 52 <= Zpos m) /\ -1074 <= e.
Proof.
  unfold canonical. cbn [valid_binary]. unfold bounded, canonical_mantissa, fexp, emin. intros H.
  apply andb_true_iff in H as [H _]. apply Zeq_bool_eq in H. pose proof (digits2_pos_bounds m) as [Hl Hu].
  set (d := Zpos (digits2_pos m)) in *. assert (d <= 53) by lia. split; [|split; [|lia]].
  - eapply Z.lt_le_trans; [exact Hu|]. apply Z.pow_le_mono_r; lia.
  - intros He. assert (d = 53) as E by lia. rewrite E in Hl. exact Hl.
Qed.

Lemma round_div_bounds n d : 0 <= n -> 0 < d -> n / d <= round_div n d <= n / d + 1.
Proof. intros. unfold round_div. destruct (_ || _); lia. Qed.

Lemma pcompare_lt m n : Pcompare m n Eq = Lt -> Zpos m < Zpos n.
Proof. intros H. apply Pos2Z.pos_lt_pos. by apply Pos.compare_lt_iff. Qed.

(** [from_secs_f64] panics on a negative number, on one that is none, and
    from 2^64 on; nowhere else. *)
Lemma from_secs_f64_ret x : canonical x -> f64_is_finite x = true -> SFltb x f64_zero = false ->
  SFltb x f64_2p64 = true -> exists n, from_secs_f64 x = Ret n /\ 0 <= n.
Proof.
  intros Hc Hf Hn Hb. destruct x as [s|s| |s m e]; try discriminate; [by exists 0|].
  destruct s; [by destruct m|]. apply canonical_mantissa_bounds in Hc as (Hu & Hm & He).
  cbn [from_secs_f64]. set (n := secs_nanos m e). assert (0 <= n <= DURATION_MAX) as [H0 H1].
  2:{ exists n. rewrite (proj2 (Z.leb_le _ _) H1). done. }
  assert (e < 12) as He12.
  { unfold SFltb, f64_2p64 in Hb. cbn [SFcompare] in Hb. destruct (Z.compare_spec e 12) as [->|?|?]; [|done..].
    specialize (Hm ltac:(lia)). destruct (Pcompare m 4503599627370496 Eq) eqn:E; try discriminate.
    apply pcompare_lt in E. clear - E Hm. lia. }
  unfold n, secs_nanos, DURATION_MAX. destruct (Z.leb_spec 0 e) as [Hp|Hp].
  - assert (0 < 2 ^ e <= 2 ^ 11) as Hpow by (split; [lia|apply Z.pow_le_mono_r; lia]).
    assert (Zpos m * 2 ^ e <= (2 ^ 53 - 1) * 2 ^ 11) by (apply Z.mul_le_mono_nonneg; lia).
    assert (0 <= Zpos m * 2 ^ e) by (apply Z.mul_nonneg_nonneg; lia). lia.
  - assert (1 < 2 ^ (- e)) as Hpow by (apply Z.pow_gt_1; lia).
    destruct (round_div_bounds (Zpos m * 10 ^ 9) (2 ^ (- e))) as [H1 H2]; [lia..|].
    assert (0 <= Zpos m * 10 ^ 9 / 2 ^ (- e) <= Zpos m * 10 ^ 9).
    { split; [apply Z.div_pos; lia|]. apply Z.div_le_upper_bound; [lia|].
      rewrite <- (Z.mul_1_l (Zpos m * 10 ^ 9)) at 1. apply Z.mul_le_mono_nonneg_r; lia. }
    lia.
Qed.

Lemma from_secs_f64_panic x : canonical x -> SFltb x f64_2p64 = false -> from_secs_f64 x = Panic.
Proof.
  intros Hc Hb. destruct x as [s|s| |s m e]; [by destruct s|done..|]. destruct s; [by destruct m|].
  apply canonical_mantissa_bounds in Hc as (Hu & Hm & He). cbn [from_secs_f64].
  assert (12 <= e) as He12.
  { unfold SFltb, f64_2p64 in Hb. cbn [SFcompare] in Hb. destruct (Z.compare_spec e 12) as [->|?|?]; [lia|done|lia]. }
  specialize (Hm ltac:(lia)). assert (2 ^ 12 <= 2 ^ e) by (apply Z.pow_le_mono_r; lia).
  unfold secs_nanos. rewrite (proj2 (Z.leb_le 0 e)) by lia. case_match eqn:E; [|done]. apply Z.leb_le in E.
  assert (2 ^ 52 * 2 ^ 12 <= Zpos m * 2 ^ e) by (apply Z.mul_le_mono_nonneg; lia).
  unfold DURATION_MAX in E. lia.
Qed.
