(* ===== verification/Config.v ===== *)
(** * The configuration ([src/config.rs])

    The structs an operator fills in, their reading from TOML with the
    placement check, the copying of the account, the validation, the warnings,
    and the effective idle grace. A message of the validation is a constructor
    of [ValidationError] with what it quotes. *)

From Stdlib Require Import SpecFloat.
From S2P Require Import Prelude Text Toml WakeServer MqttControl.

(** ** The structs *)

Inductive TlsClientAuth := TlsNone | TlsRequest | TlsRequire.
#[export] Instance TlsClientAuth_eq_dec : EqDecision TlsClientAuth. Proof. solve_decision. Defined.

Inductive StreamConfig := StreamNone | StreamAll | StreamMain | StreamSub | StreamExtern.
#[export] Instance StreamConfig_eq_dec : EqDecision StreamConfig. Proof. solve_decision. Defined.

Inductive DiscoveryMethod := DiscLocal | DiscRemote | DiscMap | DiscRelay | DiscCellular | DiscCloud.
#[export] Instance DiscoveryMethod_eq_dec : EqDecision DiscoveryMethod. Proof. solve_decision. Defined.

Inductive MaxEncryption := MaxNone | MaxAes | MaxBcEncrypt.
#[export] Instance MaxEncryption_eq_dec : EqDecision MaxEncryption. Proof. solve_decision. Defined.

(** [mqtt/discovery/mod.rs]. *)
Inductive Feature :=
| FFloodlight | FCamera | FMotion | FLed | FIr | FReboot | FPt | FPtPreset | FBattery | FSiren | FPir.
#[export] Instance Feature_eq_dec : EqDecision Feature. Proof. solve_decision. Defined.

Definition Feature_ALL : list Feature :=
  [FFloodlight; FCamera; FMotion; FLed; FIr; FReboot; FPt; FPtPreset; FBattery; FSiren; FPir].

#[export] Instance Feature_countable : Countable Feature.
Proof.
  refine (inj_countable (fun f => Z.of_nat (match list_find (eq f) Feature_ALL with Some (i, _) => i | None => O end))
                        (fun n => nth_error Feature_ALL (Z.to_nat n)) _).
  by intros [].
Defined.

(** Seconds as the struct has them; the defaults of every module. *)
Definition f64_30 : f64 := S754_finite false 8444249301319680 (-48).
Definition f64_3 : f64 := S754_finite false 6755399441055744 (-51).
Definition f64_45 : f64 := S754_finite false 6333186975989760 (-47).

Definition default_bind_addr : str := lit "0.0.0.0".
Definition default_bind_port : Z := 8554.
Definition default_mqtt_port : Z := 1883.
Definition default_topic_prefix : str := lit "bairelay".
Definition default_2000 : Z := 2000.
Definition default_gap_threshold : f64 := f64_3.
Definition default_prune_grace_secs : Z := 30.
Definition default_motion_wake_hold_secs : f64 := f64_30.
Definition default_push_listener_port : Z := 443.

Record PushListenerConfig := MkPushListenerConfig {
  pl_enable : bool; push_listener_addr : option str; push_listener_port : Z; pl_motion_wake_hold_secs : f64
}.

Definition PushListenerConfig_default : PushListenerConfig :=
  MkPushListenerConfig false None default_push_listener_port default_motion_wake_hold_secs.

Record UserConfig := MkUserConfig { user_name : str; user_pass : str }.
#[export] Instance UserConfig_eq_dec : EqDecision UserConfig. Proof. solve_decision. Defined.

Record MqttDiscoveryConfig := MkMqttDiscoveryConfig { disc_topic : str; disc_features : gset Feature }.
#[export] Instance MqttDiscoveryConfig_eq_dec : EqDecision MqttDiscoveryConfig. Proof. solve_decision. Defined.

Definition default_features : gset Feature := list_to_set Feature_ALL.

Record MqttServerConfig := MkMqttServerConfig {
  broker_addr : str; mqtt_port : Z; credentials : option (str * str); mqtt_ca : option str;
  client_auth : option (str * str); topic_prefix : str; mqtt_discovery : option MqttDiscoveryConfig
}.
#[export] Instance MqttServerConfig_eq_dec : EqDecision MqttServerConfig. Proof. solve_decision. Defined.

Definition MqttServerConfig_default : MqttServerConfig :=
  MkMqttServerConfig [] default_mqtt_port None None None default_topic_prefix None.

Record MqttConfig := MkMqttConfig {
  enable_motion : bool; enable_light : bool; enable_battery : bool; battery_update : Z;
  enable_preview : bool; preview_update : Z; enable_floodlight : bool; floodlight_update : Z;
  enable_pir : bool; cam_mqtt_discovery : option MqttDiscoveryConfig
}.
#[export] Instance MqttConfig_eq_dec : EqDecision MqttConfig. Proof. solve_decision. Defined.

Definition MqttConfig_default : MqttConfig :=
  MkMqttConfig true true true 2000 true 2000 false 2000 false None.

Record PauseConfig := MkPauseConfig {
  bridge_gaps : bool; gap_threshold_secs : f64; preview_overlay : bool;
  on_motion : option bool; on_client : option bool; on_disconnect : option bool;
  motion_timeout : option f64; pause_mode : option str; pause_timeout : option f64
}.

Definition PauseConfig_default : PauseConfig :=
  MkPauseConfig true default_gap_threshold true None None None None None None.

Record CameraConfig := MkCameraConfig {
  cam_name : str; address : option str; uid : option str; username : str; password : option str;
  cam_cloud_account : option str; cam_cloud_password : option str; cloud_mfa_trust_token : option str;
  cloud_refresh_token : option str; channel_id : Z; stream : StreamConfig; discovery : DiscoveryMethod;
  max_encryption : MaxEncryption; idle_disconnect : bool; idle_disconnect_timeout_secs : option f64;
  motion_wake_hold_secs : f64; enabled : bool; cam_mqtt : MqttConfig; pause : PauseConfig;
  permitted_users : list str; debug : option bool; print_format : option str; update_time : option bool;
  buffer_duration : option Z; use_splash : option bool; splash_pattern : option str;
  max_discovery_retries : option Z; push_notifications : option bool; strict : option bool
}.

Definition CameraConfig_default : CameraConfig :=
  MkCameraConfig [] None None [] None None None None None 0 StreamAll DiscRelay MaxAes false None
    default_motion_wake_hold_secs true MqttConfig_default PauseConfig_default [] None None None None None None
    None None None.

Record Config := MkConfig {
  bind_addr : str; bind_port : Z; certificate : option str; tls_client_auth : TlsClientAuth;
  tls_bind_port : option Z; tls_client_ca : option str; users : list UserConfig;
  mqtt : option MqttServerConfig; wake_server : option WakeServerConfig;
  push_listener : option PushListenerConfig; tokio_console : option bool; stream_prune_grace_secs : Z;
  cloud_account : option str; cloud_password : option str; cameras : list CameraConfig
}.

Definition Config_default : Config :=
  MkConfig default_bind_addr default_bind_port None TlsNone None None [] None None None None
    default_prune_grace_secs None None [].

(** [CameraEnableFlags::from]. *)
Record CameraEnableFlags := MkCameraEnableFlags {
  flag_motion : bool; flag_battery : bool; flag_floodlight : bool; flag_light : bool; flag_pir : bool
}.

Definition enable_flags (m : MqttConfig) : CameraEnableFlags :=
  MkCameraEnableFlags (enable_motion m) (enable_battery m) (enable_floodlight m) (enable_light m) (enable_pir m).

(** ** Reading TOML: the derived conversions *)

Definition tls_client_auth_names : list (str * TlsClientAuth) :=
  [(lit "none", TlsNone); (lit "request", TlsRequest); (lit "require", TlsRequire); (lit "required", TlsRequire)].

Definition stream_names : list (str * StreamConfig) :=
  [(lit "none", StreamNone); (lit "all", StreamAll); (lit "both", StreamAll); (lit "main", StreamMain);
   (lit "sub", StreamSub); (lit "extern", StreamExtern)].

Definition discovery_names : list (str * DiscoveryMethod) :=
  [(lit "local", DiscLocal); (lit "remote", DiscRemote); (lit "map", DiscMap); (lit "relay", DiscRelay);
   (lit "cellular", DiscCellular); (lit "cloud", DiscCloud)].

Definition max_encryption_names : list (str * MaxEncryption) :=
  [(lit "none", MaxNone); (lit "aes", MaxAes); (lit "bcencrypt", MaxBcEncrypt)].

Definition feature_names : list (str * Feature) :=
  [(lit "floodlight", FFloodlight); (lit "camera", FCamera); (lit "motion", FMotion); (lit "led", FLed);
   (lit "ir", FIr); (lit "reboot", FReboot); (lit "pt", FPt); (lit "pt_preset", FPtPreset);
   (lit "battery", FBattery); (lit "siren", FSiren); (lit "pir", FPir)].

Definition variant_name {A} `{EqDecision A} (l : list (str * A)) (a : A) : str :=
  match List.find (fun p => bool_decide (snd p = a)) l with Some p => fst p | None => [] end.

Definition ser_variant {A} `{EqDecision A} (l : list (str * A)) (a : A) : Value := String (variant_name l a).

Definition to_fields_MqttDiscoveryConfig (d : MqttDiscoveryConfig) : fields :=
  [(lit "topic", Some (String (disc_topic d)));
   (lit "features", Some (ser_list (ser_variant feature_names) (elements (disc_features d))))].

Definition ser_MqttDiscoveryConfig (d : MqttDiscoveryConfig) : Value := Table (table_of (to_fields_MqttDiscoveryConfig d)).

Definition de_MqttDiscoveryConfig : Value -> option MqttDiscoveryConfig :=
  of_table [lit "topic"; lit "features"] (fun t =>
    topic ← required [lit "topic"] de_str t;
    features ← defaulted [lit "features"] default_features
                 (fun v => list_to_set <$> de_list (de_variant feature_names) v) t;
    Some (MkMqttDiscoveryConfig topic features)).

Definition to_fields_MqttServerConfig (m : MqttServerConfig) : fields :=
  [(lit "broker_addr", Some (String (broker_addr m)));
   (lit "port", Some (Integer (mqtt_port m)));
   (lit "credentials", ser_pair <$> credentials m);
   (lit "ca", String <$> mqtt_ca m);
   (lit "client_auth", ser_pair <$> client_auth m);
   (lit "topic_prefix", Some (String (topic_prefix m)));
   (lit "discovery", ser_MqttDiscoveryConfig <$> mqtt_discovery m)].

Definition ser_MqttServerConfig (m : MqttServerConfig) : Value := Table (table_of (to_fields_MqttServerConfig m)).

Definition de_MqttServerConfig : Value -> option MqttServerConfig :=
  of_table [lit "broker_addr"; lit "server"; lit "port"; lit "credentials"; lit "ca"; lit "client_auth";
            lit "topic_prefix"; lit "discovery"] (fun t =>
    a ← required [lit "broker_addr"; lit "server"] de_str t;
    p ← defaulted [lit "port"] default_mqtt_port (de_uint 16) t;
    c ← defaulted [lit "credentials"] None (de_option de_pair) t;
    ca ← defaulted [lit "ca"] None (de_option de_str) t;
    ch ← defaulted [lit "client_auth"] None (de_option de_pair) t;
    tp ← defaulted [lit "topic_prefix"] default_topic_prefix de_str t;
    d ← defaulted [lit "discovery"] None (de_option de_MqttDiscoveryConfig) t;
    Some (MkMqttServerConfig a p c ca ch tp d)).

Definition to_fields_MqttConfig (m : MqttConfig) : fields :=
  [(lit "enable_motion", Some (Boolean (enable_motion m)));
   (lit "enable_light", Some (Boolean (enable_light m)));
   (lit "enable_battery", Some (Boolean (enable_battery m)));
   (lit "battery_update", Some (Integer (battery_update m)));
   (lit "enable_preview", Some (Boolean (enable_preview m)));
   (lit "preview_update", Some (Integer (preview_update m)));
   (lit "enable_floodlight", Some (Boolean (enable_floodlight m)));
   (lit "floodlight_update", Some (Integer (floodlight_update m)));
   (lit "enable_pir", Some (Boolean (enable_pir m)));
   (lit "discovery", ser_MqttDiscoveryConfig <$> cam_mqtt_discovery m)].

Definition ser_MqttConfig (m : MqttConfig) : Value := Table (table_of (to_fields_MqttConfig m)).

Definition de_MqttConfig : Value -> option MqttConfig :=
  of_table [lit "enable_motion"; lit "enable_light"; lit "enable_battery"; lit "battery_update"; lit "enable_preview";
            lit "preview_update"; lit "enable_floodlight"; lit "floodlight_update"; lit "enable_pir";
            lit "discovery"] (fun t =>
    m ← defaulted [lit "enable_motion"] true de_bool t;
    l ← defaulted [lit "enable_light"] true de_bool t;
    b ← defaulted [lit "enable_battery"] true de_bool t;
    bu ← defaulted [lit "battery_update"] default_2000 (de_uint 64) t;
    p ← defaulted [lit "enable_preview"] true de_bool t;
    pu ← defaulted [lit "preview_update"] default_2000 (de_uint 64) t;
    f ← defaulted [lit "enable_floodlight"] false de_bool t;
    fu ← defaulted [lit "floodlight_update"] default_2000 (de_uint 64) t;
    pir ← defaulted [lit "enable_pir"] false de_bool t;
    d ← defaulted [lit "discovery"] None (de_option de_MqttDiscoveryConfig) t;
    Some (MkMqttConfig m l b bu p pu f fu pir d)).

Definition to_fields_PauseConfig (p : PauseConfig) : fields :=
  [(lit "bridge_gaps", Some (Boolean (bridge_gaps p)));
   (lit "gap_threshold_secs", Some (Float (gap_threshold_secs p)));
   (lit "preview_overlay", Some (Boolean (preview_overlay p)));
   (lit "on_motion", Boolean <$> on_motion p);
   (lit "on_client", Boolean <$> on_client p);
   (lit "on_disconnect", Boolean <$> on_disconnect p);
   (lit "motion_timeout", Float <$> motion_timeout p);
   (lit "mode", String <$> pause_mode p);
   (lit "timeout", Float <$> pause_timeout p)].

Definition ser_PauseConfig (p : PauseConfig) : Value := Table (table_of (to_fields_PauseConfig p)).

Definition de_PauseConfig : Value -> option PauseConfig :=
  of_table [lit "bridge_gaps"; lit "gap_threshold_secs"; lit "preview_overlay"; lit "on_motion"; lit "on_client";
            lit "on_disconnect"; lit "motion_timeout"; lit "mode"; lit "timeout"] (fun t =>
    b ← defaulted [lit "bridge_gaps"] true de_bool t;
    g ← defaulted [lit "gap_threshold_secs"] default_gap_threshold de_f64 t;
    o ← defaulted [lit "preview_overlay"] true de_bool t;
    m ← defaulted [lit "on_motion"] None (de_option de_bool) t;
    c ← defaulted [lit "on_client"] None (de_option de_bool) t;
    d ← defaulted [lit "on_disconnect"] None (de_option de_bool) t;
    mt ← defaulted [lit "motion_timeout"] None (de_option de_f64) t;
    mo ← defaulted [lit "mode"] None (de_option de_str) t;
    ti ← defaulted [lit "timeout"] None (de_option de_f64) t;
    Some (MkPauseConfig b g o m c d mt mo ti)).

Definition to_fields_UserConfig (u : UserConfig) : fields :=
  [(lit "name", Some (String (user_name u))); (lit "pass", Some (String (user_pass u)))].

Definition ser_UserConfig (u : UserConfig) : Value := Table (table_of (to_fields_UserConfig u)).

Definition de_UserConfig : Value -> option UserConfig :=
  of_table [lit "name"; lit "username"; lit "pass"; lit "password"] (fun t =>
    n ← required [lit "name"; lit "username"] de_str t;
    p ← defaulted [lit "pass"; lit "password"] [] de_str t;
    Some (MkUserConfig n p)).

Definition to_fields_PushListenerConfig (p : PushListenerConfig) : fields :=
  [(lit "enable", Some (Boolean (pl_enable p)));
   (lit "push_listener_addr", String <$> push_listener_addr p);
   (lit "push_listener_port", Some (Integer (push_listener_port p)));
   (lit "motion_wake_hold_secs", Some (Float (pl_motion_wake_hold_secs p)))].

Definition ser_PushListenerConfig (p : PushListenerConfig) : Value := Table (table_of (to_fields_PushListenerConfig p)).

Definition de_PushListenerConfig : Value -> option PushListenerConfig :=
  of_table [lit "enable"; lit "push_listener_addr"; lit "push_listener_port"; lit "motion_wake_hold_secs"] (fun t =>
    e ← defaulted [lit "enable"] false de_bool t;
    a ← defaulted [lit "push_listener_addr"] None (de_option de_str) t;
    p ← defaulted [lit "push_listener_port"] default_push_listener_port (de_uint 16) t;
    h ← defaulted [lit "motion_wake_hold_secs"] default_motion_wake_hold_secs de_f64 t;
    Some (MkPushListenerConfig e a p h)).

(** [wake_server/config.rs]; [bind] is skipped. *)
Definition to_fields_WakeServerConfig (w : WakeServerConfig) : fields :=
  [(lit "enable", Some (Boolean (cfg_enable w)));
   (lit "middleman_port", Some (Integer (cfg_middleman_port w)));
   (lit "register_port", Some (Integer (cfg_register_port w)));
   (lit "heartbeat_ms", Some (Integer (cfg_heartbeat_ms w)));
   (lit "stale_after_ms", Some (Integer (cfg_stale_after_ms w)))].

Definition ser_WakeServerConfig (w : WakeServerConfig) : Value := Table (table_of (to_fields_WakeServerConfig w)).

Definition de_WakeServerConfig : Value -> option WakeServerConfig :=
  of_table [lit "enable"; lit "middleman_port"; lit "register_port"; lit "heartbeat_ms"; lit "stale_after_ms"] (fun t =>
    e ← defaulted [lit "enable"] false de_bool t;
    m ← defaulted [lit "middleman_port"] 9999 (de_uint 16) t;
    r ← defaulted [lit "register_port"] 58200 (de_uint 16) t;
    h ← defaulted [lit "heartbeat_ms"] 20000 (de_uint 32) t;
    s ← defaulted [lit "stale_after_ms"] 80000 (de_uint 64) t;
    Some (MkWakeServerConfig e m r h s None)).

(** The four [cloud_*] fields are skipped. *)
Definition to_fields_CameraConfig (c : CameraConfig) : fields :=
  [(lit "name", Some (String (cam_name c)));
   (lit "address", String <$> address c);
   (lit "uid", String <$> uid c);
   (lit "username", Some (String (username c)));
   (lit "password", String <$> password c);
   (lit "channel_id", Some (Integer (channel_id c)));
   (lit "stream", Some (ser_variant stream_names (stream c)));
   (lit "discovery", Some (ser_variant discovery_names (discovery c)));
   (lit "max_encryption", Some (ser_variant max_encryption_names (max_encryption c)));
   (lit "idle_disconnect", Some (Boolean (idle_disconnect c)));
   (lit "idle_disconnect_timeout_secs", Float <$> idle_disconnect_timeout_secs c);
   (lit "motion_wake_hold_secs", Some (Float (motion_wake_hold_secs c)));
   (lit "enabled", Some (Boolean (enabled c)));
   (lit "mqtt", Some (ser_MqttConfig (cam_mqtt c)));
   (lit "pause", Some (ser_PauseConfig (pause c)));
   (lit "permitted_users", Some (ser_list String (permitted_users c)));
   (lit "debug", Boolean <$> debug c);
   (lit "print_format", String <$> print_format c);
   (lit "update_time", Boolean <$> update_time c);
   (lit "buffer_duration", Integer <$> buffer_duration c);
   (lit "use_splash", Boolean <$> use_splash c);
   (lit "splash_pattern", String <$> splash_pattern c);
   (lit "max_discovery_retries", Integer <$> max_discovery_retries c);
   (lit "push_notifications", Boolean <$> push_notifications c);
   (lit "strict", Boolean <$> strict c)].

Definition ser_CameraConfig (c : CameraConfig) : Value := Table (table_of (to_fields_CameraConfig c)).

Definition camera_names : list str :=
  [lit "name"; lit "address"; lit "uid"; lit "username"; lit "password"; lit "pass"; lit "channel_id"; lit "channel";
   lit "stream"; lit "discovery"; lit "max_encryption"; lit "idle_disconnect"; lit "idle"; lit "idle_disc";
   lit "idle_disconnect_timeout_secs"; lit "motion_wake_hold_secs"; lit "enabled"; lit "enable"; lit "mqtt";
   lit "pause"; lit "permitted_users"; lit "debug"; lit "verbose"; lit "print_format"; lit "print";
   lit "update_time"; lit "time"; lit "buffer_duration"; lit "duration"; lit "buffer"; lit "use_splash";
   lit "splash"; lit "splash_pattern"; lit "pattern"; lit "max_discovery_retries"; lit "retries";
   lit "max_retries"; lit "push_notifications"; lit "push"; lit "push_noti"; lit "strict"].

Definition de_CameraConfig : Value -> option CameraConfig :=
  of_table camera_names (fun t =>
    n ← required [lit "name"] de_str t;
    a ← defaulted [lit "address"] None (de_option de_str) t;
    u ← defaulted [lit "uid"] None (de_option de_str) t;
    un ← required [lit "username"] de_str t;
    pw ← defaulted [lit "password"; lit "pass"] None (de_option de_str) t;
    ch ← defaulted [lit "channel_id"; lit "channel"] 0 (de_uint 8) t;
    s ← defaulted [lit "stream"] StreamAll (de_variant stream_names) t;
    d ← defaulted [lit "discovery"] DiscRelay (de_variant discovery_names) t;
    me ← defaulted [lit "max_encryption"] MaxAes (de_variant max_encryption_names) t;
    i ← defaulted [lit "idle_disconnect"; lit "idle"; lit "idle_disc"] false de_bool t;
    it ← defaulted [lit "idle_disconnect_timeout_secs"] None (de_option de_f64) t;
    mh ← defaulted [lit "motion_wake_hold_secs"] default_motion_wake_hold_secs de_f64 t;
    e ← defaulted [lit "enabled"; lit "enable"] true de_bool t;
    mq ← defaulted [lit "mqtt"] MqttConfig_default de_MqttConfig t;
    p ← defaulted [lit "pause"] PauseConfig_default de_PauseConfig t;
    pu ← defaulted [lit "permitted_users"] [] (de_list de_str) t;
    db ← defaulted [lit "debug"; lit "verbose"] None (de_option de_bool) t;
    pf ← defaulted [lit "print_format"; lit "print"] None (de_option de_str) t;
    ut ← defaulted [lit "update_time"; lit "time"] None (de_option de_bool) t;
    bd ← defaulted [lit "buffer_duration"; lit "duration"; lit "buffer"] None (de_option (de_uint 64)) t;
    us ← defaulted [lit "use_splash"; lit "splash"] None (de_option de_bool) t;
    sp ← defaulted [lit "splash_pattern"; lit "pattern"] None (de_option de_str) t;
    mr ← defaulted [lit "max_discovery_retries"; lit "retries"; lit "max_retries"] None (de_option (de_uint 64)) t;
    pn ← defaulted [lit "push_notifications"; lit "push"; lit "push_noti"] None (de_option de_bool) t;
    st ← defaulted [lit "strict"] None (de_option de_bool) t;
    Some (MkCameraConfig n a u un pw None None None None ch s d me i it mh e mq p pu db pf ut bd us sp mr pn st)).

Definition to_fields_Config (c : Config) : fields :=
  [(lit "bind", Some (String (bind_addr c)));
   (lit "bind_port", Some (Integer (bind_port c)));
   (lit "certificate", String <$> certificate c);
   (lit "tls_client_auth", Some (ser_variant tls_client_auth_names (tls_client_auth c)));
   (lit "tls_bind_port", Integer <$> tls_bind_port c);
   (lit "tls_client_ca", String <$> tls_client_ca c);
   (lit "users", Some (ser_list ser_UserConfig (users c)));
   (lit "mqtt", ser_MqttServerConfig <$> mqtt c);
   (lit "wake_server", ser_WakeServerConfig <$> wake_server c);
   (lit "push_listener", ser_PushListenerConfig <$> push_listener c);
   (lit "tokio_console", Boolean <$> tokio_console c);
   (lit "stream_prune_grace_secs", Some (Integer (stream_prune_grace_secs c)));
   (lit "cloud_account", String <$> cloud_account c);
   (lit "cloud_password", String <$> cloud_password c);
   (lit "cameras", Some (ser_list ser_CameraConfig (cameras c)))].

Definition ser_Config (c : Config) : Value := Table (table_of (to_fields_Config c)).

Definition de_Config : Value -> option Config :=
  of_table [lit "bind"; lit "bind_port"; lit "certificate"; lit "tls_client_auth"; lit "tls_bind_port";
            lit "tls_client_ca"; lit "users"; lit "mqtt"; lit "wake_server"; lit "push_listener"; lit "tokio_console";
            lit "stream_prune_grace_secs"; lit "cloud_account"; lit "cloud_password"; lit "cameras"] (fun t =>
    b ← defaulted [lit "bind"] default_bind_addr de_str t;
    p ← defaulted [lit "bind_port"] default_bind_port (de_uint 16) t;
    c ← defaulted [lit "certificate"] None (de_option de_str) t;
    ta ← defaulted [lit "tls_client_auth"] TlsNone (de_variant tls_client_auth_names) t;
    tp ← defaulted [lit "tls_bind_port"] None (de_option (de_uint 16)) t;
    tc ← defaulted [lit "tls_client_ca"] None (de_option de_str) t;
    u ← defaulted [lit "users"] [] (de_list de_UserConfig) t;
    m ← defaulted [lit "mqtt"] None (de_option de_MqttServerConfig) t;
    w ← defaulted [lit "wake_server"] None (de_option de_WakeServerConfig) t;
    pl ← defaulted [lit "push_listener"] None (de_option de_PushListenerConfig) t;
    tk ← defaulted [lit "tokio_console"] None (de_option de_bool) t;
    g ← defaulted [lit "stream_prune_grace_secs"] default_prune_grace_secs (de_uint 64) t;
    ca ← defaulted [lit "cloud_account"] None (de_option de_str) t;
    cp ← defaulted [lit "cloud_password"] None (de_option de_str) t;
    cs ← required [lit "cameras"] (de_list de_CameraConfig) t;
    Some (MkConfig b p c ta tp tc u m w pl tk g ca cp cs)).

(** ** The placement of keys *)

Definition TOP_LEVEL_SCALAR_KEYS : list str :=
  [lit "bind"; lit "bind_addr"; lit "bind_port"; lit "certificate"; lit "tls_bind_port"; lit "tls_client_auth";
   lit "tls_client_ca"; lit "tokio_console"; lit "stream_prune_grace_secs"].

Definition is_top_level_key (k : str) : bool := existsb (fun n => bool_decide (n = k)) TOP_LEVEL_SCALAR_KEYS.

(** [walk_for_misplaced]: what it appends to [out]. *)
Fixpoint walk_for_misplaced (path : str) (value : Value) {struct value} : list (str * str) :=
  match value with
  | Table t =>
      (fix keys (t : table) : list (str * str) :=
         match t with
         | [] => []
         | (k, v) :: t =>
             match v with
             | Table _ => walk_for_misplaced (path ++ [46] ++ k) v
             | Array arr =>
                 (fix items (i : Z) (arr : list Value) : list (str * str) :=
                    match arr with
                    | [] => []
                    | item :: arr =>
                        (if is_table item
                         then walk_for_misplaced ((path ++ [46] ++ k) ++ [91] ++ show_uint i ++ [93]) item
                         else []) ++ items (i + 1) arr
                    end) 0 arr
             | _ => if is_top_level_key k then [(path, k)] else []
             end ++ keys t
         end) t
  | Array arr =>
      (fix items (i : Z) (arr : list Value) : list (str * str) :=
         match arr with
         | [] => []
         | item :: arr =>
             (if is_table item then walk_for_misplaced (path ++ [91] ++ show_uint i ++ [93]) item else [])
             ++ items (i + 1) arr
         end) 0 arr
  | _ => []
  end.

Definition misplaced (root : table) : list (str * str) := concat (map (fun kv => walk_for_misplaced (fst kv) (snd kv)) root).

(** The error is the list of keys the message names, with their paths. *)
Definition validate_top_level_key_placement (value : Value) : result unit (list (str * str)) :=
  match value with
  | Table root => match misplaced root with [] => Ok tt | l => Err l end
  | _ => Ok tt
  end.

Inductive ParseError := BadToml | Misplaced (keys : list (str * str)) | BadConfig.

Definition with_account (account pass : option str) (c : CameraConfig) : CameraConfig :=
  MkCameraConfig (cam_name c) (address c) (uid c) (username c) (password c) account pass
    (cloud_mfa_trust_token c) (cloud_refresh_token c) (channel_id c) (stream c) (discovery c) (max_encryption c)
    (idle_disconnect c) (idle_disconnect_timeout_secs c) (motion_wake_hold_secs c) (enabled c) (cam_mqtt c)
    (pause c) (permitted_users c) (debug c) (print_format c) (update_time c) (buffer_duration c) (use_splash c)
    (splash_pattern c) (max_discovery_retries c) (push_notifications c) (strict c).

Definition with_cameras (c : Config) (l : list CameraConfig) : Config :=
  MkConfig (bind_addr c) (bind_port c) (certificate c) (tls_client_auth c) (tls_bind_port c) (tls_client_ca c)
    (users c) (mqtt c) (wake_server c) (push_listener c) (tokio_console c) (stream_prune_grace_secs c)
    (cloud_account c) (cloud_password c) l.

Definition share_account (c : Config) : Config :=
  with_cameras c (map (with_account (cloud_account c) (cloud_password c)) (cameras c)).

Definition parse_config `{T : TomlText} (toml_str : str) : result Config ParseError :=
  match toml_parse toml_str with
  | None => Err BadToml
  | Some value =>
      match validate_top_level_key_placement value with
      | Err l => Err (Misplaced l)
      | Ok _ =>
          match de_Config value with
          | None => Err BadConfig
          | Some config => Ok (share_account config)
          end
      end
  end.

(** ** The cloud credential ([apply_cloud_auth], [cloud.rs]) *)

Definition CACHE_MARGIN_SECS : Z := 120.

Record CloudAuth := MkCloudAuth {
  auth_account : str; mfa_trust_token : option str; refresh_token : option str; expiry_unix_s : Z
}.

Definition is_some {A} (o : option A) : bool := match o with Some _ => true | None => false end.

Definition is_valid (a : CloudAuth) (now_unix_s : Z) : bool :=
  (is_some (mfa_trust_token a) || is_some (refresh_token a)) && (now_unix_s <? expiry_unix_s a - CACHE_MARGIN_SECS).

Definition with_tokens (trust refresh : option str) (c : CameraConfig) : CameraConfig :=
  MkCameraConfig (cam_name c) (address c) (uid c) (username c) (password c) (cam_cloud_account c)
    (cam_cloud_password c) trust refresh (channel_id c) (stream c) (discovery c) (max_encryption c)
    (idle_disconnect c) (idle_disconnect_timeout_secs c) (motion_wake_hold_secs c) (enabled c) (cam_mqtt c)
    (pause c) (permitted_users c) (debug c) (print_format c) (update_time c) (buffer_duration c) (use_splash c)
    (splash_pattern c) (max_discovery_retries c) (push_notifications c) (strict c).

(** [raw]: what the file beside the configuration holds, if it can be read
    and parsed; [now]: the clock. *)
Definition apply_cloud_auth (raw : option CloudAuth) (now : Z) (config : Config) : Config :=
  match raw with
  | None => config
  | Some auth =>
      if negb (bool_decide (cloud_account config = Some (auth_account auth))) then config
      else if negb (is_valid auth now) then config
      else
        with_cameras config
          (map (fun cam => if bool_decide (discovery cam = DiscCloud)
                           then with_tokens (mfa_trust_token auth) (refresh_token auth) cam else cam) (cameras config))
  end.

(** ** Validation *)

Inductive ValidationError :=
| NoListener
| TlsPortZero
| SameListenerPorts (plain tls : Z)
| ClientAuthWithoutCa (mode : TlsClientAuth)
| ClientAuthWithoutCertificate
| EmptyTopicPrefix
| BadTopicPrefix (prefix : str)
| EmptyDiscoveryTopic
| SlashInDiscoveryTopic (topic : str)
| EmptyUserName (i : Z)
| EmptyPassword (user : str)
| DuplicateUser (user : str)
| EmptyCameraName (i : Z)
| BadCameraName (cam : str)
| DuplicateCamera (cam : str)
| PasswordRequired (cam : str)
| CloudNeedsAccount (cam : str)
| CloudNeedsUid (cam : str)
| NeedsAddressOrUid (cam : str)
| ShortBatteryUpdate (cam : str) (ms : Z)
| ShortPreviewUpdate (cam : str) (ms : Z)
| ShortFloodlightUpdate (cam : str) (ms : Z)
| BadGapThreshold (cam : str) (secs : f64)
| BadIdleTimeout (cam : str) (secs : f64)
| BadPauseTimeout (cam : str) (secs : f64)
| BadMotionHold (cam : str) (secs : f64)
| PushBadMotionHold (secs : f64)
| PushPortZero
| PushNeedsWakeServer
| UnknownPermittedUser (cam user : str).

Abbreviation verdict := (result unit ValidationError).

(** An [if bad { return Err(e) }]. *)
Definition refuse_if (bad : bool) (e : ValidationError) : verdict := if bad then Err e else Ok tt.

Definition DEFAULT_TLS_BIND_PORT : Z := 8555.

Definition wants_client_cert (t : TlsClientAuth) : bool :=
  match t with TlsRequest | TlsRequire => true | TlsNone => false end.

Definition validate_listeners (config : Config) : verdict :=
  let? _ := refuse_if ((bind_port config =? 0) && negb (is_some (certificate config))) NoListener in
  if is_some (certificate config) then
    let tls_port := default DEFAULT_TLS_BIND_PORT (tls_bind_port config) in
    let? _ := refuse_if (tls_port =? 0) TlsPortZero in
    let? _ := refuse_if (negb (bind_port config =? 0) && (bind_port config =? tls_port))
                (SameListenerPorts (bind_port config) tls_port) in
    refuse_if (wants_client_cert (tls_client_auth config) && negb (is_some (tls_client_ca config)))
      (ClientAuthWithoutCa (tls_client_auth config))
  else refuse_if (wants_client_cert (tls_client_auth config)) ClientAuthWithoutCertificate.

Definition is_nil {A} (l : list A) : bool := match l with [] => true | _ => false end.

Definition validate_mqtt (config : Config) : verdict :=
  match mqtt config with
  | None => Ok tt
  | Some m =>
      let? _ := refuse_if (is_nil (topic_prefix m)) EmptyTopicPrefix in
      let? _ := refuse_if (negb (forallb name_char (topic_prefix m))) (BadTopicPrefix (topic_prefix m)) in
      match mqtt_discovery m with
      | None => Ok tt
      | Some d =>
          let? _ := refuse_if (is_nil (disc_topic d)) EmptyDiscoveryTopic in
          refuse_if (existsb (Z.eqb 47) (disc_topic d)) (SlashInDiscoveryTopic (disc_topic d))
      end
  end.

(** [insert] tells whether the name is new. *)
Fixpoint validate_users (i : Z) (seen : gset str) (l : list UserConfig) : verdict :=
  match l with
  | [] => Ok tt
  | user :: l =>
      let? _ := refuse_if (is_nil (trim (user_name user))) (EmptyUserName i) in
      let? _ := refuse_if (is_nil (user_pass user)) (EmptyPassword (user_name user)) in
      let? _ := refuse_if (bool_decide (user_name user ∈ seen)) (DuplicateUser (user_name user)) in
      validate_users (i + 1) ({[user_name user]} ∪ seen) l
  end.

(** [!x.is_finite() || x <= 0.0], and with [<]. *)
Definition not_positive (x : f64) : bool := negb (f64_is_finite x) || SFleb x f64_zero.
Definition negative_or_odd (x : f64) : bool := negb (f64_is_finite x) || SFltb x f64_zero.

Definition validate_camera (cam : CameraConfig) : verdict :=
  let n := cam_name cam in
  let cloud := bool_decide (discovery cam = DiscCloud) in
  let? _ := refuse_if (negb (is_some (password cam)) && negb cloud) (PasswordRequired n) in
  let? _ := refuse_if (cloud && (negb (is_some (cam_cloud_account cam)) || negb (is_some (cam_cloud_password cam))))
              (CloudNeedsAccount n) in
  let? _ := refuse_if (cloud && negb (is_some (uid cam))) (CloudNeedsUid n) in
  let? _ := refuse_if (negb (is_some (address cam)) && negb (is_some (uid cam))) (NeedsAddressOrUid n) in
  let? _ := refuse_if (battery_update (cam_mqtt cam) <? 500) (ShortBatteryUpdate n (battery_update (cam_mqtt cam))) in
  let? _ := refuse_if (preview_update (cam_mqtt cam) <? 500) (ShortPreviewUpdate n (preview_update (cam_mqtt cam))) in
  let? _ := refuse_if (floodlight_update (cam_mqtt cam) <? 500)
              (ShortFloodlightUpdate n (floodlight_update (cam_mqtt cam))) in
  let? _ := refuse_if (bridge_gaps (pause cam) && not_positive (gap_threshold_secs (pause cam)))
              (BadGapThreshold n (gap_threshold_secs (pause cam))) in
  let? _ := match idle_disconnect_timeout_secs cam with
            | Some t => refuse_if (not_positive t) (BadIdleTimeout n t)
            | None => Ok tt
            end in
  let? _ := match pause_timeout (pause cam) with
            | Some t => refuse_if (not_positive t) (BadPauseTimeout n t)
            | None => Ok tt
            end in
  refuse_if (negative_or_odd (motion_wake_hold_secs cam)) (BadMotionHold n (motion_wake_hold_secs cam)).

Fixpoint validate_cameras (i : Z) (names : gset str) (l : list CameraConfig) : verdict :=
  match l with
  | [] => Ok tt
  | cam :: l =>
      let? _ := refuse_if (is_nil (trim (cam_name cam))) (EmptyCameraName i) in
      let? _ := refuse_if (negb (forallb name_char (cam_name cam))) (BadCameraName (cam_name cam)) in
      let? _ := refuse_if (bool_decide (cam_name cam ∈ names)) (DuplicateCamera (cam_name cam)) in
      let? _ := validate_camera cam in
      validate_cameras (i + 1) ({[cam_name cam]} ∪ names) l
  end.

Definition validate_push_listener (config : Config) : verdict :=
  match push_listener config with
  | None => Ok tt
  | Some pl =>
      if pl_enable pl then
        let? _ := refuse_if (negative_or_odd (pl_motion_wake_hold_secs pl)) (PushBadMotionHold (pl_motion_wake_hold_secs pl)) in
        let? _ := refuse_if (push_listener_port pl =? 0) PushPortZero in
        refuse_if (negb (match wake_server config with Some w => cfg_enable w | None => false end)) PushNeedsWakeServer
      else Ok tt
  end.

Fixpoint validate_permitted (cam : str) (user_names : gset str) (l : list str) : verdict :=
  match l with
  | [] => Ok tt
  | pu :: l =>
      let? _ := refuse_if (negb (bool_decide (pu ∈ user_names))) (UnknownPermittedUser cam pu) in
      validate_permitted cam user_names l
  end.

Fixpoint validate_acls (user_names : gset str) (l : list CameraConfig) : verdict :=
  match l with
  | [] => Ok tt
  | cam :: l =>
      let? _ := validate_permitted (cam_name cam) user_names (permitted_users cam) in
      validate_acls user_names l
  end.

Definition validate_config (config : Config) : verdict :=
  let? _ := validate_listeners config in
  let? _ := validate_mqtt config in
  let? _ := validate_users 0 ∅ (users config) in
  let? _ := validate_cameras 0 ∅ (cameras config) in
  let? _ := validate_push_listener config in
  validate_acls (list_to_set (map user_name (users config))) (cameras config).

(** [load_config], of the text of the file; a file that cannot be read is
    not modelled. *)
Inductive LoadError := ParseFailed (e : ParseError) | Invalid (e : ValidationError).

Definition load_config `{T : TomlText} (text : str) (auth : option CloudAuth) (now : Z) : result Config LoadError :=
  match parse_config text with
  | Err e => Err (ParseFailed e)
  | Ok config =>
      let config := apply_cloud_auth auth now config in
      match validate_config config with
      | Err e => Err (Invalid e)
      | Ok _ => Ok config
      end
  end.

(** ** Idle grace and warnings *)

Definition secs (n : Z) : Z := n * 1000000000.

(** [Duration + Duration] panics past the maximum. *)
Definition duration_add (a b : Z) : outcome Z := if a + b <=? DURATION_MAX then Ret (a + b) else Panic.

Definition idle_secs (cam : CameraConfig) : f64 :=
  match idle_disconnect_timeout_secs cam with
  | Some t => t
  | None => default f64_45 (pause_timeout (pause cam))
  end.

Definition resolve_idle_disconnect_timeout (cam : CameraConfig) (prune_grace : Z) : outcome Z :=
  let! configured := from_secs_f64 (idle_secs cam) in
  if configured <? prune_grace then duration_add prune_grace (secs 15) else Ret configured.

Inductive WarningKind :=
| DepOnMotion | DepOnClient | DepOnDisconnect | DepMotionTimeout | DepMode | DepTimeoutOverridden
| DepTimeoutMapped (t : f64)
| CompatTokioConsole | CompatPrintFormat | CompatUpdateTime | CompatBufferDuration | CompatUseSplash
| CompatSplashPattern | CompatMaxDiscoveryRetries | CompatPushNotifications | CompatStrict | CompatDiscovery
| WireDebug
| IdleClamped (configured prune safe_floor : Z)
| UsersWithoutTls.

Record ConfigWarning := MkConfigWarning { warned_camera : option str; message : WarningKind }.

Definition warn_if (b : bool) (camera : option str) (k : WarningKind) : list ConfigWarning :=
  if b then [MkConfigWarning camera k] else [].

Definition warn_deprecated_pause_fields (config : Config) : list ConfigWarning :=
  concat (map (fun cam =>
    let p := pause cam in let n := Some (cam_name cam) in
    warn_if (is_some (on_motion p)) n DepOnMotion ++ warn_if (is_some (on_client p)) n DepOnClient
    ++ warn_if (is_some (on_disconnect p)) n DepOnDisconnect ++ warn_if (is_some (motion_timeout p)) n DepMotionTimeout
    ++ warn_if (is_some (pause_mode p)) n DepMode
    ++ match pause_timeout p with
       | Some t =>
           if is_some (idle_disconnect_timeout_secs cam) then [MkConfigWarning n DepTimeoutOverridden]
           else [MkConfigWarning n (DepTimeoutMapped t)]
       | None => []
       end) (cameras config)).

Definition warn_neolink_compat_fields (config : Config) : list ConfigWarning :=
  warn_if (is_some (tokio_console config)) None CompatTokioConsole
  ++ concat (map (fun cam =>
       let n := Some (cam_name cam) in
       warn_if (is_some (print_format cam)) n CompatPrintFormat
       ++ warn_if (is_some (update_time cam)) n CompatUpdateTime
       ++ warn_if (is_some (buffer_duration cam)) n CompatBufferDuration
       ++ warn_if (is_some (use_splash cam)) n CompatUseSplash
       ++ warn_if (is_some (splash_pattern cam)) n CompatSplashPattern
       ++ warn_if (is_some (max_discovery_retries cam)) n CompatMaxDiscoveryRetries
       ++ warn_if (is_some (push_notifications cam)) n CompatPushNotifications
       ++ warn_if (is_some (strict cam)) n CompatStrict
       ++ warn_if (is_some (cam_mqtt_discovery (cam_mqtt cam))) n CompatDiscovery) (cameras config)).

Definition warn_wire_debug_enabled (config : Config) : list ConfigWarning :=
  concat (map (fun cam => warn_if (bool_decide (debug cam = Some true)) (Some (cam_name cam)) WireDebug) (cameras config)).

Fixpoint warn_idle (prune safe_floor : Z) (l : list CameraConfig) : outcome (list ConfigWarning) :=
  match l with
  | [] => Ret []
  | cam :: l =>
      let! configured := from_secs_f64 (idle_secs cam) in
      let! out := warn_idle prune safe_floor l in
      Ret (warn_if (configured <? prune) (Some (cam_name cam)) (IdleClamped configured prune safe_floor) ++ out)
  end.

Definition warn_idle_timeout_below_prune_floor (config : Config) : outcome (list ConfigWarning) :=
  let prune := secs (stream_prune_grace_secs config) in
  let! safe_floor := duration_add prune (secs 15) in
  warn_idle prune safe_floor (cameras config).

Definition warn_users_without_tls (config : Config) : list ConfigWarning :=
  warn_if (negb (is_nil (users config)) && negb (is_some (certificate config))) None UsersWithoutTls.

Definition config_warnings (config : Config) : outcome (list ConfigWarning) :=
  let! idle := warn_idle_timeout_below_prune_floor config in
  Ret (warn_deprecated_pause_fields config ++ warn_neolink_compat_fields config ++ warn_wire_debug_enabled config
       ++ idle ++ warn_users_without_tls config).

(** ** What the validation admits *)

Definition seconds_ok (x : f64) : Prop := f64_is_finite x = true /\ SFleb x f64_zero = false.
Definition hold_ok (x : f64) : Prop := f64_is_finite x = true /\ SFltb x f64_zero = false.

Record listeners_ok (c : Config) : Prop := {
  some_listener : bind_port c <> 0 \/ is_Some (certificate c);
  tls_port_ok : is_Some (certificate c) -> default DEFAULT_TLS_BIND_PORT (tls_bind_port c) <> 0;
  ports_differ : is_Some (certificate c) -> bind_port c <> 0 ->
    bind_port c <> default DEFAULT_TLS_BIND_PORT (tls_bind_port c);
  client_certs_checked : tls_client_auth c <> TlsNone -> is_Some (certificate c) /\ is_Some (tls_client_ca c)
}.

Record mqtt_ok (m : MqttServerConfig) : Prop := {
  prefix_ok : name_ok (topic_prefix m);
  discovery_topic_ok d : mqtt_discovery m = Some d -> disc_topic d <> [] /\ no_slash (disc_topic d)
}.

Definition user_ok (u : UserConfig) : Prop := trim (user_name u) <> [] /\ user_pass u <> [].

Record camera_ok (c : CameraConfig) : Prop := {
  login_ok : discovery c <> DiscCloud -> is_Some (password c);
  cloud_ok : discovery c = DiscCloud -> is_Some (cam_cloud_account c) /\ is_Some (cam_cloud_password c) /\ is_Some (uid c);
  found_ok : is_Some (address c) \/ is_Some (uid c);
  intervals_ok : 500 <= battery_update (cam_mqtt c) /\ 500 <= preview_update (cam_mqtt c)
                 /\ 500 <= floodlight_update (cam_mqtt c);
  gap_ok : bridge_gaps (pause c) = true -> seconds_ok (gap_threshold_secs (pause c));
  idle_ok t : idle_disconnect_timeout_secs c = Some t -> seconds_ok t;
  pause_ok t : pause_timeout (pause c) = Some t -> seconds_ok t;
  motion_ok : hold_ok (motion_wake_hold_secs c)
}.

Definition push_ok (c : Config) : Prop := forall p, push_listener c = Some p -> pl_enable p = true ->
  hold_ok (pl_motion_wake_hold_secs p) /\ push_listener_port p <> 0
  /\ exists w, wake_server c = Some w /\ cfg_enable w = true.

Record WellFormed (c : Config) : Prop := {
  wf_listeners : listeners_ok c;
  wf_mqtt m : mqtt c = Some m -> mqtt_ok m;
  wf_users : Forall user_ok (users c);
  wf_user_names : NoDup (map user_name (users c));
  wf_cameras : Forall (fun cam => name_ok (cam_name cam) /\ camera_ok cam) (cameras c);
  wf_camera_names : NoDup (map cam_name (cameras c));
  wf_push : push_ok c;
  wf_permitted : Forall (fun cam => Forall (fun pu => In pu (map user_name (users c))) (permitted_users cam)) (cameras c)
}.

Lemma refuse_if_ok b e : refuse_if b e = Ok tt <-> b = false.
Proof. unfold refuse_if. destruct b; split; congruence. Qed.

Lemma refuse_if_then b e k : (let? _ := refuse_if b e in k) = Ok tt <-> b = false /\ k = Ok tt.
Proof. unfold refuse_if. destruct b; cbn; intuition congruence. Qed.

Lemma then_ok (r k : verdict) : (let? _ := r in k) = Ok tt <-> r = Ok tt /\ k = Ok tt.
Proof. destruct r as [[]|e]; cbn; intuition congruence. Qed.

Lemma is_some_iff {A} (o : option A) : is_some o = true <-> is_Some o.
Proof. destruct o; cbn; split; eauto; [discriminate|intros [? ?]; discriminate]. Qed.

Lemma is_some_not {A} (o : option A) : negb (is_some o) = false <-> is_Some o.
Proof. rewrite negb_false_iff. apply is_some_iff. Qed.

Lemma is_nil_false {A} (l : list A) : is_nil l = false <-> l <> [].
Proof. destruct l; cbn; split; congruence. Qed.

#[local] Hint Rewrite refuse_if_then refuse_if_ok then_ok @is_some_not @is_nil_false negb_false_iff : verdicts.

Lemma validate_listeners_iff c : validate_listeners c = Ok tt <-> listeners_ok c.
Proof.
  unfold validate_listeners. autorewrite with verdicts.
  destruct (certificate c) as [crt|] eqn:Ec; cbn [is_some]; autorewrite with verdicts.
  - rewrite !andb_false_iff, !negb_false_iff, !Z.eqb_neq, Z.eqb_eq, is_some_iff. split.
    + intros (_ & Hz & Hd & Ha). constructor; rewrite ?Ec; eauto; [tauto|].
      intros Hn. split; [eauto|]. destruct (tls_client_auth c); cbn in Ha; destruct Ha as [Ha|Ha]; congruence || done.
    + intros [H1 H2 H3 H4]. rewrite Ec in *. split; [right; done|]. split; [eauto|]. split.
      * destruct (decide (bind_port c = 0)); eauto.
      * destruct (tls_client_auth c); cbn; [auto|right; by apply H4..].
  - rewrite !andb_false_iff. cbn. rewrite Z.eqb_neq. split.
    + intros [[Hp|Hp] Ha]; [|done]. constructor; rewrite ?Ec; eauto; [intros [? [=]]..|].
      destruct (tls_client_auth c); done.
    + intros [H1 H2 H3 H4]. rewrite Ec in *. split; [destruct H1 as [?|[? [=]]]; auto|].
      destruct (tls_client_auth c); cbn; [done|destruct H4 as [[? [=]] _]; done..].
Qed.

Lemma no_slash_iff s : existsb (Z.eqb 47) s = false <-> no_slash s.
Proof.
  unfold no_slash. induction s as [|c s IH]; cbn [existsb]; [split; auto|].
  rewrite orb_false_iff, IH, Z.eqb_neq. split; [intros [? ?]; constructor; auto|intros H; inv H; auto].
Qed.

Lemma validate_mqtt_iff c : validate_mqtt c = Ok tt <-> forall m, mqtt c = Some m -> mqtt_ok m.
Proof.
  unfold validate_mqtt. destruct (mqtt c) as [m|]; [|split; [intros _ m [=]|done]]. autorewrite with verdicts.
  unfold name_ok. split.
  - intros (Hn & Hc & Hd) m' [= <-]. constructor; [done|]. intros d Ed. rewrite Ed in Hd. autorewrite with verdicts in Hd.
    by rewrite no_slash_iff in Hd.
  - intros H. destruct (H m eq_refl) as [[Hn Hc] Hd]. do 2 (split; [done|]).
    destruct (mqtt_discovery m) as [d|]; [|done]. autorewrite with verdicts. rewrite no_slash_iff. by apply Hd.
Qed.

(** Both loops over names keep a set of those seen. *)
Lemma validate_users_iff l : forall i seen, validate_users i seen l = Ok tt <->
  Forall user_ok l /\ NoDup (map user_name l) /\ forall n, In n (map user_name l) -> n ∉ seen.
Proof.
  induction l as [|u l IH]; intros i seen; cbn [validate_users map].
  - split; [intros _|done]. split; [constructor|]. split; [constructor|]. intros n [].
  - autorewrite with verdicts. rewrite bool_decide_eq_false, IH, Forall_cons_iff, list.NoDup_cons, list_elem_of_In. unfold user_ok. cbn [In].
    setoid_rewrite not_elem_of_union. setoid_rewrite not_elem_of_singleton.
    split.
    + intros (H1 & H2 & H3 & H4 & H5 & H6). repeat split; auto.
      * intros H. by destruct (H6 _ H).
      * intros n [<-|H]; [done|]. by apply H6.
    + intros (([H0 H1] & H4) & (H2 & H5) & H6). repeat split; auto. by intros ->.
Qed.

Lemma not_positive_iff x : not_positive x = false <-> seconds_ok x.
Proof. unfold not_positive, seconds_ok. by rewrite orb_false_iff, negb_false_iff. Qed.

Lemma negative_or_odd_iff x : negative_or_odd x = false <-> hold_ok x.
Proof. unfold negative_or_odd, hold_ok. by rewrite orb_false_iff, negb_false_iff. Qed.

Lemma optional_secs (o : option f64) (e : f64 -> ValidationError) :
  match o with Some t => refuse_if (not_positive t) (e t) | None => Ok tt end = Ok tt <->
  forall t, o = Some t -> seconds_ok t.
Proof.
  destruct o as [t|]; [|split; [intros _ t [=]|done]]. rewrite refuse_if_ok, not_positive_iff.
  split; [by intros H t' [= <-]|auto].
Qed.

Lemma validate_camera_iff c : validate_camera c = Ok tt <-> camera_ok c.
Proof.
  unfold validate_camera. autorewrite with verdicts. rewrite !optional_secs, negative_or_odd_iff, !andb_false_iff,
    orb_false_iff, !is_some_not, not_positive_iff, !Z.ltb_ge, negb_false_iff, bool_decide_eq_true, !bool_decide_eq_false.
  split.
  - intros (H1 & H2 & H3 & H4 & H5 & H6 & H7 & H8 & H9 & H10 & H11). constructor; auto; try tauto.
    intros E. rewrite E in H8. destruct H8; [done|auto].
  - intros [H1 H2 H3 H4 H5 H6 H7 H8]. destruct (decide (discovery c = DiscCloud)) as [E|E].
    + destruct (H2 E) as (? & ? & ?). split_and!; auto; try tauto; try lia. destruct (bridge_gaps (pause c)); auto.
    + split_and!; auto; try tauto; try lia. destruct (bridge_gaps (pause c)); auto.
Qed.

Lemma name_char_graphic c : name_char c = true -> is_graphic c.
Proof. unfold name_char, in_range, is_graphic. rewrite !orb_true_iff, !andb_true_iff, !Z.leb_le, !Z.eqb_eq. lia. Qed.

Lemma validate_cameras_iff l : forall i seen, validate_cameras i seen l = Ok tt <->
  Forall (fun c => name_ok (cam_name c) /\ camera_ok c) l /\ NoDup (map cam_name l)
  /\ forall n, In n (map cam_name l) -> n ∉ seen.
Proof.
  assert (forall n, trim n <> [] /\ forallb name_char n = true <-> name_ok n) as Ht.
  { intros n. unfold name_ok. split; intros [H1 H2]; (split; [|done]).
    - by intros ->.
    - rewrite trim_graphic; [done|]. apply Forall_forall. intros c Hc. rewrite forallb_forall in H2.
      apply H2, name_char_graphic in Hc. done. }
  induction l as [|c l IH]; intros i seen; cbn [validate_cameras map].
  - split; [intros _|done]. split; [constructor|]. split; [constructor|]. intros n [].
  - autorewrite with verdicts. rewrite bool_decide_eq_false, IH, validate_camera_iff, Forall_cons_iff, list.NoDup_cons, list_elem_of_In, <- Ht.
    cbn [In]. setoid_rewrite not_elem_of_union. setoid_rewrite not_elem_of_singleton. split.
    + intros (H1 & H2 & H3 & H4 & H5 & H6 & H7). split_and!; auto.
      * intros H. by destruct (H7 _ H).
      * intros n [<-|H]; [done|]. by apply H7.
    + intros ((([H0 H1] & H4) & H5) & (H3 & H6) & H7). split_and!; auto. intros n Hn. split; [by intros ->|auto].
Qed.

Lemma validate_push_listener_iff c : validate_push_listener c = Ok tt <-> push_ok c.
Proof.
  unfold validate_push_listener, push_ok. destruct (push_listener c) as [p|]; [|split; [intros _ p [=]|done]].
  destruct (pl_enable p) eqn:Ee; [|split; [intros _ p' [= <-]; congruence|done]].
  autorewrite with verdicts. rewrite negative_or_odd_iff, Z.eqb_neq. split.
  - intros (H1 & H2 & H3) p' [= <-] _. do 2 (split; [done|]). destruct (wake_server c); [eauto|done].
  - intros H. destruct (H p eq_refl Ee) as (H1 & H2 & w & -> & Hw). auto.
Qed.

Lemma validate_permitted_iff cam names l : validate_permitted cam (list_to_set names) l = Ok tt <->
  Forall (fun pu => In pu names) l.
Proof.
  induction l as [|pu l IH]; cbn [validate_permitted]; [split; auto|]. autorewrite with verdicts.
  by rewrite bool_decide_eq_true, elem_of_list_to_set, list_elem_of_In, IH, Forall_cons_iff.
Qed.

Lemma validate_acls_iff names l : validate_acls (list_to_set names) l = Ok tt <->
  Forall (fun cam => Forall (fun pu => In pu names) (permitted_users cam)) l.
Proof.
  induction l as [|cam l IH]; cbn [validate_acls]; [split; auto|]. autorewrite with verdicts.
  by rewrite validate_permitted_iff, IH, Forall_cons_iff.
Qed.

(** The validation, loop by loop with its sets and early returns, admits
    exactly the well-formed configurations. *)
Lemma validate_config_iff c : validate_config c = Ok tt <-> WellFormed c.
Proof.
  unfold validate_config. autorewrite with verdicts.
  rewrite validate_listeners_iff, validate_mqtt_iff, validate_users_iff, validate_cameras_iff,
    validate_push_listener_iff, validate_acls_iff.
  split.
  - intros (H1 & H2 & (H3 & H4 & _) & (H5 & H6 & _) & H7 & H8). by constructor.
  - intros [H1 H2 H3 H4 H5 H6 H7 H8]. repeat (split; auto); intros n _; apply not_elem_of_empty.
Qed.

(** ** The durations of an admitted configuration *)

Definition below (x : f64) : bool := SFltb x f64_2p64.

Definition canonical_camera (c : CameraConfig) : Prop :=
  canonical (idle_secs c) /\ canonical (gap_threshold_secs (pause c)) /\ canonical (motion_wake_hold_secs c).

Lemma seconds_hold x : seconds_ok x -> hold_ok x.
Proof.
  intros [Hf H]. split; [done|]. unfold SFleb, SFltb in *. by destruct (SFcompare x f64_zero) as [[]|].
Qed.

Lemma hold_secs x : canonical x -> hold_ok x -> below x = true -> exists n, from_secs_f64 x = Ret n /\ 0 <= n.
Proof. intros Hc [Hf Hn] Hb. by apply from_secs_f64_ret. Qed.

Lemma idle_secs_ok c : camera_ok c -> hold_ok (idle_secs c).
Proof.
  intros H. unfold idle_secs. destruct (idle_disconnect_timeout_secs c) eqn:E; [apply seconds_hold; by apply (idle_ok c H)|].
  destruct (pause_timeout (pause c)) eqn:E'; [apply seconds_hold; by apply (pause_ok c H)|by split].
Qed.

Lemma grace_fits g : 0 <= g <= i64_max -> duration_add (secs g) (secs 15) = Ret (secs g + secs 15).
Proof.
  intros Hg. unfold duration_add, secs, i64_max, DURATION_MAX in *. case_match eqn:E; [done|].
  apply Z.leb_gt in E. lia.
Qed.

Lemma warn_idle_ret p f l : Forall (fun c => camera_ok c /\ canonical_camera c /\ below (idle_secs c) = true) l ->
  exists ws, warn_idle p f l = Ret ws.
Proof.
  induction 1 as [|c l (Hok & (Hc & _) & Hb) _ [ws IH]]; cbn [warn_idle]; [eauto|].
  destruct (hold_secs _ Hc (idle_secs_ok _ Hok) Hb) as (n & -> & _). cbn. rewrite IH. cbn. eauto.
Qed.

Lemma warn_idle_panic p f l c : In c l -> canonical_camera c -> below (idle_secs c) = false ->
  warn_idle p f l = Panic.
Proof.
  intros Hin Hc Hb. induction l as [|d l IH]; [done|]. cbn [warn_idle]. destruct Hin as [->|Hin].
  - by rewrite (from_secs_f64_panic _ (proj1 Hc) Hb).
  - rewrite (IH Hin). by destruct (from_secs_f64 _).
Qed.

(** For an admitted configuration of document integers, the
    idle grace of a camera with less than 2^64 seconds is a duration, never
    shorter than the grace a cached source is kept, and is the configured one
    unless that is shorter; its gap threshold, if gaps are bridged, and its
    motion hold convert too when they are that short; and collecting the
    warnings at startup panics exactly when some camera's idle seconds reach
    2^64, which the validation admits. *)
Theorem admitted_durations c :
  validate_config c = Ok tt -> Forall canonical_camera (cameras c) -> 0 <= stream_prune_grace_secs c <= i64_max ->
  (forall cam, In cam (cameras c) ->
     (below (idle_secs cam) = true ->
        exists n g, from_secs_f64 (idle_secs cam) = Ret n
          /\ resolve_idle_disconnect_timeout cam (secs (stream_prune_grace_secs c)) = Ret g
          /\ secs (stream_prune_grace_secs c) <= g /\ (secs (stream_prune_grace_secs c) <= n -> g = n))
     /\ (bridge_gaps (pause cam) = true -> below (gap_threshold_secs (pause cam)) = true ->
           exists t, from_secs_f64 (gap_threshold_secs (pause cam)) = Ret t /\ 0 <= t)
     /\ (below (motion_wake_hold_secs cam) = true ->
           exists h, from_secs_f64 (motion_wake_hold_secs cam) = Ret h /\ 0 <= h))
  /\ (config_warnings c = Panic <-> exists cam, In cam (cameras c) /\ below (idle_secs cam) = false).
Proof.
  intros Hv%validate_config_iff Hcan Hg. pose proof (wf_cameras c Hv) as Hcams. rewrite List.Forall_forall in Hcams, Hcan.
  split.
  - intros cam Hin. destruct (Hcams cam Hin) as [_ Hok], (Hcan cam Hin) as (C1 & C2 & C3). split; [|split].
    + intros Hb. destruct (hold_secs _ C1 (idle_secs_ok _ Hok) Hb) as (n & En & Hn). exists n.
      unfold resolve_idle_disconnect_timeout. rewrite En. cbn [out_bind].
      destruct (Z.ltb_spec n (secs (stream_prune_grace_secs c))) as [Hl|Hl].
      * rewrite (grace_fits _ Hg). eexists. repeat split; unfold secs in *; lia.
      * exists n. repeat split; lia.
    + intros Hbr Hb. apply hold_secs; [done|apply seconds_hold; by apply (gap_ok cam Hok)|done].
    + intros Hb. apply hold_secs; [done|apply (motion_ok cam Hok)|done].
  - unfold config_warnings, warn_idle_timeout_below_prune_floor. rewrite (grace_fits _ Hg). cbn [out_bind]. split.
    + intros Hp. destruct (List.Exists_dec (fun cam => below (idle_secs cam) = false) (cameras c)) as [He|He].
      { intros x. destruct (below (idle_secs x)); [by right|by left]. }
      { by apply List.Exists_exists in He. }
      exfalso. destruct (warn_idle_ret (secs (stream_prune_grace_secs c)) (secs (stream_prune_grace_secs c) + secs 15)
        (cameras c)) as [ws E]; [|by rewrite E in Hp].
      apply List.Forall_forall. intros cam Hin. split_and!; [by apply Hcams|by apply Hcan|].
      destruct (below (idle_secs cam)) eqn:Eb; [done|]. exfalso. apply He, List.Exists_exists. eauto.
    + intros (cam & Hin & Hb). by rewrite (warn_idle_panic _ _ _ cam Hin (Hcan cam Hin) Hb).
Qed.

Definition sample_camera (name : str) (idle : option f64) : CameraConfig :=
  MkCameraConfig name (Some (lit "10.0.0.5:9000")) None (lit "admin") (Some (lit "pw")) None None None None 0 StreamAll
    DiscRelay MaxAes true idle default_motion_wake_hold_secs true MqttConfig_default PauseConfig_default [] None None
    None None None None None None None.

(** 1e20 seconds. *)
Definition f64_1e20 : f64 := S754_finite false 6103515625000000 14.

Lemma admitted_durations_witness :
  (exists n g, from_secs_f64 f64_45 = Ret n
     /\ resolve_idle_disconnect_timeout (sample_camera (lit "porch") None) (secs 30) = Ret g
     /\ secs 30 <= g /\ (secs 30 <= n -> g = n))
  /\ config_warnings (with_cameras Config_default [sample_camera (lit "porch") (Some f64_1e20)]) = Panic.
Proof.
  split.
  - pose (c := with_cameras Config_default [sample_camera (lit "porch") None]).
    apply (proj1 (admitted_durations c ltac:(vm_compute; done)
      ltac:(constructor; [split_and!; vm_compute; done|constructor])
      ltac:(vm_compute; split; intros [=])) (sample_camera (lit "porch") None)); [by left|done].
  - apply (admitted_durations (with_cameras Config_default [sample_camera (lit "porch") (Some f64_1e20)])
      ltac:(vm_compute; done) ltac:(constructor; [split_and!; vm_compute; done|constructor])
      ltac:(vm_compute; split; intros [=])).
    exists (sample_camera (lit "porch") (Some f64_1e20)). split; [by left|done].
Defined.
