(* ===== verification/Hassio.v ===== *)
(** * The Home Assistant add-on's configuration ([src/hassio/])

    The supervisor's options become a base configuration ([options.rs]), the
    operator's overlay is merged over it ([merge.rs]), the result is validated
    and written with what equals the defaults left out ([cmd.rs]). *)

From Stdlib Require Import SpecFloat.
From S2P Require Import Prelude Text Toml WakeServer MqttControl Config.

(** ** Options ([options.rs]) *)

Record MqttServiceFlags := MkMqttServiceFlags {
  flags_host : option str; flags_port : option Z; flags_username : option str; flags_password : option str; ssl : bool
}.

Record HassioCamera := MkHassioCamera {
  hc_name : str; hc_address : option str; hc_uid : option str; hc_username : str; hc_password : str;
  hc_idle_disconnect : bool
}.

Record HassioOptions := MkHassioOptions {
  opt_topic_prefix : str; log_level : str; opt_cameras : list HassioCamera
}.

Definition non_empty (o : option str) : option str :=
  match o with Some [] => None | _ => o end.

Definition base_camera (c : HassioCamera) : CameraConfig :=
  let d := CameraConfig_default in
  MkCameraConfig (hc_name c) (non_empty (hc_address c)) (non_empty (hc_uid c)) (hc_username c) (Some (hc_password c))
    (cam_cloud_account d) (cam_cloud_password d) (cloud_mfa_trust_token d) (cloud_refresh_token d) (channel_id d)
    (stream d) (discovery d) (max_encryption d) (hc_idle_disconnect c) (idle_disconnect_timeout_secs d)
    (motion_wake_hold_secs d) (enabled d) (cam_mqtt d) (pause d) (permitted_users d) (debug d) (print_format d)
    (update_time d) (buffer_duration d) (use_splash d) (splash_pattern d) (max_discovery_retries d)
    (push_notifications d) (strict d).

Definition base_mqtt (opts : HassioOptions) (f : MqttServiceFlags) : option MqttServerConfig :=
  match flags_host f with
  | None => None
  | Some host =>
      let creds := match flags_username f, flags_password f with Some u, Some p => Some (u, p) | _, _ => None end in
      Some (MkMqttServerConfig host (default 1883 (flags_port f)) creds None None (opt_topic_prefix opts)
              (Some (MkMqttDiscoveryConfig (lit "homeassistant") (list_to_set Feature_ALL))))
  end.

Definition build_base_config (opts : HassioOptions) (f : MqttServiceFlags) : Config :=
  let d := Config_default in
  MkConfig (bind_addr d) (bind_port d) (certificate d) (tls_client_auth d) (tls_bind_port d) (tls_client_ca d) (users d)
    (base_mqtt opts f) (wake_server d) (push_listener d) (tokio_console d) (stream_prune_grace_secs d)
    (cloud_account d) (cloud_password d) (map base_camera (opt_cameras opts)).

(** ** The overlay ([merge.rs]) *)

(** A field the document does not have is added. *)
Definition or_insert (k : str) (v : Value) (t : table) : table :=
  match t_get k t with Some _ => t | None => t_insert k v t end.

(** The document with the fields an overlay may leave out. *)
Definition complete_camera (v : Value) : Value :=
  match v with Table t => Table (or_insert (lit "username") (String []) t) | _ => v end.

Definition complete_overlay (doc : Value) : Value :=
  match doc with
  | Table t =>
      let t := or_insert (lit "cameras") (Array []) t in
      Table (match t_get (lit "cameras") t with
             | Some (Array cams) => t_insert (lit "cameras") (Array (map complete_camera cams)) t
             | _ => t
             end)
  | _ => doc
  end.

Definition parse_overlay `{T : TomlText} (toml_src : str) : option Config :=
  doc ← toml_parse toml_src; de_Config (complete_overlay doc).

(** [overlay_field!]: with the default; for an option; for a string or a
    list. *)
Definition by_default {A} `{EqDecision A} (d b o : A) : A := if bool_decide (o = d) then b else o.
Definition by_option {A} (b o : option A) : option A := match o with Some _ => o | None => b end.
Definition by_content {A} (b o : list A) : list A := if is_nil o then b else o.

(** [!=] on floats. *)
Definition by_default_f64 (d b o : f64) : f64 := if SFeqb o d then b else o.

Definition option_eqb {A} (eqb : A -> A -> bool) (a b : option A) : bool :=
  match a, b with Some x, Some y => eqb x y | None, None => true | _, _ => false end.

(** Derived [PartialEq] of [PauseConfig]. *)
Definition pause_eqb (p q : PauseConfig) : bool :=
  Bool.eqb (bridge_gaps p) (bridge_gaps q) && SFeqb (gap_threshold_secs p) (gap_threshold_secs q)
  && Bool.eqb (preview_overlay p) (preview_overlay q) && bool_decide (on_motion p = on_motion q)
  && bool_decide (on_client p = on_client q) && bool_decide (on_disconnect p = on_disconnect q)
  && option_eqb SFeqb (motion_timeout p) (motion_timeout q) && bool_decide (pause_mode p = pause_mode q)
  && option_eqb SFeqb (pause_timeout p) (pause_timeout q).

Definition merge_camera (b o : CameraConfig) : CameraConfig :=
  let d := CameraConfig_default in
  MkCameraConfig (cam_name b) (by_option (address b) (address o)) (by_option (uid b) (uid o))
    (by_content (username b) (username o)) (by_option (password b) (password o))
    (cam_cloud_account b) (cam_cloud_password b) (cloud_mfa_trust_token b) (cloud_refresh_token b)
    (by_default (channel_id d) (channel_id b) (channel_id o))
    (by_default (stream d) (stream b) (stream o))
    (by_default (discovery d) (discovery b) (discovery o))
    (by_default (max_encryption d) (max_encryption b) (max_encryption o))
    (by_default (idle_disconnect d) (idle_disconnect b) (idle_disconnect o))
    (by_option (idle_disconnect_timeout_secs b) (idle_disconnect_timeout_secs o))
    (by_default_f64 (motion_wake_hold_secs d) (motion_wake_hold_secs b) (motion_wake_hold_secs o))
    (by_default (enabled d) (enabled b) (enabled o))
    (by_default (cam_mqtt d) (cam_mqtt b) (cam_mqtt o))
    (if pause_eqb (pause o) (pause d) then pause b else pause o)
    (by_content (permitted_users b) (permitted_users o))
    (by_option (debug b) (debug o)) (by_option (print_format b) (print_format o))
    (by_option (update_time b) (update_time o)) (by_option (buffer_duration b) (buffer_duration o))
    (by_option (use_splash b) (use_splash o)) (by_option (splash_pattern b) (splash_pattern o))
    (by_option (max_discovery_retries b) (max_discovery_retries o))
    (by_option (push_notifications b) (push_notifications o)) (by_option (strict b) (strict o)).

(** The first entry of the name is merged in place; with none the overlay's
    is appended. *)
Fixpoint merge_into (out : list CameraConfig) (over : CameraConfig) : list CameraConfig :=
  match out with
  | [] => [over]
  | b :: out => if bool_decide (cam_name b = cam_name over) then merge_camera b over :: out else b :: merge_into out over
  end.

Definition merge_cameras (base overlay : list CameraConfig) : list CameraConfig := fold_left merge_into overlay base.

Definition merge_mqtt (base overlay : option MqttServerConfig) : option MqttServerConfig :=
  match base, overlay with
  | None, None => None
  | Some b, None => Some b
  | None, Some o => Some o
  | Some b, Some o =>
      let d := MqttServerConfig_default in
      Some (MkMqttServerConfig (by_default (broker_addr d) (broker_addr b) (broker_addr o))
              (by_default (mqtt_port d) (mqtt_port b) (mqtt_port o))
              (by_option (credentials b) (credentials o)) (by_option (mqtt_ca b) (mqtt_ca o))
              (by_option (client_auth b) (client_auth o))
              (by_default (topic_prefix d) (topic_prefix b) (topic_prefix o))
              (by_option (mqtt_discovery b) (mqtt_discovery o)))
  end.

Definition merge_top_level (base overlay : Config) : Config :=
  let d := Config_default in
  MkConfig (by_default (bind_addr d) (bind_addr base) (bind_addr overlay))
    (by_default (bind_port d) (bind_port base) (bind_port overlay))
    (by_option (certificate base) (certificate overlay))
    (by_default (tls_client_auth d) (tls_client_auth base) (tls_client_auth overlay))
    (by_option (tls_bind_port base) (tls_bind_port overlay))
    (by_option (tls_client_ca base) (tls_client_ca overlay))
    (by_content (users base) (users overlay))
    (merge_mqtt (mqtt base) (mqtt overlay))
    (by_option (wake_server base) (wake_server overlay))
    (by_option (push_listener base) (push_listener overlay))
    (tokio_console base)
    (by_default (stream_prune_grace_secs d) (stream_prune_grace_secs base) (stream_prune_grace_secs overlay))
    (cloud_account base) (cloud_password base) (cameras base).

Definition merge (base overlay : Config) : Config :=
  with_cameras (merge_top_level base overlay) (merge_cameras (cameras base) (cameras overlay)).

(** ** Rendering ([cmd.rs]) *)

(** The loop over the keys of [value]: each is kept, removed or replaced. *)
Fixpoint strip_defaults (value dflt : Value) {struct value} : Value :=
  match value, dflt with
  | Table t, Table d =>
      Table ((fix go (t : table) : table :=
                match t with
                | [] => []
                | (k, v) :: t =>
                    match t_get k d with
                    | None => (k, v) :: go t
                    | Some dv =>
                        if value_eqb v dv then go t
                        else if is_table v then
                          match strip_defaults v dv with
                          | Table [] => go t
                          | nested => (k, nested) :: go t
                          end
                        else (k, v) :: go t
                    end
                end) t)
  | _, _ => value
  end.

(** The document written: the configuration, then every camera, against
    their defaults. *)
Definition minimized (cfg : Config) : Value :=
  match strip_defaults (ser_Config cfg) (ser_Config Config_default) with
  | Table t =>
      match t_get (lit "cameras") t with
      | Some (Array cams) =>
          Table (t_insert (lit "cameras") (Array (map (fun c => strip_defaults c (ser_CameraConfig CameraConfig_default)) cams)) t)
      | _ => Table t
      end
  | v => v
  end.

(** A document holds no integer past [i64::MAX]: writing one is an error. *)
Definition camera_integers (c : CameraConfig) : list Z :=
  [battery_update (cam_mqtt c); preview_update (cam_mqtt c); floodlight_update (cam_mqtt c);
   default 0 (buffer_duration c); default 0 (max_discovery_retries c)].

Definition writable (cfg : Config) : bool :=
  forallb (fun i => i <=? i64_max)
    (stream_prune_grace_secs cfg :: match wake_server cfg with Some w => cfg_stale_after_ms w | None => 0 end
     :: concat (map camera_integers (cameras cfg))).

Inductive RenderError := BadOverlay | MergedInvalid (e : ValidationError) | Unwritable.

Definition blank_port (o : option Z) : option Z := match o with Some 0 => None | _ => o end.

(** The first half of [run]: flags that are blank are none, the base, and
    the overlay over it. *)
Definition effective `{T : TomlText} (opts : HassioOptions) (overlay : option str) (f : MqttServiceFlags)
    : result Config RenderError :=
  let f := MkMqttServiceFlags (non_empty (flags_host f)) (blank_port (flags_port f)) (non_empty (flags_username f))
             (non_empty (flags_password f)) (ssl f) in
  let cfg := build_base_config opts f in
  match overlay with
  | None => Ok cfg
  | Some src => match parse_overlay src with Some o => Ok (merge cfg o) | None => Err BadOverlay end
  end.

(** [run], without the files: the text written. *)
Definition run `{T : TomlText} (opts : HassioOptions) (overlay : option str) (f : MqttServiceFlags)
    : result str RenderError :=
  let? cfg := effective opts overlay f in
  match validate_config cfg with
  | Err e => Err (MergedInvalid e)
  | Ok _ => if writable cfg then Ok (toml_print (minimized cfg)) else Err Unwritable
  end.

(** ** Reading back what was stripped *)

Abbreviation keys t := (map fst t).

Definition strip_table (t d : table) : table :=
  match strip_defaults (Table t) (Table d) with Table s => s | _ => [] end.

Lemma strip_defaults_table t d : strip_defaults (Table t) (Table d) = Table (strip_table t d).
Proof. done. Qed.

(** What becomes of a value with the default of its key. *)
Definition stripped (v : Value) (dv : option Value) : option Value :=
  match dv with
  | None => Some v
  | Some dv =>
      if value_eqb v dv then None
      else if is_table v then match strip_defaults v dv with Table [] => None | n => Some n end
      else Some v
  end.

Lemma strip_table_cons k v t d :
  strip_table ((k, v) :: t) d = match stripped v (t_get k d) with Some n => (k, n) :: strip_table t d | None => strip_table t d end.
Proof.
  unfold strip_table. cbn [strip_defaults]. unfold stripped. destruct (t_get k d) as [dv|]; [|done].
  destruct (value_eqb v dv); [done|]. destruct (is_table v); [|done].
  by destruct (strip_defaults v dv) as [| | | | | |[|]].
Qed.

Lemma strip_table_keys t d k : In k (keys (strip_table t d)) -> In k (keys t).
Proof.
  induction t as [|[l v] t IH]; [done|]. rewrite strip_table_cons. destruct (stripped v _); cbn; intuition.
Qed.

Lemma t_get_none k t : ~ In k (keys t) -> t_get k t = None.
Proof.
  induction t as [|[l v] t IH]; [done|]. cbn. intros H. case_bool_decide; [subst; exfalso; auto|]. apply IH. auto.
Qed.

Lemma t_get_strip k t d : NoDup (keys t) -> t_get k (strip_table t d) = v ← t_get k t; stripped v (t_get k d).
Proof.
  induction t as [|[l v] t IH]; [done|]. cbn [map fst]. intros [Hl Hn]%list.NoDup_cons. rewrite strip_table_cons.
  cbn [t_get]. case_bool_decide as E; [subst l|].
  - cbn [mbind option_bind]. destruct (stripped v (t_get k d)); cbn [t_get]; [by rewrite bool_decide_eq_true_2|].
    apply t_get_none. intros H%strip_table_keys. by rewrite list_elem_of_In in Hl.
  - destruct (stripped v (t_get l d)); cbn [t_get]; [by rewrite bool_decide_eq_false_2, IH|by apply IH].
Qed.


Lemma NoDup_insert k v t : ~ In k (keys t) -> NoDup (keys t) -> NoDup (keys (t_insert k v t)).
Proof.
  induction t as [|[l w] t IH]; cbn [t_insert map fst In]; intros Hk Hn; [by apply NoDup_singleton|].
  apply list.NoDup_cons in Hn as [Hl Hn]. rewrite bool_decide_eq_false_2 by (intros ->; auto).
  destruct (str_ltb k l); cbn [map fst]; (apply list.NoDup_cons; split).
  - rewrite list_elem_of_In. cbn. intuition.
  - by apply list.NoDup_cons.
  - rewrite list_elem_of_In in Hl |- *. intros [->|H]%keys_insert; auto.
  - apply IH; auto.
Qed.

Lemma NoDup_table_of l : NoDup (map fst l) -> NoDup (keys (table_of l)).
Proof.
  induction l as [|[k [v|]] l IH]; cbn [table_of foldr map fst snd]; [intros _; apply NoDup_nil_2| |];
    intros [Hk Hn]%list.NoDup_cons; fold (table_of l); [|auto].
  apply NoDup_insert; [|auto]. intros H%keys_table_of. by rewrite list_elem_of_In in Hk.
Qed.

(** Equal tables strip each other away. *)
Lemma strip_equal t d : NoDup (keys d) -> value_eqb (Table t) (Table d) = true -> strip_table t d = [].
Proof.
  intros Hd Heq. assert (forall t' d', incl d' d -> value_eqb (Table t') (Table d') = true -> strip_table t' d = []) as H.
  2:{ apply (H t d); [apply incl_refl|exact Heq]. }
  assert (forall k v, In (k, v) d -> t_get k d = Some v) as Hget.
  { clear Heq. induction d as [|[l w] d IH]; [done|]. cbn [map fst] in Hd. apply list.NoDup_cons in Hd as [Hl Hd].
    intros k v [[= -> ->]|Hin]; cbn [t_get]; [by rewrite bool_decide_eq_true_2|].
    rewrite bool_decide_eq_false_2; [by apply IH|]. intros ->. apply Hl, list_elem_of_In.
    by apply (in_map fst) in Hin. }
  induction t' as [|[k v] t' IH]; intros [|[l w] d'] Hi He; try done. cbn [value_eqb] in He.
  apply andb_true_iff in He as [He He']. apply andb_true_iff in He as [Hk Hv]. apply bool_decide_eq_true in Hk as ->.
  rewrite strip_table_cons, (Hget l w) by (apply Hi; by left). unfold stripped. rewrite Hv.
  apply (IH d'); [|exact He']. intros x Hx. apply Hi. by right.
Qed.

Lemma field_of_nth i fs k o : NoDup (map fst fs) -> nth_error fs i = Some (k, o) -> field_of k fs = o.
Proof.
  revert i. induction fs as [|[j v] fs IH]; intros [|i]; [done|done|..]; cbn [map fst nth_error field_of];
    intros [Hj Hn]%list.NoDup_cons.
  - intros [= -> ->]. rewrite bool_decide_eq_true_2 by done. destruct o; [done|].
    assert (forall l, k ∉ map fst l -> field_of k l = None) as H; [|by apply H].
    clear. induction l as [|[j v] l IH]; [done|]. cbn [map fst field_of]. intros [Hj Hl]%not_elem_of_cons.
    rewrite bool_decide_eq_false_2 by done. by apply IH.
  - intros E. rewrite bool_decide_eq_false_2; [by apply (IH i)|]. intros ->. apply Hj, list_elem_of_In.
    by apply nth_error_In, (in_map fst) in E.
Qed.

Definition free_of (names : list str) (fs : fields) : bool :=
  forallb (fun n => negb (existsb (fun k => bool_decide (n = k)) (map fst fs))) names.

Lemma free_of_none names fs n : free_of names fs = true -> In n names -> field_of n fs = None.
Proof.
  intros H Hn. apply (proj1 (forallb_forall _ _) H), negb_true_iff in Hn.
  induction fs as [|[k v] fs IH]; [done|]. cbn [map fst existsb field_of] in *. apply orb_false_iff in Hn as [Hk Hn].
  rewrite Hk. apply IH; [|done]. unfold free_of in *. apply forallb_forall. intros x Hx.
  apply (proj1 (forallb_forall _ _) H), negb_true_iff in Hx. cbn [map fst existsb] in Hx.
  apply orb_false_iff in Hx as [_ Hx]. by rewrite Hx.
Qed.

(** A struct's table: the fields [fs] of a value stripped against the table
    [d] of the default. *)
Section fields.
Context (fs : fields) (d : table) (HN : NoDup (map fst fs)).

Lemma strip_field k : t_get k (strip_table (table_of fs) d) = v ← field_of k fs; stripped v (t_get k d).
Proof. by rewrite t_get_strip, t_get_table_of by (by apply NoDup_table_of). Qed.

Lemma strip_entry k aliases : free_of aliases fs = true ->
  entry (k :: aliases) (strip_table (table_of fs) d) = Some (v ← field_of k fs; stripped v (t_get k d)).
Proof.
  intros Ha. unfold entry. cbn [omap list_omap]. rewrite strip_field.
  assert (omap (fun n => t_get n (strip_table (table_of fs) d)) aliases = []) as ->.
  { assert (forall n, In n aliases -> field_of n fs = None) as H by (intros; by eapply free_of_none).
    clear Ha. induction aliases as [|n l IH]; [done|]. cbn [omap list_omap]. rewrite strip_field, H by (by left).
    apply IH. intros m Hm. apply H. by right. }
  by destruct (v ← field_of k fs; stripped v (t_get k d)).
Qed.

Context {A : Type} (k : str) (aliases : list str) (de : Value -> option A).
Context (Ha : free_of aliases fs = true).

Lemma required_field i v a : nth_error fs i = Some (k, Some v) -> (v' ← Some v; stripped v' (t_get k d)) = Some v -> de v = Some a ->
  required (k :: aliases) de (strip_table (table_of fs) d) = Some a.
Proof. intros E%field_of_nth Es Hd; [|done]. unfold required. rewrite strip_entry, E, Es by done. exact Hd. Qed.

Lemma option_field i {B} (de' : Value -> option B) (ser : B -> Value) o :
  nth_error fs i = Some (k, ser <$> o) -> t_get k d = None -> (forall b, o = Some b -> de' (ser b) = Some b) ->
  defaulted (k :: aliases) None (de_option de') (strip_table (table_of fs) d) = Some o.
Proof.
  intros E%field_of_nth Ed Hd; [|done]. unfold defaulted. rewrite strip_entry, E, Ed by done. destruct o as [b|]; [|done].
  cbn. unfold de_option. by rewrite (Hd b eq_refl).
Qed.

Lemma kept_field i v a dflt : nth_error fs i = Some (k, Some v) -> t_get k d = None -> de v = Some a ->
  defaulted (k :: aliases) dflt de (strip_table (table_of fs) d) = Some a.
Proof. intros E%field_of_nth Ed Hd; [|done]. unfold defaulted. rewrite strip_entry, E, Ed by done. exact Hd. Qed.

Lemma leaf_field i v dv a dflt : nth_error fs i = Some (k, Some v) -> t_get k d = Some dv -> is_table v = false ->
  de v = Some a -> (value_eqb v dv = true -> a = dflt) ->
  defaulted (k :: aliases) dflt de (strip_table (table_of fs) d) = Some a.
Proof.
  intros E%field_of_nth Ed Ht Hd He; [|done]. unfold defaulted. rewrite strip_entry, E, Ed by done. cbn [mbind option_bind stripped].
  destruct (value_eqb v dv); [by rewrite He|]. rewrite Ht. exact Hd.
Qed.

Lemma nested_field i t dt a dflt : nth_error fs i = Some (k, Some (Table t)) -> t_get k d = Some (Table dt) -> NoDup (keys dt) ->
  de (Table (strip_table t dt)) = Some a -> de (Table []) = Some dflt ->
  defaulted (k :: aliases) dflt de (strip_table (table_of fs) d) = Some a.
Proof.
  intros E%field_of_nth Ed Hn Hd H0; [|done]. unfold defaulted. rewrite strip_entry, E, Ed by done. cbn [mbind option_bind stripped].
  destruct (value_eqb (Table t) (Table dt)) eqn:Eq.
  - rewrite (strip_equal t dt Hn Eq) in Hd. congruence.
  - cbn [is_table]. rewrite strip_defaults_table. destruct (strip_table t dt) eqn:Es; [congruence|exact Hd].
Qed.

End fields.

Lemma strip_known names fs d : forallb (fun k => existsb (fun n => bool_decide (n = k)) names) (map fst fs) = true ->
  known names (strip_table (table_of fs) d) = true.
Proof.
  intros H. unfold known. apply forallb_forall. intros [k v] Hin. apply (in_map fst), strip_table_keys, keys_table_of in Hin.
  rewrite forallb_forall in H. by apply H.
Qed.

(** Nothing is stripped against nothing. *)
Lemma strip_nothing t : strip_table t [] = t.
Proof. induction t as [|[k v] t IH]; [done|]. rewrite strip_table_cons. cbn [t_get stripped]. by rewrite IH. Qed.

Lemma mapM_ser {A} (ser : A -> Value) (de : Value -> option A) l : (forall a, In a l -> de (ser a) = Some a) ->
  mapM de (map ser l) = Some l.
Proof.
  induction l as [|a l IH]; [done|]. intros H. cbn [map mapM]. rewrite (H a) by (by left). cbn.
  rewrite IH by (intros b Hb; apply H; by right). done.
Qed.

(** ** Round trips of the structs *)

Definition fits_in (w i : Z) : Prop := 0 <= i < 2 ^ w.

Lemma de_uint_ok w i : fits_in w i -> de_uint w (Integer i) = Some i.
Proof. intros [H1 H2]. cbn. by rewrite (proj2 (Z.leb_le _ _) H1), (proj2 (Z.ltb_lt _ _) H2). Qed.

Lemma de_pair_ok p : de_pair (ser_pair p) = Some p.
Proof. by destruct p. Qed.

Lemma eqb_list_nil {A} (ser : A -> Value) (l : list A) : value_eqb (ser_list ser l) (Array []) = true -> l = [].
Proof. by destruct l. Qed.

#[local] Ltac no_dups := apply (bool_decide_eq_true_1 _); vm_compute; reflexivity.
#[local] Ltac aliases_free := vm_compute; reflexivity.

Lemma bind_step {A B} (e : option A) a (f : A -> option B) r : e = Some a -> f a = r -> (e ≫= f) = r.
Proof. by intros -> <-. Qed.

(** The fields of a struct, one by one: the lemma of its kind, the lookups by
    computation; what the value itself must satisfy is left first. *)
#[local] Ltac step_with lem n := eapply bind_step; [eapply lem with (i := n); [no_dups|aliases_free|reflexivity|..]|cbv beta].
#[local] Ltac required n := step_with required_field n; [try reflexivity|try reflexivity|].
#[local] Ltac optional n := step_with option_field n; [reflexivity|try (intros; done)|].
#[local] Ltac kept n := step_with kept_field n; [reflexivity|try reflexivity|].
#[local] Ltac leaf n := step_with leaf_field n; [reflexivity|reflexivity|..|].
#[local] Ltac unstripped t := rewrite <- (strip_nothing (table_of t)).

Lemma de_features_ok (s : gset Feature) :
  list_to_set <$> de_list (de_variant feature_names) (ser_list (ser_variant feature_names) (elements s)) = Some s.
Proof.
  unfold ser_list. cbn [de_list]. rewrite mapM_ser by (by intros [] _). cbn. f_equal. apply list_to_set_elements_L.
Qed.

Lemma de_discovery_ok d : de_MqttDiscoveryConfig (ser_MqttDiscoveryConfig d) = Some d.
Proof.
  unfold de_MqttDiscoveryConfig, ser_MqttDiscoveryConfig, of_table. unstripped (to_fields_MqttDiscoveryConfig d).
  rewrite strip_known by (vm_compute; reflexivity). required 0%nat.
  kept 1%nat; [apply de_features_ok|]. by destruct d.
Qed.

Lemma de_mqtt_server_ok m : fits_in 16 (mqtt_port m) -> de_MqttServerConfig (ser_MqttServerConfig m) = Some m.
Proof.
  intros Hp. unfold de_MqttServerConfig, ser_MqttServerConfig, of_table. unstripped (to_fields_MqttServerConfig m).
  rewrite strip_known by (vm_compute; reflexivity). required 0%nat. kept 1%nat; [by apply de_uint_ok|].
  optional 2%nat; [intros; apply de_pair_ok|]. optional 3%nat. optional 4%nat; [intros; apply de_pair_ok|]. kept 5%nat.
  optional 6%nat; [intros; apply de_discovery_ok|]. by destruct m.
Qed.

Lemma eqb_boolean a b : value_eqb (Boolean a) (Boolean b) = true -> a = b.
Proof. apply Bool.eqb_prop. Qed.

Lemma eqb_integer a b : value_eqb (Integer a) (Integer b) = true -> a = b.
Proof. apply Z.eqb_eq. Qed.

Lemma eqb_string a b : value_eqb (String a) (String b) = true -> a = b.
Proof. apply bool_decide_eq_true_1. Qed.

Lemma eqb_float x s m e : value_eqb (Float x) (Float (S754_finite s m e)) = true -> x = S754_finite s m e.
Proof. apply f64_eqb_finite. Qed.

#[local] Hint Resolve eqb_boolean eqb_integer eqb_string eqb_float eqb_list_nil : core.
#[local] Hint Resolve de_uint_ok de_pair_ok de_discovery_ok : core.

Lemma de_stream_ok a : de_variant stream_names (ser_variant stream_names a) = Some a. Proof. by destruct a. Qed.
Lemma de_discovery_method_ok a : de_variant discovery_names (ser_variant discovery_names a) = Some a. Proof. by destruct a. Qed.
Lemma de_max_encryption_ok a : de_variant max_encryption_names (ser_variant max_encryption_names a) = Some a. Proof. by destruct a. Qed.
Lemma de_tls_client_auth_ok a : de_variant tls_client_auth_names (ser_variant tls_client_auth_names a) = Some a. Proof. by destruct a. Qed.

(** A variant that reads back is told apart by its name. *)
Lemma eqb_variant {A} `{EqDecision A} (l : list (str * A)) a b :
  de_variant l (ser_variant l a) = Some a -> de_variant l (ser_variant l b) = Some b ->
  value_eqb (ser_variant l a) (ser_variant l b) = true -> a = b.
Proof. intros Ha Hb E%bool_decide_eq_true_1. unfold ser_variant in *. rewrite E in Ha. congruence. Qed.

#[local] Hint Resolve de_stream_ok de_discovery_method_ok de_max_encryption_ok de_tls_client_auth_ok : core.
#[local] Hint Resolve eqb_variant : core.

#[local] Ltac variant n lem := leaf n; [apply lem|apply eqb_variant; apply lem|].

#[local] Ltac nested n lem := step_with nested_field n; [reflexivity|no_dups|apply lem; auto|reflexivity|].

#[local] Ltac simple n := leaf n; [first [reflexivity|solve [auto]]|first [exact (f64_eqb_finite _ _ _ _)|solve [auto]]|].

Lemma de_strings_ok l : de_list de_str (ser_list String l) = Some l.
Proof. by apply mapM_ser. Qed.

Record mqtt_typed (m : MqttConfig) : Prop := {
  battery_fits : fits_in 64 (battery_update m);
  preview_fits : fits_in 64 (preview_update m);
  floodlight_fits : fits_in 64 (floodlight_update m)
}.

Lemma de_mqtt_stripped m : mqtt_typed m ->
  de_MqttConfig (Table (strip_table (table_of (to_fields_MqttConfig m)) (table_of (to_fields_MqttConfig MqttConfig_default)))) = Some m.
Proof.
  intros [H1 H2 H3]. unfold de_MqttConfig, of_table. rewrite strip_known by (vm_compute; reflexivity).
  simple 0%nat. simple 1%nat. simple 2%nat. simple 3%nat. simple 4%nat. simple 5%nat. simple 6%nat. simple 7%nat. simple 8%nat.
  optional 9%nat. by destruct m.
Qed.

Lemma de_pause_stripped p :
  de_PauseConfig (Table (strip_table (table_of (to_fields_PauseConfig p)) (table_of (to_fields_PauseConfig PauseConfig_default)))) = Some p.
Proof.
  unfold de_PauseConfig, of_table. rewrite strip_known by (vm_compute; reflexivity).
  simple 0%nat. simple 1%nat. simple 2%nat. optional 3%nat. optional 4%nat. optional 5%nat. optional 6%nat. optional 7%nat.
  optional 8%nat. by destruct p.
Qed.

Lemma de_user_ok u : de_UserConfig (ser_UserConfig u) = Some u.
Proof.
  unfold de_UserConfig, ser_UserConfig, of_table. unstripped (to_fields_UserConfig u).
  rewrite strip_known by (vm_compute; reflexivity). required 0%nat. kept 1%nat. by destruct u.
Qed.

Lemma de_push_ok p : fits_in 16 (push_listener_port p) -> de_PushListenerConfig (ser_PushListenerConfig p) = Some p.
Proof.
  intros H. unfold de_PushListenerConfig, ser_PushListenerConfig, of_table. unstripped (to_fields_PushListenerConfig p).
  rewrite strip_known by (vm_compute; reflexivity). kept 0%nat. optional 1%nat. kept 2%nat; [auto|]. kept 3%nat. by destruct p.
Qed.

Record wake_typed (w : WakeServerConfig) : Prop := {
  middleman_fits : fits_in 16 (cfg_middleman_port w);
  register_fits : fits_in 16 (cfg_register_port w);
  heartbeat_fits : fits_in 32 (cfg_heartbeat_ms w);
  stale_fits : fits_in 64 (cfg_stale_after_ms w)
}.

(** The bind address is not written. *)
Definition unbound (w : WakeServerConfig) : WakeServerConfig :=
  MkWakeServerConfig (cfg_enable w) (cfg_middleman_port w) (cfg_register_port w) (cfg_heartbeat_ms w) (cfg_stale_after_ms w) None.

Lemma de_wake_ok w : wake_typed w -> de_WakeServerConfig (ser_WakeServerConfig w) = Some (unbound w).
Proof.
  intros [H1 H2 H3 H4]. unfold de_WakeServerConfig, ser_WakeServerConfig, of_table. unstripped (to_fields_WakeServerConfig w).
  rewrite strip_known by (vm_compute; reflexivity).
  kept 0%nat. kept 1%nat; [auto|]. kept 2%nat; [auto|]. kept 3%nat; [auto|]. kept 4%nat; [auto|]. done.
Qed.

Record camera_typed (c : CameraConfig) : Prop := {
  channel_fits : fits_in 8 (channel_id c);
  mqtt_fits : mqtt_typed (cam_mqtt c);
  buffer_fits n : buffer_duration c = Some n -> fits_in 64 n;
  retries_fits n : max_discovery_retries c = Some n -> fits_in 64 n
}.

(** The fields of a camera that are not written. *)
Definition without_cloud (c : CameraConfig) : CameraConfig := with_tokens None None (with_account None None c).

Lemma de_camera_stripped c : camera_typed c -> cam_name c <> [] -> username c <> [] ->
  de_CameraConfig (strip_defaults (ser_CameraConfig c) (ser_CameraConfig CameraConfig_default)) = Some (without_cloud c).
Proof.
  intros [H1 H2 H3 H4] Hn Hu. unfold ser_CameraConfig. rewrite strip_defaults_table. unfold de_CameraConfig, of_table.
  rewrite strip_known by (vm_compute; reflexivity).
  assert (forall s, s <> [] -> (v' ← Some (String s); stripped v' (Some (String []))) = Some (String s)) as Hne by (by intros []).
  required 0%nat; [exact (Hne _ Hn)|]. optional 1%nat. optional 2%nat. required 3%nat; [exact (Hne _ Hu)|].
  optional 4%nat. simple 5%nat. variant 6%nat de_stream_ok. variant 7%nat de_discovery_method_ok.
  variant 8%nat de_max_encryption_ok.
  simple 9%nat. optional 10%nat. simple 11%nat. simple 12%nat.
  nested 13%nat de_mqtt_stripped. nested 14%nat de_pause_stripped. leaf 15%nat; [apply de_strings_ok|apply eqb_list_nil|].
  optional 16%nat. optional 17%nat. optional 18%nat. optional 19%nat; [auto|]. optional 20%nat. optional 21%nat.
  optional 22%nat; [auto|]. optional 23%nat. optional 24%nat. done.
Qed.

(** ** Placement of what is written *)

Fixpoint clean (v : Value) : bool :=
  match v with
  | Array a => forallb clean a
  | Table t => forallb (fun kv => negb (is_top_level_key (fst kv)) && clean (snd kv)) t
  | _ => true
  end.

Lemma clean_walk v : clean v = true -> forall path, walk_for_misplaced path v = [].
Proof.
  assert (forall a, Forall (fun v => clean v = true -> forall path, walk_for_misplaced path v = []) a ->
    forallb clean a = true -> forall (f : Z -> str) i,
    (fix items (i : Z) (arr : list Value) : list (str * str) :=
       match arr with
       | [] => []
       | item :: arr => (if is_table item then walk_for_misplaced (f i) item else []) ++ items (i + 1) arr
       end) i a = []) as Hitems.
  { induction 1 as [|x a Hv _ IH]; [done|]. cbn [forallb]. intros [H1 H2]%andb_true_iff f i.
    rewrite (Hv H1), (IH H2). by destruct (is_table x). }
  induction v as [| | | | |a IH|t IH] using value_ind; intros Hc path; [done..| |]; cbn [clean] in Hc.
  - exact (Hitems a IH Hc (fun i => path ++ [91] ++ show_uint i ++ [93]) 0).
  - cbn [walk_for_misplaced]. induction IH as [|[k v] t Hv _ IH]; [done|]. cbn [forallb fst snd] in Hc, Hv.
    apply andb_true_iff in Hc as [[Hk Hc]%andb_true_iff Ht]. rewrite (IH Ht), app_nil_r. apply negb_true_iff in Hk.
    rewrite Hk. destruct v as [| | | | |a|u]; try done; [|by apply Hv].
    exact (Hv Hc (path ++ [46] ++ k)).
Qed.

Lemma strip_clean v d : clean v = true -> clean (strip_defaults v d) = true.
Proof.
  revert d. induction v as [| | | | |a IH|t IH] using value_ind; intros e Hc; try (destruct e; done).
  destruct e as [| | | | | |u]; [done..|]. rewrite strip_defaults_table. cbn [clean] in *.
  induction IH as [|[k v] t Hv _ IH]; [done|]. cbn [forallb fst snd] in Hc, Hv.
  apply andb_true_iff in Hc as [[Hk Hc]%andb_true_iff Ht]. rewrite strip_table_cons.
  assert (forall n, stripped v (t_get k u) = Some n -> clean n = true) as H.
  { intros n. unfold stripped. destruct (t_get k u) as [dv|]; [|by intros [= <-]].
    destruct (value_eqb v dv); [done|]. destruct (is_table v); [|by intros [= <-]].
    pose proof (Hv dv Hc). destruct (strip_defaults v dv) as [| | | | | |[|]]; intros [= <-]; done. }
  destruct (stripped v (t_get k u)) as [n|]; [|by apply IH]. cbn [forallb fst snd]. by rewrite Hk, (H n), (IH Ht).
Qed.

Definition clean_field (f : str * option Value) : Prop :=
  is_top_level_key (fst f) = false /\ forall v, snd f = Some v -> clean v = true.

Lemma clean_insert k v t : is_top_level_key k = false -> clean v = true -> clean (Table t) = true ->
  clean (Table (t_insert k v t)) = true.
Proof.
  intros Hk Hv. cbn [clean]. induction t as [|[l w] t IH]; cbn [t_insert forallb fst snd]; intros Ht; [by rewrite Hk, Hv|].
  case_bool_decide; [|destruct (str_ltb k l)]; cbn [forallb fst snd]; [by apply andb_true_iff in Ht as [_ ->]; rewrite Hk, Hv|by rewrite Hk, Hv|].
  apply andb_true_iff in Ht as [-> Ht]. by apply IH.
Qed.

Lemma clean_table_of fs : Forall clean_field fs -> clean (Table (table_of fs)) = true.
Proof.
  induction 1 as [|[k [v|]] fs [Hk Hv] _ IH]; [done| |exact IH]. cbn [table_of foldr fst snd] in *. fold (table_of fs).
  apply clean_insert; auto.
Qed.

Lemma clean_list {A} (ser : A -> Value) l : (forall a, clean (ser a) = true) -> clean (ser_list ser l) = true.
Proof. intros H. cbn. induction l as [|a l IH]; [done|]. cbn. by rewrite H. Qed.

#[local] Hint Resolve clean_list : core.

(** Every field of a struct, by its value's lemma. *)
#[local] Ltac clean_fields :=
  apply clean_table_of;
  repeat (apply List.Forall_cons; [split; [vm_compute; reflexivity|]|]); try apply List.Forall_nil;
  intros v; cbn [snd]; try (intros [= <-]; auto; fail);
  match goal with |- (?f <$> ?o) = Some v -> _ => destruct o; [intros [= <-]; auto|discriminate] end.

Lemma clean_discovery d : clean (ser_MqttDiscoveryConfig d) = true.
Proof. clean_fields. Qed.

#[local] Hint Resolve clean_discovery : core.

Lemma clean_mqtt m : clean (ser_MqttConfig m) = true.
Proof. clean_fields. Qed.

Lemma clean_mqtt_server m : clean (ser_MqttServerConfig m) = true.
Proof. clean_fields. Qed.

Lemma clean_pause p : clean (ser_PauseConfig p) = true.
Proof. clean_fields. Qed.

Lemma clean_user u : clean (ser_UserConfig u) = true.
Proof. clean_fields. Qed.

Lemma clean_push p : clean (ser_PushListenerConfig p) = true.
Proof. clean_fields. Qed.

Lemma clean_wake w : clean (ser_WakeServerConfig w) = true.
Proof. clean_fields. Qed.

#[local] Hint Resolve clean_mqtt clean_mqtt_server clean_pause clean_user clean_push clean_wake : core.

Lemma clean_camera c : clean (ser_CameraConfig c) = true.
Proof. clean_fields. Qed.

#[local] Hint Resolve clean_camera : core.

Lemma clean_root c k v : In (k, v) (table_of (to_fields_Config c)) -> clean v = true.
Proof.
  assert (Forall (fun f => forall v, snd f = Some v -> clean v = true) (to_fields_Config c)) as H.
  { repeat (apply List.Forall_cons; [|]); try apply List.Forall_nil; intros w; cbn [snd]; try (intros [= <-]; auto; fail);
      match goal with |- (?f <$> ?o) = Some w -> _ => destruct o; [intros [= <-]; auto|discriminate] end. }
  generalize dependent (to_fields_Config c). intros fs H. induction H as [|[j [w|]] fs Hw _ IH]; cbn [table_of foldr fst snd]; [done| |exact IH].
  fold (table_of fs). intros Hin. assert (forall t, In (k, v) (t_insert j w t) -> (k, v) = (j, w) \/ In (k, v) t) as Hi.
  { clear. induction t as [|[l x] t IH]; cbn [t_insert]; [intros [->|[]]; auto|].
    case_bool_decide; [intros [->|Hx]; cbn; auto|]. destruct (str_ltb j l); intros [->|H']; cbn; auto.
    apply IH in H' as [->|H']; auto. }
  apply Hi in Hin as [[= -> ->]|Hin]; auto.
Qed.

(** ** The configuration as a whole *)

Record config_typed (c : Config) : Prop := {
  port_fits : fits_in 16 (bind_port c);
  tls_port_fits p : tls_bind_port c = Some p -> fits_in 16 p;
  mqtt_port_fits m : mqtt c = Some m -> fits_in 16 (mqtt_port m);
  wake_fits w : wake_server c = Some w -> wake_typed w /\ cfg_bind w = None;
  push_fits p : push_listener c = Some p -> fits_in 16 (push_listener_port p);
  grace_fits64 : fits_in 64 (stream_prune_grace_secs c);
  cameras_typed : Forall camera_typed (cameras c)
}.

Definition CAMERAS : str := lit "cameras".

Definition stripped_root (c : Config) : table :=
  strip_table (table_of (to_fields_Config c)) (table_of (to_fields_Config Config_default)).

Definition stripped_cameras (c : Config) : Value :=
  Array (map (fun cam => strip_defaults cam (ser_CameraConfig CameraConfig_default)) (map ser_CameraConfig (cameras c))).

Lemma root_cameras c : t_get CAMERAS (stripped_root c) =
  if is_nil (cameras c) then None else Some (ser_list ser_CameraConfig (cameras c)).
Proof.
  unfold stripped_root. rewrite strip_field by no_dups.
  rewrite (field_of_nth 14 (to_fields_Config c) CAMERAS (Some (ser_list ser_CameraConfig (cameras c)))); [|no_dups|reflexivity].
  cbn [mbind option_bind]. change (t_get CAMERAS (table_of (to_fields_Config Config_default))) with (Some (Array [])).
  by destruct (cameras c).
Qed.

Lemma minimized_none c : cameras c = [] -> minimized c = Table (stripped_root c).
Proof.
  intros E. unfold minimized, ser_Config. rewrite strip_defaults_table. fold (stripped_root c).
  change (lit "cameras") with CAMERAS. by rewrite root_cameras, E.
Qed.

Lemma minimized_some c : cameras c <> [] -> minimized c = Table (t_insert CAMERAS (stripped_cameras c) (stripped_root c)).
Proof.
  intros E. unfold minimized, ser_Config. rewrite strip_defaults_table. fold (stripped_root c).
  change (lit "cameras") with CAMERAS. rewrite root_cameras.
  by rewrite (proj2 (is_nil_false _) E).
Qed.

Lemma entry_insert names k v t : existsb (fun n => bool_decide (n = k)) names = false ->
  entry names (t_insert k v t) = entry names t.
Proof.
  intros H. unfold entry. assert (omap (fun n => t_get n (t_insert k v t)) names = omap (fun n => t_get n t) names) as ->; [|done].
  induction names as [|n names IH]; [done|]. cbn [existsb omap list_omap] in *. apply orb_false_iff in H as [Hn H].
  rewrite t_get_insert, Hn, (IH H). done.
Qed.

Lemma known_insert names k v t : existsb (fun n => bool_decide (n = k)) names = true -> known names t = true ->
  known names (t_insert k v t) = true.
Proof.
  intros Hk. induction t as [|[l w] t IH]; cbn [t_insert known forallb fst]; intros Ht; [by rewrite Hk|].
  apply andb_true_iff in Ht as [Hl Ht]. case_bool_decide; [|destruct (str_ltb k l)]; cbn [known forallb fst].
  - by rewrite Hk, Ht.
  - by rewrite Hk, Hl, Ht.
  - rewrite Hl. by apply IH.
Qed.

(** What the reader makes of a document with the fields of [c] and other
    cameras. *)
Lemma de_root c t : config_typed c ->
  (exists v, t = t_insert CAMERAS v (stripped_root c)) \/ t = stripped_root c ->
  de_Config (Table t) =
    cs ← required [CAMERAS] (de_list de_CameraConfig) t; Some (with_cameras c cs).
Proof.
  intros H Ht. unfold de_Config, of_table.
  assert (forall v, existsb (fun n => bool_decide (n = CAMERAS)) v = false -> entry v t = entry v (stripped_root c)) as He.
  { intros v Hv. destruct Ht as [[x ->]| ->]; [by apply entry_insert|done]. }
  assert (forall names, existsb (fun n => bool_decide (n = CAMERAS)) names = true ->
    known names (stripped_root c) = true -> known names t = true) as Hkn.
  { intros names Hn Hk. destruct Ht as [[x ->]| ->]; [by apply known_insert|done]. }
  rewrite Hkn; [|vm_compute; reflexivity|apply strip_known; vm_compute; reflexivity].
  assert (forall {A} names (d : A) de, existsb (fun n => bool_decide (n = CAMERAS)) names = false ->
    defaulted names d de t = defaulted names d de (stripped_root c)) as Hd by (intros; unfold defaulted; by rewrite He).
  rewrite !Hd by (vm_compute; reflexivity). unfold stripped_root.
  destruct H as [H1 H2 H3 H4 H5 H6 _].
  assert (forall w, wake_server c = Some w -> de_WakeServerConfig (ser_WakeServerConfig w) = Some w) as Hw.
  { intros w E. destruct (H4 w E) as [Hw Hb]. rewrite (de_wake_ok w Hw). unfold unbound. rewrite <- Hb. by destruct w. }
  simple 0%nat. simple 1%nat. optional 2%nat. variant 3%nat de_tls_client_auth_ok. optional 4%nat; [auto|]. optional 5%nat.
  leaf 6%nat; [apply mapM_ser; intros; apply de_user_ok|apply eqb_list_nil|].
  optional 7%nat; [intros; apply de_mqtt_server_ok; auto|]. optional 8%nat; [exact Hw|].
  optional 9%nat; [intros; apply de_push_ok; auto|]. optional 10%nat. simple 11%nat. optional 12%nat. optional 13%nat.
  reflexivity.
Qed.

Lemma required_none {A} k (de : Value -> option A) t : t_get k t = None -> required [k] de t = None.
Proof. intros E. unfold required, entry. cbn [omap list_omap]. by rewrite E. Qed.

Lemma required_inserted {A} k v (de : Value -> option A) t : required [k] de (t_insert k v t) = de v.
Proof. unfold required, entry. cbn [omap list_omap]. by rewrite t_get_insert, bool_decide_eq_true_2. Qed.

(** A camera without a user name loses the field the reader requires. *)
Lemma de_camera_anonymous c : cam_name c <> [] -> username c = [] ->
  de_CameraConfig (strip_defaults (ser_CameraConfig c) (ser_CameraConfig CameraConfig_default)) = None.
Proof.
  intros Hn Hu. unfold ser_CameraConfig. rewrite strip_defaults_table. unfold de_CameraConfig, of_table.
  rewrite strip_known by (vm_compute; reflexivity).
  assert (forall s, s <> [] -> (v' ← Some (String s); stripped v' (Some (String []))) = Some (String s)) as Hne by (by intros []).
  required 0%nat; [exact (Hne _ Hn)|]. optional 1%nat. optional 2%nat.
  rewrite required_none; [done|]. rewrite strip_field by no_dups.
  rewrite (field_of_nth 3 (to_fields_CameraConfig c) (lit "username") (Some (String (username c)))); [|no_dups|reflexivity].
  rewrite Hu. reflexivity.
Qed.

Definition unreadable (c : Config) : bool := is_nil (cameras c) || existsb (fun cam => is_nil (username cam)) (cameras c).

Lemma de_cameras l : Forall camera_typed l -> Forall (fun cam => cam_name cam <> []) l ->
  mapM de_CameraConfig (map (fun cam => strip_defaults cam (ser_CameraConfig CameraConfig_default)) (map ser_CameraConfig l)) =
  if existsb (fun cam => is_nil (username cam)) l then None else Some (map without_cloud l).
Proof.
  intros Ht Hn. induction l as [|cam l IH]; [done|]. apply Forall_cons_iff in Ht as [Ht1 Ht], Hn as [Hn1 Hn].
  cbn [map mapM existsb]. destruct (is_nil (username cam)) eqn:Eu.
  - rewrite de_camera_anonymous; [done..|]. by destruct (username cam).
  - rewrite de_camera_stripped by (auto; by apply is_nil_false). cbn [mbind option_bind orb].
    rewrite (IH Ht Hn). by destruct (existsb _ l).
Qed.

Lemma de_minimized c : config_typed c -> Forall (fun cam => cam_name cam <> []) (cameras c) ->
  de_Config (minimized c) = if unreadable c then None else Some (with_cameras c (map without_cloud (cameras c))).
Proof.
  intros Ht Hn. unfold unreadable. destruct (is_nil (cameras c)) eqn:E.
  - destruct (cameras c) eqn:Ec; [|done]. rewrite minimized_none by done. rewrite (de_root c) by auto.
    rewrite required_none; [done|]. by rewrite root_cameras, Ec.
  - apply is_nil_false in E. rewrite minimized_some, (de_root c) by eauto. rewrite required_inserted. cbn [orb].
    unfold stripped_cameras. cbn [de_list]. rewrite de_cameras by (done || apply (cameras_typed c Ht)).
    by destruct (existsb _ (cameras c)).
Qed.

(** None of what is written is misplaced. *)
Lemma strip_root_clean c k v : In (k, v) (stripped_root c) -> clean v = true.
Proof.
  unfold stripped_root. pose proof (clean_root c) as H. revert H. generalize (table_of (to_fields_Config c)). intros t H.
  induction t as [|[l w] t IH]; [done|]. rewrite strip_table_cons. assert (forall k v, In (k, v) t -> clean v = true) as Ht.
  { intros k' v' Hin. apply (H k'). by right. }
  destruct (stripped w _) as [n|] eqn:Es; [|auto]. intros [[= -> ->]|Hin]; [|auto].
  pose proof (H k w (or_introl eq_refl)) as Hw. unfold stripped in Es.
  destruct (t_get k _) as [dv|]; [|by injection Es as <-]. destruct (value_eqb w dv); [done|].
  destruct (is_table w); [|by injection Es as <-]. pose proof (strip_clean w dv Hw).
  destruct (strip_defaults w dv) as [| | | | | |[|]]; simplify_eq; done.
Qed.

Lemma minimized_placed c : validate_top_level_key_placement (minimized c) = Ok tt.
Proof.
  assert (forall t, (forall k v, In (k, v) t -> clean v = true) -> validate_top_level_key_placement (Table t) = Ok tt) as H.
  { intros t Ht. cbn. unfold misplaced. assert (map (fun kv => walk_for_misplaced (fst kv) (snd kv)) t = map (fun _ => []) t) as ->.
    { apply map_ext_in. intros [k v] Hin. apply clean_walk. eauto. }
    induction t as [|kv t IH]; [done|]. cbn. apply IH. intros k v Hin. apply (Ht k). by right. }
  destruct (decide (cameras c = [])) as [E|E]; [rewrite minimized_none by done|rewrite minimized_some by done]; apply H; intros k v Hin.
  - by apply strip_root_clean in Hin.
  - assert (clean (stripped_cameras c) = true) as Hc.
    { unfold stripped_cameras. cbn [clean]. apply forallb_forall. intros x Hx. rewrite map_map in Hx.
      apply in_map_iff in Hx as (cam & <- & _). apply strip_clean, clean_camera. }
    assert (forall t, In (k, v) (t_insert CAMERAS (stripped_cameras c) t) -> v = stripped_cameras c \/ In (k, v) t) as Hi.
    { clear. generalize CAMERAS (stripped_cameras c). intros j w. induction t as [|[l x] t IH]; cbn [t_insert].
      - intros [[= <- <-]|[]]; auto.
      - case_bool_decide; [intros [[= <- <-]|Hx]; cbn; auto|]. destruct (str_ltb j l).
        + intros [[= <- <-]|Hx]; auto.
        + intros [[= <- <-]|Hx]; [cbn; auto|]. apply IH in Hx as [->|Hx]; cbn; auto. }
    apply Hi in Hin as [->|Hin]; [done|by apply strip_root_clean in Hin].
Qed.

(** ** Every field within its type *)

Lemma entry_get names (t : table) v : entry names t = Some (Some v) -> exists n, In n names /\ t_get n t = Some v.
Proof.
  unfold entry. destruct (omap (fun n => t_get n t) names) as [|w [|]] eqn:E; intros [= ->].
  assert (v ∈ omap (fun n => t_get n t) names) as H by (rewrite E; by left).
  apply list_elem_of_omap in H as (n & Hn & Hv). exists n. by rewrite <- list_elem_of_In.
Qed.

(** A field read as [a] has what its reader's values and its default have. *)
Lemma defaulted_has {A} (P : A -> Prop) names d (de : Value -> option A) t a :
  defaulted names d de t = Some a -> P d -> (forall v b, de v = Some b -> P b) -> P a.
Proof.
  unfold defaulted. intros H Hd Hv. apply bind_Some in H as ([v|] & _ & H); [eauto|by injection H as <-].
Qed.

Lemma required_has {A} (P : A -> Prop) names (de : Value -> option A) t a :
  required names de t = Some a -> (forall v b, de v = Some b -> P b) -> P a.
Proof. unfold required. intros H Hv. apply bind_Some in H as (e & _ & H). apply bind_Some in H as (v & _ & H). eauto. Qed.

Definition opt_has {A} (P : A -> Prop) (o : option A) : Prop := forall a, o = Some a -> P a.

Lemma de_option_has {A} (P : A -> Prop) de v o : de_option de v = Some o -> (forall w b, de w = Some b -> P b) -> opt_has P o.
Proof. unfold de_option. destruct (de v) as [b|] eqn:E; [|done]. intros [= <-] H a [= <-]. eauto. Qed.

Lemma de_uint_fits w v i : de_uint w v = Some i -> fits_in w i.
Proof. destruct v; try done. cbn. case_match eqn:E; [|done]. intros [= <-]. apply andb_true_iff in E as [?%Z.leb_le ?%Z.ltb_lt]. done. Qed.

Lemma de_list_has {A} (P : A -> Prop) de v l : de_list de v = Some l -> (forall w b, de w = Some b -> P b) -> Forall P l.
Proof.
  destruct v as [| | | | |a|]; try done. cbn. intros H Hde. apply mapM_Some in H.
  induction H as [|? ? ? ? Hx _ IH]; constructor; eauto.
Qed.

#[local] Hint Resolve de_uint_fits : core.

#[local] Ltac in_type H := eapply (defaulted_has _ _ _ _ _ _ H); [by vm_compute|exact (de_uint_fits _)].
#[local] Ltac opt_in_type H lem :=
  match type of lem with forall v b, _ = Some b -> @?P b =>
    apply (defaulted_has (opt_has P) _ _ _ _ _ H); [by intros ? [=]|];
    intros ? ? Ho; apply (de_option_has P _ _ _ Ho); exact lem
  end.

(** The binds of a reader, inverted. *)
#[local] Ltac reads H :=
  match type of H with
  | (_ ≫= _) = Some _ => let x := fresh "x" in let E := fresh "E" in apply bind_Some in H as (x & E & H); reads H
  | Some _ = Some _ => injection H as <-
  end.

#[local] Ltac open_table H :=
  unfold of_table in H; match type of H with match ?v with _ => _ end = _ => destruct v as [| | | | | |?t]; try discriminate H end;
  match type of H with (if ?b then _ else _) = _ => destruct b; [|discriminate H] end; reads H.

Lemma de_mqtt_server_typed v m : de_MqttServerConfig v = Some m -> fits_in 16 (mqtt_port m).
Proof. unfold de_MqttServerConfig. intros H. open_table H. cbn. in_type E0. Qed.

Lemma de_push_typed v p : de_PushListenerConfig v = Some p -> fits_in 16 (push_listener_port p).
Proof. unfold de_PushListenerConfig. intros H. open_table H. cbn. in_type E1. Qed.

Lemma de_wake_typed v w : de_WakeServerConfig v = Some w -> wake_typed w /\ cfg_bind w = None.
Proof. unfold de_WakeServerConfig. intros H. open_table H. split; [|done]. constructor; cbn; [in_type E0|in_type E1|in_type E2|in_type E3]. Qed.

Lemma mqtt_default_typed : mqtt_typed MqttConfig_default.
Proof. by vm_compute. Qed.

Lemma de_mqtt_typed v m : de_MqttConfig v = Some m -> mqtt_typed m.
Proof. unfold de_MqttConfig. intros H. open_table H. constructor; cbn; [in_type E2|in_type E4|in_type E6]. Qed.

Lemma de_camera_typed v c : de_CameraConfig v = Some c -> camera_typed c.
Proof.
  unfold de_CameraConfig. intros H. open_table H. constructor; cbn.
  - in_type E4.
  - eapply (defaulted_has _ _ _ _ _ _ E12); [exact mqtt_default_typed|exact de_mqtt_typed].
  - opt_in_type E18 (de_uint_fits 64).
  - opt_in_type E21 (de_uint_fits 64).
Qed.

Lemma de_config_typed v c : de_Config v = Some c -> config_typed c.
Proof.
  unfold de_Config. intros H. open_table H. constructor; cbn.
  - in_type E0.
  - opt_in_type E3 (de_uint_fits 16).
  - opt_in_type E6 de_mqtt_server_typed.
  - opt_in_type E7 de_wake_typed.
  - opt_in_type E8 de_push_typed.
  - in_type E10.
  - eapply (required_has (Forall camera_typed) _ _ _ _ E13). intros ? ? Ho. apply (de_list_has _ _ _ _ Ho). exact de_camera_typed.
Qed.

(** ** The add-on's configuration *)

Definition no_cloud (c : CameraConfig) : Prop :=
  cam_cloud_account c = None /\ cam_cloud_password c = None /\ cloud_mfa_trust_token c = None /\ cloud_refresh_token c = None.

Lemma without_cloud_id c : no_cloud c -> without_cloud c = c.
Proof. destruct c. unfold no_cloud. cbn. by intros (-> & -> & -> & ->). Qed.

Lemma de_camera_no_cloud v c : de_CameraConfig v = Some c -> no_cloud c.
Proof.
  unfold de_CameraConfig, of_table. destruct v as [| | | | | |t]; try discriminate. destruct (known _ t); [|discriminate].
  intros H. repeat (apply bind_Some in H as (? & _ & H)). injection H as <-. done.
Qed.

Lemma de_config_no_cloud v c : de_Config v = Some c -> Forall no_cloud (cameras c).
Proof.
  unfold de_Config, of_table. destruct v as [| | | | | |t]; try discriminate. destruct (known _ t); [|discriminate].
  intros H. repeat (apply bind_Some in H as (? & ? & H)). injection H as <-. cbn [cameras].
  match goal with H : required _ (de_list de_CameraConfig) t = Some ?l |- _ => rename H into Hl; rename l into cams end.
  unfold required in Hl. apply bind_Some in Hl as (e & _ & Hl). apply bind_Some in Hl as (w & _ & Hl).
  destruct w as [| | | | |a|]; try discriminate. cbn [de_list] in Hl. apply mapM_Some in Hl.
  induction Hl as [|? ? ? ? Hc _ IH]; constructor; [by apply de_camera_no_cloud in Hc|exact IH].
Qed.

Lemma merge_into_forall (P : CameraConfig -> Prop) out over :
  (forall b, P b -> P over -> P (merge_camera b over)) -> Forall P out -> P over -> Forall P (merge_into out over).
Proof.
  intros Hm Ho Hover. induction Ho as [|b out Hb Ho IH]; cbn [merge_into]; [by repeat constructor|].
  case_bool_decide; constructor; auto.
Qed.

Lemma merge_cameras_forall (P : CameraConfig -> Prop) base overlay :
  (forall b o, P b -> P o -> P (merge_camera b o)) -> Forall P base -> Forall P overlay -> Forall P (merge_cameras base overlay).
Proof.
  intros Hm Hb Ho. unfold merge_cameras. revert base Hb. induction Ho as [|o overlay Ho _ IH]; intros base Hb; [done|].
  cbn [fold_left]. apply IH. by apply merge_into_forall; auto.
Qed.

Lemma by_default_has {A} `{EqDecision A} (P : A -> Prop) d b o : P b -> P o -> P (by_default d b o).
Proof. unfold by_default. by case_bool_decide. Qed.

Lemma by_option_has {A} (P : A -> Prop) b o : opt_has P b -> opt_has P o -> opt_has P (by_option b o).
Proof. by destruct o. Qed.

Lemma merge_camera_typed b o : camera_typed b -> camera_typed o -> camera_typed (merge_camera b o).
Proof.
  intros [H1 H2 H3 H4] [H1' H2' H3' H4']. constructor; cbn [merge_camera channel_id cam_mqtt buffer_duration max_discovery_retries].
  - by apply by_default_has.
  - by apply by_default_has.
  - by apply (by_option_has (fits_in 64)).
  - by apply (by_option_has (fits_in 64)).
Qed.

Lemma merge_typed b o : config_typed b -> config_typed o -> config_typed (merge b o).
Proof.
  intros [H1 H2 H3 H4 H5 H6 H7] [H1' H2' H3' H4' H5' H6' H7']. constructor; cbn [merge merge_top_level with_cameras bind_port tls_bind_port mqtt wake_server push_listener stream_prune_grace_secs cameras].
  - by apply by_default_has.
  - by apply (by_option_has (fits_in 16)).
  - intros m. unfold merge_mqtt. destruct (mqtt b) as [mb|], (mqtt o) as [mo|]; intros [= <-]; auto.
    cbn [mqtt_port]. apply by_default_has; auto.
  - by apply (by_option_has (fun w => wake_typed w /\ cfg_bind w = None)).
  - by apply (by_option_has (fun p => fits_in 16 (push_listener_port p))).
  - by apply by_default_has.
  - apply merge_cameras_forall; [exact merge_camera_typed|done|done].
Qed.

Lemma base_typed opts f : opt_has (fits_in 16) (flags_port f) -> config_typed (build_base_config opts f).
Proof.
  intros Hp. constructor; [by vm_compute|by intros ? [=]| |by intros ? [=]|by intros ? [=]|by vm_compute|].
  - intros m. cbn. unfold base_mqtt. destruct (flags_host f); intros [= <-]. cbn [mqtt_port].
    destruct (flags_port f) as [p|] eqn:E; [by apply Hp|by vm_compute].
  - cbn. apply Forall_map. induction (opt_cameras opts) as [|c l IH]; constructor; [|exact IH].
    constructor; [by vm_compute|exact mqtt_default_typed|by intros ? [=]|by intros ? [=]].
Qed.

Section text.
Context `{TL : TomlTextLaws}.

Lemma share_typed c : config_typed c -> config_typed (share_account c).
Proof.
  intros [H1 H2 H3 H4 H5 H6 H7]. constructor; auto. cbn [share_account with_cameras cameras]. apply Forall_map.
  eapply Forall_impl; [|exact H7]. intros x [? ? ? ?]. by constructor.
Qed.

Lemma effective_in_type opts overlay f cfg : opt_has (fits_in 16) (flags_port f) ->
  effective opts overlay f = Ok cfg -> config_typed cfg.
Proof.
  intros Hp. unfold effective. assert (opt_has (fits_in 16) (blank_port (flags_port f))) as Hb.
  { intros p. destruct (flags_port f) as [[|q|q]|] eqn:E; cbn [blank_port]; intros [= <-]; by apply Hp. }
  destruct overlay as [src|]; [|intros [= <-]; by apply base_typed].
  destruct (parse_overlay src) as [o|] eqn:Eo; [|discriminate]. intros [= <-]. apply merge_typed; [by apply base_typed|].
  unfold parse_overlay in Eo. apply bind_Some in Eo as (doc & _ & Eo). by apply de_config_typed in Eo.
Qed.

Lemma effective_no_cloud opts overlay f cfg : effective opts overlay f = Ok cfg ->
  cloud_account cfg = None /\ cloud_password cfg = None /\ Forall no_cloud (cameras cfg).
Proof.
  assert (forall l, Forall no_cloud (map base_camera l)) as Hb by (intros l; apply Forall_map; induction l; by constructor).
  unfold effective. destruct overlay as [src|].
  - destruct (parse_overlay src) as [o|] eqn:Eo; [|discriminate]. intros [= <-]. do 2 (split; [done|]).
    cbn [merge cameras with_cameras]. apply merge_cameras_forall; [by intros b o' Hb' _|apply Hb|].
    unfold parse_overlay in Eo. apply bind_Some in Eo as (doc & _ & Eo). by apply de_config_no_cloud in Eo.
  - intros [= <-]. do 2 (split; [done|]). apply Hb.
Qed.

Lemma share_nothing c : cloud_account c = None -> cloud_password c = None -> Forall no_cloud (cameras c) ->
  share_account (with_cameras c (map without_cloud (cameras c))) = c.
Proof.
  intros Ha Hp Hn. unfold share_account. cbn [cameras with_cameras cloud_account cloud_password]. rewrite Ha, Hp, map_map.
  assert (map (fun x => with_account None None (without_cloud x)) (cameras c) = cameras c) as ->; [|by destruct c].
  induction Hn as [|x l Hx _ IH]; [done|]. cbn [map]. rewrite IH, (without_cloud_id _ Hx). f_equal.
  destruct x. unfold no_cloud in Hx. cbn in *. by destruct Hx as (-> & -> & _).
Qed.

Lemma minimized_table c : exists t, minimized c = Table t.
Proof.
  destruct (decide (cameras c = [])) as [E|E]; [rewrite minimized_none by done|rewrite minimized_some by done]; eauto.
Qed.

(** C29: The file the add-on writes, if it writes one, is read back as exactly the
    configuration merged from options and overlay, defaults, aliases, placement
    check and account included, unless that has no camera or a camera without a
    user name: then the file does not parse. No camera of a file written is
    bound to a cloud account. *)
Theorem render_exact opts overlay f text :
  opt_has (fits_in 16) (flags_port f) -> run opts overlay f = Ok text ->
  exists cfg, effective opts overlay f = Ok cfg /\ WellFormed cfg
    /\ Forall (fun cam => discovery cam <> DiscCloud) (cameras cfg)
    /\ parse_config text = if unreadable cfg then Err BadConfig else Ok cfg.
Proof.
  intros Hf. unfold run. destruct (effective opts overlay f) as [cfg|] eqn:Ee; [|discriminate]. cbn [res_bind].
  destruct (validate_config cfg) as [[]|] eqn:Ev; [|discriminate]. destruct (writable cfg); [|discriminate]. intros [= <-].
  pose proof (effective_in_type _ _ _ _ Hf Ee) as Ht. apply validate_config_iff in Ev. apply effective_no_cloud in Ee as Hc. destruct Hc as (Ha & Hp & Hn).
  exists cfg. split; [done|]. split; [done|]. split.
  { pose proof (wf_cameras cfg Ev) as Hw. clear - Hw Hn. induction Hw as [|c l [_ Hok] _ IH]; constructor;
      apply Forall_cons_iff in Hn as [(E & _) Hn]; auto.
    intros Hd. destruct (cloud_ok c Hok Hd) as ([x Hx] & _). congruence. }
  unfold parse_config. destruct (minimized_table cfg) as [t Em].
  assert (toml_parse (toml_print (minimized cfg)) = Some (minimized cfg)) as -> by (rewrite Em; apply toml_print_parse).
  rewrite minimized_placed, de_minimized; [|done|].
  - destruct (unreadable cfg); [done|]. by rewrite share_nothing.
  - eapply Forall_impl; [|exact (wf_cameras cfg Ev)]. by intros c [[H _] _].
Qed.

End text.

Section witness.
#[local] Existing Instances Bits.toml Bits.toml_laws.

Definition sample_options : HassioOptions :=
  MkHassioOptions (lit "neolink") (lit "info")
    [MkHassioCamera (lit "porch") (Some (lit "10.0.0.5:9000")) (Some []) (lit "admin") (lit "pw") true].

Definition sample_flags : MqttServiceFlags := MkMqttServiceFlags None (Some 0) None (Some []) false.

(** An overlay that adds a camera and picks a stream for the first. *)
Definition sample_overlay : str :=
  toml_print (Table [(lit "cameras", Array
    [Table [(lit "name", String (lit "porch")); (lit "stream", String (lit "main"))];
     Table [(lit "address", String (lit "10.0.0.6")); (lit "name", String (lit "yard")); (lit "pass", String (lit "x"));
            (lit "username", String (lit "admin"))]])]).

Definition sample_text : str :=
  match run sample_options (Some sample_overlay) sample_flags with Ok t => t | Err _ => [] end.

Lemma render_exact_witness : exists cfg, parse_config sample_text = Ok cfg
  /\ map cam_name (cameras cfg) = [lit "porch"; lit "yard"] /\ map stream (cameras cfg) = [StreamMain; StreamAll].
Proof.
  destruct (render_exact sample_options (Some sample_overlay) sample_flags sample_text) as (cfg & E & _ & _ & H).
  - intros p [= <-]. by vm_compute.
  - vm_compute. reflexivity.
  - assert (cfg = match effective sample_options (Some sample_overlay) sample_flags with Ok c => c | Err _ => Config_default end) as Ec
      by (by rewrite E).
    assert (unreadable cfg = false) as Hu by (rewrite Ec; vm_compute; reflexivity).
    exists cfg. rewrite H, Hu. split; [done|]. rewrite Ec. split; vm_compute; reflexivity.
Defined.

End witness.

(** ** Merging by name *)

(** What the overlay's entries of a name do to the base's. *)
Definition overlaid (b : option CameraConfig) (o : CameraConfig) : option CameraConfig :=
  match b with None => Some o | Some b => Some (merge_camera b o) end.

Definition named (n : str) (c : CameraConfig) : bool := bool_decide (cam_name c = n).

Fixpoint new_names (seen : list str) (l : list CameraConfig) : list str :=
  match l with
  | [] => []
  | c :: l => if bool_decide (cam_name c ∈ seen) then new_names seen l else cam_name c :: new_names (seen ++ [cam_name c]) l
  end.

Lemma merge_into_names out o : map cam_name (merge_into out o) =
  if bool_decide (cam_name o ∈ map cam_name out) then map cam_name out else map cam_name out ++ [cam_name o].
Proof.
  induction out as [|b out IH]; [done|]. cbn [merge_into map]. destruct (decide (cam_name b = cam_name o)) as [E|E].
  - rewrite !bool_decide_eq_true_2; [done| |done]. rewrite E. by left.
  - rewrite bool_decide_eq_false_2 by done. cbn [map]. rewrite IH. destruct (decide (cam_name o ∈ map cam_name out)) as [H|H].
    + rewrite !bool_decide_eq_true_2; [done|by right|done].
    + rewrite !bool_decide_eq_false_2; [done| |done]. intros [Hb|?]%elem_of_cons; [by apply E|done].
Qed.

Lemma merge_into_find out o n : List.find (named n) (merge_into out o) =
  if named n o then overlaid (List.find (named n) out) o else List.find (named n) out.
Proof.
  induction out as [|b out IH]; cbn [merge_into List.find].
  - by destruct (named n o).
  - unfold named in *. destruct (decide (cam_name b = cam_name o)) as [E|E].
    + rewrite bool_decide_eq_true_2 by done. cbn [List.find]. change (cam_name (merge_camera b o)) with (cam_name b).
      rewrite E. by destruct (bool_decide (cam_name o = n)).
    + rewrite bool_decide_eq_false_2 by done. cbn [List.find]. rewrite IH. destruct (decide (cam_name b = n)) as [<-|Hn].
      * rewrite bool_decide_eq_true_2 by done. by rewrite bool_decide_eq_false_2 by congruence.
      * by rewrite (bool_decide_eq_false_2 (cam_name b = n)) by done.
Qed.

(** Merging cameras keeps the base's in their order, each
    overlaid in turn by the overlay's entries of its name, and appends the
    overlay's others in the order they first appear, likewise; so no name is
    doubled that the base has once, and merging with no overlay changes nothing. *)
Theorem merge_exact base overlay :
  map cam_name (merge_cameras base overlay) = map cam_name base ++ new_names (map cam_name base) overlay
  /\ (forall n, List.find (named n) (merge_cameras base overlay) =
        fold_left overlaid (List.filter (named n) overlay) (List.find (named n) base))
  /\ (NoDup (map cam_name base) -> NoDup (map cam_name (merge_cameras base overlay))).
Proof.
  assert (map cam_name (merge_cameras base overlay) = map cam_name base ++ new_names (map cam_name base) overlay) as Hn.
  { unfold merge_cameras. revert base. induction overlay as [|o overlay IH]; intros base; cbn [fold_left new_names].
    - by rewrite app_nil_r.
    - rewrite IH, merge_into_names. case_bool_decide; [done|]. by rewrite <- app_assoc. }
  split; [done|]. split.
  - intros n. clear Hn. unfold merge_cameras. revert base. induction overlay as [|o overlay IH]; intros base; [done|].
    cbn [fold_left List.filter]. rewrite IH, merge_into_find. by destruct (named n o).
  - intros Hb. rewrite Hn. clear Hn. revert Hb. generalize (map cam_name base) as seen. intros seen Hs. revert seen Hs.
    induction overlay as [|o overlay IH]; intros seen Hs; cbn [new_names]; [by rewrite app_nil_r|].
    case_bool_decide as E; [by apply IH|]. rewrite cons_middle, app_assoc. apply IH.
    apply list.NoDup_app. split; [done|]. split; [|apply NoDup_singleton]. intros x Hx ->%list_elem_of_singleton. done.
Qed.

Lemma merge_exact_witness :
  NoDup (map cam_name (merge_cameras [sample_camera (lit "porch") None] [sample_camera (lit "yard") None])).
Proof. apply merge_exact. apply NoDup_singleton. Defined.
