(* ===== verification/Provider.v ===== *)
(** * Cameras for the RTSP server ([src/camera_provider.rs, orchestrator.rs])

    The orchestrator keeps the enabled cameras under their names; the provider
    answers a subscription with the camera's access list, a wake lock, its stream
    source and the wait for its description. With the configuration's validation
    and the server's authentication this gives the access control of the program. *)

From S2P Require Import Prelude Text Nal StreamTranslate StreamSource XorCrypto RtspText Sdp RtspServer RtspConn MqttControl.
From S2P Require Import WakeServer Toml Config.

(** ** Wiring ([mqtt_loop.rs], [orchestrator.rs]) *)

Definition resolve_topic_prefix (config : Config) : str :=
  match mqtt config with Some m => topic_prefix m | None => lit "bairelay" end.

Definition build_rtsp_users (config : Config) : list Auth.UserCred :=
  map (fun u => Auth.MkUserCred (user_name u) (user_pass u)) (users config).

(** The broker's connection; the client certificate is not passed on. *)
Record BrokerConfig := MkBrokerConfig {
  broker : str; broker_port : Z; broker_credentials : option (str * str); broker_ca : option str;
  broker_client_auth : option (str * str)
}.

Definition build_broker_config (config : Config) : option BrokerConfig :=
  m ← mqtt config; Some (MkBrokerConfig (broker_addr m) (mqtt_port m) (credentials m) (mqtt_ca m) None).

(** The handles under their names: a later camera of a name replaces an
    earlier one. *)
Definition orchestrator_cameras (config : Config) : gmap str CameraConfig :=
  fold_left (fun m c => if enabled c then <[cam_name c := c]> m else m) (cameras config) ∅.

(** ** Subscribing ([camera_provider.rs]) *)

Definition SDP_READY_TIMEOUT : Z := Config.secs 15.

Definition classify_presence (p : AudioPresence) : bool * Z :=
  match p with
  | Present _ => (true, 0)
  | Absent => (false, 0)
  | Unknown => (false, Config.secs 2)
  end.

Abbreviation snapshot := (option VideoParams * option AudioParams)%type.

(** What the camera's side answers one subscription: the guard's identity,
    the source or why there is none, the presence when it is read, the polls of
    the first wait and of the bonus window, each from its start, and what the
    source holds at the end. *)
Record Answers := MkAnswers {
  a_guard : Z;
  a_source : option StreamError;
  a_presence : AudioPresence;
  a_start : Z;
  a_polls : list (Z * snapshot);
  a_bonus_start : Z;
  a_bonus_polls : list (Z * snapshot);
  a_params : SdpParams;
  a_waited : snapshot -> SdpParams
}.

Inductive provider_effect := Acquired (guard : Z) | Dropped (guard : Z).

(** The answer and what happens to the wake lock, or nothing while a wait has
    not ended. *)
Definition subscribe (cameras : gmap str CameraConfig) (a : Answers) (camera : str) (kind : Url.StreamKind)
    (authenticated_user : option str) : option (result SubscriptionHandle StreamError * list provider_effect) :=
  match cameras !! camera with
  | None => Some (Err UnknownCamera, [])
  | Some config =>
      let denied :=
        match authenticated_user with
        | Some user =>
            negb (is_nil (permitted_users config)) && negb (existsb (fun u => bool_decide (u = user)) (permitted_users config))
        | None => false
        end in
      if denied then Some (Err AccessDenied, [])
      else
        let fail e := Some (Err e, [Acquired (a_guard a); Dropped (a_guard a)]) in
        let grant p := Some (Ok (MkSubscription (a_guard a) p), [Acquired (a_guard a)]) in
        match a_source a with
        | Some e => fail e
        | None =>
            let '(wait_audio, bonus_window) := classify_presence (a_presence a) in
            if wait_audio then
              r ← await_sdp both_ready (a_start a) SDP_READY_TIMEOUT (a_polls a);
              match r with
              | Err _ => fail Unavailable
              | Ok p => grant (a_waited a p)
              end
            else
              r ← await_sdp video_ready (a_start a) SDP_READY_TIMEOUT (a_polls a);
              match r with
              | Err _ => fail Unavailable
              | Ok _ =>
                  if 0 <? bonus_window then
                    _ ← await_sdp audio_ready (a_bonus_start a) bonus_window (a_bonus_polls a);
                    grant (a_params a)
                  else grant (a_params a)
              end
        end
  end.

(** ** The cameras of an admitted configuration *)

Lemma orchestrator_lookup config name cam : NoDup (map cam_name (cameras config)) ->
  (orchestrator_cameras config !! name = Some cam <-> In cam (cameras config) /\ enabled cam = true /\ cam_name cam = name).
Proof.
  unfold orchestrator_cameras. intros Hn.
  assert (forall l (m : gmap str CameraConfig), NoDup (map cam_name l) -> (forall c, In c l -> m !! cam_name c = None) ->
    (fold_left (fun m c => if enabled c then <[cam_name c := c]> m else m) l m !! name = Some cam <->
     m !! name = Some cam \/ In cam l /\ enabled cam = true /\ cam_name cam = name)) as H.
  2:{ rewrite H by done. split; [|tauto]. by intros [?|?]. }
  clear Hn. induction l as [|c l IH]; intros m Hn Hm; cbn [fold_left In]; [tauto|].
  cbn [map] in Hn. apply list.NoDup_cons in Hn as [Hc Hn].
  assert (forall c', In c' l -> cam_name c' <> cam_name c) as Hne.
  { intros c' Hin E. apply Hc. rewrite <- E, list_elem_of_In. by apply in_map. }
  destruct (enabled c) eqn:Ee.
  - rewrite IH; [|done|].
    2:{ intros c' Hin. rewrite lookup_insert_ne by (intros E; by apply (Hne c')). apply Hm. by right. }
    destruct (decide (cam_name c = name)) as [<-|Hx].
    + rewrite lookup_insert_eq. split.
      * intros [[= ->]|(Hin & _ & E)]; [auto 6|by apply Hne in Hin].
      * intros [E|[[->|Hin] (He & E)]]; [rewrite Hm in E by (by left); done|auto|by apply Hne in Hin].
    + rewrite lookup_insert_ne by done. split; [|].
      * intros [?|(? & ? & ?)]; auto 6.
      * intros [?|[[->|Hin] (He & E)]]; auto. done.
  - rewrite IH; [|done|intros c' Hin; apply Hm; by right]. split.
    + intros [?|(? & ? & ?)]; auto 6.
    + intros [?|[[->|Hin] (He & E)]]; auto. congruence.
Qed.

(** ** Access control *)

Section access.
Context `{R : RtspTypes} `{M : Md5} `{B : Base64}.

(** Without users every subscription is asked for in nobody's name. *)
Lemma dispatch_open env st req h : RtspServer.users st = [] -> dispatch_request env st req = Ret h -> granted env None h.
Proof.
  intros Hu H. unfold dispatch_request in H. destruct (parse_request req) as [p|e].
  2:{ pose proof (granted_respond env None st BadRequest 0 [] None) as Hg.
      destruct (respond env st BadRequest 0 [] None) as [[effs ok] st']. by injection H as <-. }
  destruct (negb _); [injection H as <-; apply granted_respond|].
  assert (RtspServer.users (touch_session env st p) = []) as Hu' by (unfold touch_session; by destruct (session p)).
  generalize dependent (touch_session env st p). intros st1 H Hu1. destruct (method p).
  - injection H as <-. apply granted_respond.
  - unfold handle_describe in H. destruct (Url.resolve _) as [r|]; [|injection H as <-; apply granted_respond].
    unfold auth_gate in H. rewrite Hu1 in H.
    destruct (subscribe_with_extern_fallback _ _ _ _) as [sub|[]] eqn:E; injection H as <-; try apply granted_respond.
    eapply granted_subscribe; [exact E|done|apply granted_respond].
  - unfold handle_setup in H. destruct (setup_target _) as [base n].
    destruct (Url.resolve _) as [r|]; [|injection H as <-; apply granted_respond].
    unfold auth_gate in H. rewrite Hu1 in H. destruct (transport p) as [hd|]; [|injection H as <-; apply granted_respond].
    destruct (Transport.parse hd) as [[spec|e]|]; cbn [out_bind] in H;
      [|injection H as <-; apply granted_respond|discriminate H].
    destruct (build_transport _ _ _ _) as [[[t response]|status] st3]; injection H as <-;
      [apply granted_setup_track|apply granted_respond].
  - injection H as <-. unfold handle_play. destruct (session p); [|apply granted_respond].
    destruct (negb _); apply granted_respond.
  - injection H as <-. unfold handle_teardown. destruct (session p) as [sid|]; [|apply granted_respond].
    unfold registry_remove. destruct (sessions st1 !! sid) as [e|]; cbn [drop_entry].
    + unfold respond, write_response. destruct (write_ok env); intros g Hg; rewrite !subscribed_app in Hg;
        cbn in Hg; rewrite ?app_nil_r in Hg; done.
    + pose proof (granted_respond env None st1 SessionNotFound (cseq p) [] None) as Hg. unfold after.
      destruct (respond _ _ _ _ _ _) as [[? ?] ?]. intros g. rewrite subscribed_app. apply Hg.
  - injection H as <-. apply granted_respond.
  - injection H as <-. apply granted_respond.
Qed.

(** The server asks the provider over the orchestrator's cameras. *)
Definition serves (config : Config) (answers : str -> Url.StreamKind -> option str -> Answers) (env : Env) : Prop :=
  forall cam k user sub, RtspServer.subscribe env cam k user = Ok sub ->
    exists effs, subscribe (orchestrator_cameras config) (answers cam k user) cam k user = Some (Ok sub, effs).

Lemma subscribe_admits cams a cam k user sub effs : subscribe cams a cam k user = Some (Ok sub, effs) ->
  exists c, cams !! cam = Some c /\ match user with Some u => permitted_users c = [] \/ In u (permitted_users c) | None => True end.
Proof.
  unfold subscribe. destruct (cams !! cam) as [c|]; [|done]. intros H. exists c. split; [done|].
  destruct user as [u|]; [|done]. destruct (permitted_users c) as [|p l] eqn:E; [by left|]. right.
  cbn [is_nil negb andb] in H. rewrite <- E in H. destruct (existsb _ (permitted_users c)) eqn:Ex; [|done].
  apply existsb_exists in Ex as (x & Hx & Hd%bool_decide_eq_true). subst. by rewrite <- E.
Qed.

(** C30: With an admitted configuration, every subscription a request takes
    is to an enabled camera of the configuration; where users are configured the
    request proves one of them, and if the camera lists who may watch it he is on
    the list; where none are, no camera has such a list. *)
Theorem acl_enforced config answers env st req effs ok st' :
  validate_config config = Ok tt -> RtspServer.users st = build_rtsp_users config -> serves config answers env ->
  dispatch_request env st req = Ret (effs, ok, st') ->
  forall g, In g (subscribed effs) -> exists sub c,
    guard sub = g /\ In c (cameras config) /\ enabled c = true
    /\ match users config with
       | [] => permitted_users c = []
       | _ => exists p m user, parse_request req = Ok p /\ (m = Describe \/ m = Setup)
                /\ RtspConn.credentials env st p (as_str m) user /\ (permitted_users c = [] \/ In user (permitted_users c))
       end.
Proof.
  intros Hv%validate_config_iff Hu Hs H g Hg. pose proof (wf_camera_names config Hv) as Hnd.
  destruct (users config) as [|u l] eqn:Eu.
  - unfold build_rtsp_users in Hu. rewrite Eu in Hu. pose proof (dispatch_open env st req _ Hu H g Hg) as (cam & k & sub & Esub & <-).
    apply Hs in Esub as [es Esub]. apply subscribe_admits in Esub as (c & Hc & _).
    apply orchestrator_lookup in Hc as (Hin & He & _); [|done]. exists sub, c. do 3 (split; [done|]).
    pose proof (wf_permitted config Hv) as Hp. rewrite List.Forall_forall in Hp. specialize (Hp c Hin). rewrite Eu in Hp.
    destruct (permitted_users c) as [|x xs]; [done|]. by apply Forall_cons_iff in Hp as [[] _].
  - assert (RtspServer.users st <> []) as Hne by (rewrite Hu; unfold build_rtsp_users; by rewrite Eu).
    apply (dispatch_authenticated _ _ _ _ _ _ Hne) in H as [[Hq _]|(p & m & user & Hp & Hm & _ & Hcr & Hgr)].
    { by rewrite Hq in Hg. }
    destruct (Hgr g Hg) as (cam & k & sub & Esub & <-). apply Hs in Esub as [es Esub].
    apply subscribe_admits in Esub as (c & Hc & Hacl). apply orchestrator_lookup in Hc as (Hin & He & _); [|done].
    exists sub, c. do 3 (split; [done|]). by exists p, m, user.
Qed.

End access.

(** ** Names *)

Section names.
Context `{U : Unicode} `{F : DecimalF32} `{!UnicodeLaws U} `{!DecimalF32Laws F}.

Lemma subscribed_topic prefix n t : no_slash prefix -> name_ok n -> In t (subscribe_topics prefix n) ->
  exists rest, split 47 t = prefix :: n :: rest.
Proof.
  intros Hp Hn Hin. assert (exists rest, t = topic prefix n rest) as [rest ->].
  { cbn [subscribe_topics In] in Hin. repeat destruct Hin as [<-|Hin]; [..|done]; eexists; reflexivity. }
  eexists. by apply split_topic.
Qed.

Lemma path_trimmed n rest : name_ok n -> (Forall (fun c => c <> 47) rest \/ exists r, rest = 47 :: r /\ r <> [] /\ no_slash r) ->
  trim_end (Z.eqb 47) (trim_start (Z.eqb 47) (47 :: n ++ rest)) = n ++ rest.
Proof.
  intros Hn Hr. pose proof (name_no_slash _ Hn) as Hs. destruct Hn as [Hne _].
  assert (forall s, s <> [] -> no_slash s -> match s with [] => True | c :: _ => (47 =? c) = false end) as Hh.
  { intros [|c s] Hs' H; [done|]. inversion H; subst. apply Z.eqb_neq. lia. }
  assert (trim_start (Z.eqb 47) (47 :: n ++ rest) = n ++ rest) as ->.
  { unfold trim_start. cbn [drop_while]. rewrite Z.eqb_refl. apply drop_while_id.
    destruct n as [|c n]; [done|]. inversion Hs; subst. cbn [app]. apply Z.eqb_neq. lia. }
  unfold trim_end. rewrite drop_while_id; [by rewrite rev_involutive|].
  assert (forall s, no_slash s -> match rev s with [] => True | c :: _ => (47 =? c) = false end) as Hrev.
  { intros s Hs'. apply Forall_rev in Hs'. destruct (rev s) as [|c r]; [done|]. inversion Hs'; subst. apply Z.eqb_neq. lia. }
  rewrite rev_app_distr. destruct rest as [|x rest]; [by apply Hrev|].
  destruct Hr as [Hr|(r & [= -> ->] & Hrne & Hr)].
  - apply (Hrev (x :: rest)) in Hr. destruct (rev (x :: rest)) eqn:E; [|done].
    apply (f_equal (@length Z)) in E. by rewrite length_rev in E.
  - cbn [rev]. apply Hrev in Hr. destruct (rev r) as [|c l] eqn:E; [|done].
    apply (f_equal (@length Z)) in E. rewrite length_rev in E. by destruct r.
Qed.

(** C31: Every enabled camera of an admitted configuration is the one
    the provider finds under its name, is what the addresses [/name] and
    [/name/stream] resolve to, and has a command for each of its topics; and a
    command on one of its topics is for it and no other. *)
Theorem camera_reachable config cam :
  validate_config config = Ok tt -> In cam (cameras config) -> enabled cam = true ->
  orchestrator_cameras config !! cam_name cam = Some cam
  /\ Url.resolve (47 :: cam_name cam) = Some (Url.MkResolvedPath (cam_name cam) Url.Main)
  /\ (forall k, Url.resolve (47 :: cam_name cam ++ 47 :: Url.display k) = Some (Url.MkResolvedPath (cam_name cam) k))
  /\ (is_Some (mqtt config) -> forall t, In t (subscribe_topics (resolve_topic_prefix config) (cam_name cam)) ->
        (exists payload cmd, parse_control_message (resolve_topic_prefix config) t payload = Some cmd)
        /\ forall payload cmd, parse_control_message (resolve_topic_prefix config) t payload = Some cmd ->
             camera_name cmd = cam_name cam).
Proof.
  intros Hv%validate_config_iff Hin He. pose proof (wf_cameras config Hv) as Hc. rewrite List.Forall_forall in Hc.
  destruct (Hc cam Hin) as [Hn _]. pose proof (name_no_slash _ Hn) as Hs. split; [|split; [|split]].
  - apply orchestrator_lookup; [apply (wf_camera_names config Hv)|done].
  - unfold Url.resolve. pose proof (path_trimmed (cam_name cam) [] Hn (or_introl (List.Forall_nil _))) as Ht.
    rewrite app_nil_r in Ht. rewrite Ht, split_none by done. destruct (cam_name cam) eqn:E; [by destruct Hn|done].
  - intros k. unfold Url.resolve. rewrite path_trimmed; [|done|].
    2:{ right. exists (Url.display k). split; [done|]. destruct k; (split; [done|]); apply other_check; reflexivity. }
    rewrite split_sep by done. rewrite split_none by (destruct k; apply other_check; reflexivity).
    destruct (cam_name cam ++ 47 :: Url.display k) eqn:E; [by destruct (cam_name cam)|]. by destruct k.
  - intros [m Em] t Ht. assert (no_slash (resolve_topic_prefix config)) as Hp.
    { unfold resolve_topic_prefix. rewrite Em. apply name_no_slash, (prefix_ok m). by apply (wf_mqtt config Hv). }
    destruct (command_topics (resolve_topic_prefix config) (cam_name cam) t) as [_ H2]. split.
    + destruct (H2 Hp Hn Ht) as (payload & cmd & Hcmd & _). eauto.
    + intros payload cmd Hcmd. apply parse_topic in Hcmd as (_ & Hn' & _ & Hin').
      destruct (subscribed_topic _ _ _ Hp Hn Ht) as [r E], (subscribed_topic _ _ _ Hp Hn' Hin') as [r' E']. congruence.
Qed.

End names.

(** ** The outcome of a subscription *)

(** A subscription that returns holds the wake lock exactly when it
    is granted; it is granted only with a description that has video, and audio
    too where the camera is known to send it, each observed at a poll; and an
    error is one of an unknown camera, a user not permitted, the source's, or
    of no description in time. *)
Theorem subscription_outcome cams a camera kind user r effs :
  subscribe cams a camera kind user = Some (r, effs) ->
  match r with
  | Ok sub => effs = [Acquired (a_guard a)] /\ guard sub = a_guard a /\ a_source a = None
      /\ exists now p, In (now, p) (a_polls a) /\ is_Some (fst p)
           /\ match a_presence a with
              | Present _ => is_Some (snd p) /\ sdp_params sub = a_waited a p
              | _ => sdp_params sub = a_params a
              end
  | Err UnknownCamera => (effs = [] /\ cams !! camera = None) \/ (a_source a = Some UnknownCamera /\ effs = [Acquired (a_guard a); Dropped (a_guard a)])
  | Err AccessDenied => (effs = [] /\ exists c u, cams !! camera = Some c /\ user = Some u /\ permitted_users c <> [] /\ ~ In u (permitted_users c))
      \/ (a_source a = Some AccessDenied /\ effs = [Acquired (a_guard a); Dropped (a_guard a)])
  | Err _ => effs = [Acquired (a_guard a); Dropped (a_guard a)]
  end.
Proof.
  assert (forall (ready : snapshot -> bool) st timeout polls p, await_sdp ready st timeout polls = Some (Ok p) ->
    ready p = true /\ exists now, In (now, p) polls) as Hw.
  { intros ready st timeout polls p. induction polls as [|[now q] polls IH]; [done|]. cbn [await_sdp].
    destruct (ready q) eqn:E; [intros [= <-]; split; [done|exists now; by left]|].
    destruct (timeout <? now - st); [done|]. intros H. destruct (IH H) as [? [n ?]]. split; [done|]. exists n. by right. }
  unfold subscribe. destruct (cams !! camera) as [c|] eqn:Ec; [|intros [= <- <-]; by left].
  destruct (match user with Some _ => _ | None => false end) eqn:Ed.
  { intros [= <- <-]. left. split; [done|]. destruct user as [u|]; [|done]. apply andb_true_iff in Ed as [Hn Hx].
    exists c, u. split; [done|]. split; [done|]. split; [by destruct (permitted_users c)|]. intros Hin.
    apply negb_true_iff in Hx. assert (existsb (fun v => bool_decide (v = u)) (permitted_users c) = true) as Ht; [|congruence].
    apply existsb_exists. exists u. by rewrite bool_decide_eq_true_2. }
  destruct (a_source a) as [e|] eqn:Es; [intros [= <- <-]; destruct e; auto|].
  assert (forall p, video_ready p = true -> is_Some (fst p)) as Hv by (intros [[v|] ?]; [eauto|done]).
  destruct (a_presence a) as [|codec|] eqn:Ep; cbn [classify_presence].
  - destruct (await_sdp video_ready _ _ _) as [[p|[]]|] eqn:E1; cbn [mbind option_bind]; [|intros [= <- <-]; done|done].
    change (0 <? Config.secs 2) with true. destruct (await_sdp audio_ready _ _ _) as [x|]; cbn [mbind option_bind]; [|done].
    intros [= <- <-]. apply Hw in E1 as [E1 [n Hn]]. do 3 (split; [done|]). exists n, p. auto.
  - destruct (await_sdp both_ready _ _ _) as [[p|[]]|] eqn:E1; cbn [mbind option_bind]; [|intros [= <- <-]; done|done].
    intros [= <- <-]. apply Hw in E1 as [E1 [n Hn]]. apply andb_true_iff in E1 as [Ev Ea].
    do 3 (split; [done|]). exists n, p. split; [done|]. split; [by apply Hv|]. split; [|done].
    destruct p as [? [au|]]; [eauto|done].
  - destruct (await_sdp video_ready _ _ _) as [[p|[]]|] eqn:E1; cbn [mbind option_bind]; [|intros [= <- <-]; done|done].
    change (0 <? 0) with false. intros [= <- <-]. apply Hw in E1 as [E1 [n Hn]]. do 3 (split; [done|]). exists n, p. auto.
Qed.

(** ** A concrete configuration *)

Definition sample_config : Config :=
  let cam := sample_camera (lit "porch") None in
  let acl (l : list str) :=
    MkCameraConfig (cam_name cam) (address cam) (uid cam) (username cam) (password cam) None None None None
      (channel_id cam) (stream cam) (discovery cam) (max_encryption cam) true None (motion_wake_hold_secs cam) true
      (cam_mqtt cam) (pause cam) l None None None None None None None None None in
  MkConfig default_bind_addr 0 (Some (lit "cert.pem")) TlsNone None None [MkUserConfig (lit "bob") (lit "pw")]
    (Some MqttServerConfig_default) None None None 30 None None [acl [lit "bob"]].

Definition sample_video : VideoParams := MkVideoParams H264 96 [0x67; 66; 0; 31] [0x68] None (66, 0, 31).

Definition sample_answers (camera : str) (kind : Url.StreamKind) (user : option str) : Answers :=
  MkAnswers 42 None Absent 0 [(0, (None, None)); (millis 100, (Some sample_video, None))] 0 [] (sdp_params porch)
    (fun _ => sdp_params porch).

Lemma acl_enforced_witness :
  exists effs ok st' sub c,
    dispatch_request (M := md5_toy) (R := canned_requests) (B := plain_base64) (sample_env 0) (RtspServer.state sample_conn) setup_bytes
      = Ret (effs, ok, st')
    /\ guard sub = 42 /\ In c (cameras sample_config) /\ permitted_users c = [lit "bob"].
Proof.
  assert (match dispatch_request (M := md5_toy) (R := canned_requests) (B := plain_base64) (sample_env 0)
            (RtspServer.state sample_conn) setup_bytes with
          | Ret (effs, _, _) => subscribed effs = [42] | Panic => False end) as H by (vm_compute; reflexivity).
  match type of H with match ?x with _ => _ end => destruct x as [[[effs ok] st']|] eqn:E; [|contradiction] end.
  destruct (acl_enforced (M := md5_toy) (R := canned_requests) (B := plain_base64) sample_config sample_answers
    (sample_env 0) (RtspServer.state sample_conn) setup_bytes effs ok st') with (g := 42) as (sub & c & Hg & Hin & _).
  - vm_compute. reflexivity.
  - vm_compute. reflexivity.
  - intros cam k user sub Hs. unfold sample_env in Hs. cbn [RtspServer.subscribe] in Hs.
    case_bool_decide as Hd; [|discriminate]. destruct Hd as [-> ->]. injection Hs as <-. eexists. vm_compute. reflexivity.
  - exact E.
  - rewrite H. by left.
  - exists effs, ok, st', sub, c. split; [reflexivity|]. split; [done|]. split; [done|].
    destruct Hin as [<-|[]]. reflexivity.
Defined.

Lemma camera_reachable_witness : exists cam,
  orchestrator_cameras sample_config !! lit "porch" = Some cam
  /\ Url.resolve (lit "/porch/sub") = Some (Url.MkResolvedPath (lit "porch") Url.Sub).
Proof.
  destruct (cameras sample_config) as [|cam l] eqn:E; [discriminate|].
  destruct (camera_reachable (U := unicode_ascii) (F := decimal_int) sample_config cam) as (H1 & _ & H2 & _).
  - vm_compute. reflexivity.
  - rewrite E. by left.
  - injection E as <- _. reflexivity.
  - injection E as <- _. eexists. split; [exact H1|]. exact (H2 Url.Sub).
Defined.

Lemma subscription_outcome_witness : exists now p,
  In (now, p) (a_polls (sample_answers (lit "porch") Url.Main (Some (lit "bob")))) /\ is_Some (fst p).
Proof.
  assert (subscribe (orchestrator_cameras sample_config) (sample_answers (lit "porch") Url.Main (Some (lit "bob")))
    (lit "porch") Url.Main (Some (lit "bob")) = Some (Ok porch, [Acquired 42])) as E by (vm_compute; reflexivity).
  apply subscription_outcome in E. destruct E as (_ & _ & _ & n & p & Hin & Hv & _). exists n, p. split; [exact Hin|exact Hv].
Defined.
