(* ===== verification/Discovery.v ===== *)
(** * UDP discovery ([src/baichuan/bc_protocol/connection/discovery.rs])

    Given the UID of a camera, find an address it answers at. A [Discoverer] is
    a socket whose reader task hands each discovery packet to the exchange that
    waits for its transaction number, or to everybody who listens for what the
    cameras start themselves ([Reader]). The ways to a camera are programs over
    it: they take what the reader hands them, the ticks of their timer, the
    semaphore's permits and random numbers from a script, and everything they
    do is recorded ([Flow]). [Semaphore] is the lock that lets one of several
    ways that run at once finish. *)

From S2P Require Import Prelude Text BcUdpXml WakeServer.

(** ** Texts of addresses, as [core::net] reads them *)

Definition digit (radix c : Z) : option Z :=
  if in_range 48 57 c then Some (c - 48)
  else if (radix =? 16) && in_range 97 102 c then Some (c - 87)
  else if (radix =? 16) && in_range 65 70 c then Some (c - 55)
  else None.

Fixpoint take_digits (radix : Z) (s : str) : list Z * str :=
  match s with
  | c :: t =>
      match digit radix c with
      | Some d => let '(ds, rest) := take_digits radix t in (d :: ds, rest)
      | None => ([], s)
      end
  | [] => ([], [])
  end.

Definition number (radix : Z) (ds : list Z) : Z := fold_left (fun n d => radix * n + d) ds 0.

(** [read_number] of a type with maximum [max]. *)
Definition read_number (radix max : Z) (max_digits : nat) (allow_zero_prefix : bool) (s : str) : option (Z * str) :=
  let '(ds, rest) := take_digits radix s in
  let n := number radix ds in
  if (length ds =? 0)%nat || (max_digits <? length ds)%nat || (max <? n) then None
  else if negb allow_zero_prefix && (hd 1 ds =? 0) && (1 <? length ds)%nat then None
  else Some (n, rest).

(** [read_separator]: the separator stands before every item but the first. *)
Definition separated {A} (sep : Z) (first : bool) (read : str -> option (A * str)) (s : str) : option (A * str) :=
  if first then read s
  else match s with c :: s => if c =? sep then read s else None | [] => None end.

Fixpoint read_octets (n : nat) (first : bool) (s : str) : option (list Z * str) :=
  match n with
  | O => Some ([], s)
  | S n =>
      '(o, s) ← separated 46 first (read_number 10 255 3 false) s;
      '(os, s) ← read_octets n false s;
      Some (o :: os, s)
  end.

Definition read_ipv4_addr (s : str) : option (list Z * str) := read_octets 4 true s.

(** The groups read into at most [n] slots, and whether the last two came from
    an embedded IPv4 address. *)
Fixpoint read_groups (n : nat) (first : bool) (s : str) : list Z * bool * str :=
  match n with
  | O => ([], false, s)
  | S m =>
      match (if (1 <=? m)%nat then separated 58 first read_ipv4_addr s else None) with
      | Some ([a; b; c; d], s) => ([256 * a + b; 256 * c + d], true, s)
      | _ =>
          match separated 58 first (read_number 16 65535 4 true) s with
          | Some (g, s) => let '(gs, v4, s) := read_groups m false s in (g :: gs, v4, s)
          | None => ([], false, s)
          end
      end
  end.

Definition read_ipv6_addr (s : str) : option (list Z * str) :=
  let '(head, head_ipv4, s) := read_groups 8 true s in
  if (length head =? 8)%nat then Some (head, s)
  else if head_ipv4 then None
  else
    match s with
    | 58 :: 58 :: s =>
        let '(tail, _, s) := read_groups (8 - (length head + 1)) true s in
        Some (head ++ replicate (8 - length head - length tail) 0 ++ tail, s)
    | _ => None
    end.

Definition whole {A} (r : option (A * str)) : option A :=
  match r with Some (a, []) => Some a | _ => None end.

Definition parse_ipv4 (s : str) : option (list Z) := if 15 <? len s then None else whole (read_ipv4_addr s).

Definition parse_ip (s : str) : option IpAddr :=
  whole (match read_ipv4_addr s with
         | Some (a, s) => Some (V4 a, s)
         | None => '(a, s) ← read_ipv6_addr s; Some (V6 a, s)
         end).

Example parse_ip_v4 : map parse_ip [lit "192.168.1.50"; lit "1.2.3"; lit "01.2.3.4"; lit "1.2.3.256"; lit "1.2.3.4 "]
  = [Some (V4 [192; 168; 1; 50]); None; None; None; None].
Proof. reflexivity. Qed.

Example parse_ip_v6 : map parse_ip [lit "::1"; lit "fe80::1c:0:0:AB"; lit "::ffff:1.2.3.4"; lit "1::2::3"; lit "::"]
  = [Some LOCALHOST6; Some (V6 [0xfe80; 0; 0; 0; 0x1c; 0; 0; 0xab]); Some (V6 [0; 0; 0; 0; 0; 0xffff; 0x102; 0x304]);
     None; Some (V6 [0; 0; 0; 0; 0; 0; 0; 0])].
Proof. reflexivity. Qed.

(** [TryFrom<IpPort>] ([xml.rs]) *)
Definition to_socket_addr (a : IpPort) : option SocketAddr := i ← parse_ip (ip a); Some (MkSocketAddr i (port a)).

Definition valid_ip (s : str) : bool :=
  negb (bool_decide (s = [])) && match parse_ipv4 s with Some o => negb (nth 3 o 0 =? 0) | None => false end.

Definition valid_port (p : Z) : bool := negb (p =? 0).

Definition valid_addr (a : IpPort) : bool := valid_ip (ip a) && valid_port (port a).

(** ** Errors ([errors.rs]), those discovery raises *)

Inductive Error :=
| Io (debug : str)
| AddrParseError
| DiscoveryTimeout
| DiscoveryIgnored
| DiscoveryNoRelay (why : str)
| SimultaneousSubscription (msg_num : Z)
| ConnectionUnavailable
| CannotInitCamera
| NoDev
| RegisterError
| TimeoutElapsed
| Other (what : str).

(** [thiserror]'s texts. *)
Definition show_error (e : Error) : str :=
  match e with
  | Io debug => lit "IO Error: " ++ debug
  | AddrParseError => lit "Could not parse as IP"
  | DiscoveryTimeout => lit "Timed out while waiting for camera reply"
  | DiscoveryIgnored => lit "No reply to discovery packet"
  | DiscoveryNoRelay why => lit "no relay accepted registration " ++ 8212 :: lit " " ++ why
  | SimultaneousSubscription n => lit "Simultaneous subscription, Some(" ++ show_uint n ++ lit ")"
  | ConnectionUnavailable => lit "Camera Not Findable"
  | CannotInitCamera => lit "Cannot contact camera at given address"
  | NoDev => lit "Cannot perform lookup with this camera against reolink servers"
  | RegisterError => lit "Register refuses to accept us"
  | TimeoutElapsed => lit "Timeout"
  | Other what => lit "Other error: " ++ what
  end.

#[export] Instance Error_eq_dec : EqDecision Error.
Proof. solve_decision. Defined.

(** ** What discovery finds *)

Record RegisterResult := MkRegisterResult {
  reg : SocketAddr;
  dev : option SocketAddr;
  dmap : option SocketAddr;
  relay : option SocketAddr;
  rr_client_id : Z;
  rr_sid : Z
}.

Record ConnectResult := MkConnectResult {
  cr_addr : SocketAddr;
  cr_client_id : Z;
  cr_camera_id : Z;
  cr_sid : Z;
  cr_nc : option Z;
  cr_pl : option str
}.

Record UidLookupResults := MkUidLookupResults { lookup_reg : SocketAddr; lookup_relay : SocketAddr }.

Definition MTU : Z := 1350.

Definition P2P_RELAY_HOSTNAMES : list str :=
  [lit "p2p.reolink.com"; lit "p2p1.reolink.com"; lit "p2p2.reolink.com"; lit "p2p3.reolink.com";
   lit "p2p4.reolink.com"; lit "p2p5.reolink.com"; lit "p2p6.reolink.com"; lit "p2p7.reolink.com";
   lit "p2p8.reolink.com"; lit "p2p9.reolink.com"; lit "p2p10.reolink.com"; lit "p2p11.reolink.com"].

(** In milliseconds. *)
Definition MAXIMUM_WAIT : Z := 15000.
Definition TCP_WAIT : Z := 4000.
Definition RESEND_WAIT : Z := 500.

(** A discovery packet: its transaction number and document. *)
Definition Packet : Type := Z * UdpXml.

Definition Item : Type := result (Packet * SocketAddr) Error.

(** ** The reader ([Discoverer::new]) *)

Module Reader.

(** A bounded channel: what waits in it, and whether its receiver lives. *)
Record Channel := MkChannel { queue : list Item; opened : bool }.

Definition CAPACITY : nat := 10.

(** A sender is the index of its channel. [removing] is the entry the reader
    has found closed and is about to remove, [running] is false once the
    socket failed or ended. *)
Record Discoverer := MkDiscoverer {
  channels : list Channel;
  subsribers : gmap Z nat;
  handlers : list nat;
  removing : option Z;
  running : bool
}.

Definition new : Discoverer := MkDiscoverer [] ∅ [] None true.

Inductive TrySend := Sent | Full | Closed.

Definition try_send (c : nat) (item : Item) (chans : list Channel) : TrySend * list Channel :=
  match chans !! c with
  | Some ch =>
      if negb (opened ch) then (Closed, chans)
      else if (CAPACITY <=? length (queue ch))%nat then (Full, chans)
      else (Sent, <[c := MkChannel (queue ch ++ [item]) true]> chans)
  | None => (Closed, chans)
  end.

(** A discovery packet off the socket. *)
Definition on_packet (p : Packet) (addr : SocketAddr) (d : Discoverer) : Discoverer :=
  let item := Ok (p, addr) in
  match (c ← subsribers d !! fst p; if 0 <? fst p then Some c else None) with
  | Some c =>
      let '(sent, chans) := try_send c item (channels d) in
      MkDiscoverer chans (subsribers d) (handlers d)
        (match sent with Closed => Some (fst p) | _ => None end) (running d)
  | None =>
      MkDiscoverer (fold_left (fun chans c => snd (try_send c item chans)) (handlers d) (channels d))
        (subsribers d) (handlers d) None (running d)
  end.

(** The removal takes the write lock after the read lock is given back. *)
Definition on_remove (d : Discoverer) : Discoverer :=
  match removing d with
  | Some tid => MkDiscoverer (channels d) (delete tid (subsribers d)) (handlers d) None (running d)
  | None => d
  end.

(** Every subscriber is sent the error, however long its channel stays full;
    then their senders are dropped. The handlers stay. *)
Definition on_socket_error (e : Error) (d : Discoverer) : Discoverer :=
  MkDiscoverer
    (fold_left (fun chans c => alter (fun ch => if opened ch then MkChannel (queue ch ++ [Err e]) true else ch) c chans)
       (map snd (map_to_list (subsribers d))) (channels d))
    ∅ (handlers d) None false.

(** [subscribe] *)
Definition subscribe (tid : Z) (d : Discoverer) : result nat Error * Discoverer :=
  let c := length (channels d) in
  let chans := channels d ++ [MkChannel [] true] in
  let added := (Ok c, MkDiscoverer chans (<[tid := c]> (subsribers d)) (handlers d) (removing d) (running d)) in
  if 0 <? tid then
    match subsribers d !! tid with
    | None => added
    | Some old =>
        if (match channels d !! old with Some ch => opened ch | None => false end) then
          (Err (SimultaneousSubscription (wrap 16 tid)), d)
        else added
    end
  else (Ok c, MkDiscoverer chans (subsribers d) (handlers d ++ [c]) (removing d) (running d)).

(** The other end: a message taken, a receiver dropped. *)
Definition take_one (c : nat) (d : Discoverer) : Discoverer :=
  MkDiscoverer (alter (fun ch => MkChannel (drop 1 (queue ch)) (opened ch)) c (channels d))
    (subsribers d) (handlers d) (removing d) (running d).

Definition drop_receiver (c : nat) (d : Discoverer) : Discoverer :=
  MkDiscoverer (alter (fun ch => MkChannel [] false) c (channels d)) (subsribers d) (handlers d) (removing d)
    (running d).

Inductive Label :=
| Discovered (p : Packet) (addr : SocketAddr)
| OtherPacket
| Remove
| SocketError (e : Error)
| SocketEnd
| Subscribe (tid : Z)
| Take (c : nat)
| DropReceiver (c : nat).

(** The reader takes no packet while it has an entry to remove. *)
Definition step (d : Discoverer) (l : Label) : option Discoverer :=
  let reads := if running d && bool_decide (removing d = None) then Some tt else None in
  match l with
  | Discovered p addr => _ ← reads; Some (on_packet p addr d)
  | OtherPacket => _ ← reads; Some d
  | Remove => Some (on_remove d)
  | SocketError e => _ ← reads; Some (on_socket_error e d)
  | SocketEnd => _ ← reads; Some (MkDiscoverer (channels d) (subsribers d) (handlers d) None false)
  | Subscribe tid => Some (snd (subscribe tid d))
  | Take c => Some (take_one c d)
  | DropReceiver c => Some (drop_receiver c d)
  end.

Fixpoint run (d : Discoverer) (ls : list Label) : option Discoverer :=
  match ls with [] => Some d | l :: ls => d ← step d l; run d ls end.

End Reader.

(** ** Programs over a discoverer *)

Module Flow.

(** What a way waits for: the item of its channel, the channel's end, a tick of
    its interval with the answer of the send that follows, the end of its wait,
    the answer to a subscription, to its wish for the permit and to the
    operating system's list of addresses. *)
Inductive Event :=
| Got (item : Item)
| Ended
| Tick (sent : option Error)
| Elapsed
| Subscribed (answer : option Error)
| Permit (granted : bool).

Inductive Act :=
| ASubscribe (tid : Z)
| ASend (p : Packet) (dest : SocketAddr)
| AAcquire (granted : bool)
| AClose
| ARelease
| AKeepAlive (p : Packet) (dest : SocketAddr).

Record World := MkWorld { events : list Event; randoms : list Z; acts : list Act }.

(** [None]: the program still waits at the end of the script. *)
Definition Flow (A : Type) : Type := World -> option (result A Error) * World.

Definition ret {A} (a : A) : Flow A := fun w => (Some (Ok a), w).
Definition fail {A} (e : Error) : Flow A := fun w => (Some (Err e), w).

Definition bind {A B} (m : Flow A) (f : A -> Flow B) : Flow B := fun w =>
  match m w with
  | (Some (Ok a), w) => f a w
  | (Some (Err e), w) => (Some (Err e), w)
  | (None, w) => (None, w)
  end.

Definition act (a : Act) (w : World) : World := MkWorld (events w) (randoms w) (acts w ++ [a]).
Definition next (evs : list Event) (w : World) : World := MkWorld evs (randoms w) (acts w).

Definition perform (a : Act) : Flow unit := fun w => (Some (Ok tt), act a w).

Definition from_option {A} (e : Error) (o : option A) : Flow A :=
  match o with Some a => ret a | None => fail e end.

(** [rng.gen()] *)
Definition random : Flow Z := fun w =>
  match randoms w with
  | [] => (None, w)
  | n :: ns => (Some (Ok n), MkWorld (events w) ns (acts w))
  end.

Notation "'let>' x ':=' m 'in' k" := (bind m (fun x => k))
  (at level 10, x pattern, m at level 100, k at level 200) : bairelay_scope.

(** Zero means everybody in [subscribe]. *)
Definition generate_tid : Flow Z := let> tid := random in ret (if tid =? 0 then 1 else tid).

Definition subscribe (tid : Z) : Flow unit := fun w =>
  let w := act (ASubscribe tid) w in
  match events w with
  | Subscribed None :: evs => (Some (Ok tt), next evs w)
  | Subscribed (Some e) :: evs => (Some (Err e), next evs w)
  | _ => (None, w)
  end.

(** [select!] of the receptions, the resends and the timeout. *)
Fixpoint exchange {T} (msg : Packet) (dest : SocketAddr) (map : Packet -> SocketAddr -> option T)
    (evs : list Event) (w : World) : option (result T Error) * World :=
  match evs with
  | Got (Ok (reply, addr)) :: evs =>
      match map reply addr with
      | Some r => (Some (Ok r), next evs w)
      | None => exchange msg dest map evs w
      end
  | Got (Err _) :: evs => exchange msg dest map evs w
  | Ended :: evs => (Some (Err DiscoveryIgnored), next evs w)
  | Tick None :: evs => exchange msg dest map evs (act (ASend msg dest) w)
  | Tick (Some e) :: evs => (Some (Err e), next evs (act (ASend msg dest) w))
  | Elapsed :: evs => (Some (Err DiscoveryTimeout), next evs w)
  | _ => (None, next evs w)
  end.

Definition retry_send {T} (disc : Packet) (dest : SocketAddr) (map : Packet -> SocketAddr -> option T) : Flow T :=
  let> target_tid := (if fst disc =? 0 then generate_tid else ret (fst disc)) in
  let> _ := subscribe target_tid in
  fun w => exchange (target_tid, snd disc) dest map (events w) w.

Fixpoint incoming {T} (map : Packet -> SocketAddr -> option T) (evs : list Event) (w : World)
    : option (result T Error) * World :=
  match evs with
  | Got (Ok (reply, addr)) :: evs =>
      match map reply addr with
      | Some r => (Some (Ok r), next evs w)
      | None => incoming map evs w
      end
  | Got (Err e) :: evs => (Some (Err e), next evs w)
  | Ended :: evs => (Some (Err ConnectionUnavailable), next evs w)
  | Elapsed :: evs => (Some (Err DiscoveryTimeout), next evs w)
  | _ => (None, next evs w)
  end.

Definition handle_incoming {T} (map : Packet -> SocketAddr -> option T) : Flow T :=
  let> _ := subscribe 0 in
  fun w => incoming map (events w) w.

Fixpoint send_times (n : nat) (msg : Packet) (dest : SocketAddr) : Flow unit :=
  match n with
  | O => ret tt
  | S n => fun w =>
      match events w with
      | Tick None :: evs => send_times n msg dest (next evs (act (ASend msg dest) w))
      | Tick (Some e) :: evs => (Some (Err e), next evs (act (ASend msg dest) w))
      | _ => (None, w)
      end
  end.

Definition send_and_forget (disc : Packet) (dest : SocketAddr) : Flow unit :=
  let> target_tid := (if fst disc =? 0 then generate_tid else ret (fst disc)) in
  send_times 5 (target_tid, snd disc) dest.

(** Once a second from here on, in a task of its own. *)
Definition keep_alive_device (tid : Z) (r : ConnectResult) : Flow unit :=
  perform (AKeepAlive (tid, XC2dHb (MkC2dHb (cr_client_id r) (cr_camera_id r))) (cr_addr r)).

(** From the permit on: it goes back when the way ends, whatever the end. *)
Definition with_permit {A} (body : Flow A) : Flow A := fun w =>
  match events w with
  | Permit true :: evs =>
      let '(r, w) := body (next evs (act (AAcquire true) w)) in
      (r, match r with Some _ => act ARelease w | None => w end)
  | Permit false :: evs =>
      (Some (Err (Other (lit "Discovery already complete"))), next evs (act (AAcquire false) w))
  | _ => (None, w)
  end.

End Flow.

Import Flow.

(** ** The ways to a camera *)

(** What they know of the discoverer: its port and whether it asks for sigV3. *)
Record Socket := MkSocket { local_port : Z; sigv3 : bool }.

Definition client_initiated_direct (d : Socket) (uid : str) (client_id : Z) (addr : SocketAddr) : Flow ConnectResult :=
  let> tid := generate_tid in
  let msg := (tid, XC2dC (MkC2dC uid (MkClientList (local_port d)) client_id MTU false (lit "MAC")
                            (if sigv3 d then 3 else 0))) in
  let> (camera_address, camera_id, nc, pl) := retry_send msg addr (fun bc addr =>
    match bc with
    | (_, XD2cCr r) =>
        if d2ccr_cid r =? client_id then Some (addr, d2ccr_did r, d2ccr_nc r, d2ccr_pl r) else None
    | _ => None
    end) in
  let result := MkConnectResult camera_address client_id camera_id 0 nc pl in
  let> _ := keep_alive_device tid result in
  ret result.

Definition uid_lookup (uid : str) (addr : SocketAddr) : Flow UidLookupResults :=
  let> (reg, relay) := retry_send (0, XC2mQ (MkC2mQ uid (lit "MAC"))) addr (fun bc _ =>
    match bc with
    | (_, XM2cQr r) =>
        match m2cqr_reg r, m2cqr_relay r with
        | Some reg, Some relay => if valid_addr reg && valid_addr relay then Some (reg, relay) else None
        | _, _ => None
        end
    | _ => None
    end) in
  let> reg_ip := from_option AddrParseError (parse_ip (ip reg)) in
  let> relay_ip := from_option AddrParseError (parse_ip (ip relay)) in
  ret (MkUidLookupResults (MkSocketAddr reg_ip (port reg)) (MkSocketAddr relay_ip (port relay))).

(** *** The host's own addresses *)

(** An interface as [if_addrs] lists it, an IPv4 one with its mask and broadcast
    address, and whether that crate calls it a loopback. *)
Inductive IfAddr :=
| IfV4 (ip netmask : list Z) (broadcast : option (list Z))
| IfV6 (ip : list Z).

Record Interface := MkInterface { if_addr : IfAddr; is_loopback : bool }.

Definition iface_ip (i : Interface) : IpAddr := match if_addr i with IfV4 a _ _ => V4 a | IfV6 a => V6 a end.

Definition ipv4_u32 (octets : list Z) : Z := of_be_bytes octets.

Definition in_subnet (target : list Z) (i : Interface) : bool :=
  negb (is_loopback i)
  && match if_addr i with
     | IfV4 a mask _ =>
         negb (ipv4_u32 mask =? 0)
         && (Z.land (ipv4_u32 a) (ipv4_u32 mask) =? Z.land (ipv4_u32 target) (ipv4_u32 mask))
     | IfV6 _ => false
     end.

Definition plain_v4 (i : Interface) : bool :=
  negb (is_loopback i) && match if_addr i with IfV4 _ _ _ => true | IfV6 _ => false end.

Definition get_local_ip_for_target (ifaces : result (list Interface) Error) (target : option IpAddr)
    : result IpAddr Error :=
  match ifaces with
  | Err e => Err e
  | Ok ifaces =>
      match (match target with Some (V4 t) => List.find (in_subnet t) ifaces | _ => None end) with
      | Some i => Ok (iface_ip i)
      | None =>
          match List.find plain_v4 ifaces with
          | Some i => Ok (iface_ip i)
          | None => Err (Other (lit "No Local Ip Address Found"))
          end
      end
  end.

(** The limited broadcast address first, then each interface's, on each port. *)
Definition get_broadcasts (ifaces : result (list Interface) Error) (ports : list Z) : result (list SocketAddr) Error :=
  match ifaces with
  | Err e => Err e
  | Ok ifaces =>
      let broadcasts := [255; 255; 255; 255] ::
        omap (fun i => match if_addr i with IfV4 _ _ b => b | IfV6 _ => None end) ifaces in
      Ok (concat (map (fun a => map (fun p => MkSocketAddr (V4 a) p) ports) broadcasts))
  end.

(** *** Through the register *)

Definition of_result {A} (r : result A Error) : Flow A := fun w => (Some r, w).

Definition has_addr (r : R2cCr) : bool :=
  let valid o := match o with Some a => valid_addr a | None => false end in
  valid (r2ccr_dev r) || valid (r2ccr_dmap r) || valid (r2ccr_relay r).

Definition refused (r : R2cCr) : bool := (r2ccr_rsp r =? -1) || (r2ccr_rsp r =? -3).

Definition accept_registration (bc : Packet) (_ : SocketAddr)
    : option (result (Z * option IpPort * option IpPort * option IpPort) Error) :=
  match bc with
  | (_, XR2cCr r) =>
      match r2ccr_sid r with
      | Some sid =>
          if has_addr r && negb (refused r) then Some (Ok (sid, r2ccr_dev r, r2ccr_dmap r, r2ccr_relay r))
          else if has_addr r && refused r then Some (Err RegisterError)
          else None
      | None => if has_addr r && refused r then Some (Err RegisterError) else None
      end
  | _ => None
  end.

Definition register_address (d : Socket) (ifaces : result (list Interface) Error) (uid : str) (client_id : Z)
    (lookup : UidLookupResults) : Flow RegisterResult :=
  let> tid := generate_tid in
  let> local_ip := of_result (get_local_ip_for_target ifaces (Some (addr_ip (lookup_relay lookup)))) in
  let local_family := match local_ip with V4 _ => 4 | V6 _ => 6 end in
  let msg := (tid, XC2rC (MkC2rC uid (MkIpPort (show_ip local_ip) (local_port d))
                           (MkIpPort (show_ip (addr_ip (lookup_relay lookup))) (addr_port (lookup_relay lookup)))
                           client_id false local_family (lit "MAC") (Some 3))) in
  let> answer := retry_send msg (lookup_reg lookup) accept_registration in
  let> (sid, dev, dmap, relay) := of_result answer in
  let addr o := a ← o; to_socket_addr a in
  ret (MkRegisterResult (lookup_reg lookup) (addr dev) (addr dmap) (addr relay) client_id sid).

(** The end that all the registered ways share: the register is told, the
    camera kept awake, and the other ways are locked out. *)
Definition confirm (r : RegisterResult) (conn : str) (tid : Z) (result : ConnectResult) : Flow ConnectResult :=
  let> _ := send_and_forget (0, XC2rCfm (MkC2rCfm (cr_sid result) conn 0 (cr_client_id result) (cr_camera_id result)))
              (reg r) in
  let> _ := keep_alive_device tid result in
  let> _ := perform AClose in
  ret result.

Definition registered (r : RegisterResult) (addr : SocketAddr) (did : Z) : ConnectResult :=
  MkConnectResult addr (rr_client_id r) did (rr_sid r) None None.

Definition device_initiated (conn_name : str) (r : RegisterResult) : Flow ConnectResult :=
  let> (addr, local_tid, local_did) := handle_incoming (fun bc addr =>
    match bc with
    | (tid, XD2cT t) =>
        if (d2ct_cid t =? rr_client_id r) && (d2ct_sid t =? rr_sid r) && bool_decide (dmap r = Some addr)
           && bool_decide (d2ct_conn t = conn_name)
        then Some (addr, tid, d2ct_did t) else None
    | _ => None
    end) in
  with_permit (
    let> _ := retry_send (local_tid, XC2dA (MkC2dA (rr_sid r) conn_name (rr_client_id r) local_did MTU)) addr
      (fun bc _ =>
         match bc with
         | (_, XD2cCfm c) =>
             if (d2ccfm_sid c =? rr_sid r) && (d2ccfm_did c =? local_did) && (d2ccfm_cid c =? rr_client_id r)
                && bool_decide (d2ccfm_conn c = conn_name)
             then Some tt else None
         | _ => None
         end) in
    confirm r conn_name local_tid (registered r addr local_did)).

Definition device_initiated_dev : RegisterResult -> Flow ConnectResult := device_initiated (lit "local").
Definition device_initiated_map : RegisterResult -> Flow ConnectResult := device_initiated (lit "map").

(** The permit is asked for only once the camera has answered. *)
Definition client_initiated_dev (r : RegisterResult) : Flow ConnectResult :=
  let> tid := generate_tid in
  let> dev_addr := from_option NoDev (dev r) in
  let> (final_addr, local_did) :=
    retry_send (tid, XC2dT (MkC2dT (rr_sid r) (lit "local") (rr_client_id r) MTU)) dev_addr (fun bc addr =>
      match bc with
      | (_, XD2cCfm c) =>
          if (d2ccfm_cid c =? rr_client_id r) && (d2ccfm_sid c =? rr_sid r) then Some (addr, d2ccfm_did c) else None
      | _ => None
      end) in
  with_permit (confirm r (lit "local") tid (registered r final_addr local_did)).

(** The permit is held while the relay is asked. *)
Definition client_initiated_relay (r : RegisterResult) : Flow ConnectResult :=
  let> tid := generate_tid in
  let> relay_addr := from_option NoDev (relay r) in
  with_permit (
    let> (final_addr, local_did) :=
      retry_send (tid, XC2dT (MkC2dT (rr_sid r) (lit "relay") (rr_client_id r) MTU)) relay_addr (fun bc addr =>
        match bc with
        | (_, XD2cCfm c) =>
            if (d2ccfm_cid c =? rr_client_id r) && (d2ccfm_sid c =? rr_sid r)
               && bool_decide (d2ccfm_conn c = lit "relay")
            then Some (addr, d2ccfm_did c) else None
        | _ => None
        end) in
    confirm r (lit "relay") tid (registered r final_addr local_did)).

Inductive Way := DeviceDev | DeviceMap | ClientDev | ClientRelay.

Definition connect_by (way : Way) : RegisterResult -> Flow ConnectResult :=
  match way with
  | DeviceDev => device_initiated_dev
  | DeviceMap => device_initiated_map
  | ClientDev => client_initiated_dev
  | ClientRelay => client_initiated_relay
  end.

(** *** The semaphore the ways share *)

Module Semaphore.

Inductive Op := Acquire (granted : bool) | Close | Release.

(** Who holds the permit, and whether the semaphore was closed. *)
Record State := MkState { holder : option nat; closed : bool }.

Definition init : State := MkState None false.

(** A semaphore of one permit: given while nobody holds it, refused only once
    closed, given back by its holder. *)
Definition step (s : State) (x : nat * Op) : option State :=
  match snd x with
  | Acquire true => if bool_decide (holder s = None) && negb (closed s) then Some (MkState (Some (fst x)) false) else None
  | Acquire false => if closed s then Some s else None
  | Close => Some (MkState (holder s) true)
  | Release => if decide (holder s = Some (fst x)) then Some (MkState None (closed s)) else None
  end.

Fixpoint run (s : State) (trace : list (nat * Op)) : option State :=
  match trace with [] => Some s | x :: trace => s ← step s x; run s trace end.

(** What a way does to it. *)
Definition op_of (a : Act) : option Op :=
  match a with
  | AAcquire granted => Some (Acquire granted)
  | AClose => Some Close
  | ARelease => Some Release
  | _ => None
  end.

Definition ops (acts : list Act) : list Op := omap op_of acts.

(** The part of an interleaving that belongs to way [i]. *)
Definition part (i : nat) (trace : list (nat * Op)) : list Op :=
  omap (fun x => if decide (fst x = i) then Some (snd x) else None) trace.

(** Closed, it gives no permit any more. *)
Lemma closed_refuses trace s j l :
  closed s = true -> part j trace = Acquire true :: l -> run s trace = None.
Proof.
  revert s. induction trace as [|[k o] trace IH]; intros s Hc; [done|].
  unfold part. cbn [omap list_omap fst snd run]. destruct (decide (k = j)) as [->|Hk].
  - intros [= -> _]. unfold step. cbn [snd fst]. rewrite Hc, andb_false_r. done.
  - intros Hp. destruct (step s (k, o)) as [s'|] eqn:E; [|done]. cbn [mbind option_bind].
    apply IH; [|done]. unfold step in E. cbn [snd fst] in E. destruct o as [[]| |]; repeat case_match; try done;
      injection E as <-; try done. by rewrite Hc, andb_false_r in *.
Qed.

(** Held by a way that is going to close it, it gives no permit to another. *)
Lemma held_refuses trace s i j l :
  i <> j -> holder s = Some i -> part i trace = [Close; Release] -> part j trace = Acquire true :: l ->
  run s trace = None.
Proof.
  intros Hij. revert s. induction trace as [|[k o] trace IH]; intros s Hh; [done|].
  intros Hi Hj. cbn [run]. destruct (step s (k, o)) as [s'|] eqn:E; [|done]. cbn [mbind option_bind].
  unfold step in E. cbn [fst snd] in E. unfold part in Hi, Hj. cbn [omap list_omap fst snd] in Hi, Hj.
  rewrite Hh in E. destruct (decide (k = j)) as [->|Hkj].
  { injection Hj as -> _. by rewrite bool_decide_eq_false_2 in E. }
  destruct (decide (k = i)) as [->|Hki].
  - injection Hi as -> _. injection E as <-. by eapply closed_refuses.
  - destruct o as [[]| |].
    + by rewrite bool_decide_eq_false_2 in E.
    + destruct (closed s); [|done]. injection E as <-. by apply IH.
    + injection E as <-. by eapply closed_refuses.
    + rewrite decide_False in E by congruence. done.
Qed.

(** Two users that acquire, close and give back are one. *)
Lemma one_closes trace s s' i j :
  run s trace = Some s' -> part i trace = [Acquire true; Close; Release] ->
  part j trace = [Acquire true; Close; Release] -> i = j.
Proof.
  intros Hrun Hi Hj. destruct (decide (i = j)) as [|Hij]; [done|]. exfalso. revert s Hrun Hi Hj.
  induction trace as [|[k o] trace IH]; intros s; [done|]. cbn [run].
  destruct (step s (k, o)) as [s1|] eqn:E; [|done]. cbn [mbind option_bind]. intros Hrun Hi Hj.
  unfold step in E. unfold part in Hi, Hj. cbn [omap list_omap fst snd] in E, Hi, Hj.
  destruct (decide (k = i)) as [->|Hki]; [|destruct (decide (k = j)) as [->|Hkj]; [|by eapply IH]].
  - injection Hi as -> Hi. rewrite decide_False in Hj by done. case_match; [|done]. injection E as <-.
    by erewrite held_refuses in Hrun.
  - injection Hj as -> Hj. case_match; [|done]. injection E as <-.
    by erewrite held_refuses in Hrun.
Qed.

End Semaphore.

(** ** Lemmas *)

Ltac inv H := inversion H; subst; clear H.

Lemma bind_ok {A B} (m : Flow A) (f : A -> Flow B) w b w' :
  bind m f w = (Some (Ok b), w') -> exists a w1, m w = (Some (Ok a), w1) /\ f a w1 = (Some (Ok b), w').
Proof. unfold bind. destruct (m w) as [[[a|e]|] w1]; [eauto|done..]. Qed.

(** Take a returning program apart. *)
Ltac unbind :=
  match goal with
  | H : bind _ _ _ = (Some (Ok _), _) |- _ =>
      let a := fresh "x" in let w := fresh "w" in let E := fresh "E" in
      apply bind_ok in H as (a & w & E & H); cbv beta in H
  | H : ret _ _ = (Some (Ok _), _) |- _ => injection H as <- <-
  | H : perform _ _ = (Some (Ok _), _) |- _ => injection H as <- <-
  | H : fail _ _ = (Some (Ok _), _) |- _ => discriminate H
  | H : of_result ?r _ = (Some (Ok _), _) |- _ =>
      let E := fresh "E" in unfold of_result in H; destruct r eqn:E; [|discriminate H]; injection H as <- <-
  | H : from_option _ ?o _ = (Some (Ok _), _) |- _ =>
      let E := fresh "E" in destruct o eqn:E; [injection H as <- <-|discriminate H]
  end.

Lemma generate_tid_ok w t w' :
  generate_tid w = (Some (Ok t), w') -> t <> 0 /\ events w' = events w /\ acts w' = acts w.
Proof.
  unfold generate_tid. intros H. unbind. unfold random in E. destruct (randoms w) as [|n ns]; [done|].
  injection E as <- <-. unfold ret in H. injection H as <- <-. destruct (Z.eqb_spec n 0); done.
Qed.

Lemma subscribe_ok t w w' :
  subscribe t w = (Some (Ok tt), w') ->
  exists evs, events w = Subscribed None :: evs /\ events w' = evs /\ acts w' = acts w ++ [ASubscribe t].
Proof.
  unfold subscribe. cbn [act events]. destruct (events w) as [|[] evs]; try done. destruct answer; [done|].
  intros [= <-]. eauto.
Qed.

(** An exchange that returns was answered, by the first acceptable reply, and has
    sent its message and nothing else. *)
Lemma exchange_ok {T} msg dest (map : Packet -> SocketAddr -> option T) evs w a w' :
  exchange msg dest map evs w = (Some (Ok a), w') ->
  exists n before reply addr, map reply addr = Some a /\ evs = before ++ Got (Ok (reply, addr)) :: events w'
    /\ Forall (fun ev => match ev with Got (Ok (p, s)) => map p s = None | _ => True end) before
    /\ acts w' = acts w ++ replicate n (ASend msg dest).
Proof.
  revert w. induction evs as [|ev evs IH]; intros w; [done|]. cbn [exchange].
  destruct ev as [[[reply addr]|e]| |[e|]| |o|g]; try done.
  - destruct (map reply addr) as [r|] eqn:E.
    + intros [= <- <-]. exists 0%nat, [], reply, addr. cbn. rewrite app_nil_r. done.
    + intros (n & b & p & s & Hm & -> & Hb & Ha)%IH. exists n, (Got (Ok (reply, addr)) :: b), p, s.
      repeat (split; [done|]). split; [by constructor|done].
  - intros (n & b & p & s & Hm & -> & Hb & Ha)%IH. exists n, (Got (Err e) :: b), p, s.
    repeat (split; [done|]). split; [by constructor|done].
  - intros (n & b & p & s & Hm & -> & Hb & Ha)%IH. exists (S n), (Tick None :: b), p, s.
    repeat (split; [done|]). split; [by constructor|]. rewrite Ha. cbn [act acts replicate].
    by rewrite <- app_assoc.
Qed.

Lemma retry_send_ok {T} disc dest (map : Packet -> SocketAddr -> option T) w a w' :
  retry_send disc dest map w = (Some (Ok a), w') ->
  exists tid n reply addr, map reply addr = Some a /\ In (Got (Ok (reply, addr))) (events w)
    /\ (forall ev, In ev (events w') -> In ev (events w))
    /\ tid <> 0 /\ (fst disc <> 0 -> tid = fst disc)
    /\ acts w' = acts w ++ ASubscribe tid :: replicate n (ASend (tid, snd disc) dest).
Proof.
  unfold retry_send. intros H. unbind. unbind. destruct x0.
  assert (x <> 0 /\ (fst disc <> 0 -> x = fst disc) /\ events w0 = events w /\ acts w0 = acts w) as (Hx & Hd & He & Ha).
  { destruct (Z.eqb_spec (fst disc) 0).
    - apply generate_tid_ok in E as (? & ? & ?). done.
    - unbind. done. }
  apply subscribe_ok in E0 as (evs & Hev & Hev1 & Ha1). rewrite He in Hev.
  apply exchange_ok in H as (n & b & reply & addr & Hm & Hevs & _ & Ha2).
  exists x, n, reply, addr. rewrite Hev, <- Hev1, Hevs.
  split; [done|]. split; [right; apply in_or_app; right; by left|].
  split; [intros ev Hin; right; apply in_or_app; right; by right|]. split; [done|]. split; [done|].
  by rewrite Ha2, Ha1, Ha, <- app_assoc.
Qed.

Lemma send_times_ok n msg dest w w' :
  send_times n msg dest w = (Some (Ok tt), w') ->
  events w = replicate n (Tick None) ++ events w' /\ acts w' = acts w ++ replicate n (ASend msg dest).
Proof.
  revert w. induction n as [|n IH]; intros w.
  - intros [= <-]. by rewrite app_nil_r.
  - cbn [send_times]. destruct (events w) as [|[] evs]; try done. destruct sent; [done|].
    intros [H Ha]%IH. cbn [next act events acts] in *. rewrite H, Ha. split; [done|].
    cbn [replicate]. by rewrite <- app_assoc.
Qed.

Lemma send_and_forget_ok disc dest w w' :
  send_and_forget disc dest w = (Some (Ok tt), w') ->
  exists tid, tid <> 0 /\ (fst disc <> 0 -> tid = fst disc)
    /\ events w = replicate 5 (Tick None) ++ events w'
    /\ acts w' = acts w ++ replicate 5 (ASend (tid, snd disc) dest).
Proof.
  unfold send_and_forget. intros H. unbind. apply send_times_ok in H as [He Ha]. exists x.
  destruct (Z.eqb_spec (fst disc) 0).
  - apply generate_tid_ok in E as (? & H1 & H2). by rewrite <- H1, <- H2.
  - unbind. done.
Qed.

Lemma handle_incoming_ok {T} (map : Packet -> SocketAddr -> option T) w a w' :
  handle_incoming map w = (Some (Ok a), w') ->
  exists reply addr, map reply addr = Some a /\ In (Got (Ok (reply, addr))) (events w)
    /\ (forall ev, In ev (events w') -> In ev (events w)) /\ acts w' = acts w ++ [ASubscribe 0].
Proof.
  unfold handle_incoming. intros H. unbind. destruct x. apply subscribe_ok in E as (evs & -> & He & Ha).
  rewrite He in H. rewrite <- Ha. clear He Ha. revert w0 H. induction evs as [|ev evs IH]; intros w0; [done|].
  cbn [incoming]. destruct ev as [[[reply addr]|e]| |[e|]| |o|g]; try done.
  destruct (map reply addr) as [r|] eqn:E.
  - intros [= <- <-]. exists reply, addr. cbn [events next acts]. split; [done|].
    split; [right; by left|]. split; [|done]. intros ev H. right. by right.
  - intros (p & s & Hm & Hin & Hev & Ha)%IH. exists p, s. split; [done|].
    split; [destruct Hin as [[=]|Hin]; right; by right|]. split; [|done].
    intros ev H. apply Hev in H as [<-|H]; [by left|]. right. by right.
Qed.

Lemma with_permit_ok {A} (body : Flow A) w a w' :
  with_permit body w = (Some (Ok a), w') ->
  exists evs w1, events w = Permit true :: evs
    /\ body (MkWorld evs (randoms w) (acts w ++ [AAcquire true])) = (Some (Ok a), w1)
    /\ events w' = events w1 /\ acts w' = acts w1 ++ [ARelease].
Proof.
  unfold with_permit. destruct (events w) as [|[] evs] eqn:E; try done. destruct granted; [|done].
  cbn [next act events randoms acts]. destruct (body _) as [r w1] eqn:Eb. intros [= -> <-]. exists evs, w1.
  done.
Qed.

(** *** What a way does on its way to a connection *)

Definition conn_name (way : Way) : str :=
  match way with DeviceDev | ClientDev => lit "local" | DeviceMap => lit "map" | ClientRelay => lit "relay" end.

Definition from_device (way : Way) : Prop := match way with DeviceDev | DeviceMap => True | _ => False end.

(** The camera is asked, [n] times over, under the transaction [tid]. *)
Definition handshake (way : Way) (r : RegisterResult) (did tid : Z) (dest : SocketAddr) (n : nat) : list Act :=
  let to_device := ASend (tid, XC2dT (MkC2dT (rr_sid r) (conn_name way) (rr_client_id r) MTU)) dest in
  match way with
  | DeviceDev | DeviceMap =>
      [ASubscribe 0; AAcquire true; ASubscribe tid]
      ++ replicate n (ASend (tid, XC2dA (MkC2dA (rr_sid r) (conn_name way) (rr_client_id r) did MTU)) dest)
  | ClientDev => ASubscribe tid :: replicate n to_device ++ [AAcquire true]
  | ClientRelay => [AAcquire true; ASubscribe tid] ++ replicate n to_device
  end.

(** The register is told five times, then the camera kept awake. *)
Definition confirmation (r : RegisterResult) (conn : str) (result : ConnectResult) (rtid ktid : Z) : list Act :=
  replicate 5 (ASend (rtid, XC2rCfm (MkC2rCfm (rr_sid r) conn 0 (rr_client_id r) (cr_camera_id result))) (reg r))
  ++ [AKeepAlive (ktid, XC2dHb (MkC2dHb (rr_client_id r) (cr_camera_id result))) (cr_addr result); AClose].

Lemma confirm_ok r conn tid result w x w' :
  cr_sid result = rr_sid r -> cr_client_id result = rr_client_id r ->
  confirm r conn tid result w = (Some (Ok x), w') ->
  x = result /\ exists rtid, rtid <> 0 /\ acts w' = acts w ++ confirmation r conn result rtid tid.
Proof.
  intros Hs Hc H. unfold confirm in H. rewrite Hs, Hc in H. do 3 unbind. unbind. split; [done|].
  destruct x0. apply send_and_forget_ok in E as (rtid & Hr & _ & _ & Ha).
  unfold keep_alive_device in E0. unbind. unbind. exists rtid. split; [done|].
  rewrite Hc. cbn [act acts]. rewrite Ha. unfold confirmation. cbn [snd]. by rewrite <- !app_assoc.
Qed.

(** The world [w'] after a way that returned [result] in [w]: whose words the
    result is made of, and everything that was done. *)
Definition agreed (way : Way) (r : RegisterResult) (w : World) (result : ConnectResult) (w' : World) : Prop :=
  cr_client_id result = rr_client_id r /\ cr_sid result = rr_sid r /\ cr_nc result = None /\ cr_pl result = None
  /\ (exists t c src, In (Got (Ok ((t, XD2cCfm c), src))) (events w)
        /\ d2ccfm_sid c = rr_sid r /\ d2ccfm_cid c = rr_client_id r /\ d2ccfm_did c = cr_camera_id result
        /\ (way <> ClientDev -> d2ccfm_conn c = conn_name way)
        /\ (~ from_device way -> src = cr_addr result))
  /\ (from_device way -> dmap r = Some (cr_addr result)
        /\ exists t x, In (Got (Ok ((t, XD2cT x), cr_addr result))) (events w)
             /\ d2ct_sid x = rr_sid r /\ d2ct_cid x = rr_client_id r /\ d2ct_did x = cr_camera_id result
             /\ d2ct_conn x = conn_name way)
  /\ exists tid rtid ktid dest n, tid <> 0 /\ rtid <> 0 /\ (ktid <> 0 -> tid = ktid)
       /\ Some dest = match way with ClientDev => dev r | ClientRelay => relay r | _ => dmap r end
       /\ acts w' = acts w ++ handshake way r (cr_camera_id result) tid dest n
                    ++ confirmation r (conn_name way) result rtid ktid ++ [ARelease].

Ltac guards H G :=
  match type of H with (if ?b then _ else _) = _ => destruct b eqn:G; [|discriminate H] end;
  first [injection H; clear H; intros; subst | clear H]; rewrite ?andb_true_iff, ?Z.eqb_eq, ?bool_decide_eq_true in G.

Lemma device_initiated_ok way r w result w' :
  from_device way -> device_initiated (conn_name way) r w = (Some (Ok result), w') -> agreed way r w result w'.
Proof.
  intros Hway H. unfold device_initiated in H. unbind. destruct x as [[addr ltid] did].
  apply handle_incoming_ok in E as ([t p] & src & Hm & Hin & Hev & Ha).
  destruct p; try discriminate Hm. guards Hm Hguard. destruct Hguard as [[[Hcid Hsid] Hdmap] Hconn].
  apply with_permit_ok in H as (evs & w1 & He & H & _ & Ha'). unbind. destruct x0.
  apply retry_send_ok in E as (tid & n & [t' p] & src' & Hm & Hin' & _ & Ht & Htid & Ha1).
  destruct p as [| | | | |c| | | | | | | | | | | | | | | | | | | | | | |]; try discriminate Hm. guards Hm Hguard.
  destruct Hguard as [[[Csid Cdid] Ccid] Cconn].
  apply confirm_ok in H as (-> & rtid & Hr & Ha2); [|done..].
  cbn [events acts fst snd] in *.
  unfold agreed. cbn [registered cr_client_id cr_sid cr_nc cr_pl cr_camera_id cr_addr].
  split_and!; [done..| | |].
  - exists t', c, src'. split_and!; try done. apply Hev. rewrite He. by right.
  - intros _. split; [done|]. eexists _, _. split; [exact Hin|done].
  - eexists tid, rtid, _, _, n. split; [done|]. split; [done|]. split; [exact Htid|]. split.
    + by destruct way.
    + rewrite Ha', Ha2, Ha1, Ha. destruct way; try done; cbn [handshake]; by rewrite <- !app_assoc.
Qed.

Lemma client_initiated_dev_ok r w result w' :
  client_initiated_dev r w = (Some (Ok result), w') -> agreed ClientDev r w result w'.
Proof.
  intros H. unfold client_initiated_dev in H. do 3 unbind. unbind. destruct x1 as [faddr did].
  apply generate_tid_ok in E as (Ht0 & He0 & Ha0).
  apply retry_send_ok in E1 as (tid & n & [t' p] & src' & Hm & Hin' & _ & Ht & Htid & Ha1).
  destruct p as [| | | | |c| | | | | | | | | | | | | | | | | | | | | | |]; try discriminate Hm. guards Hm Hguard.
  destruct Hguard as [Ccid Csid].
  apply with_permit_ok in H as (evs & w1 & He & H & _ & Ha').
  apply confirm_ok in H as (-> & rtid & Hr & Ha2); [|done..]. cbn [events acts fst snd] in *.
  unfold agreed. cbn [registered cr_client_id cr_sid cr_nc cr_pl cr_camera_id cr_addr].
  split_and!; [done..| |intros []|].
  - eexists t', c, _. rewrite <- He0. split; [exact Hin'|done].
  - eexists tid, rtid, x, _, n. split; [done|]. split; [done|]. split; [exact Htid|]. split; [eauto|].
    rewrite Ha', Ha2, Ha1, Ha0. unfold handshake. cbn [conn_name app]. by rewrite <- !app_assoc.
Qed.

Lemma client_initiated_relay_ok r w result w' :
  client_initiated_relay r w = (Some (Ok result), w') -> agreed ClientRelay r w result w'.
Proof.
  intros H. unfold client_initiated_relay in H. do 2 unbind.
  apply generate_tid_ok in E as (Ht0 & He0 & Ha0).
  unfold from_option in E0. destruct (relay r) as [a|] eqn:Er; [|done]. injection E0 as <- <-.
  apply with_permit_ok in H as (evs & w9 & He & H & _ & Ha'). unbind. destruct x0 as [faddr did].
  apply retry_send_ok in E as (tid & n & [t' p] & src' & Hm & Hin' & _ & Ht & Htid & Ha1).
  destruct p as [| | | | |c| | | | | | | | | | | | | | | | | | | | | | |]; try discriminate Hm. guards Hm Hguard.
  destruct Hguard as [[Ccid Csid] Cconn].
  apply confirm_ok in H as (-> & rtid & Hr & Ha2); [|done..]. cbn [events acts fst snd] in *.
  unfold agreed. cbn [registered cr_client_id cr_sid cr_nc cr_pl cr_camera_id cr_addr].
  split_and!; [done..| |intros []|].
  - eexists t', c, _. rewrite <- He0, He. split; [right; exact Hin'|done].
  - eexists tid, rtid, x, _, n. split; [done|]. split; [done|]. split; [exact Htid|]. split; [eauto|].
    rewrite Ha', Ha2, Ha1, Ha0. unfold handshake. cbn [conn_name app]. by rewrite <- !app_assoc.
Qed.

Lemma connect_by_ok way r w result w' :
  connect_by way r w = (Some (Ok result), w') -> agreed way r w result w'.
Proof.
  destruct way; cbn [connect_by]; [by apply (device_initiated_ok DeviceDev)|by apply (device_initiated_ok DeviceMap)
    |apply client_initiated_dev_ok|apply client_initiated_relay_ok].
Qed.

(** C32: Whatever way a registered camera is reached, the
    connection that is returned carries the client's number and the session the
    register gave; a confirmation with that session and number came from the
    camera, and its number for the camera is the one returned. A way the camera
    starts ends at the address the register mapped it to, from where the camera
    asked for this session; one the client starts ends where the confirmation
    came from. Nothing is sent but the question to the camera, repeated, five
    notices to the register that name exactly this connection, and the
    heartbeats, begun at the address returned; and the semaphore is taken, closed
    and given back. *)
Theorem connection_agreed way r w result w' :
  connect_by way r w = (Some (Ok result), w') -> agreed way r w result w'.
Proof. apply connect_by_ok. Qed.

Lemma agreed_ops way r w result w' :
  agreed way r w result w' ->
  Semaphore.ops (acts w') = Semaphore.ops (acts w) ++ [Semaphore.Acquire true; Semaphore.Close; Semaphore.Release].
Proof.
  intros (_ & _ & _ & _ & _ & _ & tid & rtid & ktid & dest & n & _ & _ & _ & _ & ->).
  assert (forall p dest n, Semaphore.ops (replicate n (ASend p dest)) = []) as Hs.
  { intros p d m. induction m as [|m IH]; [done|exact IH]. }
  unfold Semaphore.ops in *. rewrite !omap_app. f_equal. unfold confirmation. rewrite omap_app, Hs.
  destruct way; unfold handshake; cbn [app]; cbn [omap list_omap Semaphore.op_of]; rewrite ?omap_app, ?Hs; done.
Qed.

(** Several ways to one camera may run at once, in any
    interleaving their semaphore admits, and others may be dropped half way; at
    most one of them returns a connection, so the register hears of at most one
    connection to its end. *)
Theorem one_way_wins r trace s i j wayi wayj wi wj resi resj wi' wj' :
  Semaphore.run Semaphore.init trace = Some s ->
  acts wi = [] -> acts wj = [] ->
  connect_by wayi r wi = (Some (Ok resi), wi') -> Semaphore.part i trace = Semaphore.ops (acts wi') ->
  connect_by wayj r wj = (Some (Ok resj), wj') -> Semaphore.part j trace = Semaphore.ops (acts wj') ->
  i = j.
Proof.
  intros Hrun Hi Hj Hri Hpi Hrj Hpj.
  apply connect_by_ok, agreed_ops in Hri. apply connect_by_ok, agreed_ops in Hrj.
  rewrite Hri, Hi in Hpi. rewrite Hrj, Hj in Hpj. by eapply Semaphore.one_closes.
Qed.

(** *** What a subscriber sees *)

Module ReaderFacts.
Import Reader.

Definition waiting (d : Discoverer) (c : nat) : list Item :=
  match channels d !! c with Some ch => queue ch | None => [] end.

(** What the receiver of [c] takes out while [ls] happen. *)
Fixpoint taken (c : nat) (d : Discoverer) (ls : list Label) : list Item :=
  match ls with
  | [] => []
  | l :: ls =>
      (match l with Take c' => if decide (c' = c) then take 1 (waiting d c) else [] | _ => [] end)
      ++ match step d l with Some d => taken c d ls | None => [] end
  end.

(** The packets of one transaction. *)
Definition packets (t : Z) (ls : list Label) : list Item :=
  omap (fun l => match l with
                 | Discovered p addr => if decide (fst p = t) then Some (Ok (p, addr)) else None
                 | _ => None
                 end) ls.

(** The receiver takes its items before the channel is full. *)
Fixpoint keeps_up (c : nat) (t : Z) (d : Discoverer) (ls : list Label) : Prop :=
  match ls with
  | [] => True
  | l :: ls =>
      (match l with Discovered p _ => fst p = t -> (length (waiting d c) < CAPACITY)%nat | _ => True end)
      /\ match step d l with Some d => keeps_up c t d ls | None => True end
  end.

(** [c] is the channel of transaction [t], alive and nobody else's. *)
Definition owns (d : Discoverer) (t : Z) (c : nat) : Prop :=
  0 < t /\ subsribers d !! t = Some c /\ (exists q, channels d !! c = Some (MkChannel q true))
  /\ (forall t', subsribers d !! t' = Some c -> t' = t) /\ ~ In c (handlers d) /\ removing d <> Some t.

(** Steps that leave the receiver and the socket in place. *)
Definition quiet (c : nat) (l : Label) : Prop :=
  match l with DropReceiver c' => c' <> c | SocketError _ => False | _ => True end.

Lemma try_send_other c c' item chans : c' <> c -> snd (try_send c' item chans) !! c = chans !! c.
Proof.
  intros H. unfold try_send. destruct (chans !! c') as [ch|]; [|done]. repeat case_match; try done.
  cbn [snd]. by rewrite list_lookup_insert_ne.
Qed.

Lemma try_send_all_other c hs item chans :
  ~ In c hs -> fold_left (fun chans c => snd (try_send c item chans)) hs chans !! c = chans !! c.
Proof.
  revert chans. induction hs as [|h hs IH]; intros chans H; [done|]. cbn [fold_left].
  rewrite IH by (intros ?; apply H; by right). apply try_send_other. intros ->. apply H. by left.
Qed.

Lemma alter_other (f : Channel -> Channel) c c' (chans : list Channel) :
  c' <> c -> alter f c' chans !! c = chans !! c.
Proof. apply list_lookup_alter_ne. Qed.

Lemma waiting_eq d c q b : channels d !! c = Some (MkChannel q b) -> waiting d c = q.
Proof. unfold waiting. by intros ->. Qed.

(** What one step does to [c]: the receiver takes [out], the reader puts in
    [kept]. *)
Definition moves (t : Z) (c : nat) (d : Discoverer) (l : Label) (d' : Discoverer) : Prop :=
  owns d' t c /\ exists kept, sublist kept (packets t [l])
    /\ (match l with Take c' => if decide (c' = c) then take 1 (waiting d c) else [] | _ => [] end)
       ++ waiting d' c = waiting d c ++ kept
    /\ ((match l with Discovered p _ => fst p = t -> (length (waiting d c) < CAPACITY)%nat | _ => True end) ->
        kept = packets t [l]).

(** A step that touches neither the channel nor the packets of [t]. *)
Lemma moves_none t c d l d' :
  owns d' t c -> channels d' !! c = channels d !! c -> packets t [l] = [] ->
  (match l with Take c' => c' <> c | _ => True end) -> moves t c d l d'.
Proof.
  intros Ho Hc Hp Ht. split; [done|]. exists []. split; [apply sublist_nil_l|]. rewrite app_nil_r.
  unfold waiting. rewrite Hc, Hp. split; [|done]. destruct l; try done. by rewrite decide_False.
Qed.

Lemma packet_moves t c d p addr :
  owns d t c -> moves t c d (Discovered p addr) (on_packet p addr d).
Proof.
  intros (Ht & Hs & (q & Hq) & Hu & Hh & Hr). unfold on_packet. destruct (decide (fst p = t)) as [Hpt|Hpt].
  - rewrite Hpt, Hs. cbn [mbind option_bind]. rewrite (proj2 (Z.ltb_lt 0 t) Ht). unfold try_send. rewrite Hq.
    cbn [opened negb queue]. unfold moves, waiting, packets. cbn [omap list_omap].
    rewrite (decide_True (P := fst p = t)) by done. rewrite Hq. cbn [queue].
    destruct (Nat.leb_spec CAPACITY (length q)) as [Hf|Hf]; cbn [channels].
    + split; [unfold owns; cbn; eauto 10|]. exists []. rewrite Hq, app_nil_r. cbn [queue].
      split; [apply sublist_nil_l|]. split; [done|]. intros H. specialize (H Hpt). lia.
    + assert (<[c:=MkChannel (q ++ [Ok (p, addr)]) true]> (channels d) !! c = Some (MkChannel (q ++ [Ok (p, addr)]) true))
        as Hi by (apply list_lookup_insert_eq; by eapply lookup_lt_Some).
      split; [unfold owns; cbn; eauto 10|]. exists [Ok (p, addr)].
      rewrite list_lookup_insert_eq by (by eapply lookup_lt_Some). done.
  - assert (packets t [Discovered p addr] = []) as Hn by (unfold packets; cbn; by rewrite decide_False).
    destruct (subsribers d !! fst p) as [c2|] eqn:E; cbn [mbind option_bind].
    + assert (c2 <> c) as Hc2 by (intros ->; by apply Hpt, Hu).
      destruct (0 <? fst p).
      * pose proof (try_send_other c c2 (Ok (p, addr)) (channels d) Hc2) as Ho.
        destruct (try_send c2 _ _) as [sent chans]. cbn [snd] in Ho. apply moves_none; [|done..].
        unfold owns. cbn. rewrite Ho. split_and!; eauto. destruct sent; congruence.
      * apply moves_none; [|cbn; by apply try_send_all_other|done..].
        unfold owns. cbn. rewrite try_send_all_other by done. split_and!; eauto.
    + apply moves_none; [|cbn; by apply try_send_all_other|done..].
      unfold owns. cbn. rewrite try_send_all_other by done. split_and!; eauto.
Qed.

Lemma subscribe_moves t c d tid : owns d t c -> moves t c d (Subscribe tid) (snd (subscribe tid d)).
Proof.
  intros (Ht & Hs & (q & Hq) & Hu & Hh & Hr). pose proof (lookup_lt_Some _ _ _ Hq) as Hlt.
  assert ((channels d ++ [MkChannel [] true]) !! c = channels d !! c) as Ha by by apply lookup_app_l.
  assert (tid <> t -> forall h, ~ In c h -> moves t c d (Subscribe tid)
            (MkDiscoverer (channels d ++ [MkChannel [] true]) (<[tid := length (channels d)]> (subsribers d)) h
               (removing d) (running d))) as Hadd.
  { intros Hne h Hc. apply moves_none; [|done..]. unfold owns. cbn. rewrite Ha, lookup_insert_ne by done.
    split_and!; eauto; try congruence. intros t'. destruct (decide (t' = tid)) as [->|]; [|rewrite lookup_insert_ne by done; apply Hu].
    rewrite lookup_insert_eq. intros [= E]. lia. }
  assert (moves t c d (Subscribe tid) d) as Hsame by (apply moves_none; [unfold owns; eauto 10|done..]).
  unfold subscribe. destruct (0 <? tid).
  - destruct (subsribers d !! tid) as [old|] eqn:E.
    + destruct (decide (tid = t)) as [->|].
      * assert (old = c) as -> by congruence. by rewrite Hq.
      * case_match; [done|]. by apply Hadd.
    + apply Hadd; [|done]. intros ->. congruence.
  - apply moves_none; [|done..]. unfold owns. cbn. rewrite Ha. split_and!; eauto. rewrite in_app_iff.
    intros [|[H|[]]]; [done|]. lia.
Qed.

Lemma step_moves t c d l d' :
  owns d t c -> quiet c l -> step d l = Some d' -> moves t c d l d'.
Proof.
  intros Ho Hq Hstep. pose proof Ho as (Ht & Hs & (q & Hc) & Hu & Hh & Hr).
  assert (moves t c d OtherPacket d) as Hsame by by apply moves_none.
  destruct l as [p addr| | |e| |tid|c'|c']; cbn [step quiet] in *; try destruct (_ && _); try done;
    cbn [mbind option_bind] in Hstep; injection Hstep as <-.
  - by apply packet_moves.
  - done.
  - unfold on_remove. destruct (removing d) as [r|] eqn:E; [|by apply moves_none].
    assert (r <> t) by congruence. apply moves_none; [|done..]. unfold owns. cbn. rewrite lookup_delete_ne by done.
    split_and!; eauto; try congruence. intros t' [_ H']%lookup_delete_Some. by apply Hu.
  - apply moves_none; [|done..]. unfold owns. cbn. split_and!; eauto; congruence.
  - by apply subscribe_moves.
  - destruct (decide (c' = c)) as [->|Hne].
    + assert (alter (fun ch => MkChannel (drop 1 (queue ch)) (opened ch)) c (channels d) !! c
              = Some (MkChannel (drop 1 q) true)) as Ha by by rewrite list_lookup_alter_eq, Hc.
      split; [unfold owns; cbn; eauto 10|]. exists []. split; [apply sublist_nil_l|].
      rewrite decide_True, app_nil_r by done. unfold waiting. cbn. rewrite Ha, Hc. cbn [queue].
      split; [apply take_drop|done].
    + pose proof (alter_other (fun ch => MkChannel (drop 1 (queue ch)) (opened ch)) c c' (channels d) Hne) as Ha.
      apply moves_none; try done. unfold owns. cbn. rewrite Ha. split_and!; eauto.
  - pose proof (alter_other (fun ch => MkChannel [] false) c c' (channels d) Hq) as Ha.
    apply moves_none; try done. unfold owns. cbn. rewrite Ha. split_and!; eauto.
Qed.

Lemma packets_cons t l ls : packets t (l :: ls) = packets t [l] ++ packets t ls.
Proof. by apply (omap_app _ [l] ls). Qed.

Lemma run_moves t c d ls d' :
  owns d t c -> Forall (quiet c) ls -> run d ls = Some d' ->
  exists kept, sublist kept (packets t ls) /\ taken c d ls ++ waiting d' c = waiting d c ++ kept
    /\ (keeps_up c t d ls -> kept = packets t ls).
Proof.
  revert d. induction ls as [|l ls IH]; intros d Ho Hq Hrun.
  - injection Hrun as <-. exists []. by rewrite app_nil_r.
  - inversion Hq as [|? ? Hl Hls]; subst. cbn [run] in Hrun. destruct (step d l) as [d1|] eqn:E; [|done].
    destruct (step_moves _ _ _ _ _ Ho Hl E) as (Ho1 & k1 & Hs1 & Hw1 & Hk1).
    destruct (IH d1 Ho1 Hls Hrun) as (k2 & Hs2 & Hw2 & Hk2). exists (k1 ++ k2). rewrite packets_cons.
    split; [by apply sublist_app|]. cbn [taken keeps_up]. rewrite E. split.
    + by rewrite <- app_assoc, Hw2, !app_assoc, Hw1.
    + intros [H1 H2]. by rewrite Hk1, Hk2.
Qed.

End ReaderFacts.

(** An exchange sees the packets of its
    own transaction and no others, in the order of their arrival, however the
    reader, the other exchanges and their ends interleave; and it sees every one
    of them if it takes them before ten are waiting. A full channel costs packets
    of that transaction only: the reader never waits for it. *)
Theorem exchange_sees t c d ls d' :
  ReaderFacts.owns d t c -> Forall (ReaderFacts.quiet c) ls -> Reader.run d ls = Some d' ->
  exists kept, sublist kept (ReaderFacts.packets t ls)
    /\ ReaderFacts.taken c d ls ++ ReaderFacts.waiting d' c = ReaderFacts.waiting d c ++ kept
    /\ (ReaderFacts.keeps_up c t d ls -> kept = ReaderFacts.packets t ls).
Proof. apply ReaderFacts.run_moves. Qed.

(** A subscription gives such a channel, unless an older one of the same number
    still waits to be removed; *)
Lemma subscribe_owns t c d d' :
  0 < t -> (forall t' c', Reader.subsribers d !! t' = Some c' -> (c' < length (Reader.channels d))%nat) ->
  Forall (fun h => (h < length (Reader.channels d))%nat) (Reader.handlers d) -> Reader.removing d <> Some t ->
  Reader.subscribe t d = (Ok c, d') -> ReaderFacts.owns d' t c.
Proof.
  intros Ht Hs Hh Hr. unfold Reader.subscribe. rewrite (proj2 (Z.ltb_lt 0 t) Ht).
  set (d1 := Reader.MkDiscoverer _ (<[t := _]> _) _ _ _). intros H.
  assert ((Ok (length (Reader.channels d)), d1) = (Ok c, d') :> result nat Error * Reader.Discoverer) as [= <- <-].
  { destruct (Reader.subsribers d !! t); [|done]. by destruct (match Reader.channels d !! n with Some ch => _ | None => _ end). }
  unfold ReaderFacts.owns, d1. cbn. rewrite lookup_insert_eq, lookup_app_r, Nat.sub_diag by done. split_and!; eauto.
  - intros t'. destruct (decide (t' = t)) as [|]; [done|]. rewrite lookup_insert_ne by done. intros E%Hs. lia.
  - intros E. rewrite List.Forall_forall in Hh. apply Hh in E. lia.
Qed.

(** in which case the reader removes the new one in its place. *)
Definition late_labels : list Reader.Label :=
  [Reader.Subscribe 5; Reader.DropReceiver 0; Reader.Discovered (5, XR2cDisc (MkR2cDisc 0)) (MkSocketAddr LOCALHOST4 1);
   Reader.Subscribe 5; Reader.Remove].

Theorem late_removal :
  exists d, Reader.run Reader.new late_labels = Some d
    /\ Reader.channels d !! 1%nat = Some (Reader.MkChannel [] true) /\ Reader.subsribers d !! 5 = None.
Proof. eexists. split; [reflexivity|]. by split; vm_compute. Qed.

(** ** At work *)

Definition registration : RegisterResult :=
  MkRegisterResult (host 2 58200) (Some (host 9 5000)) (Some (host 9 5000)) None 7 99.

(** A camera that comes by itself, repeats itself, and confirms. *)
Definition camera_comes : World :=
  MkWorld ([Subscribed None; Got (Ok ((41, XD2cT (MkD2cT 99 (lit "local") 8 3)), host 66 1));
            Got (Ok ((41, XD2cT (MkD2cT 99 (lit "local") 7 3)), host 9 5000)); Permit true; Subscribed None; Tick None;
            Got (Ok ((41, XD2cT (MkD2cT 99 (lit "local") 7 3)), host 9 5000)); Tick None;
            Got (Ok ((41, XD2cCfm (MkD2cCfm 99 (lit "local") 0 7 3 None)), host 9 5000))] ++ replicate 5 (Tick None))
    [600] [].

(** Meanwhile the client's own attempt, confirmed too, asks for the permit. *)
Definition client_asks : World :=
  MkWorld [Subscribed None; Tick None; Got (Ok ((50, XD2cCfm (MkD2cCfm 99 (lit "local") 0 7 3 None)), host 9 5000));
           Permit false] [50; 601] [].

Definition answer : ConnectResult := MkConnectResult (host 9 5000) 7 3 99 None None.

Lemma connection_agreed_witness :
  exists w', agreed DeviceDev registration camera_comes answer w' /\ length (acts w') = 13%nat.
Proof.
  eexists. split; [apply (connection_agreed DeviceDev registration camera_comes answer); vm_compute; reflexivity|].
  vm_compute. reflexivity.
Defined.

Lemma one_way_wins_witness : 0%nat = 0%nat.
Proof.
  refine (one_way_wins registration
            [(0, Semaphore.Acquire true); (0, Semaphore.Close); (1, Semaphore.Acquire false); (0, Semaphore.Release)]%nat
            _ 0 0 DeviceDev DeviceDev camera_comes camera_comes answer answer _ _ _ _ _ _ _ _ _);
    vm_compute; reflexivity.
Defined.

(** The other one has the trace of a way refused. *)
Example other_refused :
  let '(r, w) := connect_by ClientDev registration client_asks in
  r = Some (Err (Other (lit "Discovery already complete"))) /\ Semaphore.ops (acts w) = [Semaphore.Acquire false].
Proof. vm_compute. by split. Qed.

Definition p5 (n : Z) : Packet := (5, XR2cDisc (MkR2cDisc n)).

Definition busy : list Reader.Label :=
  [Reader.Discovered (p5 1) (host 9 1); Reader.Discovered (6, XR2cDisc (MkR2cDisc 9)) (host 9 2); Reader.OtherPacket; Reader.Take 0;
   Reader.Discovered (p5 2) (host 9 1); Reader.Subscribe 6; Reader.Remove].

Definition subscribed : Reader.Discoverer := snd (Reader.subscribe 5 Reader.new).

Lemma exchange_sees_witness : exists d' kept,
  sublist kept (ReaderFacts.packets 5 busy)
  /\ ReaderFacts.taken 0 subscribed busy ++ ReaderFacts.waiting d' 0 = kept
  /\ kept = [Ok (p5 1, host 9 1); Ok (p5 2, host 9 1)].
Proof.
  destruct (Reader.run subscribed busy) as [d'|] eqn:E; [|exfalso; vm_compute in E; congruence].
  destruct (exchange_sees 5 0 subscribed busy d') as (kept & Hs & Ht & Hk).
  - apply (subscribe_owns 5 0 Reader.new); [lia|intros t c H; change ((∅ : gmap Z nat) !! t = Some c) in H; by rewrite lookup_empty in H|constructor|done|reflexivity].
  - repeat constructor.
  - exact E.
  - exists d', kept. split; [exact Hs|]. split; [rewrite Ht; reflexivity|]. rewrite Hk; [reflexivity|].
    cbn [ReaderFacts.keeps_up busy]. vm_compute. repeat split; intros; lia.
Defined.

