(* ===== verification/FindCamera.v ===== *)
(** * Finding a camera ([src/baichuan/bc_protocol.rs], [resolution.rs] and the
    methods of [Discovery] in [connection/discovery.rs])

    [find_camera_with_discoverer] is the chain of methods: TCP on the known
    addresses, then a local broadcast against the registered methods, which
    first register at the relays in rounds. What runs at once is given as the
    order in which it ends; an arm of a [select!] that is not in the order has
    not ended. Durations are in milliseconds, backoffs in seconds. *)

From S2P Require Import Prelude Wire Text BcUdp BcUdpXml WakeServer Discovery.

(** ** Methods ([resolution.rs]) *)

Inductive DiscoveryMethods := MNone | MLocal | MRemote | MMap | MRelay | MCellular | MCloud | MDebug.

Record DiscoveryFlags := MkDiscoveryFlags { f_local : bool; f_remote : bool; f_map : bool; f_relay : bool }.

Definition discovery_flags_for (method : DiscoveryMethods) : DiscoveryFlags :=
  match method with
  | MNone => MkDiscoveryFlags false false false false
  | MLocal => MkDiscoveryFlags true false false false
  | MRemote => MkDiscoveryFlags true true false false
  | MMap => MkDiscoveryFlags true true true false
  | MRelay | MCloud => MkDiscoveryFlags true true true true
  | MCellular => MkDiscoveryFlags false false true true
  | MDebug => MkDiscoveryFlags false false true false
  end.

Definition is_uid_shape (s : str) : bool :=
  (byte_len s =? 16) && forallb (fun b => in_range 48 57 b || in_range 65 90 b) (as_bytes s).

Inductive SocketAddrOrUid :=
| OrSocketAddr (a : SocketAddr)
| OrUid (uid : str) (addrs : option (list SocketAddr)) (method : DiscoveryMethods).

(** The resolver's answer first; its error unless the text is a UID. *)
Definition to_socket_addrs_or_uid (s : str) (resolved : result (list SocketAddr) str)
    : result (list SocketAddrOrUid) str :=
  match resolved with
  | Ok addrs => Ok (map OrSocketAddr addrs)
  | Err e => if is_uid_shape s then Ok [OrUid s None MLocal] else Err e
  end.

(** ** [select!] *)

(** The arms [Ok(v) = ..., if enabled]: an arm that ends in an error is taken
    out; with none left the [else] branch is taken. *)
Fixpoint select {A T} `{EqDecision A} (enabled : list A) (ended : list (A * result T Error)) : option (result T Error) :=
  match enabled with
  | [] => Some (Err DiscoveryTimeout)
  | _ =>
      match ended with
      | [] => None
      | (a, r) :: ended =>
          if bool_decide (a ∈ enabled) then
            match r with
            | Ok v => Some (Ok v)
            | Err _ => select (filter (fun b => b <> a) enabled) ended
            end
          else select enabled ended
      end
  end.

(** The arms [v = ...]: whichever ends first, in an error or not. *)
Definition race {T} (ended : list (result T Error)) : option (result T Error) := head ended.

(** ** The methods of [Discovery] *)

Record DiscoveryResult := MkDiscoveryResult {
  disc_addr : SocketAddr;
  disc_client_id : Z;
  disc_camera_id : Z;
  disc_nc : option Z;
  disc_pl : option str
}.

(** The nonce goes with its offer, once. *)
Definition take_sigv3_handshake (d : DiscoveryResult) : option (Z * str) * DiscoveryResult :=
  (match disc_nc d, disc_pl d with Some nc, Some pl => Some (nc, pl) | _, _ => None end,
   MkDiscoveryResult (disc_addr d) (disc_client_id d) (disc_camera_id d) None None).

Definition found (client_id : Z) (r : ConnectResult) : DiscoveryResult :=
  MkDiscoveryResult (cr_addr r) client_id (cr_camera_id r) (cr_nc r) (cr_pl r).

Definition found_by (client_id : Z) (r : option (result ConnectResult Error)) : option (result DiscoveryResult Error) :=
  match r with
  | Some (Ok r) => Some (Ok (found client_id r))
  | Some (Err e) => Some (Err e)
  | None => None
  end.

(** Where [local] sends, and what comes of it: the first success of the direct
    connects, which end in the order [ended]. *)
Definition local_dests (ifaces : result (list Interface) Error) (optional_addrs : option (list SocketAddr))
    : result (list SocketAddr) Error :=
  let? dests := get_broadcasts ifaces [2015; 2018] in
  Ok (dests ++ match optional_addrs with Some l => l | None => [] end).

Fixpoint first_ok {T} (running : nat) (ended : list (result T Error)) : option (result T Error) :=
  match running with
  | O => Some (Err DiscoveryTimeout)
  | S running =>
      match ended with
      | [] => None
      | Ok v :: _ => Some (Ok v)
      | Err _ :: ended => first_ok running ended
      end
  end.

Definition local (ifaces : result (list Interface) Error) (optional_addrs : option (list SocketAddr))
    (ended : list (result ConnectResult Error)) : option (result DiscoveryResult Error) :=
  match local_dests ifaces optional_addrs with
  | Err e => Some (Err e)
  | Ok dests =>
      match first_ok (length dests) ended with
      | Some (Ok r) => Some (Ok (found (cr_client_id r) r))
      | Some (Err e) => Some (Err e)
      | None => None
      end
  end.

Definition remote (client_id : Z) (ended : list (result ConnectResult Error)) : option (result DiscoveryResult Error) :=
  found_by client_id (race ended).

Definition map_ (client_id : Z) (connected : option (result ConnectResult Error))
    : option (result DiscoveryResult Error) :=
  found_by client_id connected.

Definition relay_ (client_id : Z) (connected : option (result ConnectResult Error))
    : option (result DiscoveryResult Error) :=
  found_by client_id connected.

(** *** Registering at the relays *)

(** Every relay's addresses, tagged with its name, and the names that do not
    resolve. *)
Definition resolve_relay_addrs (resolve : str -> result (list SocketAddr) str)
    : list (str * SocketAddr) * list (str * str) :=
  (flat_map (fun host => match resolve host with Ok l => map (pair host) l | Err _ => [] end) P2P_RELAY_HOSTNAMES,
   omap (fun host => match resolve host with Ok _ => None | Err e => Some (host, e) end) P2P_RELAY_HOSTNAMES).

(** What ends in an attempt: its lookup, then its registration. *)
Inductive Progress :=
| LookedUp (r : result UidLookupResults Error)
| Registered (r : result RegisterResult Error).

Record Attempts := MkAttempts {
  live : list nat;
  checked : list SocketAddr;
  failures : list (str * str);
  registering : list (nat * UidLookupResults)
}.

Definition failed (targets : list (str * SocketAddr)) (i : nat) (why : str) (s : Attempts) : Attempts :=
  MkAttempts (filter (fun j => j <> i) (live s)) (checked s)
    (failures s ++ [(match targets !! i with Some t => fst t | None => [] end, why)]) (registering s).

Definition no_relay (failures : list (str * str)) : Error :=
  let detail := join (lit ", ") (map (fun f => fst f ++ lit " (" ++ snd f ++ lit ")") failures) in
  DiscoveryNoRelay (match detail with [] => lit "no relays resolved" | _ => detail end).

(** One future per relay address, all over one discoverer. *)
Fixpoint attempt_all (targets : list (str * SocketAddr)) (progress : list (nat * Progress)) (s : Attempts)
    : option (result RegisterResult Error) * Attempts :=
  match live s with
  | [] => (Some (Err (no_relay (failures s))), s)
  | _ =>
      match progress with
      | [] => (None, s)
      | (i, LookedUp (Err e)) :: progress =>
          attempt_all targets progress (failed targets i (lit "query failed: " ++ show_error e) s)
      | (i, LookedUp (Ok lookup)) :: progress =>
          if bool_decide (lookup_reg lookup ∈ checked s) then
            attempt_all targets progress (failed targets i (lit "duplicate reg server") s)
          else
            attempt_all targets progress
              (MkAttempts (live s) (lookup_reg lookup :: checked s) (failures s) (registering s ++ [(i, lookup)]))
      | (i, Registered (Ok r)) :: _ => (Some (Ok r), s)
      | (i, Registered (Err e)) :: progress =>
          attempt_all targets progress (failed targets i (lit "register refused: " ++ show_error e) s)
      end
  end.

Definition get_registration (targets : list (str * SocketAddr)) (progress : list (nat * Progress))
    : option (result RegisterResult Error) * Attempts :=
  attempt_all targets progress (MkAttempts (seq 0 (length targets)) [] [] []).

(** ** The chain ([find_camera_with_discoverer]) *)

Inductive ConnectionProtocol := TcpUdp | Tcp | Udp.

(** The options that the chain reads. *)
Record BcCameraOpt := MkBcCameraOpt {
  opt_addrs : list IpAddr;
  opt_uid : option str;
  opt_port : option Z;
  opt_protocol : ConnectionProtocol;
  opt_discovery : DiscoveryMethods;
  opt_max_discovery_retries : Z
}.

Definition pick_tcp_sockets (addrs : list IpAddr) (port : option Z) : list SocketAddr :=
  match port with
  | Some 9000 | None => map (fun a => MkSocketAddr a 9000) addrs
  | Some n => flat_map (fun a => [MkSocketAddr a n; MkSocketAddr a 9000]) addrs
  end.

Definition pick_udp_sockets (addrs : list IpAddr) (port : option Z) : list SocketAddr :=
  match port with
  | None | Some 2015 | Some 2018 => flat_map (fun a => [MkSocketAddr a 2018; MkSocketAddr a 2015]) addrs
  | Some n => flat_map (fun a => [MkSocketAddr a n; MkSocketAddr a 2015; MkSocketAddr a 2018]) addrs
  end.

Inductive CameraLocation := LocTcp (a : SocketAddr) | LocUdp (d : DiscoveryResult).

Definition REGISTRATION_ROUND_TIMEOUT : Z := 8000.

(** A round of registration as the chain sees it: [None] when it exceeds its
    time. *)
Definition Round : Type := option (result RegisterResult Error).

Definition round_error (r : Round) : option Error :=
  match r with Some (Ok _) => None | Some (Err e) => Some e | None => Some DiscoveryTimeout end.

(** In seconds; a 64-bit shift by at most five. *)
Definition backoff (retry : Z) : Z := Z.min (Z.shiftl 1 (Z.min retry 5)) 30.

(** Rounds and the discoverers made for them, in turn. The pauses taken are
    returned too. *)
Fixpoint register_rounds (max_retry retry : Z) (rounds : list Round) (factory : list (option Error))
    : option (result RegisterResult Error) * list Z :=
  match rounds with
  | [] => (None, [])
  | r :: rounds =>
      match r with
      | Some (Ok v) => (Some (Ok v), [])
      | _ =>
          let round_err := default DiscoveryTimeout (round_error r) in
          if (max_retry <=? retry) && (0 <? max_retry) then (Some (Err round_err), [])
          else
            let pause := backoff retry in
            match factory with
            | [] => (None, [pause])
            | Some e :: _ => (Some (Err e), [pause])
            | None :: factory =>
                let '(v, pauses) := register_rounds max_retry (retry + 1) rounds factory in (v, pause :: pauses)
            end
      end
  end.

Inductive Arm := ARemote | AMap | ARelay.

#[export] Instance Arm_eq_dec : EqDecision Arm.
Proof. solve_decision. Defined.

Inductive OuterArm := OLocal | ORegistered.

#[export] Instance OuterArm_eq_dec : EqDecision OuterArm.
Proof. solve_decision. Defined.

Definition arms (f : DiscoveryFlags) : list Arm :=
  (if f_remote f then [ARemote] else []) ++ (if f_map f then [AMap] else []) ++ (if f_relay f then [ARelay] else []).

Definition outer_arms (f : DiscoveryFlags) : list OuterArm :=
  (if f_local f then [OLocal] else [])
  ++ (if f_remote f || f_map f || f_relay f then [ORegistered] else []).

(** What happens while the chain runs: the probes of the TCP sockets, the local
    broadcast, the rounds, the registered arms in the order they end (map and
    relay after their pauses of 250 and 500 ms), and whether the local arm ends before the registered one. *)
Record Script := MkScript {
  probes : SocketAddr -> result unit Error;
  local_result : option (result DiscoveryResult Error);
  factory : list (option Error);
  rounds : list Round;
  connected : RegisterResult -> list (Arm * result DiscoveryResult Error);
  local_first : bool
}.

Definition registered_arm (o : BcCameraOpt) (f : DiscoveryFlags) (s : Script)
    : option (result DiscoveryResult Error) * list Z :=
  match factory s with
  | [] => (None, [])
  | Some e :: _ => (Some (Err e), [])
  | None :: fs =>
      let '(r, pauses) := register_rounds (opt_max_discovery_retries o) 0 (rounds s) fs in
      (match r with
       | None => None
       | Some (Err e) => Some (Err e)
       | Some (Ok reg) => select (arms f) (connected s reg)
       end, pauses)
  end.

(** The outer arms in the order they end. *)
Definition outer_ended (o : BcCameraOpt) (f : DiscoveryFlags) (s : Script)
    : list (OuterArm * result DiscoveryResult Error) :=
  let ended arm r := match r with Some r => [(arm, r)] | None => [] end in
  let l := ended OLocal (local_result s) in
  let r := ended ORegistered (fst (registered_arm o f s)) in
  if local_first s then l ++ r else r ++ l.

Definition answers (s : Script) (a : SocketAddr) : bool := match probes s a with Ok _ => true | Err _ => false end.

Definition find_camera_with_discoverer (o : BcCameraOpt) (s : Script) : option (result CameraLocation Error) :=
  let tcp := match opt_protocol o with
             | Tcp | TcpUdp => List.find (answers s) (pick_tcp_sockets (opt_addrs o) (opt_port o))
             | Udp => None
             end in
  match tcp with
  | Some socket => Some (Ok (LocTcp socket))
  | None =>
      match opt_uid o, opt_protocol o with
      | Some _, (Udp | TcpUdp) =>
          let f := discovery_flags_for (opt_discovery o) in
          match select (outer_arms f) (outer_ended o f s) with
          | Some (Ok d) => Some (Ok (LocUdp d))
          | Some (Err e) => Some (Err e)
          | None => None
          end
      | _, _ => Some (Err CannotInitCamera)
      end
  end.

(** Account cameras ask for sigV3 ([find_camera]). *)
Definition asks_sigv3 (o : BcCameraOpt) : bool := match opt_discovery o with MCloud => true | _ => false end.

(** ** Lemmas *)

Lemma filter_ne_subset {A} `{EqDecision A} (a : A) l b : In b (filter (fun b => b <> a) l) -> In b l.
Proof. rewrite <- !list_elem_of_In, list_elem_of_filter. by intros [_ ?]. Qed.

(** A [select!] that yields a value has it from an enabled arm; one that fails,
    fails with the [else]. *)
Lemma select_ok {A T} `{EqDecision A} (enabled : list A) (ended : list (A * result T Error)) v :
  select enabled ended = Some (Ok v) -> exists a, In a enabled /\ In (a, Ok v) ended.
Proof.
  revert enabled. induction ended as [|[a r] ended IH]; intros enabled; destruct enabled as [|b enabled]; try done.
  cbn [select]. case_bool_decide as Ha.
  - destruct r as [w|e].
    + intros [= ->]. exists a. split; [by apply list_elem_of_In|by left].
    + intros (c & Hc & Hin)%IH. exists c. split; [by eapply filter_ne_subset|by right].
  - intros (c & Hc & Hin)%IH. exists c. split; [done|by right].
Qed.

Lemma select_err {A T} `{EqDecision A} (enabled : list A) (ended : list (A * result T Error)) e :
  select enabled ended = Some (Err e) -> e = DiscoveryTimeout.
Proof.
  revert enabled. induction ended as [|[a r] ended IH]; intros enabled; destruct enabled as [|b enabled]; try done;
    cbn [select]; try by intros [= <-].
  repeat case_match; try done; apply IH.
Qed.

(** The first arm to succeed wins. *)
Lemma select_first {A T} `{EqDecision A} (enabled : list A) (before after : list (A * result T Error)) a v :
  In a enabled -> Forall (fun x => fst x <> a /\ exists e, snd x = Err e) before ->
  select enabled (before ++ (a, Ok v) :: after) = Some (Ok v).
Proof.
  revert enabled. induction before as [|[b r] before IH]; intros enabled Ha Hb.
  - destruct enabled as [|c enabled]; [done|]. cbn [app select]. rewrite bool_decide_eq_true_2; [done|].
    by apply list_elem_of_In.
  - inversion Hb as [|? ? [Hne [e He]] Hb']; subst. cbn [fst snd] in *. subst r.
    destruct enabled as [|c enabled]; [done|]. cbn [app select]. case_bool_decide.
    + apply IH; [|done]. apply list_elem_of_In, list_elem_of_filter. split; [congruence|by apply list_elem_of_In].
    + by apply IH.
Qed.

Lemma backoff_range n : 0 <= n -> 1 <= backoff n <= 30.
Proof.
  intros H. unfold backoff. split; [|lia]. apply Z.min_glb; [|lia]. rewrite Z.shiftl_1_l.
  assert (0 < 2 ^ Z.min n 5) by (apply Z.pow_pos_nonneg; lia). lia.
Qed.

(** *** Registration *)

Lemma attempt_all_registers targets progress s r s' :
  attempt_all targets progress s = (r, s') ->
  NoDup (map (fun x => lookup_reg (snd x)) (registering s)) ->
  (forall a, In a (checked s) <-> In a (map (fun x => lookup_reg (snd x)) (registering s))) ->
  NoDup (map (fun x => lookup_reg (snd x)) (registering s')).
Proof.
  revert s. induction progress as [|[i p] progress IH]; intros s; cbn [attempt_all];
    (destruct (live s) as [|j js]; [by intros [= _ <-]|]); [by intros [= _ <-]|].
  destruct p as [[lookup|e]|[v|e]]; try by intros [= _ <-].
  - case_bool_decide as Hc; [intros H Hn Hch; by apply (IH _ H)|]. intros H Hn Hch. apply (IH _ H); cbn [registering checked]; rewrite map_app; cbn.
    + apply list.NoDup_app. split; [done|]. split; [|apply NoDup_singleton]. intros a Ha ->%list_elem_of_singleton.
      apply Hc, list_elem_of_In, Hch, list_elem_of_In, Ha.
    + intros a. rewrite in_app_iff, <- Hch. cbn. tauto.
  - intros H Hn Hch. by apply (IH _ H).
  - intros H Hn Hch. by apply (IH _ H).
Qed.

(** However many relays point at one register, one attempt asks it. *)
Theorem one_registration_per_server targets progress :
  NoDup (map (fun x => lookup_reg (snd x)) (registering (snd (get_registration targets progress)))).
Proof.
  destruct (get_registration targets progress) as [r s] eqn:E.
  eapply attempt_all_registers; [exact E|constructor|done].
Qed.

(** *** Rounds *)

(** The rounds taken before a registration, or until the retries are used up:
    with [n] failed rounds before it, the pauses are the first [n] backoffs. *)
Lemma register_rounds_ok max retry failures reg rest fs gs :
  0 <= retry -> Forall (fun r => round_error r <> None) failures -> fs = replicate (length failures) None ++ gs ->
  (max <= 0 \/ retry + len failures <= max) ->
  register_rounds max retry (failures ++ Some (Ok reg) :: rest) fs =
    (Some (Ok reg), map (fun k => backoff (retry + Z.of_nat k)) (seq 0 (length failures))).
Proof.
  intros Hr Hf -> Hm. revert retry Hr Hm. induction Hf as [|r failures Hrr Hf IH]; intros retry Hr Hm; [done|].
  unfold len in *. cbn [app register_rounds length replicate] in *. rewrite Nat2Z.inj_succ in Hm.
  assert ((max <=? retry) && (0 <? max) = false) as Hg.
  { apply andb_false_iff. rewrite Z.leb_gt, Z.ltb_ge. lia. }
  rewrite Hg. destruct r as [[v|e]|]; [done|..]; rewrite IH by lia; f_equal; cbn [seq map]; rewrite Z.add_0_r; f_equal;
    rewrite <- seq_shift, map_map; apply map_ext; intros k; f_equal; lia.
Qed.

Lemma register_rounds_exhausted max retry failures last rest gs :
  0 <= retry -> 0 < max -> retry + len failures = max -> Forall (fun r => round_error r <> None) failures ->
  round_error last <> None ->
  register_rounds max retry (failures ++ last :: rest) (replicate (length failures) None ++ gs) =
    (Some (Err (default DiscoveryTimeout (round_error last))),
     map (fun k => backoff (retry + Z.of_nat k)) (seq 0 (length failures))).
Proof.
  intros Hr Hmax Hm Hf Hl. revert retry Hr Hm. induction Hf as [|r failures Hrr Hf IH]; intros retry Hr Hm.
  - unfold len in Hm. cbn [app register_rounds length] in *. rewrite (proj2 (Z.leb_le max retry)) by lia.
    rewrite (proj2 (Z.ltb_lt 0 max)) by lia. by destruct last as [[v|e]|].
  - unfold len in *. cbn [app register_rounds length replicate] in *. rewrite Nat2Z.inj_succ in Hm.
    assert ((max <=? retry) && (0 <? max) = false) as Hg.
    { apply andb_false_iff. rewrite Z.leb_gt. lia. }
    rewrite Hg. destruct r as [[v|e]|]; [done|..]; rewrite IH by lia; f_equal; cbn [seq map]; rewrite Z.add_0_r; f_equal;
      rewrite <- seq_shift, map_map; apply map_ext; intros k; f_equal; lia.
Qed.

Lemma register_rounds_inv max retry rs fs reg pauses :
  register_rounds max retry rs fs = (Some (Ok reg), pauses) ->
  exists failures rest, rs = failures ++ Some (Ok reg) :: rest /\ Forall (fun r => round_error r <> None) failures
    /\ (0 < max -> failures = [] \/ retry + len failures <= max).
Proof.
  revert retry fs pauses. induction rs as [|r rs IH]; intros retry fs pauses; [done|]. cbn [register_rounds].
  assert (round_error r <> None ->
    (if (max <=? retry) && (0 <? max) then (Some (Err (default DiscoveryTimeout (round_error r))), [])
     else match fs with
          | [] => (None, [backoff retry])
          | Some e :: _ => (Some (Err e), [backoff retry])
          | None :: fs => let '(v, pauses) := register_rounds max (retry + 1) rs fs in (v, backoff retry :: pauses)
          end) = (Some (Ok reg), pauses) ->
    exists failures rest, r :: rs = failures ++ Some (Ok reg) :: rest /\ Forall (fun r => round_error r <> None) failures
      /\ (0 < max -> failures = [] \/ retry + len failures <= max)) as Hfail.
  { intros Hr. destruct ((max <=? retry) && (0 <? max)) eqn:Hg; [done|]. destruct fs as [|[e|] fs]; try done.
    destruct (register_rounds max (retry + 1) rs fs) as [v ps] eqn:E. intros [= -> <-].
    apply IH in E as (failures & rest & -> & Hf & Hm). exists (r :: failures), rest.
    split; [done|]. split; [by constructor|]. intros Hpos. right. specialize (Hm Hpos).
    apply andb_false_iff in Hg as [Hg|Hg]; [apply Z.leb_gt in Hg|apply Z.ltb_ge in Hg; lia].
    unfold len in *. cbn [length]. destruct Hm as [->|Hm]; cbn [length] in *; lia. }
  destruct r as [[v|e]|]; [|by apply Hfail..]. intros [= -> <-]. exists [], rs. split; [done|]. split; [constructor|].
  by left.
Qed.

Lemma outer_ended_in o f s arm r :
  In (arm, r) (outer_ended o f s) ->
  match arm with OLocal => local_result s = Some r | ORegistered => fst (registered_arm o f s) = Some r end.
Proof.
  unfold outer_ended. intros H. destruct (local_first s); apply in_app_or in H as [H|H].
  all: destruct (local_result s), (fst (registered_arm o f s)); cbn in H; try done; destruct H as [[= <- <-]|[]]; done.
Qed.

Definition tcp_answers (o : BcCameraOpt) (s : Script) : option SocketAddr :=
  List.find (answers s) (pick_tcp_sockets (opt_addrs o) (opt_port o)).

(** C33: The chain finds a camera only in ways its
    options permit. Over TCP, unless the protocol is UDP only, at the first of
    the candidate sockets that answers, whatever else is possible. Over UDP only
    when the protocol allows it, a UID is known and no TCP socket answered; then
    by the local broadcast if the method has it, or by an arm the method has, on
    the registration of a round that came after failed rounds only and within
    the retries. No server is asked unless the method goes beyond the local
    network, and no stream is relayed by them unless it says so. *)
Theorem found_permitted o s loc :
  find_camera_with_discoverer o s = Some (Ok loc) ->
  let f := discovery_flags_for (opt_discovery o) in
  match loc with
  | LocTcp a => opt_protocol o <> Udp /\ tcp_answers o s = Some a
  | LocUdp d =>
      opt_protocol o <> Tcp /\ is_Some (opt_uid o) /\ (opt_protocol o = TcpUdp -> tcp_answers o s = None)
      /\ ((f_local f = true /\ local_result s = Some (Ok d))
          \/ exists arm reg failures rest, In arm (arms f) /\ In (arm, Ok d) (connected s reg)
               /\ rounds s = failures ++ Some (Ok reg) :: rest /\ Forall (fun r => round_error r <> None) failures
               /\ (0 < opt_max_discovery_retries o -> len failures <= opt_max_discovery_retries o)
               /\ opt_discovery o <> MNone /\ opt_discovery o <> MLocal
               /\ (arm = ARelay -> In (opt_discovery o) [MRelay; MCloud; MCellular]))
  end.
Proof.
  intros H f. revert H. unfold find_camera_with_discoverer. fold (tcp_answers o s) f. intros H.
  destruct (match opt_protocol o with Udp => None | _ => tcp_answers o s end) as [a|] eqn:Et.
  { injection H as <-. by destruct (opt_protocol o). }
  destruct (opt_uid o) as [uid|] eqn:Eu; [|done].
  assert (opt_protocol o <> Tcp /\ exists d, loc = LocUdp d /\ select (outer_arms f) (outer_ended o f s) = Some (Ok d))
    as (Hp & d & -> & Hs).
  { destruct (opt_protocol o); [|done|]; (split; [done|]); destruct (select _ _) as [[d|e]|]; try done;
      injection H as <-; eauto. }
  split; [done|]. split; [done|]. split; [intros Hu; by rewrite Hu in Et|].
  apply select_ok in Hs as (arm & Ha & Hin%outer_ended_in). destruct arm.
  - left. split; [|done]. unfold outer_arms in Ha. destruct (f_local f); [done|]. by destruct (_ || _), Ha.
  - right. unfold registered_arm in Hin. destruct (factory s) as [|[e|] fs]; try done.
    destruct (register_rounds _ _ _ _) as [[[reg|e]|] ps] eqn:Er; try done. cbn [fst] in Hin.
    apply select_ok in Hin as (arm & Harm & Hin). apply register_rounds_inv in Er as (failures & rest & Hr & Hf & Hm).
    exists arm, reg, failures, rest. split_and!; try done.
    + intros Hpos. destruct (Hm Hpos) as [->|?]; [|done]. unfold len. cbn [length]. lia.
    + intros E. unfold f in Harm. by rewrite E in Harm.
    + intros E. unfold f in Harm. by rewrite E in Harm.
    + intros ->. unfold f in Harm. destruct (opt_discovery o); cbn in Harm |- *; naive_solver.
Qed.

(** When the chain fails, its error says no more
    than that: nothing tried, or a time-out. What the relays answered, the reason
    the rounds of registration gave up for, does not come out of it. *)
Theorem discovery_error o s e :
  find_camera_with_discoverer o s = Some (Err e) ->
  (e = CannotInitCamera /\ (opt_uid o = None \/ opt_protocol o = Tcp)) \/ (e = DiscoveryTimeout /\ is_Some (opt_uid o)).
Proof.
  unfold find_camera_with_discoverer.
  destruct (match opt_protocol o with Udp => None | _ => _ end); [done|].
  destruct (opt_uid o) as [uid|]; [|intros [= <-]; eauto].
  destruct (opt_protocol o); try (intros [= <-]; by eauto);
    (destruct (select _ _) as [[d|e']|] eqn:Es; try done; intros [= <-]; apply select_err in Es; right; eauto).
Qed.

(** The registration of a cellular camera that no relay accepts, say. *)
Example reasons_lost reason :
  let o := MkBcCameraOpt [] (Some (lit "UID")) None Udp MCellular 1 in
  let s := MkScript (fun _ => Err CannotInitCamera) None [None; None]
             [Some (Err (DiscoveryNoRelay reason)); Some (Err (DiscoveryNoRelay reason))] (fun _ => []) false in
  registered_arm o (discovery_flags_for MCellular) s = (Some (Err (DiscoveryNoRelay reason)), [1])
  /\ find_camera_with_discoverer o s = Some (Err DiscoveryTimeout).
Proof. by split. Qed.

(** A registration without the camera's own address ends [remote] at once: its
    client arm fails before the camera's arm has heard anything. *)
Theorem remote_needs_dev client_id r tid rnd evs acts ended :
  dev r = None ->
  fst (client_initiated_dev r (Flow.MkWorld evs (tid :: rnd) acts)) = Some (Err NoDev)
  /\ remote client_id (Err NoDev :: ended) = Some (Err NoDev).
Proof. intros H. unfold client_initiated_dev, Flow.bind, Flow.generate_tid, Flow.bind, Flow.random. cbn. by rewrite H. Qed.

(** ** Addresses read back *)

Definition octets_ok (o : list Z) : Prop := length o = 4%nat /\ Forall u8 o.

(** The text ends where no digit follows. *)
Definition stops (radix : Z) (s : str) : Prop := match s with [] => True | c :: _ => digit radix c = None end.

Lemma take_digits_app radix a s ds :
  take_digits radix a = (ds, []) -> stops radix s -> take_digits radix (a ++ s) = (ds, s).
Proof.
  intros H Hs. revert ds H. induction a as [|c a IH]; intros ds H.
  - injection H as <-. cbn [app]. destruct s as [|c s]; [done|]. cbn [take_digits stops] in *. by rewrite Hs.
  - cbn [app take_digits] in *. destruct (digit radix c); [|done]. destruct (take_digits radix a) as [ds' r] eqn:E.
    injection H as <- ->. by rewrite (IH ds').
Qed.

Lemma read_number_app radix max n zero a s v :
  read_number radix max n zero a = Some (v, []) -> stops radix s -> read_number radix max n zero (a ++ s) = Some (v, s).
Proof.
  unfold read_number. destruct (take_digits radix a) as [ds r] eqn:E. intros H Hs.
  assert (r = []) as -> by (repeat case_match; congruence). rewrite (take_digits_app _ _ _ ds) by done.
  repeat case_match; congruence.
Qed.

Lemma read_octet_checked :
  check_range 256 0 (fun n => bool_decide (read_number 10 255 3 false (show_uint n) = Some (n, []))) = true.
Proof. by vm_compute. Qed.

Lemma octet_length_checked : check_range 256 0 (fun n => (length (show_uint n) <=? 3)%nat) = true.
Proof. by vm_compute. Qed.

Lemma read_octet n s : u8 n -> stops 10 s -> read_number 10 255 3 false (show_uint n ++ s) = Some (n, s).
Proof.
  intros Hn. apply read_number_app. pose proof (byte_check _ n read_octet_checked Hn) as H.
  by apply bool_decide_eq_true in H.
Qed.

Lemma parse_ipv4_show o : octets_ok o -> parse_ipv4 (show_v4 o) = Some o /\ parse_ip (show_v4 o) = Some (V4 o).
Proof.
  intros [Hl Ho]. destruct o as [|a [|b [|c [|d [|]]]]]; try done.
  inversion_clear Ho as [|? ? Ha Ho']. inversion_clear Ho' as [|? ? Hb Ho]. inversion_clear Ho as [|? ? Hc Ho'].
  inversion_clear Ho' as [|? ? Hd _].
  assert (read_ipv4_addr (show_v4 [a; b; c; d]) = Some ([a; b; c; d], [])) as Hr.
  { unfold read_ipv4_addr, show_v4, join. cbn [map concat app].
    rewrite app_nil_r. cbn [read_octets separated].
    assert (forall s, stops 10 (46 :: s)) as Hdot by done.
    change (lit ".") with [46]. cbn [app]. rewrite <- (app_nil_r (show_uint d)).
    repeat (rewrite read_octet by done; cbn [mbind option_bind Z.eqb Pos.eqb]). done. }
  unfold parse_ipv4, parse_ip. rewrite Hr. split; [|done].
  assert (forall n, u8 n -> (length (show_uint n) <= 3)%nat) as H3.
  { intros n Hn. by apply Nat.leb_le, (byte_check _ n octet_length_checked). }
  pose proof (H3 a Ha). pose proof (H3 b Hb). pose proof (H3 c Hc). pose proof (H3 d Hd).
  destruct (Z.ltb_spec 15 (len (show_v4 [a; b; c; d]))) as [Hlt|]; [|done]. exfalso. revert Hlt.
  unfold len, show_v4, join. cbn [map concat app]. rewrite !length_app. cbn [length lit]. change (length (lit ".")) with 1%nat. lia.
Qed.

Lemma to_socket_addr_show o p : octets_ok o -> to_socket_addr (MkIpPort (show_ip (V4 o)) p) = Some (MkSocketAddr (V4 o) p).
Proof. intros H. unfold to_socket_addr. cbn [ip port show_ip]. by rewrite (proj2 (parse_ipv4_show o H)). Qed.

Lemma valid_addr_show o p : octets_ok o -> nth 3 o 0 <> 0 -> p <> 0 -> valid_addr (MkIpPort (show_ip (V4 o)) p) = true.
Proof.
  intros H Hl Hp. unfold valid_addr, valid_ip, valid_port. cbn [ip port show_ip]. rewrite (proj1 (parse_ipv4_show o H)).
  rewrite (proj2 (Z.eqb_neq _ 0)) by done. rewrite (proj2 (Z.eqb_neq p 0)) by done. cbn. rewrite bool_decide_eq_false_2; [done|].
  intros E. pose proof (proj1 (parse_ipv4_show o H)) as Hp4. by rewrite E in Hp4.
Qed.

(** ** Discovery against the wake server

    The client of [Discovery] and the listeners of [WakeServer], each with the
    other's documents. *)

Section against_wake_server.
Context `{Sd : Serde} `{K : Crc32} `{N : Nom} `{C : CookieFactory}.

(** What a client at [me] hears of what a listener at [from] sends. *)
Definition heard (me from : SocketAddr) (out : list effect) : list Flow.Event :=
  omap (fun e => match e with
                 | SendReply dst tid payload =>
                     if decide (dst = me) then Some (Flow.Got (Ok ((tid, payload), from))) else None
                 | WakeBurst _ _ _ => None
                 end) out.

(** One exchange: subscribed, sent once, answered by the first acceptable of what
    is heard. *)
Lemma exchange_once {T} tid p dest (map : Packet -> SocketAddr -> option T) reply addr evs rnd acts a :
  tid <> 0 -> map reply addr = Some a ->
  Flow.retry_send (tid, p) dest map
    (Flow.MkWorld (Flow.Subscribed None :: Flow.Tick None :: Flow.Got (Ok (reply, addr)) :: evs) rnd acts)
  = (Some (Ok a), Flow.MkWorld evs rnd ((acts ++ [Flow.ASubscribe tid]) ++ [Flow.ASend (tid, p) dest])).
Proof.
  intros Ht Hm. unfold Flow.retry_send. cbn [fst snd]. rewrite (proj2 (Z.eqb_neq tid 0)) by done.
  unfold Flow.bind, Flow.ret, Flow.subscribe. cbn [Flow.events Flow.act Flow.next Flow.exchange]. by rewrite Hm.
Qed.

Lemma middleman_leads cfg register_addr s me mid rip uid tid rnd rest dq :
  octets_ok rip -> nth 3 rip 0 <> 0 -> addr_port register_addr <> 0 -> tid <> 0 ->
  listener dq = Middleman -> src dq = me -> fst (advertise_ip (probe dq) (cache s) (bind cfg) me) = V4 rip ->
  request dq = Some (tid, XC2mQ (MkC2mQ uid (lit "MAC"))) ->
  let R := MkSocketAddr (V4 rip) (addr_port register_addr) in
  uid_lookup uid mid
    (Flow.MkWorld (Flow.Subscribed None :: Flow.Tick None :: heard me mid (snd (handle cfg register_addr dq s)) ++ rest)
       (tid :: rnd) [])
  = (Some (Ok (MkUidLookupResults R R)),
     Flow.MkWorld rest rnd [Flow.ASubscribe tid; Flow.ASend (tid, XC2mQ (MkC2mQ uid (lit "MAC"))) mid]).
Proof.
  intros Hr Hl Hp Ht Hd Hs Ha Hq R. unfold handle. rewrite Hd. unfold middleman_handle, request in *.
  cbn [received raw probe src]. destruct (decode_discovery _) as [[t x]|]; [|done]. injection Hq as -> ->.
  rewrite Hs. destruct (advertise_ip _ _ _ _) as [adv cache']. cbn [fst] in Ha. subst adv. cbn [middleman_query snd].
  unfold heard. cbn [omap list_omap received src]. rewrite Hs, decide_True by done. cbn [app].
  pose proof (valid_addr_show rip (addr_port register_addr) Hr Hl Hp) as Hv.
  assert (parse_ip (show_ip (V4 rip)) = Some (V4 rip)) as Hpi by apply (proj2 (parse_ipv4_show rip Hr)).
  generalize dependent (show_ip (V4 rip)). intros text Hv Hpi.
  unfold uid_lookup, Flow.retry_send. cbn [fst snd]. change (0 =? 0) with true.
  unfold Flow.generate_tid, Flow.random, Flow.bind, Flow.ret, Flow.subscribe.
  cbn [Flow.randoms Flow.events Flow.acts Flow.act Flow.next Flow.exchange]. rewrite (proj2 (Z.eqb_neq tid 0)) by done.
  cbn [Flow.randoms Flow.events Flow.acts Flow.act Flow.next Flow.exchange m2cqr_reg m2cqr_relay]. rewrite Hv.
  cbn [andb]. unfold Flow.from_option. cbn [ip port]. by rewrite Hpi.
Qed.

(** What the register sends for a camera it has heard lately. *)
Lemma register_sends cfg register_addr s me tid uid c dc entry cam :
  listener dc = Register -> src dc = me -> request dc = Some (tid, XC2rC c) -> c2rc_uid c = uid ->
  CameraRegistry.lookup_fresh (iter dc) (cameras s) uid (now dc) (millis (stale_after_ms cfg)) = Some entry ->
  addr_ip (entry_addr entry) = V4 cam ->
  exists wake relay,
    let a := MkIpPort (show_ip (V4 cam)) (addr_port (entry_addr entry)) in
    snd (handle cfg register_addr dc s) =
      [WakeBurst (entry_addr entry) tid wake;
       SendReply me tid (XR2cCr (MkR2cCr (Some a) (Some a) (Some relay) None (lit "NULL") (Some (random_sid dc)) 0 0));
       SendReply me tid (XR2cT (MkR2cT (Some a) (Some a) (c2rc_cid c) (random_sid dc)))]
    /\ r2dc_sid wake = random_sid dc /\ r2dc_cid wake = c2rc_cid c.
Proof.
  intros Hd Hs Hq Hu He Hc. unfold handle. rewrite Hd. unfold register_handle, request in *. cbn [received raw].
  destruct (decode_discovery _) as [[t x]|]; [|done]. injection Hq as -> ->. cbn [register_payload].
  unfold handle_connect. rewrite Hu. cbn [received iter now src random_sid probe]. rewrite He, Hs, Hc.
  destruct (advertise_ip _ _ _ _) as [relay_cam cache1]. destruct (advertise_ip _ _ _ _) as [relay_cli cache2].
  cbn [snd]. eexists _, _. by split.
Qed.

(** C34: A client that looks a camera up at the wake
    server's middleman, with an advertised IPv4 address, is led to its register;
    and if it then registers while the camera's heartbeats are fresh, it is
    registered: the addresses it goes on with are the one the heartbeats came
    from, the session is the one the wake packets carry to that same address, and
    they name the client's number. *)
Theorem wake_server_registers cfg register_addr s s' me mid rip lip sock ifaces uid cid tid tid' rnd rest rest'
    dq dc entry cam :
  octets_ok rip -> nth 3 rip 0 <> 0 -> addr_port register_addr <> 0 -> tid <> 0 -> tid' <> 0 ->
  listener dq = Middleman -> src dq = me -> fst (advertise_ip (probe dq) (cache s) (bind cfg) me) = V4 rip ->
  request dq = Some (tid, XC2mQ (MkC2mQ uid (lit "MAC"))) ->
  let R := MkSocketAddr (V4 rip) (addr_port register_addr) in
  get_local_ip_for_target ifaces (Some (V4 rip)) = Ok (V4 lip) ->
  let msg := XC2rC (MkC2rC uid (MkIpPort (show_ip (V4 lip)) (local_port sock)) (MkIpPort (show_ip (V4 rip)) (addr_port R))
                      cid false 4 (lit "MAC") (Some 3)) in
  listener dc = Register -> src dc = me -> request dc = Some (tid', msg) ->
  CameraRegistry.lookup_fresh (iter dc) (cameras s') uid (now dc) (millis (stale_after_ms cfg)) = Some entry ->
  addr_ip (entry_addr entry) = V4 cam -> octets_ok cam -> nth 3 cam 0 <> 0 -> addr_port (entry_addr entry) <> 0 ->
  let out := snd (handle cfg register_addr dq s) in
  let out' := snd (handle cfg register_addr dc s') in
  uid_lookup uid mid (Flow.MkWorld (Flow.Subscribed None :: Flow.Tick None :: heard me mid out ++ rest) (tid :: rnd) [])
    = (Some (Ok (MkUidLookupResults R R)),
       Flow.MkWorld rest rnd [Flow.ASubscribe tid; Flow.ASend (tid, XC2mQ (MkC2mQ uid (lit "MAC"))) mid])
  /\ exists r w wake,
       register_address sock ifaces uid cid (MkUidLookupResults R R)
         (Flow.MkWorld (Flow.Subscribed None :: Flow.Tick None :: heard me R out' ++ rest') (tid' :: rnd) [])
       = (Some (Ok r), w)
       /\ Flow.acts w = [Flow.ASubscribe tid'; Flow.ASend (tid', msg) R]
       /\ reg r = R /\ dev r = Some (entry_addr entry) /\ dmap r = Some (entry_addr entry)
       /\ rr_client_id r = cid /\ rr_sid r = random_sid dc
       /\ In (WakeBurst (entry_addr entry) tid' wake) out' /\ r2dc_sid wake = rr_sid r /\ r2dc_cid wake = cid.
Proof.
  intros Hr Hl Hp Ht Ht' Hdq Hsq Hadv Hq R Hlip msg Hdc Hsc Hrc He Hcam Hc4 Hcl Hcp out out'.
  split; [by apply middleman_leads|].
  destruct (register_sends cfg register_addr s' me tid' uid _ dc entry cam Hdc Hsc Hrc eq_refl He Hcam)
    as (wake & relay & Hout & Hws & Hwc). fold out' in Hout.
  pose proof (valid_addr_show cam (addr_port (entry_addr entry)) Hc4 Hcl Hcp) as Hv.
  pose proof (to_socket_addr_show cam (addr_port (entry_addr entry)) Hc4) as Hsa.
  assert (MkSocketAddr (V4 cam) (addr_port (entry_addr entry)) = entry_addr entry) as Hea
    by (destruct (entry_addr entry); cbn in *; congruence).
  rewrite Hea in Hsa. set (a := MkIpPort (show_ip (V4 cam)) _) in *.
  set (w := Flow.MkWorld _ _ _).
  assert (register_address sock ifaces uid cid (MkUidLookupResults R R) w =
    (Some (Ok (MkRegisterResult R (Some (entry_addr entry)) (Some (entry_addr entry)) (to_socket_addr relay) cid
                 (random_sid dc))),
     Flow.MkWorld (Flow.Got (Ok ((tid', XR2cT (MkR2cT (Some a) (Some a) cid (random_sid dc))), R)) :: rest') rnd
       [Flow.ASubscribe tid'; Flow.ASend (tid', msg) R])) as Hreg.
  { unfold register_address, w. rewrite Hout. unfold heard. cbn [omap list_omap]. rewrite !decide_True by done. cbn [app].
    unfold Flow.bind at 1. unfold Flow.generate_tid, Flow.random, Flow.ret. unfold Flow.bind at 1.
    cbn [Flow.randoms Flow.events Flow.acts]. rewrite (proj2 (Z.eqb_neq tid' 0)) by done.
    unfold Flow.bind at 1. cbn [lookup_relay lookup_reg]. change (addr_ip R) with (V4 rip). rewrite Hlip.
    unfold of_result at 1. unfold Flow.bind at 1. erewrite exchange_once; [|done|].
    2:{ cbn [accept_registration r2ccr_sid]. unfold has_addr, refused. cbn [r2ccr_dev r2ccr_dmap r2ccr_relay r2ccr_rsp].
        rewrite Hv. cbn [orb andb Z.eqb negb]. reflexivity. }
    unfold Flow.bind, of_result, Flow.ret. cbn [mbind option_bind]. by rewrite Hsa. }
  eexists _, _, wake. split; [exact Hreg|]. cbn [Flow.acts reg dev dmap rr_client_id rr_sid].
  split_and!; try done. rewrite Hout. by left.
Qed.
End against_wake_server.

(** ** At work *)

Section sample.
#[local] Existing Instances serde_toy crc32_std nom_std cf_std.

Definition camera_at : SocketAddr := host 91 4001.
Definition me : SocketAddr := host 50 5000.

Definition sample_opts : BcCameraOpt := MkBcCameraOpt [V4 [192; 168; 1; 91]] (Some CAM) None TcpUdp MRelay 2.

Definition sample_registration : RegisterResult :=
  MkRegisterResult toy_register (Some camera_at) (Some camera_at) None 7 33.

Definition sample_found : DiscoveryResult := MkDiscoveryResult camera_at 7 3 None None.

Definition sample_script : Script :=
  MkScript (fun _ => Err (Io [])) (Some (Err DiscoveryTimeout)) [None; None]
    [None; Some (Ok sample_registration)]
    (fun _ => [(ARemote, Err DiscoveryTimeout); (AMap, Ok sample_found)]) true.

Lemma found_permitted_witness :
  exists arm reg, In (arm, Ok sample_found) (connected sample_script reg) /\ In arm (arms (discovery_flags_for MRelay)).
Proof.
  destruct (found_permitted sample_opts sample_script (LocUdp sample_found)) as (_ & _ & _ & [[_ H]|H]).
  - vm_compute. reflexivity.
  - discriminate H.
  - destruct H as (arm & reg & _ & _ & Ha & Hc & _). exists arm, reg. split; [exact Hc|exact Ha].
Defined.

Lemma discovery_error_witness : DiscoveryTimeout <> CannotInitCamera.
Proof.
  destruct (discovery_error (MkBcCameraOpt [] (Some CAM) None Udp MNone 2) sample_script DiscoveryTimeout)
    as [[H _]|[_ _]]; [reflexivity|discriminate H|discriminate].
Defined.

Definition sample_ifaces : result (list Interface) Error :=
  Ok [MkInterface (IfV4 [127; 0; 0; 1] [255; 0; 0; 0] None) true;
      MkInterface (IfV4 [172; 17; 0; 1] [255; 255; 0; 0] None) false;
      MkInterface (IfV4 [192; 168; 1; 50] [255; 255; 255; 0] None) false].

Definition raw_of (tid : Z) (payload : UdpXml) : bytes :=
  match encode_discovery tid payload with Ok b => b | Err _ => [] end.

Definition client_datagram (l : Listener) (tid : Z) (payload : UdpXml) : Datagram :=
  MkDatagram l me (raw_of tid payload) (millis 4000) 0 11 22 33 (fun _ => None) map_to_list.

Definition sample_lookup : Datagram := client_datagram Middleman 70 (XC2mQ (MkC2mQ CAM (lit "MAC"))).

Definition sample_connect : Datagram :=
  client_datagram Register 71
    (XC2rC (MkC2rC CAM (MkIpPort (lit "192.168.1.50") 5000) (MkIpPort (lit "192.168.1.2") 58200) 7 false 4 (lit "MAC")
       (Some 3))).

Definition heard_camera : Server := fst (run toy_cfg toy_register [toy_query; toy_beat] Server_new).

Lemma wake_server_registers_witness : exists r wake,
  dev r = Some camera_at /\ rr_sid r = 33
  /\ In (WakeBurst camera_at 71 wake) (snd (handle toy_cfg toy_register sample_connect heard_camera)).
Proof.
  destruct (wake_server_registers toy_cfg toy_register Server_new heard_camera me (host 2 9999) [192; 168; 1; 2]
              [192; 168; 1; 50] (MkSocket 5000 false) sample_ifaces CAM 7 70 71 [] [] [] sample_lookup sample_connect
              (MkCameraEntry camera_at 11 (millis 3000)) [192; 168; 1; 91])
    as (_ & r & w & wake & _ & _ & _ & Hd & _ & _ & Hs & Hw & _).
  all: try (vm_compute; congruence).
  all: try (split; [reflexivity|repeat constructor; vm_compute; congruence]).
  all: try (vm_compute; reflexivity).
  exists r, wake. split; [exact Hd|]. split; [exact Hs|exact Hw].
Defined.

End sample.
