(* ===== verification/UdpDriver.v ===== *)
(** * The tasks of a UDP connection ([src/baichuan/bc_protocol/connection/udpsource.rs])

    [UdpFlow] is the state of the flow; this file is what drives it. A socket
    task moves packets between the socket and two channels of 500; one task
    queues the acknowledgement last published every 10 ms, one a heartbeat every
    second; the main task ([UdpPayloadInner::run]) selects between its resend
    tick, the application's bytes and the socket's packets, and hands what
    arrived in order to the application. Any of them may be scheduled at any
    time: a [Label] is what happens next. What a turn of the main task still has
    to feed into its channels, which may be full, waits in [pending]. Instants
    are in nanoseconds. *)

From S2P Require Import Prelude BcUdp BcUdpXml WakeServer UdpFlow.

Section driver.
Context {Sd : Serde}.

Inductive Error :=
| BcUdpTimeout
| NoneReceived
| SendFailed
| BcUdpReconnectTimeout
| BcUdpPayloadDroppedInner
| BcUdpDropSender
| SendError
| SocketError (what : str).

(** A feed that waits for room, an acknowledgement to publish, the error the
    main task ends with. *)
Inductive Op :=
| OpFeed (p : BcUdp)
| OpAck (a : UdpAck)
| OpStream (payload : bytes)
| OpFail (e : Error).

(** What leaves: a packet on the wire, an item in the application's hands. *)
Inductive Out := Wire (p : BcUdp) | Given (item : result bytes Error).

Inductive Finished := Returned (r : result unit Error) | Panicked.

Definition QUEUE : nat := 500.
Definition STREAM : nat := 100.
Definition TIME_OUT : Z := millis 10000.

Record Driver := MkDriver {
  now : Z;
  recv_timeout : Z;
  socket_done : option Finished;
  cancelled : bool;
  socket_in : list BcUdp;
  socket_out : list (BcUdp * SocketAddr);
  ack : UdpAck;
  ack_waiting : option UdpAck;
  flow : UdpFlowState;
  pending : list Op;
  main_done : option Finished;
  thread_stream : list (result bytes Error);
  thread_sink : list bytes;
  stream_closed : bool
}.

(** [UdpPayloadInner::new] and [UdpPayloadSource::new] *)
Definition new (client_id camera_id now : Z) : Driver :=
  MkDriver now (now + TIME_OUT) None false [] [] (empty_ack camera_id) None (UdpFlow.new client_id camera_id) [] None [] []
    false.

Definition set_time (d : Driver) (t : Z) : Driver :=
  MkDriver t (recv_timeout d) (socket_done d) (cancelled d) (socket_in d) (socket_out d) (ack d) (ack_waiting d) (flow d) (pending d)
    (main_done d) (thread_stream d) (thread_sink d) (stream_closed d).
Definition set_deadline (d : Driver) (t : Z) : Driver :=
  MkDriver (now d) t (socket_done d) (cancelled d) (socket_in d) (socket_out d) (ack d) (ack_waiting d) (flow d) (pending d)
    (main_done d) (thread_stream d) (thread_sink d) (stream_closed d).
Definition set_socket_in (d : Driver) (l : list BcUdp) : Driver :=
  MkDriver (now d) (recv_timeout d) (socket_done d) (cancelled d) l (socket_out d) (ack d) (ack_waiting d) (flow d) (pending d)
    (main_done d) (thread_stream d) (thread_sink d) (stream_closed d).
Definition set_socket_out (d : Driver) (l : list (BcUdp * SocketAddr)) : Driver :=
  MkDriver (now d) (recv_timeout d) (socket_done d) (cancelled d) (socket_in d) l (ack d) (ack_waiting d) (flow d) (pending d)
    (main_done d) (thread_stream d) (thread_sink d) (stream_closed d).
Definition set_ack (d : Driver) (a : UdpAck) : Driver :=
  MkDriver (now d) (recv_timeout d) (socket_done d) (cancelled d) (socket_in d) (socket_out d) a (ack_waiting d) (flow d) (pending d)
    (main_done d) (thread_stream d) (thread_sink d) (stream_closed d).
Definition set_waiting (d : Driver) (a : option UdpAck) : Driver :=
  MkDriver (now d) (recv_timeout d) (socket_done d) (cancelled d) (socket_in d) (socket_out d) (ack d) a (flow d) (pending d)
    (main_done d) (thread_stream d) (thread_sink d) (stream_closed d).
Definition set_turn (d : Driver) (f : UdpFlowState) (ops : list Op) : Driver :=
  MkDriver (now d) (recv_timeout d) (socket_done d) (cancelled d) (socket_in d) (socket_out d) (ack d) (ack_waiting d) f ops
    (main_done d) (thread_stream d) (thread_sink d) (stream_closed d).
Definition set_stream (d : Driver) (l : list (result bytes Error)) : Driver :=
  MkDriver (now d) (recv_timeout d) (socket_done d) (cancelled d) (socket_in d) (socket_out d) (ack d) (ack_waiting d) (flow d)
    (pending d) (main_done d) l (thread_sink d) (stream_closed d).
Definition set_sink (d : Driver) (l : list bytes) : Driver :=
  MkDriver (now d) (recv_timeout d) (socket_done d) (cancelled d) (socket_in d) (socket_out d) (ack d) (ack_waiting d) (flow d)
    (pending d) (main_done d) (thread_stream d) l (stream_closed d).

(** The socket task's end cancels its siblings and drops its ends of both
    channels. *)
Definition end_socket (d : Driver) (r : result unit Error) : Driver :=
  MkDriver (now d) (recv_timeout d) (Some (Returned r)) true [] (socket_out d) (ack d) (ack_waiting d) (flow d) (pending d)
    (main_done d) (thread_stream d) (thread_sink d) (stream_closed d).

(** The main task's end drops the flow, which cancels the other tasks. *)
Definition end_main (d : Driver) (r : Finished) : Driver :=
  MkDriver (now d) (recv_timeout d) (socket_done d) true (socket_in d) (socket_out d) (ack d) (ack_waiting d) (flow d) []
    (Some r) (thread_stream d) [] (stream_closed d).

(** The application drops the connection. *)
Definition close_stream (d : Driver) : Driver :=
  MkDriver (now d) (recv_timeout d) (socket_done d) (cancelled d) (socket_in d) (socket_out d) (ack d) (ack_waiting d) (flow d)
    (pending d) (main_done d) [] (thread_sink d) true.

(** ** The socket task *)

(** How a send goes: within 250 ms, or with a new socket after them. *)
Inductive Written :=
| Quick (r : result unit Error)
| Slow (reconnected : result unit Error) (tid : Z) (heartbeat_sent : bool).

Definition heartbeat (d : Driver) (tid : Z) : BcUdp :=
  Discovery (MkUdpDiscovery tid (XC2dHb (MkC2dHb (client_id (flow d)) (camera_id (flow d))))).

Definition socket_recv (d : Driver) (p : BcUdp) (addr : SocketAddr) : Driver :=
  let d := set_deadline d (now d + TIME_OUT) in
  if (length (socket_out d) <? QUEUE)%nat && bool_decide (main_done d = None) then
    set_socket_out d (socket_out d ++ [(p, addr)])
  else end_socket d (Err SendFailed).

(** The packet of a send that did not end in time is not sent again. *)
Definition socket_send (d : Driver) (w : Written) : option (Driver * list BcUdp) :=
  match socket_in d with
  | [] => None
  | p :: rest =>
      let d := set_socket_in d rest in
      match w with
      | Quick (Ok _) => Some (d, [p])
      | Quick (Err e) => Some (end_socket d (Err e), [])
      | Slow (Ok _) tid sent => Some (d, if sent then [heartbeat d tid] else [])
      | Slow (Err e) _ _ => Some (end_socket d (Err e), [])
      end
  end.

Definition when (b : bool) (d : Driver) : option (Driver * list Out) := if b then Some (d, []) else None.

Definition socket_up (d : Driver) : bool := bool_decide (socket_done d = None).
Definition tasks_up (d : Driver) : bool := socket_up d && negb (cancelled d).

Definition socket_timeout (d : Driver) : option (Driver * list Out) :=
  when (socket_up d && (recv_timeout d <=? now d)) (end_socket d (Err BcUdpTimeout)).

Definition socket_cancelled (d : Driver) : option (Driver * list Out) :=
  when (socket_up d && cancelled d) (end_socket d (Ok tt)).

(** ** The two tasks that queue packets

    The acknowledgement is read when its tick comes and may wait for room. *)

Definition queue_packet (d : Driver) (p : BcUdp) : option Driver :=
  if (length (socket_in d) <? QUEUE)%nat then Some (set_socket_in d (socket_in d ++ [p])) else None.

Definition ack_tick (d : Driver) : option (Driver * list Out) :=
  when (tasks_up d && bool_decide (ack_waiting d = None)) (set_waiting d (Some (ack d))).

Definition ack_send (d : Driver) : option (Driver * list Out) :=
  if tasks_up d then a ← ack_waiting d; d ← queue_packet d (Ack a); Some (set_waiting d None, []) else None.

Definition heartbeat_tick (d : Driver) (tid : Z) : option (Driver * list Out) :=
  if tasks_up d then d ← queue_packet d (heartbeat d tid); Some (d, []) else None.

(** ** The main task *)

(** The end of a turn: what became contiguous goes to the application. *)
Definition with_drain (d : Driver) (f : UdpFlowState) (ops : list Op) : Driver :=
  let '(out, f) := drain_contiguous f in
  set_turn d f (ops ++ map OpStream out).

(** [send_replace(build_send_ack())], which would panic on an ack it cannot
    build. *)
Definition with_ack (d : Driver) (f : UdpFlowState) (k : UdpAck -> Driver) : Driver :=
  match build_send_ack f with
  | Ret a => k a
  | Panic => end_main d Panicked
  end.

Definition on_resend (d : Driver) : Driver :=
  with_ack d (flow d) (fun a => with_drain d (flow d) (map (fun p => OpFeed (Data p)) (resend_packets (flow d)) ++ [OpAck a])).

Definition on_sink (d : Driver) (item : bytes) : Driver :=
  let '(out, f) := enqueue_send (flow d) item in
  with_drain d f (map (fun p => OpFeed (Data p)) out).

Definition on_socket (d : Driver) (camera_addr : SocketAddr) (p : BcUdp) (addr : SocketAddr) : Driver :=
  let f := flow d in
  if bool_decide (addr = camera_addr) then
    match p with
    | Discovery _ => with_drain d f []
    | Ack a => with_drain d (if ack_connection_id a =? client_id f then handle_ack f a (now d) else f) []
    | Data data =>
        let '(took, f) := handle_data f data in
        if took then with_ack d f (fun a => with_drain d f [OpAck a]) else with_drain d f []
    end
  else with_drain d f [].

(** The next feed of the turn, when its channel has room. *)
Definition pump (d : Driver) : option Driver :=
  match pending d with
  | [] => None
  | OpFeed p :: ops =>
      if bool_decide (socket_done d = None) then
        if (length (socket_in d) <? QUEUE)%nat then
          Some (set_turn (set_socket_in d (socket_in d ++ [p])) (flow d) ops)
        else None
      else Some (set_turn d (flow d) [OpFail SendError])
  | OpAck a :: ops => Some (set_turn (set_ack d a) (flow d) ops)
  | OpStream payload :: ops =>
      if stream_closed d then Some (set_turn d (flow d) [OpFail SendError])
      else if (length (thread_stream d) <? STREAM)%nat then
        Some (set_turn (set_stream d (thread_stream d ++ [Ok payload])) (flow d) ops)
      else None
  | OpFail e :: _ =>
      if stream_closed d then Some (end_main d (Returned (Err e)))
      else if (length (thread_stream d) <? STREAM)%nat then
        Some (end_main (set_stream d (thread_stream d ++ [Err e])) (Returned (Err e)))
      else None
  end.

(** ** The whole *)

Inductive Label :=
| Elapse (t : Z)
| SocketRecv (p : BcUdp) (addr : SocketAddr)
| SocketFails (e : Error)
| SocketTimeout
| SocketSend (w : Written)
| SocketCancelled
| AckTick
| AckSend
| HeartbeatTick (tid : Z)
| ResendTick
| FromApplication
| FromSocket
| StreamClosed
| Pump
| Cancel
| AppTake
| AppSend (payload : bytes)
| AppDrop.

Definition idle (d : Driver) : bool := bool_decide (pending d = []) && bool_decide (main_done d = None).

(** An item for the camera; [None] once the application is gone. *)
Definition from_application (d : Driver) : option (Driver * list Out) :=
  if idle d then
    match thread_sink d with
    | item :: rest => Some (on_sink (set_sink d rest) item, [])
    | [] => if stream_closed d then Some (set_turn d (flow d) [OpFail BcUdpDropSender], []) else None
    end
  else None.

(** A packet of the socket; [None] once the socket task is gone. *)
Definition from_socket (camera_addr : SocketAddr) (d : Driver) : option (Driver * list Out) :=
  if idle d then
    match socket_out d with
    | (p, addr) :: rest => Some (on_socket (set_socket_out d rest) camera_addr p addr, [])
    | [] => if socket_up d then None else Some (set_turn d (flow d) [OpFail NoneReceived], [])
    end
  else None.

(** The loop ends when the application has gone, between turns; so does the
    task when it is cancelled, at any time. *)
Definition found_closed (d : Driver) : option (Driver * list Out) :=
  when (idle d && stream_closed d) (end_main d (Returned (Err BcUdpPayloadDroppedInner))).

Definition main_cancelled (d : Driver) : option (Driver * list Out) :=
  when (stream_closed d && bool_decide (main_done d = None)) (end_main d (Returned (Ok tt))).

(** The application's side of its two channels. *)
Definition app_take (d : Driver) : option (Driver * list Out) :=
  match thread_stream d with
  | item :: rest => Some (set_stream d rest, [Given item])
  | [] => None
  end.

Definition app_send (d : Driver) (payload : bytes) : option (Driver * list Out) :=
  when ((length (thread_sink d) <? STREAM)%nat && negb (stream_closed d) && bool_decide (main_done d = None))
    (set_sink d (thread_sink d ++ [payload])).

Definition step (camera_addr : SocketAddr) (d : Driver) (l : Label) : option (Driver * list Out) :=
  match l with
  | Elapse t => when (0 <=? t) (set_time d (now d + t))
  | SocketRecv p addr => when (socket_up d) (socket_recv d p addr)
  | SocketFails e => when (socket_up d) (end_socket d (Err e))
  | SocketTimeout => socket_timeout d
  | SocketSend w => if socket_up d then '(d, sent) ← socket_send d w; Some (d, map Wire sent) else None
  | SocketCancelled => socket_cancelled d
  | AckTick => ack_tick d
  | AckSend => ack_send d
  | HeartbeatTick tid => heartbeat_tick d tid
  | ResendTick => when (idle d) (on_resend d)
  | FromApplication => from_application d
  | FromSocket => from_socket camera_addr d
  | StreamClosed => found_closed d
  | Pump => if bool_decide (main_done d = None) then d ← pump d; Some (d, []) else None
  | Cancel => main_cancelled d
  | AppTake => app_take d
  | AppSend payload => app_send d payload
  | AppDrop => when true (close_stream d)
  end.

Fixpoint run (camera_addr : SocketAddr) (d : Driver) (ls : list Label) : option (Driver * list Out) :=
  match ls with
  | [] => Some (d, [])
  | l :: ls =>
      '(d, out) ← step camera_addr d l;
      '(d, out') ← run camera_addr d ls;
      Some (d, out ++ out')
  end.

(** ** What the flow keeps *)

(** The client has packet [k]: delivered, or waiting to be. *)
Definition held (f : UdpFlowState) (k : Z) : Prop := k < packets_want f \/ is_Some (received f !! k).

Definition grows (f f' : UdpFlowState) : Prop := forall k, held f k -> held f' k.

(** Whatever a sender forgets on this acknowledgement, the client has. *)
Definition truthful (f : UdpFlowState) (a : UdpAck) : Prop :=
  forall s t k p, sent s !! k = Some p -> sent (handle_ack s a t) !! k = None -> held f k.

Lemma truthful_grows f f' a : grows f f' -> truthful f a -> truthful f' a.
Proof. intros Hg Ht s t k p H1 H2. by eapply Hg, Ht. Qed.

Lemma build_truthful f : flow_ok f -> exists a, build_send_ack f = Ret a /\ truthful f a.
Proof.
  intros Hok. destruct (ack_exact f f 0 Hok) as (a & E & _). exists a. split; [done|].
  intros s t k p H1 H2. destruct (ack_exact f s t Hok) as (a' & E' & _ & H & _).
  rewrite E in E'. injection E' as <-. by eapply H.
Qed.

Lemma empty_truthful f cam : truthful f (empty_ack cam).
Proof.
  intros s t k p H1 H2. change (sent (handle_ack s (empty_ack cam) t)) with (sent s) in H2. congruence.
Qed.

Lemma handle_data_grows f p : grows f (snd (handle_data f p)).
Proof.
  intros k H. unfold handle_data. repeat case_match; try done. destruct H as [H|[x H]]; [by left|]. right.
  cbn [received set_received snd]. rewrite lookup_insert. case_decide; eauto.
Qed.

Lemma handle_ack_grows f a t : grows f (handle_ack f a t).
Proof. intros k H. unfold held. by destruct (handle_ack_rest f a t) as (-> & -> & _). Qed.

Lemma enqueue_grows f item : u32 (packets_sent f) -> grows f (snd (enqueue_send f item)).
Proof. intros Hu k H. rewrite enqueue_send_eq by done. exact H. Qed.

Lemma drain_grows f : flow_ok f -> grows f (snd (drain_contiguous f)).
Proof.
  intros Hok k H. destruct (drain_loop_spec (fun k => default [] (received f !! k)) (size (received f)) f [] Hok)
    as (n & f' & E & Hn & _ & _ & Hw & _ & Hk & _); [intros j x Hj; by rewrite Hj|].
  unfold drain_contiguous. rewrite E. cbn [snd]. destruct (Z_lt_le_dec k (packets_want f')); [by left|].
  destruct H as [H|H]; [lia|]. right. by rewrite Hk.
Qed.

(** ** The invariant of the tasks *)

Section invariant.
Context (P : Z -> bytes) (cid : Z) (camera_addr : SocketAddr).

(** What the camera's own address sends: 32-bit numbers, and in the packets of
    this connection the camera's payloads. Any other address may send anything. *)
Definition genuine_packet (p : BcUdp) : Prop :=
  match p with
  | Data d => u32 (data_packet_id d) /\ (data_connection_id d = cid -> data_payload d = P (data_packet_id d))
  | Ack a => u32 (ack_packet_id a)
  | Discovery _ => True
  end.

Definition genuine_label (l : Label) : Prop :=
  match l with SocketRecv p addr => addr = camera_addr -> genuine_packet p | _ => True end.

Definition streams (ops : list Op) : list bytes :=
  omap (fun o => match o with OpStream b => Some b | _ => None end) ops.

Definition failing (ops : list Op) : Prop := exists e, In (OpFail e) ops.

Definition givens (outs : list Out) : list (result bytes Error) :=
  omap (fun o => match o with Given i => Some i | Wire _ => None end) outs.

Definition upto (n : Z) : list (result bytes Error) := map Ok (map P (seqZ 0 n)).

(** The acknowledgements that are published or on their way out. *)
Definition acks_of (ps : list BcUdp) : list UdpAck := omap (fun p => match p with Ack a => Some a | _ => None end) ps.
Definition acks_fed (ops : list Op) : list UdpAck :=
  omap (fun o => match o with OpAck a => Some a | OpFeed (Ack a) => Some a | _ => None end) ops.
Definition acks_out (outs : list Out) : list UdpAck :=
  omap (fun o => match o with Wire (Ack a) => Some a | _ => None end) outs.

Definition acks_ok (d : Driver) (outs : list Out) : Prop :=
  truthful (flow d) (ack d) /\ (forall a, ack_waiting d = Some a -> truthful (flow d) a)
  /\ Forall (truthful (flow d)) (acks_of (socket_in d)) /\ Forall (truthful (flow d)) (acks_fed (pending d))
  /\ Forall (truthful (flow d)) (acks_out outs).

(** What the application has and is about to get: the camera's payloads from
    the first on, then perhaps the error the main task ended with; while it
    runs, what it still has to feed goes on from there. *)
Definition in_order (d : Driver) (outs : list Out) : Prop :=
  exists n tail, 0 <= n /\ givens outs ++ thread_stream d = upto n ++ tail
    /\ (tail = [] \/ (exists e, tail = [Err e]) /\ main_done d <> None)
    /\ (failing (pending d) -> streams (pending d) = [])
    /\ (main_done d = None -> stream_closed d = false -> ~ failing (pending d) ->
        upto n ++ map Ok (streams (pending d)) = upto (packets_want (flow d))).

Record Inv (d : Driver) (outs : list Out) : Prop := {
  inv_flow : flow_ok (flow d);
  inv_genuine : genuine P (flow d);
  inv_id : client_id (flow d) = cid;
  inv_socket : Forall (fun x => snd x = camera_addr -> genuine_packet (fst x)) (socket_out d);
  inv_acks : acks_ok d outs;
  inv_order : in_order d outs;
  inv_alive : main_done d <> Some Panicked
}.

Lemma upto_app n m : 0 <= n -> 0 <= m -> upto n ++ map Ok (map P (seqZ n m)) = upto (n + m).
Proof. intros H1 H2. unfold upto. rewrite seqZ_app, !map_app by lia. by rewrite Z.add_0_l. Qed.

Lemma upto_prefix l n tail :
  0 <= n -> (tail = [] \/ exists e, tail = [Err e]) -> l `prefix_of` upto n ++ tail ->
  exists m tail', 0 <= m /\ l = upto m ++ tail' /\ (tail' = [] \/ tail' = tail).
Proof.
  intros Hn Ht [k E]. destruct (decide (length l <= length (upto n))%nat) as [Hl|Hl].
  - exists (Z.of_nat (length l)), []. split; [lia|]. rewrite app_nil_r. split; [|by left].
    apply (f_equal (take (length l))) in E. rewrite take_app_length, take_app_le in E by done.
    revert Hl E. generalize (length l). intros q Hl <-. unfold upto in *. rewrite length_map, length_map, length_seqZ in Hl.
    rewrite <- !fmap_take. f_equal. f_equal. unfold seqZ. rewrite <- fmap_take, take_seq. do 2 f_equal. lia.
  - exists n, tail. split; [done|]. split; [|by right]. destruct Ht as [->|[e ->]].
    + rewrite app_nil_r in E |- *. apply (f_equal length) in E. rewrite length_app in E. lia.
    + assert (k = []) as ->.
      { apply (f_equal length) in E. rewrite !length_app in E. cbn [length] in E. destruct k; [done|].
        cbn [length] in E. lia. }
      by rewrite app_nil_r in E.
Qed.

(** *** Each step keeps it *)

Lemma acks_of_app l k : acks_of (l ++ k) = acks_of l ++ acks_of k.
Proof. apply omap_app. Qed.
Lemma acks_fed_app l k : acks_fed (l ++ k) = acks_fed l ++ acks_fed k.
Proof. apply omap_app. Qed.
Lemma acks_out_app l k : acks_out (l ++ k) = acks_out l ++ acks_out k.
Proof. apply omap_app. Qed.
Lemma givens_app l k : givens (l ++ k) = givens l ++ givens k.
Proof. apply omap_app. Qed.
Lemma streams_app l k : streams (l ++ k) = streams l ++ streams k.
Proof. apply omap_app. Qed.

Lemma fed_data ps : acks_fed (map (fun p => OpFeed (Data p)) ps) = [] /\ streams (map (fun p => OpFeed (Data p)) ps) = []
  /\ ~ failing (map (fun p => OpFeed (Data p)) ps).
Proof.
  split; [by induction ps|]. split; [by induction ps|]. intros [e H]. apply in_map_iff in H as (p & [=] & _).
Qed.

Lemma fed_streams bs : acks_fed (map OpStream bs) = [] /\ streams (map OpStream bs) = bs /\ ~ failing (map OpStream bs).
Proof.
  split; [by induction bs|]. split; [induction bs as [|b bs IH]; [done|]; cbn; by f_equal|].
  intros [e H]. apply in_map_iff in H as (p & [=] & _).
Qed.

Lemma failing_app l k : failing (l ++ k) <-> failing l \/ failing k.
Proof. unfold failing. split; [intros [e H]; apply in_app_iff in H as [H|H]; eauto|intros [[e H]|[e H]]; exists e; apply in_app_iff; eauto]. Qed.

(** A step that leaves the flow, the turn and the application's side alone. *)
Lemma inv_side d d' outs outs' :
  Inv d outs -> flow d' = flow d -> pending d' = pending d -> main_done d' = main_done d ->
  thread_stream d' = thread_stream d -> stream_closed d' = stream_closed d -> givens outs' = givens outs ->
  Forall (fun x => snd x = camera_addr -> genuine_packet (fst x)) (socket_out d') -> acks_ok d' outs' ->
  Inv d' outs'.
Proof.
  intros [H1 H2 H3 H4 H5 H6 H7] Ef Ep Em Es Ec Eg Hs Ha. split; rewrite ?Ef, ?Em; try done.
  unfold in_order in *. by rewrite Ef, Ep, Em, Es, Ec, Eg.
Qed.

Lemma inv_end_main d outs r : Inv d outs -> r <> Panicked -> Inv (end_main d r) outs.
Proof.
  intros [H1 H2 H3 H4 H5 H6 H7] Hr. split; cbn; try done.
  - destruct H5 as (? & ? & ? & ? & ?). by split_and!.
  - destruct H6 as (n & tail & Hn & E & Ht & _ & _). exists n, tail. cbn. split_and!; try done.
    destruct Ht as [->|[Ht _]]; [by left|by right].
  - congruence.
Qed.

(** A turn of the main task: [f] is the flow after what it selected. *)
Lemma inv_turn d outs f ops :
  Inv d outs -> idle d = true -> flow_ok f -> genuine P f -> client_id f = cid -> grows (flow d) f ->
  packets_want f = packets_want (flow d) -> streams ops = [] -> ~ failing ops -> Forall (truthful f) (acks_fed ops) ->
  Inv (with_drain d f ops) outs.
Proof.
  intros [H1 H2 H3 H4 H5 H6 H7] Hi Hok Hg Hc Hgr Hw Hs Hf Ha. unfold idle in Hi.
  apply andb_true_iff in Hi as [Hi%bool_decide_eq_true _]. unfold with_drain.
  pose proof (drain_grows f Hok) as Hdg.
  destruct (drain_loop_spec P (size (received f)) f [] Hok Hg) as (n & f' & E & Hn & Hok' & Hg' & Hw' & Hc' & _).
  unfold drain_contiguous in *. rewrite E in *. cbn [snd app] in *.
  assert (forall a, truthful f a -> truthful f' a) as Ht' by (intros a; by apply truthful_grows).
  assert (forall a, truthful (flow d) a -> truthful f' a) as Ht by (intros a Ht; by apply Ht', (truthful_grows (flow d))).
  destruct (fed_streams (map P (seqZ (packets_want f) n))) as (F1 & F2 & F3).
  split; cbn [flow set_turn socket_out main_done]; try done; [congruence|..].
  - destruct H5 as (A1 & A2 & A3 & A4 & A5). unfold acks_ok. cbn [flow ack ack_waiting socket_in pending set_turn].
    split_and!; eauto using Forall_impl.
    rewrite acks_fed_app, F1, app_nil_r. eapply Forall_impl; [exact Ht'|exact Ha].
  - destruct H6 as (m & tail & Hm & E6 & Htl & _ & Hlast). exists m, tail. split; [done|].
    cbn [thread_stream main_done stream_closed pending flow set_turn]. split; [done|].
    split; [done|]. split; [by intros [?|?]%failing_app|]. intros Hmd Hcl _. rewrite streams_app, Hs, F2. cbn [app].
    assert (upto m = upto (packets_want (flow d))) as Eu.
    { rewrite <- (Hlast Hmd Hcl). - by rewrite Hi, app_nil_r. - rewrite Hi. by intros [e []]. }
    rewrite Eu, Hw', Hw. apply upto_app; [|done]. destruct H1 as [Hwu _]. rewrite <- Hw. destruct Hok as [Hwu' _].
    by destruct Hwu'.
Qed.

Lemma grows_refl f : grows f f.
Proof. by intros k H. Qed.

Lemma inv_resend d outs : Inv d outs -> idle d = true -> Inv (on_resend d) outs.
Proof.
  intros Hi Hid. pose proof Hi as [H1 H2 H3 _ _ _ _]. unfold on_resend, with_ack.
  destruct (build_truthful (flow d) H1) as (a & -> & Ha). destruct (fed_data (resend_packets (flow d))) as (F1 & F2 & F3).
  apply inv_turn; try done; [apply grows_refl|..].
  - by rewrite streams_app, F2.
  - rewrite failing_app. intros [Hf|[e [[=]|[]]]]. done.
  - rewrite acks_fed_app, F1. apply Forall_cons_iff. split; [done|constructor].
Qed.

Lemma inv_sink d outs item rest :
  Inv d outs -> idle d = true -> Inv (on_sink (set_sink d rest) item) outs.
Proof.
  intros Hi Hid. pose proof Hi as [H1 H2 H3 _ _ _ _]. unfold on_sink. cbn [flow set_sink].
  pose proof (enqueue_send_ok (flow d) item H1) as Hok. destruct H1 as (Hu & Hp & H1).
  pose proof (enqueue_grows (flow d) item Hp) as Hg. rewrite enqueue_send_eq in * by done. cbn [snd] in *.
  match goal with |- context [map _ ?ps] => destruct (fed_data ps) as (F1 & F2 & F3) end.
  apply inv_turn; try done; [by eapply inv_side; eauto; destruct Hi|by rewrite F1].
Qed.

Lemma inv_socket_turn d outs p addr rest :
  Inv d outs -> idle d = true -> socket_out d = (p, addr) :: rest ->
  Inv (on_socket (set_socket_out d rest) camera_addr p addr) outs.
Proof.
  intros Hi Hid Hs. pose proof Hi as [H1 H2 H3 H4 H5 _ _]. rewrite Hs in H4. apply Forall_cons_iff in H4 as [Hp H4].
  cbn [fst snd] in Hp. assert (Inv (set_socket_out d rest) outs) as Hi' by by eapply inv_side.
  assert (forall f, f = flow d -> Inv (with_drain (set_socket_out d rest) f []) outs) as Hsame.
  { intros f ->. apply inv_turn; try done; [apply grows_refl|by intros [e []]|..]. }
  unfold on_socket. cbn [flow now set_socket_out]. case_bool_decide as Ha; [|by apply Hsame]. specialize (Hp Ha).
  destruct p as [disc|a|data]; cbn [genuine_packet] in Hp.
  - by apply Hsame.
  - destruct (_ =? _); [|by apply Hsame]. destruct (handle_ack_rest (flow d) a (now d)) as (Ew & Er & _ & Ec & _).
    apply inv_turn; try done; [by apply handle_ack_ok|unfold genuine; by rewrite Er|by rewrite Ec
      |apply handle_ack_grows|by intros [e []]|..].
  - destruct Hp as [Hu Hp].
    destruct (apply_event_spec P (flow d) (RecvData data) H1 H2 Hu) as (n & f & E & Hn & Hok & Hg & Hw & Hc);
      [cbn; by rewrite H3|].
    pose proof (handle_data_grows (flow d) data) as Hgr. cbn [apply_event] in E.
    assert (packets_want (snd (handle_data (flow d) data)) = packets_want (flow d)) as Hww.
    { unfold handle_data. by repeat case_match. }
    injection E as _ E. destruct (handle_data (flow d) data) as [took f']. cbn [snd] in *. subst f'.
    destruct took.
    + unfold with_ack. destruct (build_truthful f Hok) as (a & -> & Hta).
      apply inv_turn; try done; try congruence; try (by intros [e [[=]|[]]]);
        (apply Forall_cons_iff; split; [done|constructor]).
    + apply inv_turn; try done; try congruence; by intros [e []].
Qed.

(** Once the turn is failing nothing more goes to the application in order. *)
Lemma inv_failing d outs e : Inv d outs -> Inv (set_turn d (flow d) [OpFail e]) outs.
Proof.
  intros [H1 H2 H3 H4 H5 H6 H7]. split; try done.
  - destruct H5 as (? & ? & ? & ? & ?). by split_and!.
  - destruct H6 as (n & tail & ? & ? & ? & _). exists n, tail. split_and!; try done. cbn [pending set_turn].
    intros _ _ Hf. exfalso. apply Hf. exists e. by left.
Qed.

Lemma inv_pump d outs d' : Inv d outs -> main_done d = None -> pump d = Some d' -> Inv d' outs.
Proof.
  intros Hi Hm. pose proof Hi as [H1 H2 H3 H4 (A1 & A2 & A3 & A4 & A5) (n & tail & Hn & E & Ht & Hf & Hl) H7].
  unfold pump. destruct (pending d) as [|o ops] eqn:Ep; [done|].
  assert (forall a, o = OpAck a \/ o = OpFeed (Ack a) -> truthful (flow d) a) as Ho.
  { intros a [->| ->]; by apply Forall_cons_iff in A4 as [? _]. }
  assert (Forall (truthful (flow d)) (acks_fed ops)) as A4'.
  { destruct o as [[]| | |]; try exact A4; by apply Forall_cons_iff in A4 as [_ ?]. }
  assert (failing ops -> streams ops = []) as Hf'.
  { intros [e He]. assert (streams (o :: ops) = []) as Hs by (apply Hf; exists e; by right). by destruct o. }
  assert (streams [o] = [] -> ~ failing [o] -> main_done d = None -> stream_closed d = false -> ~ failing ops ->
    upto n ++ map Ok (streams ops) = upto (packets_want (flow d))) as Hl'.
  { intros Hns Hnf Hmd Hcl Hfo. rewrite <- Hl; [|done..|].
    - f_equal. f_equal. by destruct o.
    - intros [e [->|He]]; [apply Hnf; exists e; by left|]. apply Hfo. by exists e. }
  destruct o as [p|a|payload|e].
  - case_bool_decide; [|intros [= <-]; by apply inv_failing]. destruct (_ <? _)%nat; [|done]. intros [= <-].
    split; try done.
    + split_and!; try done. cbn [socket_in set_turn set_socket_in]. rewrite acks_of_app. apply Forall_app. split; [done|].
      destruct p as [disc|a|data]; [done| |done]. apply Forall_cons_iff. split; [apply Ho; by right|done].
    + exists n, tail. split_and!; try done. cbn [set_turn pending]. intros. apply Hl'; try done. by intros [e [[=]|[]]].
  - intros [= <-]. split; try done.
    + split_and!; try done. apply Ho. by left.
    + exists n, tail. split_and!; try done. cbn [set_turn pending]. intros. apply Hl'; try done. by intros [e [[=]|[]]].
  - destruct (stream_closed d) eqn:Ec; [intros [= <-]; by apply inv_failing|]. destruct (_ <? _)%nat; [|done].
    intros [= <-]. split; try done.
    destruct Ht as [->|[_ Ht]]; [|done]. rewrite app_nil_r in E.
    assert (~ failing (OpStream payload :: ops)) as Hnf by (intros Hff; by specialize (Hf Hff)).
    specialize (Hl Hm eq_refl Hnf). cbn [streams omap list_omap map] in Hl.
    assert (upto n ++ [Ok payload] = upto (n + 1)) as Hn1.
    { assert (0 < packets_want (flow d) - n) as Hlt.
      { apply (f_equal length) in Hl. rewrite length_app in Hl. unfold upto in Hl.
        rewrite !length_map, !length_seqZ in Hl. cbn [length] in Hl. lia. }
      rewrite <- (Z.sub_add n (packets_want (flow d))), Z.add_comm in Hl.
      replace (n + (packets_want (flow d) - n)) with (n + 1 + (packets_want (flow d) - n - 1)) in Hl by lia.
      rewrite <- !upto_app in Hl by lia. rewrite <- app_assoc in Hl. apply app_inv_head in Hl.
      rewrite <- upto_app by lia. assert (seqZ n 1 = [n]) as E1 by (by rewrite seqZ_cons by lia).
      rewrite E1 in *. cbn in Hl |- *. congruence. }
    exists (n + 1), []. split_and!; try done; [lia| |by left|].
    + cbn [thread_stream set_turn set_stream]. by rewrite app_assoc, E, app_nil_r.
    + cbn [pending set_turn flow set_stream]. intros _ _ _. rewrite <- Hn1, <- app_assoc. exact Hl.
  - destruct (stream_closed d) eqn:Ec; [intros [= <-]; by apply inv_end_main|]. destruct (_ <? _)%nat; [|done].
    intros [= <-]. destruct Ht as [->|[_ Ht]]; [|done]. split; try done.
    exists n, [Err e]. rewrite app_nil_r in E. split_and!; try done; cbn; [by rewrite app_assoc, E|].
    right. split; eauto.
Qed.

Lemma acks_more d outs o : acks_ok d outs -> Forall (truthful (flow d)) (acks_out o) -> acks_ok d (outs ++ o).
Proof. intros (A1 & A2 & A3 & A4 & A5) H. split_and!; try done. rewrite acks_out_app. by apply Forall_app. Qed.

(** The socket task's steps touch neither the flow nor the application. *)
Lemma inv_end_socket d outs r : Inv d outs -> Inv (end_socket d r) outs.
Proof.
  intros Hi. pose proof Hi as [_ _ _ H4 (A1 & A2 & A3 & A4 & A5) _ _]. eapply inv_side; eauto. by split_and!.
Qed.

Lemma inv_recv d outs p addr :
  Inv d outs -> (addr = camera_addr -> genuine_packet p) -> Inv (socket_recv d p addr) outs.
Proof.
  intros Hi Hg. assert (Inv (set_deadline d (now d + TIME_OUT)) outs) as Hi' by (pose proof Hi as []; by eapply inv_side).
  unfold socket_recv. case_match; [|by apply inv_end_socket]. pose proof Hi as [_ _ _ H4 H5 _ _].
  eapply inv_side; eauto. cbn [socket_out set_socket_out set_deadline]. apply Forall_app. split; [done|].
  apply Forall_cons_iff. by split.
Qed.

Lemma inv_send d outs w d' sent :
  Inv d outs -> socket_send d w = Some (d', sent) -> Inv d' (outs ++ map Wire sent).
Proof.
  intros Hi. pose proof Hi as [_ _ _ H4 (A1 & A2 & A3 & A4 & A5) _ _]. unfold socket_send.
  destruct (socket_in d) as [|p rest] eqn:Es; [done|].
  assert (Forall (truthful (flow d)) (acks_of rest)) as A3'.
  { destruct p; try exact A3. by apply Forall_cons_iff in A3 as [_ ?]. }
  assert (forall o, givens (map Wire o) = []) as Hw by (intros o; by induction o).
  assert (Inv (set_socket_in d rest) outs) as Hi' by (eapply inv_side; eauto; by split_and!).
  destruct w as [[|]|[|] tid []]; intros [= <- <-]; cbn [map]; rewrite ?app_nil_r;
    try (by apply inv_end_socket); try done.
  - eapply inv_side; eauto; [by rewrite givens_app, app_nil_r|]. apply acks_more; [by split_and!|].
    destruct p; [done| |done]. apply Forall_cons_iff in A3 as [? _]. apply Forall_cons_iff. by split.
  - eapply inv_side; eauto; [by rewrite givens_app, app_nil_r|]. apply acks_more; [by split_and!|done].
Qed.

Lemma inv_queue d outs p d' :
  Inv d outs -> queue_packet d p = Some d' -> (forall a, p = Ack a -> truthful (flow d) a) -> Inv d' outs.
Proof.
  intros Hi E Hp. pose proof Hi as [_ _ _ H4 (A1 & A2 & A3 & A4 & A5) _ _]. unfold queue_packet in E.
  case_match; [|done]. injection E as <-. eapply inv_side; eauto. split_and!; try done.
  cbn [socket_in set_socket_in]. rewrite acks_of_app. apply Forall_app. split; [done|].
  destruct p; [done| |done]. apply Forall_cons_iff. split; [by apply Hp|done].
Qed.

Lemma inv_take d outs item rest :
  Inv d outs -> thread_stream d = item :: rest -> Inv (set_stream d rest) (outs ++ [Given item]).
Proof.
  intros [H1 H2 H3 H4 H5 H6 H7] E. split; try done.
  - by apply acks_more.
  - destruct H6 as (n & tail & Hn & E6 & Hrest). exists n, tail. split; [done|]. split; [|done].
    rewrite givens_app. cbn [thread_stream set_stream]. rewrite E in E6. by rewrite <- E6, <- app_assoc.
Qed.

Lemma inv_drop d outs : Inv d outs -> Inv (close_stream d) outs.
Proof.
  intros [H1 H2 H3 H4 H5 H6 H7]. split; try done. destruct H6 as (n & tail & Hn & E & Ht & Hf & _).
  destruct (upto_prefix (givens outs) n tail Hn) as (m & tail' & Hm & Em & Ht').
  - destruct Ht as [?|[? _]]; [by left|by right].
  - exists (thread_stream d). by symmetry.
  - exists m, tail'. cbn [thread_stream close_stream main_done stream_closed pending]. rewrite app_nil_r.
    split_and!; try done. destruct Ht' as [->| ->]; [by left|done].
Qed.

Lemma driver_start camera_id t : Inv (new cid camera_id t) [].
Proof.
  split; cbn.
  - by apply new_ok.
  - intros k x Hk. cbn in Hk. apply lookup_empty_Some in Hk as [].
  - done.
  - done.
  - split_and!; try done. apply empty_truthful.
  - exists 0, []. split_and!; try done; by left.
  - done.
Qed.

Lemma step_inv d outs l d' o :
  Inv d outs -> genuine_label l -> step camera_addr d l = Some (d', o) -> Inv d' (outs ++ o).
Proof.
  intros Hi Hg E. pose proof Hi as [H1 H2 H3 H4 H5 H6 H7].
  assert (forall b x, when b x = Some (d', o) -> (b = true -> Inv x outs) -> Inv d' (outs ++ o)) as Hwhen.
  { intros [] x Hx Hinv; [|done]. injection Hx as <- <-. rewrite app_nil_r. by apply Hinv. }
  destruct l; cbn [step genuine_label] in E, Hg; unfold socket_timeout, socket_cancelled, ack_tick, ack_send, heartbeat_tick,
    from_application, from_socket, found_closed, main_cancelled, app_take, app_send, socket_up in E; try (eapply Hwhen; [exact E|]; intros Hb; clear E Hwhen).
  - by eapply inv_side.
  - by apply inv_recv.
  - by apply inv_end_socket.
  - by apply inv_end_socket.
  - case_bool_decide; [|done]. destruct (socket_send d w) as [[x sent]|] eqn:Es; [|done]. injection E as <- <-.
    by eapply inv_send.
  - by apply inv_end_socket.
  - destruct H5 as (A1 & A2 & A3 & A4 & A5). eapply inv_side; eauto. split_and!; try done. by intros a [= <-].
  - case_match; [|done]. destruct (ack_waiting d) as [a|] eqn:Ea; [|done]. cbn in E.
    destruct (queue_packet d (Ack a)) as [x|] eqn:Eq; [|done]. injection E as <- <-. rewrite app_nil_r.
    destruct H5 as (A1 & A2 & A3 & A4 & A5).
    assert (Inv x outs) as Hx by (eapply inv_queue; eauto; intros b [= <-]; by apply A2).
    pose proof Hx as [_ _ _ G4 (B1 & B2 & B3 & B4 & B5) _ _]. eapply inv_side; eauto. by split_and!.
  - case_match; [|done]. destruct (queue_packet d _) as [x|] eqn:Eq; [|done]. injection E as <- <-. rewrite app_nil_r.
    by eapply inv_queue.
  - by apply inv_resend.
  - destruct (idle d) eqn:Hid; [|done]. destruct (thread_sink d) as [|item rest].
    + case_match; [|done]. injection E as <- <-. rewrite app_nil_r. by apply inv_failing.
    + injection E as <- <-. rewrite app_nil_r. by apply inv_sink.
  - destruct (idle d) eqn:Hid; [|done]. destruct (socket_out d) as [|[p addr] rest] eqn:Es.
    + case_bool_decide; [done|]. injection E as <- <-. rewrite app_nil_r. by apply inv_failing.
    + injection E as <- <-. rewrite app_nil_r. by apply inv_socket_turn.
  - by apply inv_end_main.
  - case_bool_decide; [|done]. destruct (pump d) as [x|] eqn:Ex; [|done]. injection E as <- <-. rewrite app_nil_r.
    by eapply inv_pump.
  - by apply inv_end_main.
  - destruct (thread_stream d) as [|item rest] eqn:Et; [done|]. injection E as <- <-. by apply inv_take.
  - by eapply inv_side.
  - by apply inv_drop.
Qed.

Lemma run_inv ls : forall d outs d' o,
  Inv d outs -> Forall genuine_label ls -> run camera_addr d ls = Some (d', o) -> Inv d' (outs ++ o).
Proof.
  induction ls as [|l ls IH]; intros d outs d' o Hi Hg E; cbn [run] in E.
  - injection E as <- <-. by rewrite app_nil_r.
  - apply Forall_cons_iff in Hg as [Hl Hg]. destruct (step camera_addr d l) as [[d1 o1]|] eqn:E1; [|done].
    cbn in E. destruct (run camera_addr d1 ls) as [[d2 o2]|] eqn:E2; [|done]. injection E as <- <-.
    rewrite app_assoc. eapply IH; eauto. by eapply step_inv.
Qed.

(** What the application has been given, over any run. *)
Lemma given_payloads camera_id t ls d outs :
  Forall genuine_label ls -> run camera_addr (new cid camera_id t) ls = Some (d, outs) ->
  exists n tail, givens outs = map Ok (map P (seqZ 0 n)) ++ tail /\ (tail = [] \/ exists e, tail = [Err e]).
Proof.
  intros Hg E. destruct (run_inv ls _ [] d outs (driver_start camera_id t) Hg E)
    as [_ _ _ _ _ (n & tail & Hn & E6 & Ht & _) _].
  destruct (upto_prefix (givens outs) n tail Hn) as (m & tail' & _ & Em & Ht'); [|by exists (thread_stream d)|].
  - destruct Ht as [?|[? _]]; [by left|by right].
  - exists m, tail'. split; [done|]. destruct Ht' as [->| ->]; [by left|]. destruct Ht as [->|[? _]]; [by left|by right].
Qed.
End invariant.

(** ** Progress

    On an idle connection that is not behind, the packet the flow waits for is
    in the application's hands five steps after it arrives. *)

Definition next_packet_labels (camera_addr : SocketAddr) (p : UdpData) : list Label :=
  [SocketRecv (Data p) camera_addr; FromSocket; Pump; Pump; AppTake].

Lemma step_recv camera_addr d p addr :
  socket_done d = None -> main_done d = None -> socket_out d = [] ->
  step camera_addr d (SocketRecv p addr) = Some (set_socket_out (set_deadline d (now d + TIME_OUT)) [(p, addr)], []).
Proof.
  intros Hs Hm Ho. cbn [step]. unfold socket_up, socket_recv. rewrite Hs. cbn [socket_out main_done set_deadline].
  by rewrite Hm, Ho.
Qed.

Lemma step_from_socket camera_addr d p addr :
  idle d = true -> socket_out d = [(p, addr)] ->
  step camera_addr d FromSocket = Some (on_socket (set_socket_out d []) camera_addr p addr, []).
Proof. intros Hi Ho. cbn [step]. unfold from_socket. by rewrite Hi, Ho. Qed.

Lemma step_pump_ack camera_addr d f a ops :
  main_done d = None ->
  step camera_addr (set_turn d f (OpAck a :: ops)) Pump = Some (set_turn (set_ack (set_turn d f (OpAck a :: ops)) a) f ops, []).
Proof. intros Hm. cbn [step main_done set_turn]. by rewrite Hm. Qed.

Lemma step_pump_stream camera_addr d x ops :
  main_done d = None -> stream_closed d = false -> thread_stream d = [] -> pending d = OpStream x :: ops ->
  step camera_addr d Pump = Some (set_turn (set_stream d [Ok x]) (flow d) ops, []).
Proof. intros Hm Hc Ht Hp. cbn [step]. rewrite Hm. unfold pump. by rewrite Hp, Hc, Ht. Qed.

Theorem next_packet_given d camera_addr p :
  flow_ok (flow d) -> idle d = true -> socket_done d = None -> socket_out d = [] -> thread_stream d = [] ->
  stream_closed d = false -> (received_len (flow d) < REORDER_CAP)%nat -> packets_want (flow d) < u32_max ->
  data_connection_id p = client_id (flow d) -> data_packet_id p = packets_want (flow d) ->
  exists d', run camera_addr d (next_packet_labels camera_addr p) = Some (d', [Given (Ok (data_payload p))])
    /\ packets_want (flow d) < packets_want (flow d').
Proof.
  intros Hok Hid Hs Ho Ht Hc Hlen Hm Hcid Hpid.
  destruct (in_order_progress (flow d) p Hok Hlen Hm Hcid Hpid) as (rest & f' & Ea & Edr & Hlt & _).
  assert (u32 (data_packet_id p)) as Hu by (rewrite Hpid; apply Hok).
  pose proof (handle_data_ok (flow d) p Hok Hu) as Hok'.
  destruct (handle_data (flow d) p) as [took f] eqn:Eh. cbn [fst snd] in *. subst took.
  destruct (build_truthful f Hok') as (a & Eb & _). pose proof Hid as Hid'.
  apply andb_true_iff in Hid' as [_ Hm'%bool_decide_eq_true].
  unfold next_packet_labels. cbn [run]. rewrite step_recv by done. cbn [mbind option_bind].
  rewrite (step_from_socket _ _ (Data p) camera_addr) by done. cbn [mbind option_bind].
  unfold on_socket. rewrite (bool_decide_eq_true_2 (camera_addr = camera_addr)) by done.
  cbn [flow set_socket_out set_deadline]. rewrite Eh. unfold with_ack, with_drain. rewrite Eb, Edr.
  cbn [app map]. rewrite step_pump_ack by done. cbn [mbind option_bind].
  erewrite step_pump_stream by done. cbn [mbind option_bind step app_take thread_stream set_turn set_stream app].
  eexists. split; [reflexivity|]. exact Hlt.
Qed.

End driver.

(** ** The properties *)

(** Whatever the network reorders, repeats, loses or forges from other
    addresses, and however the tasks and the application are scheduled, the
    application is given exactly the camera's payloads 0, 1, 2, ... in order,
    each once, and after them at most one error; the main task never panics. *)
Theorem driver_in_order `{Serde} P client_id camera_id camera_addr t ls d outs :
  Forall (genuine_label P client_id camera_addr) ls ->
  run camera_addr (new client_id camera_id t) ls = Some (d, outs) ->
  main_done d <> Some Panicked /\
  exists n tail, givens outs = map Ok (map P (seqZ 0 n)) ++ tail /\ (tail = [] \/ exists e, tail = [Err e]).
Proof.
  intros Hg E. split; [|by eapply given_payloads].
  by destruct (run_inv P client_id camera_addr ls _ [] d outs (driver_start P client_id camera_addr camera_id t) Hg E).
Qed.

(** C9: An acknowledgement on the wire, however old it is when it leaves, makes
    no sender forget a packet the client neither delivered nor holds. *)
Theorem acks_truthful `{Serde} P client_id camera_id camera_addr t ls d outs a s now k p :
  Forall (genuine_label P client_id camera_addr) ls ->
  run camera_addr (new client_id camera_id t) ls = Some (d, outs) -> In (Wire (Ack a)) outs ->
  sent s !! k = Some p -> sent (handle_ack s a now) !! k = None ->
  k < packets_want (flow d) \/ is_Some (received (flow d) !! k).
Proof.
  intros Hg E Hin H1 H2. destruct (run_inv P client_id camera_addr ls _ [] d outs (driver_start P client_id camera_addr camera_id t) Hg E)
    as [_ _ _ _ (_ & _ & _ & _ & Hout) _ _]. rewrite List.Forall_forall in Hout.
  eapply (Hout a); [|exact H1|exact H2]. apply list_elem_of_In, list_elem_of_omap.
  exists (Wire (Ack a)). split; [by apply list_elem_of_In|done].
Qed.

#[local] Existing Instances serde_toy.

Definition camera : SocketAddr := MkSocketAddr (V4 [192; 168; 1; 20]) 2018.
Definition stranger : SocketAddr := MkSocketAddr (V4 [10; 0; 0; 9]) 2018.

(** Packets 1 and 0 arrive, an older acknowledgement leaves, a stranger forges
    packet 2; the application takes what is there; the socket then times out. *)
Definition busy : list Label :=
  [SocketRecv (Data (MkUdpData 5 1 [1])) camera; FromSocket; Pump; SocketRecv (Data (MkUdpData 5 2 [66])) stranger;
   AckTick; AckSend; SocketRecv (Data (MkUdpData 5 0 [0])) camera; SocketSend (Quick (Ok tt)); FromSocket; FromSocket;
   Pump; Pump; AckTick; AckSend; Pump; SocketSend (Quick (Ok tt)); AppTake; Elapse TIME_OUT; SocketTimeout; FromSocket; Pump;
   AppTake; AppTake].

Lemma busy_genuine : Forall (genuine_label (fun k => [k]) 5 camera) busy.
Proof.
  unfold busy. repeat (apply Forall_cons_iff; split); try done; cbn; intros E; split; done.
Qed.

Definition ran (ls : list Label) : option (Driver * list Out) := run camera (new 5 6 0) ls.

Definition given_of (r : option (Driver * list Out)) : list (result bytes Error) :=
  match r with Some (_, o) => givens o | None => [] end.

Example busy_gives : given_of (ran busy) = [Ok [0]; Ok [1]; Err NoneReceived].
Proof. vm_compute. reflexivity. Qed.

Lemma driver_in_order_witness :
  exists d outs, ran busy = Some (d, outs) /\ main_done d <> Some Panicked /\ exists n tail,
    givens outs = map Ok (map (fun k => [k]) (seqZ 0 n)) ++ tail /\ (tail = [] \/ exists e, tail = [Err e]).
Proof.
  pose proof busy_gives as Hg. destruct (ran busy) as [[d outs]|] eqn:E; [|discriminate]. exists d, outs. split; [done|].
  exact (driver_in_order (fun k => [k]) 5 6 camera 0 busy d outs busy_genuine E).
Defined.

(** One data packet, and the acknowledgement of it on the wire: the one built when
    packet 0 comes acknowledges nothing yet, the resend tick publishes the next. *)
Definition acked : list Label :=
  [SocketRecv (Data (MkUdpData 5 0 [0])) camera; FromSocket; Pump; Pump; ResendTick; Pump; AckTick; AckSend;
   SocketSend (Quick (Ok tt))].

Lemma acked_genuine : Forall (genuine_label (fun k => [k]) 5 camera) acked.
Proof.
  unfold acked. repeat (apply Forall_cons_iff; split); try done; cbn; intros E; split; done.
Qed.

Definition ack_of (r : option (Driver * list Out)) : UdpAck :=
  match r with Some (_, Wire (Ack a) :: _) => a | _ => empty_ack 0 end.

Definition sender : UdpFlowState := snd (enqueue_send (UdpFlow.new 6 5) [1; 2; 3]).

Definition forgets (s : UdpFlowState) (a : UdpAck) (k : Z) : bool :=
  bool_decide (is_Some (sent s !! k)) && bool_decide (sent (UdpFlow.handle_ack s a 0) !! k = None).

Definition leaves (r : option (Driver * list Out)) : bool :=
  match r with Some (_, Wire (Ack _) :: _) => true | _ => false end.

Lemma acks_truthful_witness :
  exists d outs a, ran acked = Some (d, outs) /\ In (Wire (Ack a)) outs /\ forgets sender a 0 = true
    /\ (0 < packets_want (flow d) \/ is_Some (received (flow d) !! 0)).
Proof.
  assert (leaves (ran acked) = true) as Hl by (vm_compute; reflexivity).
  assert (forgets sender (ack_of (ran acked)) 0 = true) as Hf by (vm_compute; reflexivity).
  destruct (ran acked) as [[d outs]|] eqn:E; [|exfalso; clear -Hl; discriminate Hl].
  exists d, outs, (ack_of (Some (d, outs))).
  assert (In (Wire (Ack (ack_of (Some (d, outs))))) outs) as Hin.
  { destruct outs as [|[[]|] ?]; try discriminate. by left. }
  split; [done|]. split; [done|]. split; [done|]. pose proof Hf as Hf'. apply andb_true_iff in Hf' as [Hk Hn].
  apply bool_decide_eq_true in Hk as [p Hk]. apply bool_decide_eq_true in Hn.
  exact (acks_truthful (fun k => [k]) 5 6 camera 0 acked d outs _ sender 0 0 p acked_genuine E Hin Hk Hn).
Defined.

(** *** The limit: a main task that stands still

    The application does not read, so the main task waits for room in its
    channel of 100; the camera's packets then fill the 500 of the socket
    channel, and the next packet, of whatever address, ends the socket task. *)

Definition unread : list Label :=
  flat_map (fun k => [SocketRecv (Data (MkUdpData 5 (Z.of_nat k) [0])) camera; FromSocket; Pump; Pump]) (seq 0 STREAM)
  ++ [SocketRecv (Data (MkUdpData 5 100 [0])) camera; FromSocket; Pump].

Definition flood : list Label := List.repeat (SocketRecv (Ack (empty_ack 5)) stranger) QUEUE.

Definition ended (r : option (Driver * list Out)) : option (option Finished) :=
  match r with Some (d, _) => Some (socket_done d) | None => None end.

Example flood_waits : ended (ran (unread ++ flood)) = Some None.
Proof. vm_compute. reflexivity. Qed.

Example flood_ends :
  ended (ran (unread ++ flood ++ [SocketRecv (Ack (empty_ack 5)) stranger])) = Some (Some (Returned (Err SendFailed))).
Proof. vm_compute. reflexivity. Qed.
