(* ===== verification/UdpSource.v ===== *)
(** * Messages over UDP ([src/baichuan/bc_protocol/connection/udpsource.rs])

    [UdpSource] is the codec of [BcMsg] framed over the byte stream of
    [UdpDriver]: the payloads the application is given, up to the first error,
    are the bytes the codec reads. *)

From S2P Require Import Prelude Wire XorCrypto BcXml BcMsg BcUdp BcUdpXml WakeServer UdpFlow UdpDriver.

Section source.
Context `{Sd : Serde} `{X : QuickXml} `{A : Aes128Cfb} `{!Aes128CfbLaws A} `{H5 : Md5}.
Context `{N : Nom} `{!NomLaws N} `{C : CookieFactory} `{!CookieFactoryLaws C}.

(** The codec of [UdpSource::new_from_socket]. *)
Definition open_codex (username : bytes) (password : option bytes) (debug : bool) : BcCodex :=
  let credentials := MkCredentials username password in
  if debug then new_with_debug credentials else BcMsg.new credentials.

(** The reader side of the payload source: a read error ends the stream. *)
Fixpoint async_read (items : list (result bytes Error)) : list bytes :=
  match items with
  | Ok payload :: items => payload :: async_read items
  | _ => []
  end.

(** The messages the framed source yields. *)
Definition messages (codex : BcCodex) (items : list (result bytes Error)) : list Bc * BcCodex * bytes :=
  Wire.pump codex_step codex [] (async_read items).

Lemma async_read_ok (bs : list bytes) tail :
  tail = [] \/ (exists e, tail = [Err e]) -> async_read (map Ok bs ++ tail) = bs.
Proof. induction bs as [|b bs IH]; [by intros [->|[e ->]]|]. intros Ht. cbn. by rewrite IH. Qed.

(** What the camera's packets carry are consecutive pieces of its stream. *)
Definition carries (P : Z -> bytes) (codex : BcCodex) (ms : list Bc) : Prop :=
  forall n, exists tail, stream wire learned codex ms = concat (map P (seqZ 0 n)) ++ tail.

Lemma carried_messages P codex ms n :
  session_ok codex ms -> carries P codex ms ->
  exists ys zs rest, ms = ys ++ zs
    /\ Wire.pump codex_step codex [] (map P (seqZ 0 n)) = (ys, after learned codex ys, rest).
Proof.
  intros Hok Hc. destruct (Hc n) as [tail E].
  apply (pump_partial codex_step wire learned (fun _ => True)) with (tail := tail); [|done|done| |done].
  - intros s' _. unfold codex_step, decode, De.deserialize, De.bc_msg, De.bc_header.
    by rewrite consumed_eq, verify_eq, le_u32_eq.
  - clear E Hc. revert codex Hok. induction ms as [|m ms IH]; intros s Hok; [done|].
    destruct Hok as (Hm & Hn & Hok). split; [by apply msg_frame_ok|by apply IH].
Qed.

(** C2: Over UDP, whatever the network reorders, repeats, loses or others
    forge, and however the tasks are scheduled, the messages the source yields
    are the first of the messages the camera wrote, in order and complete, and
    the codec is in the state they lead to. *)
Theorem udp_messages P client_id camera_id camera_addr t username password debug ms ls d outs :
  Forall (genuine_label P client_id camera_addr) ls ->
  session_ok (open_codex username password debug) ms -> carries P (open_codex username password debug) ms ->
  UdpDriver.run camera_addr (UdpDriver.new client_id camera_id t) ls = Some (d, outs) ->
  exists ys zs rest, ms = ys ++ zs
    /\ messages (open_codex username password debug) (givens outs)
       = (ys, after learned (open_codex username password debug) ys, rest).
Proof.
  intros Hg Hok Hc E. destruct (given_payloads P client_id camera_addr camera_id t ls d outs Hg E) as (n & tail & -> & Ht).
  unfold messages. rewrite async_read_ok by done. by apply carried_messages.
Qed.
End source.

(** The session of [BcMsg], in two packets that arrive in the wrong order, with
    one of a stranger between them. *)
#[local] Existing Instances serde_toy.

Definition toy_packets (k : Z) : bytes :=
  if k =? 0 then take 30 toy_bytes else if k =? 1 then drop 30 toy_bytes else [].

Definition toy_labels : list Label :=
  [SocketRecv (Data (MkUdpData 5 1 (toy_packets 1))) camera; FromSocket; Pump;
   SocketRecv (Data (MkUdpData 5 1 [66; 66])) stranger; FromSocket;
   SocketRecv (Data (MkUdpData 5 0 (toy_packets 0))) camera; FromSocket; Pump; Pump; Pump; AppTake; AppTake].

Lemma toy_labels_genuine : Forall (genuine_label toy_packets 5 camera) toy_labels.
Proof. unfold toy_labels. repeat (apply Forall_cons_iff; split); try done; cbn [genuine_label]; intros E; split; done. Qed.

Lemma toy_carries :
  carries (X := BcMsg.xml_toy) (A := aes_toy) (H5 := md5_toy) (C := cf_std) toy_packets toy_start toy_session.
Proof.
  intros n. change (stream _ _ toy_start toy_session) with toy_bytes.
  destruct (decide (n <= 0)) as [Hn|Hn]; [by rewrite seqZ_nil; [exists toy_bytes|]|].
  rewrite seqZ_cons by lia. destruct (decide (n = 1)) as [->|Hn1].
  - exists (drop 30 toy_bytes). cbn [map concat Z.pred]. rewrite app_nil_r. symmetry. apply take_drop.
  - rewrite seqZ_cons by lia. exists []. cbn [map concat]. rewrite app_nil_r, app_assoc.
    assert (concat (map toy_packets (seqZ (Z.succ (Z.succ 0)) (Z.pred (Z.pred n)))) = []) as ->.
    { apply concat_nil_Forall, List.Forall_forall. intros b Hb. apply in_map_iff in Hb as (k & <- & Hk).
      apply list_elem_of_In, elem_of_seqZ in Hk. unfold toy_packets.
      destruct (Z.eqb_spec k 0); [lia|]. destruct (Z.eqb_spec k 1); [lia|]. done. }
    rewrite app_nil_r. symmetry. apply take_drop.
Qed.

Definition toy_ran : option (Driver * list Out) := ran toy_labels.

Example toy_given : given_of toy_ran = [Ok (take 30 toy_bytes); Ok (drop 30 toy_bytes)].
Proof. vm_compute. reflexivity. Qed.

Lemma udp_messages_witness :
  exists d outs ys zs rest, toy_ran = Some (d, outs) /\ toy_session = ys ++ zs
    /\ messages (X := BcMsg.xml_toy) (A := aes_toy) (H5 := md5_toy) (N := nom_std) toy_start (givens outs)
       = (ys, after (learned (H5 := md5_toy)) toy_start ys, rest).
Proof.
  pose proof toy_given as Hg. destruct toy_ran as [[d outs]|] eqn:E; [|exfalso; clear -Hg; discriminate Hg].
  exists d, outs.
  destruct (udp_messages (X := BcMsg.xml_toy) (A := aes_toy) (H5 := md5_toy) (N := nom_std) (C := cf_std) toy_packets 5 6 camera 0
    [97] None false toy_session toy_labels d outs toy_labels_genuine toy_session_ok toy_carries E)
    as (ys & zs & rest & H1 & H2).
  exists ys, zs, rest. split; [reflexivity|]. split; [exact H1|exact H2].
Defined.
