(* ===== verification/MotionListener.v ===== *)
(** * Motion ([src/camera_tasks.rs] motion_listener,
    [src/baichuan/bc_protocol/motion.rs])

    One task per session listens to the camera's motion messages, reports them
    and holds the wake lock from the first motion until [motion_wake_hold] after
    the last stop. [MotionData] is the channel of 20 between the task that reads
    the camera and the listener; [Listener] is the listener's task, a [Label]
    what happens next. Reporting is awaited inside the turn, so nothing else of
    the turn's [select!] happens meanwhile. Times are in nanoseconds. *)

From S2P Require Import Prelude Commands CameraRun.

(** ** [MotionData] *)

(** What the reading task sends: a status or, last, the error it ended with. *)
Inductive Item := Status (s : MotionStatus) | Broken.

Definition CHANNEL : nat := 20.

(** [consume_motion_events]: everything buffered, and what stays. An error, or
    a sender that is gone, takes what was read before it along. *)
Fixpoint consume_motion_events (rx : list Item) (closed : bool) : option (list MotionStatus) * list Item :=
  match rx with
  | [] => (if closed then None else Some [], [])
  | Broken :: rx => (None, rx)
  | Status s :: rx => let '(l, rx) := consume_motion_events rx closed in (cons s <$> l, rx)
  end.

(** How a poll of [next_motion] ends; [awaiting] says whether an earlier poll of
    the same call has found the channel empty and waits in [recv]. *)
Inductive Polled := Ready (s : option MotionStatus) (rx : list Item) | Waits.

Definition next_motion (awaiting : bool) (rx : list Item) (closed : bool) : Polled :=
  if awaiting then
    match rx with
    | Status s :: rx => Ready (Some s) rx
    | Broken :: rx => Ready None rx
    | [] => if closed then Ready None [] else Waits
    end
  else
    match consume_motion_events rx closed with
    | (None, rx) => Ready None rx
    | (Some l, rx) => match list.last l with Some s => Ready (Some s) rx | None => Waits end
    end.

(** ** The listener *)

(** [Reporting arm]: a report is under way, after which a stop arms the
    release. *)
Inductive Phase :=
| Subscribing
| Listening (awaiting : bool)
| Reporting (arm : bool)
| BackingOff (until : Z)
| Finished.

Record Listener := MkListener {
  now : Z;
  cancelled : bool;
  backoff : ReconnectBackoff;
  where_at : Phase;
  rx : list Item;
  closed : bool;
  guard : bool;
  release_at : option Z
}.

(** Why a guard is given back. *)
Inductive Why := HoldOver | SubscriptionOver | SessionOver.

Inductive Out :=
| Acquired (t : Z)
| Reported (t : Z) (detected : bool)
| Released (t : Z) (why : Why).

Inductive Label :=
| Elapse (t : Z)
| Cancel
| ListenOk
| ListenFails
| Arrives (i : Item)
| ReaderGone
| PollMotion
| HoldExpires
| ReportDone
| BackoffOver
| SeesCancel.

Definition start (t : Z) : Listener :=
  MkListener t false (ReconnectBackoff_new (millis 1000) (millis 60000)) Subscribing [] false false None.

Definition set_now (m : Listener) (t : Z) : Listener :=
  MkListener t (cancelled m) (backoff m) (where_at m) (rx m) (closed m) (guard m) (release_at m).
Definition set_cancelled (m : Listener) : Listener :=
  MkListener (now m) true (backoff m) (where_at m) (rx m) (closed m) (guard m) (release_at m).
Definition set_where (m : Listener) (p : Phase) : Listener :=
  MkListener (now m) (cancelled m) (backoff m) p (rx m) (closed m) (guard m) (release_at m).
Definition set_channel (m : Listener) (l : list Item) (c : bool) : Listener :=
  MkListener (now m) (cancelled m) (backoff m) (where_at m) l c (guard m) (release_at m).
Definition set_guard (m : Listener) (g : bool) (r : option Z) : Listener :=
  MkListener (now m) (cancelled m) (backoff m) (where_at m) (rx m) (closed m) g r.
Definition set_backoff (m : Listener) (b : ReconnectBackoff) : Listener :=
  MkListener (now m) (cancelled m) b (where_at m) (rx m) (closed m) (guard m) (release_at m).

(** The guard is dropped where it is held. *)
Definition release (m : Listener) (why : Why) : list Out := if guard m then [Released (now m) why] else [].

(** The locals of a turn of the outer loop go: the guard, and the subscription. *)
Definition leave (m : Listener) (p : Phase) (why : Why) : Listener * list Out :=
  (set_where (set_channel (set_guard m false None) [] false) p, release m why).

(** [sleep_with_cancel] begins. The locals live on until it ends. *)
Definition back_off (m : Listener) : Listener :=
  let '(delay, b) := next_delay (backoff m) in set_where (set_backoff m b) (BackingOff (now m + delay)).

Definition on_motion (motion_wake_hold : Z) (m : Listener) (s : MotionStatus) : Listener * list Out :=
  match s with
  | MotionStart =>
      (set_where (set_guard m true None) (Reporting false),
       (if guard m then [] else [Acquired (now m)]) ++ [Reported (now m) true])
  | MotionStop => (set_where m (Reporting true), [Reported (now m) false])
  | NoChange => (set_where m (Listening false), [])
  end.

Definition report_done (motion_wake_hold : Z) (m : Listener) (arm : bool) : Listener :=
  set_where (if arm && guard m then set_guard m true (Some (now m + motion_wake_hold)) else m) (Listening false).

Definition hold_expires (m : Listener) : option (Listener * list Out) :=
  match release_at m with
  | Some r =>
      if r <=? now m then Some (set_where (set_guard m false None) (Listening false), release m HoldOver) else None
  | None => None
  end.

Definition step (motion_wake_hold : Z) (m : Listener) (l : Label) : option (Listener * list Out) :=
  match l, where_at m with
  | Elapse t, _ => if 0 <=? t then Some (set_now m (now m + t), []) else None
  | Cancel, _ => Some (set_cancelled m, [])
  | ListenOk, Subscribing =>
      Some (set_where (set_backoff (set_channel m [] false) (reset (backoff m))) (Listening false), [])
  | ListenFails, Subscribing => Some (back_off m, [])
  | Arrives i, (Listening _ | Reporting _ | BackingOff _) =>
      if (length (rx m) <? CHANNEL)%nat && negb (closed m) then Some (set_channel m (rx m ++ [i]) false, []) else None
  | ReaderGone, (Listening _ | Reporting _ | BackingOff _) => Some (set_channel m (rx m) true, [])
  | PollMotion, Listening awaiting =>
      match next_motion awaiting (rx m) (closed m) with
      | Waits => Some (set_where m (Listening true), [])
      | Ready (Some s) rest => Some (on_motion motion_wake_hold (set_channel m rest (closed m)) s)
      | Ready None rest => Some (back_off (set_channel m rest (closed m)), [])
      end
  | HoldExpires, Listening _ => hold_expires m
  | ReportDone, Reporting arm => Some (report_done motion_wake_hold m arm, [])
  | BackoffOver, BackingOff until =>
      if until <=? now m then Some (leave m Subscribing SubscriptionOver) else None
  | SeesCancel, (Listening _ | BackingOff _) =>
      if cancelled m then Some (leave m Finished SessionOver) else None
  | _, _ => None
  end.

Fixpoint run (motion_wake_hold : Z) (m : Listener) (ls : list Label) : option (Listener * list Out) :=
  match ls with
  | [] => Some (m, [])
  | l :: ls =>
      '(m, o) ← step motion_wake_hold m l;
      '(m, o') ← run motion_wake_hold m ls;
      Some (m, o ++ o')
  end.

(** ** What the guard does *)

(** The guards out: the wake lock counts them. *)
Definition weight (o : Out) : Z :=
  match o with Acquired _ => 1 | Released _ _ => -1 | Reported _ _ => 0 end.

Definition held (outs : list Out) : Z := fold_right (fun o n => weight o + n) 0 outs.

(** The last thing reported, and when. *)
Definition last_report (outs : list Out) : option (Z * bool) :=
  list.last (omap (fun o => match o with Reported t b => Some (t, b) | _ => None end) outs).

Lemma held_app l k : held (l ++ k) = held l + held k.
Proof. induction l as [|o l IH]; [done|]. cbn [held fold_right app] in *. fold (held (l ++ k)). fold (held l). lia. Qed.

Lemma last_report_app l k :
  last_report (l ++ k) = match last_report k with Some r => Some r | None => last_report l end.
Proof. unfold last_report. rewrite omap_app, last_app. by destruct (list.last _). Qed.

(** Motion was reported, and no guard given back since. *)
Definition awake (outs : list Out) : bool :=
  fold_left (fun b o => match o with Reported _ true => true | Released _ _ => false | _ => b end) outs false.

(** What a phase says about the guard and the report: between turns, motion
    that is on holds the guard with no release armed; an armed release lies
    [motion_wake_hold] after a stop. *)
Record inv (hold : Z) (m : Listener) (outs : list Out) : Prop := {
  inv_held : held outs = if guard m then 1 else 0;
  inv_armed r : release_at m = Some r ->
    guard m = true /\ (forall a, where_at m = Listening a -> exists t, last_report outs = Some (t, false) /\ t + hold <= r);
  inv_report arm : where_at m = Reporting arm ->
    (exists t, t <= now m /\ last_report outs = Some (t, negb arm)) /\ (arm = false -> guard m = true /\ release_at m = None);
  inv_off p : where_at m = p -> p = Subscribing \/ p = Finished -> guard m = false /\ release_at m = None;
  inv_on a : where_at m = Listening a -> guard m = true -> release_at m = None ->
    exists t, last_report outs = Some (t, true);
  inv_awake : awake outs = true -> guard m = true
}.

(** A release by the hold comes no sooner than [hold] after a stop that was the
    last thing reported. *)
Definition prompt (hold : Z) (outs : list Out) : Prop :=
  forall pre t post, outs = pre ++ Released t HoldOver :: post ->
    held pre = 1 /\ exists t', last_report pre = Some (t', false) /\ t' + hold <= t.

Lemma prompt_snoc hold outs o : prompt hold outs ->
  (forall t, o = Released t HoldOver -> held outs = 1 /\ exists t', last_report outs = Some (t', false) /\ t' + hold <= t) ->
  prompt hold (outs ++ [o]).
Proof.
  intros Hp Ho pre t post E. destruct post as [|o' post' _] using rev_ind.
  - apply app_inj_tail in E as [-> ->]. by apply Ho.
  - rewrite app_comm_cons, app_assoc in E. apply app_inj_tail in E as [E ->]. by eapply Hp.
Qed.

Lemma prompt_quiet hold outs k : prompt hold outs -> Forall (fun o => match o with Released _ HoldOver => False | _ => True end) k ->
  prompt hold (outs ++ k).
Proof.
  intros Hp Hk. induction k as [|o k IH] using rev_ind; [by rewrite app_nil_r|].
  apply Forall_app in Hk as [Hk Ho]. apply Forall_cons_iff in Ho as [Ho _]. rewrite app_assoc.
  apply prompt_snoc; [by apply IH|]. by intros t ->.
Qed.

Lemma awake_app l k :
  awake (l ++ k) = fold_left (fun b o => match o with Reported _ true => true | Released _ _ => false | _ => b end) k (awake l).
Proof. unfold awake. by rewrite fold_left_app. Qed.

Lemma awake_after pre t post :
  Forall (fun o => match o with Released _ _ => False | _ => True end) post ->
  awake (pre ++ Reported t true :: post) = true.
Proof.
  intros H. rewrite awake_app. cbn [fold_left]. induction post as [|o post IH]; [done|].
  apply Forall_cons_iff in H as [Ho H]. cbn [fold_left]. destruct o as [?|? []|]; by auto.
Qed.

Lemma motion_starts hold t : inv hold (start t) [].
Proof. by split. Qed.

(** A step that keeps the guard and emits nothing. *)
Lemma motion_same hold m m' outs :
  inv hold m outs -> guard m' = guard m -> release_at m' = release_at m -> now m <= now m' ->
  (where_at m' = where_at m \/ (exists a b, where_at m = Listening a /\ where_at m' = Listening b)
   \/ (exists u, where_at m' = BackingOff u)) ->
  inv hold m' outs.
Proof.
  intros [H1 H2 H3 H4 H5 H6] Eg Er En Hw. split; rewrite ?Eg, ?Er; try done.
  - intros r Hr. destruct (H2 r Hr) as [Hg Hl]. split; [done|]. intros a E.
    destruct Hw as [Hw|[(b & c & Hw & _)|[u Hw]]]; [apply (Hl a); congruence|by apply (Hl b)|congruence].
  - intros arm E. destruct Hw as [Hw|[(b & c & _ & Hw)|[u Hw]]]; rewrite Hw in E; try done.
    destruct (H3 arm E) as [(t & Ht & ?) ?]. split; [exists t; split; [lia|done]|done].
  - intros p E Hp. destruct Hw as [Hw|[(b & c & _ & Hw)|[u Hw]]]; rewrite Hw in E; subst p; [|by destruct Hp..].
    by apply (H4 (where_at m)).
  - intros a E Hg Hr. destruct Hw as [Hw|[(b & c & Hw & _)|[u Hw]]]; [rewrite Hw in E|..]; [by eapply H5|by eapply H5|].
    by rewrite Hw in E.
Qed.

Lemma inv_leave hold m outs p why :
  inv hold m outs -> p = Subscribing \/ p = Finished -> inv hold (leave m p why).1 (outs ++ (leave m p why).2).
Proof.
  intros [H1 H2 H3 H4 H5 H6] Hp. unfold leave, release. cbn [fst snd]. split; cbn; try done.
  - rewrite held_app, H1. by destruct (guard m).
  - intros arm E. by destruct Hp as [->| ->].
  - rewrite awake_app. destruct (guard m); [done|]. cbn. intros Ha. by specialize (H6 Ha).
Qed.

Lemma inv_motion hold w m outs a s :
  inv hold m outs -> where_at m = Listening a ->
  inv hold (on_motion w m s).1 (outs ++ (on_motion w m s).2).
Proof.
  intros Hi Ea. pose proof Hi as [H1 H2 H3 H4 H5 H6]. destruct s; cbn [on_motion fst snd].
  - split; cbn; try done.
    + rewrite held_app, H1. by destruct (guard m).
    + intros arm [= <-]. split; [|done]. exists (now m). split; [lia|]. rewrite last_report_app.
      by destruct (guard m).
    + intros p <-. by intros [|].
  - split; cbn; try done.
    + rewrite held_app, H1. cbn. lia.
    + intros r Hr. by destruct (H2 r Hr).
    + intros arm [= <-]. split; [|done]. exists (now m). split; [lia|]. by rewrite last_report_app.
    + intros p <-. by intros [|].
    + by rewrite awake_app.
  - rewrite app_nil_r. eapply motion_same; [done..|cbn; lia|]. right. left. eauto.
Qed.

Lemma inv_report_done hold m outs arm :
  inv hold m outs -> where_at m = Reporting arm -> inv hold (report_done hold m arm) outs.
Proof.
  intros [H1 H2 H3 H4 H5 H6] Ea. destruct (H3 arm Ea) as [(t & Ht & El) Hg]. unfold report_done.
  destruct arm, (guard m) eqn:G; cbn [andb negb] in *; split; cbn; rewrite ?G; try done.
  all: try (intros p <-; by intros [|]).
  - intros r [= <-]. split; [done|]. intros _ _. exists t. split; [done|]. lia.
  - intros r Hr. by destruct (H2 r Hr).
  - intros r Hr. destruct (Hg eq_refl) as [_ Hn]. congruence.
  - eauto.
  - by destruct (Hg eq_refl).
Qed.

Lemma inv_expires hold m outs a m' o :
  inv hold m outs -> where_at m = Listening a -> hold_expires m = Some (m', o) ->
  inv hold m' (outs ++ o) /\ o = [Released (now m) HoldOver]
  /\ held outs = 1 /\ exists t', last_report outs = Some (t', false) /\ t' + hold <= now m.
Proof.
  intros [H1 H2 H3 H4 H5 H6] Ea. unfold hold_expires. destruct (release_at m) as [r|] eqn:Er; [|done].
  destruct (Z.leb_spec r (now m)) as [Hr|]; [|done]. intros [= <- <-]. unfold release.
  destruct (H2 r eq_refl) as [G Hl]. destruct (Hl a Ea) as (t & El & Hle). rewrite G in *. split.
  - split; cbn; try done; rewrite ?held_app, ?H1, ?awake_app; try done; by intros p <-; intros [|].
  - split; [done|]. split; [done|]. exists t. split; [done|]. lia.
Qed.

Lemma back_off_inv hold m outs : inv hold m outs -> inv hold (back_off m) outs.
Proof.
  intros Hi. unfold back_off. destruct (next_delay (backoff m)) as [d b].
  eapply motion_same; [exact Hi|done|done|cbn; lia|]. right. right. cbn. eauto.
Qed.

Lemma motion_step hold m outs l m' o :
  inv hold m outs -> prompt hold outs -> step hold m l = Some (m', o) ->
  inv hold m' (outs ++ o) /\ prompt hold (outs ++ o).
Proof.
  intros Hi Hp E. assert (forall x, inv hold x outs -> Some (x, []) = Some (m', o) ->
    inv hold m' (outs ++ o) /\ prompt hold (outs ++ o)) as Hquiet.
  { intros x Hx [= <- <-]. by rewrite app_nil_r. }
  assert (forall p why, p = Subscribing \/ p = Finished -> why <> HoldOver ->
    Some (leave m p why) = Some (m', o) -> inv hold m' (outs ++ o) /\ prompt hold (outs ++ o)) as Hleave.
  { intros p why Hpp Hw Hl. pose proof (inv_leave hold m outs p why Hi Hpp) as H. destruct (leave m p why) as [x k] eqn:Ek.
    injection Hl as <- <-. split; [exact H|]. apply prompt_quiet; [done|]. unfold leave, release in Ek.
    injection Ek as _ <-. destruct (guard m); [|done]. apply Forall_cons_iff. split; [by destruct why|done]. }
  assert (forall x, inv hold x outs -> guard x = guard m -> release_at x = release_at m -> now x = now m ->
    where_at x = where_at m -> inv hold (back_off x) outs) as Hback by (intros x Hx _ _ _ _; by apply back_off_inv).
  assert (forall k c, inv hold (set_channel m k c) outs) as Hch.
  { intros k c. eapply motion_same; [exact Hi|done|done|cbn; lia|by left]. }
  destruct l; cbn [step] in E.
  - destruct (Z.leb_spec 0 t) as [Ht|]; [|done]. revert E; apply Hquiet.
    eapply motion_same; [exact Hi|done|done|cbn; lia|by left].
  - revert E; apply Hquiet. eapply motion_same; [exact Hi|done|done|cbn; lia|by left].
  - destruct (where_at m) eqn:Ew; try done. revert E; apply Hquiet. destruct Hi as [H1 H2 H3 H4 H5 H6].
    destruct (H4 _ Ew (or_introl eq_refl)) as [G R]. split; cbn; rewrite ?G, ?R in *; done.
  - destruct (where_at m) eqn:Ew; try done. revert E; apply Hquiet. by apply back_off_inv.
  - assert (forall b : bool, (if b then Some (set_channel m (rx m ++ [i]) false, []) else None) = Some (m', o) ->
      inv hold m' (outs ++ o) /\ prompt hold (outs ++ o)) as Hb.
    { intros [] Eb; [|done]. revert Eb; apply Hquiet. apply Hch. }
    destruct (where_at m); try done; by apply Hb in E.
  - destruct (where_at m); try done; (revert E; apply Hquiet; apply Hch).
  - destruct (where_at m) as [|a| | |] eqn:Ew; try done. destruct (next_motion a (rx m) (closed m)) as [[s|] rest|].
    + pose proof (inv_motion hold hold (set_channel m rest (closed m)) outs a s (Hch _ _) Ew) as H.
      destruct (on_motion _ _ s) as [x k] eqn:Ek. injection E as <- <-. split; [exact H|].
      apply prompt_quiet; [done|]. destruct s; cbn in Ek; injection Ek as _ <-; [destruct (guard m)| |];
        repeat (apply Forall_cons_iff; split); done.
    + revert E; apply Hquiet. by apply back_off_inv.
    + revert E; apply Hquiet. eapply motion_same; [exact Hi|done|done|cbn; lia|]. right. left. cbn. eauto.
  - destruct (where_at m) as [|a| | |] eqn:Ew; try done.
    destruct (inv_expires hold m outs a m' o Hi Ew E) as (H & -> & Hh & Hl). split; [exact H|].
    apply prompt_snoc; [done|]. by intros t [= <-].
  - destruct (where_at m) as [| |arm| |] eqn:Ew; try done. revert E; apply Hquiet. by apply inv_report_done.
  - destruct (where_at m); try done. destruct (_ <=? _); [|done]. eapply Hleave; [by left| |exact E]. done.
  - destruct (where_at m); try done; (destruct (cancelled m); [|done]); (eapply Hleave; [by right| |exact E]); done.
Qed.

Lemma motion_run hold ls : forall m outs m' o,
  inv hold m outs -> prompt hold outs -> run hold m ls = Some (m', o) ->
  inv hold m' (outs ++ o) /\ prompt hold (outs ++ o).
Proof.
  induction ls as [|l ls IH]; intros m outs m' o Hi Hp E; cbn [run] in E.
  - injection E as <- <-. by rewrite app_nil_r.
  - destruct (step hold m l) as [[m1 o1]|] eqn:E1; [|done]. cbn in E.
    destruct (run hold m1 ls) as [[m2 o2]|] eqn:E2; [|done]. injection E as <- <-.
    destruct (motion_step hold m outs l m1 o1 Hi Hp E1) as [Hi1 Hp1]. rewrite app_assoc. by eapply IH.
Qed.

(** ** The properties *)

(** C21: Whatever the camera reports and when, the listener has at most one guard
    out: one from the first motion on, until the hold gives it back, no sooner
    than [motion_wake_hold] after a stop with no motion since, or the
    subscription ends; a listener that is not subscribed, or has ended, has
    none out. *)
Theorem motion_held hold t ls m outs :
  run hold (start t) ls = Some (m, outs) ->
  held outs = (if guard m then 1 else 0)
  /\ (forall pre t' post, outs = pre ++ Reported t' true :: post ->
       Forall (fun o => match o with Released _ _ => False | _ => True end) post -> held outs = 1)
  /\ prompt hold outs
  /\ (where_at m = Subscribing \/ where_at m = Finished -> held outs = 0).
Proof.
  intros E. destruct (motion_run hold ls _ [] m outs (motion_starts hold t)) as [Hi Hp]; [by intros [|]|exact E|].
  cbn [app] in Hi, Hp. pose proof Hi as [H1 H2 H3 H4 H5 H6]. split; [exact H1|]. split; [|split; [exact Hp|]].
  - intros pre t' post Eo Hpost. rewrite H1, H6; [done|]. rewrite Eo. by apply awake_after.
  - intros Hw. rewrite H1. by destruct (H4 _ eq_refl Hw) as [-> _].
Qed.

(** After a stop with nothing following it, the guard is back when the hold is
    over. *)
Theorem hold_ends hold m rest closed' :
  where_at m = Listening false -> guard m = true -> 0 <= hold ->
  next_motion false (rx m) (closed m) = Ready (Some MotionStop) rest -> closed' = closed m ->
  exists m', run hold m [PollMotion; ReportDone; Elapse hold; HoldExpires]
    = Some (m', [Reported (now m) false; Released (now m + hold) HoldOver]) /\ guard m' = false.
Proof.
  intros Hw Hg Hh Hn ->. cbn [run step]. rewrite Hw, Hn. cbn [on_motion mbind option_bind step where_at set_where].
  unfold report_done. cbn [set_where set_channel guard andb now]. rewrite Hg. cbn [step where_at set_where set_guard].
  rewrite (proj2 (Z.leb_le 0 hold)) by done.
  cbn [mbind option_bind step where_at set_now set_where set_guard hold_expires release_at now].
  unfold hold_expires. cbn [release_at set_now set_where set_guard now]. rewrite Z.leb_refl.
  cbn [mbind option_bind release guard set_now set_where set_guard now app]. eexists. by split.
Qed.

(** *** An evening *)

Definition evening : list Label :=
  [ListenFails; Elapse (millis 1000); BackoffOver; ListenOk; Arrives (Status MotionStart); PollMotion; ReportDone;
   PollMotion; Elapse 7; Arrives (Status MotionStop); PollMotion; ReportDone; Elapse 4; Arrives (Status MotionStart);
   PollMotion; ReportDone; Arrives (Status NoChange); Arrives (Status MotionStop); PollMotion; ReportDone; Elapse 10;
   HoldExpires; Arrives (Status MotionStart); PollMotion; ReportDone; Arrives Broken; PollMotion; Cancel; SeesCancel].

Definition played : option (list Out) := snd <$> run 10 (start 0) evening.

Example evening_goes :
  let t := millis 1000 in
  played = Some [Acquired t; Reported t true; Reported (t + 7) false; Reported (t + 11) true; Reported (t + 11) false;
    Released (t + 21) HoldOver; Acquired (t + 21); Reported (t + 21) true; Released (t + 21) SessionOver].
Proof. vm_compute. reflexivity. Qed.

Lemma evening_runs : exists m outs, run 10 (start 0) evening = Some (m, outs) /\ where_at m = Finished.
Proof.
  assert ((where_at ∘ fst) <$> run 10 (start 0) evening = Some Finished) as H by (vm_compute; reflexivity).
  destruct (run 10 (start 0) evening) as [[m outs]|]; [|done]. exists m, outs. split; [done|]. by injection H.
Qed.

Lemma motion_held_witness : exists m outs, run 10 (start 0) evening = Some (m, outs) /\ held outs = 0 /\ prompt 10 outs.
Proof.
  destruct evening_runs as (m & outs & E & Hw). exists m, outs. split; [exact E|].
  destruct (motion_held 10 0 evening m outs E) as (_ & _ & Hp & Hd). split; [apply Hd; by right|exact Hp].
Defined.

(** What was buffered before an error is not seen: a start the reading task
    sent just before it lost the camera is neither reported nor held. *)
Example start_lost : next_motion false [Status MotionStart; Broken] false = Ready None [].
Proof. reflexivity. Qed.
