(* ===== verification/CameraPort.v ===== *)
(** * The camera behind its port ([src/bc_camera.rs], [src/bc_opts.rs],
    [src/battery.rs], [src/capabilities.rs], [src/camera_services.rs])

    The service talks to a camera through role traits; this is their
    implementation over the commands of [Commands] and the login of [Login]: wire
    values become the service's own types, and the options of a connection come
    from the configuration. The trait methods that only forward are the commands
    themselves. *)

From S2P Require Import Prelude Text WakeServer Discovery FindCamera Toml Config Wire XorCrypto BcXml BcMsg BcConn RtspText.
From S2P Require Import Commands Login.

(** ** Types of the service *)

Record BatteryStatus := MkBatteryStatus {
  percent : Z; voltage : Z; charge_status : bytes; low_power : bool
}.

Record CameraCapabilities := MkCapabilities { has_ptz : bool }.

Record PresetSlot := MkPresetSlot { slot_id : Z; slot_name : option bytes }.

Inductive ServiceKind := Baichuan | Http | Https | Rtmp | Rtsp | Onvif.

Record ServicePortState := MkServicePortState { service_port : Z; service_enabled : option bool }.

(** ** Connecting *)

Inductive ConnectError := Auth (e : Commands.Error) | OtherError (e : Commands.Error) | Timeout (phase : str).

Definition classify_login_error (e : Commands.Error) : ConnectError :=
  match e with Commands.AuthFailed | Commands.CameraLoginFail => Auth e | e => OtherError e end.

(** [connect_with_phase_timeouts]: each phase ends, or exceeds its budget. *)
Definition connect_with_phase_timeouts {A} (connect : option (result A Commands.Error)) (login : A -> option (result unit Commands.Error))
    : result A ConnectError :=
  match connect with
  | None => Err (Timeout (lit "connect"))
  | Some (Err e) => Err (OtherError e)
  | Some (Ok camera) =>
      match login camera with
      | None => Err (Timeout (lit "login"))
      | Some (Err e) => Err (classify_login_error e)
      | Some (Ok _) => Ok camera
      end
  end.

Definition max_encryption (cfg : CameraConfig) : Login.MaxEncryption :=
  match Config.max_encryption cfg with
  | MaxNone => EncNone
  | MaxAes => EncAes
  | MaxBcEncrypt => EncBcEncrypt
  end.

Definition discovery_methods (d : DiscoveryMethod) : DiscoveryMethods :=
  match d with
  | DiscLocal => MLocal
  | DiscRemote => MRemote
  | DiscMap => MMap
  | DiscRelay => MRelay
  | DiscCellular => MCellular
  | DiscCloud => MCloud
  end.

(** The address text: literal IPs only; what follows the last colon is the
    port. *)
Definition dialled (address : option str) : list IpAddr * option Z :=
  match address with
  | None => ([], None)
  | Some a =>
      match rsplit_once 58 a with
      | Some (host, p) => (match parse_ip host with Some ip => [ip] | None => [] end, parse_uint 65535 p)
      | None => (match parse_ip a with Some ip => [ip] | None => [] end, None)
      end
  end.

Definition build_bc_opts (cfg : CameraConfig) : FindCamera.BcCameraOpt :=
  let '(addrs, port) := dialled (address cfg) in
  MkBcCameraOpt addrs (Config.uid cfg) port TcpUdp (discovery_methods (discovery cfg)) 5.

(** ** The traits *)

(** The clamp is the first thing that happens to the percentage. *)
Definition battery_status_from (info : BatteryInfo) : BatteryStatus :=
  MkBatteryStatus (Z.min (battery_battery_percent info) 100) (battery_voltage info) (battery_charge_status info)
    (negb (battery_low_power info =? 0)).

Definition battery_status : M BatteryStatus :=
  let* info := Commands.battery_info in ret (battery_status_from info).

(** A reply without a link type proves the camera alive. *)
Definition keepalive_probe : M unit :=
  let* r := outcome_of get_linktype in
  match r with
  | Ok _ => ret tt
  | Err (UnintelligibleReply _ _) => ret tt
  | Err e => fail e
  end.

Definition ptz_presets : M (list PresetSlot) :=
  let* ptz := get_ptz_preset in
  ret (map (fun p => MkPresetSlot (preset_id p) (preset_name p)) (presets_preset (ptz_preset_preset_list ptz))).

Definition ptz_mode_indicates_ptz (ptz_mode : option str) (ptz_cfg : option Z) : bool :=
  match ptz_mode with
  | Some s =>
      let t := to_ascii_lowercase (trim s) in
      negb (is_nil t) && negb (bool_decide (t = lit "none")) && negb (bool_decide (t = lit "0"))
      && negb (bool_decide (t = lit "false"))
  | None => false
  end || match ptz_cfg with Some v => negb (v =? 0) | None => false end.

Definition capabilities : M CameraCapabilities :=
  let* support := get_support in
  ret (MkCapabilities (ptz_mode_indicates_ptz (chars <$> support_ptz_mode support) (support_ptz_cfg support))).

(** Whatever the service, port and enable flag. *)
Definition service_fields (kind : ServiceKind) : M (Z * option Z) :=
  match kind with
  | Baichuan => let* s := get_serverport in ret (server_port_port s, server_port_enable s)
  | Http => let* s := get_http in ret (http_port_port s, http_port_enable s)
  | Https => let* s := get_https in ret (https_port_port s, https_port_enable s)
  | Rtmp => let* s := get_rtmp in ret (rtmp_port_port s, rtmp_port_enable s)
  | Rtsp => let* s := get_rtsp in ret (rtsp_port_port s, rtsp_port_enable s)
  | Onvif => let* s := get_onvif in ret (onvif_port_port s, onvif_port_enable s)
  end.

Definition service (kind : ServiceKind) : M ServicePortState :=
  let* f := service_fields kind in
  ret (MkServicePortState (fst f) ((fun e => negb (e =? 0)) <$> snd f)).

Definition set_service (kind : ServiceKind) (enable : option bool) (port : option Z) : M unit :=
  match kind with
  | Baichuan => set_serverport enable port
  | Http => set_http enable port
  | Https => set_https enable port
  | Rtmp => set_rtmp enable port
  | Rtsp => set_rtsp enable port
  | Onvif => set_onvif enable port
  end.

(** ** What a probe of the battery ends with

    [UnintelligibleReply] only when the camera answered: a message that refuses
    the command, or accepts it without naming a battery. *)

Definition no_battery (m : Bc) : Prop :=
  response_code (meta m) <> 200 \/ match xml_of m with Some x => BcXml.battery_info (elements x) = None | None => True end.

Definition names_battery (m : Bc) (info : BatteryInfo) : Prop :=
  response_code (meta m) = 200 /\ exists x, xml_of m = Some x /\ BcXml.battery_info (elements x) = Some info.

(** A request leaves what was received alone; only the connection fails it. *)
Lemma request_outcome id parts w :
  match request id parts w with
  | (Some (Ok _), w') => inbox w' = inbox w
  | (Some (Err e), _) => exists c, e = Commands.Connection c
  | (None, _) => True
  end.
Proof.
  unfold request, bind, new_message_num, subscribe, call, gets, record, ret. cbn.
  destruct (acks w) as [|[e|] l]; cbn; [done|by eexists|]. destruct (parts (cam_channel (cam w))) as [e p]. cbn.
  unfold send, call, record. cbn. destruct l as [|[c|] l]; cbn; [done|by eexists|done].
Qed.

Lemma battery_status_outcome w :
  match battery_status w with
  | (Some (Ok s), _) => exists m info rest,
      inbox w = Delivered m :: rest /\ names_battery m info /\ s = battery_status_from info
  | (Some (Err (UnintelligibleReply m _)), _) => no_battery m /\ exists rest, inbox w = Delivered m :: rest
  | _ => True
  end.
Proof.
  unfold battery_status, Commands.battery_info. pose proof (request_outcome MSG_ID_BATTERY_INFO by_channel w) as Hr.
  unfold bind at 1 2. destruct (request _ _ w) as [[[n|e]|] w1]; [|by destruct Hr as [c ->]|done].
  unfold bind, recv. rewrite <- Hr. destruct (inbox w1) as [|[m|e|] rest]; try done.
  destruct (Z.eqb_spec (response_code (meta m)) 200) as [E200|N200].
  - unfold taken. destruct (xml_of m) as [x|] eqn:Ex.
    + destruct (BcXml.battery_info (elements x)) as [info|] eqn:Eb; cbn.
      * exists m, info, rest. repeat split; eauto.
      * split; [right; by rewrite Ex|eauto].
    + cbn. split; [right; by rewrite Ex|eauto].
  - cbn. split; [by left|eauto].
Qed.
