(* ===== verification/CameraTasks.v ===== *)
(** * The tasks of a camera session ([src/camera_tasks.rs],
    [src/preview_overlay.rs], [src/startup_wake.rs], their spawning in
    [src/camera.rs])

    The battery, floodlight and preview pollers, the floodlight listener and the
    PIR query as functions of what each probe ends with; the overlay cache; which
    tasks a session spawns; the warm-up of a camera at start-up. The motion
    listener is [MotionListener]. The image codec, the caption's drawing and the
    hash are interfaces. Times are in nanoseconds. *)

From S2P Require Import Prelude Text Nal AudioCodec StreamTranslate WakeServer Toml Config XorCrypto BcXml BcMsg BcConn Commands.
From S2P Require Import CameraPort StreamSource CameraRun MqttControl Mqtt.

(** ** Probes *)

(** [timeout(PROBE_TIMEOUT, ...).await] *)
Inductive TickResult (A : Type) := Answered (r : result A Commands.Error) | Elapsed.
Arguments Answered {A} r.
Arguments Elapsed {A}.

(** A command of the port run on the connection as it is, within the timeout. *)
Definition probe {A} (m : M A) (w : World) : TickResult A :=
  match m w with (Some r, _) => Answered r | (None, _) => Elapsed end.

(** ** The battery poller *)

Definition BATTERY_MAX_UNSUPPORTED : Z := 3.

Inductive BatteryTickOutcome := TickOk | Unsupported | Transient.

#[export] Instance BatteryTickOutcome_eq_dec : EqDecision BatteryTickOutcome.
Proof. solve_decision. Defined.

Definition classify_battery_tick {A} (outcome : TickResult A) : BatteryTickOutcome :=
  match outcome with
  | Answered (Ok _) => TickOk
  | Answered (Err (UnintelligibleReply _ _)) => Unsupported
  | Answered (Err _) | Elapsed => Transient
  end.

Definition advance_battery_counter (consecutive_unsupported : Z) (outcome : BatteryTickOutcome) (max_unsupported : Z)
    : Z * bool :=
  match outcome with
  | TickOk | Transient => (0, false)
  | Unsupported =>
      let next := Z.min (consecutive_unsupported + 1) u32_max in (next, max_unsupported <=? next)
  end.

(** One tick: the counter, whether a level was ever read, what is reported, and
    whether the poller gives up. *)
Definition battery_tick (consecutive : Z) (ever_succeeded : bool) (tick : TickResult BatteryStatus)
    : Z * bool * list CameraEvent * bool :=
  let '(next, streak_tripped) := advance_battery_counter consecutive (classify_battery_tick tick) BATTERY_MAX_UNSUPPORTED in
  let '(ever, events) :=
    match tick with
    | Answered (Ok status) => (true, [BatteryLevel (percent status)])
    | _ => (ever_succeeded, [])
    end in
  (next, ever, events, streak_tripped && negb ever).

(** The loop over the ticks of a session: what it reports, and whether it sets
    [battery_unsupported] and ends. *)
Fixpoint battery_loop (consecutive : Z) (ever_succeeded : bool) (ticks : list (TickResult BatteryStatus))
    : list CameraEvent * bool :=
  match ticks with
  | [] => ([], false)
  | t :: ticks =>
      let '(next, ever, events, gives_up) := battery_tick consecutive ever_succeeded t in
      if gives_up then (events, true)
      else let '(more, latched) := battery_loop next ever ticks in (events ++ more, latched)
  end.

Definition battery_poller (ticks : list (TickResult BatteryStatus)) : list CameraEvent * bool := battery_loop 0 false ticks.

(** The sessions of a camera one after the other; the flag outlives them, and no
    poller is spawned once it is set. *)
Fixpoint battery_sessions (battery_unsupported : bool) (sessions : list (list (TickResult BatteryStatus)))
    : list CameraEvent * bool :=
  match sessions with
  | [] => ([], battery_unsupported)
  | ticks :: sessions =>
      let '(events, latched) := if battery_unsupported then ([], true) else battery_poller ticks in
      let '(more, flag) := battery_sessions latched sessions in (events ++ more, flag)
  end.

(** ** The other pollers *)

Definition floodlight_tick (tick : TickResult bool) : list CameraEvent :=
  match tick with Answered (Ok enabled) => [FloodlightTasksState enabled] | _ => [] end.

Definition floodlight_poller (ticks : list (TickResult bool)) : list CameraEvent := concat (map floodlight_tick ticks).

(** The listener ends when its channel does; a camera that refuses the
    subscription has no lamp to report. *)
Definition floodlight_listener (subscribed : result (list FloodlightStatusList) Commands.Error) : list CameraEvent :=
  match subscribed with
  | Err _ => []
  | Ok lists =>
      concat (map (fun l => map (fun f => FloodlightState (negb (fl_status_status f =? 0))) (fl_list_floodlight_status_list l))
                lists)
  end.

Definition publish_pir_state (answer : TickResult RfAlarmCfg) : list CameraEvent :=
  match answer with Answered (Ok pir_state) => [PirState (rf_enable pir_state =? 1)] | _ => [] end.

(** ** The preview *)

Definition caption (s : PreviewState) : option str :=
  match s with
  | Live => None
  | PreviewConnecting => Some (lit "CONNECTING")
  | Sleeping => Some (lit "SLEEPING")
  end.

(** The [image] crate's JPEG decoder and encoder, the text drawn, and the
    standard library's [DefaultHasher]. *)
Class Images := {
  image : Type;
  load : bytes -> option image;
  write_to : image -> option bytes;
  draw_caption : image -> str -> image;
  fast_hash : bytes -> Z
}.

Section preview.
Context `{I : Images}.

Definition render (jpeg : bytes) (state : PreviewState) : bytes :=
  match caption state with
  | None => jpeg
  | Some caption =>
      match load jpeg with
      | None => jpeg
      | Some img => default jpeg (write_to (draw_caption img caption))
      end
  end.

Record CacheEntry := MkCacheEntry { entry_state : PreviewState; input_hash : Z; rendered : bytes }.

(** [OverlayCache::render] *)
Definition cache_render (cache : option CacheEntry) (jpeg : bytes) (state : PreviewState) : bytes * option CacheEntry :=
  let h := fast_hash jpeg in
  let fresh := let r := render jpeg state in (r, Some (MkCacheEntry state h r)) in
  match cache with
  | Some entry =>
      if bool_decide (entry_state entry = state) && (input_hash entry =? h) then (rendered entry, cache) else fresh
  | None => fresh
  end.

(** With the poller's cache. [QueryPreview] renders without one. *)
Definition rendered_preview (jpeg : bytes) (overlay_enabled : bool) (state : PreviewState) (cache : option CacheEntry)
    : bytes * option CacheEntry :=
  if overlay_enabled then cache_render cache jpeg state else (jpeg, cache).

Definition rendered_once (jpeg : bytes) (overlay_enabled : bool) (state : PreviewState) : bytes :=
  if overlay_enabled then render jpeg state else jpeg.

(** [ConnectedStills for CameraHandle] *)
Definition connected_stills (h : Handle) : option nat :=
  match state h with Connected => slot h | _ => None end.

(** What the poller keeps: the last frame's JPEG and its cache. *)
Record Poller := MkPoller { last_jpeg : option bytes; overlay_cache : option CacheEntry }.

(** A tick: the snapshot the camera answered with, where it is connected, and
    the state the caption shows. *)
Record PreviewTick := MkTick { snapshot : option (TickResult bytes); preview_state : PreviewState }.

Definition preview_tick (preview_overlay_enabled : bool) (p : Poller) (t : PreviewTick) : Poller * list bytes :=
  let jpeg := match snapshot t with Some (Answered (Ok b)) => Some b | _ => last_jpeg p end in
  match jpeg with
  | None => (MkPoller jpeg (overlay_cache p), [])
  | Some jpeg_bytes =>
      let '(payload, cache) := rendered_preview jpeg_bytes preview_overlay_enabled (preview_state t) (overlay_cache p) in
      (MkPoller jpeg cache, [payload])
  end.

Fixpoint preview_poller (preview_overlay_enabled : bool) (p : Poller) (ticks : list PreviewTick) : list bytes :=
  match ticks with
  | [] => []
  | t :: ticks =>
      let '(p, out) := preview_tick preview_overlay_enabled p t in out ++ preview_poller preview_overlay_enabled p ticks
  end.
End preview.

(** ** The tasks of a session ([run_connected_session], [spawn_session_tasks]) *)

Inductive SessionTask :=
| PreviewAggregator
| MotionTask (motion_wake_hold : Z)
| BatteryTask (interval : Z)
| FloodlightTask (interval : Z)
| FloodlightListenerTask
| PirQuery
| GraceTask (grace : Z).

(** The durations are converted as the tasks are spawned. *)
Definition mqtt_tasks (battery_unsupported : bool) (config : CameraConfig) : outcome (list SessionTask) :=
  let m := cam_mqtt config in
  let! motion :=
    if enable_motion m then let! h := from_secs_f64 (motion_wake_hold_secs config) in Ret [MotionTask h] else Ret [] in
  Ret (motion
       ++ (if enable_battery m && negb battery_unsupported then [BatteryTask (millis (battery_update m))] else [])
       ++ (if enable_floodlight m then [FloodlightTask (millis (floodlight_update m)); FloodlightListenerTask] else [])
       ++ (if enable_pir m then [PirQuery] else [])).

Definition spawn_session_tasks (mqtt_client battery_unsupported : bool) (prune_grace : Z) (config : CameraConfig)
    : outcome (list SessionTask) :=
  let! mqtt := if mqtt_client then mqtt_tasks battery_unsupported config else Ret [] in
  let! grace :=
    if Config.idle_disconnect config then
      let! g := resolve_idle_disconnect_timeout config prune_grace in Ret [GraceTask g]
    else Ret [] in
  Ret (PreviewAggregator :: mqtt ++ grace).

(** What the camera's handle knows of its hardware. *)
Record Known := MkKnown { known_capabilities : option CameraCapabilities; known_presets : list (Z * bytes) }.

(** The probes of a new session: a failed one leaves what an earlier session
    learned. *)
Definition populate (known : Known) (caps : result CameraCapabilities Commands.Error)
    (presets : result (list PresetSlot) Commands.Error) : Known :=
  match caps with
  | Err _ => known
  | Ok caps =>
      let presets :=
        if has_ptz caps then
          match presets with
          | Ok slots => omap (fun slot => (fun n => (slot_id slot, n)) <$> slot_name slot) slots
          | Err _ => known_presets known
          end
        else known_presets known in
      MkKnown (Some caps) presets
  end.

(** Reports before the first connection, and around a session. *)
Definition initial_reports (mqtt_client : bool) : list CameraEvent :=
  if mqtt_client then [Mqtt.Connection false; MotionUnknown] else [].

Definition preview_task (mqtt_client : bool) (config : CameraConfig) : option (Z * bool) :=
  if mqtt_client && enable_preview (cam_mqtt config) then
    Some (millis (preview_update (cam_mqtt config)), preview_overlay (pause config))
  else None.

(** ** Warming up a camera ([startup_wake.rs]) *)

Definition PER_CAMERA_TIMEOUT : Z := millis 30000.
Definition FIRST_FRAME_TIMEOUT : Z := millis 15000.
Definition AUDIO_OBSERVE_WINDOW : Z := millis 2000.

Inductive WarmError := WarmCancelled | StreamSourceFailed | NoVideo.

(** The wait for a frame: at each poll the time since its start, whether there is
    video, and whether the shutdown came in the sleep after it. *)
Fixpoint wait_video (polls : list (Z * bool * bool)) : option (result unit WarmError) :=
  match polls with
  | [] => None
  | (elapsed, has_video, cancelled) :: polls =>
      if has_video then Some (Ok tt)
      else if FIRST_FRAME_TIMEOUT <? elapsed then Some (Err NoVideo)
      else if cancelled : bool then Some (Err WarmCancelled)
      else wait_video polls
  end.

(** [observe_audio_presence]: the audio of the SDP at each poll. *)
Fixpoint observe_audio_presence (deadline : Z) (polls : list (Z * option AudioCodec)) : option (option AudioCodec) :=
  match polls with
  | [] => None
  | (elapsed, Some codec) :: _ => Some (Some codec)
  | (elapsed, None) :: polls => if deadline <? elapsed then Some None else observe_audio_presence deadline polls
  end.

(** How an awaited step ends against the shutdown. *)
Inductive Raced (A : Type) := Shutdown | Done (a : A).
Arguments Shutdown {A}.
Arguments Done {A} a.

Record WarmWorld := MkWarmWorld {
  w_source : Raced bool;
  w_video : list (Z * bool * bool);
  w_audio : Raced (list (Z * option AudioCodec));
  w_camera : bool;
  w_snapshot : Raced (TickResult bytes)
}.

(** What a warm-up leaves behind. *)
Record Warmed := MkWarmed { warm_presence : AudioPresence; warm_jpeg : option bytes }.

Definition capture_snapshot_into_buffer (w : Warmed) (answer : TickResult bytes) : Warmed :=
  match answer with Answered (Ok b) => MkWarmed (warm_presence w) (Some b) | _ => w end.

(** [None] while a wait has not ended. *)
Definition warm_one (before : Warmed) (o : WarmWorld) : option (result unit WarmError * Warmed) :=
  match w_source o with
  | Shutdown => Some (Err WarmCancelled, before)
  | Done false => Some (Err StreamSourceFailed, before)
  | Done true =>
      video ← wait_video (w_video o);
      match video with
      | Err e => Some (Err e, before)
      | Ok _ =>
          observed ← match w_audio o with
                     | Shutdown => Some None
                     | Done polls => observe_audio_presence AUDIO_OBSERVE_WINDOW polls
                     end;
          let w := MkWarmed (match observed with Some c => Present c | None => Absent end) (warm_jpeg before) in
          Some (Ok tt,
                if w_camera o then
                  match w_snapshot o with Shutdown => w | Done answer => capture_snapshot_into_buffer w answer end
                else w)
      end
  end.

(** ** When the battery poller gives up *)

Definition refused {A} (t : TickResult A) : bool := bool_decide (classify_battery_tick t = Unsupported).
Definition levelled {A} (t : TickResult A) : bool := bool_decide (classify_battery_tick t = TickOk).

(** [n] refusals in a row at the head. *)
Fixpoint refusals {A} (n : nat) (ticks : list (TickResult A)) : bool :=
  match n, ticks with
  | O, _ => true
  | S n, t :: ticks => refused t && refusals n ticks
  | S _, [] => false
  end.

(** Three refusals in a row before any level was read. *)
Definition hopeless {A} (ticks : list (TickResult A)) : Prop :=
  exists pre post, ticks = pre ++ post /\ refusals 3 post = true /\ Forall (fun t => levelled t = false) pre.

Lemma hopeless_cons {A} (t : TickResult A) ticks :
  hopeless (t :: ticks) <-> refusals 3 (t :: ticks) = true \/ (levelled t = false /\ hopeless ticks).
Proof.
  split.
  - intros (pre & post & E & Hr & Hp). destruct pre as [|u pre]; [left; by cbn in E; subst|]. right.
    injection E as -> ->. apply Forall_cons_iff in Hp as [Hu Hp]. split; [done|]. by exists pre, post.
  - intros [H|[Ht (pre & post & -> & Hr & Hp)]]; [by exists [], (t :: ticks)|].
    exists (t :: pre), post. split; [done|]. split; [done|]. by apply Forall_cons_iff.
Qed.

Lemma refusals_le {A} n m (ticks : list (TickResult A)) : (n <= m)%nat -> refusals m ticks = true -> refusals n ticks = true.
Proof.
  revert n ticks. induction m as [|m IH]; intros n ticks Hle H; destruct n as [|n]; try done; [lia|].
  destruct ticks as [|t ticks]; [done|]. cbn [refusals] in *. apply andb_true_iff in H as [-> H]. apply IH; [lia|done].
Qed.

(** Once a level was read, the loop goes on. *)
Lemma battery_loop_never c ticks : (battery_loop c true ticks).2 = false.
Proof.
  revert c. induction ticks as [|t ticks IH]; intros c; [done|]. cbn [battery_loop]. unfold battery_tick.
  destruct (advance_battery_counter _ _ _) as [n b]. destruct t as [[s|e]|]; cbn [negb];
    rewrite andb_false_r; specialize (IH n); by destruct (battery_loop n true ticks).
Qed.

Lemma battery_loop_latch c ticks :
  0 <= c < 3 ->
  ((battery_loop c false ticks).2 = true <-> refusals (Z.to_nat (3 - c)) ticks = true \/ hopeless ticks).
Proof.
  revert c. induction ticks as [|t ticks IH]; intros c Hc; cbn [battery_loop].
  { split; [done|]. intros [H|(pre & post & E & H & _)].
    - destruct (Z.to_nat (3 - c)) eqn:En; [lia|done].
    - symmetry in E. by apply app_nil in E as [-> ->]. }
  rewrite hopeless_cons. unfold battery_tick. destruct (Z.to_nat (3 - c)) as [|k] eqn:En; [lia|].
  assert (forall ticks : list (TickResult BatteryStatus), refusals 3 ticks = true -> refusals k ticks = true) as Hk
    by (intros l; apply refusals_le; lia).
  assert (forall n ever evs, (let '(more, latched) := battery_loop n ever ticks in (evs ++ more, latched)).2
    = (battery_loop n ever ticks).2) as Hsnd by (intros n ever evs; by destruct (battery_loop n ever ticks)).
  cbn [refusals]. unfold refused, levelled. destruct (classify_battery_tick t) eqn:Ecl; cbn [advance_battery_counter].
  - destruct t as [[s|e]|]; [|by destruct e|done]. cbn [negb andb]. rewrite Hsnd, battery_loop_never.
    rewrite bool_decide_eq_false_2 by done. rewrite bool_decide_eq_true_2 by done. cbn [andb].
    split; [done|]. by intros [?|[?|[? _]]].
  - assert (match t with Answered (Ok s) => (true, [BatteryLevel (percent s)]) | _ => (false, []) end = (false, @nil CameraEvent))
      as ->. { destruct t as [[s|e]|]; done. }
    rewrite bool_decide_eq_true_2, bool_decide_eq_false_2 by done. cbn [andb negb]. rewrite andb_true_r.
    rewrite Z.min_l by (unfold u32_max; lia). unfold BATTERY_MAX_UNSUPPORTED. destruct (Z.leb_spec 3 (c + 1)).
    + cbn [snd]. assert (k = 0%nat) as -> by lia. split; [by left|done].
    + rewrite Hsnd, IH by lia. replace (Z.to_nat (3 - (c + 1))) with k by lia.
      split; [intros [?|?]; eauto|]. intros [?|[?|[_ ?]]]; [by left| |by right]. left. by apply (refusals_le k 2); [lia|].
  - assert (match t with Answered (Ok s) => (true, [BatteryLevel (percent s)]) | _ => (false, []) end = (false, @nil CameraEvent))
      as ->. { destruct t as [[s|e]|]; done. }
    rewrite !bool_decide_eq_false_2 by done. cbn [andb negb]. rewrite Hsnd, IH by lia. change (Z.to_nat (3 - 0)) with 3%nat.
    split; [intros [H|H]; right; right; split; try done|by intros [?|[?|[_ ?]]]; [..|right]].
    exists [], ticks. by split.
Qed.

(** The camera's answer to a query of the battery, when the connection takes the
    query: the message it answers with, if any. *)
Definition asked (w : World) : Prop := exists l, acks w = None :: None :: l.

Definition answers (w : World) (m : Bc) : Prop := exists rest, inbox w = Delivered m :: rest.

Definition no_battery_here (w : World) : Prop := exists m, answers w m /\ no_battery m.
Definition battery_here (w : World) (info : BatteryInfo) : Prop := exists m, answers w m /\ names_battery m info.

Lemma probe_refused w : asked w -> (refused (probe CameraPort.battery_status w) = true <-> no_battery_here w).
Proof.
  intros [l Hl]. unfold refused, probe. pose proof (battery_status_outcome w) as Ho. split.
  - intros H%bool_decide_eq_true. destruct (CameraPort.battery_status w) as [[[s|e]|] w']; [done| |done]. destruct e; try done.
    destruct Ho as [Hn [rest Hr]]. exists reply. split; [by exists rest|done].
  - intros (m & [rest Hr] & Hn). apply bool_decide_eq_true.
    assert (exists n w1, Commands.request MSG_ID_BATTERY_INFO by_channel w = (Some (Ok n), w1) /\ inbox w1 = inbox w) as (n & w1 & E1 & Ei).
    { unfold Commands.request, bind, new_message_num, Commands.subscribe, Commands.call, gets, record, ret, Commands.send. cbn. rewrite Hl. cbn.
      eexists _, _. split; [reflexivity|done]. }
    unfold CameraPort.battery_status, Commands.battery_info. unfold bind at 1 2. rewrite E1. unfold bind, recv. rewrite Ei, Hr.
    destruct (Z.eqb_spec (response_code (meta m)) 200) as [E200|]; [|done]. unfold Commands.taken. destruct Hn as [Hn|Hn]; [done|].
    destruct (xml_of m) as [x|]; [|done]. by rewrite Hn.
Qed.

Lemma probe_levelled w : levelled (probe CameraPort.battery_status w) = true -> exists info, battery_here w info.
Proof.
  unfold levelled, probe. pose proof (battery_status_outcome w) as Ho. intros H%bool_decide_eq_true.
  destruct (CameraPort.battery_status w) as [[[s|e]|] w']; [|by destruct e|done].
  destruct Ho as (m & info & rest & Hr & Hn & _). exists info, m. split; [by exists rest|done].
Qed.

Lemma named_levelled w info : asked w -> battery_here w info -> levelled (probe CameraPort.battery_status w) = true.
Proof.
  intros [l Hl] (m & [rest Hr] & E200 & x & Ex & Eb). unfold levelled, probe. apply bool_decide_eq_true.
  unfold CameraPort.battery_status, Commands.battery_info, Commands.request, bind, new_message_num, Commands.subscribe, Commands.call, gets, record, ret, Commands.send, recv.
  cbn. rewrite Hl. cbn. rewrite Hr. cbn. rewrite E200. unfold Commands.taken. cbn. rewrite Ex. by rewrite Eb.
Qed.

Lemma refusals_probes n ws :
  Forall asked ws ->
  refusals n (map (probe CameraPort.battery_status) ws) = true <-> (n <= length ws)%nat /\ Forall no_battery_here (take n ws).
Proof.
  intros Ha. revert n. induction Ha as [|w ws Hw _ IH]; intros [|n]; cbn [refusals map take length].
  - split; [split; [lia|done]|done].
  - split; [done|]. intros [H _]. lia.
  - split; [split; [lia|done]|done].
  - rewrite andb_true_iff, IH, (probe_refused w Hw), Forall_cons_iff. intuition lia.
Qed.

(** C22: A session in which the connection takes every query: the
    poller gives the battery up exactly when the camera answered three queries in
    a row and each time named no battery, and had not named one in that session
    before; a query it does not answer never counts. *)
Theorem battery_latch ws :
  Forall asked ws ->
  ((battery_poller (map (probe CameraPort.battery_status) ws)).2 = true <->
   exists pre w1 w2 w3 post, ws = pre ++ w1 :: w2 :: w3 :: post
     /\ no_battery_here w1 /\ no_battery_here w2 /\ no_battery_here w3
     /\ forall w info, In w pre -> ~ battery_here w info).
Proof.
  intros Ha. unfold battery_poller. rewrite battery_loop_latch by lia. change (Z.to_nat (3 - 0)) with 3%nat. split.
  - intros H. assert (hopeless (map (probe CameraPort.battery_status) ws)) as (pre & post & E & Hr & Hp).
    { destruct H as [H|H]; [|done]. by exists [], (map (probe CameraPort.battery_status) ws). }
    apply map_eq_app in E as (wpre & wpost & -> & <- & <-). apply Forall_app in Ha as [Ha1 Ha2].
    apply refusals_probes in Hr as [Hlen Hr]; [|done].
    destruct wpost as [|w1 [|w2 [|w3 post]]]; cbn [length] in Hlen; try lia. cbn [take] in Hr.
    apply Forall_cons_iff in Hr as [R1 Hr]. apply Forall_cons_iff in Hr as [R2 Hr]. apply Forall_cons_iff in Hr as [R3 _].
    exists wpre, w1, w2, w3, post. split_and!; try done. intros w info Hin Hb.
    rewrite List.Forall_forall in Hp, Ha1. specialize (Hp _ (in_map _ _ _ Hin)). by rewrite (named_levelled w info) in Hp by auto.
  - intros (pre & w1 & w2 & w3 & post & -> & R1 & R2 & R3 & Hp). right. rewrite map_app.
    apply Forall_app in Ha as [Ha1 Ha2].
    exists (map (probe CameraPort.battery_status) pre), (map (probe CameraPort.battery_status) (w1 :: w2 :: w3 :: post)). split; [done|]. split.
    + apply refusals_probes; [done|]. cbn [length take]. split; [lia|]. by repeat (apply Forall_cons_iff; split).
    + apply List.Forall_forall. intros t Ht. apply in_map_iff in Ht as (w & <- & Hin).
      destruct (levelled _) eqn:El; [|done]. apply probe_levelled in El as [info Hb]. by destruct (Hp w info).
Qed.

(** ** Across sessions

    What the poller has read is forgotten with the session, the flag is not: a
    camera that reported a level in one session is given up in a later one. *)

Definition refusal : TickResult BatteryStatus :=
  Answered (Err (UnintelligibleReply (new_bc (MkBcMeta MSG_ID_BATTERY_INFO 0 0 400 0 0) None None) [])).

Example latched_after_level :
  battery_sessions false [[Answered (Ok (MkBatteryStatus 57 3900 [] false))]; [refusal; refusal; refusal]]
  = ([BatteryLevel 57], true).
Proof. vm_compute. reflexivity. Qed.

(** ** What the preview shows *)

Section preview_spec.
Context `{I : Images}.

(** The poller without its cache. *)
Fixpoint preview_spec (overlay : bool) (last : option bytes) (ticks : list PreviewTick) : list bytes :=
  match ticks with
  | [] => []
  | t :: ticks =>
      let last := match snapshot t with Some (Answered (Ok b)) => Some b | _ => last end in
      match last with Some jpeg => [rendered_once jpeg overlay (preview_state t)] | None => [] end
      ++ preview_spec overlay last ticks
  end.

Definition snapshots (ticks : list PreviewTick) : list bytes :=
  omap (fun t => match snapshot t with Some (Answered (Ok b)) => Some b | _ => None end) ticks.

(** No two of the pictures share a hash. *)
Definition no_collision (l : list bytes) : Prop := forall a b, In a l -> In b l -> fast_hash a = fast_hash b -> a = b.

Definition cache_ok (l : list bytes) (cache : option CacheEntry) : Prop :=
  forall e, cache = Some e -> exists j, In j l /\ fast_hash j = input_hash e /\ rendered e = render j (entry_state e).

Lemma cache_render_ok l cache jpeg s :
  no_collision l -> cache_ok l cache -> In jpeg l ->
  (cache_render cache jpeg s).1 = render jpeg s /\ cache_ok l (cache_render cache jpeg s).2.
Proof.
  intros Hn Hc Hj. unfold cache_render.
  assert (cache_ok l (Some (MkCacheEntry s (fast_hash jpeg) (render jpeg s)))) as Hf by (intros e [= <-]; by exists jpeg).
  destruct cache as [e|]; [|done]. case_bool_decide as Es; cbn [andb]; [|done].
  destruct (Z.eqb_spec (input_hash e) (fast_hash jpeg)) as [Eh|]; [|done]. split; [|done].
  destruct (Hc e eq_refl) as (j & Hin & Hjh & Hr). cbn [fst]. rewrite Hr, Es. f_equal. apply Hn; [done|done|congruence].
Qed.

Lemma preview_poller_spec overlay l ticks : forall p,
  no_collision l -> cache_ok l (overlay_cache p) -> (forall b, last_jpeg p = Some b -> In b l) ->
  (forall b, In b (snapshots ticks) -> In b l) ->
  preview_poller overlay p ticks = preview_spec overlay (last_jpeg p) ticks.
Proof.
  induction ticks as [|t ticks IH]; intros p Hn Hc Hl Ht; [done|]. cbn [preview_poller preview_spec]. unfold preview_tick.
  set (last := match snapshot t with Some (Answered (Ok b)) => Some b | _ => last_jpeg p end).
  assert (forall b, last = Some b -> In b l) as Hlast.
  { intros b Hb. unfold last in Hb. unfold snapshots in Ht. cbn [omap list_omap] in Ht.
    destruct (snapshot t) as [[[s|e]|]|]; try by apply Hl. injection Hb as ->. apply Ht. by left. }
  assert (forall b, In b (snapshots ticks) -> In b l) as Ht'.
  { intros b Hb. apply Ht. unfold snapshots in *. cbn [omap list_omap]. destruct (snapshot t) as [[[s|e]|]|]; try done. by right. }
  destruct last as [jpeg|] eqn:El.
  - unfold rendered_preview, rendered_once. destruct overlay.
    + destruct (cache_render_ok l (overlay_cache p) jpeg (preview_state t) Hn Hc (Hlast _ eq_refl)) as [E1 E2].
      destruct (cache_render (overlay_cache p) jpeg (preview_state t)) as [r cache]. cbn [fst snd] in *. rewrite E1. f_equal.
      rewrite IH; [done..|exact Hlast|done].
    + f_equal. by rewrite IH.
  - cbn [app]. by rewrite IH.
Qed.

(** The preview published at each tick is the camera's last
    snapshot, one just taken where the camera is connected, under the caption of
    the state the camera is in; until a first snapshot there is none. The cache
    of the last rendering changes nothing as long as no two snapshots share
    their hash. *)
Theorem preview_exact overlay ticks :
  no_collision (snapshots ticks) ->
  preview_poller overlay (MkPoller None None) ticks = preview_spec overlay None ticks.
Proof. intros Hn. by apply (preview_poller_spec overlay (snapshots ticks)). Qed.
End preview_spec.

(** An image that is its bytes with the caption's length before them. *)
Definition images_toy : Images := {|
  image := bytes; load b := match b with 255 :: b => Some b | _ => None end;
  write_to b := Some (255 :: b); draw_caption b c := len c :: b; fast_hash b := fold_right Z.add 0 b
|}.

Lemma preview_exact_witness :
  preview_poller (I := images_toy) true (MkPoller None None)
    [MkTick None Sleeping; MkTick (Some (Answered (Ok [255; 1]))) Live; MkTick None PreviewConnecting;
     MkTick None Sleeping; MkTick (Some Elapsed) Sleeping; MkTick (Some (Answered (Ok [7]))) Sleeping]
  = [[255; 1]; [255; 10; 1]; [255; 8; 1]; [255; 8; 1]; [7]].
Proof.
  rewrite (preview_exact (I := images_toy)); [reflexivity|]. intros a b Ha Hb. cbn in Ha, Hb.
  destruct Ha as [<-|[<-|[]]], Hb as [<-|[<-|[]]]; cbn; done.
Defined.

(** Two snapshots with one hash: the second is published as the first. *)
Example collision_shows_old :
  preview_poller (I := images_toy) true (MkPoller None None)
    [MkTick (Some (Answered (Ok [255; 1; 2]))) Sleeping; MkTick (Some (Answered (Ok [255; 2; 1]))) Sleeping]
  = [[255; 8; 1; 2]; [255; 8; 1; 2]].
Proof. reflexivity. Qed.

(** ** The tasks a session has *)

Lemma in_if {A} (b : bool) (x : A) l : In x (if b then l else []) <-> b = true /\ In x l.
Proof. destruct b; cbn; naive_solver. Qed.

Definition task_list (mqtt_client battery_unsupported : bool) (h g : Z) (cam : CameraConfig) : list SessionTask :=
  let m := cam_mqtt cam in
  PreviewAggregator
  :: (if mqtt_client then
        (if enable_motion m then [MotionTask h] else [])
        ++ (if enable_battery m && negb battery_unsupported then [BatteryTask (millis (battery_update m))] else [])
        ++ (if enable_floodlight m then [FloodlightTask (millis (floodlight_update m)); FloodlightListenerTask] else [])
        ++ (if enable_pir m then [PirQuery] else [])
      else [])
  ++ (if Config.idle_disconnect cam then [GraceTask g] else []).

(** The tasks a session is due: the preview's always, those of the MQTT side when
    there is a client and the camera is configured for them, the grace period's for a
    camera that may sleep. *)
Inductive due (mqtt_client battery_unsupported : bool) (cam : CameraConfig) (h g : Z) : SessionTask -> Prop :=
| due_preview : due mqtt_client battery_unsupported cam h g PreviewAggregator
| due_motion : mqtt_client = true -> enable_motion (cam_mqtt cam) = true ->
    due mqtt_client battery_unsupported cam h g (MotionTask h)
| due_battery : mqtt_client = true -> enable_battery (cam_mqtt cam) = true -> battery_unsupported = false ->
    due mqtt_client battery_unsupported cam h g (BatteryTask (millis (battery_update (cam_mqtt cam))))
| due_floodlight : mqtt_client = true -> enable_floodlight (cam_mqtt cam) = true ->
    due mqtt_client battery_unsupported cam h g (FloodlightTask (millis (floodlight_update (cam_mqtt cam))))
| due_listener : mqtt_client = true -> enable_floodlight (cam_mqtt cam) = true ->
    due mqtt_client battery_unsupported cam h g FloodlightListenerTask
| due_pir : mqtt_client = true -> enable_pir (cam_mqtt cam) = true ->
    due mqtt_client battery_unsupported cam h g PirQuery
| due_grace : Config.idle_disconnect cam = true -> due mqtt_client battery_unsupported cam h g (GraceTask g).

Lemma in_tasks x mqtt_client battery_unsupported h g cam :
  In x (task_list mqtt_client battery_unsupported h g cam) <-> due mqtt_client battery_unsupported cam h g x.
Proof.
  unfold task_list. cbn [In]. rewrite in_app_iff, in_if, !in_app_iff, !in_if, andb_true_iff, negb_true_iff. cbn [In].
  split; [|destruct 1; intuition congruence].
  intros H. repeat match goal with
  | H : _ \/ _ |- _ => destruct H | H : _ /\ _ |- _ => destruct H | H : False |- _ => destruct H end;
  subst; by constructor.
Qed.

Lemma tasks_once mqtt_client battery_unsupported h g cam : NoDup (task_list mqtt_client battery_unsupported h g cam).
Proof.
  unfold task_list. destruct mqtt_client, (enable_motion (cam_mqtt cam)), (enable_battery (cam_mqtt cam)), battery_unsupported,
    (enable_floodlight (cam_mqtt cam)), (enable_pir (cam_mqtt cam)), (Config.idle_disconnect cam); cbn; repeat constructor; set_solver.
Qed.

Lemma spawn_tasks_panic mqtt_client battery_unsupported prune cam :
  (mqtt_client && enable_motion (cam_mqtt cam) = true /\ from_secs_f64 (motion_wake_hold_secs cam) = Panic)
  \/ (Config.idle_disconnect cam = true /\ resolve_idle_disconnect_timeout cam prune = Panic) ->
  spawn_session_tasks mqtt_client battery_unsupported prune cam = Panic.
Proof.
  unfold spawn_session_tasks, mqtt_tasks. intros [[[-> ->]%andb_true_iff ->]|[-> ->]]; [done|].
  destruct mqtt_client; [|done]. destruct (enable_motion (cam_mqtt cam)); [|done]. by destruct (from_secs_f64 _).
Qed.

Lemma spawn_tasks_need mqtt_client battery_unsupported prune cam h g :
  (mqtt_client && enable_motion (cam_mqtt cam) = true -> from_secs_f64 (motion_wake_hold_secs cam) = Ret h) ->
  (Config.idle_disconnect cam = true -> resolve_idle_disconnect_timeout cam prune = Ret g) ->
  spawn_session_tasks mqtt_client battery_unsupported prune cam = Ret (task_list mqtt_client battery_unsupported h g cam).
Proof.
  intros Eh Eg. unfold spawn_session_tasks, mqtt_tasks, task_list.
  destruct mqtt_client, (enable_motion (cam_mqtt cam)), (Config.idle_disconnect cam);
    rewrite ?(Eh eq_refl), ?(Eg eq_refl); reflexivity.
Qed.

(** C23: For a camera of an admitted configuration the tasks of a session are exactly
    those it is due, each once: the preview's, with an MQTT client motion's, the
    battery's unless it was given up, the floodlight's two and the motion sensor's as
    configured, and the grace period's if the camera may sleep. No poller's interval
    is below half a second (one of zero would panic it), and the grace is no shorter
    than that of the camera's sources. Spawning them panics in one case only, which
    the validation admits: a motion hold or an idle time that is used and is 2^64
    seconds or more. *)
Theorem session_tasks c cam mqtt_client battery_unsupported :
  validate_config c = Ok tt -> Forall canonical_camera (cameras c) -> 0 <= stream_prune_grace_secs c <= i64_max ->
  In cam (cameras c) ->
  let spawned := spawn_session_tasks mqtt_client battery_unsupported (secs (stream_prune_grace_secs c)) cam in
  if (mqtt_client && enable_motion (cam_mqtt cam) && negb (below (motion_wake_hold_secs cam)))
     || (Config.idle_disconnect cam && negb (below (idle_secs cam)))
  then spawned = Panic
  else exists tasks h g, spawned = Ret tasks /\ NoDup tasks
    /\ (forall x, In x tasks <-> due mqtt_client battery_unsupported cam h g x)
    /\ (mqtt_client && enable_motion (cam_mqtt cam) = true -> from_secs_f64 (motion_wake_hold_secs cam) = Ret h)
    /\ (Config.idle_disconnect cam = true -> secs (stream_prune_grace_secs c) <= g)
    /\ forall i, In (BatteryTask i) tasks \/ In (FloodlightTask i) tasks -> millis 500 <= i.
Proof.
  intros Hv%validate_config_iff Hcan Hg Hin. pose proof (wf_cameras c Hv) as Hcams.
  rewrite List.Forall_forall in Hcams, Hcan. destruct (Hcams cam Hin) as [_ Hok], (Hcan cam Hin) as (C1 & C2 & C3).
  set (m := mqtt_client && enable_motion (cam_mqtt cam)).
  assert (m = true -> below (motion_wake_hold_secs cam) = true -> exists h, from_secs_f64 (motion_wake_hold_secs cam) = Ret h) as Hh.
  { intros _ B. destruct (hold_secs _ C3 (motion_ok cam Hok) B) as (h & ? & _). eauto. }
  assert (below (idle_secs cam) = true -> exists g, resolve_idle_disconnect_timeout cam (secs (stream_prune_grace_secs c)) = Ret g
    /\ secs (stream_prune_grace_secs c) <= g) as Hgr.
  { intros B. destruct (hold_secs _ C1 (idle_secs_ok _ Hok) B) as (n & En & _).
    unfold resolve_idle_disconnect_timeout. rewrite En. cbn [out_bind].
    destruct (Z.ltb_spec n (secs (stream_prune_grace_secs c))); [|by eexists].
    rewrite (grace_fits _ Hg). eexists. split; [done|]. unfold secs. lia. }
  cbn zeta. destruct (_ || _) eqn:Eb.
  - apply spawn_tasks_panic. apply orb_true_iff in Eb as [[? B%negb_true_iff]%andb_true_iff|[? B%negb_true_iff]%andb_true_iff].
    + left. split; [done|]. by apply from_secs_f64_panic.
    + right. split; [done|]. unfold resolve_idle_disconnect_timeout.
      by rewrite (from_secs_f64_panic _ C1 B).
  - apply orb_false_iff in Eb as [B1 B2].
    assert (exists h, m = true -> from_secs_f64 (motion_wake_hold_secs cam) = Ret h) as [h Eh].
    { destruct m; [|by exists 0]. cbn in B1. apply negb_false_iff in B1. destruct (Hh eq_refl B1) as [h E]. by exists h. }
    assert (exists g, Config.idle_disconnect cam = true ->
      resolve_idle_disconnect_timeout cam (secs (stream_prune_grace_secs c)) = Ret g /\ secs (stream_prune_grace_secs c) <= g)
      as [g Eg].
    { destruct (Config.idle_disconnect cam); [|by exists 0]. cbn in B2. apply negb_false_iff in B2.
      destruct (Hgr B2) as (g & E). by exists g. }
    exists (task_list mqtt_client battery_unsupported h g cam), h, g.
    split; [apply spawn_tasks_need; [done|by intros H; apply Eg]|]. split; [apply tasks_once|].
    split; [intros x; apply in_tasks|]. split; [done|]. split; [by intros H; apply Eg|].
    destruct (intervals_ok cam Hok) as (I1 & I2 & I3).
    intros i [H|H]; apply in_tasks in H; inversion H; unfold millis; lia.
Qed.

Lemma session_tasks_witness :
  exists tasks, spawn_session_tasks true false (secs 30) (sample_camera (lit "porch") None) = Ret tasks
    /\ In PreviewAggregator tasks /\ (exists g, In (GraceTask g) tasks /\ secs 30 <= g).
Proof.
  destruct (session_tasks (with_cameras Config_default [sample_camera (lit "porch") None]) (sample_camera (lit "porch") None)
    true false ltac:(vm_compute; done) ltac:(constructor; [split_and!; vm_compute; done|constructor])
    ltac:(vm_compute; split; intros [=]) ltac:(by left))
    as (tasks & h & g & E & _ & Hin & _ & Hg & _).
  exists tasks. split; [exact E|]. split; [apply Hin; constructor|].
  exists g. split; [apply Hin; by constructor|by apply Hg].
Defined.

(** A mains-powered camera: every query is answered with code 400. *)
Definition mains_reply : Bc := new_bc (MkBcMeta MSG_ID_BATTERY_INFO 0 0 400 0 0x6614) None None.

Definition asked_world (inbox : list Reception) : World :=
  MkWorld (MkBcCamera 0 true 1 (MkCredentials [] None) ∅ false None None None None None None) [] [None; None] inbox.

Definition mains_session : list World :=
  [asked_world [Silence]; asked_world [Delivered mains_reply]; asked_world [Delivered mains_reply];
   asked_world [Broken BcConn.DroppedSubscriber]; asked_world [Delivered mains_reply]; asked_world [Delivered mains_reply];
   asked_world [Delivered mains_reply]].

Lemma battery_latch_witness : (battery_poller (map (probe CameraPort.battery_status) mains_session)).2 = true.
Proof.
  apply battery_latch.
  - unfold mains_session. repeat (apply Forall_cons_iff; split); try (by exists []). constructor.
  - exists (take 4 mains_session), (asked_world [Delivered mains_reply]), (asked_world [Delivered mains_reply]),
      (asked_world [Delivered mains_reply]), []. split; [reflexivity|].
    assert (no_battery_here (asked_world [Delivered mains_reply])) as Hn.
    { exists mains_reply. split; [by exists []|]. left. discriminate. }
    do 3 (split; [exact Hn|]). intros w info Hin (m & [rest Hr] & E & _).
    cbn in Hin. destruct Hin as [<-|[<-|[<-|[<-|[]]]]]; cbn in Hr; try discriminate; injection Hr as <- _; discriminate.
Defined.
