(* ===== verification/HaDiscovery.v ===== *)
(** * Home Assistant discovery ([src/mqtt/discovery/mod.rs, publisher.rs])

    The retained messages that announce a camera's entities to Home Assistant:
    the payload structs and their JSON text, one builder per entity, the features
    a camera has, and the publisher with its memory of the topics it published
    last. The broker is the store of retained messages: an empty payload deletes.
    Sets of topics are [gset]s; the order a set is walked in is [elements]'. *)

From S2P Require Import Prelude Text WakeServer Toml Config CameraPort MqttControl Mqtt.

(** ** JSON text ([serde_json::to_vec]) *)

Inductive Json :=
| JStr (s : str)
| JArr (l : list Json)
| JObj (fields : list (str * Json)).

Definition hex_digit (d : Z) : Z := if d <? 10 then 48 + d else 87 + d.

Definition json_char (c : Z) : str :=
  if c =? 34 then [92; 34]
  else if c =? 92 then [92; 92]
  else if c =? 8 then lit "\b"
  else if c =? 9 then lit "\t"
  else if c =? 10 then lit "\n"
  else if c =? 12 then lit "\f"
  else if c =? 13 then lit "\r"
  else if c <? 32 then lit "\u00" ++ [hex_digit (c / 16); hex_digit (c mod 16)]
  else [c].

Definition json_str (s : str) : str := [34] ++ flat_map json_char s ++ [34].

Fixpoint commas (l : list str) : str :=
  match l with [] => [] | [x] => x | x :: l => x ++ [44] ++ commas l end.

Fixpoint json_text (j : Json) : str :=
  match j with
  | JStr s => json_str s
  | JArr l => [91] ++ commas (map json_text l) ++ [93]
  | JObj fields => [123] ++ commas (map (fun '(k, v) => json_str k ++ [58] ++ json_text v) fields) ++ [125]
  end.

(** [skip_serializing_if = Option::is_none] *)
Definition opt_field (k : string) (v : option str) : list (str * Json) :=
  match v with Some s => [(lit k, JStr s)] | None => [] end.

Definition field (k : string) (v : str) : list (str * Json) := [(lit k, JStr v)].

(** ** The payloads *)

Record DiscoveryConnection := MkConnection { connection_type : str; connection_id : str }.

Definition ser_connection (c : DiscoveryConnection) : Json := JArr [JStr (connection_type c); JStr (connection_id c)].

Record DiscoveryDevice := MkDevice {
  dev_name : str; connections : list DiscoveryConnection; identifiers : list str;
  manufacturer : option str; model : option str; sw_version : option str
}.

Definition ser_device (d : DiscoveryDevice) : Json :=
  JObj (field "name" (dev_name d) ++ [(lit "connections", JArr (map ser_connection (connections d)))]
        ++ [(lit "identifiers", JArr (map JStr (identifiers d)))]
        ++ opt_field "manufacturer" (manufacturer d) ++ opt_field "model" (model d) ++ opt_field "sw_version" (sw_version d)).

Record DiscoveryAvailability := MkAvailability {
  av_topic : str; payload_available : option str; payload_not_available : option str
}.

Definition ser_availability (a : DiscoveryAvailability) : Json :=
  JObj (field "topic" (av_topic a) ++ opt_field "payload_available" (payload_available a)
        ++ opt_field "payload_not_available" (payload_not_available a)).

(** What every entity starts with. *)
Record Common := MkCommon {
  ent_name : str; unique_id : str; icon : option str; device : DiscoveryDevice; availability : DiscoveryAvailability
}.

Definition ser_common (c : Common) : list (str * Json) :=
  field "name" (ent_name c) ++ field "unique_id" (unique_id c) ++ opt_field "icon" (icon c)
  ++ [(lit "device", ser_device (device c)); (lit "availability", ser_availability (availability c))].

Record DiscoveryLight := MkLight {
  light_state_topic : option str; light_state_value_template : option str; light_command_topic : option str;
  light_payload_on : str; light_payload_off : str
}.

Record DiscoveryCamera := MkCamera { camera_topic : str }.

Record DiscoverySwitch := MkSwitch {
  switch_command_topic : str; switch_payload_off : str; switch_payload_on : str; switch_state_topic : option str;
  state_off : option str; state_on : option str
}.

Record DiscoverySelect := MkSelect {
  select_command_topic : str; options : list str; select_state_topic : option str
}.

Record DiscoveryBinarySensor := MkBinarySensor { bs_payload_off : str; bs_payload_on : str; bs_state_topic : str }.

Record DiscoveryButton := MkButton { button_command_topic : str; payload_press : option str }.

Record DiscoverySensor := MkSensor {
  sensor_state_topic : str; state_class : str; unit_of_measurement : str; device_class : option str
}.

Inductive Entity :=
| ELight (e : DiscoveryLight)
| ECamera (e : DiscoveryCamera)
| ESwitch (e : DiscoverySwitch)
| ESelect (e : DiscoverySelect)
| EBinarySensor (e : DiscoveryBinarySensor)
| EButton (e : DiscoveryButton)
| ESensor (e : DiscoverySensor).

Definition ser_entity (e : Entity) : list (str * Json) :=
  match e with
  | ELight e =>
      opt_field "state_topic" (light_state_topic e) ++ opt_field "state_value_template" (light_state_value_template e)
      ++ opt_field "command_topic" (light_command_topic e) ++ field "payload_on" (light_payload_on e)
      ++ field "payload_off" (light_payload_off e)
  | ECamera e => field "topic" (camera_topic e) ++ field "image_encoding" (lit "b64")
  | ESwitch e =>
      field "command_topic" (switch_command_topic e) ++ field "payload_off" (switch_payload_off e)
      ++ field "payload_on" (switch_payload_on e) ++ opt_field "state_topic" (switch_state_topic e)
      ++ opt_field "state_off" (state_off e) ++ opt_field "state_on" (state_on e)
  | ESelect e =>
      field "command_topic" (select_command_topic e) ++ [(lit "options", JArr (map JStr (options e)))]
      ++ opt_field "state_topic" (select_state_topic e)
  | EBinarySensor e =>
      field "payload_off" (bs_payload_off e) ++ field "payload_on" (bs_payload_on e)
      ++ field "state_topic" (bs_state_topic e)
  | EButton e => field "command_topic" (button_command_topic e) ++ opt_field "payload_press" (payload_press e)
  | ESensor e =>
      field "state_topic" (sensor_state_topic e) ++ field "state_class" (state_class e)
      ++ field "unit_of_measurement" (unit_of_measurement e) ++ opt_field "device_class" (device_class e)
  end.

Definition to_json (c : Common) (e : Entity) : bytes := as_bytes (json_text (JObj (ser_common c ++ ser_entity e))).

Record DiscoveryContext := MkContext {
  topic_prefix : str; ha_topic : str; ctx_camera : str; camera_addr : option str; camera_uid : option str;
  ctx_sw_version : str; capabilities : CameraCapabilities; presets : list (Z * str)
}.

(** ** Helpers *)

Definition ascii_upper (c : Z) : Z := if in_range 97 122 c then c - 32 else c.

Definition title_word (w : str) : str := match w with [] => [] | c :: w => ascii_upper c :: w end.

(** [split(['_', '-'])]. *)
Fixpoint split_words (s : str) : list str :=
  match s with
  | [] => [[]]
  | c :: s =>
      if (c =? 95) || (c =? 45) then [] :: split_words s
      else match split_words s with w :: ws => (c :: w) :: ws | [] => [[c]] end
  end.

Fixpoint join_words (l : list str) : str :=
  match l with [] => [] | [x] => x | x :: l => x ++ [32] ++ join_words l end.

Definition title_case (name : str) : str := join_words (map title_word (split_words name)).

Definition identifier (prefix cam : str) : str := prefix ++ lit "_" ++ cam.

Definition unique (prefix cam suffix : str) : str := prefix ++ lit "_" ++ cam ++ lit "_" ++ suffix.

Definition availability_block (ctx : DiscoveryContext) : DiscoveryAvailability :=
  MkAvailability (topic_prefix ctx ++ lit "/" ++ ctx_camera ctx ++ lit "/status") (Some (lit "connected")) None.

Definition device_block (ctx : DiscoveryContext) (friendly : str) : DiscoveryDevice :=
  MkDevice friendly
    (match camera_addr ctx with Some a => [MkConnection (lit "camera_addr") a] | None => [] end
     ++ match camera_uid ctx with Some u => [MkConnection (lit "camera_uid") u] | None => [] end)
    [identifier (topic_prefix ctx) (ctx_camera ctx)] (Some (lit "Reolink")) (Some (lit "Bairelay")) (Some (ctx_sw_version ctx)).

Definition cam_topic (ctx : DiscoveryContext) (category leaf : str) : str :=
  topic_prefix ctx ++ lit "/" ++ ctx_camera ctx ++ lit "/" ++ category ++ lit "/" ++ leaf.

Definition config_topic (ctx : DiscoveryContext) (component unique_id : str) : str :=
  ha_topic ctx ++ lit "/" ++ component ++ lit "/" ++ unique_id ++ lit "/config".

(** ** The builders

    An entity's topic and payload from its component, the suffix of its
    [unique_id], its name after the camera's, its icon and its own fields. *)

Definition common (ctx : DiscoveryContext) (suffix name ic : str) : Common :=
  let friendly := title_case (ctx_camera ctx) in
  MkCommon (friendly ++ lit " " ++ name) (unique (topic_prefix ctx) (ctx_camera ctx) suffix) (Some (lit "mdi:" ++ ic))
    (device_block ctx friendly) (availability_block ctx).

Record Built := MkBuilt { component : str; suffix : str; built_common : Common; entity : Entity }.

Definition built (ctx : DiscoveryContext) (component suffix name ic : str) (e : Entity) : Built :=
  MkBuilt component suffix (common ctx suffix name ic) e.

Definition message (ctx : DiscoveryContext) (b : Built) : str * bytes :=
  (config_topic ctx (component b) (unique_id (built_common b)), to_json (built_common b) (entity b)).

Definition on_off_switch (ctx : DiscoveryContext) (action : str) (stateful : bool) : Entity :=
  let state v := if stateful then Some v else None in
  ESwitch (MkSwitch (cam_topic ctx (lit "control") action) (lit "off") (lit "on")
             (state (cam_topic ctx (lit "status") action)) (state (lit "off")) (state (lit "on"))).

Definition build_floodlight_light (ctx : DiscoveryContext) : Built :=
  built ctx (lit "light") (lit "floodlight") (lit "Floodlight") (lit "spotlight-beam")
    (ELight (MkLight (Some (cam_topic ctx (lit "status") (lit "floodlight"))) (Some (lit "{{ value_json.state }}"))
               (Some (cam_topic ctx (lit "control") (lit "floodlight"))) (lit "on") (lit "off"))).

Definition build_floodlight_tasks_switch (ctx : DiscoveryContext) : Built :=
  built ctx (lit "switch") (lit "floodlight_tasks") (lit "Floodlight Tasks") (lit "spotlight-beam")
    (on_off_switch ctx (lit "floodlight_tasks") true).

Definition build_camera (ctx : DiscoveryContext) : Built :=
  built ctx (lit "camera") (lit "camera") (lit "Camera") (lit "camera-iris")
    (ECamera (MkCamera (cam_topic ctx (lit "status") (lit "preview")))).

Definition build_motion (ctx : DiscoveryContext) : Built :=
  built ctx (lit "binary_sensor") (lit "md") (lit "MD") (lit "motion-sensor")
    (EBinarySensor (MkBinarySensor (lit "off") (lit "on") (cam_topic ctx (lit "status") (lit "motion")))).

Definition build_led (ctx : DiscoveryContext) : Built :=
  built ctx (lit "switch") (lit "led") (lit "LED") (lit "led-on") (on_off_switch ctx (lit "led") false).

Definition build_ir (ctx : DiscoveryContext) : Built :=
  built ctx (lit "select") (lit "ir") (lit "IR") (lit "lightbulb-night")
    (ESelect (MkSelect (cam_topic ctx (lit "control") (lit "ir")) [lit "on"; lit "off"; lit "auto"] None)).

Definition build_pir (ctx : DiscoveryContext) : Built :=
  built ctx (lit "switch") (lit "pir") (lit "PIR") (lit "motion-sensor") (on_off_switch ctx (lit "pir") true).

(** [retain(|n| seen.insert(..))]: first occurrences, in order. *)
Fixpoint first_seen (seen : list str) (l : list str) : list str :=
  match l with
  | [] => []
  | n :: l => if bool_decide (n ∈ seen) then first_seen seen l else n :: first_seen (n :: seen) l
  end.

Definition build_ptz_presets (ctx : DiscoveryContext) : option Built :=
  if negb (has_ptz (capabilities ctx)) then None
  else match presets ctx with
       | [] => None
       | presets =>
           Some (built ctx (lit "select") (lit "preset") (lit "Preset") (lit "target")
                   (ESelect (MkSelect (cam_topic ctx (lit "control") (lit "ptz/preset")) (first_seen [] (map snd presets))
                               (Some (status_ptz_preset (topic_prefix ctx) (ctx_camera ctx))))))
       end.

Definition build_reboot (ctx : DiscoveryContext) : Built :=
  built ctx (lit "button") (lit "reboot") (lit "Reboot") (lit "restart")
    (EButton (MkButton (cam_topic ctx (lit "control") (lit "reboot")) None)).

Definition build_pt_buttons (ctx : DiscoveryContext) : list Built :=
  if negb (has_ptz (capabilities ctx)) then []
  else map (fun dir =>
         built ctx (lit "button") (lit "pan_" ++ dir) (lit "Pan " ++ dir) (lit "pan-" ++ dir)
           (EButton (MkButton (cam_topic ctx (lit "control") (lit "ptz")) (Some dir))))
       [lit "left"; lit "right"; lit "up"; lit "down"].

Definition build_battery (ctx : DiscoveryContext) : Built :=
  built ctx (lit "sensor") (lit "battery") (lit "Battery") (lit "battery")
    (ESensor (MkSensor (cam_topic ctx (lit "status") (lit "battery_level")) (lit "measurement") (lit "%") (Some (lit "battery")))).

Definition build_siren (ctx : DiscoveryContext) : Built :=
  built ctx (lit "button") (lit "siren") (lit "Siren") (lit "bell")
    (EButton (MkButton (cam_topic ctx (lit "control") (lit "siren")) (Some (lit "on")))).

(** ** The publisher *)

Definition allows (f : CameraEnableFlags) (feature : Feature) : bool :=
  match feature with
  | FMotion => flag_motion f
  | FBattery => flag_battery f
  | FFloodlight => flag_floodlight f
  | FLed => flag_light f
  | FPir => flag_pir f
  | FCamera | FIr | FReboot | FPt | FPtPreset | FSiren => true
  end.

Definition build (ctx : DiscoveryContext) (feature : Feature) : list Built :=
  match feature with
  | FFloodlight => [build_floodlight_light ctx; build_floodlight_tasks_switch ctx]
  | FCamera => [build_camera ctx]
  | FMotion => [build_motion ctx]
  | FLed => [build_led ctx]
  | FIr => [build_ir ctx]
  | FReboot => [build_reboot ctx]
  | FPt => build_pt_buttons ctx
  | FPtPreset => match build_ptz_presets ctx with Some b => [b] | None => [] end
  | FBattery => [build_battery ctx]
  | FSiren => [build_siren ctx]
  | FPir => [build_pir ctx]
  end.

Record Publisher := MkPublisher {
  pub_topic_prefix : str; pub_ha_topic : str; features : gset Feature; pub_sw_version : str
}.

(** What the publisher is told of a camera. *)
Record Subject := MkSubject {
  s_camera : str; s_addr : option str; s_uid : option str; s_capabilities : CameraCapabilities;
  s_flags : CameraEnableFlags; s_presets : list (Z * str)
}.

Definition context (p : Publisher) (s : Subject) : DiscoveryContext :=
  MkContext (pub_topic_prefix p) (pub_ha_topic p) (s_camera s) (s_addr s) (s_uid s) (pub_sw_version p) (s_capabilities s)
    (s_presets s).

Definition compute_entities (p : Publisher) (s : Subject) : list Built :=
  flat_map (fun feature =>
    if bool_decide (feature ∈ features p) && allows (s_flags s) feature then build (context p s) feature else [])
  Feature_ALL.

Definition compute_payloads (p : Publisher) (s : Subject) : list (str * bytes) :=
  map (message (context p s)) (compute_entities p s).

(** Retained messages and the topics last published for each camera. *)
Record Store := MkStore { retained : gmap str bytes; last_published : gmap str (gset str) }.

Definition retain (m : gmap str bytes) (msg : str * bytes) : gmap str bytes :=
  match snd msg with [] => delete (fst msg) m | b => <[fst msg := b]> m end.

(** The publishes one after the other, as many as the client accepts; whether all
    were. *)
Fixpoint publish_all (m : gmap str bytes) (msgs : list (str * bytes)) (accepted : list bool) : gmap str bytes * bool :=
  match msgs with
  | [] => (m, true)
  | msg :: msgs =>
      match accepted with
      | false :: _ => (m, false)
      | true :: accepted => publish_all (retain m msg) msgs accepted
      | [] => publish_all (retain m msg) msgs []
      end
  end.

Definition topics (payloads : list (str * bytes)) : gset str := list_to_set (map fst payloads).

(** The messages of [publish], given the topics published before. *)
Definition publish_messages (p : Publisher) (s : Subject) (previous : gset str) : list (str * bytes) :=
  let payloads := compute_payloads p s in
  let removed := elements (previous ∖ topics payloads) in
  payloads ++ map (fun t => (t, [])) removed ++ [(status_ptz_preset (pub_topic_prefix p) (s_camera s), [])].

Definition previous (cam : str) (memory : gmap str (gset str)) : gset str := default ∅ (memory !! cam).

(** [publish]: the memory is swapped before anything is sent. *)
Definition publish (p : Publisher) (s : Subject) (accepted : list bool) (st : Store) : Store * bool :=
  let msgs := publish_messages p s (previous (s_camera s) (last_published st)) in
  let '(m, ok) := publish_all (retained st) msgs accepted in
  (MkStore m (<[s_camera s := topics (compute_payloads p s)]> (last_published st)), ok).

Definition unpublish (p : Publisher) (s : Subject) (accepted : list bool) (st : Store) : Store * bool :=
  let to_clear := topics (compute_payloads p s) ∪ previous (s_camera s) (last_published st) in
  let '(m, ok) := publish_all (retained st) (map (fun t => (t, [])) (elements to_clear)) accepted in
  (MkStore m (delete (s_camera s) (last_published st)), ok).

(** [CameraHandle::publish_discovery] and [unpublish_discovery]: nothing without
    a publisher, or before the camera's capabilities are known. *)
Definition subject (cam : CameraConfig) (caps : CameraCapabilities) (presets : list (Z * str)) : Subject :=
  MkSubject (cam_name cam) (address cam) (uid cam) caps (enable_flags (cam_mqtt cam)) presets.

Definition publish_discovery (publisher : option Publisher) (caps : option CameraCapabilities) (cam : CameraConfig)
    (presets : list (Z * str)) (accepted : list bool) (st : Store) : Store * bool :=
  match publisher, caps with
  | Some p, Some caps => publish p (subject cam caps presets) accepted st
  | _, _ => (st, true)
  end.

Definition unpublish_discovery (publisher : option Publisher) (caps : option CameraCapabilities) (cam : CameraConfig)
    (presets : list (Z * str)) (accepted : list bool) (st : Store) : Store * bool :=
  match publisher, caps with
  | Some p, Some caps => unpublish p (subject cam caps presets) accepted st
  | _, _ => (st, true)
  end.

Example payload_text :
  json_text (JObj (ser_common (common (MkContext (lit "b") (lit "homeassistant") (lit "front-4K_x") None (Some (lit "U")) (lit "1")
    (MkCapabilities false) []) (lit "led") (lit "LED") (lit "led-on"))))
  = [123] ++ commas [json_str (lit "name") ++ [58] ++ json_str (lit "Front 4K X LED");
      json_str (lit "unique_id") ++ [58] ++ json_str (lit "b_front-4K_x_led");
      json_str (lit "icon") ++ [58] ++ json_str (lit "mdi:led-on");
      json_str (lit "device") ++ [58] ++ [123] ++ commas [json_str (lit "name") ++ [58] ++ json_str (lit "Front 4K X");
        json_str (lit "connections") ++ [58; 91; 91] ++ json_str (lit "camera_uid") ++ [44] ++ json_str (lit "U") ++ [93; 93];
        json_str (lit "identifiers") ++ [58; 91] ++ json_str (lit "b_front-4K_x") ++ [93];
        json_str (lit "manufacturer") ++ [58] ++ json_str (lit "Reolink");
        json_str (lit "model") ++ [58] ++ json_str (lit "Bairelay"); json_str (lit "sw_version") ++ [58] ++ json_str (lit "1")]
        ++ [125];
      json_str (lit "availability") ++ [58; 123] ++ commas [json_str (lit "topic") ++ [58] ++ json_str (lit "b/front-4K_x/status");
        json_str (lit "payload_available") ++ [58] ++ json_str (lit "connected")] ++ [125]] ++ [125].
Proof. vm_compute. reflexivity. Qed.

(** ** What Home Assistant is told works *)

(** The messages an entity lets Home Assistant send; a button without a payload
    of its own sends the default. *)
Definition wire_commands (e : Entity) : list (str * str) :=
  match e with
  | ELight e =>
      match light_command_topic e with Some t => [(t, light_payload_on e); (t, light_payload_off e)] | None => [] end
  | ESwitch e => [(switch_command_topic e, switch_payload_on e); (switch_command_topic e, switch_payload_off e)]
  | ESelect e => map (pair (select_command_topic e)) (options e)
  | EButton e => [(button_command_topic e, default (lit "PRESS") (payload_press e))]
  | ECamera _ | EBinarySensor _ | ESensor _ => []
  end.

(** The topics it makes Home Assistant read. *)
Definition state_topics (e : Entity) : list str :=
  match e with
  | ELight e => match light_state_topic e with Some t => [t] | None => [] end
  | ECamera e => [camera_topic e]
  | ESwitch e => match switch_state_topic e with Some t => [t] | None => [] end
  | ESelect e => match select_state_topic e with Some t => [t] | None => [] end
  | EBinarySensor e => [bs_state_topic e]
  | EButton _ => []
  | ESensor e => [sensor_state_topic e]
  end.

(** What a message means, by the entity's suffix. *)
Definition meant (cam sfx payload : str) : option ControlCommand :=
  let on := bool_decide (payload = lit "on") in
  if bool_decide (sfx = lit "floodlight") then Some (Floodlight cam on)
  else if bool_decide (sfx = lit "floodlight_tasks") then Some (FloodlightTasks cam on)
  else if bool_decide (sfx = lit "led") then Some (Led cam on)
  else if bool_decide (sfx = lit "pir") then Some (Pir cam on)
  else if bool_decide (sfx = lit "siren") then Some (Siren cam on)
  else if bool_decide (sfx = lit "reboot") then Some (Reboot cam)
  else if bool_decide (sfx = lit "ir") then
    Some (Ir cam (if on then IrOn else if bool_decide (payload = lit "off") then IrOff else IrAuto))
  else if bool_decide (sfx = lit "pan_left") then Some (Ptz cam Left f32_32)
  else if bool_decide (sfx = lit "pan_right") then Some (Ptz cam Right f32_32)
  else if bool_decide (sfx = lit "pan_up") then Some (Ptz cam Up f32_32)
  else if bool_decide (sfx = lit "pan_down") then Some (Ptz cam Down f32_32)
  else Some (PtzPresetByName cam (trim payload)).

(** A preset name that is no number, not blank and none of the reply words. *)
Definition plain_name (name : str) : Prop :=
  Forall is_scalar name /\ parse_uint u8_max (trim name) = None /\ trim name <> []
  /\ is_reserved_reply_token (trim name) = false.

(** A topic the camera's status is published on. *)
Definition published (prefix cam t : str) : Prop :=
  (exists e, fst (publication prefix cam e) = t) \/ t = status_ptz_preset prefix cam.

Section commands.
Context `{U : Unicode} `{F : DecimalF32} `{!UnicodeLaws U}.

Lemma control_action prefix cam rest a p :
  no_slash prefix -> name_ok cam -> split 47 (lit rest) = [lit "control"; a] -> from_utf8 (as_bytes p) = Some p ->
  parse_control_message prefix (topic prefix cam rest) (as_bytes p) = parse_control_action cam a (trim p).
Proof.
  intros Hp Hc Hs Eu. unfold parse_control_message. rewrite split_topic, Hs by done. cbn [length nth].
  rewrite bool_decide_eq_true_2 by done. destruct Hc as [Hc1 Hc2].
  rewrite bool_decide_eq_false_2, Hc2 by done. cbn [negb orb Nat.ltb Nat.leb]. by rewrite Eu.
Qed.

Lemma control_preset prefix cam p :
  no_slash prefix -> name_ok cam -> Forall is_scalar p ->
  parse_control_message prefix (control_ptz_preset prefix cam) (as_bytes p)
  = parse_control_ptz_sub cam (lit "preset") (trim p).
Proof.
  intros Hp Hc Eu.
  unfold parse_control_message, control_ptz_preset. rewrite split_topic by done.
  change (split 47 (lit "control/ptz/preset")) with [lit "control"; lit "ptz"; lit "preset"]. cbn [length nth].
  rewrite bool_decide_eq_true_2 by done. destruct Hc as [Hc1 Hc2].
  rewrite bool_decide_eq_false_2, Hc2 by done. cbn [negb orb Nat.ltb Nat.leb].
  rewrite from_utf8_as_bytes by done. cbn [mbind option_bind].
  by change (eqs (lit "control") "control" && eqs (lit "ptz") "ptz") with true.
Qed.

Lemma plain_preset cam p :
  plain_name p -> parse_control_ptz_sub cam (lit "preset") (trim p) = Some (PtzPresetByName cam (trim p)).
Proof.
  intros (_ & Hu & Hne & Hr). unfold parse_control_ptz_sub. change (eqs (lit "preset") "preset") with true. cbv iota.
  rewrite Hu, trim_trim. destruct (trim p) eqn:Et; [done|]. by rewrite Hr.
Qed.

Lemma odd_preset cam p :
  Forall is_scalar p -> ~ plain_name p ->
  parse_control_ptz_sub cam (lit "preset") (trim p) = PtzPreset cam <$> parse_uint u8_max (trim p).
Proof.
  intros Eu Hn. unfold parse_control_ptz_sub. change (eqs (lit "preset") "preset") with true. cbv iota.
  destruct (parse_uint u8_max (trim p)) eqn:Hu; [done|]. rewrite trim_trim. destruct (trim p) as [|c l] eqn:Et; [done|].
  destruct (is_reserved_reply_token (c :: l)) eqn:Hr; [done|]. destruct Hn. unfold plain_name. by rewrite Et.
Qed.

Lemma on_off_parses b : parse_on_off (if b : bool then lit "on" else lit "off") = Some b.
Proof. unfold parse_on_off. destruct b; rewrite to_lowercase_ascii by (by apply ascii_check); reflexivity. Qed.

Lemma ir_parses : parse_ir_mode (lit "on") = Some IrOn /\ parse_ir_mode (lit "off") = Some IrOff
  /\ parse_ir_mode (lit "auto") = Some IrAuto.
Proof. unfold parse_ir_mode. rewrite !to_lowercase_ascii by (by apply ascii_check). by split_and!. Qed.

Lemma dirs_parse : parse_ptz_direction (lit "left") = Some Left /\ parse_ptz_direction (lit "right") = Some Right
  /\ parse_ptz_direction (lit "up") = Some Up /\ parse_ptz_direction (lit "down") = Some Down.
Proof. unfold parse_ptz_direction. rewrite !to_lowercase_ascii by (by apply ascii_check). by split_and!. Qed.

(** A message of an entity means to the bridge what it means to Home Assistant. *)
Definition works (prefix cam : str) (b : Built) : Prop :=
  forall t p, In (t, p) (wire_commands (entity b)) ->
    (suffix b = lit "preset" -> plain_name p) ->
    parse_control_message prefix t (as_bytes p) = meant cam (suffix b) p.

(** A preset whose name is not plain: the message is that of the preset with the
    number it spells, and none when it spells none. *)
Definition misread (prefix cam : str) (b : Built) : Prop :=
  forall t p, In (t, p) (wire_commands (entity b)) -> suffix b = lit "preset" ->
    Forall is_scalar p -> ~ plain_name p ->
    parse_control_message prefix t (as_bytes p) = PtzPreset cam <$> parse_uint u8_max (trim p).

Lemma on_off_works prefix cam rest a (f : str -> bool -> ControlCommand) p :
  no_slash prefix -> name_ok cam -> split 47 (lit rest) = [lit "control"; a] ->
  (forall payload, is_reserved_reply_token payload = false -> parse_control_action cam a payload = f cam <$> parse_on_off payload) ->
  p = lit "on" \/ p = lit "off" ->
  parse_control_message prefix (topic prefix cam rest) (as_bytes p) = Some (f cam (bool_decide (p = lit "on"))).
Proof.
  intros Hp Hc Hs Hf Ho. assert (from_utf8 (as_bytes p) = Some p) as Eu by (by destruct Ho as [->| ->]).
  rewrite (control_action _ _ _ a p Hp Hc Hs Eu). assert (trim p = p) as -> by (by destruct Ho as [->| ->]).
  rewrite Hf by (by destruct Ho as [->| ->]).
  destruct Ho as [->| ->]; [by rewrite (on_off_parses true)|by rewrite (on_off_parses false)].
Qed.

Lemma switch_works ctx a name ic stateful (f : str -> bool -> ControlCommand) (rest : string) :
  no_slash (topic_prefix ctx) -> name_ok (ctx_camera ctx) ->
  cam_topic ctx (lit "control") a = topic (topic_prefix ctx) (ctx_camera ctx) rest ->
  split 47 (lit rest) = [lit "control"; a] ->
  (forall payload, is_reserved_reply_token payload = false ->
     parse_control_action (ctx_camera ctx) a payload = f (ctx_camera ctx) <$> parse_on_off payload) ->
  (forall p, meant (ctx_camera ctx) a p = Some (f (ctx_camera ctx) (bool_decide (p = lit "on")))) ->
  works (topic_prefix ctx) (ctx_camera ctx) (built ctx (lit "switch") a name ic (on_off_switch ctx a stateful)).
Proof.
  intros Hp Hc Ht Hs Hf Hm t p Hin _. cbn [suffix built]. rewrite Hm. cbn [entity built on_off_switch wire_commands
    switch_command_topic switch_payload_on switch_payload_off] in Hin.
  rewrite Ht in Hin. destruct Hin as [[= <- <-]|[[= <- <-]|[]]]; apply (on_off_works _ _ _ a); auto.
Qed.

Lemma floodlight_works ctx :
  no_slash (topic_prefix ctx) -> name_ok (ctx_camera ctx) ->
  works (topic_prefix ctx) (ctx_camera ctx) (build_floodlight_light ctx).
Proof.
  intros Hp Hc t p Hin _. destruct Hin as [[= <- <-]|[[= <- <-]|[]]];
    apply (on_off_works _ _ "control/floodlight" (lit "floodlight") Floodlight); auto;
    intros payload Hr; unfold parse_control_action; by rewrite Hr.
Qed.

Lemma ir_works ctx :
  no_slash (topic_prefix ctx) -> name_ok (ctx_camera ctx) -> works (topic_prefix ctx) (ctx_camera ctx) (build_ir ctx).
Proof.
  intros Hp Hc t p Hin _. destruct ir_parses as (H1 & H2 & H3).
  destruct Hin as [[= <- <-]|[[= <- <-]|[[= <- <-]|[]]]];
    (etrans; [by apply (control_action _ _ "control/ir" (lit "ir"))|]);
    (etrans; [exact (eq_refl : _ = Ir (ctx_camera ctx) <$> parse_ir_mode _)|]).
  - change (trim (lit "on")) with (lit "on"). by rewrite H1.
  - change (trim (lit "off")) with (lit "off"). by rewrite H2.
  - change (trim (lit "auto")) with (lit "auto"). by rewrite H3.
Qed.

Lemma reboot_works ctx :
  no_slash (topic_prefix ctx) -> name_ok (ctx_camera ctx) -> works (topic_prefix ctx) (ctx_camera ctx) (build_reboot ctx).
Proof.
  intros Hp Hc t p Hin _. destruct Hin as [[= <- <-]|[]].
  etrans; [by apply (control_action _ _ "control/reboot" (lit "reboot"))|]. reflexivity.
Qed.

Lemma siren_works ctx :
  no_slash (topic_prefix ctx) -> name_ok (ctx_camera ctx) -> works (topic_prefix ctx) (ctx_camera ctx) (build_siren ctx).
Proof.
  intros Hp Hc t p Hin _. destruct Hin as [[= <- <-]|[]].
  apply (on_off_works _ _ "control/siren" (lit "siren") Siren); auto.
  intros payload Hr; unfold parse_control_action; by rewrite Hr.
Qed.

Lemma pan_works ctx b :
  no_slash (topic_prefix ctx) -> name_ok (ctx_camera ctx) -> In b (build_pt_buttons ctx) ->
  works (topic_prefix ctx) (ctx_camera ctx) b.
Proof.
  intros Hp Hc Hb t p Hin _. unfold build_pt_buttons in Hb. destruct (negb _); [done|].
  destruct dirs_parse as (H1 & H2 & H3 & H4).
  destruct Hb as [<-|[<-|[<-|[<-|[]]]]]; destruct Hin as [[= <- <-]|[]];
    (etrans; [by apply (control_action _ _ "control/ptz" (lit "ptz"))|]);
    change (parse_control_action (ctx_camera ctx) (lit "ptz") ?p) with (parse_ptz (ctx_camera ctx) p);
    unfold parse_ptz.
  - change (split_whitespace (trim (lit "left"))) with [lit "left"]. cbv beta iota. by rewrite H1.
  - change (split_whitespace (trim (lit "right"))) with [lit "right"]. cbv beta iota. by rewrite H2.
  - change (split_whitespace (trim (lit "up"))) with [lit "up"]. cbv beta iota. by rewrite H3.
  - change (split_whitespace (trim (lit "down"))) with [lit "down"]. cbv beta iota. by rewrite H4.
Qed.

Lemma preset_topic ctx b t p :
  build_ptz_presets ctx = Some b -> In (t, p) (wire_commands (entity b)) ->
  suffix b = lit "preset" /\ t = control_ptz_preset (topic_prefix ctx) (ctx_camera ctx).
Proof.
  intros Hb Hin. unfold build_ptz_presets in Hb. destruct (negb _); [done|].
  destruct (presets ctx) as [|x l]; [done|]. injection Hb as <-.
  cbn [entity built wire_commands select_command_topic options] in Hin. by apply in_map_iff in Hin as (q & [= <- <-] & _).
Qed.

Lemma preset_works ctx b :
  no_slash (topic_prefix ctx) -> name_ok (ctx_camera ctx) -> build_ptz_presets ctx = Some b ->
  works (topic_prefix ctx) (ctx_camera ctx) b.
Proof.
  intros Hp Hc Hb t p Hin Hn. destruct (preset_topic _ _ _ _ Hb Hin) as [Hs ->]. specialize (Hn Hs).
  rewrite Hs, control_preset by (try done; apply Hn). by apply plain_preset.
Qed.

Lemma preset_misread ctx b :
  no_slash (topic_prefix ctx) -> name_ok (ctx_camera ctx) -> build_ptz_presets ctx = Some b ->
  misread (topic_prefix ctx) (ctx_camera ctx) b.
Proof.
  intros Hp Hc Hb t p Hin _ Hu Hn. destruct (preset_topic _ _ _ _ Hb Hin) as [_ ->].
  rewrite control_preset by done. by apply odd_preset.
Qed.

Lemma only_presets_misread ctx f b :
  no_slash (topic_prefix ctx) -> name_ok (ctx_camera ctx) -> In b (build ctx f) ->
  misread (topic_prefix ctx) (ctx_camera ctx) b.
Proof.
  intros Hp Hc Hb. destruct f; cbn [build] in Hb.
  7: { unfold build_pt_buttons in Hb. destruct (negb _); [done|].
       destruct Hb as [<-|[<-|[<-|[<-|[]]]]]; intros t p _ Hs; vm_compute in Hs; discriminate. }
  7: { destruct (build_ptz_presets ctx) as [b'|] eqn:E; [|done]. destruct Hb as [<-|[]]. by apply preset_misread. }
  all: repeat destruct Hb as [<-|Hb]; try done; intros t p _ Hs; vm_compute in Hs; discriminate.
Qed.

Lemma no_commands_work prefix cam b : wire_commands (entity b) = [] -> works prefix cam b.
Proof. intros E t p Hin. by rewrite E in Hin. Qed.

Lemma feature_works ctx f b :
  no_slash (topic_prefix ctx) -> name_ok (ctx_camera ctx) -> In b (build ctx f) ->
  works (topic_prefix ctx) (ctx_camera ctx) b.
Proof.
  intros Hp Hc Hb. destruct f; cbn [build] in Hb.
  - destruct Hb as [<-|[<-|[]]]; [by apply floodlight_works|].
    apply (switch_works _ _ _ _ _ FloodlightTasks "control/floodlight_tasks"); try done.
    intros payload Hr. unfold parse_control_action. by rewrite Hr.
  - destruct Hb as [<-|[]]. by apply no_commands_work.
  - destruct Hb as [<-|[]]. by apply no_commands_work.
  - destruct Hb as [<-|[]]. apply (switch_works _ _ _ _ _ Led "control/led"); try done.
    intros payload Hr. unfold parse_control_action. by rewrite Hr.
  - destruct Hb as [<-|[]]. by apply ir_works.
  - destruct Hb as [<-|[]]. by apply reboot_works.
  - by apply pan_works.
  - destruct (build_ptz_presets ctx) as [b'|] eqn:E; [|done]. destruct Hb as [<-|[]]. by apply preset_works.
  - destruct Hb as [<-|[]]. by apply no_commands_work.
  - destruct Hb as [<-|[]]. by apply siren_works.
  - destruct Hb as [<-|[]]. apply (switch_works _ _ _ _ _ Pir "control/pir"); try done.
    intros payload Hr. unfold parse_control_action. by rewrite Hr.
Qed.
End commands.

Lemma feature_published ctx f b :
  In b (build ctx f) -> Forall (published (topic_prefix ctx) (ctx_camera ctx)) (state_topics (entity b)).
Proof.
  intros Hb. destruct f; cbn [build] in Hb.
  - destruct Hb as [<-|[<-|[]]]; apply Forall_singleton; left; [by exists (FloodlightState true)|by exists (FloodlightTasksState true)].
  - destruct Hb as [<-|[]]. apply Forall_singleton. left. by exists (Preview []).
  - destruct Hb as [<-|[]]. apply Forall_singleton. left. by exists MotionUnknown.
  - destruct Hb as [<-|[]]. constructor.
  - destruct Hb as [<-|[]]. constructor.
  - destruct Hb as [<-|[]]. constructor.
  - unfold build_pt_buttons in Hb. destruct (negb _); [done|]. apply in_map_iff in Hb as (d & <- & _). constructor.
  - unfold build_ptz_presets in Hb. destruct (negb _); [done|]. destruct (presets ctx); [done|].
    destruct Hb as [<-|[]]. apply Forall_singleton. by right.
  - destruct Hb as [<-|[]]. apply Forall_singleton. left. by exists (BatteryLevel 0).
  - destruct Hb as [<-|[]]. constructor.
  - destruct Hb as [<-|[]]. apply Forall_singleton. left. by exists (PirState true).
Qed.

Lemma feature_available ctx f b :
  In b (build ctx f) -> availability (built_common b) = availability_block ctx.
Proof.
  intros Hb. destruct f; cbn [build] in Hb; try (repeat destruct Hb as [<-|Hb]; done).
  - unfold build_pt_buttons in Hb. destruct (negb _); [done|]. by apply in_map_iff in Hb as (d & <- & _).
  - unfold build_ptz_presets in Hb. destruct (negb _); [done|]. destruct (presets ctx); [done|]. by destruct Hb as [<-|[]].
Qed.

Lemma in_entities p s b : In b (compute_entities p s) -> exists f, In b (build (context p s) f).
Proof.
  unfold compute_entities. intros Hb. apply in_flat_map in Hb as (f & _ & Hb).
  destruct (bool_decide _ && _); [by exists f|done].
Qed.

(** C35: What Home Assistant is told of an entity agrees with the bridge but for odd
    preset names: every message the entity lets it send is parsed, on the topic
    announced, as the command of that camera the entity stands for, a preset
    select's as the preset of that name when the name is no number up to 255, not
    blank and none of the reply words; a name that is such a number is taken for
    the preset with that id, and one that is blank or a reply word is no command;
    every topic it is told to read is one the camera's status is published on;
    and the availability topic and payload are those of the message that says the
    camera is connected. *)
Theorem announced_commands `{U : Unicode} `{F : DecimalF32} `{!UnicodeLaws U} p s b :
  no_slash (pub_topic_prefix p) -> name_ok (s_camera s) -> In b (compute_entities p s) ->
  works (pub_topic_prefix p) (s_camera s) b /\
  misread (pub_topic_prefix p) (s_camera s) b /\
  Forall (published (pub_topic_prefix p) (s_camera s)) (state_topics (entity b)) /\
  (av_topic (availability (built_common b)), payload_available (availability (built_common b)))
  = (fst (publication (pub_topic_prefix p) (s_camera s) (Connection true)),
     Some (snd (publication (pub_topic_prefix p) (s_camera s) (Connection true)))).
Proof.
  intros Hp Hc Hb. apply in_entities in Hb as [f Hb]. set (ctx := context p s) in *.
  split; [|split; [|split]];
    [by apply (feature_works ctx f)|by apply (only_presets_misread ctx f)|by apply (feature_published ctx f)|].
  by rewrite (feature_available _ _ _ Hb).
Qed.

(** ** What the broker retains *)

Definition suffixes : list str :=
  [lit "floodlight"; lit "floodlight_tasks"; lit "camera"; lit "md"; lit "led"; lit "ir"; lit "reboot"; lit "pan_left";
   lit "pan_right"; lit "pan_up"; lit "pan_down"; lit "preset"; lit "battery"; lit "siren"; lit "pir"].

Definition ends_in (s e : str) : bool :=
  (length e <=? length s)%nat && bool_decide (drop (length s - length e) s = e).

Lemma ends_in_app x e : ends_in (x ++ e) e = true.
Proof.
  unfold ends_in. rewrite length_app, (proj2 (Nat.leb_le _ _)) by lia.
  replace (length x + length e - length e)%nat with (length x) by lia. rewrite drop_app_length. by apply bool_decide_eq_true.
Qed.

(** No suffix ends in [_] and another, so [camera_suffix] has one reading. *)
Lemma suffixes_apart :
  forallb (fun s => forallb (fun e => negb (ends_in s ([95] ++ e))) suffixes) suffixes = true.
Proof. vm_compute. reflexivity. Qed.

Lemma suffix_apart s x e : In s suffixes -> In e suffixes -> s = x ++ [95] ++ e -> False.
Proof.
  intros Hs He ->. pose proof suffixes_apart as H. rewrite forallb_forall in H. specialize (H _ Hs).
  rewrite forallb_forall in H. specialize (H _ He). by rewrite ends_in_app in H.
Qed.

Lemma one_reading c1 c2 s1 s2 :
  In s1 suffixes -> In s2 suffixes -> c1 ++ [95] ++ s1 = c2 ++ [95] ++ s2 -> c1 = c2 /\ s1 = s2.
Proof.
  intros H1 H2 E. assert (forall a b (u v : str), a ++ u = b ++ v -> (exists x, a = b ++ x /\ v = x ++ u) \/ (exists x, b = a ++ x /\ u = x ++ v)) as Hs.
  { clear. induction a as [|y a IH]; intros b u v E; [right; by exists b|].
    destruct b as [|z b]; [left; by exists (y :: a)|]. injection E as -> E.
    destruct (IH _ _ _ E) as [[x [-> ->]]|[x [-> ->]]]; [left|right]; by exists x. }
  destruct (Hs _ _ _ _ E) as [[x [-> E']]|[x [-> E']]]; destruct x as [|y x]; rewrite ?app_nil_r.
  1, 3: split; [done|]; by injection E'.
  all: cbn [app] in E'; injection E' as <- E'; exfalso.
  - exact (suffix_apart s2 x s1 H2 H1 E').
  - exact (suffix_apart s1 x s2 H1 H2 E').
Qed.

Lemma feature_suffixes ctx : exists b1 b2,
  map suffix (flat_map (build ctx) Feature_ALL)
  = [lit "floodlight"; lit "floodlight_tasks"; lit "camera"; lit "md"; lit "led"; lit "ir"; lit "reboot"]
    ++ (if b1 : bool then [lit "pan_left"; lit "pan_right"; lit "pan_up"; lit "pan_down"] else [])
    ++ (if b2 : bool then [lit "preset"] else []) ++ [lit "battery"; lit "siren"; lit "pir"].
Proof.
  unfold Feature_ALL. cbn [flat_map build]. unfold build_pt_buttons, build_ptz_presets.
  destruct (negb _); [by exists false, false|]. destruct (presets ctx); [by exists true, false|by exists true, true].
Qed.

Lemma suffixes_nodup ctx : NoDup (map suffix (flat_map (build ctx) Feature_ALL)).
Proof.
  destruct (feature_suffixes ctx) as (b1 & b2 & ->).
  apply (bool_decide_eq_true_1 _). destruct b1, b2; vm_compute; reflexivity.
Qed.

Lemma suffix_known ctx f b : In b (build ctx f) -> In (suffix b) suffixes.
Proof.
  intros Hb. assert (In (suffix b) (map suffix (flat_map (build ctx) Feature_ALL))) as H.
  { apply in_map, in_flat_map. exists f. split; [|done]. by destruct f; cbn; tauto. }
  destruct (feature_suffixes ctx) as (b1 & b2 & E). rewrite E in H. clear E.
  assert (forall l, forallb (fun x => bool_decide (x ∈ suffixes)) l = true -> In (suffix b) l -> In (suffix b) suffixes) as Hl.
  { intros l Hl Hin. rewrite forallb_forall in Hl. apply Hl, bool_decide_eq_true_1 in Hin. by apply list_elem_of_In. }
  eapply Hl; [|exact H]. destruct b1, b2; vm_compute; reflexivity.
Qed.

(** *** Topics *)

Lemma slashless l s : forallb (forallb (fun c => negb (c =? 47))) l = true -> In s l -> no_slash s.
Proof.
  intros H Hs. rewrite forallb_forall in H. specialize (H _ Hs). apply List.Forall_forall. intros c Hc.
  rewrite forallb_forall in H. specialize (H _ Hc). by destruct (Z.eqb_spec c 47).
Qed.

Lemma suffix_ok s : In s suffixes -> no_slash s.
Proof. by apply slashless. Qed.

Definition components : list str :=
  [lit "light"; lit "switch"; lit "camera"; lit "binary_sensor"; lit "select"; lit "button"; lit "sensor"].

Lemma feature_shape ctx f b : In b (build ctx f) ->
  In (component b) components /\ unique_id (built_common b) = unique (topic_prefix ctx) (ctx_camera ctx) (suffix b).
Proof.
  intros Hb. destruct f; cbn [build] in Hb.
  all: try (repeat (destruct Hb as [<-|Hb]; [split; [cbn; tauto|done]|]); done).
  - unfold build_pt_buttons in Hb. destruct (negb _); [done|]. apply in_map_iff in Hb as (d & <- & _).
    split; [cbn; tauto|done].
  - unfold build_ptz_presets in Hb. destruct (negb _); [done|]. destruct (presets ctx); [done|]. destruct Hb as [<-|[]].
    split; [cbn; tauto|done].
Qed.

Lemma cut_at_slash a b u v : no_slash a -> no_slash b -> a ++ 47 :: u = b ++ 47 :: v -> a = b /\ u = v.
Proof.
  intros Ha Hb E. pose proof (split_once_sep 47 a u Ha) as E1. rewrite E, split_once_sep in E1 by done. by injection E1.
Qed.

Lemma components_ok c : In c components -> no_slash c.
Proof. by apply slashless. Qed.

Lemma name_slashless cam : name_ok cam -> no_slash cam.
Proof. intros H. by apply name_no_slash. Qed.

Definition topic_of (p : Publisher) (s : Subject) (b : Built) : str := fst (message (context p s) b).

(** A topic belongs to one camera and one entity. *)
Lemma topic_owner p s1 s2 b1 b2 :
  no_slash (pub_topic_prefix p) -> name_ok (s_camera s1) -> name_ok (s_camera s2) ->
  In b1 (compute_entities p s1) -> In b2 (compute_entities p s2) -> topic_of p s1 b1 = topic_of p s2 b2 ->
  s_camera s1 = s_camera s2 /\ suffix b1 = suffix b2.
Proof.
  intros Hp H1 H2 Hb1 Hb2 E. apply in_entities in Hb1 as [f1 Hb1], Hb2 as [f2 Hb2].
  destruct (feature_shape _ _ _ Hb1) as [Hc1 Hu1], (feature_shape _ _ _ Hb2) as [Hc2 Hu2].
  apply suffix_known in Hb1, Hb2.
  unfold topic_of, message, config_topic in E. cbn [fst] in E. rewrite Hu1, Hu2 in E. apply app_inv_head in E.
  cbn [app lit map String.list_ascii_of_string] in E. injection E as E.
  apply cut_at_slash in E as [_ E]; [|by apply components_ok..].
  unfold unique in E. cbn [context topic_prefix ctx_camera] in E. rewrite <- !app_assoc in E. apply app_inv_head in E.
  injection E as E.
  assert (no_slash (s_camera s1 ++ [95] ++ suffix b1) /\ no_slash (s_camera s2 ++ [95] ++ suffix b2)) as [Hn1 Hn2].
  { split; apply Forall_app; (split; [by apply name_slashless|]); constructor; try lia; by apply suffix_ok. }
  destruct (cut_at_slash _ _ (lit "config") (lit "config") Hn1 Hn2) as [E' _]; [rewrite <- !app_assoc; exact E|].
  by apply one_reading in E'.
Qed.

(** *** Entities are told apart by their suffixes *)

Lemma flat_map_filter_sublist {A B} (P : A -> bool) (g : A -> list B) l :
  sublist (flat_map (fun x => if P x then g x else []) l) (flat_map g l).
Proof. induction l as [|x l IH]; cbn [flat_map]; [done|]. destruct (P x); apply sublist_app; auto using sublist_nil_l. Qed.

Lemma entities_nodup p s : NoDup (map suffix (compute_entities p s)).
Proof.
  eapply sublist_NoDup; [apply (suffixes_nodup (context p s))|]. apply (fmap_sublist suffix), flat_map_filter_sublist.
Qed.

Lemma nodup_finer {A B C} (f : A -> B) (g : A -> C) l :
  NoDup (map f l) -> (forall x y, In x l -> In y l -> g x = g y -> f x = f y) -> NoDup (map g l).
Proof.
  induction l as [|x l IH]; cbn [map]; intros Hn H; [constructor|]. apply list.NoDup_cons in Hn as [Hx Hn].
  apply list.NoDup_cons. split; [|apply IH; [done|]; intros; apply H; by try right].
  rewrite list_elem_of_In, in_map_iff. intros (y & E & Hy). apply Hx. rewrite list_elem_of_In, in_map_iff.
  exists y. split; [|done]. apply H; [by right|by left|done].
Qed.

Definition proper (p : Publisher) (s : Subject) : Prop := no_slash (pub_topic_prefix p) /\ name_ok (s_camera s).

Lemma payload_topics p s : map fst (compute_payloads p s) = map (topic_of p s) (compute_entities p s).
Proof. unfold compute_payloads. by rewrite map_map. Qed.

Lemma payloads_nodup p s : proper p s -> NoDup (map fst (compute_payloads p s)).
Proof.
  intros [Hp Hs]. rewrite payload_topics. eapply nodup_finer; [apply entities_nodup|].
  intros x y Hx Hy E. by eapply (topic_owner p s s).
Qed.

Lemma payload_owner p s1 s2 t b1 b2 : proper p s1 -> proper p s2 ->
  In (t, b1) (compute_payloads p s1) -> In (t, b2) (compute_payloads p s2) -> s_camera s1 = s_camera s2.
Proof.
  intros [Hp H1] [_ H2] Hb1 Hb2. apply in_map_iff in Hb1 as (e1 & E1 & Hb1), Hb2 as (e2 & E2 & Hb2).
  eapply topic_owner; [done..|exact Hb1|exact Hb2|]. unfold topic_of. by rewrite E1, E2.
Qed.

Lemma payload_nonempty p s t b : In (t, b) (compute_payloads p s) -> b <> [].
Proof. intros Hb. apply in_map_iff in Hb as (e & [= _ <-] & _). discriminate. Qed.

Lemma payload_no_preset p s t b cam : In (t, b) (compute_payloads p s) -> t <> status_ptz_preset (pub_topic_prefix p) cam.
Proof.
  intros Hb ->. apply in_map_iff in Hb as (e & E & _). apply (f_equal fst) in E. rename E into Ht.
  cbn [message fst] in Ht. unfold config_topic, status_ptz_preset, topic in Ht. apply (f_equal (@rev Z)) in Ht. rewrite !rev_app_distr in Ht. discriminate.
Qed.

(** *** The store *)

Lemma publish_all_accepted m msgs : publish_all m msgs [] = (foldl retain m msgs, true).
Proof. revert m. induction msgs as [|msg msgs IH]; intros m; [done|]. cbn [publish_all foldl]. apply IH. Qed.

Lemma retain_other m t msg : fst msg <> t -> retain m msg !! t = m !! t.
Proof. intros H. unfold retain. destruct (snd msg); by simplify_map_eq. Qed.

Lemma retain_same m t b : retain m (t, b) !! t = match b with [] => None | _ => Some b end.
Proof. unfold retain. cbn. by destruct b; simplify_map_eq. Qed.

Lemma retained_other m msgs t : t ∉ map fst msgs -> foldl retain m msgs !! t = m !! t.
Proof.
  revert m. induction msgs as [|msg msgs IH]; intros m H; [done|]. cbn [foldl map] in *.
  apply not_elem_of_cons in H as [H1 H2]. rewrite IH by done. by apply retain_other.
Qed.

Lemma retained_put m msgs t b : NoDup (map fst msgs) -> In (t, b) msgs -> b <> [] -> foldl retain m msgs !! t = Some b.
Proof.
  revert m. induction msgs as [|msg msgs IH]; intros m Hn Hin Hb; [done|]. cbn [foldl map] in *.
  apply list.NoDup_cons in Hn as [H1 Hn]. destruct Hin as [->|Hin]; [|by apply IH].
  rewrite retained_other by done. rewrite retain_same. by destruct b.
Qed.

Lemma payload_retained m p s t b :
  proper p s -> In (t, b) (compute_payloads p s) -> foldl retain m (compute_payloads p s) !! t = Some b.
Proof. intros Hs Hin. apply retained_put; [by apply payloads_nodup|done|by eapply payload_nonempty]. Qed.

Lemma retained_cleared m ts t : t ∈ ts -> foldl retain m (map (fun t => (t, [])) ts) !! t = None.
Proof.
  revert m. induction ts as [|u ts IH]; intros m H; [by apply elem_of_nil in H|]. cbn [foldl map].
  destruct (decide (t ∈ ts)) as [Ht|Ht]; [by apply IH|]. apply elem_of_cons in H as [->|H]; [|done].
  rewrite retained_other; [by rewrite retain_same|]. rewrite map_map. cbn [fst]. by rewrite map_id.
Qed.

Lemma retained_kept m ts t : t ∉ ts -> foldl retain m (map (fun t => (t, [])) ts) !! t = m !! t.
Proof. intros H. apply retained_other. rewrite map_map. cbn [fst]. by rewrite map_id. Qed.

(** *** What is announced *)

Inductive Op := Announce (s : Subject) | Withdraw (s : Subject).

Definition op_subject (o : Op) : Subject := match o with Announce s | Withdraw s => s end.

(** An operation all of whose messages the client accepts. *)
Definition op_step (p : Publisher) (st : Store) (o : Op) : Store :=
  match o with Announce s => fst (publish p s [] st) | Withdraw s => fst (unpublish p s [] st) end.

(** What is announced: each camera's latest payloads. *)
Definition announce (p : Publisher) (a : gmap str (list (str * bytes))) (o : Op) : gmap str (list (str * bytes)) :=
  match o with
  | Announce s => <[s_camera s := compute_payloads p s]> a
  | Withdraw s => delete (s_camera s) a
  end.

Definition exact (p : Publisher) (a : gmap str (list (str * bytes))) (st : Store) : Prop :=
  last_published st = topics <$> a
  /\ (forall cam l, a !! cam = Some l -> exists s, proper p s /\ s_camera s = cam /\ l = compute_payloads p s)
  /\ (forall t b, retained st !! t = Some b <-> exists cam l, a !! cam = Some l /\ In (t, b) l).

Lemma in_topics t l : t ∈ topics l <-> exists b, In (t, b) l.
Proof.
  unfold topics. rewrite elem_of_list_to_set, list_elem_of_In, in_map_iff. split.
  - intros ([u b] & <- & H). by exists b.
  - intros (b & H). by exists (t, b).
Qed.

Lemma previous_topics p a st s t : exact p a st -> proper p s -> t ∈ previous (s_camera s) (last_published st) ->
  exists s' b, proper p s' /\ s_camera s' = s_camera s /\ a !! s_camera s = Some (compute_payloads p s')
    /\ In (t, b) (compute_payloads p s').
Proof.
  intros (E & Ha & _) Hs Ht. unfold previous in Ht. rewrite E, lookup_fmap in Ht. destruct (a !! s_camera s) as [l|] eqn:El; [|by apply not_elem_of_empty in Ht].
  destruct (Ha _ _ El) as (s' & Hs' & Hc & ->). apply in_topics in Ht as [b Hb]. by exists s', b.
Qed.

(** A topic of a camera is announced by no other. *)
Lemma announced_by p a st s s' t b b' cam l :
  exact p a st -> proper p s -> proper p s' -> s_camera s' = s_camera s -> In (t, b) (compute_payloads p s') ->
  a !! cam = Some l -> In (t, b') l -> cam = s_camera s.
Proof.
  intros (_ & Ha & _) Hs Hs' Hc Hin El Hl. destruct (Ha _ _ El) as (u & Hu & <- & ->). rewrite <- Hc.
  by eapply payload_owner.
Qed.

Lemma withdraw_exact p a st s : exact p a st -> proper p s -> exact p (announce p a (Withdraw s)) (op_step p st (Withdraw s)).
Proof.
  intros Hx Hs. pose proof Hx as (E & Ha & Hr). cbn [announce op_step]. unfold unpublish. rewrite publish_all_accepted.
  cbn [fst]. split; [|split].
  - cbn [last_published]. by rewrite E, fmap_delete.
  - intros cam l Hl. apply lookup_delete_Some in Hl as [_ Hl]. by apply Ha.
  - intros t b. cbn [retained]. set (gone := topics (compute_payloads p s) ∪ _).
    assert (t ∈ gone -> exists s' b', proper p s' /\ s_camera s' = s_camera s /\ In (t, b') (compute_payloads p s')) as Hg.
    { intros [Ht|Ht]%elem_of_union; [apply in_topics in Ht as [b' Ht]; by exists s, b'|].
      destruct (previous_topics _ _ _ _ _ Hx Hs Ht) as (s' & b' & ?). exists s', b'. tauto. }
    destruct (decide (t ∈ gone)) as [Ht|Ht].
    + rewrite retained_cleared by (by apply elem_of_elements). split; [done|]. intros (cam & l & El & Hl).
      apply lookup_delete_Some in El as [Hne El]. destruct (Hg Ht) as (s' & b' & Hs' & Hc & Hin).
      destruct Hne. symmetry. by eapply announced_by.
    + rewrite retained_kept by (by rewrite elem_of_elements). rewrite Hr. split; intros (cam & l & El & Hl).
      * exists cam, l. split; [|done]. apply lookup_delete_Some. split; [|done]. intros <-. apply Ht, elem_of_union_r.
        unfold previous. rewrite E, lookup_fmap, El. cbn. apply in_topics. by exists b.
      * apply lookup_delete_Some in El as [_ El]. by exists cam, l.
Qed.

Lemma announced_lookup p s st t :
  proper p s ->
  retained (op_step p st (Announce s)) !! t
  = if decide (t = status_ptz_preset (pub_topic_prefix p) (s_camera s)) then None
    else if decide (t ∈ topics (compute_payloads p s)) then foldl retain (retained st) (compute_payloads p s) !! t
    else if decide (t ∈ previous (s_camera s) (last_published st)) then None else retained st !! t.
Proof.
  intros Hs. cbn [op_step]. unfold publish. rewrite publish_all_accepted. cbn [fst retained]. unfold publish_messages. cbv zeta.
  rewrite !foldl_app. cbn [foldl]. set (pt := status_ptz_preset _ _).
  destruct (decide (t = pt)) as [->|Hp]; [by rewrite retain_same|]. rewrite retain_other by (cbn; congruence).
  destruct (decide (t ∈ topics _)) as [Ht|Ht].
  - apply retained_kept. rewrite elem_of_elements. by intros [_ H]%elem_of_difference.
  - assert (t ∉ map fst (compute_payloads p s)) as Hn by (by rewrite <- (elem_of_list_to_set (C := gset str))).
    destruct (decide (t ∈ previous _ _)) as [Hd|Hd].
    + apply retained_cleared. by rewrite elem_of_elements, elem_of_difference.
    + rewrite retained_kept; [by apply retained_other|]. rewrite elem_of_elements. by intros [H _]%elem_of_difference.
Qed.

Lemma announce_exact p a st s : exact p a st -> proper p s -> exact p (announce p a (Announce s)) (op_step p st (Announce s)).
Proof.
  intros Hx Hs. pose proof Hx as (E & Ha & Hr). split; [|split].
  - cbn [op_step]. unfold publish. rewrite publish_all_accepted. cbn [fst last_published announce]. by rewrite fmap_insert, E.
  - intros cam l Hl. cbn [announce] in Hl. apply lookup_insert_Some in Hl as [[<- <-]|[_ Hl]]; [by exists s|by apply Ha].
  - intros t b. rewrite announced_lookup by done. cbn [announce].
    assert ((exists cam l, <[s_camera s:=compute_payloads p s]> a !! cam = Some l /\ In (t, b) l)
      <-> In (t, b) (compute_payloads p s) \/ exists cam l, s_camera s <> cam /\ a !! cam = Some l /\ In (t, b) l) as ->.
    { split.
      - intros (cam & l & [[<- <-]|[Hne El]]%lookup_insert_Some & Hl); [by left|right; by exists cam, l].
      - intros [H|(cam & l & Hne & El & Hl)]; [exists (s_camera s), (compute_payloads p s)|exists cam, l];
          (split; [apply lookup_insert_Some; tauto|done]). }
    assert (forall s' b', proper p s' -> s_camera s' = s_camera s -> In (t, b') (compute_payloads p s') ->
      ~ exists cam l, s_camera s <> cam /\ a !! cam = Some l /\ In (t, b) l) as Hown.
    { intros s' b' Hs' Hc Hin (cam & l & Hne & El & Hl). destruct Hne. symmetry. by eapply announced_by. }
    destruct (decide (t = _)) as [->|Hpt].
    + split; [done|]. intros [Hin|(cam & l & Hne & El & Hl)]; exfalso; [by eapply payload_no_preset|].
      destruct (Ha _ _ El) as (u & Hu & <- & ->). by eapply payload_no_preset.
    + destruct (decide (t ∈ topics _)) as [Ht|Ht].
      * apply in_topics in Ht as [b' Ht].
        rewrite (payload_retained _ _ _ _ _ Hs Ht).
        split; [intros [= ->]; by left|]. intros [Hin|Ho]; [|exfalso; by eapply (Hown s)].
        by rewrite <- (payload_retained ∅ p s t b Hs Hin), (payload_retained ∅ p s t b' Hs Ht).
      * assert (~ In (t, b) (compute_payloads p s)) as Hn by (intros H; apply Ht, in_topics; by exists b).
        destruct (decide (t ∈ previous _ _)) as [Hd|Hd].
        -- destruct (previous_topics _ _ _ _ _ Hx Hs Hd) as (s' & b' & Hs' & Hc & _ & Hin).
           split; [done|]. intros [H|H]; exfalso; [done|by eapply (Hown s')].
        -- rewrite Hr. split; [|by intros [H|(cam & l & _ & H)]; [|exists cam, l]].
           intros (cam & l & El & Hl). right. exists cam, l. split; [|done]. intros <-. apply Hd.
           unfold previous. rewrite E, lookup_fmap, El. cbn. apply in_topics. by exists b.
Qed.

(** C36: The retained messages refine what is announced: whatever was announced and
    withdrawn, of whatever cameras and in whatever order, all of it accepted by the
    client, the broker then retains a message exactly when it is one of the
    payloads of the latest announcement of a camera not withdrawn since. No entity
    of a camera is left behind by a camera that lost it, no camera's entities
    replace another's, and what is withdrawn is gone. *)
Theorem broker_exact p ops :
  Forall (fun o => proper p (op_subject o)) ops ->
  exact p (foldl (announce p) ∅ ops) (foldl (op_step p) (MkStore ∅ ∅) ops).
Proof.
  intros H. assert (exact p ∅ (MkStore ∅ ∅)) as H0.
  { split; [by rewrite fmap_empty|]. split; [intros cam l Hl; by rewrite lookup_empty in Hl|].
    intros t b. cbn [retained]. rewrite lookup_empty. split; [done|]. intros (cam & l & Hl & _). by rewrite lookup_empty in Hl. }
  revert H0. generalize (∅ : gmap str (list (str * bytes))) as a, (MkStore ∅ ∅) as st.
  induction H as [|o ops Ho Hops IH]; intros a st Hx; [done|]. cbn [foldl]. apply IH.
  destruct o; [by apply announce_exact|by apply withdraw_exact].
Qed.

(** ** At concrete inputs *)

Definition house : Publisher := MkPublisher (lit "bairelay") (lit "homeassistant") (list_to_set [FReboot; FPtPreset]) (lit "1").

Definition porch (presets : list (Z * str)) : Subject :=
  MkSubject (lit "porch") None (Some (lit "UID")) (MkCapabilities true) (MkCameraEnableFlags true true true true true) presets.

Definition preset_select : Built :=
  built (context house (porch [(1, lit "gate")])) (lit "select") (lit "preset") (lit "Preset") (lit "target")
    (ESelect (MkSelect (control_ptz_preset (lit "bairelay") (lit "porch")) [lit "gate"]
                (Some (status_ptz_preset (lit "bairelay") (lit "porch"))))).

Lemma house_proper l : proper house (porch l).
Proof. split; [by apply (slashless [lit "bairelay"]); [|left]|by split]. Qed.

Lemma preset_select_announced : In preset_select (compute_entities house (porch [(1, lit "gate")])).
Proof. unfold compute_entities. apply in_flat_map. exists FPtPreset. split; [cbn; tauto|]. by left. Qed.

(** The option [gate] moves the porch camera to its preset of that name. *)
Lemma announced_commands_witness :
  In preset_select (compute_entities house (porch [(1, lit "gate")])) /\
  parse_control_message (U := unicode_ascii) (F := decimal_int) (lit "bairelay")
    (control_ptz_preset (lit "bairelay") (lit "porch")) (lit "gate") = Some (PtzPresetByName (lit "porch") (lit "gate")).
Proof.
  split; [exact preset_select_announced|].
  destruct (announced_commands (U := unicode_ascii) (F := decimal_int) house (porch [(1, lit "gate")]) preset_select
              (proj1 (house_proper [])) (proj2 (house_proper [])) preset_select_announced) as [H _].
  apply (H _ (lit "gate")); [by left|]. intros _. split; [|by split_and!].
  apply (Forall_impl (P := is_ascii)); [intros c Hc; left; unfold is_ascii in Hc; lia|by apply ascii_check].
Defined.

Definition house_ops : list Op := [Announce (porch [(1, lit "gate")]); Announce (porch [])].

Definition preset_config : str := lit "homeassistant/select/bairelay_porch_preset/config".

(** Losing its presets, the camera loses the select. *)
Lemma broker_exact_witness :
  Forall (fun o => proper house (op_subject o)) house_ops /\
  exact house (foldl (announce house) ∅ house_ops) (foldl (op_step house) (MkStore ∅ ∅) house_ops).
Proof.
  assert (Forall (fun o => proper house (op_subject o)) house_ops) as H by (do 2 (constructor; [apply house_proper|]); constructor).
  split; [exact H|exact (broker_exact house house_ops H)].
Defined.

Definition retained_on (t : str) (st : Store) : bool := bool_decide (is_Some (retained st !! t)).

Example select_goes :
  map (fun ops => retained_on preset_config (foldl (op_step house) (MkStore ∅ ∅) ops))
    [[Announce (porch [(1, lit "gate")])]; house_ops]
  = [true; false].
Proof. vm_compute. reflexivity. Qed.

(** When the client refuses the first message of the second announcement, the
    topics it would have cleared are already forgotten: neither the next
    announcement nor the withdrawal at shutdown clears them. *)
Example ghost_left :
  let st := fst (publish house (porch []) [false] (op_step house (MkStore ∅ ∅) (Announce (porch [(1, lit "gate")])))) in
  let again := op_step house st (Announce (porch [])) in
  (retained_on preset_config again, retained_on preset_config (op_step house again (Withdraw (porch [])))) = (true, true).
Proof. vm_compute. reflexivity. Qed.

(** A preset named [2] is taken for the preset with that id, and one named [ok] is
    taken for a reply. *)
Example odd_names :
  map (fun name => parse_control_message (U := unicode_ascii) (F := decimal_int) (lit "bairelay")
         (control_ptz_preset (lit "bairelay") (lit "porch")) name) [lit "2"; lit "ok"]
  = [Some (PtzPreset (lit "porch") 2); None].
Proof. vm_compute. reflexivity. Qed.
