(* ===== verification/MqttLoop.v ===== *)
(** * The MQTT event loop ([mqtt_loop.rs], [run_mqtt_event_loop] of main.rs)

    The task that polls the connection to the broker, and what it sends when the
    broker has accepted a connection: the subscriptions, the discovery messages
    and the cached states of every camera. All requests pass through one bounded
    queue, which only polling empties. *)

From stdpp Require Import relations.
From S2P Require Import Prelude Text Toml Config CameraPort MqttControl Mqtt HaDiscovery.

(** ** Events *)

(** What [EventLoop::poll] yields. *)
Inductive Polled :=
| Incoming_Publish (topic : str) (payload : bytes)
| Incoming_ConnAck
| OtherEvent
| ConnectionError.

Definition classify_event (event : Polled) : EventAction :=
  match event with
  | Incoming_Publish topic payload => ActPublish topic payload
  | Incoming_ConnAck => ActConnAck
  | ConnectionError => ActLogError
  | OtherEvent => ActIgnore
  end.

(** ** Requests to the broker ([client.rs]) *)

Inductive Request :=
| Subscribe (topic : str)
| Retain (topic : str) (payload : bytes)
| Send (topic : str) (payload : bytes).

(** [AsyncClient::new(opts, 256)]. *)
Definition QUEUE : nat := 256.

Record BrokerState := MkBrokerState { messages : gmap str bytes; subscribed : gset str }.

Definition apply_request (b : BrokerState) (r : Request) : BrokerState :=
  match r with
  | Subscribe t => MkBrokerState (messages b) ({[t]} ∪ subscribed b)
  | Retain t payload => MkBrokerState (retain (messages b) (t, payload)) (subscribed b)
  | Send _ _ => b
  end.

(** ** [handle_connack] *)

(** What it reads of a camera. *)
Record Handle := MkHandle {
  handle_config : CameraConfig; handle_caps : option CameraCapabilities; handle_presets : list (Z * str);
  handle_cache : StatusCache; handle_mqtt : bool
}.

Definition handle_name (h : Handle) : str := cam_name (handle_config h).

Definition handle_subject (h : Handle) (caps : CameraCapabilities) : Subject :=
  subject (handle_config h) caps (handle_presets h).

Definition retains (msgs : list (str * bytes)) : list Request := map (fun '(t, payload) => Retain t payload) msgs.

(** [SharedMqttClient::subscribe_all]. *)
Definition subscribe_all (prefix cam : str) : list Request := map Subscribe (subscribe_topics prefix cam).

(** The discovery messages of a camera whose capabilities are known, and the
    publisher's memory after it. *)
Definition discovery_messages (publisher : option Publisher) (h : Handle) (memory : gmap str (gset str))
    : list (str * bytes) * gmap str (gset str) :=
  match publisher, handle_caps h with
  | Some p, Some caps =>
      let s := handle_subject h caps in
      (publish_messages p s (previous (s_camera s) memory), <[s_camera s := topics (compute_payloads p s)]> memory)
  | _, _ => ([], memory)
  end.

Fixpoint rediscover (publisher : option Publisher) (hs : list Handle) (memory : gmap str (gset str))
    : list (str * bytes) * gmap str (gset str) :=
  match hs with
  | [] => ([], memory)
  | h :: hs =>
      let '(msgs, memory) := discovery_messages publisher h memory in
      let '(rest, memory) := rediscover publisher hs memory in
      (msgs ++ rest, memory)
  end.

Definition cached_messages (prefix : str) (h : Handle) : list (str * bytes) :=
  if handle_mqtt h then map (publication prefix (handle_name h)) (cached_events (handle_cache h)) else [].

(** What it sends, in order, and the publisher's memory after it; the order of
    the cameras is that of the map. *)
Definition handle_connack (publisher : option Publisher) (prefix : str) (hs : list Handle) (memory : gmap str (gset str))
    : list Request * gmap str (gset str) :=
  let '(msgs, memory) := rediscover publisher hs memory in
  (flat_map (fun h => subscribe_all prefix (handle_name h)) hs ++ retains msgs ++ retains (flat_map (cached_messages prefix) hs),
   memory).

(** ** The loop *)

(** The queue, what is left to send of the handler the loop is in, and what the
    broker has. *)
Record Bridge := MkBridge { queue : list Request; handling : option (list Request); broker : BrokerState }.

(** The loop: it polls, handing a request to the broker, when it is in no handler;
    in one it sends, when there is room, and returns when nothing is left to send. *)
Inductive loop_step : Bridge -> Bridge -> Prop :=
| b_poll r q b : loop_step (MkBridge (r :: q) None b) (MkBridge q None (apply_request b r))
| b_send r rs q b : (length q < QUEUE)%nat -> loop_step (MkBridge q (Some (r :: rs)) b) (MkBridge (q ++ [r]) (Some rs) b)
| b_return q b : loop_step (MkBridge q (Some []) b) (MkBridge q None b).

(** Any task sends when there is room; the broker may accept a connection when the
    loop polls. *)
Inductive bstep : Bridge -> Bridge -> Prop :=
| b_loop s s' : loop_step s s' -> bstep s s'
| b_connack rs q b : bstep (MkBridge q None b) (MkBridge q (Some rs) b)
| b_other r q h b : (length q < QUEUE)%nat -> bstep (MkBridge q h b) (MkBridge (q ++ [r]) h b).

(** ** Shutdown *)

(** [publish_shutdown_fanout]: every camera is reported as disconnected, then
    every camera's entities are withdrawn. *)
Definition withdrawal (publisher : option Publisher) (h : Handle) (memory : gmap str (gset str))
    : list (str * bytes) * gmap str (gset str) :=
  match publisher, handle_caps h with
  | Some p, Some caps =>
      let s := handle_subject h caps in
      (map (fun t => (t, [])) (elements (topics (compute_payloads p s) ∪ previous (s_camera s) memory)),
       delete (s_camera s) memory)
  | _, _ => ([], memory)
  end.

Fixpoint withdraw_all (publisher : option Publisher) (hs : list Handle) (memory : gmap str (gset str))
    : list (str * bytes) * gmap str (gset str) :=
  match hs with
  | [] => ([], memory)
  | h :: hs =>
      let '(msgs, memory) := withdrawal publisher h memory in
      let '(rest, memory) := withdraw_all publisher hs memory in
      (msgs ++ rest, memory)
  end.

Definition publish_shutdown_fanout (publisher : option Publisher) (prefix : str) (hs : list Handle)
    (memory : gmap str (gset str)) : list Request * gmap str (gset str) :=
  let '(msgs, memory) := withdraw_all publisher hs memory in
  (retains (map (fun h => publication prefix (handle_name h) (Connection false)) hs) ++ retains msgs, memory).

(** ** The queue *)

Lemma send_steps rs q b :
  (length q + length rs <= QUEUE)%nat -> rtc loop_step (MkBridge q (Some rs) b) (MkBridge (q ++ rs) None b).
Proof.
  revert q. induction rs as [|r rs IH]; intros q H; cbn [length] in H.
  - rewrite app_nil_r. apply rtc_once, b_return.
  - eapply rtc_l; [apply b_send; lia|]. rewrite (app_assoc q [r] rs : q ++ r :: rs = _). apply IH.
    rewrite length_app. cbn [length]. lia.
Qed.

Lemma drain_steps q b : rtc loop_step (MkBridge q None b) (MkBridge [] None (foldl apply_request b q)).
Proof. revert b. induction q as [|r q IH]; intros b; [done|]. eapply rtc_l; [apply b_poll|]. apply IH. Qed.

(** What is left to hand to the broker, and what it has then. *)
Definition rest (s : Bridge) : list Request := default [] (handling s).
Definition final (s : Bridge) : BrokerState := foldl apply_request (broker s) (queue s ++ rest s).
Definition left (s : Bridge) : nat := length (queue s) + length (rest s).

(** The steps the loop still has. *)
Definition work (s : Bridge) : nat :=
  length (queue s) + 2 * length (rest s) + match handling s with Some _ => 1 | None => 0 end.

Lemma loop_step_final s s' : loop_step s s' -> final s' = final s /\ (left s' <= left s)%nat /\ (work s' < work s)%nat.
Proof.
  destruct 1; unfold final, left, work, rest; cbn [queue handling broker default from_option id];
    rewrite ?length_app, <- ?app_assoc; cbn [length app]; (split; [done|lia]).
Qed.

(** Along every run of the loop alone whose requests fit it gets on, and it ends with
    all of them handed over. *)
Lemma loop_runs s s' n : (left s <= QUEUE)%nat -> nsteps loop_step n s s' ->
  (n + work s' <= work s)%nat /\ final s' = final s
  /\ (s' = MkBridge [] None (final s) \/ exists s'', loop_step s' s'').
Proof.
  intros Hl Hs. enough ((n + work s' <= work s)%nat /\ final s' = final s /\ (left s' <= left s)%nat) as (H1 & H2 & H3).
  { split; [done|]. split; [done|]. destruct s' as [q [[|r rs]|] b].
    - right. eexists. apply b_return.
    - right. eexists. apply b_send. unfold left in H3. cbn in H3. unfold left in Hl. cbn in Hl. lia.
    - destruct q as [|r q]; [left|right; eexists; apply b_poll]. by rewrite <- H2. }
  clear Hl. induction Hs as [|n x y z H _ IH]; [by split_and!; [lia| |lia]|]. destruct (loop_step_final _ _ H) as (H1 & H2 & H3).
  destruct IH as (H4 & H5 & H6). split; [lia|]. split; [congruence|lia].
Qed.

Lemma loop_ends s : (left s <= QUEUE)%nat -> rtc loop_step s (MkBridge [] None (final s)).
Proof.
  destruct s as [q [rs|] b]; unfold left, final, rest; cbn [queue handling broker default]; intros H.
  - etransitivity; [by apply send_steps|apply drain_steps].
  - rewrite app_nil_r. apply drain_steps.
Qed.

(** A run in which other tasks send [ks], and the broker accepts no connection. *)
Inductive runs : list Request -> Bridge -> Bridge -> Prop :=
| runs_none s : runs [] s s
| runs_loop ks s s' s'' : loop_step s s' -> runs ks s' s'' -> runs ks s s''
| runs_other r ks q h b s : (length q < QUEUE)%nat ->
    runs ks (MkBridge (q ++ [r]) h b) s -> runs (r :: ks) (MkBridge q h b) s.

Lemma runs_bstep ks s s' : runs ks s s' -> rtc bstep s s'.
Proof. induction 1; [done| |]; (eapply rtc_l; [|done]); [by apply b_loop|by apply b_other]. Qed.

Definition unretained (r : Request) : Prop := match r with Retain _ _ => False | _ => True end.

Lemma apply_messages b b' l : messages b = messages b' -> messages (foldl apply_request b l) = messages (foldl apply_request b' l).
Proof. revert b b'. induction l as [|r l IH]; intros b b' E; [done|]. apply IH. destruct r; cbn; congruence. Qed.

Lemma apply_subscribed b b' l : subscribed b ⊆ subscribed b' -> subscribed (foldl apply_request b l) ⊆ subscribed (foldl apply_request b' l).
Proof. revert b b'. induction l as [|r l IH]; intros b b' E; [done|]. apply IH. destruct r; cbn; set_solver. Qed.

Lemma unretained_step b r : unretained r -> messages (apply_request b r) = messages b /\ subscribed b ⊆ subscribed (apply_request b r).
Proof. destruct r; [|done|]; cbn; set_solver. Qed.

(** What is left grows by what others send. *)
Lemma runs_left ks s s' : runs ks s s' -> (left s' <= left s + length ks)%nat.
Proof.
  induction 1 as [s|ks s s' s'' H _ IH|r ks q h b s H _ IH]; [cbn; lia| |].
  - destruct (loop_step_final _ _ H) as (_ & Hl & _). lia.
  - unfold left, rest in *. cbn [queue handling length] in *. rewrite length_app in IH. cbn [length] in IH. lia.
Qed.

(** What others send that is not retained changes nothing but subscriptions, and adds
    to those. *)
Lemma runs_final ks s s' : runs ks s s' -> Forall unretained ks ->
  messages (final s') = messages (final s) /\ subscribed (final s) ⊆ subscribed (final s').
Proof.
  induction 1 as [s|ks s s' s'' H _ IH|r ks q h b s H _ IH]; intros Hk; [done| |].
  - destruct (loop_step_final _ _ H) as (E & _). rewrite <- E. by apply IH.
  - apply Forall_cons_iff in Hk as [Hr Hk]. destruct (IH Hk) as (H1 & H2).
    assert (messages (final (MkBridge (q ++ [r]) h b)) = messages (final (MkBridge q h b))
      /\ subscribed (final (MkBridge q h b)) ⊆ subscribed (final (MkBridge (q ++ [r]) h b))) as [H4 H5].
    { unfold final, rest. cbn [queue broker handling]. rewrite !foldl_app. cbn [foldl].
      destruct (unretained_step (foldl apply_request b q) r Hr). split; [by apply apply_messages|by apply apply_subscribed]. }
    rewrite H1, H4. split; [done|]. by etransitivity.
Qed.

(** What the handler has left does not fit: it neither returns nor polls. *)
Definition stuck (b : BrokerState) (s : Bridge) : Prop :=
  exists rs, handling s = Some rs /\ broker s = b /\ (length (queue s) <= QUEUE)%nat
    /\ (QUEUE < length (queue s) + length rs)%nat.

Lemma stuck_step b s s' : stuck b s -> bstep s s' -> stuck b s'.
Proof.
  intros (rs & Hh & Hb & Hq & Hl) Hs. unfold stuck. destruct Hs as [? ? []| |]; cbn [handling queue broker] in *; simplify_eq;
    cbn [length] in *; try lia; (eexists; split; [done|]; split; [done|]; rewrite length_app; cbn [length]; lia).
Qed.

Lemma stuck_steps b s s' : rtc bstep s s' -> stuck b s -> stuck b s'.
Proof. induction 1; [done|]. intros Hs. by eauto using stuck_step. Qed.

(** ** Requests and messages *)

Lemma apply_retains b msgs :
  foldl apply_request b (retains msgs) = MkBrokerState (foldl retain (messages b) msgs) (subscribed b).
Proof.
  revert b. induction msgs as [|[t x] msgs IH]; intros b; [by destruct b|]. unfold retains in *. cbn [map foldl].
  by rewrite IH.
Qed.

Lemma apply_subscribes b ts :
  foldl apply_request b (map Subscribe ts) = MkBrokerState (messages b) (list_to_set ts ∪ subscribed b).
Proof.
  revert b. induction ts as [|t ts IH]; intros b; cbn [map foldl].
  - destruct b. f_equal. set_solver.
  - rewrite IH. cbn [messages subscribed]. f_equal. set_solver.
Qed.

(** A topic all of whose messages say the same. *)
Lemma retained_all m msgs t b :
  (forall b', In (t, b') msgs -> b' = b) -> In (t, b) msgs ->
  foldl retain m msgs !! t = match b with [] => None | _ => Some b end.
Proof.
  revert m. induction msgs as [|[u x] msgs IH]; intros m Hall Hin; [done|]. cbn [foldl].
  destruct (decide (t ∈ map fst msgs)) as [Ht|Ht].
  - rewrite list_elem_of_In, in_map_iff in Ht. destruct Ht as ([v y] & <- & Hy). cbn in *.
    apply IH; [intros b' Hb'; apply Hall; by right|]. by rewrite <- (Hall y (or_intror Hy)).
  - rewrite retained_other by done. destruct Hin as [[= -> ->]|Hin]; [apply retain_same|].
    exfalso. apply Ht. rewrite list_elem_of_In, in_map_iff. by exists (t, b).
Qed.

(** ** Topics *)

Lemma topic_inj prefix c1 c2 r1 r2 :
  no_slash prefix -> name_ok c1 -> name_ok c2 -> topic prefix c1 r1 = topic prefix c2 r2 -> c1 = c2 /\ lit r1 = lit r2.
Proof.
  intros Hp H1 H2 E. unfold topic in E. apply app_inv_head in E. injection E as E.
  by apply cut_at_slash in E; [|by apply name_slashless..].
Qed.

Lemma config_not_status p s t b cam rest :
  In (t, b) (compute_payloads p s) -> match rev (lit rest) with 103 :: _ | [] => false | _ => true end = true ->
  t <> topic (pub_topic_prefix p) cam rest.
Proof.
  intros Hb Hr ->. apply in_map_iff in Hb as (e & E & _). apply (f_equal fst) in E. cbn [message fst] in E.
  unfold config_topic, topic in E. apply (f_equal (@rev Z)) in E. rewrite !rev_app_distr in E.
  destruct (rev (lit rest)) as [|c r]; [done|]. by injection E as <-.
Qed.

Definition status_rest (e : CameraEvent) : string :=
  match e with
  | Connection _ => "status"
  | Motion _ | MotionUnknown => "status/motion"
  | BatteryLevel _ => "status/battery_level"
  | FloodlightState _ => "status/floodlight"
  | FloodlightTasksState _ => "status/floodlight_tasks"
  | PirState _ => "status/pir"
  | Preview _ => "status/preview"
  end.

Lemma publication_topic prefix cam e : fst (publication prefix cam e) = topic prefix cam (status_rest e).
Proof. by destruct e. Qed.

Lemma status_not_config p s t b cam e :
  In (t, b) (compute_payloads p s) -> t <> fst (publication (pub_topic_prefix p) cam e).
Proof. intros Hb. rewrite publication_topic. eapply config_not_status; [exact Hb|]. by destruct e. Qed.

Lemma cached_rest c e e' : In e (cached_events c) -> In e' (cached_events c) -> lit (status_rest e) = lit (status_rest e') -> e = e'.
Proof.
  assert (forall x, In x (cached_events c) -> cached c x = Some x) as H.
  { intros x Hx. apply list_elem_of_In in Hx. unfold cached_events in Hx. rewrite list_elem_of_omap in Hx.
    destruct Hx as (o & Ho & E). cbn in E. subst o. rewrite !elem_of_cons, elem_of_nil in Ho.
    destruct Ho as [E|[E|[E|[E|[E|[]]]]]]; destruct x; try (destruct (battery_level c); discriminate);
      try (destruct (motion c); discriminate); try (destruct (floodlight c); discriminate);
      try (destruct (floodlight_tasks c); discriminate); try (destruct (pir c); discriminate); by rewrite E. }
  intros He He' E. apply H in He, He'. destruct e, e'; cbn in He, He'; try done; try discriminate E; congruence.
Qed.

(** ** The cameras *)

Section house.
Context (p : Publisher) (hs : list Handle) (memory : gmap str (gset str)).
Let prefix := pub_topic_prefix p.

(** Distinct cameras with proper names, and a memory of what was announced of
    them. *)
Record house : Prop := {
  house_prefix : no_slash prefix;
  house_names : Forall (fun h => name_ok (handle_name h)) hs;
  house_distinct : NoDup (map handle_name hs);
  house_memory : forall cam t, t ∈ previous cam memory ->
    exists s b, proper p s /\ s_camera s = cam /\ In (t, b) (compute_payloads p s)
}.

Definition own_messages (h : Handle) : list (str * bytes) :=
  match handle_caps h with
  | Some caps => publish_messages p (handle_subject h caps) (previous (handle_name h) memory)
  | None => []
  end.

Context (H : house).

Lemma same_handle h h' : In h hs -> In h' hs -> handle_name h = handle_name h' -> h = h'.
Proof.
  intros Hh Hh' E. pose proof (house_distinct H) as Hn. revert Hn Hh Hh'. clear H. induction hs as [|x l IH]; intros Hn Hh Hh'; [done|].
  cbn [map] in Hn. apply list.NoDup_cons in Hn as [Hx Hn]. rewrite list_elem_of_In, in_map_iff in Hx.
  destruct Hh as [->|Hh], Hh' as [->|Hh']; [done| | |by apply IH]; destruct Hx; [by exists h'|by exists h].
Qed.

Lemma handle_proper h caps : In h hs -> proper p (handle_subject h caps).
Proof. intros Hh. split; [apply (house_prefix H)|]. pose proof (house_names H) as Hn. rewrite List.Forall_forall in Hn. by apply Hn. Qed.

Lemma previous_other memory' h h' x :
  handle_name h <> handle_name h' -> previous (handle_name h) (<[handle_name h' := x]> memory') = previous (handle_name h) memory'.
Proof. intros E. unfold previous. by rewrite lookup_insert_ne by congruence. Qed.
End house.

Lemma flat_map_in_ext {A B} (f g : A -> list B) l : (forall x, In x l -> f x = g x) -> flat_map f l = flat_map g l.
Proof. induction l as [|x l IH]; intros E; [done|]. cbn [flat_map]. rewrite E by (by left). f_equal. apply IH. intros y Hy. apply E. by right. Qed.

Lemma rediscover_messages p hs memory :
  NoDup (map handle_name hs) -> fst (rediscover (Some p) hs memory) = flat_map (own_messages p memory) hs.
Proof.
  revert memory. induction hs as [|h hs IH]; intros memory Hn; [done|]. cbn [map rediscover flat_map] in *.
  apply list.NoDup_cons in Hn as [Hh Hn]. rewrite list_elem_of_In in Hh.
  unfold discovery_messages, own_messages at 1. destruct (handle_caps h) as [caps|].
  - destruct (rediscover _ hs _) as [rest m] eqn:E. cbn [fst]. f_equal. apply (f_equal fst) in E. cbn [fst] in E.
    rewrite IH in E by done. rewrite <- E. apply flat_map_in_ext. intros h' Hh'. unfold own_messages.
    destruct (handle_caps h'); [|done]. rewrite (previous_other memory h' h); [done|].
    intros E'. apply Hh. rewrite <- E'. by apply in_map.
  - destruct (rediscover _ hs memory) as [rest m] eqn:E. cbn [fst]. apply (f_equal fst) in E. cbn [fst] in E.
    by rewrite IH in E.
Qed.

Section sent.
Context (p : Publisher) (hs : list Handle) (memory : gmap str (gset str)) (H : house p hs memory).
Notation prefix := (pub_topic_prefix p).

Definition sent : list (str * bytes) := flat_map (own_messages p memory) hs ++ flat_map (cached_messages prefix) hs.

Lemma own_cases h t x : In (t, x) (own_messages p memory h) -> exists caps, handle_caps h = Some caps /\
  (In (t, x) (compute_payloads p (handle_subject h caps))
   \/ x = [] /\ t ∈ previous (handle_name h) memory /\ t ∉ topics (compute_payloads p (handle_subject h caps))
   \/ x = [] /\ t = status_ptz_preset prefix (handle_name h)).
Proof.
  unfold own_messages. destruct (handle_caps h) as [caps|]; [|done]. intros Hin. exists caps. split; [done|].
  unfold publish_messages in Hin. apply in_app_or in Hin as [Hin|Hin]; [by left|right].
  apply in_app_or in Hin as [Hin|[[= <- <-]|[]]]; [left|by right].
  apply in_map_iff in Hin as (u & [= -> ->] & Hu). apply list_elem_of_In, elem_of_elements, elem_of_difference in Hu. tauto.
Qed.

Lemma sent_cases t x : In (t, x) sent ->
  (exists h caps, In h hs /\ handle_caps h = Some caps /\
     (In (t, x) (compute_payloads p (handle_subject h caps))
      \/ x = [] /\ t ∈ previous (handle_name h) memory /\ t ∉ topics (compute_payloads p (handle_subject h caps))))
  \/ (exists h, In h hs /\ t = status_ptz_preset prefix (handle_name h))
  \/ exists h e, In h hs /\ In e (cached_events (handle_cache h)) /\ (t, x) = publication prefix (handle_name h) e.
Proof.
  intros Hin. apply in_app_or in Hin as [Hin|Hin]; apply in_flat_map in Hin as (h & Hh & Hin).
  - apply own_cases in Hin as (caps & Hc & [Hin|[Hin|[-> ->]]]); [left; exists h, caps; tauto|left; exists h, caps; tauto|].
    right. left. by exists h.
  - right. right. unfold cached_messages in Hin. destruct (handle_mqtt h); [|done].
    apply in_map_iff in Hin as (e & E & He). by exists h, e.
Qed.

(** Only a camera's own messages are about the topics it is announced on. *)
Lemma config_writer s t x b : proper p s -> In (t, b) (compute_payloads p s) -> In (t, x) sent ->
  exists h caps, In h hs /\ handle_caps h = Some caps /\ handle_name h = s_camera s /\
    (In (t, x) (compute_payloads p (handle_subject h caps))
     \/ x = [] /\ t ∉ topics (compute_payloads p (handle_subject h caps))).
Proof.
  intros Hs Hb Hin. apply sent_cases in Hin as [(h & caps & Hh & Hc & Hx)|[(h & Hh & ->)|(h & e & Hh & He & E)]].
  - exists h, caps. split; [done|]. split; [done|]. destruct Hx as [Hx|(-> & Hp & Hx)].
    + split; [|by left]. eapply (payload_owner p (handle_subject h caps) s); [by eapply handle_proper|done|exact Hx|exact Hb].
    + destruct (house_memory _ _ _ H _ _ Hp) as (s' & b' & Hs' & <- & Hb'). split; [|by right].
      by eapply (payload_owner p s' s).
  - by apply (payload_no_preset _ _ _ _ (handle_name h)) in Hb.
  - exfalso. apply (status_not_config _ _ _ _ (handle_name h) e Hb). by rewrite <- E.
Qed.

Lemma announced_retained h caps t x m :
  In h hs -> handle_caps h = Some caps -> In (t, x) (compute_payloads p (handle_subject h caps)) ->
  foldl retain m sent !! t = Some x.
Proof.
  intros Hh Hc Hin. pose proof (handle_proper _ _ _ H h caps Hh) as Hs.
  rewrite (retained_all _ _ t x).
  - apply payload_nonempty in Hin. by destruct x.
  - intros b' Hb'. destruct (config_writer _ _ _ _ Hs Hin Hb') as (h' & caps' & Hh' & Hc' & E & Hx).
    assert (h' = h) as -> by exact (same_handle _ _ _ H h' h Hh' Hh E). assert (caps' = caps) as -> by congruence.
    destruct Hx as [Hx|[_ Hx]]; [|destruct Hx; apply in_topics; by exists x].
    pose proof (payload_retained ∅ _ _ _ _ Hs Hin) as E1. rewrite (payload_retained ∅ _ _ _ _ Hs Hx) in E1. by injection E1.
  - apply in_or_app. left. apply in_flat_map. exists h. split; [done|]. unfold own_messages. rewrite Hc. apply in_or_app. by left.
Qed.

Lemma former_cleared h caps t m :
  In h hs -> handle_caps h = Some caps -> t ∈ previous (handle_name h) memory ->
  t ∉ topics (compute_payloads p (handle_subject h caps)) -> foldl retain m sent !! t = None.
Proof.
  intros Hh Hc Hp Ht. destruct (house_memory _ _ _ H _ _ Hp) as (s & b & Hs & E & Hb).
  rewrite (retained_all _ _ t []); [done| |].
  - intros b' Hb'. destruct (config_writer _ _ _ _ Hs Hb Hb') as (h' & caps' & Hh' & Hc' & E' & Hx).
    assert (h' = h) as -> by (apply (same_handle _ _ _ H); congruence). assert (caps' = caps) as -> by congruence.
    destruct Hx as [Hx|[Hx _]]; [|done]. destruct Ht. apply in_topics. by exists b'.
  - apply in_or_app. left. apply in_flat_map. exists h. split; [done|]. unfold own_messages. rewrite Hc.
    apply in_or_app. right. apply in_or_app. left. apply in_map_iff. exists t. split; [done|].
    by apply list_elem_of_In, elem_of_elements, elem_of_difference.
Qed.

Lemma handle_name_ok h : In h hs -> name_ok (handle_name h).
Proof. intros Hh. pose proof (house_names _ _ _ H) as Hn. rewrite List.Forall_forall in Hn. by apply Hn. Qed.

Lemma status_retained h e m :
  In h hs -> handle_mqtt h = true -> In e (cached_events (handle_cache h)) ->
  foldl retain m sent !! fst (publication prefix (handle_name h) e)
  = match snd (publication prefix (handle_name h) e) with [] => None | x => Some x end.
Proof.
  intros Hh Hm He. rewrite (retained_all _ _ _ (snd (publication prefix (handle_name h) e))).
  - by destruct (snd _).
  - intros b' Hb'. apply sent_cases in Hb' as [(h' & caps & Hh' & Hc & Hx)|[(h' & Hh' & E)|(h' & e' & Hh' & He' & E)]].
    + exfalso. destruct Hx as [Hx|(-> & Hp & _)]; [by eapply status_not_config|].
      destruct (house_memory _ _ _ H _ _ Hp) as (s & b & _ & _ & Hb). by eapply status_not_config.
    + exfalso. rewrite publication_topic in E. unfold status_ptz_preset in E.
      apply topic_inj in E as [_ E]; [|apply (house_prefix _ _ _ H)|by apply handle_name_ok..]. by destruct e.
    + pose proof (f_equal fst E) as E1. cbn [fst] in E1. rewrite !publication_topic in E1.
      apply topic_inj in E1 as [E1 E2]; [|apply (house_prefix _ _ _ H)|by apply handle_name_ok..].
      assert (h' = h) as -> by (by apply (same_handle _ _ _ H)). rewrite (cached_rest _ _ _ He He' E2). by rewrite <- E.
  - rewrite <- surjective_pairing. apply in_or_app. right. apply in_flat_map. exists h. split; [done|].
    unfold cached_messages. rewrite Hm. by apply in_map.
Qed.

Lemma availability_kept h m : In h hs -> foldl retain m sent !! status prefix (handle_name h) = m !! status prefix (handle_name h).
Proof.
  intros Hh. apply retained_other. rewrite list_elem_of_In, in_map_iff. intros ([t x] & E & Hin). cbn [fst] in E. subst t.
  change (status prefix (handle_name h)) with (fst (publication prefix (handle_name h) (Connection true))) in Hin.
  apply sent_cases in Hin as [(h' & caps & Hh' & Hc & Hx)|[(h' & Hh' & E)|(h' & e' & Hh' & He' & E)]].
  - destruct Hx as [Hx|(-> & Hp & _)]; [by eapply status_not_config|].
    destruct (house_memory _ _ _ H _ _ Hp) as (s & b & _ & _ & Hb). by eapply status_not_config.
  - rewrite publication_topic in E. apply topic_inj in E as [_ E]; [done|apply (house_prefix _ _ _ H)|by apply handle_name_ok..].
  - apply (f_equal fst) in E. cbn [fst] in E. rewrite !publication_topic in E.
    apply topic_inj in E as [_ E]; [|apply (house_prefix _ _ _ H)|by apply handle_name_ok..].
    assert (is_cacheable e' = true) as Hc; [|by destruct e'].
    unfold cached_events in He'. destruct (handle_cache h') as [[] [] [] [] []]; cbn in He'; naive_solver.
Qed.
End sent.

(** ** What the broker has after a connection *)

(** Battery levels are bytes. *)
Definition levels_ok (h : Handle) : Prop := forall n, battery_level (handle_cache h) = Some n -> 0 <= n.

Lemma cached_payload prefix cam h e :
  levels_ok h -> In e (cached_events (handle_cache h)) -> snd (publication prefix cam e) <> [].
Proof.
  intros Hl He. unfold levels_ok in Hl. unfold cached_events in He.
  assert (forall b : bool, on_off b <> []) as Ho by (by intros []).
  destruct e as [[]|[]| |n|b|[]|[]|b]; cbn [publication snd]; try done.
  - destruct (show_uint_spec (Z.min n 100)) as (_ & Hn & _); [|done].
    enough (0 <= n) by lia. apply Hl.
    destruct (handle_cache h) as [[] [] [] [] []]; cbn in He |- *; naive_solver.
  - destruct (handle_cache h) as [[] [] [] [] []]; cbn in He; naive_solver.
Qed.

(** Everything about a camera that is known is with the broker. *)
Definition restored (p : Publisher) (memory : gmap str (gset str)) (b : BrokerState) (h : Handle) : Prop :=
  (forall t, In t (subscribe_topics (pub_topic_prefix p) (handle_name h)) -> t ∈ subscribed b)
  /\ (forall caps, handle_caps h = Some caps ->
        let payloads := compute_payloads p (handle_subject h caps) in
        (forall t x, In (t, x) payloads -> messages b !! t = Some x)
        /\ forall t, t ∈ previous (handle_name h) memory -> t ∉ topics payloads -> messages b !! t = None)
  /\ (handle_mqtt h = true -> forall e, In e (cached_events (handle_cache h)) ->
        messages b !! fst (publication (pub_topic_prefix p) (handle_name h) e)
        = Some (snd (publication (pub_topic_prefix p) (handle_name h) e))).

Lemma connack_messages p hs memory b :
  NoDup (map handle_name hs) ->
  foldl apply_request b (fst (handle_connack (Some p) (pub_topic_prefix p) hs memory))
  = MkBrokerState (foldl retain (messages b) (sent p hs memory))
      (list_to_set (flat_map (fun h => subscribe_topics (pub_topic_prefix p) (handle_name h)) hs) ∪ subscribed b).
Proof.
  intros Hn. unfold handle_connack, sent. pose proof (rediscover_messages p hs memory Hn) as E.
  destruct (rediscover _ hs memory) as [msgs m]. cbn [fst] in *. subst msgs.
  replace (flat_map (fun h => subscribe_all (pub_topic_prefix p) (handle_name h)) hs)
    with (map Subscribe (flat_map (fun h => subscribe_topics (pub_topic_prefix p) (handle_name h)) hs)).
  - by rewrite !foldl_app, apply_subscribes, !apply_retains.
  - clear Hn. induction hs as [|h hs IH]; [done|]. cbn [flat_map]. by rewrite map_app, IH.
Qed.

(** C37: When the broker has accepted a connection, having lost whatever it has lost,
    and the queue has room for what the handler is to send and for what other tasks
    send meanwhile, then however these are interleaved the handler does not stick:
    wherever a run stands, the loop has a next step until the handler has returned
    and the queue is empty, which it reaches within a bounded number of its own
    steps. If the others retain nothing meanwhile, the broker then has every
    subscription of every camera, of each whose capabilities are known the discovery
    payloads and nothing on the topics it was announced on before and is not now,
    and each cached state; the availability of the cameras is whatever it was. *)
Theorem connack_restores p hs memory q b ks s :
  house p hs memory -> Forall levels_ok hs ->
  let rs := fst (handle_connack (Some p) (pub_topic_prefix p) hs memory) in
  (length q + length rs + length ks <= QUEUE)%nat ->
  runs ks (MkBridge q (Some rs) b) s ->
  exists b', rtc loop_step s (MkBridge [] None b')
    /\ (forall n s', nsteps loop_step n s s' ->
          (n <= work s)%nat /\ (s' = MkBridge [] None b' \/ exists s'', loop_step s' s''))
    /\ (Forall unretained ks -> forall h, In h hs -> restored p memory b' h
      /\ messages b' !! status (pub_topic_prefix p) (handle_name h)
         = messages (foldl apply_request b q) !! status (pub_topic_prefix p) (handle_name h)).
Proof.
  intros H Hl rs Hq Hs. pose proof (runs_left _ _ _ Hs) as Hleft.
  assert (left s <= QUEUE)%nat as Hroom by (unfold left, rest in Hleft; cbn in Hleft; unfold left, rest; lia).
  exists (final s). split; [by apply loop_ends|]. split.
  { intros n s' Hn. destruct (loop_runs _ _ _ Hroom Hn) as (H1 & _ & H2). split; [lia|done]. }
  intros Hk. destruct (runs_final _ _ _ Hs Hk) as (Em & Hsub).
  assert (final (MkBridge q (Some rs) b) = foldl apply_request (foldl apply_request b q) rs) as E by apply foldl_app.
  unfold rs in E. rewrite connack_messages in E by apply (house_distinct _ _ _ H). fold rs in E.
  rewrite E in Em, Hsub. cbn [messages subscribed] in Em, Hsub.
  intros h Hh. rewrite Em. split; [|by apply availability_kept]. split; [|split]; rewrite ?Em.
  - intros t Ht. apply Hsub, elem_of_union_l, elem_of_list_to_set, list_elem_of_In, in_flat_map. by exists h.
  - intros caps Hc. split; [intros t x Hx; by eapply announced_retained|intros t Hp Ht; by eapply former_cleared].
  - intros Hm e He. rewrite status_retained by done.
    rewrite List.Forall_forall in Hl. pose proof (cached_payload (pub_topic_prefix p) (handle_name h) h e (Hl h Hh) He).
    by destruct (snd _).
Qed.

(** When the queue has no room for all of it, the handler never returns: whatever
    other tasks do, the loop is not polled again and nothing reaches the broker. *)
Theorem connack_stalls q rs b s :
  (length q <= QUEUE)%nat -> (QUEUE < length q + length rs)%nat -> rtc bstep (MkBridge q (Some rs) b) s ->
  handling s <> None /\ broker s = b.
Proof.
  intros Hq Hl Hs. destruct (stuck_steps b _ _ Hs) as (rs' & E & Eb & _); [by exists rs|]. by rewrite E.
Qed.

(** ** Shutdown *)

Definition own_withdrawal (p : Publisher) (memory : gmap str (gset str)) (h : Handle) : list (str * bytes) :=
  match handle_caps h with
  | Some caps =>
      map (fun t => (t, [])) (elements (topics (compute_payloads p (handle_subject h caps)) ∪ previous (handle_name h) memory))
  | None => []
  end.

Lemma withdraw_messages p hs memory :
  NoDup (map handle_name hs) -> fst (withdraw_all (Some p) hs memory) = flat_map (own_withdrawal p memory) hs.
Proof.
  revert memory. induction hs as [|h hs IH]; intros memory Hn; [done|]. cbn [map withdraw_all flat_map] in *.
  apply list.NoDup_cons in Hn as [Hh Hn]. rewrite list_elem_of_In in Hh.
  unfold withdrawal, own_withdrawal at 1. destruct (handle_caps h) as [caps|].
  - destruct (withdraw_all _ hs _) as [rest m] eqn:E. cbn [fst]. f_equal. apply (f_equal fst) in E. cbn [fst] in E.
    rewrite IH in E by done. rewrite <- E. apply flat_map_in_ext. intros h' Hh'. unfold own_withdrawal.
    destruct (handle_caps h'); [|done]. unfold previous. rewrite lookup_delete_ne; [done|].
    intros E'. apply Hh. unfold handle_name at 1. cbn in E'. rewrite E'. by apply in_map.
  - destruct (withdraw_all _ hs memory) as [rest m] eqn:E. cbn [fst]. apply (f_equal fst) in E. cbn [fst] in E.
    by rewrite IH in E.
Qed.

(** What the shutdown sends leaves every camera disconnected and, of each whose
    capabilities are known, nothing it was ever announced on. *)
Theorem shutdown_clears p hs memory b h :
  house p hs memory -> In h hs ->
  let b' := foldl apply_request b (fst (publish_shutdown_fanout (Some p) (pub_topic_prefix p) hs memory)) in
  messages b' !! status (pub_topic_prefix p) (handle_name h) = Some (lit "disconnected")
  /\ forall caps t, handle_caps h = Some caps ->
       t ∈ topics (compute_payloads p (handle_subject h caps)) ∪ previous (handle_name h) memory -> messages b' !! t = None.
Proof.
  intros H Hh. unfold publish_shutdown_fanout. pose proof (withdraw_messages p hs memory (house_distinct _ _ _ H)) as E.
  destruct (withdraw_all _ hs memory) as [msgs m]. cbn [fst] in *. subst msgs. cbv zeta.
  rewrite foldl_app, !apply_retains. cbn [messages]. rewrite <- foldl_app.
  set (online := map _ hs). assert (forall t x, In (t, x) (flat_map (own_withdrawal p memory) hs) ->
    x = [] /\ exists s b, In (t, b) (compute_payloads p s)) as Hw.
  { intros t x Hin. apply in_flat_map in Hin as (h' & Hh' & Hin). unfold own_withdrawal in Hin.
    destruct (handle_caps h') as [caps|]; [|done]. apply in_map_iff in Hin as (u & [= -> <-] & Hu). split; [done|].
    apply list_elem_of_In, elem_of_elements, elem_of_union in Hu as [Hu|Hu].
    - apply in_topics in Hu as [x Hx]. by eexists _, _.
    - destruct (house_memory _ _ _ H _ _ Hu) as (s & x & _ & _ & Hx). by eexists _, _. }
  assert (forall t x, In (t, x) online -> exists h', In h' hs /\ (t, x) = publication (pub_topic_prefix p) (handle_name h') (Connection false)) as Ho.
  { intros t x Hin. apply in_map_iff in Hin as (h' & E & Hh'). by exists h'. }
  split.
  - rewrite (retained_all _ _ _ (lit "disconnected")); [done| |].
    + intros x Hin. apply in_app_or in Hin as [Hin|Hin].
      * apply Ho in Hin as (h' & _ & E). by apply (f_equal snd) in E.
      * apply Hw in Hin as (_ & s & y & Hy). exfalso. by eapply (status_not_config p s _ y (handle_name h) (Connection false)).
    + apply in_or_app. left. apply in_map_iff. by exists h.
  - intros caps t Hc Ht. assert (In (t, []) (flat_map (own_withdrawal p memory) hs)) as Hin.
    { apply in_flat_map. exists h. split; [done|]. unfold own_withdrawal. rewrite Hc. apply in_map_iff. exists t.
      split; [done|]. by apply list_elem_of_In, elem_of_elements. }
    rewrite (retained_all _ _ t []); [done| |by apply in_or_app; right].
    intros x Hx. apply in_app_or in Hx as [Hx|Hx]; [|by apply Hw in Hx as [-> _]].
    apply Ho in Hx as (h' & _ & E). apply Hw in Hin as (_ & s & y & Hy). exfalso.
    apply (status_not_config p s _ y (handle_name h') (Connection false) Hy). by rewrite <- E.
Qed.

(** ** At concrete inputs *)

Definition everything : Publisher := MkPublisher (lit "bairelay") (lit "homeassistant") (list_to_set Feature_ALL) (lit "1").

Definition ptz_handle (name : str) : Handle :=
  MkHandle (MkCameraConfig name (Some (lit "10.0.0.5:9000")) None (lit "admin") (Some (lit "pw")) None None None None 0 StreamAll
      DiscRelay MaxAes false None default_motion_wake_hold_secs true (MkMqttConfig true true true 2000 true 2000 true 2000 true None)
      PauseConfig_default [] None None None None None None None None None)
    (Some (MkCapabilities true)) [(1, lit "gate")] (MkStatusCache (Some 80) (Some false) (Some true) (Some false) (Some true)) true.

Definition numbered (n : nat) : list Handle := map (fun i => ptz_handle (lit "cam" ++ [48 + Z.of_nat i])) (seq 0 n).

(** How much is sent for a camera when nothing was announced before. *)
Definition share (p : Publisher) (h : Handle) : nat :=
  length (subscribe_topics (pub_topic_prefix p) (handle_name h))
  + match handle_caps h with Some caps => S (length (compute_entities p (handle_subject h caps))) | None => 0 end
  + length (cached_messages (pub_topic_prefix p) h).

Lemma length_flat_map {A B} (f : A -> list B) l : length (flat_map f l) = foldr (fun x n => (length (f x) + n)%nat) 0%nat l.
Proof. induction l as [|x l IH]; [done|]. cbn [flat_map foldr]. by rewrite length_app, IH. Qed.

Lemma own_length p h :
  length (own_messages p ∅ h)
  = match handle_caps h with Some caps => S (length (compute_entities p (handle_subject h caps))) | None => 0%nat end.
Proof.
  unfold own_messages. destruct (handle_caps h) as [caps|]; [|done]. unfold publish_messages, previous. cbv zeta.
  rewrite lookup_empty. cbn [default].
  replace (∅ ∖ topics (compute_payloads p (handle_subject h caps))) with (∅ : gset str) by set_solver. rewrite elements_empty.
  cbn [map app]. rewrite length_app. unfold compute_payloads. rewrite length_map. cbn [length]. lia.
Qed.

Lemma connack_length p hs :
  NoDup (map handle_name hs) ->
  length (fst (handle_connack (Some p) (pub_topic_prefix p) hs ∅)) = foldr (fun h n => (share p h + n)%nat) 0%nat hs.
Proof.
  intros Hn. unfold handle_connack. pose proof (rediscover_messages p hs ∅ Hn) as E.
  destruct (rediscover _ hs _) as [msgs m]. cbn [fst] in *. subst msgs. clear Hn. unfold retains.
  rewrite !length_app, !length_map, !length_flat_map.
  induction hs as [|h hs IH]; [done|]. cbn [foldr]. rewrite <- IH, own_length. unfold share, subscribe_all. rewrite length_map. lia.
Qed.

(** Six cameras with everything fit the queue; seven do not. *)
Lemma numbered_distinct n : (n <= 7)%nat -> NoDup (map handle_name (numbered n)).
Proof.
  intros Hn. apply (bool_decide_eq_true_1 _). do 8 (destruct n as [|n]; [vm_compute; reflexivity|]). lia.
Qed.

Lemma house_length n : (n <= 7)%nat ->
  length (fst (handle_connack (Some everything) (pub_topic_prefix everything) (numbered n) ∅)) = (37 * n)%nat.
Proof.
  intros Hn. rewrite connack_length by (by apply numbered_distinct).
  do 8 (destruct n as [|n]; [vm_compute; reflexivity|]). lia.
Qed.

Lemma numbered_house : house everything (numbered 6) ∅.
Proof.
  split.
  - by apply (slashless [lit "bairelay"]); [|left].
  - apply List.Forall_forall. intros h Hh. apply in_map_iff in Hh as (i & <- & Hi). apply in_seq in Hi.
    do 6 (destruct i as [|i]; [by split|]). lia.
  - apply numbered_distinct. lia.
  - intros cam t Ht. unfold previous in Ht. rewrite lookup_empty in Ht. by apply not_elem_of_empty in Ht.
Qed.

Lemma numbered_levels : Forall levels_ok (numbered 6).
Proof. apply List.Forall_forall. intros h Hh n. apply in_map_iff in Hh as (i & <- & _). intros [= <-]. lia. Qed.

Lemma numbered_fits :
  (length (@nil Request) + length (fst (handle_connack (Some everything) (pub_topic_prefix everything) (numbered 6) ∅))
   + length [Send (lit "t") (lit "OK"); Send (lit "t") (lit "FAIL")] <= QUEUE)%nat.
Proof. rewrite house_length; unfold QUEUE; cbn [length]; lia. Qed.

(** Six cameras, and two replies another task sends meanwhile. *)
Lemma connack_restores_witness : exists b' s,
  runs [Send (lit "t") (lit "OK"); Send (lit "t") (lit "FAIL")]
    (MkBridge [] (Some (fst (handle_connack (Some everything) (pub_topic_prefix everything) (numbered 6) ∅))) (MkBrokerState ∅ ∅)) s
  /\ rtc loop_step s (MkBridge [] None b')
  /\ forall h, In h (numbered 6) -> restored everything ∅ b' h.
Proof.
  assert (forall rs b, runs [Send (lit "t") (lit "OK"); Send (lit "t") (lit "FAIL")] (MkBridge [] (Some rs) b)
    (MkBridge [Send (lit "t") (lit "OK"); Send (lit "t") (lit "FAIL")] (Some rs) b)) as Hr.
  { intros rs b. do 2 (apply runs_other; [unfold QUEUE; cbn; lia|]). apply runs_none. }
  destruct (connack_restores everything (numbered 6) ∅ [] (MkBrokerState ∅ ∅) [Send (lit "t") (lit "OK"); Send (lit "t") (lit "FAIL")]
    _ numbered_house numbered_levels numbered_fits (Hr _ _)) as (b' & Hb & _ & Hrest).
  exists b'. eexists. split; [apply Hr|]. split; [exact Hb|].
  intros h Hh. apply Hrest; [repeat constructor|exact Hh].
Defined.

Lemma seven_too_many :
  (QUEUE < length (@nil Request) + length (fst (handle_connack (Some everything) (lit "bairelay") (numbered 7) ∅)))%nat.
Proof. change (lit "bairelay") with (pub_topic_prefix everything). rewrite house_length; unfold QUEUE; cbn [length]; lia. Qed.

Lemma connack_stalls_witness :
  broker (MkBridge [] (Some (fst (handle_connack (Some everything) (lit "bairelay") (numbered 7) ∅))) (MkBrokerState ∅ ∅))
  = MkBrokerState ∅ ∅.
Proof. exact (proj2 (connack_stalls [] _ _ _ (Nat.le_0_l _) seven_too_many (rtc_refl _ _))). Defined.
