(* ===== verification/Listeners.v ===== *)
(** * The listeners ([rtsp/server/listener.rs], [push_listener.rs])

    The RTSP server's accept loop, which takes a permit of a semaphore before
    each connection, and the push listener, which takes a TCP connection from a
    camera's address for motion: it finds the camera by the wake server's
    registry, reports motion, holds the wake lock and reports its end. Both as
    step relations. Times are in nanoseconds. *)

From stdpp Require Import relations.
From S2P Require Import Prelude Text WakeServer Toml Config Mqtt.

Module RtspListener.

Definition TLS_HANDSHAKE_TIMEOUT : Z := secs 10.

Record ServerConfig := MkServerConfig { tls : bool; max_connections : option nat }.

(** Of the loop: it waits for a permit, or holds one and waits in [accept]. *)
Inductive Loop := Acquiring | Accepting | Returned.

(** Of a connection's task. *)
Inductive Task := Handshaking (until : Z) | Serving.

Record Server := MkServer { now : Z; loop : Loop; permits : nat; tasks : gmap nat Task }.

Section server.
Context (cfg : ServerConfig) (MAX_PERMITS : nat).

Definition conn_capacity : nat := default MAX_PERMITS (max_connections cfg).

Definition start (now : Z) : Server := MkServer now Acquiring conn_capacity ∅.

Inductive step : Server -> Server -> Prop :=
| acquired t n ts : step (MkServer t Acquiring (S n) ts) (MkServer t Accepting n ts)
| accepted t n ts id : ts !! id = None ->
    step (MkServer t Accepting n ts)
      (MkServer t Acquiring n (<[id := if tls cfg then Handshaking (t + TLS_HANDSHAKE_TIMEOUT) else Serving]> ts))
| accept_failed t n ts : step (MkServer t Accepting n ts) (MkServer t Acquiring (S n) ts)
| handshake_done t l n ts id u : ts !! id = Some (Handshaking u) -> t <= u ->
    step (MkServer t l n ts) (MkServer t l n (<[id := Serving]> ts))
| handshake_failed t l n ts id u : ts !! id = Some (Handshaking u) ->
    step (MkServer t l n ts) (MkServer t l (S n) (delete id ts))
| connection_ended t l n ts id : ts !! id = Some Serving -> step (MkServer t l n ts) (MkServer t l (S n) (delete id ts))
| cancelled_acquiring t n ts : step (MkServer t Acquiring n ts) (MkServer t Returned n ts)
| cancelled_accepting t n ts : step (MkServer t Accepting n ts) (MkServer t Returned (S n) ts)
| passes t t' l n ts : t <= t' -> (forall id u, ts !! id = Some (Handshaking u) -> t' <= u) ->
    step (MkServer t l n ts) (MkServer t' l n ts).

(** The permits of the semaphore, those of tasks and the one of the loop. *)
Definition accounted (s : Server) : Prop :=
  (permits s + size (tasks s) + match loop s with Accepting => 1 | _ => 0 end)%nat = conn_capacity.

Lemma step_accounted s s' : accounted s -> step s s' -> accounted s'.
Proof.
  unfold accounted. intros Ha Hs. destruct Hs; cbn [permits tasks loop] in *; try lia.
  - rewrite map_size_insert_None by done. lia.
  - rewrite map_size_insert_Some by (by rewrite H). lia.
  - rewrite map_size_delete_Some by (by rewrite H). pose proof (map_size_ne_0_lookup_2 ts id (ex_intro _ _ H)). lia.
  - rewrite map_size_delete_Some by (by rewrite H). pose proof (map_size_ne_0_lookup_2 ts id (ex_intro _ _ H)). lia.
Qed.

Definition timely (s : Server) : Prop :=
  forall id u, tasks s !! id = Some (Handshaking u) -> now s <= u <= now s + TLS_HANDSHAKE_TIMEOUT.

Lemma step_timely s s' : timely s -> step s s' -> timely s'.
Proof.
  unfold timely. intros Ht Hs. destruct Hs; cbn [now tasks] in *; intros i v Hi; try (by eapply Ht).
  - apply lookup_insert_Some in Hi as [[<- Hi]|[_ Hi]]; [|by eapply Ht]. destruct (tls cfg); [|done].
    injection Hi as <-. unfold TLS_HANDSHAKE_TIMEOUT, secs. lia.
  - apply lookup_insert_Some in Hi as [[<- Hi]|[_ Hi]]; [done|by eapply Ht].
  - apply lookup_delete_Some in Hi as [_ Hi]. by eapply Ht.
  - apply lookup_delete_Some in Hi as [_ Hi]. by eapply Ht.
  - pose proof (Ht _ _ Hi). match goal with E : forall id u, _ |- _ => specialize (E _ _ Hi) end. lia.
Qed.

(** However clients come, shake hands and go, no more connections are open than
    the configuration allows; while there are fewer and the loop waits for a
    permit, one is there; and no handshake is older than its time-out. *)
Theorem connections_capped t0 s :
  rtc step (start t0) s ->
  (size (tasks s) <= conn_capacity)%nat
  /\ ((size (tasks s) < conn_capacity)%nat -> loop s = Acquiring -> exists s', step s s' /\ loop s' = Accepting)
  /\ timely s.
Proof.
  intros Hs. assert (accounted s /\ timely s) as [Ha Ht].
  { remember (start t0) as s0 eqn:E. assert (accounted s0 /\ timely s0) as H0.
    { subst s0. split; [unfold accounted; cbn [start permits tasks loop]; rewrite map_size_empty; lia|].
      intros id u Hi. cbn in Hi. by rewrite lookup_empty in Hi. }
    clear E. induction Hs as [|x y z Hxy _ IH]; [done|]. apply IH. destruct H0.
    split; [by eapply step_accounted|by eapply step_timely]. }
  unfold accounted in Ha. split; [lia|]. split; [|done]. intros Hl E. destruct s as [t l n ts]. cbn in *. subst l.
  destruct n as [|n]; [lia|]. eexists. split; [apply acquired|done].
Qed.
End server.
End RtspListener.

Lemma connections_capped_witness :
  let cfg := RtspListener.MkServerConfig true (Some 1%nat) in
  (size (RtspListener.tasks (RtspListener.MkServer 0 RtspListener.Accepting 0 ∅)) <= RtspListener.conn_capacity cfg 0)%nat.
Proof.
  apply (RtspListener.connections_capped (RtspListener.MkServerConfig true (Some 1%nat)) 0 0). apply rtc_once.
  apply RtspListener.acquired.
Defined.

Module PushListener.

Record RuntimeConfig := MkRuntimeConfig { motion_wake_hold : Z; stale_after : Z }.

(** [Iterator::max_by_key]: the last of the largest. *)
Definition max_by_key {A} (key : A -> Z) (l : list A) : option A :=
  fold_left (fun best x => match best with Some b => if key x <? key b then Some b else Some x | None => Some x end) l None.

Definition is_prefix_of (registry_uid : str) (cam : CameraConfig) : bool :=
  match uid cam with Some cfg_uid => starts_with cfg_uid registry_uid | None => false end.

(** [cams]: the values of the map in the order it is walked. *)
Definition match_camera_by_uid (cams : list CameraConfig) (registry_uid : str) : option CameraConfig :=
  max_by_key (fun c => match uid c with Some u => byte_len u | None => 0 end) (List.filter (is_prefix_of registry_uid) cams).

(** The camera a connection from [ip] is taken for. *)
Definition pushed_by (iter : gmap str CameraEntry -> list (str * CameraEntry)) (registry : gmap str CameraEntry)
    (cams : list CameraConfig) (cfg : RuntimeConfig) (ip : IpAddr) (now : Z) : option CameraConfig :=
  match CameraRegistry.lookup_by_ip iter registry ip now (stale_after cfg) with
  | Some (registry_uid, _) => match_camera_by_uid cams registry_uid
  | None => None
  end.

Definition FALLBACK_PUBLISH_TIMEOUT : Z := secs 1.

(** A detached task: [fire_motion], or [spawn_wake_only] without MQTT. *)
Inductive Phase := Spawned | ReportingOn | Holding (until : Z) | ReportingOff (until : Z).

Record Push := MkPush { camera : str; phase : Phase }.

(** [reports]: what reached the broker, the latest last. *)
Record State := MkState { now : Z; cancelled : bool; pushes : gmap nat Push; reports : list (str * bool) }.

Definition holds_guard (q : Push) : bool := match phase q with Spawned => false | _ => true end.

Section listener.
Context (iter : gmap str CameraEntry -> list (str * CameraEntry)) (cams : list CameraConfig) (cfg : RuntimeConfig) (mqtt : bool).

(** What happens, with the registry as it is then. *)
Inductive Label :=
| Connection (ip : IpAddr) (registry : gmap str CameraEntry) (id : nat)
| Started (id : nat)
| OnReported (id : nat) (ok : bool)
| HoldOver (id : nat)
| OffReported (id : nat) (ok : bool)
| Passes (t : Z)
| Cancelled.

Definition set_push (s : State) (id : nat) (q : option Push) (more : list (str * bool)) : State :=
  MkState (now s) (cancelled s) (match q with Some q => <[id := q]> (pushes s) | None => delete id (pushes s) end)
    (reports s ++ more).

(** [None]: it cannot happen. *)
Definition step (s : State) (l : Label) : option State :=
  match l with
  | Connection ip registry id =>
      if cancelled s || bool_decide (is_Some (pushes s !! id)) then None
      else Some (match pushed_by iter registry cams cfg ip (now s) with
                 | Some cam => set_push s id (Some (MkPush (cam_name cam) Spawned)) []
                 | None => s
                 end)
  | Started id =>
      match pushes s !! id with
      | Some (MkPush c Spawned) =>
          Some (set_push s id (Some (MkPush c (if mqtt then ReportingOn else Holding (now s + motion_wake_hold cfg)))) [])
      | _ => None
      end
  | OnReported id ok =>
      match pushes s !! id with
      | Some (MkPush c ReportingOn) =>
          Some (set_push s id (Some (MkPush c (Holding (now s + motion_wake_hold cfg)))) (if ok then [(c, true)] else []))
      | _ => None
      end
  | HoldOver id =>
      match pushes s !! id with
      | Some (MkPush c (Holding until)) =>
          if (until <=? now s) || cancelled s then
            Some (set_push s id (if mqtt then Some (MkPush c (ReportingOff (now s + FALLBACK_PUBLISH_TIMEOUT))) else None) [])
          else None
      | _ => None
      end
  | OffReported id ok =>
      match pushes s !! id with
      | Some (MkPush c (ReportingOff until)) =>
          if ok && (until <? now s) then None else Some (set_push s id None (if ok then [(c, false)] else []))
      | _ => None
      end
  | Passes t => if now s <=? t then Some (MkState t (cancelled s) (pushes s) (reports s)) else None
  | Cancelled => Some (MkState (now s) true (pushes s) (reports s))
  end.

Fixpoint run (s : State) (ls : list Label) : option State :=
  match ls with [] => Some s | l :: ls => match step s l with Some s => run s ls | None => None end end.

(** The guards on a camera's wake lock. *)
Definition guards (s : State) (c : str) : nat :=
  length (List.filter (fun q => bool_decide (camera q = c) && holds_guard q) (map snd (map_to_list (pushes s)))).
End listener.

(** ** Which camera *)

Lemma max_by_key_from {A} (key : A -> Z) l b0 :
  exists b, fold_left (fun best x => match best with Some b => if key x <? key b then Some b else Some x | None => Some x end)
              l (Some b0) = Some b
    /\ (b = b0 \/ In b l) /\ key b0 <= key b /\ forall x, In x l -> key x <= key b.
Proof.
  revert b0. induction l as [|x l IH]; intros b0; cbn [fold_left]; [exists b0; split; [done|]; split; [by left|]; split; [lia|done]|].
  destruct (Z.ltb_spec (key x) (key b0)).
  - destruct (IH b0) as (b & -> & Hb & Hk & Hall). exists b. split; [done|]. split; [cbn; tauto|]. split; [done|].
    intros y [<-|Hy]; [lia|by apply Hall].
  - destruct (IH x) as (b & -> & Hb & Hk & Hall). exists b. split; [done|]. split; [destruct Hb as [->|Hb]; cbn; tauto|]. split; [lia|].
    intros y [<-|Hy]; [lia|by apply Hall].
Qed.

Lemma max_by_key_some {A} (key : A -> Z) l : l <> [] -> exists b, max_by_key key l = Some b /\ In b l /\ forall x, In x l -> key x <= key b.
Proof.
  intros Hl. destruct l as [|x l]; [done|]. unfold max_by_key. cbn [fold_left].
  destruct (max_by_key_from key l x) as (b & -> & Hb & Hk & Hall). exists b. split; [done|].
  split; [destruct Hb as [->|Hb]; [by left|by right]|]. intros y [<-|Hy]; [done|by apply Hall].
Qed.

Lemma starts_with_app q s : starts_with q s = true -> exists r, s = q ++ r.
Proof.
  unfold starts_with, strip_prefix. case_bool_decide as E; [|done]. intros _. exists (drop (length q) s).
  rewrite <- E at 1. by rewrite take_drop.
Qed.

Lemma byte_len_nil a : byte_len a = 0 -> a = [].
Proof.
  destruct a as [|c a]; [done|]. unfold byte_len. cbn [foldr]. fold (byte_len a). pose proof (byte_len_nonneg a).
  unfold char_len. repeat destruct (_ <? _); lia.
Qed.

(** Two beginnings of a text of the same length are the same. *)
Lemma same_beginning a b s : starts_with a s = true -> starts_with b s = true -> byte_len a = byte_len b -> a = b.
Proof.
  intros [r E]%starts_with_app [r' E']%starts_with_app Hl. subst s.
  revert b r' E' Hl. induction a as [|c a IH]; intros b r' E' Hl.
  - symmetry. by apply byte_len_nil.
  - destruct b as [|d b]; [by apply byte_len_nil in Hl|]. injection E' as -> E'. f_equal. apply (IH b r' E').
    unfold byte_len in *. cbn [foldr] in Hl. lia.
Qed.

Definition uid_len (c : CameraConfig) : Z := match uid c with Some u => byte_len u | None => 0 end.

(** The camera whose UID is the longest beginning of [registry_uid]. *)
Definition best_match (cams : list CameraConfig) (registry_uid : str) (c : CameraConfig) : Prop :=
  In c cams /\ is_prefix_of registry_uid c = true
  /\ forall d, In d cams -> is_prefix_of registry_uid d = true -> d = c \/ uid_len d < uid_len c.

Definition distinct_uids (cams : list CameraConfig) : Prop :=
  forall c d, In c cams -> In d cams -> uid c <> None -> uid c = uid d -> c = d.

Lemma match_best cams u c :
  distinct_uids cams -> match_camera_by_uid cams u = Some c <-> best_match cams u c.
Proof.
  intros Hd. unfold match_camera_by_uid. set (l := List.filter _ _).
  assert (forall x, In x l <-> In x cams /\ is_prefix_of u x = true) as Hl by (intros x; apply filter_In).
  assert (forall x y, In x l -> In y l -> uid_len x = uid_len y -> x = y) as Hu.
  { intros x y [Hx Px]%Hl [Hy Py]%Hl E. unfold is_prefix_of, uid_len in *.
    destruct (uid x) as [a|] eqn:Ex; [|done]. destruct (uid y) as [b|] eqn:Ey; [|done].
    apply Hd; [done|done|congruence|]. rewrite Ex, Ey. f_equal. by eapply same_beginning. }
  destruct (decide (l = [])) as [E|E].
  - rewrite E. split; [done|]. intros (Hc & Hp & _). assert (In c l) as H by (by apply Hl). by rewrite E in H.
  - destruct (max_by_key_some uid_len l E) as (b & Eb & Hb & Hmax). fold uid_len. rewrite Eb. split.
    + intros [= <-]. apply Hl in Hb as Hb'. destruct Hb' as [H1 H2]. split; [done|]. split; [done|].
      intros d Hin Hp. assert (In d l) as Hd' by (by apply Hl). pose proof (Hmax d Hd').
      destruct (Z.eq_dec (uid_len d) (uid_len b)) as [E'|]; [left; by apply Hu|right; lia].
    + intros (H1 & H2 & H3). f_equal. apply Hl in Hb as [Hb1 Hb2]. destruct (H3 b Hb1 Hb2) as [->|Hlt]; [done|].
      assert (In c l) as Hc by (by apply Hl). specialize (Hmax c Hc). lia.
Qed.

(** Of the cameras in the order they are walked: the longest beginning, and of those
    that long the last. *)
Definition last_best (cams : list CameraConfig) (registry_uid : str) (c : CameraConfig) : Prop :=
  exists before after, cams = before ++ c :: after /\ is_prefix_of registry_uid c = true
    /\ (forall d, In d before -> is_prefix_of registry_uid d = true -> uid_len d <= uid_len c)
    /\ (forall d, In d after -> is_prefix_of registry_uid d = true -> uid_len d < uid_len c).

Lemma max_by_key_snoc {A} (key : A -> Z) l x :
  max_by_key key (l ++ [x]) = match max_by_key key l with Some b => if key x <? key b then Some b else Some x | None => Some x end.
Proof. unfold max_by_key. by rewrite fold_left_app. Qed.

Lemma match_last cams u :
  match match_camera_by_uid cams u with
  | Some c => last_best cams u c
  | None => forall c, In c cams -> is_prefix_of u c = false
  end.
Proof.
  unfold match_camera_by_uid. fold uid_len. induction cams as [|x cams IH] using rev_ind; [by intros c []|].
  rewrite List.filter_app. cbn [List.filter]. destruct (is_prefix_of u x) eqn:Ex.
  - rewrite max_by_key_snoc. destruct (max_by_key uid_len _) as [c|].
    + destruct IH as (before & after & -> & Hc & Hb & Ha). destruct (Z.ltb_spec (uid_len x) (uid_len c)).
      * exists before, (after ++ [x]). rewrite <- app_assoc. split_and!; [done..|].
        intros d [Hd|[<-|[]]]%in_app_iff Hp; [by apply Ha|done].
      * exists (before ++ c :: after), []. split_and!; [done|done| |done].
        intros d [Hd|[<-|Hd]]%in_app_iff Hp; [specialize (Hb d Hd Hp)| |specialize (Ha d Hd Hp)]; lia.
    + exists cams, []. split_and!; [done|done| |done]. intros d Hd. by rewrite (IH d Hd).
  - rewrite app_nil_r. destruct (max_by_key uid_len _) as [c|].
    + destruct IH as (before & after & -> & Hc & Hb & Ha). exists before, (after ++ [x]). rewrite <- app_assoc.
      split_and!; [done..|]. intros d [Hd|[<-|[]]]%in_app_iff Hp; [by apply Ha|congruence].
    + intros c [Hc|[<-|[]]]%in_app_iff; [by apply IH|done].
Qed.

(** A fresh entry of the registry from the address. *)
Definition heard_from (registry : gmap str CameraEntry) (ip : IpAddr) (now stale : Z) (u : str) (e : CameraEntry) : Prop :=
  registry !! u = Some e /\ addr_ip (entry_addr e) = ip /\ CameraRegistry.fresh now stale e = true.

Lemma lookup_heard iter registry ip now stale :
  (forall m, Permutation (iter m) (map_to_list m)) ->
  match CameraRegistry.lookup_by_ip iter registry ip now stale with
  | Some (u, e) => heard_from registry ip now stale u e
  | None => forall u e, ~ heard_from registry ip now stale u e
  end.
Proof.
  intros Hi. unfold CameraRegistry.lookup_by_ip. destruct (List.find _ (iter registry)) as [[u e]|] eqn:E.
  - apply find_some in E as [Hin Hb]. cbn [snd] in Hb. apply andb_true_iff in Hb as [Hb Hf].
    apply bool_decide_eq_true in Hb. split; [|done].
    apply elem_of_map_to_list, list_elem_of_In. eapply Permutation_in; [apply Hi|exact Hin].
  - intros u e (Hu & Hip & Hf). pose proof (find_none _ _ E (u, e)) as H. cbn [snd] in H.
    rewrite Hf, Hip, bool_decide_eq_true_2 in H by done. discriminate H.
    eapply Permutation_in; [symmetry; apply Hi|]. by apply list_elem_of_In, elem_of_map_to_list.
Qed.

(** C38: A connection is taken for motion of a camera only if a fresh heartbeat came
    from its address under a UID the camera's configured one begins, the longest to
    do so, and of several that are equal the last that is walked; it is dropped only
    if no fresh heartbeat came from there, or one came that no configured UID begins.
    Which heartbeat decides when several cameras share the address, and which of two
    cameras configured with one UID, depends on the order in which the tables are
    walked; if one fresh heartbeat has the address and the UIDs are distinct, the
    camera is the one with the longest beginning, if there is any, in every order. *)
Theorem push_identified iter registry cams cfg ip now :
  (forall m, Permutation (iter m) (map_to_list m)) ->
  match pushed_by iter registry cams cfg ip now with
  | Some c => exists u e, heard_from registry ip now (stale_after cfg) u e /\ last_best cams u c
  | None => (forall u e, ~ heard_from registry ip now (stale_after cfg) u e)
      \/ exists u e, heard_from registry ip now (stale_after cfg) u e /\ forall c, In c cams -> is_prefix_of u c = false
  end
  /\ forall u e c, distinct_uids cams -> heard_from registry ip now (stale_after cfg) u e ->
       (forall u' e', heard_from registry ip now (stale_after cfg) u' e' -> u' = u) ->
       pushed_by iter registry cams cfg ip now = Some c <-> best_match cams u c.
Proof.
  intros Hi. pose proof (lookup_heard iter registry ip now (stale_after cfg) Hi) as H. unfold pushed_by. split.
  - destruct (CameraRegistry.lookup_by_ip _ _ _ _ _) as [[u e]|]; [|by left].
    pose proof (match_last cams u) as Hm. destruct (match_camera_by_uid cams u) as [c|]; eauto.
  - intros u e c Hd Hu Hone. destruct (CameraRegistry.lookup_by_ip _ _ _ _ _) as [[u' e']|].
    + rewrite (Hone u' e' H). by apply match_best.
    + by destruct (H u e).
Qed.

(** ** What is reported *)

Section reported.
Context (iter : gmap str CameraEntry -> list (str * CameraEntry)) (cams : list CameraConfig) (cfg : RuntimeConfig) (mqtt : bool).

Definition start (now : Z) : State := MkState now false ∅ [].

Definition last_report (s : State) (c : str) : option (str * bool) :=
  list.last (List.filter (fun r => bool_decide (fst r = c)) (reports s)).

Definition reporting (q : Push) : bool := match phase q with Holding _ | ReportingOff _ => true | _ => false end.

Definition owed (s : State) : Prop :=
  forall c, last_report s c = Some (c, true) -> exists id q, pushes s !! id = Some q /\ camera q = c /\ reporting q = true.

Definition sends_off (l : Label) : bool := match l with OffReported _ false => false | _ => true end.

Lemma reports_app s more c :
  list.last (List.filter (fun r : str * bool => bool_decide (fst r = c)) (reports s ++ more))
  = match list.last (List.filter (fun r => bool_decide (fst r = c)) more) with
    | Some r => Some r
    | None => last_report s c
    end.
Proof.
  unfold last_report. rewrite List.filter_app. set (a := List.filter _ (reports s)). set (b := List.filter _ more).
  destruct (list.last b) as [r|] eqn:E.
  - apply list.last_Some in E as [l ->]. by rewrite app_assoc, list.last_snoc.
  - apply list.last_None in E as ->. by rewrite app_nil_r.
Qed.

(** A push that takes [id] over, or none: what is owed stays owed. *)
Lemma owed_set s id q0 q more :
  owed s -> pushes s !! id = q0 ->
  (forall c, list.last (List.filter (fun r : str * bool => bool_decide (fst r = c)) more) = Some (c, true) ->
     exists q', q = Some q' /\ camera q' = c /\ reporting q' = true) ->
  (forall c, list.last (List.filter (fun r : str * bool => bool_decide (fst r = c)) more) = None ->
     forall q', q0 = Some q' -> camera q' = c -> reporting q' = true -> exists q'', q = Some q'' /\ camera q'' = c /\ reporting q'' = true) ->
  owed (set_push s id q more).
Proof.
  intros Ho Hq H1 H2 c Hc. unfold last_report in Hc. cbn [set_push reports pushes] in *. rewrite reports_app in Hc.
  destruct (list.last (List.filter _ more)) as [r|] eqn:E.
  - injection Hc as ->. destruct (H1 c E) as (q' & -> & Hcam & Hr). exists id, q'. by rewrite lookup_insert_eq.
  - destruct (Ho c Hc) as (i & q' & Hi & Hcam & Hr). destruct (decide (i = id)) as [->|Hne].
    + destruct (H2 c E q') as (q'' & -> & H3 & H4); [congruence|done|done|]. exists id, q''. by rewrite lookup_insert_eq.
    + exists i, q'. destruct q; rewrite ?lookup_insert_ne, ?lookup_delete_ne by done; done.
Qed.

Lemma step_owed s l s' : owed s -> sends_off l = true -> step iter cams cfg true s l = Some s' -> owed s'.
Proof.
  intros Ho Hl Hs. destruct l as [ip registry id|id|id ok|id|id ok|t|]; cbn [step] in Hs.
  - destruct (cancelled s || bool_decide _) eqn:Eb; [done|]. apply orb_false_iff in Eb as [_ Eb].
    injection Hs as <-. destruct (pushed_by _ _ _ _ _ _); [|done]. apply bool_decide_eq_false in Eb.
    apply (owed_set s id None); [done|by apply eq_None_not_Some|done|done].
  - destruct (pushes s !! id) as [[c []]|] eqn:Eq; try done. injection Hs as <-.
    apply (owed_set s id _ _ [] Ho Eq); [done|]. by intros ? _ ? [= <-].
  - destruct (pushes s !! id) as [[c []]|] eqn:Eq; try done. injection Hs as <-.
    apply (owed_set s id _ _ _ Ho Eq).
    + intros c' Hc. eexists. split; [done|]. split; [|done]. cbn. destruct ok; [|done]. cbn in Hc. by case_bool_decide.
    + by intros ? _ ? [= <-].
  - destruct (pushes s !! id) as [[c []]|] eqn:Eq; try done. destruct (_ || _); [|done]. injection Hs as <-.
    apply (owed_set s id _ _ [] Ho Eq); [done|]. intros c' _ q' [= <-] Hcam _. by eexists.
  - destruct (pushes s !! id) as [[c []]|] eqn:Eq; try done. destruct (_ && _); [done|]. injection Hs as <-.
    destruct ok; [|done]. apply (owed_set s id _ _ _ Ho Eq); intros c' Hc; cbn in Hc; case_bool_decide; try done.
    intros q' [= <-] Hcam _. done.
  - destruct (_ <=? _); [|done]. by injection Hs as <-.
  - by injection Hs as <-.
Qed.

(** Motion the listener reported does not stay on: along every run in which no
    report of its end fails, a camera whose latest report says motion has a push
    that will report the end; when none is left, the latest report says none. *)
Theorem push_settles t0 ls s c :
  forallb sends_off ls = true -> run iter cams cfg true (start t0) ls = Some s ->
  (forall id q, pushes s !! id = Some q -> camera q <> c) -> last_report s c <> Some (c, true).
Proof.
  intros Hls Hr Hn Hc. assert (owed s) as Ho; [|by destruct (Ho c Hc) as (id & q & Hq & Hcam & _); eapply Hn].
  assert (owed (start t0)) as H0 by done. revert Hls Hr H0. clear. generalize (start t0) as s0.
  induction ls as [|l ls IH]; intros s0 Hls Hr H0; cbn [run forallb] in *; [by injection Hr as <-|].
  apply andb_true_iff in Hls as [Hl Hls]. destruct (step _ _ _ _ _ l) as [s1|] eqn:E; [|done].
  eapply IH; [done|exact Hr|]. by eapply step_owed.
Qed.
End reported.
End PushListener.

(** ** At concrete inputs *)

Definition with_uid (name : str) (u : str) : CameraConfig :=
  MkCameraConfig name None (Some u) (lit "admin") (Some (lit "pw")) None None None None 0 StreamAll
    DiscRelay MaxAes true None default_motion_wake_hold_secs true MqttConfig_default PauseConfig_default [] None None
    None None None None None None None.

Definition two_cameras : list CameraConfig := [with_uid (lit "gate") (lit "UID-AB"); with_uid (lit "porch") (lit "UID-A")].

Definition heard : gmap str CameraEntry := {[lit "UID-AB-XYZ" := MkCameraEntry (MkSocketAddr (V4 [10; 0; 0; 7]) 4000) 1 0]}.

Definition push_cfg : PushListener.RuntimeConfig := PushListener.MkRuntimeConfig (secs 10) (secs 80).

Lemma heard_only u e : heard !! u = Some e -> u = lit "UID-AB-XYZ".
Proof. unfold heard. intros H. by apply lookup_singleton_Some in H as [<- _]. Qed.

Lemma two_distinct : PushListener.distinct_uids two_cameras.
Proof. intros c d [<-|[<-|[]]] [<-|[<-|[]]] _ E; try done; discriminate E. Qed.

Lemma push_identified_witness :
  PushListener.best_match two_cameras (lit "UID-AB-XYZ") (with_uid (lit "gate") (lit "UID-AB")).
Proof.
  destruct (PushListener.push_identified map_to_list heard two_cameras push_cfg (V4 [10; 0; 0; 7]) (secs 5)) as [_ H].
  { intros m. apply Permutation_refl. }
  apply (H (lit "UID-AB-XYZ") (MkCameraEntry (MkSocketAddr (V4 [10; 0; 0; 7]) 4000) 1 0)).
  - exact two_distinct.
  - split; [apply lookup_singleton_eq|done].
  - intros u' e' (Hu & _). by apply (heard_only u' e').
  - unfold PushListener.pushed_by, CameraRegistry.lookup_by_ip, heard. rewrite map_to_list_singleton. reflexivity.
Defined.

(** Two connections five seconds apart: the first one's end of motion is reported
    while the second one's motion is still held. *)
Definition overlapping : list PushListener.Label :=
  [PushListener.Connection (V4 [10; 0; 0; 7]) heard 0; PushListener.Started 0; PushListener.OnReported 0 true;
   PushListener.Passes (secs 5);
   PushListener.Connection (V4 [10; 0; 0; 7]) heard 1; PushListener.Started 1; PushListener.OnReported 1 true;
   PushListener.Passes (secs 10); PushListener.HoldOver 0; PushListener.OffReported 0 true].

Definition outcome_of (ls : list PushListener.Label) : option (option bool * nat) :=
  (fun s => (snd <$> PushListener.last_report s (lit "gate"), PushListener.guards s (lit "gate")))
  <$> PushListener.run map_to_list two_cameras push_cfg true (PushListener.start 0) ls.

Example overlap_reports_off : outcome_of overlapping = Some (Some false, 1%nat).
Proof. vm_compute. reflexivity. Qed.

Definition one_push : list PushListener.Label :=
  [PushListener.Connection (V4 [10; 0; 0; 7]) heard 0; PushListener.Started 0; PushListener.OnReported 0 true;
   PushListener.Passes (secs 10); PushListener.HoldOver 0; PushListener.OffReported 0 true].

Definition settled : PushListener.State :=
  PushListener.MkState (secs 10) false ∅ [(lit "gate", true); (lit "gate", false)].

Lemma one_push_settles : PushListener.run map_to_list two_cameras push_cfg true (PushListener.start 0) one_push = Some settled.
Proof. vm_compute. reflexivity. Qed.

Lemma push_settles_witness : PushListener.last_report settled (lit "gate") <> Some (lit "gate", true).
Proof.
  apply (PushListener.push_settles map_to_list two_cameras push_cfg 0 one_push settled (lit "gate") eq_refl one_push_settles).
  intros id q H. cbn in H. by rewrite lookup_empty in H.
Defined.
