(* ===== verification/Cloud.v ===== *)
(** * The account service ([baichuan/cloud.rs])

    How the token bundle of a camera bound to an account is obtained: the grants
    and the authorization over HTTP, the proof of work the service can ask for,
    the cache of bundles, and the verification that is done once per host. The
    service is hostile: what it answers to each request is an argument. Parsing
    JSON and SHA-256 are interfaces. Arithmetic on [i64] wraps, as in a release
    build. Strings are their bytes, error texts lists of characters. *)

From S2P Require Import Prelude Text Wire BcXml Commands Login.

(** ** JSON ([serde_json]) *)

Inductive Value :=
| Null
| Bool (b : bool)
| Int (n : Z)
| Float (text : str)
| JString (s : bytes)
| Array (l : list Value)
| Object (fields : list (str * Value)).

Class Json := { from_json : bytes -> option Value; to_string : Value -> str }.

Class Sha256 := { sha256 : bytes -> bytes }.

Definition get (k : string) (v : Value) : option Value :=
  match v with
  | Object fields => snd <$> List.find (fun x => bool_decide (fst x = lit k)) fields
  | _ => None
  end.

Definition as_str (v : Value) : option bytes := match v with JString s => Some s | _ => None end.

Definition as_i64 (v : Value) : option Z :=
  match v with Int n => if in_range (- 2 ^ 63) (2 ^ 63 - 1) n then Some n else None | _ => None end.

Definition as_u64 (v : Value) : option Z :=
  match v with Int n => if in_range 0 (2 ^ 64 - 1) n then Some n else None | _ => None end.

Definition is_object (v : Value) : bool := match v with Object _ => true | _ => false end.
Definition is_null (v : Value) : bool := match v with Null => true | _ => false end.

Definition wrap_i64 (x : Z) : Z := wrap 64 (x + 2 ^ 63) - 2 ^ 63.

(** ** Requests and answers *)

Definition BASE : str := lit "https://apis.reolink.com".
Definition CLIENT_ID : bytes := lit "REO-BHAPEi1tILWrc37S|Zit".
Definition MAX_RESP_BYTES : Z := Z.shiftl 1 20.
Definition CACHE_MARGIN_SECS : Z := 120.
Definition SHORT_MAX_CHARS : nat := 2000.

Inductive Body := Form (fields : list (string * bytes)) | JsonBody (v : Value).

(** [POST] to a path under [BASE], with the common headers and these. *)
Record HttpRequest := MkHttpRequest { url : str; headers : list (string * bytes); body : Body }.

Definition common : list (string * bytes) :=
  [("x-client-id"%string, CLIENT_ID); ("x-api-challenge-accept"%string, lit "pow/1,captcha/1"); ("accept"%string, lit "*/*")].

Inductive Chunk := Data (b : bytes) | Broken (e : str).

Inductive Answer :=
| NoAnswer (e : str)
| Response (status : str) (content_length : option Z) (chunks : list Chunk).

(** A program over the service: what it answers to the [n]-th request. The
    requests made come with the result. *)
Definition H (A : Type) : Type := (nat -> Answer) -> nat -> result A Error * list HttpRequest.

Definition hret {A} (a : A) : H A := fun _ _ => (Ok a, []).
Definition hfail {A} (e : Error) : H A := fun _ _ => (Err e, []).

Definition hbind {A B} (m : H A) (f : A -> H B) : H B := fun w n =>
  match m w n with
  | (Ok a, sent) => let '(r, sent') := f a w (n + length sent)%nat in (r, sent ++ sent')
  | (Err e, sent) => (Err e, sent)
  end.

Declare Scope cloud_scope.
Delimit Scope cloud_scope with cloud.
Notation "'do' x <- m ; f" := (hbind m (fun x => f)) (at level 200, x pattern, m at level 100, f at level 200) : cloud_scope.
Open Scope cloud_scope.

Definition cloud (msg : str) : Error := Cloud msg.

Definition ok_or {A} (o : option A) (e : Error) : H A := match o with Some a => hret a | None => hfail e end.

Definition of_outcome {A} (r : result A Error) : H A := match r with Ok a => hret a | Err e => hfail e end.

Definition send (what : string) (path : string) (extra : list (string * bytes)) (b : Body) : H Answer := fun w n =>
  let r := MkHttpRequest (BASE ++ lit path) (common ++ extra) b in
  match w n with
  | NoAnswer e => (Err (cloud (lit what ++ lit ": " ++ e)), [r])
  | a => (Ok a, [r])
  end.

(** Bundles by UID, each with the expiry its claims state. *)
Abbreviation Cache := (gmap bytes (Sigv3Bundle * Z)).

Section service.
Context `{J : Json} `{Sh : Sha256}.

(** [short]: the text, cut to 2000 characters. *)
Definition short (v : Value) : str :=
  let s := to_string v in
  let truncated := take SHORT_MAX_CHARS s in
  if byte_len truncated <? byte_len s then truncated ++ [0x2026] else s.

Definition http_error (status what : str) : Error := cloud (lit "HTTP " ++ status ++ lit ": " ++ what).

Fixpoint read_body (status : str) (buf : bytes) (chunks : list Chunk) : result bytes Error :=
  match chunks with
  | [] => Ok buf
  | Broken e :: _ => Err (cloud (lit "reading response: " ++ e))
  | Data chunk :: chunks =>
      if MAX_RESP_BYTES <? len buf + len chunk then Err (http_error status (lit "response exceeded cap"))
      else read_body status (buf ++ chunk) chunks
  end.

Definition json (a : Answer) : result Value Error :=
  match a with
  | NoAnswer e => Err (cloud e)
  | Response status content_length chunks =>
      if match content_length with Some n => MAX_RESP_BYTES <? n | None => false end
      then Err (http_error status (lit "response too large"))
      else
        let? buf := read_body status [] chunks in
        match from_json buf with
        | Some v => Ok v
        | None => Err (http_error status (lit "non-JSON body (" ++ show_uint (len buf) ++ lit " bytes)"))
        end
  end.

(** ** Grants *)

Definition str_of (k : string) (v : Value) : option bytes := get k v ≫= as_str.

Definition has_token (o : Value) : bool :=
  bool_decide (is_Some (str_of "access_token" o)) || bool_decide (is_Some (str_of "refresh_token" o)).

Definition oauth_error (v : Value) : Error :=
  let code_at o := get "error" o ≫= get "code" in
  let code := match code_at v with Some c => Some c | None => get "data" v ≫= code_at end in
  if bool_decide (code ≫= as_i64 = Some 8208) then
    cloud (lit "Reolink account requires login verification (MFA) for this login " ++ [0x2014]
           ++ lit " two-step verification, or a risk-based check on an unfamiliar device/IP (it fires from a new or "
           ++ lit "datacenter IP even with two-step verification off). Run `bairelay cloud-authorise -c <config>` once on this "
           ++ lit "host to clear it (it stores a reusable trust/refresh token so later connects skip MFA); re-run it if the "
           ++ lit "stored token has expired. Or unbind the camera and use a local login. Server said: " ++ short v)
  else cloud (lit "oauth failed: " ++ short v).

Definition oauth (form : list (string * bytes)) : H Value :=
  do a <- send "oauth request" "/v1.0/oauth2/token/" [] (Form form);
  do v <- of_outcome (json a);
  if has_token v || match get "data" v with Some d => has_token d | None => false end then hret v
  else hfail (oauth_error v).

Definition password_form (account password : bytes) (mfa_trust_token : option bytes) : list (string * bytes) :=
  [("client_id"%string, CLIENT_ID); ("grant_type"%string, lit "password"); ("username"%string, account);
   ("password"%string, password)]
  ++ match mfa_trust_token with
     | Some token => [("session_mode"%string, lit "true"); ("mfa_trusted"%string, lit "true"); ("mfa_trust_token"%string, token)]
     | None => []
     end.

Definition session_form (refresh : bytes) : list (string * bytes) :=
  [("refresh_token"%string, refresh); ("client_id"%string, CLIENT_ID); ("grant_session_code"%string, lit "true");
   ("grant_type"%string, lit "refresh_token")].

(** ** The proof of work *)

Record PowChallenge := MkPowChallenge { pow_id : bytes; prefix : bytes; charset : str; difficulties : list Z }.

Definition pow_challenge (v : Value) : option PowChallenge :=
  err ← get "error" v;
  code ← get "code" err ≫= as_u64;
  if negb (code =? 8214) then None else
  ch ← get "metadata" err ≫= get "challenge";
  data ← get "data" ch;
  i ← str_of "id" ch;
  r ← str_of "r" data;
  c ← str_of "c" data;
  p ← get "p" data;
  match p with
  | Array l => Some (MkPowChallenge i r (chars c) (map (wrap 32) (omap (fun p => get "d" p ≫= as_u64) l)))
  | _ => None
  end.

Fixpoint leading_zero_bits (l : bytes) : Z :=
  match l with
  | [] => 0
  | b :: l => if b =? 0 then 8 + leading_zero_bits l else 7 - Z.log2 b
  end.

(** [checked_shr(5 * k)] of a [u64]: nothing is left from 64 on. *)
Definition nonce_char (cs : str) (i : Z) (k : nat) : Z :=
  let shift := 5 * Z.of_nat k in
  let d := if shift <? 64 then Z.shiftr i shift else 0 in
  nth (Z.to_nat (d mod len cs)) cs 0.

Definition nonce (cs : str) (i : Z) : str := map (nonce_char cs i) (seq 0 32).

Definition solves (ch : PowChallenge) (target i : Z) : bool :=
  target <=? leading_zero_bits (sha256 (prefix ch ++ as_bytes (nonce (charset ch) i))).

(** The first counter from [i] on that solves it, of [tries]. *)
Fixpoint search (ch : PowChallenge) (target i : Z) (tries : nat) : option Z :=
  match tries with
  | O => None
  | S tries => if solves ch target i then Some i else search ch target (i + 1) tries
  end.

Definition GIVE_UP : Z := 100000000.

Definition solve_pow (ch : PowChallenge) : result bytes Error :=
  match charset ch with
  | [] => Err (cloud (lit "PoW challenge had empty charset"))
  | cs =>
      let target := match difficulties ch with d :: _ => d | [] => 0 end in
      match search ch target 0 (S (Z.to_nat GIVE_UP)) with
      | Some i => Ok (lit "type=pow/1;id=" ++ pow_id ch ++ lit ";token=" ++ as_bytes (nonce cs i))
      | None => Err (cloud (lit "PoW giveup at difficulty " ++ show_uint target))
      end
  end.

(** ** Bundles *)

(** [replace] of a line end of two characters by one. *)
Fixpoint replace_crlf (s : bytes) : bytes :=
  match s with
  | 13 :: ((10 :: _) as t) => replace_crlf t
  | c :: s => c :: replace_crlf s
  | [] => []
  end.

Definition missing {A} (o : option A) (what : str) : result A Error := match o with Some a => Ok a | None => Err (cloud what) end.

Definition bundle_of (resp : Value) : result Sigv3Bundle Error :=
  let data := match get "data" resp with Some d => if is_object d then d else resp | None => resp end in
  match get "token" data with
  | Some token =>
      if is_object token then
        let field k := missing (str_of k token) (lit "token missing field '" ++ lit k ++ lit "'") in
        let? cert_chain := missing (str_of "certChain" data) (lit "access-authorization had no certChain") in
        let? p := field "p"%string in
        let? s := field "s"%string in
        let? k := field "k"%string in
        Ok (MkSigv3Bundle p s k (replace_crlf cert_chain))
      else Err (cloud (lit "access-authorization had no token: " ++ short resp))
  | None => Err (cloud (lit "access-authorization had no token: " ++ short resp))
  end.

Definition parse_bundle (resp : Value) : result Sigv3Bundle Error :=
  match get "error" resp with
  | Some err => if is_null err then bundle_of resp else Err (cloud (lit "access-authorization error: " ++ short err))
  | None => bundle_of resp
  end.

Definition access_authorization (bearer : bytes) (b : Value) (challenge : option bytes) : H Value :=
  do a <- send "access-authorization request" "/v2/devices/access-authorization"
            (("authorization"%string, lit "Bearer " ++ bearer)
             :: match challenge with Some c => [("X-Api-Challenge"%string, c)] | None => [] end) (JsonBody b);
  of_outcome (json a).

Definition device_body (uid : bytes) : Value :=
  Object [(lit "uid", JString uid); (lit "protocol", Int 3); (lit "certChain", Bool true)].

Definition mint_uncached (account password uid : bytes) (mfa_trust_token refresh_token : option bytes) : H Sigv3Bundle :=
  do refresh <-
    match refresh_token with
    | Some rt => hret rt
    | None =>
        do tok <- oauth (password_form account password mfa_trust_token);
        ok_or (str_of "refresh_token" tok) (cloud (lit "login returned no refresh_token (bad account/password?)"))
    end;
  do session <- oauth (session_form refresh);
  do bearer <- ok_or (str_of "access_token" session) (cloud (lit "session grant returned no access_token"));
  do resp <- access_authorization bearer (device_body uid) None;
  do resp <-
    match pow_challenge resp with
    | Some challenge =>
        do header <- of_outcome (solve_pow challenge);
        access_authorization bearer (device_body uid) (Some header)
    | None => hret resp
    end;
  of_outcome (parse_bundle resp).

(** ** The cache *)

Definition token_exp (token_p : bytes) : option Z := v ← from_json token_p; e ← get "exp" v; as_i64 e.

(** The cached bundle of [uid] that outlives [now] by the margin. *)
Definition cached_bundle (cache : Cache) (uid : bytes) (now : Z) : option Sigv3Bundle :=
  match cache !! uid with
  | Some (bundle, exp) => if now <? wrap_i64 (exp - CACHE_MARGIN_SECS) then Some bundle else None
  | None => None
  end.

Definition remember (cache : Cache) (uid : bytes) (bundle : Sigv3Bundle) : Cache :=
  match token_exp (Login.token_p bundle) with Some exp => <[uid := (bundle, exp)]> cache | None => cache end.

Definition mint_bundle (cache : Cache) (now : Z) (account password uid : bytes) (mfa_trust_token refresh_token : option bytes)
    (w : nat -> Answer) : result Sigv3Bundle Error * list HttpRequest * Cache :=
  match cached_bundle cache uid now with
  | Some bundle => (Ok bundle, [], cache)
  | None =>
      let '(r, sent) := mint_uncached account password uid mfa_trust_token refresh_token w 0%nat in
      (r, sent, match r with Ok bundle => remember cache uid bundle | Err _ => cache end)
  end.

(** The service as [Login] uses it, at an instant, with a cache and under given
    answers. *)
Definition cloud_service (cache : Cache) (now : Z) (w : nat -> Answer) : CloudService :=
  {| Login.mint_bundle account password uid mfa refresh := fst (fst (mint_bundle cache now account password uid mfa refresh w)) |}.

(** ** Verification, once per host *)

Definition MFA_LOGIN_SCENARIO : bytes := lit "users.login_with_password".

Record CloudAuth := MkCloudAuth {
  auth_account : bytes; auth_trust : option bytes; auth_refresh : option bytes; expiry_unix_s : Z
}.

Definition data_str (v : Value) (key : string) : option bytes :=
  match str_of key v with Some s => Some s | None => get "data" v ≫= str_of key end.

Definition mfa_create_code (method account : bytes) : H bytes :=
  let data := if bool_decide (method = lit "email") then Object [(lit "emailAddress", JString account)]
              else Object [(lit "account", JString (lit "email:" ++ account))] in
  do a <- send "mfa/codes request" "/v2/auth/mfa/codes" []
            (JsonBody (Object [(lit "clientId", JString CLIENT_ID); (lit "scenario", JString MFA_LOGIN_SCENARIO);
                               (lit "method", JString method); (lit "data", data)]));
  do v <- of_outcome (json a);
  ok_or (data_str v "id") (cloud (lit "mfa/codes returned no id: " ++ short v)).

Definition mfa_create_session (id code : bytes) : H (bytes * bytes) :=
  do a <- send "mfa/sessions request" "/v2/auth/mfa/sessions" []
            (JsonBody (Object [(lit "id", JString id); (lit "code", JString code)]));
  do v <- of_outcome (json a);
  do sid <- ok_or (data_str v "id") (cloud (lit "mfa/sessions returned no id: " ++ short v));
  do scode <- ok_or (data_str v "code") (cloud (lit "mfa/sessions returned no code: " ++ short v));
  hret (sid, scode).

Definition verified_form (account password : bytes) : list (string * bytes) :=
  [("client_id"%string, CLIENT_ID); ("grant_type"%string, lit "password"); ("username"%string, account);
   ("password"%string, password); ("session_mode"%string, lit "true"); ("mfa_trusted"%string, lit "true")].

(** Milliseconds since 1970 of the trust token, else the lifetime of the refresh
    token, else 29 days. *)
Definition expiry (now : Z) (v : Value) : Z :=
  let otherwise :=
    match get "refresh_token_expires_in" v ≫= as_i64 with
    | Some secs => if 0 <? secs then wrap_i64 (now + secs) else now + 29 * 86400
    | None => now + 29 * 86400
    end in
  match get "mfa_trust_token_expires_in" v ≫= as_i64 with
  | Some ms => if 1000000000000 <? ms then ms / 1000 else otherwise
  | None => otherwise
  end.

Definition mfa_verified_login (now : Z) (account password verify_id verify_code : bytes) : H CloudAuth :=
  do a <- send "verified-login request" "/v1.0/oauth2/token/"
            [("x-verify-scenario"%string, MFA_LOGIN_SCENARIO); ("x-verify-id"%string, verify_id);
             ("x-verify-code"%string, verify_code)] (Form (verified_form account password));
  do v <- of_outcome (json a);
  match str_of "mfa_trust_token" v, str_of "refresh_token" v with
  | None, None => hfail (cloud (lit "verified login returned neither mfa_trust_token nor refresh_token: " ++ short v))
  | trust, refresh => hret (MkCloudAuth account trust refresh (expiry now v))
  end.

(** [get_code]: what the operator enters, once the code has been asked for. *)
Definition mfa_bootstrap (now : Z) (account password method : bytes) (get_code : bytes -> bytes) : H CloudAuth :=
  do id <- mfa_create_code method account;
  let code := as_bytes (trim (chars (get_code method))) in
  match code with
  | [] => hfail (cloud (lit "no verification code provided"))
  | code =>
      do (sid, scode) <- mfa_create_session id code;
      mfa_verified_login now account password sid scode
  end.
End service.

(** ** Running a program *)

Lemma hbind_ok {A B} (m : H A) (f : A -> H B) w n b sent :
  hbind m f w n = (Ok b, sent) ->
  exists a s1 s2, m w n = (Ok a, s1) /\ f a w (n + length s1)%nat = (Ok b, s2) /\ sent = s1 ++ s2.
Proof.
  unfold hbind. destruct (m w n) as [[a|e] s1]; [|done]. destruct (f a w _) as [r s2] eqn:E. intros [= -> <-].
  by exists a, s1, s2.
Qed.

(** Everything sent satisfies [P] when what the parts send does. *)
Lemma hbind_sent {A B} (P : HttpRequest -> Prop) (m : H A) (f : A -> H B) w n :
  Forall P (snd (m w n)) -> (forall a s1, m w n = (Ok a, s1) -> Forall P (snd (f a w (n + length s1)%nat))) ->
  Forall P (snd (hbind m f w n)).
Proof.
  intros Hm Hf. unfold hbind. destruct (m w n) as [[a|e] s1]; [|done]. specialize (Hf a s1 eq_refl).
  destruct (f a w _) as [r s2]. cbn in *. by apply Forall_app.
Qed.

Lemma hbind_length {A B} (m : H A) (f : A -> H B) w n k l :
  (length (snd (m w n)) <= k)%nat -> (forall a s1, m w n = (Ok a, s1) -> (length (snd (f a w (n + length s1)%nat)) <= l)%nat) ->
  (length (snd (hbind m f w n)) <= k + l)%nat.
Proof.
  intros Hm Hf. unfold hbind. destruct (m w n) as [[a|e] s1]; cbn [snd] in *; [|lia]. specialize (Hf a s1 eq_refl).
  destruct (f a w _) as [r s2]. cbn [snd] in *. rewrite length_app. lia.
Qed.

Section minting.
Context `{J : Json} `{Sh : Sha256}.

Definition oauth_request (form : list (string * bytes)) : HttpRequest :=
  MkHttpRequest (BASE ++ lit "/v1.0/oauth2/token/") (common ++ []) (Form form).

Definition access_request (bearer uid : bytes) (challenge : option bytes) : HttpRequest :=
  MkHttpRequest (BASE ++ lit "/v2/devices/access-authorization")
    (common ++ ("authorization"%string, lit "Bearer " ++ bearer)
               :: match challenge with Some c => [("X-Api-Challenge"%string, c)] | None => [] end)
    (JsonBody (device_body uid)).

Lemma of_outcome_ok {A} (r : result A Error) w n a sent : of_outcome r w n = (Ok a, sent) -> r = Ok a /\ sent = [].
Proof. destruct r; [|done]. by intros [= -> <-]. Qed.

Lemma ok_or_ok {A} (o : option A) e w n a sent : ok_or o e w n = (Ok a, sent) -> o = Some a /\ sent = [].
Proof. destruct o; [|done]. by intros [= -> <-]. Qed.

Lemma send_ok what path extra b w n a sent : send what path extra b w n = (Ok a, sent) ->
  a = w n /\ sent = [MkHttpRequest (BASE ++ lit path) (common ++ extra) b].
Proof. unfold send. destruct (w n); [done|]. by intros [= <- <-]. Qed.

Lemma oauth_ok form w n v sent : oauth form w n = (Ok v, sent) -> json (w n) = Ok v /\ sent = [oauth_request form].
Proof.
  intros E. apply hbind_ok in E as (a & s1 & s2 & Ha & E & ->). apply send_ok in Ha as [-> ->].
  apply hbind_ok in E as (v' & s3 & s4 & Hv & E & ->). apply of_outcome_ok in Hv as [Hv ->].
  destruct (_ || _); [|done]. by injection E as <- <-.
Qed.

Lemma access_ok bearer uid challenge w n v sent :
  access_authorization bearer (device_body uid) challenge w n = (Ok v, sent) ->
  json (w n) = Ok v /\ sent = [access_request bearer uid challenge].
Proof.
  intros E. apply hbind_ok in E as (a & s1 & s2 & Ha & E & ->). apply send_ok in Ha as [-> ->].
  by apply of_outcome_ok in E as [E ->].
Qed.

Lemma oauth_sent form w n : snd (oauth form w n) = [oauth_request form].
Proof.
  unfold oauth, hbind, send. destruct (w n); [done|]. cbn [fst snd]. destruct (json _); [|done]. cbn.
  by destruct (_ || _).
Qed.

Lemma access_sent bearer uid challenge w n :
  snd (access_authorization bearer (device_body uid) challenge w n) = [access_request bearer uid challenge].
Proof. unfold access_authorization, hbind, send. destruct (w n); [done|]. cbn [fst snd]. by destruct (json _). Qed.

(** What the service said at request [n] under a name. *)
Definition told (w : nat -> Answer) (n : nat) (k : string) (s : bytes) : Prop :=
  exists v, json (w n) = Ok v /\ str_of k v = Some s.

(** C39: A bundle is what the service's last answer holds, and it was asked as the
    protocol says: for a session under the stored refresh token or, when there is
    none, the one the password grant returned, then for access under the session's
    token, and once more with a solution when the answer was a challenge. *)
Theorem bundle_minted account password uid trust refresh_token w b sent :
  mint_uncached account password uid trust refresh_token w 0%nat = (Ok b, sent) ->
  exists grants refresh bearer first rest,
    sent = grants ++ oauth_request (session_form refresh) :: access_request bearer uid None :: rest
    /\ (refresh_token = Some refresh /\ grants = []
        \/ refresh_token = None /\ grants = [oauth_request (password_form account password trust)]
           /\ told w 0 "refresh_token" refresh)
    /\ let n := length grants in
       told w n "access_token" bearer
       /\ json (w (n + 1)%nat) = Ok first
       /\ match pow_challenge first with
          | None => rest = [] /\ parse_bundle first = Ok b
          | Some challenge => exists header last,
              solve_pow challenge = Ok header /\ rest = [access_request bearer uid (Some header)]
              /\ json (w (n + 2)%nat) = Ok last /\ parse_bundle last = Ok b
          end.
Proof.
  intros E. unfold mint_uncached in E. apply hbind_ok in E as (refresh & grants & s2 & Hr & E & ->).
  apply hbind_ok in E as (session & s3 & s4 & Hs & E & ->). apply oauth_ok in Hs as [Hs ->].
  apply hbind_ok in E as (bearer & s5 & s6 & Hb & E & ->). apply ok_or_ok in Hb as [Hb ->].
  apply hbind_ok in E as (first & s7 & s8 & Hf & E & ->). apply access_ok in Hf as [Hf ->].
  apply hbind_ok in E as (last & rest & s10 & Hl & E & ->). apply of_outcome_ok in E as [E ->].
  rewrite app_nil_r. cbn [length app] in *. rewrite !Nat.add_0_r in *.
  exists grants, refresh, bearer, first, rest. split; [done|]. split.
  - destruct refresh_token as [rt|]; [left; by injection Hr as <- <-|right].
    apply hbind_ok in Hr as (tok & t1 & t2 & Ht & Hr & ->). apply oauth_ok in Ht as [Ht ->].
    apply ok_or_ok in Hr as [Hr ->]. split; [done|]. split; [done|]. by exists tok.
  - split; [by exists session|]. split; [done|]. destruct (pow_challenge first) as [ch|].
    + apply hbind_ok in Hl as (header & t1 & t2 & Hh & Hl & ->). apply of_outcome_ok in Hh as [Hh ->].
      apply access_ok in Hl as [Hl ->]. exists header, last. split; [done|]. split; [done|]. split; [|done].
      rewrite <- Hl. f_equal. f_equal. cbn [length]. lia.
    + by injection Hl as <- <-.
Qed.

Lemma of_outcome_sent {A} (r : result A Error) w n : snd (of_outcome r w n) = [].
Proof. by destruct r. Qed.

Lemma ok_or_sent {A} (o : option A) e w n : snd (ok_or o e w n) = [].
Proof. by destruct o. Qed.

Section disclosure.
Context (account password uid : bytes) (trust refresh_token : option bytes) (w : nat -> Answer).

(** What may leave: the credentials in a password grant when there is no stored
    token; a refresh token that is stored or was told; an access token that was
    told. *)
Definition allowed (q : HttpRequest) : Prop :=
  refresh_token = None /\ q = oauth_request (password_form account password trust)
  \/ (exists rt, (refresh_token = Some rt \/ refresh_token = None /\ told w 0 "refresh_token" rt) /\ q = oauth_request (session_form rt))
  \/ exists n bearer challenge, told w n "access_token" bearer /\ q = access_request bearer uid challenge.

(** However the service answers and whether or not a bundle comes of it, nothing
    else is sent, and at most four requests are. *)
Theorem mint_discloses :
  let sent := snd (mint_uncached account password uid trust refresh_token w 0%nat) in
  Forall allowed sent /\ (length sent <= 4)%nat.
Proof.
  cbv zeta. split.
  - unfold mint_uncached. apply hbind_sent.
    { destruct refresh_token as [rt|] eqn:E; [constructor|]. apply hbind_sent.
      - rewrite oauth_sent. constructor; [|constructor]. by left.
      - intros tok s1 _. rewrite ok_or_sent. constructor. }
    intros refresh s1 Hr. apply hbind_sent.
    { rewrite oauth_sent. constructor; [|constructor]. right. left. exists refresh. split; [|done].
      destruct refresh_token as [rt|]; [left; by injection Hr as <- _|right; split; [done|]].
      apply hbind_ok in Hr as (tok & t1 & t2 & Ht & Hr & _). apply oauth_ok in Ht as [Ht ->].
      apply ok_or_ok in Hr as [Hr _]. by exists tok. }
    intros session s2 Hs. apply oauth_ok in Hs as [Hs ->]. apply hbind_sent; [rewrite ok_or_sent; constructor|].
    intros bearer s3 Hb. apply ok_or_ok in Hb as [Hb ->].
    assert (forall ch, allowed (access_request bearer uid ch)) as Ha.
    { intros ch. right. right. exists (0 + length s1)%nat, bearer, ch. split; [by exists session|done]. }
    apply hbind_sent; [rewrite access_sent; constructor; [apply Ha|constructor]|].
    intros first s4 _. apply hbind_sent.
    + destruct (pow_challenge first) as [ch|]; [|constructor]. apply hbind_sent; [rewrite of_outcome_sent; constructor|].
      intros header s5 _. rewrite access_sent. constructor; [apply Ha|constructor].
    + intros last s5 _. rewrite of_outcome_sent. constructor.
  - unfold mint_uncached. apply (hbind_length _ _ _ _ 1 3).
    { destruct refresh_token; [cbn; lia|]. apply (hbind_length _ _ _ _ 1 0); [by rewrite oauth_sent|].
      intros. by rewrite ok_or_sent. }
    intros. apply (hbind_length _ _ _ _ 1 2); [by rewrite oauth_sent|]. intros.
    apply (hbind_length _ _ _ _ 0 2); [by rewrite ok_or_sent|]. intros.
    apply (hbind_length _ _ _ _ 1 1); [by rewrite access_sent|]. intros first s4 _.
    apply (hbind_length _ _ _ _ 1 0); [|intros; by rewrite of_outcome_sent].
    destruct (pow_challenge first); [|cbn; lia]. apply (hbind_length _ _ _ _ 0 1); [by rewrite of_outcome_sent|].
    intros. by rewrite access_sent.
Qed.
End disclosure.
End minting.

(** ** The proof of work *)

Section pow.
Context `{Sh : Sha256}.

Lemma search_some ch target i tries j :
  search ch target i tries = Some j <->
  i <= j < i + Z.of_nat tries /\ solves ch target j = true /\ forall k, i <= k < j -> solves ch target k = false.
Proof.
  revert i. induction tries as [|tries IH]; intros i; cbn [search]; [split; [done|lia]|].
  destruct (solves ch target i) eqn:E.
  - split; [intros [= <-]; split; [lia|]; split; [done|intros; lia]|].
    intros (Hj & Hs & Hf). f_equal. destruct (Z.eq_dec i j) as [|Hne]; [done|]. rewrite (Hf i) in E by lia. done.
  - rewrite IH. split; intros (Hj & Hs & Hf); (split; [|split; [done|]]).
    + lia.
    + intros k Hk. destruct (Z.eq_dec k i) as [->|]; [done|]. apply Hf. lia.
    + destruct (Z.eq_dec i j) as [->|]; [congruence|lia].
    + intros k Hk. apply Hf. lia.
Qed.

Lemma search_none ch target i tries :
  search ch target i tries = None <-> forall k, i <= k < i + Z.of_nat tries -> solves ch target k = false.
Proof.
  revert i. induction tries as [|tries IH]; intros i; cbn [search]; [split; [lia|done]|].
  destruct (solves ch target i) eqn:E; [split; [done|]; intros Hf; rewrite Hf in E by lia; done|].
  rewrite IH. split; intros Hf k Hk.
  - destruct (Z.eq_dec k i) as [->|]; [done|]. apply Hf. lia.
  - apply Hf. lia.
Qed.

Lemma nth_nodup (l : str) a b : NoDup l -> (a < length l)%nat -> (b < length l)%nat -> nth a l 0 = nth b l 0 -> a = b.
Proof. intros Hn Ha Hb E. apply NoDup_ListNoDup in Hn. by apply (proj1 (NoDup_nth l 0) Hn a b). Qed.

Lemma nonce_digit cs i j k :
  NoDup cs -> cs <> [] -> (k <= 12)%nat -> nonce cs i = nonce cs j ->
  Z.shiftr i (5 * Z.of_nat k) mod len cs = Z.shiftr j (5 * Z.of_nat k) mod len cs.
Proof.
  intros Hn Hne Hk E. assert (0 < len cs) as Hl by (destruct cs; [done|unfold len; cbn [length]; lia]).
  assert (nonce_char cs i k = nonce_char cs j k) as Ec.
  { unfold nonce in E. apply (f_equal (fun l => nth_error l k)) in E. rewrite !nth_error_map in E.
    assert (nth_error (seq 0 32) k = Some k) as Es; [|by rewrite Es in E; injection E].
    do 13 (destruct k as [|k]; [done|]). lia. }
  unfold nonce_char in Ec. rewrite (proj2 (Z.ltb_lt _ _)) in Ec by lia.
  apply nth_nodup in Ec; [|done| |]; try (unfold len in *; pose proof (Z.mod_pos_bound (Z.shiftr i (5 * Z.of_nat k)) (Z.of_nat (length cs)));
    pose proof (Z.mod_pos_bound (Z.shiftr j (5 * Z.of_nat k)) (Z.of_nat (length cs))); lia).
Qed.

(** Over at least 32 distinct characters no nonce is tried twice. *)
Lemma nonces_distinct cs i j :
  NoDup cs -> (32 <= length cs)%nat -> 0 <= i < 2 ^ 64 -> 0 <= j < 2 ^ 64 -> nonce cs i = nonce cs j -> i = j.
Proof.
  intros Hn Hl Hi Hj E. assert (cs <> []) as Hne by (by destruct cs; [cbn in Hl; lia|]).
  assert (forall m k, (m + k = 13)%nat -> Z.shiftr i (5 * Z.of_nat k) = Z.shiftr j (5 * Z.of_nat k)) as Hk.
  { induction m as [|m IH]; intros k Hm.
    - replace k with 13%nat by lia. rewrite !Z.shiftr_div_pow2 by lia. rewrite !Z.div_small; lia.
    - specialize (IH (S k)). rewrite !Z.shiftr_div_pow2 in * by lia.
      pose proof (nonce_digit cs i j k Hn Hne) as Hd. rewrite !Z.shiftr_div_pow2 in Hd by lia. specialize (Hd ltac:(lia) E).
      assert (2 ^ (5 * Z.of_nat (S k)) = 2 ^ (5 * Z.of_nat k) * 32) as Ep.
      { replace (5 * Z.of_nat (S k)) with (5 * Z.of_nat k + 5) by lia. by rewrite Z.pow_add_r by lia. }
      rewrite Ep in IH. rewrite <- !Z.div_div in IH by lia. specialize (IH ltac:(lia)).
      set (a := i / _) in *. set (b := j / _) in *.
      assert (len cs >= 32) as Hc by (unfold len; lia).
      pose proof (Z.div_mod a 32). pose proof (Z.div_mod b 32). pose proof (Z.mod_pos_bound a 32). pose proof (Z.mod_pos_bound b 32).
      assert ((a - b) mod len cs = 0) as Hz by (rewrite Zminus_mod, Hd, Z.sub_diag; apply Z.mod_0_l; lia).
      apply Z.mod_divide in Hz; [|lia]. destruct Hz as [q Hq]. assert (q = 0) as -> by nia. lia. }
  specialize (Hk 13%nat 0%nat ltac:(lia)). by rewrite !Z.shiftr_0_r in Hk.
Qed.

(** C40: A solution is that of the first counter that meets the first difficulty asked
    for, within 100 000 001; the solver gives up exactly when none of them does.
    Over 32 distinct characters or more, all of the nonces it tries differ. *)
Theorem solve_exact ch :
  charset ch <> [] ->
  let target := match difficulties ch with d :: _ => d | [] => 0 end in
  let hash i := sha256 (prefix ch ++ as_bytes (nonce (charset ch) i)) in
  match solve_pow ch with
  | Ok header => exists i, 0 <= i <= GIVE_UP /\ target <= leading_zero_bits (hash i)
      /\ (forall k, 0 <= k < i -> leading_zero_bits (hash k) < target)
      /\ header = lit "type=pow/1;id=" ++ pow_id ch ++ lit ";token=" ++ as_bytes (nonce (charset ch) i)
  | Err _ => forall k, 0 <= k <= GIVE_UP -> leading_zero_bits (hash k) < target
  end
  /\ (NoDup (charset ch) -> (32 <= length (charset ch))%nat ->
      forall i j, 0 <= i <= GIVE_UP -> 0 <= j <= GIVE_UP -> nonce (charset ch) i = nonce (charset ch) j -> i = j).
Proof.
  intros Hne target hash. split.
  - assert (solve_pow ch = match search ch target 0 (S (Z.to_nat GIVE_UP)) with
      | Some i => Ok (lit "type=pow/1;id=" ++ pow_id ch ++ lit ";token=" ++ as_bytes (nonce (charset ch) i))
      | None => Err (cloud (lit "PoW giveup at difficulty " ++ show_uint target)) end) as ->.
    { unfold solve_pow. clear hash. by destruct (charset ch). }
    assert (forall k, solves ch target k = true <-> target <= leading_zero_bits (hash k)) as Hs by (intros k; apply Z.leb_le).
    assert (Z.of_nat (S (Z.to_nat GIVE_UP)) = GIVE_UP + 1) as Hg by (rewrite Nat2Z.inj_succ, Z2Nat.id by done; done).
    generalize dependent (S (Z.to_nat GIVE_UP)). intros tries Hg.
    destruct (search ch target 0 tries) as [i|] eqn:E.
    + apply search_some in E as (Hi & Hi' & Hf). exists i. split; [lia|]. split; [by apply Hs|]. split; [|done].
      intros k Hk. specialize (Hf k Hk). destruct (Z.lt_ge_cases (leading_zero_bits (hash k)) target); [done|].
      apply Hs in H0. congruence.
    + intros k Hk. pose proof (proj1 (search_none _ _ _ _) E k) as Hf. specialize (Hf ltac:(lia)).
      destruct (Z.lt_ge_cases (leading_zero_bits (hash k)) target); [done|]. apply Hs in H0. congruence.
  - intros Hn Hl i j Hi Hj. unfold GIVE_UP in *. apply nonces_distinct; try done; lia.
Qed.
End pow.

(** ** The cache *)

Section caching.
Context `{J : Json} `{Sh : Sha256}.

(** Every cached bundle is under the expiry its own claims state. *)
Definition cache_ok (cache : Cache) : Prop :=
  forall uid b e, cache !! uid = Some (b, e) -> token_exp (Login.token_p b) = Some e.

Lemma remember_ok cache uid b : cache_ok cache -> cache_ok (remember cache uid b).
Proof.
  intros Hc. unfold remember. destruct (token_exp _) as [e|] eqn:E; [|done].
  intros u b' e' Hu. apply lookup_insert_Some in Hu as [[<- [= <- <-]]|[_ Hu]]; [done|by eapply Hc].
Qed.

(** A bundle that was handed out and states when it expires is handed out again
    for that camera, without a request, as long as it outlives the instant by two
    minutes, whatever was minted for other cameras meanwhile, and never later. *)
Theorem bundle_reused cache now account password uid trust refresh w b sent cache' e :
  cache_ok cache -> mint_bundle cache now account password uid trust refresh w = (Ok b, sent, cache') ->
  token_exp (Login.token_p b) = Some e -> - 2 ^ 63 <= e - CACHE_MARGIN_SECS < 2 ^ 63 ->
  cache_ok cache' /\
  forall later now', later !! uid = cache' !! uid ->
    cached_bundle later uid now' = if now' <? e - CACHE_MARGIN_SECS then Some b else None.
Proof.
  intros Hc Hm He Hr. assert (wrap_i64 (e - CACHE_MARGIN_SECS) = e - CACHE_MARGIN_SECS) as Hw.
  { unfold wrap_i64, wrap. rewrite Z.mod_small by lia. lia. }
  enough (cache_ok cache' /\ cache' !! uid = Some (b, e)) as [H1 H2].
  { split; [done|]. intros later now' E. unfold cached_bundle. by rewrite E, H2, Hw. }
  unfold mint_bundle in Hm. destruct (cached_bundle cache uid now) as [b'|] eqn:Eb.
  - injection Hm as -> <- <-. split; [done|]. unfold cached_bundle in Eb.
    destruct (cache !! uid) as [[b' e']|] eqn:Eu; [|done]. destruct (_ <? _); [|done]. injection Eb as ->.
    pose proof (Hc _ _ _ Eu). congruence.
  - destruct (mint_uncached _ _ _ _ _ _ _) as [[b'|] s]; [|done]. injection Hm as -> <- <-.
    split; [by apply remember_ok|]. unfold remember. by rewrite He, lookup_insert_eq.
Qed.
End caching.

(** ** Verification *)

Section verification.
Context `{J : Json} `{Sh : Sha256}.

Definition code_request (method account : bytes) : HttpRequest :=
  MkHttpRequest (BASE ++ lit "/v2/auth/mfa/codes") (common ++ [])
    (JsonBody (Object [(lit "clientId", JString CLIENT_ID); (lit "scenario", JString MFA_LOGIN_SCENARIO);
       (lit "method", JString method);
       (lit "data", if bool_decide (method = lit "email") then Object [(lit "emailAddress", JString account)]
                    else Object [(lit "account", JString (lit "email:" ++ account))])])).

Definition session_request (id code : bytes) : HttpRequest :=
  MkHttpRequest (BASE ++ lit "/v2/auth/mfa/sessions") (common ++ [])
    (JsonBody (Object [(lit "id", JString id); (lit "code", JString code)])).

Definition verified_request (account password sid scode : bytes) : HttpRequest :=
  MkHttpRequest (BASE ++ lit "/v1.0/oauth2/token/")
    (common ++ [("x-verify-scenario"%string, MFA_LOGIN_SCENARIO); ("x-verify-id"%string, sid); ("x-verify-code"%string, scode)])
    (Form (verified_form account password)).

(** The verification makes three requests, each with what the answer before it
    told, the second with what the operator entered; the password is in the third
    only, and the credential is what the service answered to that. *)
Theorem verification_chain now account password method get_code w auth sent :
  mfa_bootstrap now account password method get_code w 0%nat = (Ok auth, sent) ->
  exists v0 v1 v2 id sid scode,
    let code := as_bytes (trim (chars (get_code method))) in
    json (w 0%nat) = Ok v0 /\ data_str v0 "id" = Some id /\ code <> []
    /\ json (w 1%nat) = Ok v1 /\ data_str v1 "id" = Some sid /\ data_str v1 "code" = Some scode
    /\ json (w 2%nat) = Ok v2
    /\ sent = [code_request method account; session_request id code; verified_request account password sid scode]
    /\ auth = MkCloudAuth account (str_of "mfa_trust_token" v2) (str_of "refresh_token" v2) (expiry now v2)
    /\ (auth_trust auth <> None \/ auth_refresh auth <> None).
Proof.
  intros E. unfold mfa_bootstrap in E. apply hbind_ok in E as (id & s1 & s2 & H1 & E & ->).
  destruct (as_bytes (trim (chars (get_code method)))) as [|c cs] eqn:Ec; [done|]. rewrite <- Ec in *.
  apply hbind_ok in H1 as (a & t1 & t2 & Ha & H1 & ->). apply send_ok in Ha as [-> ->].
  apply hbind_ok in H1 as (v0 & t3 & t4 & Hv & H1 & ->). apply of_outcome_ok in Hv as [Hv0 ->].
  apply ok_or_ok in H1 as [Hid ->].
  apply hbind_ok in E as ([sid scode] & t5 & t6 & H2 & E & ->).
  apply hbind_ok in H2 as (a & t7 & t8 & Ha & H2 & ->). apply send_ok in Ha as [-> ->].
  apply hbind_ok in H2 as (v1 & t9 & t10 & Hv & H2 & ->). apply of_outcome_ok in Hv as [Hv1 ->].
  apply hbind_ok in H2 as (x & u1 & u2 & Hx & H2 & ->). apply ok_or_ok in Hx as [Hx ->].
  apply hbind_ok in H2 as (y & u3 & u4 & Hy & H2 & ->). apply ok_or_ok in Hy as [Hy ->].
  injection H2 as -> -> <-.
  apply hbind_ok in E as (a & u5 & u6 & Ha & E & ->). apply send_ok in Ha as [-> ->].
  apply hbind_ok in E as (v2 & u7 & u8 & Hv & E & ->). apply of_outcome_ok in Hv as [Hv2 ->].
  exists v0, v1, v2, id, sid, scode. cbv zeta. rewrite Ec in *. cbn [app length Nat.add] in *.
  destruct (str_of "mfa_trust_token" v2) as [t|] eqn:Et, (str_of "refresh_token" v2) as [r|] eqn:Er; try done;
    injection E as <- <-; split_and!; try done; cbn; auto.
Qed.
End verification.

(** ** At concrete inputs *)

Definition alphabet : str := lit "0123456789abcdefghijklmnopqrstuvwxyz".

Definition asked_for_work : Value :=
  Object [(lit "error", Object [(lit "code", Int 8214); (lit "metadata", Object [(lit "challenge",
    Object [(lit "id", JString (lit "C1")); (lit "data",
      Object [(lit "r", JString (lit "seed")); (lit "c", JString alphabet); (lit "p", Array [Object [(lit "d", Int 8)]])])])])])].

(** A service that answers names of documents, and a hash that is zero. *)
#[local] Instance toy_json : Json := {|
  from_json b :=
    snd <$> List.find (fun x => bool_decide (lit (fst x) = b))
      [("grant"%string, Object [(lit "refresh_token", JString (lit "R"))]);
       ("session"%string, Object [(lit "access_token", JString (lit "B"))]);
       ("nested"%string, Object [(lit "data", Object [(lit "refresh_token", JString (lit "R"))])]);
       ("work"%string, asked_for_work);
       ("bundle"%string, Object [(lit "token", Object [(lit "p", JString (lit "claims")); (lit "s", JString (lit "S"));
                                                     (lit "k", JString (lit "K"))]); (lit "certChain", JString [65; 13; 10; 66])]);
       ("claims"%string, Object [(lit "exp", Int 1000)])];
  to_string _ := lit "{}" |}.

#[local] Instance toy_sha : Sha256 := {| sha256 _ := replicate 32 0 |}.

Definition answering (docs : list string) (n : nat) : Answer := Response (lit "200 OK") None [Data (lit (nth n docs EmptyString))].

Definition toy_cloud_bundle : Sigv3Bundle := MkSigv3Bundle (lit "claims") (lit "S") (lit "K") [65; 10; 66].

Definition minted (refresh : option bytes) (docs : list string) : result Sigv3Bundle Error * list HttpRequest :=
  mint_uncached (lit "me@example.org") (lit "pw") (lit "UID") None refresh (answering docs) 0%nat.

Lemma stored_mint :
  minted (Some (lit "R0")) ["session"%string; "bundle"%string]
  = (Ok toy_cloud_bundle, [oauth_request (session_form (lit "R0")); access_request (lit "B") (lit "UID") None]).
Proof. vm_compute. reflexivity. Qed.

Lemma bundle_minted_witness : told (answering ["session"%string; "bundle"%string]) 0 "access_token" (lit "B").
Proof.
  destruct (bundle_minted (lit "me@example.org") (lit "pw") (lit "UID") None (Some (lit "R0"))
              (answering ["session"%string; "bundle"%string]) toy_cloud_bundle _ stored_mint)
    as (grants & refresh & bearer & first & rest & E & [[_ ->]|[H _]] & Ht & _); [|discriminate H].
  injection E as _ Hb _. cbn [length app] in Ht. destruct Ht as (v & Hv & Hs). exists v. split; [exact Hv|].
  assert (bearer = lit "B") as <-; [|exact Hs]. congruence.
Defined.

(** A password grant whose tokens come inside [data] passes the check for tokens
    and is then refused as if the password were wrong. *)
Example nested_refused :
  minted None ["nested"%string]
  = (Err (Cloud (lit "login returned no refresh_token (bad account/password?)")),
     [oauth_request (password_form (lit "me@example.org") (lit "pw") None)]).
Proof. vm_compute. reflexivity. Qed.

(** An expiry at the lower end of [i64] makes a bundle good for all time. *)
Example good_for_all_time b :
  map (cached_bundle {[lit "UID" := (b, - 2 ^ 63)]} (lit "UID")) [0; 2 ^ 62] = [Some b; Some b].
Proof. unfold cached_bundle. rewrite lookup_singleton_eq. reflexivity. Qed.

(** Over few characters nonces repeat: 10 says what 0 says. *)
Example nonces_repeat : nonce (lit "0123456789") 10 = nonce (lit "0123456789") 0.
Proof. vm_compute. reflexivity. Qed.

Definition toy_challenge : PowChallenge := MkPowChallenge (lit "C1") (lit "seed") alphabet [8].

Lemma alphabet_distinct : NoDup alphabet.
Proof. apply (bool_decide_eq_true_1 _). vm_compute. reflexivity. Qed.

Lemma solve_exact_witness : nonce alphabet 77 <> nonce alphabet 76.
Proof.
  intros E. enough (77 = 76) by discriminate.
  apply (proj2 (solve_exact toy_challenge ltac:(discriminate)) alphabet_distinct); [|split; discriminate..|exact E].
  apply Nat.leb_le. reflexivity.
Defined.
