(* ===== verification/GracePeriod.v ===== *)
(** * The grace period ([grace_period.rs])

    The task of a session that ends it when nobody holds the wake lock: it waits
    for a release if the lock is held, sleeps, and returns if the lock is idle
    then. [step] runs it against acquisitions and releases in any order. The last
    release stores a permit of [notify_release] or wakes the waiting task, as
    [Notify::notify_one] does. Time passes only while the task has nothing to do.
    A release counts down and notifies in one step: the steps between are
    [WakeLock]'s. *)

From S2P Require Import Prelude.

Inductive Phase :=
| Checking
| Waiting
| Sleeping (until : Z)
| Returned (at_ : Z).

(** [since]: when the lock was last released, or the start; for the statements. *)
Record State := MkState { now : Z; count : Z; permit : bool; since : Z; phase : Phase }.

Inductive Label := Acquire | Release | Runs | Passes (t : Z).

Section grace.
Context (duration : Z).

Definition set_phase (s : State) (p : Phase) : State := MkState (now s) (count s) (permit s) (since s) p.

Definition is_idle (s : State) : bool := count s =? 0.

(** [notify_release.notify_one()] *)
Definition wake (s : State) : State :=
  match phase s, permit s with
  | Waiting, false => set_phase s (Sleeping (now s + duration))
  | p, _ => MkState (now s) (count s) true (since s) p
  end.

(** One turn of the task. [None]: it waits. *)
Definition task (s : State) : option State :=
  match phase s with
  | Checking => Some (set_phase s (if is_idle s then Sleeping (now s + duration) else Waiting))
  | Waiting =>
      if permit s then Some (MkState (now s) (count s) false (since s) (Sleeping (now s + duration))) else None
  | Sleeping until => if now s <? until then None else Some (set_phase s (if is_idle s then Returned (now s) else Checking))
  | Returned _ => None
  end.

(** [None]: it cannot happen. *)
Definition step (s : State) (l : Label) : option State :=
  match l with
  | Acquire => Some (MkState (now s) (count s + 1) (permit s) (since s) (phase s))
  | Release =>
      if count s <=? 0 then None
      else
        let s' := MkState (now s) (count s - 1) (permit s) (since s) (phase s) in
        Some (if count s =? 1 then wake (MkState (now s) 0 (permit s) (now s) (phase s)) else s')
  | Runs => task s
  | Passes t =>
      match task s, phase s with
      | None, Sleeping until => if (now s <=? t) && (t <=? until) then Some (MkState t (count s) (permit s) (since s) (phase s)) else None
      | None, _ => if now s <=? t then Some (MkState t (count s) (permit s) (since s) (phase s)) else None
      | Some _, _ => None
      end
  end.

Fixpoint run (s : State) (ls : list Label) : option State :=
  match ls with [] => Some s | l :: ls => match step s l with Some s => run s ls | None => None end end.

Definition start (t0 count0 : Z) (permit0 : bool) : State := MkState t0 count0 permit0 t0 Checking.

(** ** When it returns *)

(** A task that waits without a permit has a lock that is held. A sleep ends a grace
    period from now at most, and if the lock is idle, from its release. *)
Record good (t0 : Z) (s : State) : Prop := {
  g_count : 0 <= count s;
  g_start : t0 <= since s <= now s;
  g_waiting : phase s = Waiting -> permit s = false -> 0 < count s;
  g_due : match phase s with
          | Checking | Waiting => count s = 0 -> now s = since s
          | Sleeping until =>
              now s <= until <= now s + duration /\ t0 + duration <= until
              /\ (count s = 0 -> until <= since s + duration)
          | Returned r => t0 + duration <= r /\ r <= now s
          end
}.

Ltac gracious :=
  match goal with G : good _ _ |- _ => destruct G as [Gc Gs Gw Gd] end;
  cbn in *; split; cbn; intuition (try congruence; try lia).

Lemma good_start t0 c p : 0 <= c -> good t0 (start t0 c p).
Proof. intros Hc. split; cbn; [lia | lia | discriminate | reflexivity]. Qed.

Lemma good_task t0 s s' : 0 <= duration -> good t0 s -> task s = Some s' -> good t0 s'.
Proof.
  intros Hd G Ht. destruct s as [n c p si ph]. unfold task, set_phase, is_idle in Ht. cbn in Ht.
  destruct ph as [| | u | r]; [| destruct p | |]; try discriminate.
  - destruct (Z.eqb_spec c 0); injection Ht as <-; gracious.
  - injection Ht as <-. gracious.
  - destruct (Z.ltb_spec n u); [discriminate |].
    destruct (Z.eqb_spec c 0); injection Ht as <-; gracious.
Qed.

Lemma good_step t0 s l s' : 0 <= duration -> good t0 s -> step s l = Some s' -> good t0 s'.
Proof.
  intros Hd G. destruct l as [| | | t]; [| | apply good_task; assumption |]; intros Hs; cbn [step] in Hs.
  - injection Hs as <-. destruct s as [n c p si ph]. destruct ph; gracious.
  - destruct (Z.leb_spec (count s) 0); [discriminate |].
    destruct s as [n c p si ph]. cbn in Hs, H.
    destruct (Z.eqb_spec c 1); injection Hs as <-; unfold wake, set_phase; cbn;
      destruct ph; try destruct p; gracious.
  - destruct (task s) eqn:Ht; [discriminate |].
    destruct s as [n c p si ph]. unfold task in Ht. cbn in Ht, Hs.
    destruct ph as [| | u | r]; try discriminate.
    + destruct p; [discriminate |]. destruct (Z.leb_spec n t); [|discriminate]. injection Hs as <-. gracious.
    + destruct (Z.leb_spec n t), (Z.leb_spec t u); try discriminate. injection Hs as <-. gracious.
    + destruct (Z.leb_spec n t); [|discriminate]. injection Hs as <-. gracious.
Qed.

Lemma good_run t0 ls s s' : 0 <= duration -> good t0 s -> run s ls = Some s' -> good t0 s'.
Proof.
  intros Hd. revert s. induction ls as [|l ls IH]; intros s G Hr; cbn in Hr.
  - congruence.
  - destruct (step s l) eqn:Hs; [| discriminate]. exact (IH _ (good_step _ _ _ _ Hd G Hs) Hr).
Qed.
End grace.

(** However the lock is taken and released, the task returns a grace period after its
    start at the earliest; and if the lock is idle a grace period after its last
    release, or the start, either it has returned or it does so in its next turn. *)
Theorem grace_bounded duration t0 c p ls s :
  0 <= duration -> 0 <= c -> run duration (start t0 c p) ls = Some s ->
  (forall r, phase s = Returned r -> t0 + duration <= r) /\
  (count s = 0 -> (forall r, phase s <> Returned r) -> now s <= since s + duration) /\
  (count s = 0 -> now s = since s + duration -> 0 < duration ->
   (exists r, phase s = Returned r) \/ step duration s Runs = Some (set_phase s (Returned (now s)))).
Proof.
  intros Hd Hc Hr. pose proof (good_run _ _ _ _ _ Hd (good_start duration t0 c p Hc) Hr) as [Gc Gs Gw Gd].
  split_and!.
  - intros r E. rewrite E in Gd. tauto.
  - intros H0 E. destruct (phase s) as [| | u | r] eqn:Ep; try (specialize (Gd H0); lia); [lia | by destruct (E r)].
  - intros H0 En Hp. unfold step, task, is_idle.
    destruct (phase s) as [| | u | r]; [specialize (Gd H0); lia | specialize (Gd H0); lia | | eauto].
    right. destruct (Z.ltb_spec (now s) u); [lia |]. by rewrite H0.
Qed.

(** It returns of an idle lock only. *)
Lemma returns_idle duration s s' r : step duration s Runs = Some s' -> phase s' = Returned r -> count s' = 0 /\ r = now s'.
Proof.
  unfold step, task, set_phase, is_idle.
  destruct (phase s); try destruct (permit s); try destruct (now s <? until); try discriminate;
    destruct (Z.eqb_spec (count s) 0); intros [= <-]; cbn; intros [=]; auto.
Qed.

(** A use of the lock that begins and ends within the sleep does not delay the return:
    with a grace of 30 the task returns at 30, the lock idle since 29 only. *)
Example flicker :
  run 30 (start 0 0 false) [Runs; Passes 5; Acquire; Passes 29; Release; Passes 30; Runs]
  = Some (MkState 30 0 true 29 (Returned 30)).
Proof. reflexivity. Qed.

(** The permit such a use leaves ends the next wait at once, of a lock that is held:
    the task sleeps a period more and looks again. *)
Example stale_permit :
  run 30 (start 0 1 true) [Runs; Runs; Passes 30; Runs; Runs] = Some (MkState 30 1 false 0 Waiting).
Proof. reflexivity. Qed.
