(* ===== verification/RtspSession.v ===== *)
(** * The automaton and the identifier of a session ([src/rtsp/protocol/session.rs])

    The server makes its identifiers with [new_session_id] and keeps its sessions in
    the registry ([RtspServer]). [Session] is the automaton of RFC 7826 beside it,
    with the instants of its keepalive in nanoseconds. *)

From S2P Require Import Prelude Wire Text XorCrypto RtspText Sdp RtspServer.

Inductive SessionState := Init | Ready | Playing.
Inductive Transition := Allowed | WrongState | Terminated.

(** [{:02x}] of the sixteen random bytes. *)
Definition new_session_id (random : bytes) : str := concat (map hex02 random).

Record Session := MkSession { id : str; state : SessionState; last_activity : Z; timeout : Z }.

Definition new (random : bytes) (now timeout : Z) : Session := MkSession (new_session_id random) Init now timeout.

Definition touch (s : Session) (now : Z) : Session := MkSession (id s) (state s) now (timeout s).

(** [Instant::elapsed] is zero for an instant that is not over. *)
Definition is_expired (s : Session) (now : Z) : bool := timeout s <=? sat_sub now (last_activity s).

Definition expires_at (s : Session) : Z := last_activity s + timeout s.

Definition set_state (s : Session) (x : SessionState) : Session :=
  MkSession (id s) x (last_activity s) (timeout s).

Definition handle_method (s : Session) (m : RtspMethod) : Transition * Session :=
  match state s, m with
  | _, Options | _, GetParameter => (Allowed, s)
  | Ready, Pause | Playing, Pause => (Allowed, s)
  | Init, Pause => (WrongState, s)
  | _, Describe => (Allowed, s)
  | Init, Setup => (Allowed, set_state s Ready)
  | Ready, Setup => (Allowed, s)
  | Ready, Play | Playing, Play => (Allowed, set_state s Playing)
  | _, Teardown => (Terminated, s)
  | Playing, Setup => (WrongState, s)
  | Init, Play => (WrongState, s)
  end.

(** The requests of a client, up to the one that ends the session. *)
Fixpoint requests (s : Session) (ms : list RtspMethod) : Session :=
  match ms with
  | [] => s
  | m :: ms => match handle_method s m with (Terminated, s) => s | (_, s) => requests s ms end
  end.

(** ** What is reached *)

#[local] Instance RtspMethod_eq_dec : EqDecision RtspMethod.
Proof. solve_decision. Defined.

(** What comes after the first [m]. *)
Fixpoint after (m : RtspMethod) (ms : list RtspMethod) : option (list RtspMethod) :=
  match ms with [] => None | x :: ms => if decide (x = m) then Some ms else after m ms end.

Definition reached (ms : list RtspMethod) : SessionState :=
  match after Setup ms with
  | None => Init
  | Some rest => match after Play rest with None => Ready | Some _ => Playing end
  end.

Lemma requests_playing s ms : state s = Playing -> state (requests s ms) = Playing.
Proof.
  revert s. induction ms as [|m ms IH]; intros s H; [done |].
  cbn. unfold handle_method. rewrite H. destruct m; try done; by apply IH.
Qed.

Lemma requests_ready s ms :
  state s = Ready -> ~ In Teardown ms ->
  state (requests s ms) = match after Play ms with None => Ready | Some _ => Playing end.
Proof.
  revert s. induction ms as [|m ms IH]; intros s H Ht; [done |].
  apply not_in_cons in Ht as [Hm Ht].
  cbn. unfold handle_method. rewrite H. destruct m; try done; try (by apply IH).
  by apply requests_playing.
Qed.

(** A session delivers exactly if it was set up and asked to play since, whatever else
    was asked in between. *)
Theorem reached_exact s ms :
  state s = Init -> ~ In Teardown ms -> state (requests s ms) = reached ms.
Proof.
  revert s. induction ms as [|m ms IH]; intros s H Ht; [done |].
  apply not_in_cons in Ht as [Hm Ht].
  unfold reached. cbn. unfold handle_method. rewrite H.
  destruct m; try done; try (by apply IH). by apply requests_ready.
Qed.

(** What a refused request leaves as it was; no request touches the keepalive. *)
Lemma handle_method_keeps s m t s' :
  handle_method s m = (t, s') ->
  id s' = id s /\ expires_at s' = expires_at s /\ (t <> Allowed -> s' = s).
Proof. unfold handle_method. destruct (state s), m; intros [= <- <-]; done. Qed.

(** A session is expired from the instant it names; without a timeout, at once. *)
Theorem expired_exact s now :
  0 <= timeout s ->
  is_expired s now = true <-> expires_at s <= now \/ timeout s = 0.
Proof. intros Ht. unfold is_expired, expires_at, sat_sub. rewrite Z.leb_le. lia. Qed.

(** ** The identifier *)

Lemma hex_lower_ok d : 0 <= d < 16 -> is_graphic (Auth.hex_lower d) /\ Auth.hex_lower d <> 59.
Proof. unfold Auth.hex_lower, is_graphic. intros H. destruct (Z.ltb_spec d 10); lia. Qed.

Lemma hex_lower_inj a b : Auth.hex_lower a = Auth.hex_lower b -> 0 <= a < 16 -> 0 <= b < 16 -> a = b.
Proof. unfold Auth.hex_lower. destruct (Z.ltb_spec a 10), (Z.ltb_spec b 10); lia. Qed.

Lemma byte_digits b : in_u 8 b -> 0 <= b / 16 < 16 /\ 0 <= b mod 16 < 16 /\ b = 16 * (b / 16) + b mod 16.
Proof.
  unfold in_u. intros H. pose proof (Z.div_mod b 16). pose proof (Z.mod_pos_bound b 16).
  split_and!; lia.
Qed.

Lemma new_session_id_chars r :
  bytes_ok r -> Forall (fun c => is_graphic c /\ c <> 59) (new_session_id r).
Proof.
  unfold new_session_id. induction 1 as [|b r Hb _ IH]; cbn; [done |].
  destruct (byte_digits b Hb) as (H1 & H2 & _).
  repeat apply Forall_cons_2; auto using hex_lower_ok.
Qed.

Lemma new_session_id_length r : length (new_session_id r) = (2 * length r)%nat.
Proof. unfold new_session_id. induction r as [|b r IH]; cbn in *; lia. Qed.

(** Different random bytes, different identifiers. *)
Theorem new_session_id_inj r r' :
  bytes_ok r -> bytes_ok r' -> new_session_id r = new_session_id r' -> r = r'.
Proof.
  unfold new_session_id. intros H. revert r'.
  induction H as [|b r Hb _ IH]; intros r' H'; destruct H' as [|b' r' Hb' Hr']; try done.
  cbn. intros [= E1 E2 E3].
  destruct (byte_digits b Hb) as (H1 & H2 & E), (byte_digits b' Hb') as (H1' & H2' & E').
  f_equal; [| by apply IH].
  apply hex_lower_inj in E1; [| done..]. apply hex_lower_inj in E2; [| done..]. lia.
Qed.

(** A client that sends back the [Session] header of a response, with its timeout or
    without, is taken to mean the session the server made. *)
Theorem session_id_echo `{R : RtspTypes} random buf req p v :
  bytes_ok random ->
  message_parse buf = Some (RequestMessage req) ->
  parse_request buf = Ok p ->
  find_header (lit "Session") (rq_headers req) = Some v ->
  v = new_session_id random \/ v = snd (timeout_session (new_session_id random)) ->
  session p = Some (new_session_id random).
Proof.
  intros Hr Hm Hp Hf Hv. pose proof (new_session_id_chars _ Hr) as Hc.
  set (sid := new_session_id random) in *.
  assert (Forall is_graphic sid /\ Forall (fun c => c <> 59) sid) as [Hg Hs].
  { split; (eapply Forall_impl; [| exact Hc]; cbn; intros c H; apply H). }
  unfold parse_request in Hp. rewrite Hm in Hp.
  destruct (from_rtsp_types _); [| done]. destruct (rq_uri req); [| done].
  case_match; [| done]. injection Hp as <-. cbn [session]. rewrite Hf. cbn [fmap option_fmap option_map].
  f_equal. assert (trim v = v) as ->.
  { apply trim_graphic. destruct Hv as [-> | ->]; [done |]. apply Forall_app. split; [done |].
    by apply graphic_check. }
  destruct Hv as [-> | ->].
  - rewrite split_none by done. by apply trim_graphic.
  - change (snd (timeout_session sid)) with (sid ++ 59 :: lit "timeout=30").
    rewrite split_sep by done. by apply trim_graphic.
Qed.

Example session_id_shown : new_session_id [0; 171; 255] = lit "00abff".
Proof. reflexivity. Qed.

(** Setting a track up is refused while the session plays, and leaves it playing. *)
Example setup_while_playing :
  let s := requests (new [1; 2] 0 30) [Options; Setup; Setup; Play] in
  (state s, handle_method s Setup) = (Playing, (WrongState, s)).
Proof. reflexivity. Qed.
