(* ===== verification/OneShot.v ===== *)
(** * One-shot commands ([src/oneshot/], [src/run_support.rs], [src/cli.rs])

    [bairelay <command> <camera>]: the configuration is loaded, the camera found in
    it, one session runs one command and logs out, and the process ends with an exit
    code. The bodies are programs of [Commands] behind [CameraPort]; an error is the
    list of its causes, outermost first, as [anyhow::Error::chain] walks them. The
    texts printed are left out, and [cloud-authorise] is an argument: its exchange is
    [Cloud]'s. *)

From Stdlib Require Import SpecFloat.
From S2P Require Import Prelude Text Wire Toml Config XorCrypto BcMedia BcXml BcMsg BcConn Mqtt.
From S2P Require Import Commands Login Clock CameraPort.

(** ** Exit codes ([classify.rs]) *)

(** [baichuan::Error], without what its variants carry. *)
Inductive CoreError :=
| Io | TimeRange | CoreTimeParse | TryFromInt | TimeTryFrom
| CoreUnintelligibleReply | CoreUnintelligibleXml | CoreCameraServiceUnavailable | CoreCameraLoginFail
| DroppedConnection | DroppedConnectionTry | BroadcastDroppedConnectionTry | StreamFinished
| CoreConnectionShutdown | DiscoveryIgnored | BcUdpTimeout | BcUdpDropReceiver | BcUdpDropSender
| BcUdpPayloadDroppedInner | BcUdpReconnectTimeout | TokioBcSendError | CoreTimeout | TimeoutError
| TimeoutDisconnected | CannotInitCamera | CoreAuthFailed | AddrResolutionError | UnknownTalkEncoding
| CoreUserAlreadyExists | CoreUserNotFound | DiscoveryTimeout | DiscoveryNoRelay | GenError
| CoreSimultaneousSubscription | CoreSimultaneousSubscriptionId | UnknownEncryption
| ConnectionUnavailable | CoreDroppedSubscriber | UnknownConnectionId | UnknownSource | AddrParseError
| NoDmap | NoDev | RegisterError | RelayTerminate | CameraTerminate | NomIncomplete | NomError
| CoreMissingAbility | JoinError | CoreOther | CoreCloud.

(** The errors in an [anyhow::Error]'s chain that are told apart. *)
Inductive Cause := Interrupted | Usage | BadConfigCause | Core (e : CoreError) | Plain (message : str).

Definition Anyhow : Type := list Cause.

Definition EXIT_OK : Z := 0.
Definition EXIT_UNEXPECTED : Z := 1.
Definition EXIT_USAGE : Z := 2.
Definition EXIT_CONFIG : Z := 3.
Definition EXIT_CONNECTION : Z := 4.
Definition EXIT_PROTOCOL : Z := 5.
Definition EXIT_UNSUPPORTED : Z := 6.
Definition EXIT_INTERRUPTED : Z := 130.

Definition classify_core (err : CoreError) : Z :=
  match err with
  | CoreCameraLoginFail | CoreAuthFailed
  | DiscoveryTimeout | DiscoveryIgnored | NoDmap | NoDev | RegisterError
  | DroppedConnection | DroppedConnectionTry | BroadcastDroppedConnectionTry | CoreConnectionShutdown
  | ConnectionUnavailable | CannotInitCamera | RelayTerminate | CameraTerminate
  | AddrResolutionError | AddrParseError
  | CoreTimeout | TimeoutError | TimeoutDisconnected | BcUdpTimeout | BcUdpReconnectTimeout
  | BcUdpDropReceiver | BcUdpDropSender | BcUdpPayloadDroppedInner
  | Io => EXIT_CONNECTION
  | CoreMissingAbility => EXIT_UNSUPPORTED
  | _ => EXIT_PROTOCOL
  end.

Fixpoint classify (chain : Anyhow) : Z :=
  match chain with
  | [] => EXIT_UNEXPECTED
  | Interrupted :: _ => EXIT_INTERRUPTED
  | Usage :: _ => EXIT_USAGE
  | BadConfigCause :: _ => EXIT_CONFIG
  | Core e :: _ => classify_core e
  | Plain _ :: chain => classify chain
  end.

Definition exit_code_to_kind (code : Z) : str :=
  if code =? EXIT_USAGE then lit "usage"
  else if code =? EXIT_CONFIG then lit "config"
  else if code =? EXIT_CONNECTION then lit "connection"
  else if code =? EXIT_PROTOCOL then lit "protocol"
  else if code =? EXIT_UNSUPPORTED then lit "unsupported"
  else if code =? EXIT_INTERRUPTED then lit "interrupted"
  else lit "internal".

(** ** The command line ([cli.rs]), after clap *)

Module Cli.

Inductive OnOff := On | Off.
Inductive PtzCommand :=
| Preset (preset_id : option Z)
| Assign (preset_id : Z) (name : str)
| Control (amount : Z) (direction : Commands.Direction) (speed : option Z)
| Zoom (amount : spec_float).
Inductive ServiceAction := Get | SOn | SOff | Port (port : Z) | SetPort (port : Z) (enabled : OnOff).
Inductive UserTypeArg := User | Administrator.
Inductive UserAction :=
| List
| Add (name : str) (user_type : UserTypeArg) (password : option str)
| Password (name : str) (password : option str)
| Delete (name : str).
Inductive CaptureStream := Main | Sub | Extern.

Inductive Command :=
| Mqtt | Rtsp (dump_bcmedia : option str) | MqttRtsp (dump_bcmedia : option str)
| Capture (camera output : str) (duration : Z) (stream : CaptureStream)
| Reboot (camera : str)
| Snapshot (camera : str) (output : option str) (use_stream use_stream_raw : bool)
| Battery (camera : str)
| Floodlight (camera : str) (state : option OnOff)
| Presets (camera : str) | SetTime (camera : str) | Version (camera : str) | Siren (camera : str)
| Abilities (camera : str)
| Pir (camera : str) (state : option OnOff)
| StatusLight (camera : str) (state : option OnOff)
| Ptz (camera : str) (cmd : option PtzCommand)
| Services (camera : str) (service : option ServiceKind) (action : option ServiceAction)
| Users (camera : str) (action : option UserAction)
| CheckConfig
| CloudAuthorise (method : str)
| RenderHassioConfig.

Definition is_oneshot (c : Command) : bool := match c with Mqtt | Rtsp _ | MqttRtsp _ => false | _ => true end.
Definition wants_mqtt (c : Command) : bool := match c with Mqtt | MqttRtsp _ => true | _ => false end.
Definition wants_rtsp (c : Command) : bool := match c with Rtsp _ | MqttRtsp _ => true | _ => false end.

Definition camera_name (c : Command) : option str :=
  match c with
  | Mqtt | Rtsp _ | MqttRtsp _ | CheckConfig | CloudAuthorise _ | RenderHassioConfig => None
  | Reboot a | Battery a | Presets a | SetTime a | Version a | Siren a | Abilities a => Some a
  | Capture a _ _ _ | Snapshot a _ _ _ | Floodlight a _ | Pir a _ | StatusLight a _ | Ptz a _ | Services a _ _
  | Users a _ => Some a
  end.

End Cli.

(** ** Outcomes ([output.rs]) *)

Record AbilityEntry := MkAbilityEntry { module_ : str; ability_name : bytes; kind : bytes }.
Record UserInfo := MkUserInfo { info_name : bytes; info_level : Z }.
Record ServiceEntry := MkServiceEntry { entry_name : str; entry_port : Z; entry_enabled : option bool }.

Inductive Outcome :=
| DoneReboot
| DoneCapture (packets size : Z) (path : str)
| DoneSnapshot (size : Z) (path : option str) (format : str)
| DoneBattery (percent voltage_mv : Z) (charge_status : bytes) (low_power : bool)
| DoneFloodlight (state : bool)
| DonePresets (presets : list PresetSlot)
| DoneSetTime (utc : str)
| DoneVersion (model firmware hardware build_day : bytes)
| DoneSiren
| DonePir (enable : bool) (sensitivity : option Z)
| DoneStatusLight (state : bool)
| DonePtzMoveTo (preset_id : Z)
| DonePtzAssign (preset_id : Z) (name : str)
| DonePtzControl (direction : bytes) (amount : Z) (speed : option Z)
| DonePtzZoom (amount : spec_float)
| DoneService (service : str) (port : Z) (enabled : option bool)
| DoneServiceList (services : list ServiceEntry)
| DoneUsersList (users : list UserInfo)
| DoneUserChanged (name action : str)
| DoneAbilities (username : bytes) (xml : str) (entries : list AbilityEntry).

(** ** Bodies *)

(** How a body ends; one that waits for an answer that does not come has not. *)
Inductive Ended (A : Type) := Returned (r : result A Anyhow) | Waiting | Unwound.
Arguments Returned {A} r.
Arguments Waiting {A}.
Arguments Unwound {A}.

Definition Body (A : Type) : Type := World -> Ended A * World.

Definition done {A} (a : A) : Body A := fun w => (Returned (Ok a), w).
Definition bail {A} (e : Anyhow) : Body A := fun w => (Returned (Err e), w).
Definition then_ {A B} (m : Body A) (f : A -> Body B) : Body B := fun w =>
  match m w with
  | (Returned (Ok a), w) => f a w
  | (Returned (Err e), w) => (Returned (Err e), w)
  | (Waiting, w) => (Waiting, w)
  | (Unwound, w) => (Unwound, w)
  end.

Notation "'do*' x ':=' m 'in' k" := (then_ m (fun x => k))
  (at level 10, x pattern, m at level 100, k at level 200) : bairelay_scope.
#[local] Open Scope bairelay_scope.

Section bodies.
Context `{T : TimeCrate} `{X : QuickXml} `{F : CookieFactory}.

(** The stream's item: the connection's error, a packet's, or a packet. *)
Definition Item : Type := result (result BcMedia CoreError) CoreError.

(** How the wait for a floodlight report ends. *)
Inductive Reported := Status (l : FloodlightStatusList) | ChannelClosed | ReadTimeout.

(** What the outside answers a body: the items of the video stream, each with the
    time it is waited for; the floodlight's report; the local time; what is typed;
    whether a file can be created and each write to it succeeds; what reading each
    service takes and yields. *)
Record Around := MkAround {
  items : list (Z * Item);
  floodlight_subscribed : result Reported CoreError;
  now_local : OffsetDateTime;
  shown_time : str;
  typed : result str Anyhow;
  can_write : bool;
  disk : nat -> bool;
  read_service : ServiceKind -> option (Z * result ServicePortState CoreError)
}.

(** *** Passwords ([password_source.rs]) *)

Definition finalize_read_password (raw : str) : result str Anyhow :=
  match trim_end (fun c => (c =? 13) || (c =? 10)) raw with [] => Err [Usage] | p => Ok p end.

Definition resolve (provided : option str) (typed : result str Anyhow) : result str Anyhow :=
  match provided with
  | Some [] => Err [Usage]
  | Some p => Ok p
  | None => match typed with Ok raw => finalize_read_password raw | Err e => Err e end
  end.

(** *** The video stream ([snapshot.rs], [capture.rs]) *)

Inductive StreamStep := Got (f : BcMediaIframe) | More | ReadError (e : CoreError) | ReceiveError (e : CoreError) | Elapsed.

Definition classify_stream_step (inner : option Item) : StreamStep :=
  match inner with
  | Some (Ok (Ok (Iframe i))) => Got i
  | Some (Ok (Ok _)) => More
  | Some (Ok (Err e)) => ReadError e
  | Some (Err e) => ReceiveError e
  | None => Elapsed
  end.

Definition no_iframe : Anyhow := [Plain (lit "no I-frame received")].

Fixpoint drain_first_iframe (remaining : Z) (items : list (Z * Item)) : result BcMediaIframe Anyhow :=
  if remaining =? 0 then Err no_iframe
  else match items with
  | [] => Err no_iframe
  | (wait, item) :: rest =>
      match classify_stream_step (if wait <=? remaining then Some item else None) with
      | Got i => Ok i
      | More => drain_first_iframe (remaining - wait) rest
      | ReadError e => Err [Plain (lit "stream read error"); Core e]
      | ReceiveError e => Err [Plain (lit "stream receive error"); Core e]
      | Elapsed => Err no_iframe
      end
  end.

Definition FIRST_IFRAME_TIMEOUT : Z := secs 10.

Inductive DrainOutcome := WindowElapsed (packets : Z) | StreamEnded (packets : Z).

(** The file of a capture and the frames it was asked to take; the error a write
    ends with is swallowed, and so is that of a packet that cannot be written. *)
Record FrameDumper := MkDumper { written : bytes; asked : nat }.

Definition write_frame (disk : nat -> bool) (d : FrameDumper) (p : BcMedia) : FrameDumper :=
  match BcMedia.Ser.serialize p [] with
  | Ok b => MkDumper (if disk (asked d) then written d ++ b else written d) (S (asked d))
  | Err _ => MkDumper (written d) (S (asked d))
  end.

Fixpoint drain_for_window (disk : nat -> bool) (remaining packets : Z) (d : FrameDumper) (items : list (Z * Item))
    : DrainOutcome * FrameDumper :=
  if remaining =? 0 then (WindowElapsed packets, d)
  else match items with
  | [] => (WindowElapsed packets, d)
  | (wait, item) :: rest =>
      if negb (wait <=? remaining) then (WindowElapsed packets, d)
      else match item with
      | Ok (Ok packet) => drain_for_window disk (remaining - wait) (packets + 1) (write_frame disk d packet) rest
      | Ok (Err _) => drain_for_window disk (remaining - wait) packets d rest
      | Err _ => (StreamEnded packets, d)
      end
  end.

(** *** Abilities ([abilities.rs]) *)

Definition modules : list str :=
  [lit "system"; lit "network"; lit "alarm"; lit "image"; lit "video"; lit "security"; lit "replay"; lit "ptz";
   lit "io"; lit "streaming"].

Definition flatten_value (module_ : str) (raw : bytes) : list AbilityEntry :=
  match raw with
  | [] => []
  | _ =>
      match rsplit_once 95 raw with
      | Some (name, kind) =>
          if negb (bool_decide (kind = lit "rw")) && negb (bool_decide (kind = lit "ro")) then []
          else [MkAbilityEntry module_ name kind]
      | None => []
      end
  end.

Definition flatten_token (module_ : str) (t : AbilityInfoToken) : list AbilityEntry :=
  s ← token_sub_module t; raw ← split 44 (List.filter (fun c => negb (c =? 32)) (sub_ability_value s));
  flatten_value module_ raw.

Definition flatten (i : AbilityInfo) : list AbilityEntry :=
  concat (zip_with (fun m t => match t with Some t => flatten_token m t | None => [] end) modules
    [ability_system i; ability_network i; ability_alarm i; ability_image i; ability_video i;
     ability_security i; ability_replay i; ability_ptz i; ability_io i; ability_streaming i]).

(** *** Services ([services.rs]) *)

Definition ALL : list ServiceKind := [Baichuan; Http; Https; Rtmp; Rtsp; Onvif].

Definition label (k : ServiceKind) : str :=
  match k with
  | Baichuan => lit "baichuan" | Http => lit "http" | Https => lit "https" | Rtmp => lit "rtmp"
  | Rtsp => lit "rtsp" | Onvif => lit "onvif"
  end.

Definition PER_RPC_TIMEOUT : Z := secs 8.

(** The entry of a service and the time it took; [None]: it did not answer. *)
Definition read_entry (k : ServiceKind) (r : option (Z * result ServicePortState CoreError)) : Z * ServiceEntry :=
  let unknown := MkServiceEntry (label k) 0 None in
  match r with
  | Some (t, r) =>
      if t <=? PER_RPC_TIMEOUT
      then (t, match r with Ok s => MkServiceEntry (label k) (service_port s) (service_enabled s) | Err _ => unknown end)
      else (PER_RPC_TIMEOUT, unknown)
  | None => (PER_RPC_TIMEOUT, unknown)
  end.

(** All six, and the time it took. *)
Definition run_all (read : ServiceKind -> option (Z * result ServicePortState CoreError)) : Z * list ServiceEntry :=
  let rs := map (fun k => read_entry k (read k)) ALL in (foldr Z.add 0 (map fst rs), map snd rs).

Inductive Action := AGet | AOn | AOff | APort (port : Z) | ASet (port : Z) (enabled : bool).

Definition clone_service_action (a : option Cli.ServiceAction) : Action :=
  match a with
  | None | Some Cli.Get => AGet
  | Some Cli.SOn => AOn
  | Some Cli.SOff => AOff
  | Some (Cli.Port port) => APort port
  | Some (Cli.SetPort port enabled) => ASet port (match enabled with Cli.On => true | Cli.Off => false end)
  end.

(** *** Directions and amounts ([ptz.rs]) *)

Definition direction_label (d : Commands.Direction) : bytes :=
  match d with
  | Commands.Up => lit "up" | Commands.Down => lit "down" | Commands.Left => lit "left"
  | Commands.Right => lit "right" | Commands.Stop => lit "stop"
  end.

(** [n as f32], the bits: to nearest, ties to even. A mantissa that rounds up to
    [2^24] carries into the exponent. *)
Definition f32_of_u32 (n : Z) : Z :=
  if n =? 0 then 0
  else
    let k := Z.log2 n in
    let m :=
      if k <=? 23 then n * 2 ^ (23 - k)
      else
        let unit := 2 ^ (k - 23) in
        let q := n / unit in
        let r := n mod unit in
        if (unit / 2 <? r) || ((r =? unit / 2) && Z.odd q) then q + 1 else q in
    (127 + k) * 2 ^ 23 + (m - 2 ^ 23).

Definition clone_ptz_cmd (c : option Cli.PtzCommand) : Cli.PtzCommand := default (Cli.Preset None) c.

(** *** Running a command of the port *)

Context (source_error : Z -> CoreError) (serialise_xml : AbilityInfo -> result str Anyhow).

Definition core_of_conn (e : BcConn.Error) : CoreError :=
  match e with
  | BcConn.SimultaneousSubscription _ => CoreSimultaneousSubscription
  | BcConn.SimultaneousSubscriptionId _ => CoreSimultaneousSubscriptionId
  | BcConn.ConnectionShutdown => CoreConnectionShutdown
  | BcConn.DroppedSubscriber => CoreDroppedSubscriber
  | BcConn.Other _ => CoreOther
  | BcConn.SourceError code => source_error code
  end.

(** [None]: the task unwinds. *)
Definition core_of (e : Commands.Error) : option CoreError :=
  match e with
  | Connection e => Some (core_of_conn e)
  | UnintelligibleReply _ _ => Some CoreUnintelligibleReply
  | UnintelligibleXml _ _ => Some CoreUnintelligibleXml
  | CameraServiceUnavailable _ _ => Some CoreCameraServiceUnavailable
  | CameraLoginFail => Some CoreCameraLoginFail
  | AuthFailed => Some CoreAuthFailed
  | UserAlreadyExists _ => Some CoreUserAlreadyExists
  | UserNotFound _ => Some CoreUserNotFound
  | TimeParse => Some CoreTimeParse
  | MissingAbility _ _ _ => Some CoreMissingAbility
  | Other _ => Some CoreOther
  | Cloud _ => Some CoreCloud
  | Panicked => None
  end.

(** [m.await.context(message)?] *)
Definition context {A} (m : M A) (message : str) : Body A := fun w =>
  match m w with
  | (Some (Ok a), w) => (Returned (Ok a), w)
  | (Some (Err e), w) =>
      (match core_of e with Some c => Returned (Err [Plain message; Core c]) | None => Unwound end, w)
  | (None, w) => (Waiting, w)
  end.

(** [let _ = m.await] *)
Definition ignoring {A} (m : M A) : Body unit := fun w =>
  match m w with
  | (Some (Ok _), w) => (Returned (Ok tt), w)
  | (Some (Err e), w) => (match core_of e with Some _ => Returned (Ok tt) | None => Unwound end, w)
  | (None, w) => (Waiting, w)
  end.

Definition result_of {A} (r : result A Anyhow) : Body A := match r with Ok a => done a | Err e => bail e end.

(** The outcome, and what was written: to a path, or to stdout. *)
Definition Done : Type := Outcome * list (option str * bytes).

Definition finish (o : Outcome) : Body Done := done (o, []).

Definition on (s : option Cli.OnOff) : option bool :=
  (fun s => match s with Cli.On => true | Cli.Off => false end) <$> s.

Definition setting {A} (set : option A) (m : A -> M unit) (message : str) : Body unit :=
  match set with Some a => context (m a) message | None => done tt end.

Definition write_payload (env : Around) (data : bytes) (output_path : option str) (format : str) : Body Done :=
  if can_write env then done (DoneSnapshot (len data) output_path format, [(output_path, data)])
  else bail [Plain (lit "failed to write"); Plain []].

Definition iframe_format_label (i : BcMediaIframe) : str :=
  match if_video_type i with TypeH264 => lit "h264" | TypeH265 => lit "h265" end.

Definition check_json_output (mode_json : bool) (output_path : option str) : result unit Anyhow :=
  match mode_json, output_path with true, None => Err [Usage] | _, _ => Ok tt end.

Definition capture_via_stream (env : Around) (output_path : option str) : Body Done :=
  do* _ := context (start_video MainStream) (lit "start_video failed") in
  let r := drain_first_iframe FIRST_IFRAME_TIMEOUT (items env) in
  do* _ := ignoring (stop_video MainStream) in
  do* iframe := result_of r in
  write_payload env (if_data iframe) output_path (iframe_format_label iframe).

Definition capture_via_snap (env : Around) (output_path : option str) : Body Done :=
  do* jpeg := context get_snapshot (lit "snapshot failed") in
  write_payload env jpeg output_path (lit "jpeg").

Definition snapshot_run (env : Around) (output_path : option str) (mode_json use_stream : bool) : Body Done :=
  do* _ := result_of (check_json_output mode_json output_path) in
  if use_stream then capture_via_stream env output_path else capture_via_snap env output_path.

Definition capture_stream_to_kinds (s : Cli.CaptureStream) : StreamKind * str :=
  match s with
  | Cli.Main => (MainStream, lit "main") | Cli.Sub => (SubStream, lit "sub") | Cli.Extern => (ExternStream, lit "extern")
  end.

(** The file is opened to append: [before] is what it holds. *)
Definition capture_run (env : Around) (before : bytes) (camera output : str) (stream : Cli.CaptureStream) (duration : Z)
    : Body Done :=
  let '(bc_kind, rtsp_kind) := capture_stream_to_kinds stream in
  let path := output ++ lit "/" ++ camera ++ lit "-" ++ rtsp_kind ++ lit ".bcmedia" in
  if negb (can_write env) then bail [Plain (lit "cannot open capture file"); Plain []]
  else
    do* _ := context (start_video bc_kind) (lit "start_video failed") in
    let '(outcome, dumper) := drain_for_window (disk env) duration 0 (MkDumper before 0) (items env) in
    do* _ := ignoring (stop_video bc_kind) in
    match outcome with
    | WindowElapsed packets | StreamEnded packets =>
        if 0 <? packets then done (DoneCapture packets (len (written dumper)) path, [(Some path, written dumper)])
        else bail [Plain (lit "no BcMedia packet")]
    end.

Definition floodlight_run (env : Around) (set : option bool) : Body Done :=
  do* _ := setting set (fun on => set_floodlight_manual on 30) (lit "floodlight command failed") in
  match floodlight_subscribed env with
  | Err e => bail [Plain (lit "listen_on_floodlight failed"); Core e]
  | Ok (Status l) =>
      finish (DoneFloodlight match fl_list_floodlight_status_list l with f :: _ => negb (fl_status_status f =? 0) | [] => false end)
  | Ok ChannelClosed => bail [Plain (lit "camera closed the floodlight status channel before sending")]
  | Ok ReadTimeout => bail [Plain (lit "camera did not report a floodlight status")]
  end.

Definition pir_run (set : option bool) : Body Done :=
  do* _ := setting set pir_set (lit "pir_set failed") in
  do* cfg := context get_pirstate (lit "get_pirstate failed") in
  finish (DonePir (negb (rf_enable cfg =? 0)) (match rf_sensiValue cfg with Some v => Some v | None => rf_sensitivity cfg end)).

Definition status_light_run (set : option bool) : Body Done :=
  do* _ := setting set led_light_set (lit "led_light_set failed") in
  do* led := context get_ledstate (lit "get_ledstate failed") in
  finish (DoneStatusLight (bool_decide (leds_light_state led = lit "open"))).

Definition presets_run : Body Done :=
  do* slots := context ptz_presets (lit "ptz_presets failed") in finish (DonePresets slots).

Definition ptz_run (cmd : Cli.PtzCommand) : Body Done :=
  match cmd with
  | Cli.Preset (Some id) =>
      do* _ := context (moveto_ptz_preset id) (lit "moveto_ptz_preset failed") in finish (DonePtzMoveTo id)
  | Cli.Preset None => presets_run
  | Cli.Assign id name =>
      do* _ := context (set_ptz_preset id (as_bytes name)) (lit "set_ptz_preset failed") in finish (DonePtzAssign id name)
  | Cli.Control amount direction speed =>
      do* _ := context (send_ptz direction (f32_of_u32 amount)) (lit "send_ptz failed") in
      finish (DonePtzControl (direction_label direction) amount speed)
  | Cli.Zoom amount =>
      do* _ := context (zoom_to (from_factor amount)) (lit "zoom_to failed") in finish (DonePtzZoom amount)
  end.

Definition apply_toggle (service : ServiceKind) (set_on : option bool) (set_port : option Z) : Body unit :=
  if bool_decide (set_port = Some 0) then bail [Usage]
  else context (set_service service set_on set_port) (lit "set service failed").

Definition services_run (kind : ServiceKind) (action : Action) : Body Done :=
  do* _ :=
    match action with
    | AGet => done tt
    | AOn => apply_toggle kind (Some true) None
    | AOff => apply_toggle kind (Some false) None
    | APort p => apply_toggle kind None (Some p)
    | ASet port enabled => apply_toggle kind (Some enabled) (Some port)
    end in
  do* state := context (service kind) (lit "read service failed") in
  finish (DoneService (label kind) (service_port state) (service_enabled state)).

(** [UserType::level]. *)
Definition level (t : Cli.UserTypeArg) : Z := match t with Cli.User => 0 | Cli.Administrator => 1 end.

(** [clone_user_action] and [users::run]. *)
Definition users_run (env : Around) (action : option Cli.UserAction) : Body Done :=
  match action with
  | None | Some Cli.List =>
      do* list := context get_users (lit "get_users failed") in
      finish (DoneUsersList (map (fun u => MkUserInfo (user_user_name u) (user_user_level u)) (default [] (users_user_list list))))
  | Some (Cli.Add name user_type password) =>
      do* password := result_of (resolve password (typed env)) in
      do* _ := context (add_user (as_bytes name) (as_bytes password) (level user_type)) (lit "add_user failed") in
      finish (DoneUserChanged name (lit "added"))
  | Some (Cli.Password name password) =>
      do* password := result_of (resolve password (typed env)) in
      do* _ := context (modify_user (as_bytes name) (as_bytes password)) (lit "modify_user failed") in
      finish (DoneUserChanged name (lit "password changed for"))
  | Some (Cli.Delete name) =>
      do* _ := context (delete_user (as_bytes name)) (lit "delete_user failed") in
      finish (DoneUserChanged name (lit "deleted"))
  end.

Definition battery_run : Body Done :=
  do* status := context battery_status (lit "battery query failed") in
  finish (DoneBattery (percent status) (Z.max 0 (voltage status)) (charge_status status) (low_power status)).

Definition version_run : Body Done :=
  do* info := context version (lit "camera version query failed") in
  finish (DoneVersion (default (lit "unknown") (ver_model info)) (ver_firmwareVersion info) (ver_hardwareVersion info)
            (ver_buildDay info)).

Definition abilities_run : Body Done :=
  do* info := context get_abilityinfo (lit "camera abilityInfo query failed") in
  do* xml := result_of (serialise_xml info) in
  finish (DoneAbilities (ability_username info) xml (flatten info)).

Definition internal : Body Done := bail [Plain (lit "internal")].

(** [dispatch_oneshot]. *)
Definition dispatch_oneshot (env : Around) (file : bytes) (cmd : Cli.Command) (json : bool) : Body Done :=
  match cmd with
  | Cli.Reboot _ => do* _ := context reboot (lit "reboot command failed") in finish DoneReboot
  | Cli.Capture camera output duration stream => capture_run env file camera output stream (secs duration)
  | Cli.Battery _ => battery_run
  | Cli.Version _ => version_run
  | Cli.Siren _ => do* _ := context siren (lit "siren trigger failed") in finish DoneSiren
  | Cli.Abilities _ => abilities_run
  | Cli.Presets _ => presets_run
  | Cli.SetTime _ =>
      do* _ := context (set_time (now_local env)) (lit "set_time failed") in finish (DoneSetTime (shown_time env))
  | Cli.Snapshot _ output _ use_stream_raw => snapshot_run env output json use_stream_raw
  | Cli.Floodlight _ state => floodlight_run env (on state)
  | Cli.Pir _ state => pir_run (on state)
  | Cli.StatusLight _ state => status_light_run (on state)
  | Cli.Ptz _ cmd => ptz_run (clone_ptz_cmd cmd)
  | Cli.Services _ None _ => finish (DoneServiceList (snd (run_all (read_service env))))
  | Cli.Services _ (Some svc) action => services_run svc (clone_service_action action)
  | Cli.Users _ action => users_run env action
  | Cli.Mqtt | Cli.Rtsp _ | Cli.MqttRtsp _ | Cli.CheckConfig | Cli.CloudAuthorise _ | Cli.RenderHassioConfig => internal
  end.

(** ** One session ([runner.rs]) *)

Definition op_budget_for (cmd : Cli.Command) : Z :=
  match cmd with Cli.Capture _ _ duration _ => secs (Z.min (duration + 15) u64_max) | _ => secs 30 end.

(** The chain of a [ConnectError]; [None]: the connecting unwound. *)
Definition connect_chain (e : ConnectError) : option Anyhow :=
  match e with
  | CameraPort.Auth e => (fun c => [Plain (lit "authentication failed"); Core c]) <$> core_of e
  | CameraPort.OtherError e => (fun c => [Plain (lit "connect failed"); Core c]) <$> core_of e
  | CameraPort.Timeout phase => Some [Plain phase]
  end.

(** [cancelled]: Ctrl+C came first. [connected]: what [connect_with_phase_timeouts]
    gave, with the connection as the login left it. [takes]: the time of a body that
    does return. The session ends whatever became of the body; its logout is given
    five seconds and its result dropped. *)
Definition run_with_op_budget {A} (cancelled : bool) (connected : result World ConnectError) (op_timeout takes : Z)
    (op : Body A) : Ended A * option World :=
  if cancelled then (Returned (Err [Interrupted]), None)
  else match connected with
  | Err e => (match connect_chain e with Some chain => Returned (Err chain) | None => Unwound end, None)
  | Ok w =>
      let timed_out := Returned (Err [Plain (lit "operation timed out")]) in
      match op w with
      | (Unwound, w) => (Unwound, Some w)
      | (Waiting, w) => (timed_out, Some (snd (logout w)))
      | (Returned r, w) => (if takes <=? op_timeout then Returned r else timed_out, Some (snd (logout w)))
      end
  end.

(** ** The process ([run_support.rs]) *)

Inductive File := NotFound | Unreadable | Contents (text : str).

Inductive ConfigLoadError := LoadNotFound | LoadRead | LoadParse | LoadValidate.

Definition parse_config_file `{TT : TomlText} (file : File) : result Config ConfigLoadError :=
  match file with
  | NotFound => Err LoadNotFound
  | Unreadable => Err LoadRead
  | Contents text => match parse_config text with Ok c => Ok c | Err _ => Err LoadParse end
  end.

Definition load_config_file `{TT : TomlText} (file : File) (auth : option Config.CloudAuth) (now : Z)
    : result Config ConfigLoadError :=
  match file with
  | NotFound => Err LoadNotFound
  | Unreadable => Err LoadRead
  | Contents text =>
      match load_config text auth now with
      | Ok c => Ok c
      | Err (ParseFailed _) => Err LoadParse
      | Err (Invalid _) => Err LoadValidate
      end
  end.

Definition load_code (e : ConfigLoadError) : Z := match e with LoadNotFound => EXIT_USAGE | _ => EXIT_CONFIG end.
Definition load_cause (e : ConfigLoadError) : Cause := match e with LoadNotFound => Usage | _ => BadConfigCause end.

Definition find_camera_config (config : Config) (camera_name : str) : result CameraConfig Anyhow :=
  match List.find (fun c => bool_decide (cam_name c = camera_name)) (cameras config) with
  | Some c => Ok c
  | None => Err [Usage]
  end.

Definition snapshot_json_preflight (json : bool) (cmd : Cli.Command) : result unit Anyhow :=
  match cmd with Cli.Snapshot _ output _ _ => check_json_output json output | _ => Ok tt end.

(** The exit code, and on success what was done or on failure the kind reported. *)
Definition Exit : Type := Z * result Done str.

Definition exit_of (r : result Done Anyhow) : Exit :=
  match r with
  | Ok d => (EXIT_OK, Ok d)
  | Err e => let code := classify e in (code, Err (exit_code_to_kind code))
  end.

(** The summary of [check-config] is no outcome: [None]. *)
Inductive Finished := Finish (e : Exit) | Plainly (code : Z) | Hung | Panics.

Definition of_ended (r : Ended Done) : Finished :=
  match r with Returned r => Finish (exit_of r) | Waiting => Hung | Unwound => Panics end.

(** What is around the process: the file, the stored credential and the clock; the
    session of a camera; what there was in the capture's file; the exchange of
    [cloud-authorise]. *)
Record Process := MkProcess {
  config_file : File;
  stored_auth : option Config.CloudAuth;
  clock_now : Z;
  ctrl_c : bool;
  connect_to : CameraConfig -> result World ConnectError;
  around : Around;
  capture_file : bytes;
  authorise : Config -> str -> Z
}.

(** Reading every service is the body whose time is counted here: another that is
    late is one that waits. *)
Definition op_time (env : Around) (cmd : Cli.Command) : Z :=
  match cmd with Cli.Services _ None _ => fst (run_all (read_service env)) | _ => 0 end.

Definition with_camera `{TT : TomlText} (p : Process) (json : bool) (cmd : Cli.Command) : Ended Done :=
  match load_config_file (config_file p) (stored_auth p) (clock_now p) with
  | Err e => Returned (Err [load_cause e])
  | Ok config =>
      match Cli.camera_name cmd with
      | None => Returned (Err [Usage])
      | Some name =>
          match find_camera_config config name with
          | Err e => Returned (Err e)
          | Ok cam_cfg =>
              fst (run_with_op_budget (ctrl_c p) (connect_to p cam_cfg) (op_budget_for cmd) (op_time (around p) cmd)
                     (dispatch_oneshot (around p) (capture_file p) cmd json))
          end
      end
  end.

(** [run_oneshot]. *)
Definition run_oneshot `{TT : TomlText} (p : Process) (json : bool) (cmd : Cli.Command) : Finished :=
  match cmd with
  | Cli.CheckConfig =>
      match load_config_file (config_file p) (stored_auth p) (clock_now p) with
      | Ok _ => Plainly EXIT_OK
      | Err e => Finish (load_code e, Err (exit_code_to_kind (load_code e)))
      end
  | Cli.CloudAuthorise method =>
      match parse_config_file (config_file p) with
      | Ok config => Plainly (authorise p config method)
      | Err e => Plainly (load_code e)
      end
  | _ =>
      match snapshot_json_preflight json cmd with
      | Err _ => Finish (EXIT_USAGE, Err (lit "usage"))
      | Ok _ => of_ended (with_camera p json cmd)
      end
  end.

(** ** Exit codes mean what they say *)

(** The code is that of the first cause that is told apart. *)
Lemma classify_plain messages c : Forall (fun x => exists m, x = Plain m) messages -> classify (messages ++ c) = classify c.
Proof. induction 1 as [|x l [m ->] _ IH]; [done | exact IH]. Qed.

Lemma classify_codes e :
  In (classify e) [EXIT_UNEXPECTED; EXIT_USAGE; EXIT_CONFIG; EXIT_CONNECTION; EXIT_PROTOCOL; EXIT_UNSUPPORTED; EXIT_INTERRUPTED].
Proof.
  induction e as [|[| | |e|m] l IH]; [cbn; auto | cbn; auto 10 | cbn; auto 10 | cbn; auto 10 | | exact IH].
  destruct e; cbn; auto 10.
Qed.

(** A run that ends says "done" with code zero, and only then; every other run has one
    of the seven codes and its kind. *)
Theorem exit_code_truthful `{TT : TomlText} p json cmd code r :
  run_oneshot p json cmd = Finish (code, r) ->
  match r with
  | Ok _ => code = EXIT_OK
  | Err kind =>
      kind = exit_code_to_kind code
      /\ In code [EXIT_UNEXPECTED; EXIT_USAGE; EXIT_CONFIG; EXIT_CONNECTION; EXIT_PROTOCOL; EXIT_UNSUPPORTED; EXIT_INTERRUPTED]
  end.
Proof.
  assert (forall x, of_ended x = Finish (code, r) -> match r with Ok _ => code = EXIT_OK | Err kind =>
    kind = exit_code_to_kind code /\ In code [EXIT_UNEXPECTED; EXIT_USAGE; EXIT_CONFIG; EXIT_CONNECTION; EXIT_PROTOCOL;
      EXIT_UNSUPPORTED; EXIT_INTERRUPTED] end) as Hof.
  { intros [[d|e]| |] [= <- <-]; [done |]. split; [done | apply classify_codes]. }
  intros H. unfold run_oneshot in H.
  destruct cmd; try (by destruct (snapshot_json_preflight _ _); [exact (Hof _ H) | injection H as <- <-; cbn; auto]).
  - destruct (load_config_file _ _ _) as [c|[]]; try discriminate; injection H as <- <-; cbn; auto 10.
  - destruct (parse_config_file _) as [c|[]]; discriminate.
Qed.

(** A camera the configuration does not have is a usage error, whatever the command;
    no session is begun for it. *)
Lemma unknown_camera `{TT : TomlText} p json cmd config name :
  load_config_file (config_file p) (stored_auth p) (clock_now p) = Ok config ->
  Cli.camera_name cmd = Some name -> ~ In name (map cam_name (cameras config)) ->
  run_oneshot p json cmd = Finish (EXIT_USAGE, Err (lit "usage")).
Proof.
  intros Hl Hn Hi.
  assert (find_camera_config config name = Err [Usage]) as Hf.
  { unfold find_camera_config. destruct (List.find _ _) as [c|] eqn:E; [| done].
    apply find_some in E as [E1 E2]. apply bool_decide_eq_true in E2 as <-.
    destruct Hi. by apply in_map. }
  assert (of_ended (with_camera p json cmd) = Finish (EXIT_USAGE, Err (lit "usage"))) as Hw
    by (unfold with_camera; by rewrite Hl, Hn, Hf).
  destruct cmd; try discriminate Hn; unfold run_oneshot; try exact Hw.
  by destruct (snapshot_json_preflight _ _).
Qed.

(** ** A session is logged out *)

(** Unless Ctrl+C came first or the body unwound, a session that was begun is logged
    out in the end, by a body that failed or was cut off too: the last message sent is
    the logout, if the body left the session logged in and the connection takes it. *)
Theorem session_logged_out {A} (w : World) budget takes (op : Body A) r w' :
  run_with_op_budget false (Ok w) budget takes op = (r, w') -> r <> Unwound ->
  logged_in (cam (snd (op w))) = true -> (exists l, acks (snd (op w)) = None :: None :: l) ->
  exists w1 before m, w' = Some w1 /\ logged_in (cam w1) = false
    /\ trace w1 = trace (snd (op w)) ++ before ++ [Send m] /\ msg_id (meta m) = MSG_ID_LOGOUT.
Proof.
  intros H Hr Hin [l Hl].
  assert (w' = Some (snd (logout (snd (op w))))) as ->.
  { unfold run_with_op_budget in H. destruct (op w) as [[ | | ] w1]; cbn in *; congruence. }
  destruct (snd (op w)) as [c t a i]. cbn in *. subst a.
  eexists _, _, _. split_and!; [reflexivity | | |].
  - unfold logout, bind, gets, modify, new_message_num. cbn. rewrite Hin. cbn. reflexivity.
  - unfold logout, bind, gets, modify, new_message_num. cbn. rewrite Hin. cbn. by rewrite <- app_assoc.
  - reflexivity.
Qed.

(** ** The bodies do what they say *)

Definition waits_of (l : list (Z * Item)) : Z := foldr Z.add 0 (map fst l).

Lemma waits_of_cons w i l : waits_of ((w, i) :: l) = w + waits_of l.
Proof. reflexivity. Qed.

Definition packets_of (l : list (Z * Item)) : list BcMedia :=
  omap (fun x => match snd x with Ok (Ok p) => Some p | _ => None end) l.

(** Why a window ends after [pre]: its time is over, nothing comes in what is left of
    it, or the stream's error does. *)
Inductive window_over (window : Z) (pre : list (Z * Item)) : list (Z * Item) -> (Z -> DrainOutcome) -> Prop :=
| over_full post : waits_of pre = window -> window_over window pre post WindowElapsed
| over_silent : window_over window pre [] WindowElapsed
| over_late wait item post : window < waits_of pre + wait -> window_over window pre ((wait, item) :: post) WindowElapsed
| over_error wait e post :
    waits_of pre + wait <= window -> window_over window pre ((wait, Err e) :: post) StreamEnded.

(** Of a window the packets are taken and counted up to its end, in order; a packet
    the decoder refused is passed over. *)
Theorem capture_exact disk window l d :
  0 <= window -> Forall (fun x => 0 <= fst x) l ->
  exists pre post ended,
    l = pre ++ post /\ waits_of pre <= window
    /\ Forall (fun x => exists i, snd x = Ok i) pre
    /\ window_over window pre post ended
    /\ drain_for_window disk window 0 d l
       = (ended (Z.of_nat (length (packets_of pre))), fold_left (write_frame disk) (packets_of pre) d).
Proof.
  intros Hw Hl.
  assert (forall n, exists pre post ended,
    l = pre ++ post /\ waits_of pre <= window /\ Forall (fun x => exists i, snd x = Ok i) pre
    /\ window_over window pre post ended
    /\ drain_for_window disk window n d l
       = (ended (n + Z.of_nat (length (packets_of pre))), fold_left (write_frame disk) (packets_of pre) d)) as H;
    [| exact (H 0)].
  revert window d Hw. induction Hl as [|[wait item] l Hx _ IH]; intros window d Hw n.
  { exists [], [], WindowElapsed. cbn. rewrite Z.add_0_r.
    split_and!; [done | lia | done | apply over_silent | by destruct (window =? 0)]. }
  cbn [drain_for_window]. destruct (Z.eqb_spec window 0) as [->|Hnz].
  { exists [], ((wait, item) :: l), WindowElapsed. cbn. rewrite Z.add_0_r.
    split_and!; [done | lia | done | by apply over_full | done]. }
  cbn in Hx. destruct (Z.leb_spec wait window) as [Hle|Hlt]; cbn [negb].
  2: { exists [], ((wait, item) :: l), WindowElapsed. cbn. rewrite Z.add_0_r.
       split_and!; [done | lia | done | apply over_late; cbn; lia | done]. }
  destruct item as [i|e].
  2: { exists [], ((wait, Err e) :: l), StreamEnded. cbn. rewrite Z.add_0_r.
       split_and!; [done | lia | done | apply over_error; cbn; lia | done]. }
  assert (forall d' n', exists pre post ended,
    (wait, Ok i) :: l = ((wait, Ok i) :: pre) ++ post /\ waits_of ((wait, Ok i) :: pre) <= window
    /\ Forall (fun x => exists i, snd x = Ok i) ((wait, Ok i) :: pre)
    /\ window_over window ((wait, Ok i) :: pre) post ended
    /\ drain_for_window disk (window - wait) n' d' l
       = (ended (n' + Z.of_nat (length (packets_of pre))), fold_left (write_frame disk) (packets_of pre) d')) as Hstep.
  { intros d' n'. destruct (IH (window - wait) d' ltac:(lia) n') as (pre & post & ended & -> & H1 & H2 & H3 & H4).
    exists pre, post, ended. rewrite waits_of_cons. split_and!; [done | lia | constructor; eauto | | done].
    destruct H3; [apply over_full | apply over_silent | apply over_late | apply over_error]; rewrite waits_of_cons; lia. }
  destruct i as [p|e].
  - destruct (Hstep (write_frame disk d p) (n + 1)) as (pre & post & ended & H1 & H2 & H3 & H4 & H5).
    exists ((wait, Ok (Ok p)) :: pre), post, ended. split_and!; [done..|]. rewrite H5. cbn [packets_of omap list_omap snd length fold_left].
    by replace (n + 1 + _) with (n + Z.of_nat (S (length (packets_of pre)))) by lia.
  - destruct (Hstep d n) as (pre & post & ended & H1 & H2 & H3 & H4 & H5).
    exists ((wait, Ok (Err e)) :: pre), post, ended. by split_and!.
Qed.

(** A snapshot from the stream is its first key frame, if that comes in time and no
    error before it. *)
Theorem first_iframe_exact window l f :
  0 < window -> Forall (fun x => 0 <= fst x) l ->
  drain_first_iframe window l = Ok f <->
  exists pre wait post,
    l = pre ++ (wait, Ok (Ok (Iframe f))) :: post /\ waits_of pre < window /\ waits_of pre + wait <= window
    /\ Forall (fun x => exists p, snd x = Ok (Ok p) /\ forall f, p <> Iframe f) pre.
Proof.
  intros Hw Hl. revert window Hw. induction Hl as [|[wait item] l Hx Hl' IH]; intros window Hw.
  { cbn. rewrite (proj2 (Z.eqb_neq _ _)) by lia. split; [done | intros ([|? ?] & ? & ? & ? & _); done]. }
  cbn [drain_first_iframe]. rewrite (proj2 (Z.eqb_neq _ _)) by lia. cbn in Hx. split.
  - destruct (Z.leb_spec wait window) as [Hle|]; [| done]. cbn [classify_stream_step].
    destruct item as [[p|e]|e]; [| done | done]. intros H.
    assert ((exists f', p = Iframe f') \/ (forall f', p <> Iframe f')) as [[f' ->]|Hp] by (destruct p; eauto; right; done).
    { injection H as ->. exists [], wait, l. cbn. split_and!; [done | lia | lia | constructor]. }
    assert (drain_first_iframe (window - wait) l = Ok f) as H' by (destruct p; try done; by destruct (Hp f0)).
    assert (window - wait <> 0) as Hne by (intros E; rewrite E in H'; destruct l as [|[? ?] ?]; done).
    apply IH in H' as (pre & w & post & -> & H1 & H2 & H3); [| lia].
    exists ((wait, Ok (Ok p)) :: pre), w, post. rewrite waits_of_cons. split_and!; [done | lia | lia |]. constructor; [cbn; eauto | done].
  - intros (pre & w & post & E & H1 & H2 & H3). destruct pre as [|x pre].
    + injection E as -> -> ->. cbn in H2. rewrite (proj2 (Z.leb_le _ _)) by lia. done.
    + injection E as <- ->. inversion H3 as [|? ? (p & Hp & Hn) H3']; subst. cbn in Hp. subst item. rewrite waits_of_cons in H1, H2.
      assert (0 <= waits_of pre) as Hpos.
      { apply Forall_app in Hl' as [Hl' _]. clear -Hl'. induction Hl' as [|[a b] q Ha _ IHq]; [done | rewrite waits_of_cons; cbn in Ha; lia]. }
      assert (0 <= w) as Hw'.
      { apply Forall_app in Hl' as [_ Hl']. by inversion Hl'. }
      rewrite (proj2 (Z.leb_le _ _)) by lia.
      replace (classify_stream_step _) with More by (destruct p; try done; by destruct (Hn f0)).
      apply IH; [lia |]. exists pre, w, post. split_and!; [done | lia | lia | done].
Qed.

(** What the listing shows of an ability is what the gate of the commands was built
    from: the entries, taken in order, make the same table. *)
Definition grant (m : gmap bytes ReadKind) (e : AbilityEntry) : gmap bytes ReadKind :=
  match read_kind (kind e) with Some k => <[ability_name e := k]> m | None => m end.

Lemma flatten_value_grants module_ raw m :
  fold_left grant (flatten_value module_ raw) m = insert_ability m raw.
Proof.
  destruct raw as [|c raw]; [done |]. unfold flatten_value, insert_ability.
  destruct (rsplit_once 95 (c :: raw)) as [[name k]|]; [| done]. unfold read_kind.
  destruct (bool_decide (k = lit "rw")) eqn:E1; [| destruct (bool_decide (k = lit "ro")) eqn:E2];
    cbn [negb andb fold_left]; unfold grant, read_kind; cbn [kind ability_name]; by rewrite ?E1, ?E2.
Qed.

Lemma flatten_token_grants module_ t m :
  fold_left grant (flatten_token module_ t) m
  = fold_left insert_ability
      (s ← token_sub_module t; split 44 (List.filter (fun c => negb (c =? 32)) (sub_ability_value s))) m.
Proof.
  unfold flatten_token. revert m. induction (token_sub_module t) as [|s l IH]; intros m; [done |].
  cbn. rewrite !fold_left_app, IH. f_equal. clear IH. revert m.
  induction (split 44 _) as [|v vs IHv]; intros m; [done |].
  cbn. by rewrite fold_left_app, flatten_value_grants.
Qed.

Lemma flatten_tokens_grants ms (ts : list (option AbilityInfoToken)) m :
  length ms = length ts ->
  fold_left grant (concat (zip_with (fun m t => match t with Some t => flatten_token m t | None => [] end) ms ts)) m
  = fold_left insert_ability
      (t ← omap (fun t => t) ts; s ← token_sub_module t;
       split 44 (List.filter (fun c => negb (c =? 32)) (sub_ability_value s))) m.
Proof.
  revert ms m. induction ts as [|t ts IH]; intros [|x ms] m [=]; [done |].
  cbn [zip_with concat]. rewrite fold_left_app, IH by done.
  destruct t as [t|]; [| done].
  cbn [omap list_omap mbind list_bind]. by rewrite fold_left_app, flatten_token_grants.
Qed.

Theorem flatten_gate info m :
  fold_left grant (flatten info) m = fold_left insert_ability (ability_values info) m.
Proof. by apply flatten_tokens_grants. Qed.

(** *** Services *)

Lemma read_entry_time k r : (forall t x, r = Some (t, x) -> 0 <= t) -> 0 <= fst (read_entry k r) <= PER_RPC_TIMEOUT.
Proof.
  unfold read_entry, PER_RPC_TIMEOUT, secs. intros H. destruct r as [[t x]|]; [| cbn; lia].
  specialize (H t x eq_refl). destruct (Z.leb_spec t (8 * 1000000000)); cbn; lia.
Qed.

(** Four services that do not answer take all of the budget: nothing of the others'
    answers is printed, and the process ends as by an unexpected error. *)
Theorem services_partial_lost `{TT : TomlText} p json camera action config cfg w ks :
  load_config_file (config_file p) (stored_auth p) (clock_now p) = Ok config ->
  find_camera_config config camera = Ok cfg -> ctrl_c p = false -> connect_to p cfg = Ok w ->
  (forall k t x, read_service (around p) k = Some (t, x) -> 0 <= t) ->
  NoDup ks -> length ks = 4%nat -> (forall k, In k ks -> read_service (around p) k = None) ->
  run_oneshot p json (Cli.Services camera None action) = Finish (EXIT_UNEXPECTED, Err (lit "internal")).
Proof.
  intros Hl Hf Hc Hw Ht Hn H4 Hk.
  assert (fst (run_all (read_service (around p))) <=? secs 30 = false) as Hlate.
  { apply Z.leb_gt. unfold run_all. cbn [fst ALL map foldr].
    set (e k := fst (read_entry k (read_service (around p) k))).
    assert (forall k, 0 <= e k) as He by (intros k; apply (read_entry_time k _ (Ht k))).
    assert (forall k, In k ks -> e k = PER_RPC_TIMEOUT) as Hs by (intros k H; unfold e; by rewrite (Hk k H)).
    change (secs 30 < foldr Z.add 0 (map e ALL)).
    assert (forall l, foldr Z.add 0 (map e l) >= 0) as Hpos
      by (induction l as [|x l IH]; [done | cbn; specialize (He x); lia]).
    assert (forall ks l, (forall k, In k ks -> e k = PER_RPC_TIMEOUT) -> ks ⊆+ l ->
      foldr Z.add 0 (map e l) >= PER_RPC_TIMEOUT * Z.of_nat (length ks)) as Hsub.
    { intros ks' l Hks Hsub. apply submseteq_Permutation in Hsub as [k Hp].
      assert (forall a b, a ≡ₚ b -> foldr Z.add 0 (map e a) = foldr Z.add 0 (map e b)) as Hperm
        by (induction 1; cbn; lia).
      rewrite (Hperm _ _ Hp). clear Hp. induction ks' as [|x ks' IH]; cbn; [apply Z.le_ge; specialize (Hpos k); lia |].
      rewrite (Hks x) by (by left). specialize (IH (fun k H => Hks k (or_intror H))). lia. }
    assert (ks ⊆+ ALL) as Hin by (apply NoDup_submseteq; [done |]; intros [] _; unfold ALL; set_solver).
    pose proof (Hsub ks ALL Hs Hin) as H. rewrite H4 in H. unfold PER_RPC_TIMEOUT, secs in *. lia. }
  unfold run_oneshot, with_camera. cbn [snapshot_json_preflight Cli.camera_name op_budget_for op_time].
  rewrite Hl, Hf, Hc, Hw. unfold run_with_op_budget. cbn [dispatch_oneshot finish done]. by rewrite Hlate.
Qed.

(** When all six answer in time, each is listed with its own port and flag. *)
Lemma services_listed (states : ServiceKind -> ServicePortState) read t :
  (forall k, read k = Some (t, Ok (states k))) -> 0 <= t <= secs 5 ->
  run_all read = (6 * t, map (fun k => MkServiceEntry (label k) (service_port (states k)) (service_enabled (states k))) ALL).
Proof.
  intros H Ht. unfold run_all.
  assert (forall k, read_entry k (read k) = (t, MkServiceEntry (label k) (service_port (states k)) (service_enabled (states k)))) as E.
  { intros k. unfold read_entry. rewrite H, (proj2 (Z.leb_le _ _)); [done |]. unfold PER_RPC_TIMEOUT, secs in *. lia. }
  cbn [ALL map]. rewrite !E. cbn [fst snd foldr]. f_equal. lia.
Qed.

(** Port zero is refused before anything is sent. *)
Lemma port_zero_refused kind action w :
  action = APort 0 \/ (exists b, action = ASet 0 b) ->
  services_run kind action w = (Returned (Err [Usage]), w).
Proof. by intros [-> | [b ->]]. Qed.

(** *** Amounts *)

Lemma f32_bounds x :
  127 * 2 ^ 23 <= x <= 159 * 2 ^ 23 -> Commands.f32_is_finite x = true /\ f32_is_negative x = false.
Proof.
  intros H. split.
  - unfold Commands.f32_is_finite. apply negb_true_iff, Z.eqb_neq.
    change 255 with (Z.ones 8) at 1. rewrite Z.land_ones, Z.shiftr_div_pow2 by lia.
    assert (127 <= x / 2 ^ 23 <= 159) by (split; [apply Z.div_le_lower_bound | apply Z.div_le_upper_bound]; lia).
    rewrite Z.mod_small by (change (2 ^ 8) with 256; lia). lia.
  - unfold f32_is_negative. destruct (Z.eqb_spec x 0); [lia |].
    rewrite Z.bits_above_log2; [done | lia | apply Z.log2_lt_pow2; lia].
Qed.

(** An amount of the command line passes the check of [send_ptz]; below 2^24 it is
    sent as it is. *)
Theorem f32_of_u32_sound n :
  0 <= n < 2 ^ 32 ->
  Commands.f32_is_finite (f32_of_u32 n) = true /\ f32_is_negative (f32_of_u32 n) = false
  /\ (0 < n < 2 ^ 24 ->
      (f32_of_u32 n mod 2 ^ 23 + 2 ^ 23) * 2 ^ (f32_of_u32 n / 2 ^ 23) = n * 2 ^ 150).
Proof.
  intros Hn. unfold f32_of_u32. destruct (Z.eqb_spec n 0) as [->|Hnz]; [by split_and!; [| | lia] |].
  set (k := Z.log2 n). destruct (Z.log2_spec n) as [Hlo Hhi]; [lia |]. fold k in Hlo, Hhi.
  assert (0 <= k < 32) as Hk by (split; [apply Z.log2_nonneg | apply Z.log2_lt_pow2; lia]).
  destruct (Z.leb_spec k 23) as [Hsmall|Hbig].
  - assert (2 ^ 23 <= n * 2 ^ (23 - k) < 2 ^ 24) as Hm.
    { replace (2 ^ 23) with (2 ^ k * 2 ^ (23 - k)) by (rewrite <- Z.pow_add_r by lia; f_equal; lia).
      replace (2 ^ 24) with (2 ^ Z.succ k * 2 ^ (23 - k)) by (rewrite <- Z.pow_add_r by lia; f_equal; lia).
      pose proof (Z.pow_pos_nonneg 2 (23 - k)). nia. }
    destruct (f32_bounds ((127 + k) * 2 ^ 23 + (n * 2 ^ (23 - k) - 2 ^ 23))) as [H1 H2]; [lia |].
    split_and!; [done | done |]. intros _.
    rewrite (Z.add_comm (_ * 2 ^ 23)), Z.mod_add, Z.div_add by lia.
    rewrite Z.mod_small, Z.div_small by lia.
    replace (n * 2 ^ (23 - k) - 2 ^ 23 + 2 ^ 23) with (n * 2 ^ (23 - k)) by lia.
    rewrite <- Z.mul_assoc, <- Z.pow_add_r by lia. do 2 f_equal. lia.
  - assert (2 ^ 23 <= n / 2 ^ (k - 23) < 2 ^ 24) as Hq.
    { split; [apply Z.div_le_lower_bound | apply Z.div_lt_upper_bound];
        try (by apply Z.pow_pos_nonneg; lia); rewrite <- Z.pow_add_r by lia.
      - by replace (k - 23 + 23) with k by lia.
      - by replace (k - 23 + 24) with (Z.succ k) by lia. }
    apply and_assoc. split.
    + apply f32_bounds. destruct (_ || _); lia.
    + intros [_ H]. exfalso. assert (2 ^ 24 <= 2 ^ k) by (apply Z.pow_le_mono_r; lia). lia.
Qed.

(** Above it, the nearest even one. *)
Example f32_amounts :
  map f32_of_u32 [0; 1; 10; 16777217; 16777219; 4294967295]
  = [0; 0x3f800000; 0x41200000; 0x4b800000; 0x4b800002; 0x4f800000].
Proof. reflexivity. Qed.

(** *** What the codes leave out

    The README puts what fails to connect under code 4; a phase that exceeds its
    budget ends with 1, and a discovery that no relay accepted with 5. *)
Example connect_timeout_unexpected : option_map classify (connect_chain (CameraPort.Timeout (lit "connect"))) = Some 1.
Proof. reflexivity. Qed.

Example no_relay_protocol : classify [Plain (lit "connect failed"); Core DiscoveryNoRelay] = 5.
Proof. reflexivity. Qed.

(** A disk that takes nothing: the capture reports its packets all the same. *)
Example unwritten_capture (p : BcMedia) d :
  fst (drain_for_window (fun _ => false) (secs 1) 0 d [(0, Ok (Ok p)); (0, Ok (Ok p))]) = WindowElapsed 2
  /\ written (snd (drain_for_window (fun _ => false) (secs 1) 0 d [(0, Ok (Ok p)); (0, Ok (Ok p))])) = written d.
Proof. split; [done |]. cbn. unfold write_frame. by destruct (BcMedia.Ser.serialize p []). Qed.

End bodies.
